(* ===== verification/_CoqProject ===== *)
-Q . S2P
Prelude.v
Bytes.v
GoLib.v
IntEnc.v
BytesEnc.v
Hlc.v
Clock.v
KeyOps.v
Spans.v
KeyEnc.v
Durations.v
Decimals.v
GeoEnc.v
ScalarKeys.v
KeySide.v
KeySideOk.v
SqlOrder.v
KeySideArrays.v
MvccKey.v
RangeKeys.v
MvccValue.v
MvccIter.v
Scanner.v
ScanSpec.v
ScanNav.v
ScanVersion.v
ScanLoop.v
ScanReverse.v
ScanOk.v
LocalKeys.v
SqlKeys.v
PebbleResults.v
ScanRead.v
MvccRead.v
MvccReadOk.v
ReadExamples.v
StoreOps.v
MvccStats.v
StatsOk.v
StatsKeys.v
MvccWrite.v
MvccResolve.v
WriteSpec.v
WriteOk.v
ResolveSpec.v
PutOk.v
ResolveOk.v
PutReads.v
IntentOk.v
KeyStats.v
WriteStats.v
ResolveStats.v
WriteExamples.v
IntentExamples.v
Tracker.v
ClosedTs.v
Ring.v
