(* ===== verification/Prelude.v ===== *)
(** A verification library for the key space, the versioned store, the clock and the closed
    timestamps of Ratel, a Go database derived from CockroachDB (the sources are under src/).

    * The program and what is modelled

    Every SQL value, table, tenant and range ends up as a byte string in one ordered key
    space, and every version of a key carries a timestamp of a hybrid logical clock.  Reads at a
    timestamp pick a version of each key; writes add versions and, in a transaction, intents,
    which are resolved when the transaction ends; a range keeps statistics of what it stores.
    All this rests on a few facts: encodings sort as the values do, keys decode to what they
    were made from, prefixes and local keys stay inside their spans, a scan returns what one
    walk over the store would, writes and resolutions keep the store and its statistics in
    order, timestamps never run backwards, and no write lands at or below a timestamp that was
    closed.  The library models the code that carries these facts.  Its layers, from the bottom:

    - Prelude: results of Go functions ([res]), machine integers, slices and indexing, shared
      lemmas and tactics.  Bytes: the order of byte strings ([bytes_compare]).  GoLib: what
      the code uses of Go's copy, sort.Search and bytes packages.
    - IntEnc, BytesEnc, KeyEnc, Durations, Decimals, GeoEnc: the order-preserving encodings of
      src/pkg/util/encoding (encoding.go, decimal.go, float.go, complement_fast.go), with
      src/pkg/util/duration, src/pkg/util/bitarray and the bounding boxes of src/pkg/geo.
      Each encoding is an instance of [OrderedCodec] (IntEnc): it appends, it is monotone, and
      it decodes in front of any rest.
    - ScalarKeys, KeySide, KeySideOk, SqlOrder, KeySideArrays: src/pkg/sql/rowenc/keyside.
      [ScalarKey] states what a scalar encoding promises; KeySide has [Encode], [Decode] and
      [Skip]; KeySideOk proves them for scalars and KeySideArrays for all types by induction.
      SqlOrder has [Datum.Compare] of src/pkg/sql/sem/tree/datum.go and relates it to the order
      of the keys.
    - KeyOps and Spans: keys and spans of src/pkg/keysbase and src/pkg/roachpb (data.go,
      merge_spans.go).
    - Hlc and Clock: src/pkg/util/hlc (timestamp.go, hlc.go).
    - MvccKey and RangeKeys: src/pkg/storage (mvcc_key.go, engine_key.go, the comparer of
      pebble.go).  LocalKeys and SqlKeys: src/pkg/keys and src/pkg/roachpb/tenant.go.
    - MvccValue: versioned values, intents and uncertainty (mvcc_value.go, enginepb).  MvccIter:
      the iterator interface of engine.go, with its documented behaviour as the laws
      [IteratorLaws].
    - Scanner: the whole of pebble_mvcc_scanner.go.  ScanSpec has the reference scan, one walk over
      the positions of a snapshot; ScanNav, ScanVersion, ScanLoop, ScanReverse and ScanOk prove
      that the scanner computes it.  PebbleResults has the result buffers and their decoder.
    - MvccRead: [MVCCGet] and [MVCCScan] of mvcc.go.  ScanRead says what a reader sees of a key,
      MvccReadOk what the reads return, ReadExamples applies the theorems to a store.
    - MvccStats: the statistics of a range, the changes that writes make to them and their
      recomputation (enginepb/mvcc.go, mvcc.go).  StatsOk and StatsKeys: the statistics as a
      sum over positions and over keys.
    - MvccWrite: puts, deletions, conditional and initial puts (mvcc.go).  MvccResolve: the
      resolution of one intent.  StoreOps has changes to a store; WriteSpec and ResolveSpec what
      a write or a resolution finds at a key; WriteOk, PutOk, PutReads, ResolveOk and IntentOk
      what they do; KeyStats, WriteStats and ResolveStats what they do to the statistics;
      WriteExamples and IntentExamples apply the theorems to a store.
    - Tracker and ClosedTs: src/pkg/kv/kvserver/closedts/tracker and the part of
      replica_proposal_buf.go that assigns closed timestamps.  [Tracker] and [TrackerLaws] are
      the interface between them: ClosedTs is proved for any tracker with the laws, and the
      lock-free tracker is shown to have them.
    - Ring: src/pkg/util/ring/ring_buffer.go.

    * How code becomes definitions

    A function keeps its Go name; a method [m] of a type [T] is [T_m], or [m] where that is
    clear.  Structs are records.  Byte slices are lists of integers, with spare capacity as an
    argument where the code looks at it.  Integers are [Z] with every wrap-around written out
    ([u64], [s64], [u32], [s32], [u8]); only the counters and ages of the statistics are
    unbounded integers, so the theorems about statistics hold as long as the source's int64 do
    not overflow.  A Go error is [Err] and a panic or [log.Fatalf] is [Panic]; errors that
    callers inspect are values of a type, and those of writes come with the writer as it is when
    the call fails.  Methods that change their receiver return the new value.  Concurrent code
    (Clock, Tracker, ClosedTs) is a relation between states whose steps are the atomic actions
    of the source: a section under a mutex, or one atomic load, store or compare-and-swap.
    The steps of Clock let the 32-bit logical component wrap around.  Those of Tracker assume of
    the callers positive wall times and fewer requests at a time than the largest int32.

    Code outside the repository is a parameter with the laws its documentation gives: the
    decimal library ([ApdLib]), geometry and its marshalling ([GeoLib]), collation
    ([CollateLib]), Pebble's default comparer ([PebbleLib]), SHA-256, generated marshalling
    ([HeaderLaws], [MetaLaws]), Pebble's iterators ([IteratorLaws], [IntentSeeks]), its batches
    ([WriterLaws]), and the memory account, batch and lock table of a scanner ([ScanLib],
    [ScanLaws]); the time zone of a session is a function.  A theorem that uses such laws is
    also applied to a concrete instance.

    * What the theorems show

    - Encodings: round trips, order in both directions and sizes, for integers, byte strings,
      floats, decimals, durations, bit arrays, boxes and spatial objects; and for index keys of
      every SQL type with a key encoding, arrays of any depth included ([keyside_order],
      [keyside_roundtrip], [keyside_skip]).  Where keys and SQL order values differently
      (intervals, dates read from disk out of range, timestamps across a change of the session's
      offset) the statement says so.
    - Engine order: the comparer orders encoded versions by key and then newest first
      ([mvcc_key_order]), meets the contract of a Pebble comparer ([comparer_contract]) and
      agrees with its equality; stacks of range keys stay sorted and do what filtering does.
    - Key space: addresses, range-local and lock-table keys, metadata lookups, spans of tenants
      and actors, row prefixes and split keys; merging and subtraction of spans as sets.
    - Reads: with every option, in both directions, the scanner computes the reference scan
      ([scan_refines]); the result buffers are a list ([results_refine]).  Consistent gets and
      scans without an uncertainty interval, fail-on-more-recent and skip-locked return what a
      reader at the timestamp sees ([MVCCScan_reads], [MVCCGet_reads]), whatever is written above
      it ([snapshot_reads]).
    - Writes: puts keep the store well-formed ([put_keeps_store]), write what is then read
      ([MVCCPut_then_get]), go above what is newer ([MVCCPut_too_old]) and stop at foreign intents
      ([put_stops_at_intent]); conditional puts write exactly if a get finds what is expected.
    - Intents: their resolution keeps the store ([resolve_keeps_store]), commits, moves, rolls
      back or removes exactly what it should ([resolve_commits], [resolve_pushes],
      [put_then_abort]) and leaves the intents of others alone ([resolve_skips]).
    - Statistics: what puts and resolutions add to the statistics is what a recomputation from the
      store finds, at any time ([put_keeps_stats], [resolve_keeps_stats], [ComputeStats_ages]).
    - Clock: causality under every interleaving until the logical component wraps around
      ([hlc_causality]), the offset bound, and termination of the compare-and-swap loop.
    - Closed timestamps: the tracker's invariants, the progress of its bound and the
      termination of [Track] under every schedule; and the promise that no request of the
      current lease evaluates at or below a closed timestamp ([closed_timestamp_promise]).
    - Ring buffer: it implements lists ([ring_refines]).

    * Fuel and bounds

    Loops that are not structural take fuel computed from the input (its length plus one, as
    every turn consumes a byte or an element), and a lemma shows that this much is enough: the
    theorems are about the functions with that fuel and conclude a result.  The loops of the
    scanner and of [ComputeStats] take one unit per position of the snapshot, which their theorems
    ask for ([scannable]) and show to be enough.  Loops whose number of turns depends on other
    threads are steps of a relation, with a bound on the number of steps.  Lengths of slices
    are unbounded naturals; the theorems that need a length in 64 bits say so.

    * Not modelled

    The map from definitions to lines is kept beside the library.  Left out are: printing and
    debug forms, protobuf plumbing, logging and metrics everywhere; sharing of backing arrays
    between slices, except where the code edits a caller's slice; calendar arithmetic of
    durations; the value-side encodings; of the versioned store garbage collection, increments,
    merges, range deletions, the resolution of ranges of intents, columnar results, [MVCCIterate]
    and the visitors of [ComputeStats]; inline values are modelled, and the theorems about
    puts are about versions; Pebble itself; Raft, command evaluation and the flushing of the
    proposal buffer; the lock table, the timestamp cache and the allocator; transaction
    coordination; the SQL front end and execution; jobs, catalog, schema changes; networking,
    servers, tools and the user interface.  These are input and output, generated code, clients
    of libraries that are not in the repository, or parts that later work can add. *)
From stdpp Require Export prelude strings.
From Stdlib Require Export ZArith Lia.
From Stdlib Require Import Orders OrdersTac.

Global Open Scope Z_scope.

(** * Go results

    A Go function that can fail returns an error or panics.  Values returned
    beside a non-nil error are dropped: [Err] carries the message only. *)

Inductive res (A : Type) : Type :=
| Ok (a : A)
| Err (msg : string)
| Panic (msg : string).
Arguments Ok {A} a.
Arguments Err {A} msg.
Arguments Panic {A} msg.

#[export] Instance res_ret : MRet res := fun A a => Ok a.
#[export] Instance res_bind : MBind res := fun A B k c =>
  match c with Ok a => k a | Err e => Err e | Panic e => Panic e end.
#[export] Instance res_fmap : FMap res := fun A B f c =>
  match c with Ok a => Ok (f a) | Err e => Err e | Panic e => Panic e end.

Definition is_ok {A} (r : res A) : bool :=
  match r with Ok _ => true | _ => false end.

Lemma res_bind_Ok {A B} (k : A -> res B) (a : A) : (Ok a ≫= k) = k a.
Proof. reflexivity. Qed.

Lemma res_bind_inv {A B} (k : A -> res B) (c : res A) (b : B) :
  (c ≫= k) = Ok b -> exists a, c = Ok a /\ k a = Ok b.
Proof. destruct c; simpl; intros H; try discriminate H; eauto. Qed.

(** * Machine integers

    A w-bit unsigned integer is a [Z] in [0, 2^w); a w-bit signed integer is a
    [Z] in [-2^(w-1), 2^(w-1)).  [wrapU]/[wrapS] are Go's conversions. *)

Definition wrapU (w z : Z) : Z := z mod 2 ^ w.
Definition wrapS (w z : Z) : Z := (z + 2 ^ (w - 1)) mod 2 ^ w - 2 ^ (w - 1).

Abbreviation u8 := (wrapU 8).
Abbreviation u32 := (wrapU 32).
Abbreviation u64 := (wrapU 64).
Abbreviation s32 := (wrapS 32).
Abbreviation s64 := (wrapS 64).

Abbreviation MaxInt32 := 2147483647.
Abbreviation MinInt32 := (-2147483648).
Abbreviation MaxInt64 := 9223372036854775807.
Abbreviation MinInt64 := (-9223372036854775808).
Abbreviation MaxUint32 := 4294967295.
Abbreviation MaxUint64 := 18446744073709551615.

Definition isU (w z : Z) : Prop := 0 <= z < 2 ^ w.
Definition isS (w z : Z) : Prop := - 2 ^ (w - 1) <= z < 2 ^ (w - 1).

Lemma wrapU_range w z : 0 <= w -> isU w (wrapU w z).
Proof. intros. apply Z.mod_pos_bound. lia. Qed.

Lemma wrapU_id w z : isU w z -> wrapU w z = z.
Proof. intros [??]. apply Z.mod_small. lia. Qed.

Lemma wrapS_range w z : 1 <= w -> isS w (wrapS w z).
Proof.
  intros. unfold wrapS, isS.
  pose proof (Z.mod_pos_bound (z + 2 ^ (w - 1)) (2 ^ w) ltac:(lia)) as B.
  replace (2 ^ w) with (2 * 2 ^ (w - 1)) in *; [lia|].
  rewrite <- Z.pow_succ_r by lia. f_equal. lia.
Qed.

Lemma wrapS_id w z : 1 <= w -> isS w z -> wrapS w z = z.
Proof.
  intros Hw [??]. unfold wrapS. rewrite Z.mod_small; [lia|].
  replace (2 ^ w) with (2 * 2 ^ (w - 1)); [lia|].
  rewrite <- Z.pow_succ_r by lia. f_equal. lia.
Qed.

(** Wrapping an intermediate result does not matter. *)
Lemma wrapS_sub_l w a b : wrapS w (wrapS w a - b) = wrapS w (a - b).
Proof.
  unfold wrapS. f_equal.
  replace (_ - 2 ^ (w - 1) - b + 2 ^ (w - 1)) with ((a + 2 ^ (w - 1)) mod 2 ^ w - b) by lia.
  rewrite Zminus_mod_idemp_l. f_equal. lia.
Qed.

(** Go's [^v] on an unsigned integer. *)
Lemma wrapU_lnot w z : isU w z -> wrapU w (Z.lnot z) = 2 ^ w - 1 - z.
Proof.
  intros [??]. unfold wrapU, Z.lnot.
  symmetry. apply (Z.mod_unique _ _ (-1)); lia.
Qed.

(** [arith] is [lia] that knows [/] and [mod] by constants. *)
Ltac arith :=
  unfold isU, isS in *; Z.div_mod_to_equations; lia.

(** * Byte strings *)

Abbreviation bytes := (list Z).

(** Every element of a Go byte slice is in [0, 256). *)
Definition byte_ok (b : Z) : Prop := 0 <= b < 256.
Definition bytes_ok (l : bytes) : Prop := Forall byte_ok l.

Lemma byte_ok_u8 z : byte_ok (u8 z).
Proof. apply (wrapU_range 8). lia. Qed.

Lemma bytes_ok_app a b : bytes_ok (a ++ b) <-> bytes_ok a /\ bytes_ok b.
Proof. apply Forall_app. Qed.

Lemma bytes_ok_cons x l : bytes_ok (x :: l) <-> byte_ok x /\ bytes_ok l.
Proof. apply Forall_cons. Qed.

Lemma bytes_ok_nil : bytes_ok [].
Proof. constructor. Qed.

(** Go's [^b] on a byte. *)
Definition notb (b : Z) : Z := u8 (Z.lnot b).

Lemma notb_eq b : byte_ok b -> notb b = 255 - b.
Proof. intros. apply (wrapU_lnot 8). assumption. Qed.

Lemma notb_ok b : byte_ok (notb b).
Proof. apply byte_ok_u8. Qed.

Lemma notb_involutive b : byte_ok b -> notb (notb b) = b.
Proof.
  intros H. rewrite (notb_eq (notb b)) by apply notb_ok.
  rewrite notb_eq by assumption. lia.
Qed.

(** * Go slices *)

(** [b[i:]] and [b[i]], which panic out of range. *)
Definition slice_from (b : bytes) (i : Z) : res bytes :=
  if (0 <=? i) && (i <=? Z.of_nat (length b)) then Ok (drop (Z.to_nat i) b)
  else Panic "slice bounds out of range".
Definition go_index (b : bytes) (i : Z) : res Z :=
  if (0 <=? i) && (i <? Z.of_nat (length b))
  then Ok (nth (Z.to_nat i) b 0) else Panic "index out of range".

Lemma slice_from_app (a b : bytes) i :
  i = Z.of_nat (length a) -> slice_from (a ++ b) i = Ok b.
Proof.
  intros ->. unfold slice_from. rewrite length_app, Nat2Z.id, drop_app_length.
  destruct (Z.leb_spec 0 (Z.of_nat (length a))); [|lia].
  destruct (Z.leb_spec (Z.of_nat (length a)) (Z.of_nat (length a + length b))); [done|lia].
Qed.

Lemma go_index_app (a b : bytes) x i :
  i = Z.of_nat (length a) -> go_index (a ++ x :: b) i = Ok x.
Proof.
  intros ->. unfold go_index. rewrite length_app, Nat2Z.id, nth_middle. cbn [length].
  destruct (Z.leb_spec 0 (Z.of_nat (length a))); [|lia].
  destruct (Z.ltb_spec (Z.of_nat (length a)) (Z.of_nat (length a + S (length b)))); [done|lia].
Qed.

Lemma slice_from_1 x l : slice_from (x :: l) 1 = Ok l.
Proof. by apply (slice_from_app [x] l). Qed.
Lemma go_index_0 x l : go_index (x :: l) 0 = Ok x.
Proof. by apply (go_index_app [] l). Qed.
