(* ===== verification/Bytes.v ===== *)
(** Byte-string order.

    Go compares keys with [bytes.Compare]: lexicographic on unsigned bytes, a
    proper prefix first.  This file gives that comparison ([bytes_compare]),
    the total order it induces with an [order]-style decision tactic
    ([border]), the comparison of concatenations that every order-preserving
    encoding rests on, and big-endian byte strings. *)
From S2P Require Import Prelude.
From Stdlib Require Import Orders OrdersTac.

(** * Comparison *)

Fixpoint bytes_compare (a b : bytes) : comparison :=
  match a, b with
  | [], [] => Eq
  | [], _ :: _ => Lt
  | _ :: _, [] => Gt
  | x :: a', y :: b' =>
      match x ?= y with Eq => bytes_compare a' b' | c => c end
  end.

(** First decided comparison wins. *)
Definition lexc (c d : comparison) : comparison :=
  match c with Eq => d | _ => c end.

Lemma lexc_assoc c d e : lexc (lexc c d) e = lexc c (lexc d e).
Proof. by destruct c. Qed.

Lemma lexc_Eq_r c : lexc c Eq = c.
Proof. by destruct c. Qed.

Lemma bytes_compare_cons x y a b :
  bytes_compare (x :: a) (y :: b) = lexc (x ?= y) (bytes_compare a b).
Proof. simpl. by destruct (x ?= y). Qed.

Lemma bytes_compare_refl a : bytes_compare a a = Eq.
Proof. induction a; simpl; [done|]. by rewrite Z.compare_refl. Qed.

Lemma bytes_compare_eq a b : bytes_compare a b = Eq -> a = b.
Proof.
  revert b; induction a as [|x a IH]; intros [|y b]; simpl; try done.
  destruct (Z.compare_spec x y); try done. intros. f_equal; auto.
Qed.

Lemma bytes_compare_antisym a b : bytes_compare b a = CompOpp (bytes_compare a b).
Proof.
  revert b; induction a as [|x a IH]; intros [|y b]; simpl; try done.
  rewrite (Z.compare_antisym x y). destruct (x ?= y); simpl; auto.
Qed.

Lemma bytes_compare_lt_trans a b c :
  bytes_compare a b = Lt -> bytes_compare b c = Lt -> bytes_compare a c = Lt.
Proof.
  revert b c; induction a as [|x a IH]; intros [|y b] [|z c]; simpl; try done.
  destruct (Z.compare_spec x y); try done; destruct (Z.compare_spec y z); try done;
    destruct (Z.compare_spec x z); try done; try lia; subst; eauto.
Qed.

(** A common prefix does not matter. *)
Lemma bytes_compare_app p a b : bytes_compare (p ++ a) (p ++ b) = bytes_compare a b.
Proof. induction p; simpl; [done|]. by rewrite Z.compare_refl. Qed.

(** Equal-length heads are compared first. *)
Lemma bytes_compare_app_len a b s t :
  length a = length b ->
  bytes_compare (a ++ s) (b ++ t) = lexc (bytes_compare a b) (bytes_compare s t).
Proof.
  revert b; induction a as [|x a IH]; intros [|y b] Hl; simpl in *; try lia; [done|].
  rewrite (IH b) by lia. by destruct (x ?= y).
Qed.

Lemma bytes_compare_prefix a s :
  bytes_compare a (a ++ s) = match s with [] => Eq | _ => Lt end.
Proof.
  rewrite <- (app_nil_r a) at 1. rewrite bytes_compare_app. by destruct s.
Qed.

(** * The order *)

Definition blt (a b : bytes) : Prop := bytes_compare a b = Lt.
Definition ble (a b : bytes) : Prop := bytes_compare a b <> Gt.

(** Boolean tests, as the code writes them. *)
Definition bltb (a b : bytes) : bool := match bytes_compare a b with Lt => true | _ => false end.
Definition bleb (a b : bytes) : bool := match bytes_compare a b with Gt => false | _ => true end.
Definition beqb (a b : bytes) : bool := match bytes_compare a b with Eq => true | _ => false end.

Lemma blt_irrefl a : ~ blt a a.
Proof. unfold blt. by rewrite bytes_compare_refl. Qed.

Lemma blt_trans a b c : blt a b -> blt b c -> blt a c.
Proof. apply bytes_compare_lt_trans. Qed.

Lemma ble_lteq a b : ble a b <-> blt a b \/ a = b.
Proof.
  unfold ble, blt. destruct (bytes_compare a b) eqn:E; split; try done; auto.
  - intros _. right. by apply bytes_compare_eq.
  - intros [?| ->]; [done|]. by rewrite bytes_compare_refl in E.
Qed.

Lemma blt_total a b : blt a b \/ a = b \/ blt b a.
Proof.
  unfold blt. rewrite (bytes_compare_antisym a b).
  destruct (bytes_compare a b) eqn:E; simpl; auto using bytes_compare_eq.
Qed.

Module BytesOrd <: EqLtLe.
Definition t := bytes.
Definition eq := @eq bytes.
Definition lt := blt.
Definition le := ble.
End BytesOrd.

Module BytesTotal <: IsTotalOrder BytesOrd.
Definition eq_equiv : Equivalence BytesOrd.eq := eq_equivalence.
Definition lt_strorder : StrictOrder BytesOrd.lt :=
  Build_StrictOrder _ blt_irrefl blt_trans.
Lemma lt_compat : Proper (BytesOrd.eq ==> BytesOrd.eq ==> iff) BytesOrd.lt.
Proof. by intros ?? -> ?? ->. Qed.
Definition le_lteq := ble_lteq.
Definition lt_total := blt_total.
End BytesTotal.

Module BytesTac := MakeOrderTac BytesOrd BytesTotal.

(** [border] decides goals about [blt], [ble] and [=] on byte strings. *)
Ltac border :=
  change blt with BytesOrd.lt in *; change ble with BytesOrd.le in *;
  change (@eq bytes) with BytesOrd.eq in *;
  BytesTac.order.

Lemma bltb_spec a b : reflect (blt a b) (bltb a b).
Proof. unfold bltb, blt. destruct (bytes_compare a b); by constructor. Qed.

Lemma bleb_spec a b : reflect (ble a b) (bleb a b).
Proof. unfold bleb, ble. destruct (bytes_compare a b); constructor; naive_solver. Qed.

Lemma beqb_spec a b : reflect (a = b) (beqb a b).
Proof.
  unfold beqb. destruct (bytes_compare a b) eqn:E; constructor;
    [by apply bytes_compare_eq| |]; intros ->; by rewrite bytes_compare_refl in E.
Qed.

Lemma bytes_compare_spec a b : CompareSpec (a = b) (blt a b) (blt b a) (bytes_compare a b).
Proof.
  destruct (bytes_compare a b) eqn:E; constructor;
    [by apply bytes_compare_eq|done|].
  unfold blt. by rewrite bytes_compare_antisym, E.
Qed.

(** Case analysis on the byte comparisons in sight. *)
Ltac bcases :=
  repeat match goal with
  | |- context [bltb ?a ?b] => destruct (bltb_spec a b); simpl
  | |- context [bleb ?a ?b] => destruct (bleb_spec a b); simpl
  | |- context [beqb ?a ?b] => destruct (beqb_spec a b); simpl
  | |- context [bytes_compare ?a ?b] => destruct (bytes_compare_spec a b); simpl
  | H : context [bltb ?a ?b] |- _ => destruct (bltb_spec a b); simpl in H
  | H : context [bleb ?a ?b] |- _ => destruct (bleb_spec a b); simpl in H
  | H : context [beqb ?a ?b] |- _ => destruct (beqb_spec a b); simpl in H
  | H : context [bytes_compare ?a ?b] |- _ => destruct (bytes_compare_spec a b); simpl in H
  end.

Lemma ble_nil a : ble [] a.
Proof. by destruct a. Qed.

Lemma blt_nil_inv a : ~ blt a [].
Proof. by destruct a. Qed.

(** ** Successors: [b ++ [0]] is the immediate successor of [b]. *)
Lemma blt_next a : blt a (a ++ [0]).
Proof. unfold blt. by rewrite bytes_compare_prefix. Qed.

Lemma next_least a b : bytes_ok b -> blt a b <-> ble (a ++ [0]) b.
Proof.
  intros Hb. split.
  - unfold blt, ble. revert b Hb. induction a as [|x a IH]; intros [|y b] Hb; simpl; try done.
    + apply bytes_ok_cons in Hb as [[? _] _]. intros _.
      by destruct y; [destruct b| |lia].
    + apply bytes_ok_cons in Hb as [_ Hb]. destruct (x ?= y); eauto.
  - intros. pose proof (blt_next a). border.
Qed.

(** * Big-endian byte strings *)

(** The low [8n] bits of [v], most significant byte first, each byte as the
    code computes it: [byte(v >> 8k)]. *)
Fixpoint be (n : nat) (v : Z) : bytes :=
  match n with
  | O => []
  | S k => u8 (Z.shiftr v (8 * Z.of_nat k)) :: be k v
  end.

Lemma be_length n v : length (be n v) = n.
Proof. induction n; simpl; congruence. Qed.

Lemma be_ok n v : bytes_ok (be n v).
Proof. induction n; constructor; auto using byte_ok_u8. Qed.

Lemma be_split n v :
  v mod 2 ^ (8 * Z.of_nat (S n)) =
  u8 (Z.shiftr v (8 * Z.of_nat n)) * 2 ^ (8 * Z.of_nat n) + v mod 2 ^ (8 * Z.of_nat n).
Proof.
  unfold wrapU. rewrite Z.shiftr_div_pow2 by lia.
  replace (8 * Z.of_nat (S n)) with (8 * Z.of_nat n + 8) by lia.
  rewrite Z.pow_add_r, Z.rem_mul_r by lia. lia.
Qed.

Lemma be_compare n a b :
  bytes_compare (be n a) (be n b) =
  (a mod 2 ^ (8 * Z.of_nat n) ?= b mod 2 ^ (8 * Z.of_nat n)).
Proof.
  induction n as [|n IH]; [by rewrite !Z.mod_1_r|].
  rewrite !be_split. cbn [be]. rewrite bytes_compare_cons, IH.
  set (m := 2 ^ (8 * Z.of_nat n)).
  pose proof (Z.mod_pos_bound a m ltac:(lia)). pose proof (Z.mod_pos_bound b m ltac:(lia)).
  generalize dependent (a mod m). generalize dependent (b mod m). intros rb Hb ra Ha.
  destruct (Z.compare_spec (u8 (a ≫ (8 * Z.of_nat n))) (u8 (b ≫ (8 * Z.of_nat n)))) as [->|E|E]; simpl;
    symmetry.
  - by rewrite Z.add_compare_mono_l.
  - apply Z.compare_lt_iff. nia.
  - apply Z.compare_gt_iff. nia.
Qed.

(** Appending a byte: [(v << 8) | t]. *)
Lemma lor_shiftl8 v t : byte_ok t -> Z.lor (v ≪ 8) t = v * 256 + t.
Proof.
  intros Ht. rewrite <- Z.add_nocarry_lor; [by rewrite Z.shiftl_mul_pow2 by lia|].
  apply Z.bits_inj'. intros i Hi. rewrite Z.land_spec, Z.bits_0.
  destruct (decide (i < 8)).
  - by rewrite Z.shiftl_spec_low by lia.
  - rewrite (Z.bits_above_log2 t i), andb_false_r; [done|unfold byte_ok in *; lia|].
    destruct (decide (t = 0)) as [->|]; [simpl; lia|].
    apply Z.log2_lt_pow2; [unfold byte_ok in *; lia|].
    apply Z.lt_le_trans with (2 ^ 8); [unfold byte_ok in *; lia|].
    apply Z.pow_le_mono_r; lia.
Qed.

(** The accumulation loop of the decoders, [v = (v << 8) | t], at the width of
    the conversion [wr]. *)
Definition be_acc (wr : Z -> Z) (v : Z) (l : bytes) : Z :=
  foldl (fun v t => Z.lor (wr (v ≪ 8)) t) v l.

Lemma be_acc_cons wr v t l :
  be_acc wr v (t :: l) = be_acc wr (Z.lor (wr (v ≪ 8)) t) l.
Proof. reflexivity. Qed.

Lemma be_acc_be wr M n v acc :
  (forall z, 0 <= z < M -> wr z = z) ->
  0 <= acc -> acc * 2 ^ (8 * Z.of_nat n) + v mod 2 ^ (8 * Z.of_nat n) < M ->
  be_acc wr acc (be n v) = acc * 2 ^ (8 * Z.of_nat n) + v mod 2 ^ (8 * Z.of_nat n).
Proof.
  intros Hwr. revert acc; induction n as [|n IH]; intros acc Ha Hb.
  { cbn. rewrite Z.mod_1_r. lia. }
  rewrite be_split in *. cbn [be]. rewrite be_acc_cons.
  set (h := u8 (v ≫ (8 * Z.of_nat n))) in *.
  assert (byte_ok h) as Hh by apply byte_ok_u8. unfold byte_ok in Hh.
  pose proof (Z.mod_pos_bound v (2 ^ (8 * Z.of_nat n)) ltac:(lia)).
  assert (2 ^ (8 * Z.of_nat (S n)) = 256 * 2 ^ (8 * Z.of_nat n)) as E.
  { replace (8 * Z.of_nat (S n)) with (8 + 8 * Z.of_nat n) by lia.
    by rewrite Z.pow_add_r by lia. }
  rewrite E in *.
  assert (wr (acc ≪ 8) = acc ≪ 8) as ->.
  { apply Hwr. rewrite Z.shiftl_mul_pow2 by lia. split; [lia|].
    assert (0 < 2 ^ (8 * Z.of_nat n)) by lia. nia. }
  rewrite lor_shiftl8 by done. rewrite IH; nia.
Qed.

(** Decoding a big-endian string of at most eight bytes. *)
Lemma be_acc_u64 n v :
  (n <= 8)%nat -> be_acc u64 0 (be n v) = v mod 2 ^ (8 * Z.of_nat n).
Proof.
  intros. rewrite (be_acc_be _ (2 ^ 64)); [lia|apply (wrapU_id 64)|lia|].
  pose proof (Z.mod_pos_bound v (2 ^ (8 * Z.of_nat n)) ltac:(lia)).
  assert (2 ^ (8 * Z.of_nat n) <= 2 ^ 64) by (apply Z.pow_le_mono_r; lia). lia.
Qed.

Lemma be_acc_s64 n v :
  v mod 2 ^ (8 * Z.of_nat n) <= MaxInt64 ->
  be_acc s64 0 (be n v) = v mod 2 ^ (8 * Z.of_nat n).
Proof.
  intros. rewrite (be_acc_be _ (2 ^ 63)); [lia| |lia|lia].
  intros z Hz. apply wrapS_id; [lia|]. unfold isS. lia.
Qed.

(** Complementing every byte complements the number. *)
Lemma map_notb_be n v : notb <$> be n (Z.lnot v) = be n v.
Proof.
  induction n as [|n IH]; [done|]. cbn [be fmap list_fmap]. f_equal; [|exact IH].
  unfold notb, wrapU, Z.lnot. rewrite !Z.shiftr_div_pow2 by lia.
  set (m := 2 ^ (8 * Z.of_nat n)). assert (0 < m) by lia.
  replace (Z.pred (- v) / m) with (Z.pred (- (v / m)));
    [unfold Z.pred; Z.div_mod_to_equations; lia|].
  apply (Z.div_unique _ _ _ (m - 1 - v mod m)); [left|]; Z.div_mod_to_equations; nia.
Qed.
