(* ===== verification/GoLib.v ===== *)
(** What the modelled code uses of Go's standard library beyond bytes and integers:
    [copy] into a buffer, writes at an index, slices, and [sort.Search]. *)
From S2P Require Import Prelude Bytes.
From Stdlib Require Export Sorting.Sorted.

(** * Strings and prefixes *)

Definition byte_of (a : Ascii.ascii) : Z := Z.of_N (Ascii.N_of_ascii a).

(** [[]byte(s)]. *)
Definition str (s : string) : bytes := byte_of <$> String.list_ascii_of_string s.

(** [bytes.HasPrefix]. *)
Definition HasPrefix (s prefix : bytes) : bool := beqb (take (length prefix) s) prefix.

(** What follows the prefix: [s[len(prefix):]] once [HasPrefix] holds. *)
Definition cut (s prefix : bytes) : bytes := drop (length prefix) s.

Lemma HasPrefix_app p s : HasPrefix (p ++ s) p = true.
Proof. unfold HasPrefix. rewrite take_app_length. by destruct (beqb_spec p p). Qed.

Lemma cut_app p s : cut (p ++ s) p = s.
Proof. unfold cut. apply drop_app_length. Qed.

Lemma HasPrefix_true s p : HasPrefix s p = true -> s = p ++ cut s p.
Proof.
  unfold HasPrefix, cut. destruct (beqb_spec (take (length p) s) p) as [E|]; [|done].
  intros _. rewrite <- E at 1. by rewrite take_drop.
Qed.

Lemma HasPrefix_iff s p : HasPrefix s p = true <-> exists t, s = p ++ t.
Proof. split; [intros ?%HasPrefix_true; eauto|intros [t ->]; apply HasPrefix_app]. Qed.

Lemma bytes_ok_b b : forallb (fun x => (0 <=? x) && (x <? 256)) b = true -> bytes_ok b.
Proof.
  rewrite forallb_forall. intros H. apply Forall_forall. intros x Hx%list_elem_of_In%H.
  unfold byte_ok. lia.
Qed.

(** * Buffers *)

(** [copy(buf[i:], src)]. *)
Definition copy_at (buf : bytes) (i : nat) (src : bytes) : bytes :=
  take i buf ++ take (length buf - i) src ++ drop (i + length src) buf.

(** A write of all of [src] at [i], as [binary.BigEndian.PutUint64(buf[i:], v)] and
    [buf[i] = x] do; it panics when it does not fit. *)
Definition put_at (buf : bytes) (i : nat) (src : bytes) : res bytes :=
  if (length buf <? i + length src)%nat then Panic "index out of range"
  else Ok (take i buf ++ src ++ drop (i + length src) buf).

(** [b[i:j]] for [0 <= i <= j <= len(b)]. *)
Definition slice (b : bytes) (i j : Z) : bytes := take (Z.to_nat (j - i)) (drop (Z.to_nat i) b).

(** [make([]byte, n)], and the first [n] bytes of a buffer whose capacity holds [old] when
    it is large enough. *)
Definition make_bytes (n : nat) : bytes := replicate n 0.
Definition reuse (old : bytes) (n : nat) : bytes :=
  if (length old <? n)%nat then make_bytes n else take n old.

Lemma reuse_length old n : length (reuse old n) = n.
Proof.
  unfold reuse, make_bytes. destruct (Nat.ltb_spec (length old) n); [apply length_replicate|].
  rewrite length_take. lia.
Qed.

Lemma put_at_app a b c src :
  length b = length src -> put_at (a ++ b ++ c) (length a) src = Ok (a ++ src ++ c).
Proof.
  intros E. unfold put_at. rewrite !length_app.
  destruct (Nat.ltb_spec (length a + (length b + length c)) (length a + length src)); [lia|].
  rewrite take_app_length, drop_app_add, <- E, drop_app_length. done.
Qed.

Lemma put_at_0 b c src : length b = length src -> put_at (b ++ c) 0 src = Ok (src ++ c).
Proof. apply (put_at_app []). Qed.

Lemma split_at (l : bytes) n : (n <= length l)%nat -> exists a b, l = a ++ b /\ length a = n.
Proof. exists (take n l), (drop n l). split; [by rewrite take_drop|rewrite length_take; lia]. Qed.

Lemma slice_app a b c i j :
  i = Z.of_nat (length a) -> j = Z.of_nat (length a + length b) -> slice (a ++ b ++ c) i j = b.
Proof.
  intros -> ->. unfold slice. rewrite Nat2Z.id, drop_app_length.
  replace (Z.to_nat _) with (length b) by lia. apply take_app_length.
Qed.

Lemma slice_0 a c j : j = Z.of_nat (length a) -> slice (a ++ c) 0 j = a.
Proof. by apply (slice_app []). Qed.

(** * [sort.Search] *)

Fixpoint search_loop (fuel : nat) (f : nat -> bool) (i j : nat) : nat :=
  match fuel with
  | O => i
  | S fuel =>
      if (i <? j)%nat then
        let h := ((i + j) / 2)%nat in
        if negb (f h) then search_loop fuel f (S h) j else search_loop fuel f i h
      else i
  end.
Definition Search (n : nat) (f : nat -> bool) : nat := search_loop n f 0 n.

(** The loop halves the interval, so [n] rounds are more than enough; on a monotone
    predicate it ends at the first index where the predicate holds. *)
Lemma search_loop_spec fuel f n i j :
  (forall a b, (a <= b < n)%nat -> f a = true -> f b = true) ->
  (i <= j <= n)%nat -> (j - i <= fuel)%nat ->
  (forall a, (a < i)%nat -> f a = false) -> (forall a, (j <= a < n)%nat -> f a = true) ->
  let k := search_loop fuel f i j in
  (k <= n)%nat /\ (forall a, (a < k)%nat -> f a = false) /\ (forall a, (k <= a < n)%nat -> f a = true).
Proof.
  intros M. revert i j. induction fuel as [|fuel IH]; intros i j Hij Hf Hl Hr; cbn [search_loop].
  { split_and!; [lia|done|]. intros a Ha. apply Hr. lia. }
  destruct (Nat.ltb_spec i j) as [Lt|]; [|split_and!; [lia|done|intros a Ha; apply Hr; lia]].
  set (h := ((i + j) / 2)%nat).
  assert (i <= h < j)%nat as B.
  { subst h. pose proof (Nat.div_mod_eq (i + j) 2). pose proof (Nat.mod_upper_bound (i + j) 2). lia. }
  destruct (f h) eqn:E; cbn [negb].
  - apply IH; [lia|lia|done|]. intros a Ha. apply (M h); [lia|done].
  - apply IH; [lia|lia| |done]. intros a Ha. destruct (f a) eqn:Ea; [|done].
    destruct (decide (a < i)%nat); [by rewrite Hl in Ea|].
    rewrite (M a h) in E; [done|lia|done].
Qed.

Lemma Search_spec n f :
  (forall a b, (a <= b < n)%nat -> f a = true -> f b = true) ->
  (Search n f <= n)%nat /\ (forall a, (a < Search n f)%nat -> f a = false) /\
  (forall a, (Search n f <= a < n)%nat -> f a = true).
Proof. intros M. apply (search_loop_spec n f n 0 n); try done; lia. Qed.

(** On the elements of a list. *)
Definition search_list {A} (p : A -> bool) (l : list A) : nat :=
  Search (length l) (fun i => match l !! i with Some x => p x | None => false end).

(** When the elements where [p] holds form a suffix, the search splits the list there. *)
Lemma search_list_spec {A} (p : A -> bool) (l : list A) :
  (forall i j x y, (i <= j)%nat -> l !! i = Some x -> l !! j = Some y -> p x = true -> p y = true) ->
  let k := search_list p l in
  (k <= length l)%nat /\ Forall (fun x => p x = false) (take k l) /\ Forall (fun x => p x = true) (drop k l).
Proof.
  intros M. destruct (Search_spec (length l) (fun i => match l !! i with Some x => p x | None => false end))
    as (K & L & R).
  { intros a b Hab. destruct (lookup_lt_is_Some_2 l a) as [x Ex]; [lia|].
    destruct (lookup_lt_is_Some_2 l b) as [y Ey]; [lia|]. rewrite Ex, Ey. apply (M a b); [lia|done..]. }
  fold (search_list p l) in *. split_and!; [done| |]; apply Forall_lookup; intros i x Hi.
  - apply lookup_take_Some in Hi as [Hi Lt]. specialize (L i Lt). by rewrite Hi in L.
  - rewrite lookup_drop in Hi. pose proof (lookup_lt_Some _ _ _ Hi).
    specialize (R (search_list p l + i)%nat ltac:(lia)). by rewrite Hi in R.
Qed.

(** ** Searching sorted lists

    [p] holds on a suffix of the list. *)
Definition upclosed {A} (p : A -> bool) (l : list A) : Prop :=
  StronglySorted (fun x y => p x = true -> p y = true) l.

Lemma upclosed_impl {A} (R : A -> A -> Prop) (p : A -> bool) l :
  (forall x y, R x y -> p x = true -> p y = true) -> StronglySorted R l -> upclosed p l.
Proof.
  intros H S. induction S as [|x l S IH F]; [constructor|]. constructor; [done|].
  eapply Forall_impl; [exact F|]. intros y. apply H.
Qed.

Lemma filter_none {A} (p : A -> bool) l : Forall (fun x => p x = false) l -> List.filter p l = [].
Proof. induction 1 as [|x l E _ IH]; [done|]. cbn. by rewrite E. Qed.
Lemma filter_all {A} (p : A -> bool) l : Forall (fun x => p x = true) l -> List.filter p l = l.
Proof. induction 1 as [|x l E _ IH]; [done|]. cbn. by rewrite E, IH. Qed.

Lemma upclosed_split {A} (p : A -> bool) l :
  upclosed p l -> l = List.filter (fun x => negb (p x)) l ++ List.filter p l.
Proof.
  induction 1 as [|x l S IH F]; [done|]. cbn. destruct (p x) eqn:E; cbn [negb].
  - rewrite (filter_none (fun x => negb (p x))), filter_all; [done|..]; eapply Forall_impl;
      [exact F| |exact F|]; intros y Hy; by rewrite Hy.
  - cbn. by f_equal.
Qed.

Lemma upclosed_lookup {A} (p : A -> bool) l : upclosed p l ->
  forall i j x y, (i <= j)%nat -> l !! i = Some x -> l !! j = Some y -> p x = true -> p y = true.
Proof.
  induction 1 as [|z l S IH F]; intros i j x y Hij Hx Hy Px; [done|].
  destruct i as [|i], j as [|j]; cbn in Hx, Hy; try lia; simplify_eq; try done.
  - eapply Forall_lookup_1 in F; [|exact Hy]. by apply F.
  - by apply (IH i j x y); [lia|..].
Qed.

(** A split of the list by the predicate is the split by filters. *)
Lemma split_filter {A} (p : A -> bool) l k :
  Forall (fun x => p x = false) (take k l) -> Forall (fun x => p x = true) (drop k l) ->
  take k l = List.filter (fun x => negb (p x)) l /\ drop k l = List.filter p l.
Proof.
  intros T D. rewrite <- (take_drop k l) at 2 4. rewrite !List.filter_app.
  rewrite (filter_none p (take k l)), (filter_all p (drop k l)) by done.
  rewrite (filter_all _ (take k l)), (filter_none _ (drop k l)); [by rewrite app_nil_r| |].
  - eapply Forall_impl; [exact D|]. by intros x ->.
  - eapply Forall_impl; [exact T|]. by intros x ->.
Qed.

Lemma search_list_filter {A} (p : A -> bool) l : upclosed p l ->
  let k := search_list p l in
  (k <= length l)%nat /\ take k l = List.filter (fun x => negb (p x)) l /\ drop k l = List.filter p l.
Proof.
  intros U. destruct (search_list_spec p l (upclosed_lookup p l U)) as (K & T & D).
  split; [done|]. by apply split_filter.
Qed.

(** The linear search for the first element where [p] holds. *)
Fixpoint first_index {A} (p : A -> bool) (l : list A) : nat :=
  match l with
  | [] => 0
  | x :: l => if p x then 0 else S (first_index p l)
  end.

Lemma first_index_filter {A} (p : A -> bool) l : upclosed p l ->
  let k := first_index p l in
  (k <= length l)%nat /\ take k l = List.filter (fun x => negb (p x)) l /\ drop k l = List.filter p l.
Proof.
  intros U. cbn zeta. assert (first_index p l <= length l)%nat as K.
  { clear. induction l as [|x l IH]; cbn; [done|]. destruct (p x); lia. }
  split; [done|]. apply split_filter.
  - clear. induction l as [|x l IH]; [constructor|]. cbn. destruct (p x) eqn:E; [constructor|].
    cbn. by constructor.
  - induction U as [|x l S IH F]; [constructor|]. cbn in *. destruct (p x) eqn:E.
    + cbn. constructor; [done|]. eapply Forall_impl; [exact F|]. intros y Hy. by apply Hy.
    + cbn. apply IH. lia.
Qed.
