(* ===== verification/IntEnc.v ===== *)
(** Integer key encodings (src/pkg/util/encoding/encoding.go).

    Fixed-width big-endian integers and the length-prefixed varints, ascending
    and descending, their decoders and length functions; [OrderedCodec], the
    interface every order-preserving key encoding offers to its clients, and
    its instances for the integers. *)
From S2P Require Import Prelude Bytes.

(** * The interface of a key encoding

    [enc] appends an encoding to a buffer, [dec] consumes one from the front of
    a buffer.  On the values satisfying [ok], encodings compare as the values
    do under [cmp], whatever follows them, and decode back. *)

Class OrderedCodec {A : Type} (ok : A -> Prop) (cmp : A -> A -> comparison)
    (enc : bytes -> A -> bytes) (dec : bytes -> res (bytes * A)) : Prop := {
  oc_append : forall b x, enc b x = b ++ enc [] x;
  oc_order : forall x y s t, ok x -> ok y ->
    bytes_compare (enc [] x ++ s) (enc [] y ++ t) = lexc (cmp x y) (bytes_compare s t);
  oc_roundtrip : forall x r, ok x -> dec (enc [] x ++ r) = Ok (r, x)
}.

Section Codec.
Context {A : Type} {ok : A -> Prop} {cmp : A -> A -> comparison}.
Context {enc : bytes -> A -> bytes} {dec : bytes -> res (bytes * A)}.
Context `{!OrderedCodec ok cmp enc dec}.

(** Whole keys compare as their values. *)
Lemma codec_compare p x y :
  ok x -> ok y -> bytes_compare (enc p x) (enc p y) = cmp x y.
Proof.
  intros. rewrite (oc_append (enc := enc) p x), (oc_append (enc := enc) p y), bytes_compare_app.
  rewrite <- (app_nil_r (enc [] x)), <- (app_nil_r (enc [] y)).
  rewrite (oc_order (enc := enc)) by done. apply lexc_Eq_r.
Qed.

(** No encoding is a proper prefix of another. *)
Lemma codec_prefix_free x y s t :
  ok x -> ok y -> enc [] x ++ s = enc [] y ++ t -> x = y /\ s = t.
Proof.
  intros Hx Hy E. pose proof (oc_roundtrip (enc := enc) x s Hx) as D.
  rewrite E, (oc_roundtrip (enc := enc)) in D by done. by simplify_eq.
Qed.

(** The end of the keys of one value: the next value's keys start later. *)
Lemma codec_lt x y s t :
  ok x -> ok y -> cmp x y = Lt -> blt (enc [] x ++ s) (enc [] y ++ t).
Proof. intros ?? E. unfold blt. rewrite (oc_order (enc := enc)) by done. by rewrite E. Qed.
(** Behind a common prefix, a value with a tail against a value without one. *)
Lemma codec_lt_bare p x y s : ok x -> ok y -> blt (enc p x ++ s) (enc p y) <-> cmp x y = Lt.
Proof.
  intros Hx Hy. unfold blt. rewrite (oc_append (enc := enc) p x), (oc_append (enc := enc) p y), <- app_assoc, bytes_compare_app.
  rewrite <- (app_nil_r (enc [] y)), (oc_order (enc := enc)) by done. destruct (cmp x y); cbn; [by destruct s|done..].
Qed.

Lemma codec_bare_le p x y s : ok x -> ok y -> ble (enc p x) (enc p y ++ s) <-> cmp x y <> Gt.
Proof.
  intros Hx Hy. unfold ble. rewrite (oc_append (enc := enc) p x), (oc_append (enc := enc) p y), <- app_assoc, bytes_compare_app.
  rewrite <- (app_nil_r (enc [] x)), (oc_order (enc := enc)) by done. destruct (cmp x y); cbn; [by destruct s|done..].
Qed.
End Codec.

(** The comparison may be presented differently. *)
Lemma codec_cmp_ext {A} (ok : A -> Prop) cmp cmp' enc dec :
  (forall x y, cmp' x y = cmp x y) ->
  OrderedCodec ok cmp enc dec -> OrderedCodec ok cmp' enc dec.
Proof. intros E [? Ho ?]. split; try done. intros. by rewrite E, Ho. Qed.

(** Composite keys: a column followed by another. *)
Section Pair.
Context {A B : Type} {okA : A -> Prop} {okB : B -> Prop}.
Context {cmpA : A -> A -> comparison} {cmpB : B -> B -> comparison}.
Context {encA : bytes -> A -> bytes} {decA : bytes -> res (bytes * A)}.
Context {encB : bytes -> B -> bytes} {decB : bytes -> res (bytes * B)}.
Context `{!OrderedCodec okA cmpA encA decA} `{!OrderedCodec okB cmpB encB decB}.

Definition pair_enc (b : bytes) (x : A * B) : bytes := encB (encA b x.1) x.2.
Definition pair_dec (b : bytes) : res (bytes * (A * B)) :=
  '(b1, x) ← decA b; '(b2, y) ← decB b1; Ok (b2, (x, y)).
Definition pair_ok (x : A * B) : Prop := okA x.1 /\ okB x.2.
Definition pair_cmp (x y : A * B) : comparison :=
  lexc (cmpA x.1 y.1) (cmpB x.2 y.2).

Lemma pair_enc_split x : pair_enc [] x = encA [] x.1 ++ encB [] x.2.
Proof. apply (oc_append (enc := encB)). Qed.

#[export] Instance pair_codec : OrderedCodec pair_ok pair_cmp pair_enc pair_dec.
Proof.
  split.
  - intros b x. rewrite pair_enc_split. unfold pair_enc.
    by rewrite (oc_append (enc := encB)), (oc_append (enc := encA)), <- app_assoc.
  - intros x y s t [??] [??]. rewrite !pair_enc_split, <- !app_assoc.
    rewrite (oc_order (enc := encA)) by done.
    rewrite (oc_order (enc := encB)) by done. by rewrite <- lexc_assoc.
  - intros [x y] r [??]. rewrite pair_enc_split, <- app_assoc. unfold pair_dec.
    rewrite (oc_roundtrip (enc := encA)) by done. simpl.
    by rewrite (oc_roundtrip (enc := encB)) by done.
Qed.
End Pair.
Arguments pair_enc {A B} encA encB.
Arguments pair_dec {A B} decA decB.

(** * Fixed-width integers *)

Definition EncodeUint16Ascending (b : bytes) (v : Z) : bytes :=
  b ++ [u8 (v ≫ 8); u8 v].

Definition EncodeUint32Ascending (b : bytes) (v : Z) : bytes :=
  b ++ [u8 (v ≫ 24); u8 (v ≫ 16); u8 (v ≫ 8); u8 v].

Definition EncodeUint32Descending (b : bytes) (v : Z) : bytes :=
  EncodeUint32Ascending b (u32 (Z.lnot v)).

Definition EncodeUint64Ascending (b : bytes) (v : Z) : bytes :=
  b ++ [u8 (v ≫ 56); u8 (v ≫ 48); u8 (v ≫ 40); u8 (v ≫ 32);
        u8 (v ≫ 24); u8 (v ≫ 16); u8 (v ≫ 8); u8 v].

Definition EncodeUint64Descending (b : bytes) (v : Z) : bytes :=
  EncodeUint64Ascending b (u64 (Z.lnot v)).

(** [for len(b) < n { b = append(b, 0) }]. *)
Definition pad_to (b : bytes) (n : nat) : bytes := b ++ replicate (n - length b) 0.

Definition PutUint16Ascending (b : bytes) (v : Z) (idx : nat) : bytes :=
  <[(idx + 1)%nat := u8 v]> (<[idx := u8 (v ≫ 8)]> (pad_to b (idx + 2))).

Definition PutUint32Ascending (b : bytes) (v : Z) (idx : nat) : bytes :=
  <[(idx + 3)%nat := u8 v]> (<[(idx + 2)%nat := u8 (v ≫ 8)]>
    (<[(idx + 1)%nat := u8 (v ≫ 16)]> (<[idx := u8 (v ≫ 24)]> (pad_to b (idx + 4))))).

(** [binary.BigEndian.UintN] on the first bytes of the buffer. *)
Definition be_uint (l : bytes) : Z := be_acc u64 0 l.

Definition DecodeUint16Ascending (b : bytes) : res (bytes * Z) :=
  if (length b <? 2)%nat then Err "insufficient bytes to decode uint16 int value"
  else Ok (drop 2 b, be_uint (take 2 b)).

Definition DecodeUint32Ascending (b : bytes) : res (bytes * Z) :=
  if (length b <? 4)%nat then Err "insufficient bytes to decode uint32 int value"
  else Ok (drop 4 b, be_uint (take 4 b)).

Definition DecodeUint32Descending (b : bytes) : res (bytes * Z) :=
  '(leftover, v) ← DecodeUint32Ascending b; Ok (leftover, u32 (Z.lnot v)).

Definition DecodeUint64Ascending (b : bytes) : res (bytes * Z) :=
  if (length b <? 8)%nat then Err "insufficient bytes to decode uint64 int value"
  else Ok (drop 8 b, be_uint (take 8 b)).

Definition DecodeUint64Descending (b : bytes) : res (bytes * Z) :=
  '(leftover, v) ← DecodeUint64Ascending b; Ok (leftover, u64 (Z.lnot v)).

(** ** Descending encodings: encode the complement *)
Section Descending.
Context {A : Type} {ok : A -> Prop} {cmp : A -> A -> comparison}.
Context {enc : bytes -> A -> bytes} {dec : bytes -> res (bytes * A)}.
Context `{!OrderedCodec ok cmp enc dec}.
Context (f : A -> A).
Hypothesis f_ok : forall x, ok x -> ok (f x).
Hypothesis f_inv : forall x, ok x -> f (f x) = x.
Hypothesis f_rev : forall x y, ok x -> ok y -> cmp (f x) (f y) = CompOpp (cmp x y).

Lemma desc_codec :
  OrderedCodec ok (fun x y => CompOpp (cmp x y)) (fun b x => enc b (f x))
    (fun b => '(leftover, v) ← dec b; Ok (leftover, f v)).
Proof.
  split.
  - intros. apply (oc_append (enc := enc)).
  - intros. rewrite (oc_order (enc := enc)) by auto. by rewrite f_rev.
  - intros x r Hx. rewrite (oc_roundtrip (enc := enc)) by auto. simpl. by rewrite f_inv.
Qed.
End Descending.

(** ** Other representations: encode an image of the value behind a marker byte *)
Section Mapped.
Context {A B : Type} {okB : B -> Prop} {cmpB : B -> B -> comparison}.
Context {encB : bytes -> B -> bytes} {decB : bytes -> res (bytes * B)}.
Context `{!OrderedCodec okB cmpB encB decB}.
Context (m : Z) (ok : A -> Prop) (cmp : A -> A -> comparison) (f : A -> B) (g : B -> A).
Context (enc : bytes -> A -> bytes) (dec : bytes -> res (bytes * A)).
Hypothesis f_ok : forall x, ok x -> okB (f x).
Hypothesis f_inv : forall x, ok x -> g (f x) = x.
Hypothesis f_cmp : forall x y, ok x -> ok y -> cmp x y = cmpB (f x) (f y).
Hypothesis enc_eq : forall b x, enc b x = encB (b ++ [m]) (f x).
Hypothesis dec_eq : forall b, dec (m :: b) = '(r, y) ← decB b; Ok (r, g y).

Lemma marked_codec : OrderedCodec ok cmp enc dec.
Proof.
  assert (forall b x, encB (b ++ [m]) x = b ++ m :: encB [] x) as Ha.
  { intros. by rewrite (oc_append (enc := encB)), <- app_assoc. }
  split.
  - intros. by rewrite !enc_eq, !Ha.
  - intros x y s t Hx Hy. rewrite !enc_eq, !Ha. cbn [app].
    rewrite bytes_compare_cons, Z.compare_refl. cbn [lexc].
    by rewrite (oc_order (enc := encB)), f_cmp by auto.
  - intros x r Hx. rewrite enc_eq, Ha. cbn [app]. rewrite dec_eq.
    rewrite (oc_roundtrip (enc := encB)) by auto. cbn. by rewrite f_inv.
Qed.
End Mapped.

(** ** Sequences: the elements one after the other, then a terminator

    [c] is the outcome of comparing the terminator with the first byte of any element:
    [Lt] makes a shorter sequence sort before its extensions, [Gt] after them. *)

Fixpoint list_cmp {A} (c : comparison) (cmp : A -> A -> comparison) (l r : list A) : comparison :=
  match l, r with
  | [], [] => Eq
  | [], _ :: _ => c
  | _ :: _, [] => CompOpp c
  | x :: l, y :: r => lexc (cmp x y) (list_cmp c cmp l r)
  end.

Section Terminated.
Context {A : Type} {ok : A -> Prop} {cmp : A -> A -> comparison} {enc : bytes -> A -> bytes}.
Context (c : comparison) (term : Z).
Hypothesis c_decided : c <> Eq.
Hypothesis enc_append : forall b x, enc b x = b ++ enc [] x.
Hypothesis enc_order : forall x y s t, ok x -> ok y ->
  bytes_compare (enc [] x ++ s) (enc [] y ++ t) = lexc (cmp x y) (bytes_compare s t).
Hypothesis enc_first : forall x, ok x -> exists m l, enc [] x = m :: l /\ (term ?= m) = c.

Lemma foldl_enc b l : foldl enc b l = b ++ (l ≫= enc []).
Proof.
  revert b. induction l as [|x l IH]; intros b; cbn; [by rewrite app_nil_r|].
  by rewrite IH, enc_append, <- app_assoc.
Qed.

Lemma terminated_order l r s t :
  Forall ok l -> Forall ok r ->
  bytes_compare ((l ≫= enc []) ++ term :: s) ((r ≫= enc []) ++ term :: t) =
  lexc (list_cmp c cmp l r) (bytes_compare s t).
Proof.
  revert r. induction l as [|x l IH]; intros [|y r] Hl Hr; cbn [mbind list_bind app list_cmp].
  - by rewrite bytes_compare_cons, Z.compare_refl.
  - apply Forall_cons in Hr as [Hy _]. destruct (enc_first y Hy) as (m & e & -> & Hm).
    cbn [app]. rewrite bytes_compare_cons, Hm. by destruct c.
  - apply Forall_cons in Hl as [Hx _]. destruct (enc_first x Hx) as (m & e & -> & Hm).
    cbn [app]. rewrite bytes_compare_cons, Z.compare_antisym, Hm. by destruct c.
  - apply Forall_cons in Hl as [Hx Hl]. apply Forall_cons in Hr as [Hy Hr].
    rewrite <- !app_assoc, enc_order by done. rewrite lexc_assoc. f_equal. by apply IH.
Qed.
End Terminated.

(** ** Fixed width *)

Lemma fixed_codec (n : nat) (msg : string) :
  (n <= 8)%nat ->
  OrderedCodec (isU (8 * Z.of_nat n)) Z.compare (fun b v => b ++ be n v)
    (fun b => if (length b <? n)%nat then Err msg else Ok (drop n b, be_uint (take n b))).
Proof.
  intros Hn. split.
  - done.
  - intros x y s t Hx Hy. rewrite !app_nil_l.
    rewrite bytes_compare_app_len by (by rewrite !be_length).
    rewrite be_compare, !Z.mod_small by (unfold isU in *; lia). done.
  - intros x r Hx. rewrite app_nil_l.
    destruct (Nat.ltb_spec (length (be n x ++ r)) n) as [Hl|_].
    { rewrite length_app, be_length in Hl. lia. }
    rewrite drop_app_length', take_app_length' by (by rewrite be_length).
    unfold be_uint. rewrite be_acc_u64 by done. rewrite Z.mod_small by done. done.
Qed.

#[export] Instance uint16_codec :
  OrderedCodec (isU 16) Z.compare EncodeUint16Ascending DecodeUint16Ascending.
Proof. exact (fixed_codec 2 _ ltac:(lia)). Qed.

#[export] Instance uint32_codec :
  OrderedCodec (isU 32) Z.compare EncodeUint32Ascending DecodeUint32Ascending.
Proof. exact (fixed_codec 4 _ ltac:(lia)). Qed.

#[export] Instance uint64_codec :
  OrderedCodec (isU 64) Z.compare EncodeUint64Ascending DecodeUint64Ascending.
Proof. exact (fixed_codec 8 _ ltac:(lia)). Qed.

Lemma lnotU_ok w x : 0 <= w -> isU w x -> isU w (wrapU w (Z.lnot x)).
Proof. intros. by apply wrapU_range. Qed.

Lemma lnotU_inv w x : 0 <= w -> isU w x -> wrapU w (Z.lnot (wrapU w (Z.lnot x))) = x.
Proof.
  intros Hw Hx. rewrite (wrapU_lnot w (wrapU w _)) by (by apply wrapU_range).
  rewrite wrapU_lnot by done. lia.
Qed.

Lemma lnotU_rev w x y : isU w x -> isU w y ->
  (wrapU w (Z.lnot x) ?= wrapU w (Z.lnot y)) = CompOpp (x ?= y).
Proof.
  intros. rewrite !wrapU_lnot by done.
  destruct (Z.compare_spec x y) as [->|?|?]; simpl;
    [apply Z.compare_refl|apply Z.compare_gt_iff; lia|apply Z.compare_lt_iff; lia].
Qed.

#[export] Instance uint32_desc_codec :
  OrderedCodec (isU 32) (fun x y => CompOpp (x ?= y)) EncodeUint32Descending DecodeUint32Descending.
Proof.
  apply (desc_codec (enc := EncodeUint32Ascending) (fun v => u32 (Z.lnot v)));
    intros; [apply lnotU_ok|apply lnotU_inv|apply lnotU_rev]; done.
Qed.

#[export] Instance uint64_desc_codec :
  OrderedCodec (isU 64) (fun x y => CompOpp (x ?= y)) EncodeUint64Descending DecodeUint64Descending.
Proof.
  apply (desc_codec (enc := EncodeUint64Ascending) (fun v => u64 (Z.lnot v)));
    intros; [apply lnotU_ok|apply lnotU_inv|apply lnotU_rev]; done.
Qed.

(** ** Writing in place *)

Lemma pad_to_length b n : length (pad_to b n) = (length b `max` n)%nat.
Proof. unfold pad_to. rewrite length_app, length_replicate. lia. Qed.

(** * Varints *)

Abbreviation IntMin := 128.
Abbreviation IntMax := 253.
Abbreviation intMaxWidth := 8.
Abbreviation intZero := 136.
Abbreviation intSmall := 109.

Definition EncodeUvarintAscending (b : bytes) (v : Z) : bytes :=
  if v <=? intSmall then b ++ [u8 (intZero + u8 v)]
  else if v <=? 0xff then b ++ [IntMax - 7; u8 v]
  else if v <=? 0xffff then b ++ [IntMax - 6; u8 (v ≫ 8); u8 v]
  else if v <=? 0xffffff then b ++ [IntMax - 5; u8 (v ≫ 16); u8 (v ≫ 8); u8 v]
  else if v <=? 0xffffffff then
    b ++ [IntMax - 4; u8 (v ≫ 24); u8 (v ≫ 16); u8 (v ≫ 8); u8 v]
  else if v <=? 0xffffffffff then
    b ++ [IntMax - 3; u8 (v ≫ 32); u8 (v ≫ 24); u8 (v ≫ 16); u8 (v ≫ 8); u8 v]
  else if v <=? 0xffffffffffff then
    b ++ [IntMax - 2; u8 (v ≫ 40); u8 (v ≫ 32); u8 (v ≫ 24); u8 (v ≫ 16); u8 (v ≫ 8); u8 v]
  else if v <=? 0xffffffffffffff then
    b ++ [IntMax - 1; u8 (v ≫ 48); u8 (v ≫ 40); u8 (v ≫ 32); u8 (v ≫ 24); u8 (v ≫ 16);
          u8 (v ≫ 8); u8 v]
  else
    b ++ [IntMax; u8 (v ≫ 56); u8 (v ≫ 48); u8 (v ≫ 40); u8 (v ≫ 32); u8 (v ≫ 24);
          u8 (v ≫ 16); u8 (v ≫ 8); u8 v].

Definition EncodedLengthUvarintAscending (v : Z) : Z :=
  if v <=? intSmall then 1
  else if v <=? 0xff then 2
  else if v <=? 0xffff then 3
  else if v <=? 0xffffff then 4
  else if v <=? 0xffffffff then 5
  else if v <=? 0xffffffffff then 6
  else if v <=? 0xffffffffffff then 7
  else if v <=? 0xffffffffffffff then 8
  else 9.

Definition EncodeUvarintDescending (b : bytes) (v : Z) : bytes :=
  let n := u64 (Z.lnot v) in
  if v =? 0 then b ++ [IntMin + 8]
  else if v <=? 0xff then b ++ [IntMin + 7; u8 n]
  else if v <=? 0xffff then b ++ [IntMin + 6; u8 (n ≫ 8); u8 n]
  else if v <=? 0xffffff then b ++ [IntMin + 5; u8 (n ≫ 16); u8 (n ≫ 8); u8 n]
  else if v <=? 0xffffffff then
    b ++ [IntMin + 4; u8 (n ≫ 24); u8 (n ≫ 16); u8 (n ≫ 8); u8 n]
  else if v <=? 0xffffffffff then
    b ++ [IntMin + 3; u8 (n ≫ 32); u8 (n ≫ 24); u8 (n ≫ 16); u8 (n ≫ 8); u8 n]
  else if v <=? 0xffffffffffff then
    b ++ [IntMin + 2; u8 (n ≫ 40); u8 (n ≫ 32); u8 (n ≫ 24); u8 (n ≫ 16); u8 (n ≫ 8); u8 n]
  else if v <=? 0xffffffffffffff then
    b ++ [IntMin + 1; u8 (n ≫ 48); u8 (n ≫ 40); u8 (n ≫ 32); u8 (n ≫ 24); u8 (n ≫ 16);
          u8 (n ≫ 8); u8 n]
  else
    b ++ [IntMin; u8 (n ≫ 56); u8 (n ≫ 48); u8 (n ≫ 40); u8 (n ≫ 32); u8 (n ≫ 24);
          u8 (n ≫ 16); u8 (n ≫ 8); u8 n].

Definition EncodeVarintAscending (b : bytes) (v : Z) : bytes :=
  if v <? 0 then
    if - 0xff <=? v then b ++ [IntMin + 7; u8 v]
    else if - 0xffff <=? v then b ++ [IntMin + 6; u8 (v ≫ 8); u8 v]
    else if - 0xffffff <=? v then b ++ [IntMin + 5; u8 (v ≫ 16); u8 (v ≫ 8); u8 v]
    else if - 0xffffffff <=? v then
      b ++ [IntMin + 4; u8 (v ≫ 24); u8 (v ≫ 16); u8 (v ≫ 8); u8 v]
    else if - 0xffffffffff <=? v then
      b ++ [IntMin + 3; u8 (v ≫ 32); u8 (v ≫ 24); u8 (v ≫ 16); u8 (v ≫ 8); u8 v]
    else if - 0xffffffffffff <=? v then
      b ++ [IntMin + 2; u8 (v ≫ 40); u8 (v ≫ 32); u8 (v ≫ 24); u8 (v ≫ 16); u8 (v ≫ 8); u8 v]
    else if - 0xffffffffffffff <=? v then
      b ++ [IntMin + 1; u8 (v ≫ 48); u8 (v ≫ 40); u8 (v ≫ 32); u8 (v ≫ 24); u8 (v ≫ 16);
            u8 (v ≫ 8); u8 v]
    else
      b ++ [IntMin; u8 (v ≫ 56); u8 (v ≫ 48); u8 (v ≫ 40); u8 (v ≫ 32); u8 (v ≫ 24);
            u8 (v ≫ 16); u8 (v ≫ 8); u8 v]
  else EncodeUvarintAscending b (u64 v).

Definition EncodeVarintDescending (b : bytes) (v : Z) : bytes :=
  EncodeVarintAscending b (Z.lnot v).

Definition highestByteIndex (v : Z) : Z :=
  let '(v, l) := if 0xffffffff <? v then (v ≫ 32, 4) else (v, 0) in
  let '(v, l) := if 0xffff <? v then (v ≫ 16, l + 2) else (v, l) in
  if 0xff <? v then l + 1 else l.

Definition EncLenUvarintAscending (v : Z) : Z :=
  if v <=? intSmall then 1 else 2 + highestByteIndex v.

Definition EncLenUvarintDescending (v : Z) : Z :=
  if v =? 0 then 1 else 2 + highestByteIndex v.

(** [b[0]] panics on an empty slice. *)
Definition getVarintLen (b : bytes) : res Z :=
  match b with
  | [] => Panic "index out of range"
  | t :: _ =>
      let length := t - intZero in
      if (0 <=? length) && (length <=? intSmall) then Ok 1
      else
        let length := if 0 <=? length then 1 + length - intSmall else 1 - length in
        if Z.of_nat (List.length b) <? length then Err "varint length exceeds slice length"
        else Ok length
  end.

Definition GetUvarintLen (b : bytes) : res Z :=
  match b with
  | [] => Err "insufficient bytes to decode uvarint value"
  | t :: _ =>
      let length := t - intZero in
      if length <=? intSmall then Ok 1
      else
        let length := length - intSmall in
        if (length <? 0) || (8 <? length) then Err "invalid uvarint length"
        else if Z.of_nat (List.length b) <=? length then
          Err "insufficient bytes to decode uvarint value"
        else Ok (1 + length)
  end.

Definition DecodeUvarintAscending (b : bytes) : res (bytes * Z) :=
  match b with
  | [] => Err "insufficient bytes to decode uvarint value"
  | t :: b =>
      let length := t - intZero in
      if length <=? intSmall then Ok (b, u64 length)
      else
        let length := length - intSmall in
        if (length <? 0) || (8 <? length) then Err "invalid uvarint length"
        else if Z.of_nat (List.length b) <? length then
          Err "insufficient bytes to decode uvarint value"
        else Ok (drop (Z.to_nat length) b, be_acc u64 0 (take (Z.to_nat length) b))
  end.

Definition DecodeUvarintDescending (b : bytes) : res (bytes * Z) :=
  match b with
  | [] => Err "insufficient bytes to decode uvarint value"
  | t :: b =>
      let length := intZero - t in
      if (length <? 0) || (8 <? length) then Err "invalid uvarint length"
      else if Z.of_nat (List.length b) <? length then
        Err "insufficient bytes to decode uvarint value"
      else Ok (drop (Z.to_nat length) b, be_acc u64 0 (notb <$> take (Z.to_nat length) b))
  end.

Definition DecodeVarintAscending (b : bytes) : res (bytes * Z) :=
  match b with
  | [] => Err "insufficient bytes to decode varint value"
  | t :: remB =>
      let length := t - intZero in
      if length <? 0 then
        let length := - length in
        if Z.of_nat (List.length remB) <? length then
          Err "insufficient bytes to decode varint value"
        else Ok (drop (Z.to_nat length) remB,
                 Z.lnot (be_acc s64 0 (notb <$> take (Z.to_nat length) remB)))
      else
        '(remB, v) ← DecodeUvarintAscending b;
        if MaxInt64 <? v then Err "varint overflows int64" else Ok (remB, v)
  end.

Definition DecodeVarintDescending (b : bytes) : res (bytes * Z) :=
  '(leftover, v) ← DecodeVarintAscending b; Ok (leftover, Z.lnot v).

(** ** Tagged encodings

    Every varint is a tag byte, increasing with the value, followed by a
    payload whose width the tag determines. *)

Lemma tagged_order (dom : Z -> Prop) (tag : Z -> Z) (width : Z -> nat) (pay : Z -> Z) :
  (forall x y, dom x -> dom y -> x < y ->
     tag x < tag y \/
     tag x = tag y /\ width x = width y /\
     pay x mod 2 ^ (8 * Z.of_nat (width x)) < pay y mod 2 ^ (8 * Z.of_nat (width x))) ->
  forall x y s t, dom x -> dom y ->
  bytes_compare ((tag x :: be (width x) (pay x)) ++ s) ((tag y :: be (width y) (pay y)) ++ t) =
  lexc (x ?= y) (bytes_compare s t).
Proof.
  intros Hmono. assert (forall x y s t, dom x -> dom y -> x < y ->
    bytes_compare ((tag x :: be (width x) (pay x)) ++ s)
      ((tag y :: be (width y) (pay y)) ++ t) = Lt) as Hlt.
  { intros x y s t Hx Hy E. cbn [app]. rewrite bytes_compare_cons.
    destruct (Hmono x y Hx Hy E) as [Ht|(-> & Hw & Hp)].
    - by apply Z.compare_lt_iff in Ht as ->.
    - rewrite Z.compare_refl, Hw. cbn [lexc].
      rewrite bytes_compare_app_len by (by rewrite !be_length).
      rewrite Hw in Hp. apply Z.compare_lt_iff in Hp. by rewrite be_compare, Hp. }
  intros x y s t Hx Hy. destruct (Z.compare_spec x y) as [->|E|E].
  - by rewrite bytes_compare_app.
  - auto.
  - rewrite bytes_compare_antisym, Hlt by done. done.
Qed.

(** [zcases] splits on the integer tests in sight. *)
Ltac zcases :=
  repeat match goal with
  | |- context [?a <=? ?b] => destruct (Z.leb_spec a b)
  | |- context [?a <? ?b] => destruct (Z.ltb_spec a b)
  | |- context [?a =? ?b] => destruct (Z.eqb_spec a b)
  end.

Definition uv_width (v : Z) : nat := Z.to_nat (EncodedLengthUvarintAscending v - 1).
Definition uv_tag (v : Z) : Z :=
  if v <=? intSmall then intZero + v else IntMax - 8 + Z.of_nat (uv_width v).

Lemma uvarint_view b v :
  isU 64 v -> EncodeUvarintAscending b v = b ++ uv_tag v :: be (uv_width v) v.
Proof.
  intros [Hv _]. unfold EncodeUvarintAscending, uv_tag, uv_width, EncodedLengthUvarintAscending.
  zcases; try reflexivity; try lia.
  do 2 f_equal. rewrite (wrapU_id 8 v) by (unfold isU; lia). apply wrapU_id. unfold isU; lia.
Qed.

Lemma uv_class v :
  isU 64 v ->
  v <= intSmall /\ uv_tag v = intZero + v /\ uv_width v = 0%nat \/
  intSmall < v /\ uv_tag v = IntMax - 8 + Z.of_nat (uv_width v) /\
  exists k, uv_width v = S k /\ (k < 8)%nat /\
    2 ^ (8 * Z.of_nat k) <= v < 2 ^ (8 * Z.of_nat (S k)).
Proof.
  intros [Hv Hv']. unfold uv_tag, uv_width, EncodedLengthUvarintAscending.
  change (2 ^ 64) with 18446744073709551616 in Hv'.
  zcases; try lia;
    (right; split; [lia|]; split; [done|]; eexists; split; [done|]; cbn; lia).
Qed.

(** Widths are ordered as values are. *)
Lemma width_mono k k' x y :
  2 ^ (8 * Z.of_nat k) <= x -> x < y -> y < 2 ^ (8 * Z.of_nat (S k')) -> (k <= k')%nat.
Proof.
  intros. destruct (decide (k <= k')%nat); [done|]. exfalso.
  assert (2 ^ (8 * Z.of_nat (S k')) <= 2 ^ (8 * Z.of_nat k)) by (apply Z.pow_le_mono_r; lia). lia.
Qed.

Lemma uvarint_mono x y :
  isU 64 x -> isU 64 y -> x < y ->
  uv_tag x < uv_tag y \/
  uv_tag x = uv_tag y /\ uv_width x = uv_width y /\
  x mod 2 ^ (8 * Z.of_nat (uv_width x)) < y mod 2 ^ (8 * Z.of_nat (uv_width x)).
Proof.
  intros Hx Hy E.
  destruct (uv_class x Hx) as [(? & -> & Ex)|(? & -> & k & Ex & ? & ? & ?)];
    destruct (uv_class y Hy) as [(? & -> & Ey)|(? & -> & k' & Ey & ? & ? & ?)];
    rewrite ?Ex, ?Ey; [lia..|].
  assert (k <= k')%nat as [Hk| ->]%Nat.lt_eq_cases by (by apply (width_mono k k' x y)).
  - left. lia.
  - right. rewrite !Z.mod_small by lia. lia.
Qed.

Lemma uvarint_dec v r :
  isU 64 v ->
  DecodeUvarintAscending (uv_tag v :: be (uv_width v) v ++ r) = Ok (r, v).
Proof.
  intros Hv. unfold DecodeUvarintAscending. cbv zeta.
  destruct (uv_class v Hv) as [(? & -> & ->)|(? & -> & k & -> & ? & ? & ?)].
  - replace (intZero + v - intZero) with v by lia.
    rewrite (proj2 (Z.leb_le v intSmall)) by lia. cbn [be app]. by rewrite wrapU_id.
  - replace (IntMax - 8 + Z.of_nat (S k) - intZero - intSmall) with (Z.of_nat (S k)) by lia.
    rewrite (proj2 (Z.leb_gt _ _)) by lia. rewrite length_app, be_length.
    rewrite (proj2 (Z.ltb_ge _ _)), (proj2 (Z.ltb_ge 8 _)), (proj2 (Z.ltb_ge _ _)) by lia.
    cbn [orb]. rewrite Nat2Z.id, drop_app_length', take_app_length' by (by rewrite be_length).
    rewrite be_acc_u64, Z.mod_small by lia. done.
Qed.

#[export] Instance uvarint_codec :
  OrderedCodec (isU 64) Z.compare EncodeUvarintAscending DecodeUvarintAscending.
Proof.
  split.
  - intros b x. unfold EncodeUvarintAscending. by repeat case_match.
  - intros x y s t Hx Hy. rewrite !uvarint_view by done.
    apply (tagged_order (isU 64) uv_tag uv_width id); auto using uvarint_mono.
  - intros x r Hx. rewrite uvarint_view by done. by apply uvarint_dec.
Qed.

(** ** Signed varints *)

Definition neg_width (v : Z) : nat :=
  if - 0xff <=? v then 1 else if - 0xffff <=? v then 2 else if - 0xffffff <=? v then 3
  else if - 0xffffffff <=? v then 4 else if - 0xffffffffff <=? v then 5
  else if - 0xffffffffffff <=? v then 6 else if - 0xffffffffffffff <=? v then 7 else 8.

Definition v_width (v : Z) : nat := if v <? 0 then neg_width v else uv_width v.
Definition v_tag (v : Z) : Z :=
  if v <? 0 then intZero - Z.of_nat (neg_width v) else uv_tag v.

Lemma isS64_isU64 v : isS 64 v -> 0 <= v -> isU 64 v.
Proof. unfold isS, isU. lia. Qed.

Lemma varint_view b v :
  isS 64 v -> EncodeVarintAscending b v = b ++ v_tag v :: be (v_width v) v.
Proof.
  intros Hv. unfold EncodeVarintAscending, v_tag, v_width.
  destruct (Z.ltb_spec v 0); [unfold neg_width; zcases; reflexivity|].
  pose proof (isS64_isU64 v Hv ltac:(lia)). rewrite wrapU_id by done. by apply uvarint_view.
Qed.

Lemma neg_class v :
  isS 64 v -> v < 0 ->
  exists k, neg_width v = S k /\ (k < 8)%nat /\
    2 ^ (8 * Z.of_nat k) <= - v < 2 ^ (8 * Z.of_nat (S k)).
Proof.
  unfold isS. intros [Hv Hv'] H. unfold neg_width.
  change (- 2 ^ (64 - 1)) with MinInt64 in Hv.
  zcases; eexists; (split; [done|]); cbn; lia.
Qed.

Lemma mod_neg v n :
  0 < - v < 2 ^ (8 * Z.of_nat n) ->
  v mod 2 ^ (8 * Z.of_nat n) = 2 ^ (8 * Z.of_nat n) + v.
Proof. intros. symmetry. apply (Z.mod_unique _ _ (-1)); lia. Qed.

Lemma uv_tag_ge v : isU 64 v -> intZero <= uv_tag v.
Proof. intros Hv. destruct (uv_class v Hv) as [(? & -> & _)|(? & -> & _)]; unfold isU in *; lia. Qed.

Lemma varint_mono x y :
  isS 64 x -> isS 64 y -> x < y ->
  v_tag x < v_tag y \/
  v_tag x = v_tag y /\ v_width x = v_width y /\
  x mod 2 ^ (8 * Z.of_nat (v_width x)) < y mod 2 ^ (8 * Z.of_nat (v_width x)).
Proof.
  intros Hx Hy E. unfold v_tag, v_width.
  destruct (Z.ltb_spec x 0), (Z.ltb_spec y 0); [| |lia|].
  - destruct (neg_class x Hx) as (k & -> & ? & ? & ?); [done|].
    destruct (neg_class y Hy) as (k' & -> & ? & ? & ?); [done|].
    assert (k' <= k)%nat as [Hk| ->]%Nat.lt_eq_cases
      by (apply (width_mono k' k (- y) (- x)); lia).
    + left. lia.
    + right. rewrite !mod_neg by lia. lia.
  - left. destruct (neg_class x Hx) as (k & -> & ? & ? & ?); [done|].
    pose proof (uv_tag_ge y (isS64_isU64 y Hy ltac:(lia))). lia.
  - apply uvarint_mono; auto using isS64_isU64.
Qed.

Lemma varint_dec v r :
  isS 64 v -> DecodeVarintAscending (v_tag v :: be (v_width v) v ++ r) = Ok (r, v).
Proof.
  intros Hv. unfold DecodeVarintAscending, v_tag, v_width. cbv zeta.
  destruct (Z.ltb_spec v 0).
  - destruct (neg_class v Hv) as (k & -> & ? & ? & ?); [done|].
    rewrite (proj2 (Z.ltb_lt _ 0)) by lia.
    replace (- (intZero - Z.of_nat (S k) - intZero)) with (Z.of_nat (S k)) by lia.
    rewrite length_app, be_length, (proj2 (Z.ltb_ge _ _)) by lia.
    rewrite Nat2Z.id, drop_app_length', take_app_length' by (by rewrite be_length).
    rewrite <- (Z.lnot_involutive v) at 1. rewrite map_notb_be.
    assert (0 <= Z.lnot v < 2 ^ (8 * Z.of_nat (S k)) /\ Z.lnot v <= MaxInt64)
      by (unfold isS, Z.lnot in *; lia).
    rewrite be_acc_s64, Z.mod_small by (rewrite ?Z.mod_small; lia).
    by rewrite Z.lnot_involutive.
  - assert (isU 64 v) by (apply isS64_isU64; [done|lia]).
    pose proof (uv_tag_ge v ltac:(done)). rewrite (proj2 (Z.ltb_ge _ 0)) by lia.
    rewrite uvarint_dec by done. cbn.
    rewrite (proj2 (Z.ltb_ge MaxInt64 v)) by (unfold isS in *; lia). done.
Qed.

#[export] Instance varint_codec :
  OrderedCodec (isS 64) Z.compare EncodeVarintAscending DecodeVarintAscending.
Proof.
  split.
  - intros b x. unfold EncodeVarintAscending. repeat case_match; try done.
    apply (oc_append (enc := EncodeUvarintAscending)).
  - intros x y s t Hx Hy. rewrite !varint_view by done.
    apply (tagged_order (isS 64) v_tag v_width id); auto using varint_mono.
  - intros x r Hx. rewrite varint_view by done. by apply varint_dec.
Qed.

#[export] Instance varint_desc_codec :
  OrderedCodec (isS 64) (fun x y => CompOpp (x ?= y)) EncodeVarintDescending DecodeVarintDescending.
Proof.
  apply (desc_codec (enc := EncodeVarintAscending) Z.lnot); unfold isS, Z.lnot; intros; [lia..|].
  destruct (Z.compare_spec x y) as [->|?|?]; simpl;
    [apply Z.compare_refl|apply Z.compare_gt_iff; lia|apply Z.compare_lt_iff; lia].
Qed.

(** ** Descending unsigned varints *)

Definition ud_width (v : Z) : nat :=
  if v =? 0 then 0 else if v <=? 0xff then 1 else if v <=? 0xffff then 2
  else if v <=? 0xffffff then 3 else if v <=? 0xffffffff then 4
  else if v <=? 0xffffffffff then 5 else if v <=? 0xffffffffffff then 6
  else if v <=? 0xffffffffffffff then 7 else 8.

Definition ud_tag (v : Z) : Z := intZero - Z.of_nat (ud_width v).

Lemma uvarint_desc_view b v :
  isU 64 v ->
  EncodeUvarintDescending b v = b ++ ud_tag v :: be (ud_width v) (u64 (Z.lnot v)).
Proof.
  intros [Hv _]. unfold EncodeUvarintDescending, ud_tag, ud_width. cbv zeta.
  zcases; reflexivity.
Qed.

Lemma ud_class v :
  isU 64 v ->
  v = 0 /\ ud_width v = 0%nat \/
  exists k, ud_width v = S k /\ (k < 8)%nat /\
    2 ^ (8 * Z.of_nat k) <= v < 2 ^ (8 * Z.of_nat (S k)).
Proof.
  intros [Hv Hv']. unfold ud_width. change (2 ^ 64) with 18446744073709551616 in Hv'.
  zcases; first [by left | exfalso; lia | right; eexists; (split; [done|]); cbn; lia].
Qed.

(** The low bytes of the complement complement the low bytes. *)
Lemma lnot_mod v n :
  (n <= 8)%nat -> 0 <= v < 2 ^ (8 * Z.of_nat n) ->
  u64 (Z.lnot v) mod 2 ^ (8 * Z.of_nat n) = 2 ^ (8 * Z.of_nat n) - 1 - v.
Proof.
  intros Hn Hv.
  assert (2 ^ 64 = 2 ^ (8 * Z.of_nat n) * 2 ^ (64 - 8 * Z.of_nat n)) as E
    by (rewrite <- Z.pow_add_r by lia; f_equal; lia).
  assert (1 <= 2 ^ (64 - 8 * Z.of_nat n)) by lia.
  rewrite wrapU_lnot by (unfold isU; nia). symmetry.
  apply (Z.mod_unique _ _ (2 ^ (64 - 8 * Z.of_nat n) - 1)); [lia|]. lia.
Qed.

Lemma uvarint_desc_mono x y :
  isU 64 x -> isU 64 y -> y < x ->
  ud_tag x < ud_tag y \/
  ud_tag x = ud_tag y /\ ud_width x = ud_width y /\
  u64 (Z.lnot x) mod 2 ^ (8 * Z.of_nat (ud_width x)) <
  u64 (Z.lnot y) mod 2 ^ (8 * Z.of_nat (ud_width x)).
Proof.
  intros Hx Hy E. unfold ud_tag.
  destruct (ud_class x Hx) as [(-> & ->)|(k & -> & ? & ? & ?)];
    destruct (ud_class y Hy) as [(-> & ->)|(k' & -> & ? & ? & ?)];
    try (unfold isU in *; lia).
  assert (k' <= k)%nat as [Hk| ->]%Nat.lt_eq_cases by (by apply (width_mono k' k y x)).
  - left. lia.
  - right. rewrite !lnot_mod by lia. lia.
Qed.

#[export] Instance uvarint_desc_codec :
  OrderedCodec (isU 64) (fun x y => CompOpp (x ?= y)) EncodeUvarintDescending DecodeUvarintDescending.
Proof.
  split.
  - intros b x. unfold EncodeUvarintDescending. by repeat case_match.
  - intros x y s t Hx Hy. rewrite !uvarint_desc_view by done.
    pose proof (tagged_order (fun z => isU 64 (- z)) (fun z => ud_tag (- z))
      (fun z => ud_width (- z)) (fun z => u64 (Z.lnot (- z)))) as T.
    specialize (T ltac:(intros; apply uvarint_desc_mono; [done|done|lia]) (- x) (- y) s t).
    cbv beta in T. rewrite !Z.opp_involutive in T. rewrite !app_nil_l, T by done.
    by rewrite Z.compare_opp, (Z.compare_antisym x y).
  - intros x r Hx. rewrite uvarint_desc_view by done. cbn [app]. unfold DecodeUvarintDescending.
    unfold ud_tag. cbv zeta. rewrite length_app, be_length.
    replace (intZero - (intZero - Z.of_nat (ud_width x))) with (Z.of_nat (ud_width x)) by lia.
    assert ((ud_width x <= 8)%nat /\ 0 <= x < 2 ^ (8 * Z.of_nat (ud_width x))) as [Hw Hb].
    { destruct (ud_class x Hx) as [(-> & ->)|(k & -> & ? & ? & ?)]; cbn; lia. }
    rewrite (proj2 (Z.ltb_ge _ 0)), (proj2 (Z.ltb_ge 8 _)), (proj2 (Z.ltb_ge _ _)) by lia.
    cbn [orb]. rewrite Nat2Z.id, drop_app_length', take_app_length' by (by rewrite be_length).
    rewrite <- (Z.lnot_involutive (u64 _)), map_notb_be, be_acc_u64 by done.
    do 2 f_equal. rewrite wrapU_lnot by done. unfold Z.lnot.
    symmetry. apply (Z.mod_unique _ _ (- 2 ^ (64 - 8 * Z.of_nat (ud_width x)))); [lia|].
    assert (2 ^ 64 = 2 ^ (8 * Z.of_nat (ud_width x)) * 2 ^ (64 - 8 * Z.of_nat (ud_width x)))
      by (rewrite <- Z.pow_add_r by lia; f_equal; lia). lia.
Qed.

(** ** Lengths *)

Lemma uvarint_length v :
  isU 64 v -> Z.of_nat (length (EncodeUvarintAscending [] v)) = EncodedLengthUvarintAscending v.
Proof.
  intros Hv. rewrite uvarint_view by done. cbn [app length]. rewrite be_length.
  unfold uv_width, EncodedLengthUvarintAscending. zcases; reflexivity.
Qed.

Lemma EncLenUvarintAscending_eq v :
  isU 64 v -> EncLenUvarintAscending v = EncodedLengthUvarintAscending v.
Proof.
  unfold isU. change (2 ^ 64) with 18446744073709551616.
  unfold EncLenUvarintAscending, EncodedLengthUvarintAscending, highestByteIndex. intros.
  repeat (progress (zcases; cbv beta iota zeta));
    rewrite ?Z.shiftr_div_pow2 in * by lia; try lia;
    exfalso; Z.div_mod_to_equations; lia.
Qed.

Lemma EncLenUvarintDescending_eq v :
  isU 64 v -> EncLenUvarintDescending v = Z.of_nat (length (EncodeUvarintDescending [] v)).
Proof.
  intros Hv. rewrite uvarint_desc_view by done. cbn [app length]. rewrite be_length. revert Hv.
  unfold isU. change (2 ^ 64) with 18446744073709551616.
  unfold EncLenUvarintDescending, ud_width, highestByteIndex. intros.
  destruct (Z.eqb_spec v 0); [done|].
  repeat (progress (zcases; cbv beta iota zeta));
    rewrite ?Z.shiftr_div_pow2 in * by lia; try lia;
    exfalso; Z.div_mod_to_equations; lia.
Qed.

(** A length function agrees with the encoding at the front of a buffer. *)
Lemma GetUvarintLen_enc v r :
  isU 64 v ->
  GetUvarintLen (EncodeUvarintAscending [] v ++ r) =
  Ok (Z.of_nat (length (EncodeUvarintAscending [] v))).
Proof.
  intros Hv. rewrite uvarint_view by done. unfold GetUvarintLen. cbn [app length].
  rewrite length_app, be_length. cbv zeta.
  destruct (uv_class v Hv) as [(? & -> & ->)|(? & -> & k & -> & ? & ? & ?)]; zcases; try lia;
    cbn [orb]; f_equal; lia.
Qed.

Lemma getVarintLen_enc v r :
  isS 64 v ->
  getVarintLen (EncodeVarintAscending [] v ++ r) =
  Ok (Z.of_nat (length (EncodeVarintAscending [] v))).
Proof.
  intros Hv. rewrite varint_view by done. unfold getVarintLen. cbn [app length].
  rewrite length_app, be_length. cbv zeta. unfold v_tag, v_width.
  destruct (Z.ltb_spec v 0).
  - destruct (neg_class v Hv) as (k & -> & ? & ? & ?); [done|].
    zcases; try lia; cbn [andb]; f_equal; lia.
  - destruct (uv_class v ltac:(apply isS64_isU64; [done|lia])) as
      [(? & -> & ->)|(? & -> & k & -> & ? & ? & ?)]; zcases; try lia; cbn [andb]; f_equal; lia.
Qed.

Lemma getVarintLen_uvarint v r :
  isU 64 v ->
  getVarintLen (EncodeUvarintAscending [] v ++ r) =
  Ok (Z.of_nat (length (EncodeUvarintAscending [] v))).
Proof.
  intros Hv. pose proof Hv as [? ?]. rewrite uvarint_view by done. unfold getVarintLen. cbn [app length].
  rewrite length_app, be_length. cbv zeta.
  destruct (uv_class v Hv) as [(? & -> & ->)|(? & -> & k & -> & ? & ? & ?)]; zcases; try lia;
    cbn [andb]; f_equal; lia.
Qed.

Lemma getVarintLen_uvarint_desc v r :
  isU 64 v ->
  getVarintLen (EncodeUvarintDescending [] v ++ r) =
  Ok (Z.of_nat (length (EncodeUvarintDescending [] v))).
Proof.
  intros Hv. rewrite uvarint_desc_view by done. unfold getVarintLen, ud_tag. cbn [app length].
  rewrite length_app, be_length. cbv zeta.
  destruct (ud_class v Hv) as [(? & ->)|(k & -> & ? & ? & ?)]; zcases; try lia;
    cbn [andb]; f_equal; lia.
Qed.

(** The tag bytes leave the ends of the byte range to terminators. *)
Lemma uvarint_first v :
  isU 64 v -> exists m l, EncodeUvarintAscending [] v = m :: l /\ intZero <= m <= IntMax.
Proof.
  intros Hv. rewrite uvarint_view by done. eexists _, _. split; [reflexivity|].
  destruct (uv_class v Hv) as [(? & -> & _)|(? & -> & k & -> & ? & ? & ?)]; unfold isU in Hv; lia.
Qed.

Lemma uvarint_desc_first v :
  isU 64 v -> exists m l, EncodeUvarintDescending [] v = m :: l /\ IntMin <= m <= intZero.
Proof.
  intros Hv. rewrite uvarint_desc_view by done. eexists _, _. split; [reflexivity|]. unfold ud_tag.
  destruct (ud_class v Hv) as [(_ & ->)|(k & -> & ? & ? & ?)]; lia.
Qed.

(** * Properties *)

(** The ascending varint.  Encodings of int64 values compare as the values do,
    whatever follows them in the key, and the decoder returns the value and the rest. *)
Theorem varint_ascending x y s t :
  isS 64 x -> isS 64 y ->
  bytes_compare (EncodeVarintAscending [] x ++ s) (EncodeVarintAscending [] y ++ t) =
    lexc (x ?= y) (bytes_compare s t) /\
  DecodeVarintAscending (EncodeVarintAscending [] x ++ s) = Ok (s, x) /\
  getVarintLen (EncodeVarintAscending [] x ++ s) =
    Ok (Z.of_nat (length (EncodeVarintAscending [] x))).
Proof.
  intros. split; [by apply (oc_order (enc := EncodeVarintAscending))|].
  split; [by apply (oc_roundtrip (enc := EncodeVarintAscending))|by apply getVarintLen_enc].
Qed.

Lemma varint_ascending_witness :
  isS 64 (-5) /\ DecodeVarintAscending (EncodeVarintAscending [] (-5) ++ [7]) = Ok ([7], -5).
Proof.
  assert (isS 64 (-5)) by (unfold isS; lia). split; [done|].
  by apply (varint_ascending (-5) (-5) [7] []).
Defined.

(** The descending varint.  Encodings of int64 values compare in the opposite
    order of the values and decode back. *)
Theorem varint_descending x y s t :
  isS 64 x -> isS 64 y ->
  bytes_compare (EncodeVarintDescending [] x ++ s) (EncodeVarintDescending [] y ++ t) =
    lexc (CompOpp (x ?= y)) (bytes_compare s t) /\
  DecodeVarintDescending (EncodeVarintDescending [] x ++ s) = Ok (s, x).
Proof.
  intros. split; [by apply (oc_order (cmp := fun x y => CompOpp (x ?= y)) (enc := EncodeVarintDescending))|].
  by apply (oc_roundtrip (enc := EncodeVarintDescending)).
Qed.

Lemma varint_descending_witness :
  isS 64 MinInt64 /\
  DecodeVarintDescending (EncodeVarintDescending [] MinInt64 ++ [7]) = Ok ([7], MinInt64).
Proof.
  assert (isS 64 MinInt64) by (unfold isS; lia). split; [done|].
  by apply (varint_descending MinInt64 MinInt64 [7] []).
Defined.

(** The unsigned varints.  Ascending and descending encodings of uint64 values
    keep, respectively reverse, the order and decode back; the length functions,
    which do not encode, agree with the encoders. *)
Theorem uvarint_correct x y s t :
  isU 64 x -> isU 64 y ->
  bytes_compare (EncodeUvarintAscending [] x ++ s) (EncodeUvarintAscending [] y ++ t) =
    lexc (x ?= y) (bytes_compare s t) /\
  bytes_compare (EncodeUvarintDescending [] x ++ s) (EncodeUvarintDescending [] y ++ t) =
    lexc (CompOpp (x ?= y)) (bytes_compare s t) /\
  DecodeUvarintAscending (EncodeUvarintAscending [] x ++ s) = Ok (s, x) /\
  DecodeUvarintDescending (EncodeUvarintDescending [] x ++ s) = Ok (s, x) /\
  EncLenUvarintAscending x = Z.of_nat (length (EncodeUvarintAscending [] x)) /\
  EncodedLengthUvarintAscending x = Z.of_nat (length (EncodeUvarintAscending [] x)) /\
  EncLenUvarintDescending x = Z.of_nat (length (EncodeUvarintDescending [] x)) /\
  GetUvarintLen (EncodeUvarintAscending [] x ++ s) =
    Ok (Z.of_nat (length (EncodeUvarintAscending [] x))).
Proof.
  intros. split_and!;
    [ by apply (oc_order (enc := EncodeUvarintAscending))
    | by apply (oc_order (cmp := fun x y => CompOpp (x ?= y)) (enc := EncodeUvarintDescending))
    | by apply (oc_roundtrip (enc := EncodeUvarintAscending))
    | by apply (oc_roundtrip (enc := EncodeUvarintDescending))
    | by rewrite EncLenUvarintAscending_eq, uvarint_length
    | by rewrite uvarint_length
    | by apply EncLenUvarintDescending_eq
    | by apply GetUvarintLen_enc ].
Qed.

Lemma uvarint_correct_witness :
  isU 64 MaxUint64 /\
  DecodeUvarintAscending (EncodeUvarintAscending [] MaxUint64 ++ [7]) = Ok ([7], MaxUint64).
Proof.
  assert (isU 64 MaxUint64) by (unfold isU; lia). split; [done|].
  by apply (uvarint_correct MaxUint64 MaxUint64 [7] []).
Defined.

(** A malformed unsigned varint.  The decoder and the length function accept a tag
    below [intZero], which no encoder writes: the length is reported as one byte and the
    decoded value is the tag minus [intZero] wrapped to 64 bits. *)
Theorem uvarint_low_tag t r :
  0 <= t < intZero ->
  GetUvarintLen (t :: r) = Ok 1 /\
  DecodeUvarintAscending (t :: r) = Ok (r, u64 (t - intZero)).
Proof.
  intros Ht. unfold GetUvarintLen, DecodeUvarintAscending.
  rewrite (proj2 (Z.leb_le (t - intZero) intSmall)) by lia. done.
Qed.

Lemma uvarint_low_tag_witness :
  DecodeUvarintAscending [0; 9] = Ok ([9], 18446744073709551480).
Proof. apply (uvarint_low_tag 0 [9]). lia. Defined.
