(* ===== verification/BytesEnc.v ===== *)
(** Byte-string key encodings (src/pkg/util/encoding/encoding.go and
    complement_fast.go).

    The escape-based encoding of byte strings and strings, ascending and
    descending, with its decoders and length functions.  The loops of the code
    jump from escape byte to escape byte with [bytes.IndexByte]; they are shown
    equal, errors included, to byte-at-a-time reference functions, about which
    order preservation and the round trip are proved. *)
From S2P Require Import Prelude Bytes IntEnc.

(** * Standard library *)

(** [bytes.IndexByte]; [None] is -1. *)
Fixpoint IndexByte (l : bytes) (c : Z) : option nat :=
  match l with
  | [] => None
  | x :: l' => if x =? c then Some 0%nat else S <$> IndexByte l' c
  end.

(** [bytes.Count] for a single-byte separator. *)
Definition CountByte (l : bytes) (c : Z) : nat := length (filter (fun x => x = c) l).

(** * Constants *)

Abbreviation escape := 0x00.
Abbreviation escapedTerm := 0x01.
Abbreviation escapedJSONObjectKeyTerm := 0x02.
Abbreviation escapedJSONArray := 0x03.
Abbreviation escaped00 := 0xff.
Abbreviation escapedFF := 0x00.
Abbreviation bytesMarker := 0x12.
Abbreviation bytesDescMarker := 0x13.

Record escapes := Escapes {
  e_escape : Z; e_escapedTerm : Z; e_escaped00 : Z; e_escapedFF : Z; e_marker : Z
}.

Definition ascendingBytesEscapes : escapes :=
  Escapes escape escapedTerm escaped00 escapedFF bytesMarker.
Definition descendingBytesEscapes : escapes :=
  Escapes (notb escape) (notb escapedTerm) (notb escaped00) (notb escapedFF) bytesDescMarker.

(** * Encoders *)

(** The loop, with fuel: each turn removes at least one byte of [data]. *)
Fixpoint escape_loop (fuel : nat) (b data : bytes) : bytes :=
  match fuel with
  | O => b ++ data
  | S fuel =>
      match IndexByte data escape with
      | None => b ++ data
      | Some i =>
          escape_loop fuel ((b ++ take i data) ++ [escape; escaped00]) (drop (i + 1) data)
      end
  end.

Definition encodeBytesAscendingWithoutTerminatorOrPrefix (b data : bytes) : bytes :=
  escape_loop (S (length data)) b data.

Definition encodeBytesAscendingWithTerminator (b data : bytes) (terminator : Z) : bytes :=
  let bs := encodeBytesAscendingWithoutTerminatorOrPrefix b data in
  bs ++ [escape; terminator].

Definition encodeBytesAscendingWithTerminatorAndPrefix
    (b data : bytes) (terminator prefix : Z) : bytes :=
  encodeBytesAscendingWithTerminator (b ++ [prefix]) data terminator.

Definition EncodeBytesAscending (b data : bytes) : bytes :=
  encodeBytesAscendingWithTerminatorAndPrefix b data
    (e_escapedTerm ascendingBytesEscapes) bytesMarker.

Definition encodeNextBytesAscendingWithTerminator (b data : bytes) (terminator : Z) : bytes :=
  let bs := encodeBytesAscendingWithoutTerminatorOrPrefix b data in
  bs ++ [escape; escaped00; escape; terminator].

Definition EncodeNextBytesAscending (b data : bytes) : bytes :=
  encodeNextBytesAscendingWithTerminator (b ++ [bytesMarker]) data
    (e_escapedTerm ascendingBytesEscapes).

(** [onesComplement] (complement_fast.go) complements the slice one 8-byte word
    at a time, the words read and written in the machine's little-endian order,
    and the bytes of the remainder one by one. *)
Fixpoint le_word (l : bytes) : Z :=
  match l with [] => 0 | x :: l' => x + 256 * le_word l' end.
Fixpoint word_le (n : nat) (w : Z) : bytes :=
  match n with O => [] | S n => w mod 256 :: word_le n (w / 256) end.

Abbreviation wordSize := 8%nat.

Fixpoint complement_words (w : nat) (b : bytes) : bytes :=
  match w with
  | O => notb <$> b
  | S w =>
      word_le wordSize (u64 (Z.lnot (le_word (take wordSize b))))
      ++ complement_words w (drop wordSize b)
  end.

Definition onesComplement (b : bytes) : bytes :=
  complement_words (length b / wordSize)%nat b.

#[global] Arguments onesComplement : simpl never.

Definition EncodeBytesDescending (b data : bytes) : bytes :=
  let n := length b in
  let b := EncodeBytesAscending b data in
  let b := <[n := bytesDescMarker]> b in
  take (n + 1) b ++ onesComplement (drop (n + 1) b).

Definition EncodeBytesSize (data : bytes) : nat := length data + 3 + CountByte data escape.
Definition EncodeNextBytesSize (data : bytes) : nat := length data + 5 + CountByte data escape.

(** Go strings are byte strings. *)
Definition EncodeStringAscending (b s : bytes) : bytes :=
  encodeBytesAscendingWithTerminatorAndPrefix b s
    (e_escapedTerm ascendingBytesEscapes) bytesMarker.

Definition EncodeStringDescending (b s : bytes) : bytes :=
  if (length s =? 0)%nat then EncodeBytesDescending b [] else EncodeBytesDescending b s.

Definition EncodeJSONKeyStringAscending (b s : bytes) (last : bool) : bytes :=
  if last then encodeBytesAscendingWithoutTerminatorOrPrefix b s
  else encodeBytesAscendingWithTerminator b s escapedJSONObjectKeyTerm.

(** * Decoders *)

Fixpoint decode_loop (fuel : nat) (b r : bytes) (e : escapes) (deepCopy : bool)
    : res (bytes * bytes) :=
  match fuel with
  | O => Panic "out of fuel"
  | S fuel =>
      match IndexByte b (e_escape e) with
      | None => Err "did not find terminator"
      | Some i =>
          if (length b <=? i + 1)%nat then Err "malformed escape in buffer"
          else
            let v := nth (i + 1) b 0 in
            if v =? e_escapedTerm e then
              let r := if (length r =? 0)%nat && negb deepCopy
                       then take i b else r ++ take i b in
              Ok (drop (i + 2) b, r)
            else if negb (v =? e_escaped00 e) then Err "unknown escape sequence"
            else decode_loop fuel (drop (i + 2) b) ((r ++ take i b) ++ [e_escapedFF e]) e deepCopy
      end
  end.

Definition decodeBytesInternal (b r : bytes) (e : escapes) (expectMarker deepCopy : bool)
    : res (bytes * bytes) :=
  if expectMarker then
    match b with
    | [] => Err "did not find marker"
    | m :: b =>
        if m =? e_marker e then decode_loop (S (length b)) b r e deepCopy
        else Err "did not find marker"
    end
  else decode_loop (S (length b)) b r e deepCopy.

Definition DecodeBytesAscending (b r : bytes) : res (bytes * bytes) :=
  decodeBytesInternal b r ascendingBytesEscapes true false.

Definition DecodeBytesAscendingDeepCopy (b r : bytes) : res (bytes * bytes) :=
  decodeBytesInternal b r ascendingBytesEscapes true true.

Definition DecodeBytesDescending (b r : bytes) : res (bytes * bytes) :=
  '(b, r) ← decodeBytesInternal b r descendingBytesEscapes true true;
  Ok (b, onesComplement r).

Fixpoint bytes_length_loop (fuel : nat) (b : bytes) (e : escapes) (skipped : Z) : res Z :=
  match fuel with
  | O => Panic "out of fuel"
  | S fuel =>
      rest ← slice_from b skipped;
      match IndexByte rest (e_escape e) with
      | None => Err "did not find terminator"
      | Some i =>
          if Z.of_nat (length b) <=? Z.of_nat i + 1 then Err "malformed escape in buffer"
          else
            let skipped := skipped + (Z.of_nat i + 2) in
            x ← go_index b (skipped - 1);
            if x =? e_escapedTerm e then Ok skipped
            else bytes_length_loop fuel b e skipped
      end
  end.

Definition getBytesLength (b : bytes) (e : escapes) : res Z :=
  bytes_length_loop (S (length b)) b e 1.

(** * Reference functions *)

Definition esc_ref (data : bytes) : bytes :=
  data ≫= fun x => if x =? escape then [escape; escaped00] else [x].

Fixpoint dec_ref (b r : bytes) (e : escapes) {struct b} : res (bytes * bytes) :=
  match b with
  | [] => Err "did not find terminator"
  | x :: b1 =>
      if x =? e_escape e then
        match b1 with
        | [] => Err "malformed escape in buffer"
        | v :: b2 =>
            if v =? e_escapedTerm e then Ok (b2, r)
            else if negb (v =? e_escaped00 e) then Err "unknown escape sequence"
            else dec_ref b2 (r ++ [e_escapedFF e]) e
        end
      else dec_ref b1 (r ++ [x]) e
  end.

Lemma dec_ref_cons x b1 r e :
  dec_ref (x :: b1) r e =
  if x =? e_escape e then
    match b1 with
    | [] => Err "malformed escape in buffer"
    | v :: b2 =>
        if v =? e_escapedTerm e then Ok (b2, r)
        else if negb (v =? e_escaped00 e) then Err "unknown escape sequence"
        else dec_ref b2 (r ++ [e_escapedFF e]) e
    end
  else dec_ref b1 (r ++ [x]) e.
Proof. reflexivity. Qed.

(** ** Finding the escape byte *)

Lemma IndexByte_None l c : IndexByte l c = None -> c ∉ l.
Proof.
  induction l as [|x l IH]; simpl; [set_solver|].
  destruct (Z.eqb_spec x c); [done|]. destruct (IndexByte l c); [done|]. set_solver.
Qed.

Lemma IndexByte_Some l c i :
  IndexByte l c = Some i -> exists l1 l2, l = l1 ++ c :: l2 /\ length l1 = i /\ c ∉ l1.
Proof.
  revert i; induction l as [|x l IH]; simpl; [done|]. intros i.
  destruct (Z.eqb_spec x c) as [->|]; [intros [= <-]; exists [], l; set_solver|].
  destruct (IndexByte l c) as [j|]; simpl; [|done]. intros [= <-].
  destruct (IH j eq_refl) as (l1 & l2 & -> & <- & ?). exists (x :: l1), l2. set_solver.
Qed.

Lemma IndexByte_app l1 l2 c : c ∉ l1 -> IndexByte (l1 ++ c :: l2) c = Some (length l1).
Proof.
  induction l1 as [|x l1 IH]; simpl; intros Hc; [by rewrite Z.eqb_refl|].
  destruct (Z.eqb_spec x c); [set_solver|]. by rewrite IH by set_solver.
Qed.

(** The three pieces the loops cut a buffer into at the first escape. *)
Lemma cut_take (l1 l2 : bytes) c : take (length l1) (l1 ++ c :: l2) = l1.
Proof. by rewrite take_app_length. Qed.

Lemma cut_drop1 (l1 l2 : bytes) c : drop (length l1 + 1) (l1 ++ c :: l2) = l2.
Proof. by rewrite drop_app_add. Qed.

Lemma cut_drop2 (l1 l2 : bytes) c v : drop (length l1 + 2) (l1 ++ c :: v :: l2) = l2.
Proof. by rewrite drop_app_add. Qed.

Lemma cut_nth (l1 l2 : bytes) c v : nth (length l1 + 1) (l1 ++ c :: v :: l2) 0 = v.
Proof. by rewrite app_nth2_plus. Qed.

(** ** The loops are the reference functions *)

Lemma esc_ref_app a b : esc_ref (a ++ b) = esc_ref a ++ esc_ref b.
Proof. apply bind_app. Qed.

Lemma esc_ref_cons x l :
  esc_ref (x :: l) = (if x =? escape then [escape; escaped00] else [x]) ++ esc_ref l.
Proof. reflexivity. Qed.

Lemma esc_ref_nil : esc_ref [] = [].
Proof. reflexivity. Qed.

Lemma esc_ref_plain l : escape ∉ l -> esc_ref l = l.
Proof.
  induction l as [|x l IH]; [done|]. intros Hx. cbn. destruct (Z.eqb_spec x escape); [set_solver|].
  cbn. f_equal. apply IH. set_solver.
Qed.

Lemma escape_loop_ref fuel b data :
  (length data < fuel)%nat -> escape_loop fuel b data = b ++ esc_ref data.
Proof.
  revert b data; induction fuel as [|fuel IH]; intros b data Hf; [lia|]. cbn [escape_loop].
  destruct (IndexByte data escape) as [i|] eqn:E.
  - apply IndexByte_Some in E as (l1 & l2 & -> & <- & Hn). rewrite length_app in Hf. simpl in Hf.
    rewrite cut_take, cut_drop1, IH by lia. rewrite esc_ref_app, (esc_ref_plain l1) by done.
    by rewrite <- !app_assoc.
  - by rewrite esc_ref_plain by (by apply IndexByte_None).
Qed.

Lemma escape_ref b data :
  encodeBytesAscendingWithoutTerminatorOrPrefix b data = b ++ esc_ref data.
Proof. apply escape_loop_ref. lia. Qed.

Lemma dec_ref_plain l b r e :
  e_escape e ∉ l -> dec_ref (l ++ b) r e = dec_ref b (r ++ l) e.
Proof.
  revert r; induction l as [|x l IH]; intros r Hl; cbn [app dec_ref]; [by rewrite app_nil_r|].
  destruct (Z.eqb_spec x (e_escape e)); [set_solver|].
  rewrite IH by set_solver. by rewrite <- app_assoc.
Qed.

Lemma decode_loop_ref fuel b r e deepCopy :
  (length b < fuel)%nat -> decode_loop fuel b r e deepCopy = dec_ref b r e.
Proof.
  revert b r; induction fuel as [|fuel IH]; intros b r Hf; [lia|]. cbn [decode_loop].
  destruct (IndexByte b (e_escape e)) as [i|] eqn:E.
  - apply IndexByte_Some in E as (l1 & l2 & -> & <- & Hn).
    rewrite dec_ref_plain by done. cbn [dec_ref]. rewrite Z.eqb_refl, length_app. cbn [length].
    destruct l2 as [|v l2]; cbn [length].
    { by rewrite (proj2 (Nat.leb_le _ _)) by lia. }
    rewrite (proj2 (Nat.leb_gt _ _)) by lia. rewrite cut_nth, cut_drop2, cut_take.
    destruct (v =? e_escapedTerm e).
    { destruct r; cbn; [by destruct deepCopy|done]. }
    destruct (v =? e_escaped00 e); [|done]. cbn [negb].
    rewrite length_app in Hf. simpl in Hf. apply IH. lia.
  - rewrite <- (app_nil_r b), dec_ref_plain by (by apply IndexByte_None). done.
Qed.

Lemma decodeBytesInternal_ref m b r e deepCopy :
  decodeBytesInternal (m :: b) r e true deepCopy =
  if m =? e_marker e then dec_ref b r e else Err "did not find marker".
Proof. unfold decodeBytesInternal. by rewrite decode_loop_ref by lia. Qed.

(** ** Complement *)

Lemma le_word_ok l : bytes_ok l -> 0 <= le_word l < 256 ^ Z.of_nat (length l).
Proof.
  induction 1 as [|x l Hx Hl IH]; cbn [le_word length]; [lia|].
  rewrite Nat2Z.inj_succ, Z.pow_succ_r by lia. unfold byte_ok in *. lia.
Qed.

(** Complementing a little-endian word complements each of its bytes. *)
Lemma word_le_complement l :
  bytes_ok l -> word_le (length l) (256 ^ Z.of_nat (length l) - 1 - le_word l) = notb <$> l.
Proof.
  induction 1 as [|x l Hx Hl IH]; cbn [le_word length word_le fmap list_fmap]; [done|].
  pose proof (le_word_ok l Hl). rewrite Nat2Z.inj_succ, Z.pow_succ_r by lia.
  rewrite notb_eq by done. unfold byte_ok in *.
  set (m := 256 ^ Z.of_nat (length l)) in *.
  replace (256 * m - 1 - (x + 256 * le_word l)) with ((255 - x) + (m - 1 - le_word l) * 256) by lia.
  rewrite Z.mod_add, Z.mod_small, Z.div_add, Z.div_small by lia. by rewrite <- IH.
Qed.

Lemma complement_words_map w b :
  (w * wordSize <= length b)%nat -> bytes_ok b -> complement_words w b = notb <$> b.
Proof.
  revert b; induction w as [|w IH]; intros b Hl Hb; [done|]. cbn [complement_words].
  rewrite <- (take_drop wordSize b) in Hb. apply bytes_ok_app in Hb as [Ht Hd].
  assert (length (take wordSize b) = wordSize) as El by (rewrite length_take; lia).
  rewrite IH by (rewrite ?length_drop; first [done|lia]).
  pose proof (le_word_ok _ Ht) as Hw. rewrite El in Hw.
  pose proof (word_le_complement _ Ht) as W. rewrite El in W.
  rewrite wrapU_lnot by exact Hw. change (2 ^ 64) with (256 ^ Z.of_nat wordSize).
  by rewrite W, <- fmap_app, take_drop.
Qed.

Lemma onesComplement_map b : bytes_ok b -> onesComplement b = notb <$> b.
Proof.
  apply complement_words_map. rewrite Nat.mul_comm. apply Nat.Div0.mul_div_le.
Qed.

Lemma map_notb_involutive l : bytes_ok l -> notb <$> (notb <$> l) = l.
Proof.
  induction 1 as [|x l Hx Hl IH]; cbn [fmap list_fmap]; [done|]. by rewrite notb_involutive, IH.
Qed.

Lemma map_notb_ok l : bytes_ok (notb <$> l).
Proof. induction l; constructor; [apply notb_ok|done]. Qed.

(** The complement reverses an order that is decided before either string ends. *)
Lemma complement_order a b :
  bytes_ok a -> bytes_ok b -> (forall s t, bytes_compare (a ++ s) (b ++ t) = Lt) ->
  forall s t, bytes_compare ((notb <$> a) ++ s) ((notb <$> b) ++ t) = Gt.
Proof.
  intros Ha. revert b. induction Ha as [|x a Hx Ha IH]; intros b Hb H s t.
  { specialize (H b []). by rewrite app_nil_r, bytes_compare_refl in H. }
  destruct Hb as [|y b Hy Hb].
  { specialize (H [] (x :: a)). by rewrite app_nil_r, bytes_compare_refl in H. }
  cbn [fmap list_fmap app] in *. rewrite bytes_compare_cons, !notb_eq by done.
  destruct (Z.compare_spec x y) as [->|E|E].
  - rewrite Z.compare_refl. apply IH; [done|]. intros s' t'. specialize (H s' t').
    by rewrite bytes_compare_cons, Z.compare_refl in H.
  - by rewrite (proj2 (Z.compare_gt_iff _ _)) by lia.
  - specialize (H s t). by rewrite bytes_compare_cons, (proj2 (Z.compare_gt_iff _ _)) in H by lia.
Qed.

(** So the complement of a code whose order does not depend on what follows is ordered
    the opposite way. *)
Lemma complement_code a b c :
  bytes_ok a -> bytes_ok b ->
  (forall s t, bytes_compare (a ++ s) (b ++ t) = lexc c (bytes_compare s t)) ->
  forall s t, bytes_compare ((notb <$> a) ++ s) ((notb <$> b) ++ t) = lexc (CompOpp c) (bytes_compare s t).
Proof.
  intros Ha Hb H s t. destruct c; cbn [CompOpp lexc].
  - assert (a = b) as ->.
    { apply bytes_compare_eq. rewrite <- (app_nil_r a), <- (app_nil_r b). by rewrite H. }
    apply bytes_compare_app.
  - apply complement_order; [done..|]. intros. apply H.
  - rewrite bytes_compare_antisym. rewrite complement_order; [done..|].
    intros. by rewrite bytes_compare_antisym, H.
Qed.

(** ** Views of the encoders *)

Lemma EncodeBytesAscending_view b data :
  EncodeBytesAscending b data = b ++ bytesMarker :: esc_ref data ++ [escape; escapedTerm].
Proof.
  unfold EncodeBytesAscending, encodeBytesAscendingWithTerminatorAndPrefix,
    encodeBytesAscendingWithTerminator.
  by rewrite escape_ref, <- !app_assoc.
Qed.

Lemma esc_ref_ok data : bytes_ok data -> bytes_ok (esc_ref data).
Proof.
  induction 1 as [|x l Hx Hl IH]; cbn; [constructor|]. apply bytes_ok_app. split; [|done].
  destruct (x =? escape); repeat constructor; unfold byte_ok in *; lia.
Qed.

Lemma EncodeBytesDescending_view b data :
  bytes_ok data ->
  EncodeBytesDescending b data =
  b ++ bytesDescMarker :: (notb <$> esc_ref data ++ [escape; escapedTerm]).
Proof.
  intros Hd. unfold EncodeBytesDescending. rewrite EncodeBytesAscending_view.
  rewrite insert_app_r_alt, Nat.sub_diag by lia. cbn [insert list_insert].
  rewrite take_app_add, drop_app_add. cbn [take drop].
  rewrite onesComplement_map; [by rewrite <- app_assoc|].
  apply bytes_ok_app. split; [by apply esc_ref_ok|]. repeat constructor; unfold byte_ok; lia.
Qed.

(** ** Order *)

(** Escaped strings closed by a terminator below 0xff compare as the strings. *)
Lemma esc_order x y s t term :
  bytes_ok x -> bytes_ok y -> 0 <= term < escaped00 ->
  bytes_compare (esc_ref x ++ [escape; term] ++ s) (esc_ref y ++ [escape; term] ++ t) =
  lexc (bytes_compare x y) (bytes_compare s t).
Proof.
  intros Hx. revert y. induction Hx as [|a x Ha Hx IH]; intros y Hy Ht;
    destruct Hy as [|b y Hb Hy]; unfold byte_ok in *.
  - rewrite esc_ref_nil. cbn [app]. by rewrite !bytes_compare_cons, !Z.compare_refl.
  - rewrite esc_ref_nil, esc_ref_cons. destruct (Z.eqb_spec b escape) as [->|]; cbn [app].
    + by rewrite !bytes_compare_cons, Z.compare_refl, (proj2 (Z.compare_lt_iff term _)) by lia.
    + by rewrite !bytes_compare_cons, (proj2 (Z.compare_lt_iff _ b)) by lia.
  - rewrite esc_ref_nil, esc_ref_cons. destruct (Z.eqb_spec a escape) as [->|]; cbn [app].
    + by rewrite !bytes_compare_cons, Z.compare_refl, (proj2 (Z.compare_gt_iff _ term)) by lia.
    + by rewrite !bytes_compare_cons, (proj2 (Z.compare_gt_iff a _)) by lia.
  - specialize (IH y Hy Ht). rewrite !esc_ref_cons.
    rewrite (bytes_compare_cons a b). rewrite <- !app_assoc.
    destruct (Z.eqb_spec a escape) as [->|], (Z.eqb_spec b escape) as [->|]; cbn [app] in *;
      rewrite !bytes_compare_cons, ?Z.compare_refl; cbn [lexc]; rewrite ?IH; try done.
    + by rewrite (proj2 (Z.compare_lt_iff _ b)) by lia.
    + by rewrite (proj2 (Z.compare_gt_iff a _)) by lia.
    + by rewrite lexc_assoc.
Qed.

(** ** Decoding *)

Lemma dec_ref_esc data b r :
  bytes_ok data ->
  dec_ref (esc_ref data ++ [escape; escapedTerm] ++ b) r ascendingBytesEscapes = Ok (b, r ++ data).
Proof.
  intros Hd. revert r. induction Hd as [|x l Hx Hl IH]; intros r; [by rewrite app_nil_r|].
  rewrite esc_ref_cons, <- app_assoc.
  destruct (Z.eqb_spec x escape) as [->|Hne]; cbn [app dec_ref ascendingBytesEscapes e_escape
    e_escapedTerm e_escaped00 e_escapedFF Z.eqb negb] in *.
  - by rewrite IH, <- app_assoc.
  - rewrite (proj2 (Z.eqb_neq x _)) by done. by rewrite IH, <- app_assoc.
Qed.

Lemma notb_eqb x y : byte_ok x -> byte_ok y -> (notb x =? notb y) = (x =? y).
Proof. intros. rewrite !notb_eq by done. zcases; lia. Qed.

(** Decoding the complement with the descending escapes is the complement of
    decoding with the ascending ones. *)
Lemma dec_ref_complement (b r : bytes) :
  bytes_ok b ->
  dec_ref (notb <$> b) (notb <$> r) descendingBytesEscapes =
  res_fmap _ _ (fun p : bytes * bytes => (notb <$> p.1, notb <$> p.2))
    (dec_ref b r ascendingBytesEscapes).
Proof.
  revert r. induction b as [[|x [|v b]] IH] using (induction_ltof1 _ (@length Z)); intros r Hb.
  { done. }
  - apply bytes_ok_cons in Hb as [Hx _]. cbn.
    rewrite notb_eqb by (done || unfold byte_ok; lia). by destruct (x =? _).
  - apply bytes_ok_cons in Hb as [Hx [Hv Hb]%bytes_ok_cons].
    cbn [fmap list_fmap]. rewrite (dec_ref_cons (notb x)), (dec_ref_cons x).
    cbn [e_escape e_escapedTerm e_escaped00 e_escapedFF
      ascendingBytesEscapes descendingBytesEscapes].
    rewrite !notb_eqb by (done || unfold byte_ok; lia).
    destruct (x =? escape); [destruct (v =? escapedTerm); [done|]|].
    + destruct (v =? escaped00); [|done]. cbn [negb].
      change ((notb <$> r) ++ [notb escapedFF]) with ((notb <$> r) ++ (notb <$> [escapedFF])).
      rewrite <- fmap_app. apply IH; [unfold ltof; cbn; lia|done].
    + change ((notb <$> r) ++ [notb x]) with ((notb <$> r) ++ (notb <$> [x])).
      rewrite <- fmap_app. apply (IH (v :: b)); [unfold ltof; cbn; lia|by constructor].
Qed.

#[export] Instance bytes_codec :
  OrderedCodec bytes_ok bytes_compare EncodeBytesAscending (fun b => DecodeBytesAscending b []).
Proof.
  split.
  - intros. by rewrite !EncodeBytesAscending_view.
  - intros x y s t Hx Hy. rewrite !EncodeBytesAscending_view. cbn [app].
    rewrite bytes_compare_cons, Z.compare_refl. cbn [lexc]. rewrite <- !app_assoc.
    apply esc_order; [done..|lia].
  - intros x r Hx. rewrite EncodeBytesAscending_view. cbn [app]. unfold DecodeBytesAscending.
    rewrite decodeBytesInternal_ref. cbn [e_marker ascendingBytesEscapes Z.eqb Pos.eqb].
    rewrite <- app_assoc. by rewrite dec_ref_esc.
Qed.

Lemma DecodeBytesDescending_enc x r b :
  bytes_ok x -> bytes_ok r -> bytes_ok b ->
  DecodeBytesDescending (EncodeBytesDescending [] x ++ b) r = Ok (b, (notb <$> r) ++ x).
Proof.
  intros Hx Hr Hb. rewrite EncodeBytesDescending_view by done. cbn [app].
  unfold DecodeBytesDescending. rewrite decodeBytesInternal_ref.
  cbn [e_marker descendingBytesEscapes Z.eqb Pos.eqb].
  rewrite <- (map_notb_involutive b), <- (map_notb_involutive r) by done.
  rewrite <- fmap_app, <- app_assoc. rewrite dec_ref_complement.
  2:{ apply bytes_ok_app; split; [by apply esc_ref_ok|]. apply bytes_ok_app; split;
      [repeat constructor; unfold byte_ok; lia|apply map_notb_ok]. }
  rewrite dec_ref_esc by done. cbn. rewrite !map_notb_involutive by done.
  rewrite onesComplement_map by apply map_notb_ok.
  rewrite (map_notb_involutive (notb <$> r)) by apply map_notb_ok.
  rewrite map_notb_involutive; [done|]. apply bytes_ok_app. split; [apply map_notb_ok|done].
Qed.

(** The descending encoding; the buffer decoded must hold bytes. *)
Lemma EncodeBytesDescending_order x y s t :
  bytes_ok x -> bytes_ok y ->
  bytes_compare (EncodeBytesDescending [] x ++ s) (EncodeBytesDescending [] y ++ t) =
  lexc (CompOpp (bytes_compare x y)) (bytes_compare s t).
Proof.
  intros Hx Hy. rewrite !EncodeBytesDescending_view by done. cbn [app].
  rewrite bytes_compare_cons, Z.compare_refl. cbn [lexc]. apply complement_code.
  1,2: apply bytes_ok_app; split; [by apply esc_ref_ok|]; repeat constructor; unfold byte_ok; lia.
  intros s' t'. rewrite <- !app_assoc, esc_order by (done || lia). f_equal.
Qed.

(** ** Sizes *)

Lemma esc_ref_length data : length (esc_ref data) = (length data + CountByte data escape)%nat.
Proof.
  unfold CountByte. induction data as [|x l IH]; [done|].
  rewrite esc_ref_cons, length_app, IH, filter_cons.
  destruct (Z.eqb_spec x escape); case_decide; try done; cbn [length]; lia.
Qed.

Lemma EncodeBytesSize_eq data : EncodeBytesSize data = length (EncodeBytesAscending [] data).
Proof.
  rewrite EncodeBytesAscending_view. unfold EncodeBytesSize. cbn [app length].
  rewrite length_app, esc_ref_length. cbn [length]. lia.
Qed.

Lemma EncodeNextBytesAscending_eq b data :
  EncodeNextBytesAscending b data = EncodeBytesAscending b (data ++ [escape]).
Proof.
  rewrite EncodeBytesAscending_view, esc_ref_app. unfold EncodeNextBytesAscending,
    encodeNextBytesAscendingWithTerminator. rewrite escape_ref, <- !app_assoc. reflexivity.
Qed.

Lemma EncodeNextBytesSize_eq data :
  EncodeNextBytesSize data = length (EncodeNextBytesAscending [] data).
Proof.
  rewrite EncodeNextBytesAscending_eq, <- EncodeBytesSize_eq.
  unfold EncodeNextBytesSize, EncodeBytesSize, CountByte.
  rewrite filter_app, !length_app.
  assert (length (filter (fun x => x = escape) [escape]) = 1%nat) as -> by reflexivity.
  cbn [length]. lia.
Qed.

(** ** Finding the end of an encoding *)

(** One turn of the loop over a buffer whose next escape is known. *)
Lemma bytes_length_step fuel pre l1 v l2 e :
  pre <> [] -> e_escape e ∉ l1 ->
  bytes_length_loop (S fuel) (pre ++ l1 ++ e_escape e :: v :: l2) e (Z.of_nat (length pre)) =
  if v =? e_escapedTerm e then Ok (Z.of_nat (length pre + length l1 + 2))
  else bytes_length_loop fuel ((pre ++ l1 ++ [e_escape e; v]) ++ l2) e
         (Z.of_nat (length (pre ++ l1 ++ [e_escape e; v]))).
Proof.
  intros Hp Hn. cbn [bytes_length_loop]. rewrite slice_from_app by done.
  cbn [mbind res_bind]. rewrite IndexByte_app by done.
  assert (0 < length pre)%nat by (destruct pre; [done|simpl; lia]).
  rewrite (proj2 (Z.leb_gt _ _)) by (rewrite !length_app; cbn [length]; lia).
  replace (pre ++ l1 ++ e_escape e :: v :: l2) with ((pre ++ l1 ++ [e_escape e]) ++ v :: l2)
    by (by rewrite <- !app_assoc).
  rewrite go_index_app by (rewrite !length_app; cbn [length]; lia). cbn [mbind res_bind].
  destruct (v =? e_escapedTerm e); [f_equal; lia|].
  rewrite <- !app_assoc. cbn [app]. f_equal. rewrite !length_app. cbn [length]. lia.
Qed.

(** [getBytesLength] on the rest of a buffer that begins with an encoding. *)
Lemma bytes_length_loop_enc data fuel pre b :
  (length data < fuel)%nat -> pre <> [] ->
  bytes_length_loop fuel (pre ++ esc_ref data ++ [escape; escapedTerm] ++ b)
    ascendingBytesEscapes (Z.of_nat (length pre)) =
  Ok (Z.of_nat (length pre + length (esc_ref data) + 2)).
Proof.
  revert fuel pre. induction data as [data IH] using (induction_ltof1 _ (@length Z)).
  intros [|fuel] pre Hf Hp; [lia|]. destruct (IndexByte data escape) as [i|] eqn:E.
  - apply IndexByte_Some in E as (l1 & l2 & -> & <- & Hn).
    rewrite length_app in Hf. cbn [length] in Hf.
    rewrite esc_ref_app, (esc_ref_plain l1), esc_ref_cons by done. cbn [Z.eqb].
    rewrite <- !app_assoc. cbn [app].
    rewrite (bytes_length_step _ pre l1 _ _ ascendingBytesEscapes) by done.
    cbn [e_escape e_escapedTerm ascendingBytesEscapes Z.eqb Pos.eqb].
    change (escape :: escapedTerm :: b) with ([escape; escapedTerm] ++ b).
    rewrite IH; [|unfold ltof; rewrite length_app; cbn; lia|lia|by destruct pre].
    f_equal. rewrite !length_app. cbn [length]. lia.
  - apply IndexByte_None in E. rewrite esc_ref_plain by done. cbn [app].
    by rewrite (bytes_length_step _ pre data _ _ ascendingBytesEscapes) by done.
Qed.

Lemma getBytesLength_tag x data b :
  getBytesLength (x :: (esc_ref data ++ [escape; escapedTerm]) ++ b) ascendingBytesEscapes =
  Ok (Z.of_nat (length (x :: esc_ref data ++ [escape; escapedTerm]))).
Proof.
  unfold getBytesLength. rewrite <- app_assoc. etrans.
  - apply (bytes_length_loop_enc data _ [x] b); [|done].
    cbn [length]. rewrite !length_app, esc_ref_length. lia.
  - cbn [length]. by rewrite !length_app.
Qed.

Lemma getBytesLength_enc data b :
  getBytesLength (EncodeBytesAscending [] data ++ b) ascendingBytesEscapes =
  Ok (Z.of_nat (length (EncodeBytesAscending [] data))).
Proof. rewrite EncodeBytesAscending_view. apply getBytesLength_tag. Qed.

(** The scan looks at two of the escapes only, and not at the tag. *)
Lemma bytes_length_loop_ext fuel b e e' k :
  e_escape e = e_escape e' -> e_escapedTerm e = e_escapedTerm e' ->
  bytes_length_loop fuel b e k = bytes_length_loop fuel b e' k.
Proof.
  intros E1 E2. revert k. induction fuel as [|fuel IH]; intros k; [done|].
  cbn [bytes_length_loop]. rewrite E1, E2. destruct (slice_from b k); cbn [mbind res_bind]; [|done..].
  destruct (IndexByte _ _); [|done]. destruct (_ <=? _); [done|].
  destruct (go_index b _); cbn [mbind res_bind]; [|done..]. by rewrite IH.
Qed.

(** Scanning the complement with the descending escapes is scanning with the ascending ones. *)
Lemma IndexByte_complement l c : bytes_ok l -> byte_ok c -> IndexByte (notb <$> l) (notb c) = IndexByte l c.
Proof.
  intros Hl Hc. induction Hl as [|x l Hx Hl IH]; [done|]. cbn [fmap list_fmap IndexByte].
  rewrite notb_eqb by done. by rewrite IH.
Qed.

Lemma bytes_length_loop_complement fuel b k :
  bytes_ok b -> 1 <= k ->
  bytes_length_loop fuel (notb <$> b) descendingBytesEscapes k =
  bytes_length_loop fuel b ascendingBytesEscapes k.
Proof.
  intros Hb. revert k. induction fuel as [|fuel IH]; intros k Hk; [done|].
  cbn [bytes_length_loop e_escape e_escapedTerm descendingBytesEscapes ascendingBytesEscapes].
  unfold slice_from. rewrite length_fmap. destruct ((0 <=? k) && _); cbn [mbind res_bind]; [|done].
  rewrite <- fmap_drop, IndexByte_complement by (try (unfold byte_ok; lia); by apply Forall_drop).
  destruct (IndexByte _ _) as [i|]; [|done]. destruct (_ <=? _); [done|].
  unfold go_index. rewrite length_fmap.
  destruct (Z.leb_spec 0 (k + (Z.of_nat i + 2) - 1)), (Z.ltb_spec (k + (Z.of_nat i + 2) - 1) (Z.of_nat (length b)));
    cbn [andb mbind res_bind]; [|done..].
  set (j := Z.to_nat (k + (Z.of_nat i + 2) - 1)).
  destruct (lookup_lt_is_Some_2 b j ltac:(lia)) as [x Hx].
  rewrite !nth_lookup, list_lookup_fmap, Hx. cbn [default fmap option_fmap option_map id].
  rewrite notb_eqb by (try (unfold byte_ok; lia); by apply (Forall_lookup_1 _ _ _ _ Hb Hx)).
  destruct (x =? _); [done|]. apply IH. lia.
Qed.

Lemma getBytesLength_desc_tag x data b :
  byte_ok x -> bytes_ok data -> bytes_ok b ->
  getBytesLength (x :: (notb <$> esc_ref data ++ [escape; escapedTerm]) ++ b) descendingBytesEscapes =
  Ok (Z.of_nat (length (x :: esc_ref data ++ [escape; escapedTerm]))).
Proof.
  intros Hx Hd Hb. unfold getBytesLength.
  assert (x :: (notb <$> esc_ref data ++ [escape; escapedTerm]) ++ b =
    notb <$> ([notb x] ++ esc_ref data ++ [escape; escapedTerm] ++ (notb <$> b))) as ->.
  { rewrite (app_assoc (esc_ref data)). cbn [app]. rewrite fmap_cons, notb_involutive,
      (fmap_app _ (esc_ref data ++ _)), map_notb_involutive by done. done. }
  rewrite bytes_length_loop_complement; [|apply bytes_ok_app; split;
    [repeat constructor; apply notb_ok|]|lia].
  2: { apply bytes_ok_app. split; [by apply esc_ref_ok|]. apply bytes_ok_app.
       split; [repeat constructor; unfold byte_ok; lia|apply map_notb_ok]. }
  etrans; [apply (bytes_length_loop_enc data _ [notb x] (notb <$> b)); [|done]|].
  - rewrite length_fmap, !length_app, esc_ref_length. cbn [length]. lia.
  - cbn [length]. by rewrite !length_app.
Qed.

Lemma getBytesLength_desc_enc data b :
  bytes_ok data -> bytes_ok b ->
  getBytesLength (EncodeBytesDescending [] data ++ b) descendingBytesEscapes =
  Ok (Z.of_nat (length (EncodeBytesDescending [] data))).
Proof.
  intros Hd Hb. rewrite EncodeBytesDescending_view by done. cbn [app].
  rewrite getBytesLength_desc_tag by (done || unfold byte_ok; lia). cbn [length]. by rewrite length_fmap.
Qed.

(** * Properties *)

(** C25: ascending byte strings.  Encodings compare as the strings do, whatever follows
    them in the key; the decoder returns the string, appended to the caller's buffer, and
    the rest of the key; the encoding of the successor is the encoding's successor. *)
Theorem bytes_ascending x y s t :
  bytes_ok x -> bytes_ok y ->
  bytes_compare (EncodeBytesAscending [] x ++ s) (EncodeBytesAscending [] y ++ t) =
    lexc (bytes_compare x y) (bytes_compare s t) /\
  DecodeBytesAscending (EncodeBytesAscending [] x ++ s) [] = Ok (s, x) /\
  EncodeNextBytesAscending [] x = EncodeBytesAscending [] (x ++ [0]) /\
  (forall p, EncodeBytesAscending p x = p ++ EncodeBytesAscending [] x).
Proof.
  intros. split; [by apply (oc_order (enc := EncodeBytesAscending))|].
  split; [by apply (oc_roundtrip (enc := EncodeBytesAscending) (dec := fun b => DecodeBytesAscending b []))|].
  split; [apply EncodeNextBytesAscending_eq|]. intros. apply (oc_append (enc := EncodeBytesAscending)).
Qed.

Lemma bytes_ascending_witness :
  bytes_ok [0; 255; 1] /\
  DecodeBytesAscending (EncodeBytesAscending [] [0; 255; 1] ++ [7]) [] = Ok ([7], [0; 255; 1]).
Proof.
  assert (bytes_ok [0; 255; 1]) by (repeat constructor; lia). split; [done|].
  by apply (bytes_ascending [0; 255; 1] [0; 255; 1] [7] []).
Defined.

(** Descending byte strings.  Encodings compare in the opposite order of the
    strings, whatever follows.  They decode back into an empty buffer; into a buffer with
    contents [r] the decoder returns the complement of [r] before the string, because it
    complements its whole result, where the comment promises that [r] is appended to. *)
Theorem bytes_descending x y s t r :
  bytes_ok x -> bytes_ok y -> bytes_ok r -> bytes_ok s ->
  bytes_compare (EncodeBytesDescending [] x ++ s) (EncodeBytesDescending [] y ++ t) =
    lexc (CompOpp (bytes_compare x y)) (bytes_compare s t) /\
  DecodeBytesDescending (EncodeBytesDescending [] x ++ s) [] = Ok (s, x) /\
  DecodeBytesDescending (EncodeBytesDescending [] x ++ s) r = Ok (s, (notb <$> r) ++ x).
Proof.
  intros. split_and!; [by apply EncodeBytesDescending_order| |by apply DecodeBytesDescending_enc].
  by apply (DecodeBytesDescending_enc x []); [|apply bytes_ok_nil|].
Qed.

Lemma bytes_descending_witness :
  DecodeBytesDescending (EncodeBytesDescending [] [0; 255] ++ [7]) [1] = Ok ([7], [254; 0; 255]).
Proof. apply (bytes_descending [0; 255] [] [7] [] [1]); repeat constructor; lia. Defined.

(** Sizes and skipping.  The size functions give the exact length of what the
    encoders append, and the length of an encoding is found by scanning a key that
    starts with it, whatever follows. *)
Theorem bytes_sizes data rest :
  EncodeBytesSize data = length (EncodeBytesAscending [] data) /\
  EncodeNextBytesSize data = length (EncodeNextBytesAscending [] data) /\
  getBytesLength (EncodeBytesAscending [] data ++ rest) ascendingBytesEscapes =
    Ok (Z.of_nat (length (EncodeBytesAscending [] data))).
Proof.
  split_and!; [apply EncodeBytesSize_eq|apply EncodeNextBytesSize_eq|apply getBytesLength_enc].
Qed.

(** A buffer cut off after an escape byte: the bounds test looks at the whole buffer
    instead of what is left of it, so the scan panics instead of returning its error. *)
Lemma getBytesLength_truncated :
  getBytesLength [0x12; 0x61; 0x00] ascendingBytesEscapes = Panic "index out of range".
Proof. reflexivity. Qed.
