(* ===== verification/Hlc.v ===== *)
(** Hybrid logical clock (src/pkg/util/hlc/timestamp.go and hlc.go).

    Timestamps with their order and arithmetic at machine width, and the clock
    as a state machine.  A physical clock reading is an input of the operation
    that takes it; [log.Fatalf] and [panic] are [Panic].  The operations of the
    clock that take the mutex are atomic steps, so every interleaving of
    goroutines is a sequence of steps with arbitrary physical readings. *)
From S2P Require Import Prelude.

(** * Timestamps *)

Record Timestamp := MkTimestamp { WallTime : Z; Logical : Z; Synthetic : bool }.

(** A [ClockTimestamp] is a [Timestamp] whose [Synthetic] flag is false. *)
Abbreviation ClockTimestamp := Timestamp (only parsing).

Definition ts_wf (t : Timestamp) : Prop := isS 64 (WallTime t) /\ isS 32 (Logical t).

#[export] Instance Timestamp_eq_dec : EqDecision Timestamp.
Proof. solve_decision. Defined.

Definition MaxTimestamp : Timestamp := MkTimestamp MaxInt64 MaxInt32 false.
Definition MinTimestamp : Timestamp := MkTimestamp 0 1 false.
Definition EmptyTimestamp : Timestamp := MkTimestamp 0 0 false.

Definition Timestamp_EqOrdering (t s : Timestamp) : bool :=
  (WallTime t =? WallTime s) && (Logical t =? Logical s).

Definition Timestamp_Less (t s : Timestamp) : bool :=
  (WallTime t <? WallTime s) || ((WallTime t =? WallTime s) && (Logical t <? Logical s)).

Definition Timestamp_LessEq (t s : Timestamp) : bool :=
  (WallTime t <? WallTime s) || ((WallTime t =? WallTime s) && (Logical t <=? Logical s)).

Definition Timestamp_Compare (t s : Timestamp) : Z :=
  if WallTime s <? WallTime t then 1
  else if WallTime t <? WallTime s then -1
  else if Logical s <? Logical t then 1
  else if Logical t <? Logical s then -1
  else 0.

Definition Timestamp_IsEmpty (t : Timestamp) : bool :=
  (WallTime t =? 0) && (Logical t =? 0) && negb (Synthetic t).

Definition Timestamp_IsSet (t : Timestamp) : bool := negb (Timestamp_IsEmpty t).

Definition Timestamp_Add (t : Timestamp) (wallTime logical : Z) : Timestamp :=
  MkTimestamp (s64 (WallTime t + wallTime)) (s32 (Logical t + logical)) (Synthetic t).

Definition Timestamp_WithSynthetic (t : Timestamp) (val : bool) : Timestamp :=
  MkTimestamp (WallTime t) (Logical t) val.

Definition Timestamp_Next (t : Timestamp) : res Timestamp :=
  if Logical t =? MaxInt32 then
    if WallTime t =? MaxInt64 then Panic "cannot take the next value to a max timestamp"
    else Ok (MkTimestamp (s64 (WallTime t + 1)) 0 (Synthetic t))
  else Ok (MkTimestamp (WallTime t) (s32 (Logical t + 1)) (Synthetic t)).

Definition Timestamp_Prev (t : Timestamp) : res Timestamp :=
  if 0 <? Logical t then Ok (MkTimestamp (WallTime t) (s32 (Logical t - 1)) (Synthetic t))
  else if 0 <? WallTime t then Ok (MkTimestamp (s64 (WallTime t - 1)) MaxInt32 (Synthetic t))
  else Panic "cannot take the previous value to a zero timestamp".

Definition Timestamp_FloorPrev (t : Timestamp) : res Timestamp :=
  if 0 <? Logical t then Ok (MkTimestamp (WallTime t) (s32 (Logical t - 1)) (Synthetic t))
  else if 0 <? WallTime t then Ok (MkTimestamp (s64 (WallTime t - 1)) 0 (Synthetic t))
  else Panic "cannot take the previous value to a zero timestamp".

Definition Timestamp_WallNext (t : Timestamp) : Timestamp :=
  MkTimestamp (s64 (WallTime t + 1)) 0 (Synthetic t).

Definition Timestamp_WallPrev (t : Timestamp) : Timestamp :=
  MkTimestamp (s64 (WallTime t - 1)) 0 (Synthetic t).

Definition bothSynthetic (l r : Timestamp) : bool := Synthetic l && Synthetic r.

(** The new value of the receiver, and the result. *)
Definition Timestamp_Forward (t s : Timestamp) : Timestamp * bool :=
  if Timestamp_Less t s then (s, true)
  else if Timestamp_EqOrdering t s then (Timestamp_WithSynthetic t (bothSynthetic t s), false)
  else (t, false).

Definition Timestamp_Backward (t s : Timestamp) : Timestamp :=
  let syn := bothSynthetic t s in
  let t := if Timestamp_Less s t then s else t in
  Timestamp_WithSynthetic t syn.

Record LegacyTimestamp := MkLegacyTimestamp {
  l_WallTime : Z; l_Logical : Z; l_Synthetic : option bool
}.

Definition Timestamp_ToLegacyTimestamp (t : Timestamp) : LegacyTimestamp :=
  MkLegacyTimestamp (WallTime t) (Logical t) (if Synthetic t then Some true else None).

Definition LegacyTimestamp_ToTimestamp (t : LegacyTimestamp) : Timestamp :=
  MkTimestamp (l_WallTime t) (l_Logical t)
    (match l_Synthetic t with Some b => b | None => false end).

Definition Timestamp_DeprecatedTryToClockTimestamp (t : Timestamp) : ClockTimestamp * bool :=
  if Synthetic t then (EmptyTimestamp, false) else (t, true).

Definition Timestamp_UnsafeToClockTimestamp (t : Timestamp) : ClockTimestamp := Timestamp_WithSynthetic t false.

Definition ClockTimestamp_ToTimestamp (t : ClockTimestamp) : res Timestamp :=
  if Synthetic t then Panic "ClockTimestamp with Synthetic flag set" else Ok t.

(** ** The order of timestamps

    [Timestamp_Less] is the lexicographic order of (WallTime, Logical). *)

Definition lt_ts (t s : Timestamp) : Prop := Timestamp_Less t s = true.
Definition le_ts (t s : Timestamp) : Prop := Timestamp_LessEq t s = true.

Ltac ts_cases :=
  repeat match goal with
  | |- context [?a <? ?b] => destruct (Z.ltb_spec a b)
  | |- context [?a <=? ?b] => destruct (Z.leb_spec a b)
  | |- context [?a =? ?b] => destruct (Z.eqb_spec a b)
  | H : context [?a <? ?b] |- _ => destruct (Z.ltb_spec a b)
  | H : context [?a <=? ?b] |- _ => destruct (Z.leb_spec a b)
  | H : context [?a =? ?b] |- _ => destruct (Z.eqb_spec a b)
  end.

(** [ts] decides goals about timestamp comparisons. *)
Ltac ts :=
  unfold lt_ts, le_ts, Timestamp_Less, Timestamp_LessEq, Timestamp_EqOrdering in *; cbn in *;
  ts_cases; cbn in *; try discriminate; try reflexivity; try lia.

Lemma LessEq_negb t s : Timestamp_LessEq t s = negb (Timestamp_Less s t).
Proof. ts. Qed.

Lemma lt_ts_irrefl t : ~ lt_ts t t.
Proof. ts. Qed.

Lemma lt_ts_trans a b c : lt_ts a b -> lt_ts b c -> lt_ts a c.
Proof. intros. ts. Qed.

Lemma le_lt_ts_trans a b c : le_ts a b -> lt_ts b c -> lt_ts a c.
Proof. intros. ts. Qed.

Lemma lt_le_ts a b : lt_ts a b -> le_ts a b.
Proof. intros. ts. Qed.

Lemma le_ts_refl a : le_ts a a.
Proof. ts. Qed.

Lemma le_ts_trans a b c : le_ts a b -> le_ts b c -> le_ts a c.
Proof. intros. ts. Qed.

Create HintDb hlc.
#[export] Hint Resolve lt_ts_trans le_lt_ts_trans lt_le_ts le_ts_refl le_ts_trans : hlc.

(** ** Functional behaviour *)

Lemma Compare_spec t s :
  Timestamp_Compare t s =
  if Timestamp_Less t s then -1 else if Timestamp_EqOrdering t s then 0 else 1.
Proof. unfold Timestamp_Compare. ts. Qed.

(** [Next] is the immediate successor among well-formed timestamps. *)
Lemma Next_spec t :
  ts_wf t ->
  match Timestamp_Next t with
  | Ok n => ts_wf n /\ lt_ts t n /\ Synthetic n = Synthetic t /\
            forall s, ts_wf s -> 0 <= Logical s -> lt_ts t s -> le_ts n s
  | _ => WallTime t = MaxInt64 /\ Logical t = MaxInt32
  end.
Proof.
  intros [Hw Hl]. unfold Timestamp_Next, ts_wf.
  destruct (Z.eqb_spec (Logical t) MaxInt32) as [El|El];
    [destruct (Z.eqb_spec (WallTime t) MaxInt64) as [Ew|Ew]; [done|]|].
  - unfold isS in *. rewrite (wrapS_id 64) by (unfold isS; lia). cbn.
    repeat split; try lia; [ts|]. intros s [? ?] ??. ts.
  - unfold isS in *. rewrite (wrapS_id 32) by (unfold isS; lia). cbn.
    repeat split; try lia; [ts|]. intros s [? ?] ??. ts.
Qed.

(** [Prev] is the immediate predecessor of a timestamp with a non-negative
    logical part, and panics exactly at zero. *)
Lemma Prev_spec t :
  ts_wf t -> 0 <= WallTime t -> 0 <= Logical t ->
  match Timestamp_Prev t with
  | Ok p => ts_wf p /\ lt_ts p t /\ Synthetic p = Synthetic t /\
            forall s, ts_wf s -> 0 <= Logical s -> lt_ts s t -> le_ts s p
  | _ => WallTime t = 0 /\ Logical t = 0
  end.
Proof.
  intros [Hw Hl] ??. unfold Timestamp_Prev, ts_wf, isS in *.
  destruct (Z.ltb_spec 0 (Logical t)); [|destruct (Z.ltb_spec 0 (WallTime t)); [|lia]].
  - rewrite (wrapS_id 32) by (unfold isS; lia). cbn.
    repeat split; try lia; [ts|]. intros s [? ?] ??. ts.
  - rewrite (wrapS_id 64) by (unfold isS; lia). cbn.
    repeat split; try lia; [ts|]. intros s [? ?] ??. ts.
Qed.

(** [Forward] is the maximum, and reports whether the time moved. *)
Lemma Forward_spec t s :
  let '(r, moved) := Timestamp_Forward t s in
  le_ts t r /\ le_ts s r /\ (Timestamp_EqOrdering r t = true \/ r = s) /\
  (moved = true <-> lt_ts t s) /\ (Synthetic r = true -> Synthetic t = true \/ Synthetic s = true).
Proof.
  unfold Timestamp_Forward. destruct (Timestamp_Less t s) eqn:E1;
    [|destruct (Timestamp_EqOrdering t s) eqn:E2]; cbn;
    (split; [ts|]; split; [ts|]; split; [first [by right | left; ts]|]; split; [|auto]).
  - split; [intros _; exact E1|done].
  - split; [done|unfold lt_ts; congruence].
  - unfold bothSynthetic. intros [? _]%andb_true_iff. auto.
  - split; [done|unfold lt_ts; congruence].
Qed.

Lemma Backward_spec t s :
  let r := Timestamp_Backward t s in
  le_ts r t /\ le_ts r s /\
  (Timestamp_EqOrdering r t = true \/ Timestamp_EqOrdering r s = true) /\
  Synthetic r = (Synthetic t && Synthetic s)%bool.
Proof.
  unfold Timestamp_Backward. destruct (Timestamp_Less s t) eqn:E; cbn;
    (split; [ts|]; split; [ts|]; split; [first [left; ts; fail | right; ts]|done]).
Qed.

Lemma legacy_roundtrip t :
  LegacyTimestamp_ToTimestamp (Timestamp_ToLegacyTimestamp t) = t.
Proof. by destruct t as [w l []]. Qed.

(** * Properties *)

(** The order of timestamps.  [Less] is the strict part of a total order whose
    equivalence is [EqOrdering]; [LessEq] and [Compare] agree with it. *)
Theorem Timestamp_total_order t s u :
  ~ lt_ts t t /\
  (lt_ts t s -> lt_ts s u -> lt_ts t u) /\
  (lt_ts t s \/ Timestamp_EqOrdering t s = true \/ lt_ts s t) /\
  Timestamp_LessEq t s = negb (Timestamp_Less s t) /\
  Timestamp_Compare t s =
    (if Timestamp_Less t s then -1 else if Timestamp_EqOrdering t s then 0 else 1).
Proof.
  split_and!; [apply lt_ts_irrefl|apply lt_ts_trans| |apply LessEq_negb|apply Compare_spec].
  destruct (Timestamp_Less t s) eqn:?; [by left|].
  destruct (Timestamp_Less s t) eqn:?; [by right; right|]. right; left. ts.
Qed.

(** [Next] and [Prev] are the immediate neighbours of a timestamp.  [Next] panics
    exactly at the maximum and [Prev] exactly at zero. *)
Theorem Timestamp_neighbours t :
  ts_wf t -> 0 <= WallTime t -> 0 <= Logical t ->
  match Timestamp_Next t with
  | Ok n => lt_ts t n /\ forall s, ts_wf s -> 0 <= Logical s -> lt_ts t s -> le_ts n s
  | _ => WallTime t = MaxInt64 /\ Logical t = MaxInt32
  end /\
  match Timestamp_Prev t with
  | Ok p => lt_ts p t /\ forall s, ts_wf s -> 0 <= Logical s -> lt_ts s t -> le_ts s p
  | _ => WallTime t = 0 /\ Logical t = 0
  end.
Proof.
  intros Ht Hw Hl. pose proof (Next_spec t Ht) as Hn. pose proof (Prev_spec t Ht Hw Hl) as Hp.
  destruct (Timestamp_Next t), (Timestamp_Prev t); intuition.
Qed.

Lemma Timestamp_neighbours_witness :
  Timestamp_Next (MkTimestamp 4 MaxInt32 false) = Ok (MkTimestamp 5 0 false) /\
  lt_ts (MkTimestamp 4 MaxInt32 false) (MkTimestamp 5 0 false).
Proof.
  split; [reflexivity|].
  apply (Timestamp_neighbours (MkTimestamp 4 MaxInt32 false)); [split; unfold isS|..]; cbn; lia.
Defined.

(** [Forward] and [Backward] are the maximum and the minimum; [Forward] reports
    whether the time moved, and neither makes a timestamp synthetic on its own. *)
Theorem Timestamp_lattice t s :
  (let '(r, moved) := Timestamp_Forward t s in
   le_ts t r /\ le_ts s r /\ (Timestamp_EqOrdering r t = true \/ r = s) /\
   (moved = true <-> lt_ts t s) /\
   (Synthetic r = true -> Synthetic t = true \/ Synthetic s = true)) /\
  (let r := Timestamp_Backward t s in
   le_ts r t /\ le_ts r s /\
   (Timestamp_EqOrdering r t = true \/ Timestamp_EqOrdering r s = true) /\
   Synthetic r = (Synthetic t && Synthetic s)%bool).
Proof. split; [apply Forward_spec|apply Backward_spec]. Qed.
