(* ===== verification/Clock.v ===== *)
(** The clock (src/pkg/util/hlc/hlc.go).

    [Clock] is the state of the struct.  Every method is a function of that
    state, the physical readings it takes and the results of the callbacks it
    makes; [Panic] is [log.Fatalf], which ends the process. *)
From S2P Require Import Prelude Hlc.

Record Clock := MkClock {
  maxOffset : Z;
  toleratedOffset : Z;
  lastPhysicalTime : Z;
  monotonicityErrorsCount : Z;
  forwardClockJumpCheckEnabled : Z;
  timestamp : ClockTimestamp;
  isMonitoringForwardClockJumps : bool;
  wallTimeUpperBound : Z
}.

Definition set_lastPhysicalTime (c : Clock) (v : Z) : Clock :=
  MkClock (maxOffset c) (toleratedOffset c) v (monotonicityErrorsCount c)
    (forwardClockJumpCheckEnabled c) (timestamp c) (isMonitoringForwardClockJumps c)
    (wallTimeUpperBound c).
Definition set_monotonicityErrorsCount (c : Clock) (v : Z) : Clock :=
  MkClock (maxOffset c) (toleratedOffset c) (lastPhysicalTime c) v
    (forwardClockJumpCheckEnabled c) (timestamp c) (isMonitoringForwardClockJumps c)
    (wallTimeUpperBound c).
Definition set_forwardClockJumpCheckEnabled (c : Clock) (v : Z) : Clock :=
  MkClock (maxOffset c) (toleratedOffset c) (lastPhysicalTime c) (monotonicityErrorsCount c)
    v (timestamp c) (isMonitoringForwardClockJumps c) (wallTimeUpperBound c).
Definition set_timestamp (c : Clock) (v : ClockTimestamp) : Clock :=
  MkClock (maxOffset c) (toleratedOffset c) (lastPhysicalTime c) (monotonicityErrorsCount c)
    (forwardClockJumpCheckEnabled c) v (isMonitoringForwardClockJumps c) (wallTimeUpperBound c).
Definition set_isMonitoring (c : Clock) (v : bool) : Clock :=
  MkClock (maxOffset c) (toleratedOffset c) (lastPhysicalTime c) (monotonicityErrorsCount c)
    (forwardClockJumpCheckEnabled c) (timestamp c) v (wallTimeUpperBound c).
Definition set_wallTimeUpperBound (c : Clock) (v : Z) : Clock :=
  MkClock (maxOffset c) (toleratedOffset c) (lastPhysicalTime c) (monotonicityErrorsCount c)
    (forwardClockJumpCheckEnabled c) (timestamp c) (isMonitoringForwardClockJumps c) v.

Definition NewClock (maxOffset toleratedOffset : Z) : Clock :=
  MkClock maxOffset toleratedOffset 0 0 0 EmptyTimestamp false 0.

Definition toleratedForwardClockJump (c : Clock) : Z := Z.quot (maxOffset c) 2.

Definition setForwardJumpCheckEnabled (c : Clock) (enabled : bool) : Clock :=
  set_forwardClockJumpCheckEnabled c (if enabled then 1 else 0).

Definition setMonitoringClockJump (c : Clock) : Clock * bool :=
  (set_isMonitoring c true, isMonitoringForwardClockJumps c).

(** * Reading the physical clock *)

Definition checkPhysicalClock (c : Clock) (oldTime newTime : Z) : res Clock :=
  if oldTime =? 0 then Ok c
  else
    let interval := s64 (oldTime - newTime) in
    let c :=
      if Z.quot (maxOffset c) 10 <? interval
      then set_monotonicityErrorsCount c (s32 (monotonicityErrorsCount c + 1)) else c in
    if negb (forwardClockJumpCheckEnabled c =? 0)
       && (toleratedForwardClockJump c <=? s64 (- interval))
    then Panic "detected forward time jump is not allowed"
    else Ok c.

(** The compare-and-swap loop of [getPhysicalClockAndCheck] among concurrent
    updaters.  [mem k] is the value of [c.lastPhysicalTime] that the k-th atomic
    access of this goroutine finds; the result is the value of the cell when the
    loop ends and whether this goroutine stored it. *)
Fixpoint cas_loop (fuel : nat) (mem : nat -> Z) (k : nat) (lastPhysTime newTime : Z)
    : option (Z * bool) :=
  match fuel with
  | O => None
  | S fuel =>
      if mem k =? lastPhysTime then Some (newTime, true)
      else
        let lastPhysTime := mem (S k) in
        if newTime <=? lastPhysTime then Some (lastPhysTime, false)
        else cas_loop fuel mem (S (S k)) lastPhysTime newTime
  end.

(** Without interference the first compare-and-swap succeeds. *)
Definition getPhysicalClockAndCheck (c : Clock) (newTime : Z) : res (Clock * Z) :=
  let oldTime := lastPhysicalTime c in
  match cas_loop 1 (fun _ => lastPhysicalTime c) 0 oldTime newTime with
  | None => Panic "unreachable"
  | Some (cell, _) =>
      c ← checkPhysicalClock (set_lastPhysicalTime c cell) oldTime newTime;
      Ok (c, newTime)
  end.

(** * Reading and updating the clock *)

Definition enforceWallTimeWithinBoundLocked (c : Clock) : res Clock :=
  if negb (wallTimeUpperBound c =? 0) && (wallTimeUpperBound c <? WallTime (timestamp c))
  then Panic "wall time is not allowed to be greater than upper bound" else Ok c.

(** The critical section of [NowAsClockTimestamp]. *)
Definition nowLocked (c : Clock) (physicalClock : Z) : res (Clock * ClockTimestamp) :=
  let t := timestamp c in
  let t :=
    if physicalClock <=? WallTime t
    then MkTimestamp (WallTime t) (s32 (Logical t + 1)) (Synthetic t)
    else MkTimestamp physicalClock 0 (Synthetic t) in
  c ← enforceWallTimeWithinBoundLocked (set_timestamp c t);
  Ok (c, timestamp c).

Definition NowAsClockTimestamp (c : Clock) (phys : Z) : res (Clock * ClockTimestamp) :=
  '(c, physicalClock) ← getPhysicalClockAndCheck c phys;
  nowLocked c physicalClock.

Definition Clock_Now (c : Clock) (phys : Z) : res (Clock * Timestamp) :=
  '(c, t) ← NowAsClockTimestamp c phys;
  t ← ClockTimestamp_ToTimestamp t;
  Ok (c, t).

(** The critical section of [Update]. *)
Definition updateLocked (c : Clock) (rt : ClockTimestamp) : res Clock :=
  let t := timestamp c in
  let t :=
    if WallTime t <? WallTime rt
    then MkTimestamp (WallTime rt) (Logical rt) (Synthetic t)
    else if WallTime rt =? WallTime t then
      if Logical t <? Logical rt
      then MkTimestamp (WallTime t) (Logical rt) (Synthetic t) else t
    else t in
  enforceWallTimeWithinBoundLocked (set_timestamp c t).

Definition Clock_Update (c : Clock) (rt : ClockTimestamp) : res Clock :=
  if WallTime rt <? WallTime (timestamp c) then Ok c else updateLocked c rt.

(** The error is a value of the method: the clock after it is kept. *)
Definition UpdateAndCheckMaxOffset (c : Clock) (phys : Z) (rt : ClockTimestamp)
    : res (Clock * option string) :=
  '(c, physicalClock) ← getPhysicalClockAndCheck c phys;
  let offset := s64 (WallTime rt - physicalClock) in
  if (0 <? maxOffset c) && (maxOffset c <? offset)
  then Ok (c, Some "remote wall time is too far ahead to be trustworthy")
  else
    c ← (if WallTime rt <? physicalClock
         then Clock_Update c (MkTimestamp physicalClock 0 false)
         else Clock_Update c rt);
    Ok (c, None).

(** * The persisted upper bound

    [persistFn] is a callback: its error, if any, is an input. *)

Definition persistHLCUpperBound (c : Clock) (persistErr : option string) (hlcUpperBound : Z)
    : Clock * option string :=
  match persistErr with
  | Some e => (c, Some e)
  | None => (set_wallTimeUpperBound c hlcUpperBound, None)
  end.

Definition RefreshHLCUpperBound (c : Clock) (phys : Z) (persistErr : option string) (delta : Z)
    : res (Clock * option string) :=
  if delta <? 0 then Ok (c, Some "HLC upper bound delta should be positive")
  else
    '(c, t) ← Clock_Now c phys;
    Ok (persistHLCUpperBound c persistErr (s64 (WallTime t + delta))).

Definition ResetHLCUpperBound (c : Clock) (persistErr : option string) : Clock * option string :=
  persistHLCUpperBound c persistErr 0.

(** * Sleeping *)

Abbreviation minSleep := 25000.
Abbreviation maxSleep := 1000000000.

(** [time.Time.Sub] saturates. *)
Definition time_Sub (a b : Z) : Z := Z.max MinInt64 (Z.min MaxInt64 (a - b)).

Definition sleep_duration (now t : Timestamp) : Z :=
  let d := time_Sub (WallTime now) (WallTime t) in
  if d <? minSleep then minSleep else if maxSleep <? d then maxSleep else d.

(** One turn per element of [turns]: [ctx.Err()] at the top of the loop, the
    physical reading of [c.Now()], and whether the context is done while
    sleeping.  The result is the clock, the outcome ([None]: still waiting when
    the turns run out) and the durations slept. *)
Fixpoint SleepUntil (c : Clock) (t : Timestamp) (turns : list (option string * Z * option string))
    : res (Clock * option (option string) * list Z) :=
  match turns with
  | [] => Ok (c, None, [])
  | (ctxErr, phys, ctxDone) :: turns =>
      match ctxErr with
      | Some e => Ok (c, Some (Some e), [])
      | None =>
          '(c, now) ← Clock_Now c phys;
          if Timestamp_LessEq t now then Ok (c, Some None, [])
          else
            let d := sleep_duration now t in
            match (if d <? 1000000 then None else ctxDone) with
            | Some e => Ok (c, Some (Some e), [d])
            | None =>
                '(c, out, ds) ← SleepUntil c t turns;
                Ok (c, out, d :: ds)
            end
      end
  end.

(** * The clock as a state machine

    The atomic steps of the methods.  A goroutine reads the physical clock
    ([step_phys]) before it takes the mutex, so the reading [p] that a locked
    section uses is arbitrary: it may be older than the clock.  [Update] may
    return on its fast path on any earlier value of the wall time. *)

Inductive event :=
| Returned (t : ClockTimestamp)   (** a reading of the clock *)
| Received (t : ClockTimestamp)   (** a timestamp of another node *)
| Internal.

Inductive clock_step : Clock -> event -> Clock -> Prop :=
| step_now c p c' t :
    nowLocked c p = Ok (c', t) -> clock_step c (Returned t) c'
| step_update c rt c' :
    updateLocked c rt = Ok c' -> clock_step c (Received rt) c'
| step_update_fast c rt w :
    w <= WallTime (timestamp c) -> WallTime rt < w -> clock_step c (Received rt) c
| step_phys c v : clock_step c Internal (set_lastPhysicalTime c v)
| step_jump c v : clock_step c Internal (set_monotonicityErrorsCount c v)
| step_check c b : clock_step c Internal (setForwardJumpCheckEnabled c b)
| step_monitor c : clock_step c Internal (setMonitoringClockJump c).1
| step_bound c v : clock_step c Internal (set_wallTimeUpperBound c v).

Inductive clock_run : Clock -> list event -> Clock -> Prop :=
| run_nil c : clock_run c [] c
| run_step c e c1 tr c' : clock_step c e c1 -> clock_run c1 tr c' -> clock_run c (e :: tr) c'.

(** The logical clock has room to tick; it wraps around when it has not. *)
Definition can_tick (c : Clock) : Prop := MinInt32 <= Logical (timestamp c) < MaxInt32.

(** Logical components are 32-bit integers. *)
Definition logical_ok (t : ClockTimestamp) : Prop := isS 32 (Logical t).
Definition event_ok (e : event) : Prop := match e with Received t => logical_ok t | _ => True end.

(** A reading at which the logical clock wrapped around. *)
Definition wrapped (e : event) : Prop := match e with Returned t => Logical t = MinInt32 | _ => False end.

#[export] Instance wrapped_dec e : Decision (wrapped e).
Proof. destruct e; apply _. Defined.

(** Received logical components are at most [n]. *)
Definition received_within (n : Z) (e : event) : Prop := match e with Received t => Logical t <= n | _ => True end.
Definition is_reading (e : event) : bool := match e with Returned _ => true | _ => false end.
Definition readings (tr : list event) : Z := Z.of_nat (length (List.filter is_reading tr)).

Lemma clock_run_one c e c' : clock_step c e c' -> clock_run c [e] c'.
Proof. intros. eauto using run_step, run_nil. Qed.

Lemma clock_run_app c tr1 c1 tr2 c2 :
  clock_run c tr1 c1 -> clock_run c1 tr2 c2 -> clock_run c (tr1 ++ tr2) c2.
Proof. induction 1; cbn; eauto using run_step. Qed.

Lemma clock_run_app_inv c tr1 tr2 c' :
  clock_run c (tr1 ++ tr2) c' -> exists c1, clock_run c tr1 c1 /\ clock_run c1 tr2 c'.
Proof.
  revert c. induction tr1 as [|e tr1 IH]; intros c H; [eauto using run_nil|].
  inversion H as [|? ? c1 ? ? Hs Hr]; subst. destruct (IH _ Hr) as (c2 & ? & ?).
  eauto using run_step.
Qed.

Create HintDb clock.
#[export] Hint Constructors clock_step clock_run : clock.
#[export] Hint Resolve clock_run_one clock_run_app : clock.

(** ** One step *)

Lemma enforce_inv c c' :
  enforceWallTimeWithinBoundLocked c = Ok c' ->
  c' = c /\ (wallTimeUpperBound c <> 0 -> WallTime (timestamp c) <= wallTimeUpperBound c).
Proof.
  unfold enforceWallTimeWithinBoundLocked.
  destruct (Z.eqb_spec (wallTimeUpperBound c) 0); cbn; [by intros [= <-]|].
  destruct (Z.ltb_spec (wallTimeUpperBound c) (WallTime (timestamp c))); cbn; [done|].
  by intros [= <-].
Qed.

Lemma nowLocked_inv c p c' t :
  nowLocked c p = Ok (c', t) ->
  c' = set_timestamp c t /\ p <= WallTime t /\ Synthetic t = Synthetic (timestamp c) /\
  (can_tick c -> lt_ts (timestamp c) t) /\
  (wallTimeUpperBound c <> 0 -> WallTime t <= wallTimeUpperBound c) /\
  (Logical t = 0 \/ Logical t = s32 (Logical (timestamp c) + 1)) /\ (lt_ts (timestamp c) t \/ Logical t = s32 (Logical (timestamp c) + 1)).
Proof.
  unfold nowLocked, can_tick. intros H. apply res_bind_inv in H as (c1 & H & [= <- <-]).
  apply enforce_inv in H as [-> Hb].
  destruct (Z.leb_spec p (WallTime (timestamp c))); cbn in *; (split; [done|]; split; [lia|];
    split; [done|]; split; [|split; [done|]]).
  - intros. rewrite wrapS_id by (unfold isS; lia). ts.
  - auto.
  - intros. ts.
  - split; [auto|]. left. ts.
Qed.

Lemma updateLocked_inv c rt c' :
  updateLocked c rt = Ok c' ->
  c' = set_timestamp c (timestamp c') /\
  le_ts (timestamp c) (timestamp c') /\ le_ts rt (timestamp c') /\
  Synthetic (timestamp c') = Synthetic (timestamp c) /\
  WallTime (timestamp c') = Z.max (WallTime (timestamp c)) (WallTime rt).
Proof.
  unfold updateLocked. intros [-> _]%enforce_inv. cbn.
  destruct (Z.ltb_spec (WallTime (timestamp c)) (WallTime rt));
    [|destruct (Z.eqb_spec (WallTime rt) (WallTime (timestamp c)));
      [destruct (Z.ltb_spec (Logical (timestamp c)) (Logical rt))|]];
    (split; [done|]); (split; [ts|]); (split; [ts|]); (split; [done|]); cbn; lia.
Qed.

(** A reading is above the clock, unless the logical clock wraps around. *)
Lemma tick c p c' t : nowLocked c p = Ok (c', t) -> logical_ok (timestamp c) -> logical_ok t /\ (lt_ts (timestamp c) t \/ Logical t = MinInt32).
Proof.
  intros (_ & _ & _ & Ht & _ & Hl & Hw)%nowLocked_inv Ok. unfold logical_ok, can_tick, isS in *.
  assert (Logical (timestamp c) < MaxInt32 \/ Logical (timestamp c) = MaxInt32) as [?|E] by lia.
  - split; [|left; apply Ht; lia]. destruct Hl as [->| ->]; [lia|]. rewrite wrapS_id by (unfold isS; lia). lia.
  - rewrite E in *. change (s32 (MaxInt32 + 1)) with MinInt32 in *. split; [destruct Hl as [->| ->]; lia|]. destruct Hw; auto.
Qed.

(** A step never makes the clock synthetic, and moves it back only where it wraps around. *)
Lemma clock_step_mono c e c' :
  clock_step c e c' ->
  Synthetic (timestamp c') = Synthetic (timestamp c) /\
  match e with
  | Returned t => t = timestamp c' /\ (logical_ok (timestamp c) -> logical_ok t /\ (lt_ts (timestamp c) t \/ wrapped e))
  | Received rt => le_ts (timestamp c) (timestamp c') /\ le_ts rt (timestamp c') /\ (timestamp c' = timestamp c \/ Logical (timestamp c') = Logical rt \/ Logical (timestamp c') = Logical (timestamp c))
  | Internal => timestamp c' = timestamp c
  end.
Proof.
  destruct 1; try (cbn; auto with hlc; fail).
  - pose proof (tick _ _ _ _ H) as T. apply nowLocked_inv in H as (-> & _ & ? & _). cbn. auto.
  - assert (timestamp c' = timestamp c \/ Logical (timestamp c') = Logical rt \/ Logical (timestamp c') = Logical (timestamp c)) as Hl.
    { revert H. unfold updateLocked. intros [-> _]%enforce_inv. cbn. destruct (_ <? _); [auto|]. destruct (_ =? _); [|auto]. destruct (_ <? _); auto. }
    apply updateLocked_inv in H as (_ & ? & ? & ? & _). auto.
  - split; [done|]. split; [auto with hlc|]. split; [ts|auto].
Qed.

(** Where no reading wrapped around, the clock has not moved back. *)
Lemma clock_run_mono c tr c' :
  clock_run c tr c' -> logical_ok (timestamp c) -> Forall event_ok tr ->
  logical_ok (timestamp c') /\ (Forall (fun e => ~ wrapped e) tr -> le_ts (timestamp c) (timestamp c')).
Proof.
  induction 1 as [|c e c1 tr c' Hs Hr IH]; [auto with hlc|]. intros Ok [Oe Otr]%Forall_cons.
  apply clock_step_mono in Hs as (_ & Hs).
  assert (logical_ok (timestamp c1) /\ (~ wrapped e -> le_ts (timestamp c) (timestamp c1))) as [Ok1 M1].
  { destruct e as [t|t|].
    - destruct Hs as [-> Hs]. destruct (Hs Ok) as [? [?|?]]; (split; [done|]); intros; [by apply lt_le_ts|done].
    - destruct Hs as (? & _ & Hl). split; [|done]. unfold logical_ok in *. destruct Hl as [E|[E|E]]; rewrite E; done.
    - rewrite Hs. auto with hlc. }
  destruct (IH Ok1 Otr) as [Ok' M]. split; [done|]. intros [Ne Nt]%Forall_cons. eapply le_ts_trans; [by apply M1|by apply M].
Qed.

(** After a reading or a reception of [t], every later reading is above [t] while none wraps around. *)
Lemma clock_run_after c t tr c' t' :
  le_ts t (timestamp c) -> logical_ok (timestamp c) -> clock_run c (tr ++ [Returned t']) c' -> Forall event_ok tr ->
  Forall (fun e => ~ wrapped e) (tr ++ [Returned t']) -> lt_ts t t'.
Proof.
  intros Ht Ok H Otr [Nt N']%Forall_app. apply clock_run_app_inv in H as (c1 & H1 & H2). destruct (clock_run_mono _ _ _ H1 Ok Otr) as [Ok1 M].
  inversion H2 as [|? ? c2 ? ? Hs Hr]; subst. apply clock_step_mono in Hs as (_ & _ & Hs). destruct (Hs Ok1) as [_ [?|?]]; [|by apply Forall_cons in N' as [? _]].
  eapply le_lt_ts_trans; [|done]. eapply le_ts_trans; [done|by apply M].
Qed.

(** A bound on the logical components received and on the number of readings leaves no room to wrap. *)
Lemma no_wrap n c tr c' :
  clock_run c tr c' -> logical_ok (timestamp c) -> Forall event_ok tr -> 0 <= n -> Logical (timestamp c) <= n -> Forall (received_within n) tr ->
  n + readings tr <= MaxInt32 -> Forall (fun e => ~ wrapped e) tr.
Proof.
  intros H. revert n. induction H as [|c e c1 tr c' Hs Hr IH]; [constructor|]. intros n Ok [Oe Otr]%Forall_cons Hn Hl [We Wtr]%Forall_cons Hc.
  assert (Mono : forall k, n <= k -> Forall (received_within k) tr).
  { intros k Hk. eapply Forall_impl; [exact Wtr|]. intros [] ?; cbn in *; lia. }
  destruct e as [t|t|]; unfold readings in Hc; cbn [List.filter is_reading length] in Hc; fold (readings tr) in Hc.
  - inversion Hs as [? p ? ? En| | | | | | |]; subst. pose proof (tick _ _ _ _ En Ok) as [Ok1 _]. apply nowLocked_inv in En as (-> & _ & _ & _ & _ & Hlt & _).
    assert (MinInt32 < Logical t <= n + 1).
    { unfold logical_ok, isS in Ok. unfold readings in Hc. destruct Hlt as [->| ->]; [lia|]. rewrite wrapS_id by (unfold isS; lia). lia. }
    constructor; [cbn; lia|]. apply (IH (n + 1)); cbn; try done; [lia|lia|apply Mono; lia|unfold readings in *; lia].
  - apply clock_step_mono in Hs as (_ & _ & _ & El). cbn in Oe, We. constructor; [by intros []|]. unfold logical_ok in *. apply (IH n); try done; destruct El as [->|[->| ->]]; done.
  - apply clock_step_mono in Hs as (_ & El). constructor; [by intros []|]. by apply (IH n); rewrite ?El.
Qed.

(** ** The methods are runs of the machine *)

Lemma checkPhysicalClock_run c o n c' :
  checkPhysicalClock c o n = Ok c' -> clock_run c [] c' \/ clock_run c [Internal] c'.
Proof.
  unfold checkPhysicalClock. destruct (o =? 0); [intros [= <-]; auto with clock|].
  destruct (_ <? _); cbn zeta; (destruct (_ && _); [done|]); intros [= <-];
    [right|left]; eauto with clock.
Qed.

Lemma getPhysicalClockAndCheck_inv c p c' p' :
  getPhysicalClockAndCheck c p = Ok (c', p') ->
  p' = p /\ timestamp c' = timestamp c /\ wallTimeUpperBound c' = wallTimeUpperBound c /\
  maxOffset c' = maxOffset c /\ lastPhysicalTime c' = p /\
  exists tr, clock_run c tr c' /\ Forall (eq Internal) tr.
Proof.
  unfold getPhysicalClockAndCheck, cas_loop. rewrite Z.eqb_refl.
  intros (c1 & H & [= <- <-])%res_bind_inv.
  assert (exists tr, clock_run (set_lastPhysicalTime c p) tr c1 /\ Forall (eq Internal) tr)
    as (tr & Hr & Ht).
  { destruct (checkPhysicalClock_run _ _ _ _ H); eexists; (split; [eassumption|]); by repeat constructor. }
  unfold checkPhysicalClock in H. split; [done|].
  assert (timestamp c1 = timestamp c /\ wallTimeUpperBound c1 = wallTimeUpperBound c /\
    maxOffset c1 = maxOffset c /\ lastPhysicalTime c1 = p) as (? & ? & ? & ?).
  { destruct (_ =? 0) in H; [by simplify_eq|]. cbn zeta in H.
    destruct (_ <? _) in H; (destruct (_ && _) in H; [done|]); by simplify_eq. }
  split_and!; try done. exists (Internal :: tr). split; [eauto with clock|by constructor].
Qed.

Lemma NowAsClockTimestamp_run c p c' t :
  NowAsClockTimestamp c p = Ok (c', t) ->
  exists tr, clock_run c (tr ++ [Returned t]) c' /\ Forall (eq Internal) tr.
Proof.
  intros ([c1 p1] & (-> & Et & _ & _ & _ & tr & Hr & Hi)%getPhysicalClockAndCheck_inv & Hn)%res_bind_inv.
  exists tr. split; [|done]. eapply clock_run_app; [eassumption|]. apply clock_run_one. by eapply step_now.
Qed.

Lemma Clock_Update_step c rt c' : Clock_Update c rt = Ok c' -> clock_step c (Received rt) c'.
Proof.
  unfold Clock_Update. destruct (Z.ltb_spec (WallTime rt) (WallTime (timestamp c)));
    [intros [= <-]|]; eauto with clock.
  by eapply step_update_fast.
Qed.

Lemma Clock_Update_wall c rt c' :
  Clock_Update c rt = Ok c' ->
  WallTime (timestamp c') = Z.max (WallTime (timestamp c)) (WallTime rt).
Proof.
  unfold Clock_Update. destruct (Z.ltb_spec (WallTime rt) (WallTime (timestamp c))).
  - intros [= <-]. lia.
  - intros (_ & _ & _ & _ & ->)%updateLocked_inv. done.
Qed.

(** The failures of the locked sections, which end the process. *)
Lemma getPhysicalClockAndCheck_fails c p :
  match getPhysicalClockAndCheck c p with
  | Ok _ => True
  | Err _ => False
  | Panic _ =>
      forwardClockJumpCheckEnabled c <> 0 /\ lastPhysicalTime c <> 0 /\
      toleratedForwardClockJump c <= s64 (- s64 (lastPhysicalTime c - p))
  end.
Proof.
  unfold getPhysicalClockAndCheck, cas_loop, checkPhysicalClock. rewrite Z.eqb_refl.
  destruct (Z.eqb_spec (lastPhysicalTime c) 0); [done|]. cbn zeta.
  destruct (_ <? _); destruct (_ && _) eqn:E; try done;
    apply andb_true_iff in E as [?%negb_true_iff%Z.eqb_neq ?%Z.leb_le]; done.
Qed.

Lemma nowLocked_fails c p :
  match nowLocked c p with
  | Ok _ => True
  | Err _ => False
  | Panic _ =>
      wallTimeUpperBound c <> 0 /\ wallTimeUpperBound c < Z.max (WallTime (timestamp c)) p
  end.
Proof.
  unfold nowLocked, enforceWallTimeWithinBoundLocked.
  destruct (Z.leb_spec p (WallTime (timestamp c))); destruct (_ && _) eqn:E; try done;
    apply andb_true_iff in E as [?%negb_true_iff%Z.eqb_neq ?%Z.ltb_lt]; cbn in *; split; lia.
Qed.

(** ** Sleeping *)

Lemma sleep_duration_min now t :
  Timestamp_LessEq t now = false -> sleep_duration now t = minSleep.
Proof. unfold sleep_duration, time_Sub. intros. ts. Qed.

Lemma Clock_Now_inv c p c' t :
  Clock_Now c p = Ok (c', t) ->
  timestamp c' = t /\ p <= WallTime t /\ lastPhysicalTime c' = p /\
  (can_tick c -> lt_ts (timestamp c) t) /\
  (wallTimeUpperBound c <> 0 -> WallTime t <= wallTimeUpperBound c).
Proof.
  intros ([c1 t1] & H1 & H2)%res_bind_inv.
  apply res_bind_inv in H2 as (t2 & H2 & [= <- <-]).
  unfold ClockTimestamp_ToTimestamp in H2. destruct (Synthetic t1); [done|]. simplify_eq.
  apply res_bind_inv in H1 as ([c2 p2] & Hp & Hn).
  apply getPhysicalClockAndCheck_inv in Hp as (-> & Et & Eb & _ & El & _).
  apply nowLocked_inv in Hn as (-> & ? & ? & Hlt & Hb & _).
  unfold can_tick in *. rewrite Et, Eb in *. auto.
Qed.

Lemma SleepUntil_spec c t turns c' out ds :
  SleepUntil c t turns = Ok (c', out, ds) ->
  (out = Some None -> le_ts t (timestamp c')) /\ Forall (fun d => d = minSleep) ds.
Proof.
  revert c ds. induction turns as [|[[ctxErr phys] ctxDone] turns IH]; intros c ds H; cbn in H.
  { by simplify_eq. }
  destruct ctxErr as [e|]; [by simplify_eq|].
  apply res_bind_inv in H as ([c1 now] & (<- & _)%Clock_Now_inv & H).
  destruct (Timestamp_LessEq t (timestamp c1)) eqn:E; [by simplify_eq|].
  apply sleep_duration_min in E. rewrite E in H. cbn in H.
  apply res_bind_inv in H as ([[c2 out2] ds2] & H & [= <- <- <-]).
  apply IH in H as [? ?]. auto.
Qed.

(** ** The compare-and-swap loop *)

Lemma cas_loop_spec fuel mem k lastPhysTime newTime v stored :
  cas_loop fuel mem k lastPhysTime newTime = Some (v, stored) ->
  newTime <= v /\ (stored = true -> v = newTime) /\
  (stored = false -> exists j, v = mem j).
Proof.
  revert k lastPhysTime. induction fuel as [|fuel IH]; intros k l H; cbn in H; [done|].
  destruct (mem k =? l); [simplify_eq; split_and!; by auto with lia|].
  destruct (Z.leb_spec newTime (mem (S k))); [|by eauto].
  simplify_eq. split_and!; [done|done|by eauto].
Qed.

Lemma cas_loop_terminates j mem k newTime :
  mem (k + 2 * j)%nat = mem (S (k + 2 * j)) ->
  cas_loop (S j) mem (S k) (mem k) newTime <> None.
Proof.
  revert k. induction j as [|j IH]; intros k H; cbn [cas_loop].
  - rewrite Nat.add_0_r in H. by rewrite H, Z.eqb_refl.
  - destruct (mem (S k) =? mem k); [done|].
    destruct (newTime <=? mem (S (S k))); [done|]. apply (IH (S (S k))).
    replace (S (S k) + 2 * j)%nat with (k + 2 * S j)%nat by lia. done.
Qed.

(** * Properties *)

(** C19: causality of the hybrid logical clock.  In every run of the clock's atomic
    steps, of any number of goroutines, a reading is strictly above every timestamp
    read from or fed into the clock before it, unless the 32-bit logical component wrapped
    around at a reading in between; and it does not wrap around as long as the logical
    components fed into the clock, and the number of readings, are together at most the
    largest 32-bit integer. *)
Theorem hlc_causality c tr1 e t tr2 t' tr3 c' (tr := tr1 ++ e :: tr2 ++ Returned t' :: tr3) :
  clock_run c tr c' -> logical_ok (timestamp c) -> Forall event_ok tr ->
  e = Returned t \/ e = Received t ->
  (lt_ts t t' \/ Exists wrapped (tr2 ++ [Returned t'])) /\
  (forall n, 0 <= n -> Logical (timestamp c) <= n -> Forall (received_within n) tr -> n + readings tr <= MaxInt32 -> lt_ts t t').
Proof.
  intros H Ok Oe He.
  assert (Gen : Forall (fun e => ~ wrapped e) (tr2 ++ [Returned t']) -> lt_ts t t').
  { intros Nw. unfold tr in *. apply Forall_app in Oe as [O1 Oe]. apply Forall_cons in Oe as [Oe O2]. apply Forall_app in O2 as [O2 _].
    apply clock_run_app_inv in H as (c1 & H1 & H). destruct (clock_run_mono _ _ _ H1 Ok O1) as [Ok1 _].
    inversion H as [|? ? c2 ? ? Hs Hr]; subst.
    assert (logical_ok (timestamp c2)) as Ok2 by (eapply (clock_run_mono c1 [e]); eauto using run_step, run_nil).
    assert (le_ts t (timestamp c2)) as Hle.
    { apply clock_step_mono in Hs as (_ & Hs). destruct He as [->| ->]; [destruct Hs as [-> _]; auto with hlc|tauto]. }
    rewrite (cons_middle (Returned t')), app_assoc in Hr. apply clock_run_app_inv in Hr as (c3 & Hr & _). by eapply clock_run_after. }
  split.
  - destruct (decide (Exists wrapped (tr2 ++ [Returned t']))) as [X|N]; [by right|left]. by apply Gen, Forall_Exists_neg.
  - intros n Hn Hl Hw Hc. apply Gen. pose proof (no_wrap n _ _ _ H Ok Oe Hn Hl Hw Hc) as F. unfold tr in F.
    rewrite (cons_middle (Returned t')) in F. rewrite !Forall_app, Forall_cons, !Forall_app in F. rewrite Forall_app. tauto.
Qed.

Lemma hlc_causality_witness :
  exists c c' t',
    clock_run c ([] ++ Received (MkTimestamp 9 4 false) :: [] ++ Returned t' :: []) c' /\
    lt_ts (MkTimestamp 9 4 false) t'.
Proof.
  set (c := set_timestamp (NewClock 0 0) (MkTimestamp 7 0 false)).
  exists c, (set_timestamp c (MkTimestamp 9 5 false)), (MkTimestamp 9 5 false).
  assert (clock_run c ([] ++ Received (MkTimestamp 9 4 false) :: [] ++
    Returned (MkTimestamp 9 5 false) :: []) (set_timestamp c (MkTimestamp 9 5 false))) as H.
  { eapply run_step; [by apply step_update; vm_compute|].
    eapply run_step; [|apply run_nil].
    apply (step_now _ 3). by vm_compute. }
  split; [exact H|].
  destruct (hlc_causality _ [] (Received (MkTimestamp 9 4 false)) (MkTimestamp 9 4 false) [] (MkTimestamp 9 5 false) [] _ H) as [_ P].
  - unfold logical_ok, isS. cbn. lia.
  - repeat constructor; cbn; lia.
  - by right.
  - apply (P 4); [lia|cbn; lia|by repeat constructor|by vm_compute].
Defined.

(** Every branch of [Clock.Now].  The reading is strictly above the clock, not
    below the physical clock, within the persisted upper bound and is the clock's new
    value; the call panics only on a forward jump of the physical clock while the jump
    check is enabled, or when the reading would exceed the upper bound. *)
Theorem Clock_Now_total c p :
  can_tick c -> Synthetic (timestamp c) = false ->
  match Clock_Now c p with
  | Ok (c', t) =>
      timestamp c' = t /\ lt_ts (timestamp c) t /\ p <= WallTime t /\
      lastPhysicalTime c' = p /\
      (wallTimeUpperBound c <> 0 -> WallTime t <= wallTimeUpperBound c)
  | Err _ => False
  | Panic _ =>
      (forwardClockJumpCheckEnabled c <> 0 /\ lastPhysicalTime c <> 0 /\
       toleratedForwardClockJump c <= s64 (- s64 (lastPhysicalTime c - p))) \/
      (wallTimeUpperBound c <> 0 /\
       wallTimeUpperBound c < Z.max (WallTime (timestamp c)) p)
  end.
Proof.
  intros Hc Hs. destruct (Clock_Now c p) as [[c' t]|e|e] eqn:E.
  - apply Clock_Now_inv in E as (? & ? & ? & ? & ?). auto.
  - revert E. unfold Clock_Now, NowAsClockTimestamp.
    pose proof (getPhysicalClockAndCheck_fails c p).
    destruct (getPhysicalClockAndCheck c p) as [[c1 p1]| |]; cbn; [|done..].
    pose proof (nowLocked_fails c1 p1). destruct (nowLocked c1 p1) as [[c2 t]| |]; cbn; [|done..].
    unfold ClockTimestamp_ToTimestamp. by destruct (Synthetic t).
  - revert E. unfold Clock_Now, NowAsClockTimestamp.
    pose proof (getPhysicalClockAndCheck_fails c p) as Hf.
    destruct (getPhysicalClockAndCheck c p) as [[c1 p1]| |] eqn:E1; cbn; [|done|by auto].
    apply getPhysicalClockAndCheck_inv in E1 as (-> & Et & Eb & _).
    pose proof (nowLocked_fails c1 p) as Hn. rewrite Et, Eb in Hn.
    destruct (nowLocked c1 p) as [[c2 t]| |] eqn:E2; cbn; [|done|by auto].
    apply nowLocked_inv in E2 as (_ & _ & Es & _). rewrite Et, Hs in Es.
    unfold ClockTimestamp_ToTimestamp. by rewrite Es.
Qed.

Lemma Clock_Now_total_witness :
  exists c', Clock_Now (NewClock 0 0) 5 = Ok (c', MkTimestamp 5 0 false) /\
             lt_ts EmptyTimestamp (MkTimestamp 5 0 false).
Proof.
  pose proof (Clock_Now_total (NewClock 0 0) 5 ltac:(unfold can_tick; cbn; lia) eq_refl) as H.
  eexists. split; [by vm_compute|]. vm_compute in H. vm_compute. intuition.
Defined.

(** C39: [UpdateAndCheckMaxOffset].  An accepted remote timestamp is at or below the
    clock afterwards, the clock does not move back and its wall time passes neither the
    larger of its old value and the physical clock plus the maximum offset; a timestamp
    beyond the offset is rejected and leaves the reading of the clock unchanged. *)
Theorem UpdateAndCheckMaxOffset_bound c p rt c' e :
  isS 64 (WallTime rt - p) -> 0 < maxOffset c ->
  UpdateAndCheckMaxOffset c p rt = Ok (c', e) ->
  match e with
  | None =>
      WallTime rt - p <= maxOffset c /\
      le_ts rt (timestamp c') /\ le_ts (timestamp c) (timestamp c') /\
      WallTime (timestamp c') <= Z.max (WallTime (timestamp c)) (p + maxOffset c)
  | Some _ => maxOffset c < WallTime rt - p /\ timestamp c' = timestamp c
  end.
Proof.
  intros Hr Hm ([c1 p1] & (-> & Et & _ & Em & _)%getPhysicalClockAndCheck_inv & H)%res_bind_inv.
  rewrite wrapS_id, Em in H by done. destruct (Z.ltb_spec 0 (maxOffset c)); [cbn in H|lia].
  destruct (Z.ltb_spec (maxOffset c) (WallTime rt - p)); [by simplify_eq|].
  apply res_bind_inv in H as (c2 & H & [= <- <-]). rewrite <- Et.
  destruct (Z.ltb_spec (WallTime rt) p);
    pose proof (Clock_Update_wall _ _ _ H) as Hw;
    apply Clock_Update_step, clock_step_mono in H as (_ & ? & ? & _);
    cbn in Hw; (split_and!; [lia| |done|lia]); [ts|done].
Qed.

Lemma UpdateAndCheckMaxOffset_bound_witness :
  exists c', UpdateAndCheckMaxOffset (NewClock 500 0) 1000 (MkTimestamp 1400 3 false) = Ok (c', None) /\
             WallTime (timestamp c') <= 1500.
Proof.
  eexists. assert (UpdateAndCheckMaxOffset (NewClock 500 0) 1000 (MkTimestamp 1400 3 false) =
    Ok (set_timestamp (set_lastPhysicalTime (NewClock 500 0) 1000) (MkTimestamp 1400 3 false), None))
    as H by (by vm_compute).
  split; [exact H|].
  apply (UpdateAndCheckMaxOffset_bound (NewClock 500 0) 1000 (MkTimestamp 1400 3 false) _ None);
    [unfold isS; cbn; lia|cbn; lia|exact H].
Defined.

(** [SleepUntil] returns without an error only once the clock has reached the
    target.  Every sleep it takes lasts exactly the minimum of 25 microseconds: the
    subtraction that computes the distance to the target has its operands swapped, so
    the distance is never positive and the clamp to [maxSleep] is dead. *)
Theorem SleepUntil_reaches c t turns c' out ds :
  SleepUntil c t turns = Ok (c', out, ds) ->
  (out = Some None -> le_ts t (timestamp c')) /\ Forall (fun d => d = minSleep) ds.
Proof. apply SleepUntil_spec. Qed.

Lemma SleepUntil_reaches_witness :
  exists c', SleepUntil (NewClock 0 0) (MkTimestamp 9000000 0 false)
      [(None, 1000000, None); (None, 9000000, None)] = Ok (c', Some None, [minSleep]) /\
    le_ts (MkTimestamp 9000000 0 false) (timestamp c').
Proof.
  eexists. match goal with |- ?a = Ok (_, ?o, ?d) /\ _ =>
    let r := eval vm_compute in a in
    match r with Ok (?c, _, _) => assert (a = Ok (c, o, d)) as H by (by vm_compute) end end.
  split; [exact H|]. by apply (SleepUntil_reaches _ _ _ _ _ _ H).
Defined.

(** The lock-free update of the last physical reading.  Among concurrent updaters
    it ends as soon as two consecutive accesses of this goroutine find the same value,
    and it then leaves a reading at least as recent as its own. *)
Theorem cas_loop_total j mem newTime :
  mem (2 * j)%nat = mem (S (2 * j)) ->
  exists v stored, cas_loop (S j) mem 1 (mem 0%nat) newTime = Some (v, stored) /\
    newTime <= v /\ (stored = true -> v = newTime) /\ (stored = false -> exists i, v = mem i).
Proof.
  intros H. pose proof (cas_loop_terminates j mem 0 newTime H) as Ht.
  destruct (cas_loop (S j) mem 1 (mem 0%nat) newTime) as [[v st]|] eqn:E; [|done].
  exists v, st. split; [done|]. by eapply cas_loop_spec.
Qed.

Lemma cas_loop_total_witness :
  exists v, cas_loop 2 (fun k => if (k <=? 1)%nat then Z.of_nat k else 2) 1 0 7 = Some (v, true) /\ 7 <= v.
Proof.
  destruct (cas_loop_total 1 (fun k => if (k <=? 1)%nat then Z.of_nat k else 2) 7 eq_refl)
    as (v & st & E & Hv & _).
  exists v. split; [|exact Hv]. vm_compute in E. by injection E as <- _.
Defined.

(** The tick of the logical component wraps at [MaxInt32]: an [Update] with such a
    timestamp makes the next reading go backwards. *)
Lemma Now_wraps :
  exists c c' t, Clock_Update (NewClock 0 0) (MkTimestamp 5 MaxInt32 false) = Ok c /\
    Clock_Now c 1 = Ok (c', t) /\ lt_ts t (timestamp c).
Proof. by do 3 eexists; split; [by vm_compute|split; [by vm_compute|]]; vm_compute; auto. Qed.
