(* ===== verification/KeyOps.v ===== *)
(** Keys as byte strings: successors, near predecessors and prefixes
    (src/pkg/keysbase/data.go, the end of src/pkg/util/encoding/encoding.go and the
    [Key] and [RKey] methods of src/pkg/roachpb/data.go).

    A Go slice is its contents and, where the code looks at it, the bytes of its
    spare capacity. *)
From S2P Require Import Prelude Bytes.

Definition KeyMin : bytes := [].
Definition KeyMax : bytes := [0xff; 0xff].
Definition LocalPrefix : bytes := [0x01].
Definition LocalMax : bytes := [0x02].

(** ** Operations *)

(** The loop of [PrefixEnd] runs from the last byte: here over the reversed key.
    [None] is the exhausted loop. *)
Fixpoint prefix_end_loop (rev_end : bytes) : option bytes :=
  match rev_end with
  | [] => None
  | x :: rest =>
      let x := u8 (x + 1) in
      if negb (x =? 0) then Some (rev (x :: rest)) else prefix_end_loop rest
  end.

Definition PrefixEnd (b : bytes) : bytes :=
  match b with
  | [] => KeyMax
  | _ => match prefix_end_loop (rev b) with Some e => e | None => b end
  end.

(** [spare] holds the bytes of the slice's capacity beyond its length. *)
Definition BytesNext (b spare : bytes) : bytes :=
  match spare with
  | x :: _ => if x =? 0 then b ++ [x] else b ++ [0]
  | [] => b ++ [0]
  end.

Definition BytesPrevish (b : bytes) (len : nat) : bytes :=
  match rev b with
  | [] => b
  | x :: rest =>
      if x =? 0 then rev rest
      else
        let len := if (len <? length b)%nat then length b else len in
        rev rest ++ [u8 (x - 1)] ++ replicate (len - length b) 0xff
  end.

(** The key before the last byte was incremented, and whether there is one. *)
Definition UndoPrefixEnd (b : bytes) : option bytes :=
  match rev b with
  | [] => None
  | x :: rest => if x =? 0 then None else Some (rev rest ++ [u8 (x - 1)])
  end.

Definition Key_Next (k spare : bytes) : bytes := BytesNext k spare.
Definition Key_Prevish (k : bytes) (len : nat) : bytes := BytesPrevish k len.
Definition Key_PrefixEnd (k : bytes) : bytes := PrefixEnd k.
Definition Key_Equal (k l : bytes) : bool := beqb k l.
Definition Key_Compare (k l : bytes) : comparison := bytes_compare k l.
Definition RKey_Less (k l : bytes) : bool := bltb k l.

Definition Key_IsPrev (k m : bytes) : bool :=
  match rev m with
  | [] => false
  | x :: rest => (length rest =? length k)%nat && (x =? 0) && Key_Equal k (rev rest)
  end.

(** ** Prefixes *)

Definition has_prefix (p k : bytes) : Prop := exists s, k = p ++ s.

Lemma has_prefix_app p a k : has_prefix p (p ++ a) /\ (has_prefix (p ++ a) k -> has_prefix p k).
Proof. split; [by exists a|]. intros [s ->]. exists (a ++ s). by rewrite app_assoc. Qed.

Lemma last_split (l : bytes) : l = [] \/ exists l' x, l = l' ++ [x].
Proof. destruct l as [|x l] using rev_ind; eauto. Qed.

Lemma prefix_end_loop_snoc l x :
  prefix_end_loop (rev (l ++ [x])) =
  if negb (u8 (x + 1) =? 0) then Some (l ++ [u8 (x + 1)]) else prefix_end_loop (rev l).
Proof. rewrite rev_unit. cbn. by rewrite rev_involutive. Qed.

Lemma prefix_end_loop_None l : bytes_ok l -> prefix_end_loop (rev l) = None -> Forall (eq 0xff) l.
Proof.
  induction l as [|x l IH] using rev_ind; [constructor|].
  rewrite prefix_end_loop_snoc. intros [Hl [Hx _]%bytes_ok_cons]%bytes_ok_app.
  unfold byte_ok in Hx. destruct (Z.eqb_spec (u8 (x + 1)) 0) as [E|E]; [|done].
  intros HN. apply Forall_app. split; [auto|]. constructor; [|constructor].
  unfold wrapU in E. Z.div_mod_to_equations. lia.
Qed.

(** The end is the prefix with a trailing run of 0xff dropped and the byte before it
    incremented. *)
Lemma prefix_end_loop_Some l e :
  bytes_ok l -> prefix_end_loop (rev l) = Some e ->
  exists p x n, l = p ++ [x] ++ replicate n 0xff /\ e = p ++ [x + 1] /\ byte_ok (x + 1).
Proof.
  induction l as [|x l IH] using rev_ind; [done|].
  rewrite prefix_end_loop_snoc. intros [Hl [Hx _]%bytes_ok_cons]%bytes_ok_app. unfold byte_ok in *.
  destruct (Z.eqb_spec (u8 (x + 1)) 0) as [E|E]; cbn [negb].
  - intros (p & y & n & -> & -> & ?)%IH; [|done]. exists p, y, (S n).
    assert (x = 0xff) as -> by (unfold wrapU in E; Z.div_mod_to_equations; lia).
    split; [|done]. rewrite <- !app_assoc. do 2 f_equal.
    rewrite <- replicate_cons_app. done.
  - intros [= <-]. exists l, x, 0%nat. split; [done|].
    assert (u8 (x + 1) = x + 1) as -> by (apply wrapU_id; unfold wrapU, isU in *; Z.div_mod_to_equations; lia).
    split; [done|]. unfold wrapU in E. Z.div_mod_to_equations. lia.
Qed.

(** Among byte strings the ff-run is the end of its prefix. *)
Lemma ff_run_le n k : bytes_ok k -> ble (replicate n 0xff) k -> has_prefix (replicate n 0xff) k.
Proof.
  revert k. induction n as [|n IH]; intros k Hk Hle; [by exists k|].
  destruct k as [|x k]; [done|]. apply bytes_ok_cons in Hk as [Hx Hk]. unfold byte_ok in Hx.
  unfold ble in Hle. cbn [replicate] in Hle. rewrite bytes_compare_cons in Hle.
  destruct (Z.compare_spec 255 x) as [<-|?|?]; [|lia|by destruct Hle].
  destruct (IH k Hk Hle) as [s ->]. by exists s.
Qed.

Lemma prefix_le p k : has_prefix p k -> ble p k.
Proof. intros [s ->]. unfold ble. rewrite bytes_compare_prefix. by destruct s. Qed.

(** Keys between [p ++ [x] ++ ff...] and [p ++ [x+1]]. *)
Lemma prefix_between p x n k :
  bytes_ok k ->
  has_prefix (p ++ [x] ++ replicate n 0xff) k <->
  ble (p ++ [x] ++ replicate n 0xff) k /\ blt k (p ++ [x + 1]).
Proof.
  intros Hk. split.
  - intros H. split; [by apply prefix_le|]. destruct H as [s ->].
    unfold blt. rewrite <- app_assoc, bytes_compare_app. cbn.
    by rewrite (proj2 (Z.compare_lt_iff x (x + 1))) by lia.
  - revert k Hk. induction p as [|y p IH]; intros [|z k] Hk [H1 H2]; try done.
    + apply bytes_ok_cons in Hk as [_ Hk]. unfold ble, blt in *. cbn in *.
      destruct (Z.compare_spec x z) as [<-|?|?]; [|destruct (Z.compare_spec z (x + 1)); [by destruct k|lia|done]|by destruct H1].
      destruct (ff_run_le n k Hk H1) as [s ->]. by exists s.
    + apply bytes_ok_cons in Hk as [_ Hk]. unfold ble, blt in *. cbn in *.
      destruct (Z.compare_spec y z) as [<-|?|?]; [|destruct (Z.compare_spec z y); [lia|lia|done]|by destruct H1].
      rewrite Z.compare_refl in H2. destruct (IH k Hk) as [s ->]; [done|]. by exists s.
Qed.

Lemma PrefixEnd_spec p k :
  bytes_ok p -> bytes_ok k -> p <> [] -> ~ Forall (eq 0xff) p ->
  has_prefix p k <-> ble p k /\ blt k (PrefixEnd p).
Proof.
  intros Hp Hk Hne Hff. unfold PrefixEnd. destruct p as [|y p']; [done|].
  destruct (prefix_end_loop (rev (y :: p'))) eqn:E; [|by apply prefix_end_loop_None in E].
  apply prefix_end_loop_Some in E as (q & x & n & -> & -> & _); [|done]. by apply prefix_between.
Qed.

(** ** Predecessors *)

Lemma replicate_ff_max n k :
  bytes_ok k -> (length k <= n)%nat -> ble k (replicate n 0xff).
Proof.
  revert k. induction n as [|n IH]; intros [|x k] Hk Hl; try done; [cbn in Hl; lia|].
  apply bytes_ok_cons in Hk as [Hx Hk]. unfold byte_ok in Hx. unfold ble. cbn.
  destruct (Z.compare_spec x 255); [|done|lia]. apply IH; [done|]. cbn in Hl. lia.
Qed.

Lemma below_last p x n k :
  bytes_ok k -> (length k <= length p + 1 + n)%nat -> 0 < x ->
  blt k (p ++ [x]) -> ble k (p ++ [x - 1] ++ replicate n 0xff).
Proof.
  intros Hk Hl Hx. revert k Hk Hl. induction p as [|y p IH]; intros [|z k] Hk Hl Hlt; try done;
    apply bytes_ok_cons in Hk as [_ Hk]; unfold blt, ble in *; cbn in *.
  - destruct (Z.compare_spec z (x - 1)) as [->|?|?]; [|done|].
    + apply replicate_ff_max; [done|lia].
    + destruct (Z.compare_spec z x); [by destruct k|lia|done].
  - destruct (Z.compare_spec z y); [|done|done]. apply IH; [done|lia|done].
Qed.

Lemma BytesNext_eq b spare : BytesNext b spare = b ++ [0].
Proof. destruct spare as [|x ?]; [done|]. cbn. by destruct (Z.eqb_spec x 0) as [->|]. Qed.

Lemma BytesPrevish_snoc b x n :
  0 < x < 256 ->
  BytesPrevish (b ++ [x]) n = b ++ [x - 1] ++ replicate (n - length (b ++ [x])) 0xff.
Proof.
  intros. unfold BytesPrevish. rewrite rev_unit, rev_involutive.
  destruct (Z.eqb_spec x 0); [lia|]. rewrite (wrapU_id 8) by (unfold isU; lia).
  do 3 f_equal. destruct (Nat.ltb_spec n (length (b ++ [x]))); lia.
Qed.

Lemma UndoPrefixEnd_snoc b x :
  UndoPrefixEnd (b ++ [x]) = if x =? 0 then None else Some (b ++ [u8 (x - 1)]).
Proof. unfold UndoPrefixEnd. by rewrite rev_unit, rev_involutive. Qed.

Lemma PrefixEnd_snoc b x :
  0 <= x < 255 -> PrefixEnd (b ++ [x]) = b ++ [x + 1].
Proof.
  intros. unfold PrefixEnd. rewrite prefix_end_loop_snoc, (wrapU_id 8) by (unfold isU; lia).
  destruct (Z.eqb_spec (x + 1) 0); [lia|]. by destruct b.
Qed.

(** * Properties *)

(** Prefix spans.  For a non-empty key that is not all 0xff, the keys from the key
    up to its [PrefixEnd] are exactly the keys it is a prefix of; the empty key gives
    the maximal key, and an all-0xff key is its own end. *)
Theorem PrefixEnd_exact p k :
  bytes_ok p -> bytes_ok k ->
  PrefixEnd [] = KeyMax /\
  (Forall (eq 0xff) p -> p <> [] -> PrefixEnd p = p) /\
  (~ Forall (eq 0xff) p -> has_prefix p k <-> ble p k /\ blt k (PrefixEnd p)).
Proof.
  intros Hp Hk. split_and!; [done| |].
  - intros Hff Hne. unfold PrefixEnd. destruct p as [|y p]; [done|].
    destruct (prefix_end_loop _) eqn:E; [|done].
    apply prefix_end_loop_Some in E as (q & x & n & Eq & _ & Hx); [|done].
    rewrite Eq in Hff. apply Forall_app in Hff as [_ [Hff _]%Forall_app].
    apply Forall_cons in Hff as [<- _]. unfold byte_ok in Hx. lia.
  - intros. apply PrefixEnd_spec; try done. by intros ->; destruct H; constructor.
Qed.

Lemma PrefixEnd_exact_witness :
  PrefixEnd [3; 255] = [4] /\ has_prefix [3; 255] [3; 255; 9] /\ blt [3; 255; 9] (PrefixEnd [3; 255]).
Proof.
  split; [reflexivity|].
  assert (has_prefix [3; 255] [3; 255; 9]) as H by (by exists [9]). split; [exact H|].
  apply (PrefixEnd_exact [3; 255] [3; 255; 9]); try exact H; try (repeat constructor; lia).
  intros Hf. inversion Hf; lia.
Defined.

(** The successor and the near predecessor.  [BytesNext] gives the least key above
    a key, whatever the spare capacity of its slice holds.  [BytesPrevish] gives a key
    below a non-empty key, and no key of at most the requested length lies between. *)
Theorem BytesNext_Prevish b spare k n :
  bytes_ok b -> bytes_ok k ->
  (blt b k <-> ble (BytesNext b spare) k) /\
  Key_IsPrev b (BytesNext b spare) = true /\
  (b <> [] -> blt (BytesPrevish b n) b /\
    ((length k <= n)%nat -> blt k b -> ble k (BytesPrevish b n))).
Proof.
  intros Hb Hk. rewrite BytesNext_eq. split_and!; [by apply next_least| |].
  - unfold Key_IsPrev, Key_Equal. rewrite rev_unit, rev_involutive, length_rev, Nat.eqb_refl. cbn.
    by destruct (beqb_spec b b).
  - intros Hne. destruct (last_split b) as [->|(b' & x & ->)]; [done|].
    apply bytes_ok_app in Hb as [_ [Hx _]%bytes_ok_cons]. unfold byte_ok in Hx.
    destruct (decide (x = 0)) as [->|].
    + unfold BytesPrevish. rewrite rev_unit, rev_involutive. cbn. split; [apply blt_next|].
      intros _ Hlt. destruct (bytes_compare_spec k b') as [->|?|Hgt]; [border..|].
      apply next_least in Hgt; [border|done].
    + rewrite BytesPrevish_snoc by lia. split.
      * unfold blt. rewrite bytes_compare_app. cbn.
        by rewrite (proj2 (Z.compare_lt_iff (x - 1) x)) by lia.
      * intros. apply below_last; try done; [|lia]. rewrite length_app. cbn. lia.
Qed.

Lemma BytesNext_Prevish_witness :
  BytesNext [5] [7] = [5; 0] /\ blt [5] [5; 0; 1] /\ ble (BytesNext [5] [7]) [5; 0; 1].
Proof.
  split; [reflexivity|]. split; [reflexivity|].
  apply (BytesNext_Prevish [5] [7] [5; 0; 1] 0); [repeat constructor; lia..|reflexivity].
Defined.

(** [UndoPrefixEnd] inverts [PrefixEnd] exactly on the keys whose last byte is not
    0xff, and [PrefixEnd] inverts it wherever it answers.  The laws of its comment, for
    all non-maximal and all non-minimal keys, fail: [12 ff] and [01 00] are neither. *)
Theorem UndoPrefixEnd_laws b x :
  0 <= x < 256 ->
  (x <> 0xff -> UndoPrefixEnd (PrefixEnd (b ++ [x])) = Some (b ++ [x])) /\
  (x <> 0 -> PrefixEnd <$> UndoPrefixEnd (b ++ [x]) = Some (b ++ [x])) /\
  UndoPrefixEnd (PrefixEnd [0x12; 0xff]) = Some [0x12] /\
  UndoPrefixEnd [0x01; 0x00] = None.
Proof.
  intros Hx. split_and!; [| |reflexivity..]; intros Hn.
  - rewrite PrefixEnd_snoc, UndoPrefixEnd_snoc by lia. destruct (Z.eqb_spec (x + 1) 0); [lia|].
    rewrite (wrapU_id 8) by (unfold isU; lia). do 3 f_equal. lia.
  - rewrite UndoPrefixEnd_snoc, (wrapU_id 8) by (unfold isU; lia). destruct (Z.eqb_spec x 0); [lia|].
    cbn. rewrite PrefixEnd_snoc by lia. do 3 f_equal. lia.
Qed.

Lemma UndoPrefixEnd_laws_witness : UndoPrefixEnd (PrefixEnd [0x12; 0x34]) = Some [0x12; 0x34].
Proof. apply (UndoPrefixEnd_laws [0x12] 0x34); lia. Defined.
