(* ===== verification/Spans.v ===== *)
(** Key spans (src/pkg/roachpb/data.go, src/pkg/roachpb/merge_spans.go).

    A [Span] is a single key when its end key is empty and the keys from its start key
    to its end key, exclusive, otherwise.  A nil end key is [None]; the code treats it
    as an empty one everywhere but in [MergeSpans].  The set of keys a span stands for
    is [in_span]; the theorems relate each operation to it. *)
From S2P Require Import Prelude Bytes KeyOps.
From Stdlib Require Import Sorting.Permutation Sorting.Sorted.

Record Span := MkSpan { Key : bytes; EndKey : option bytes }.

(** The end key as [bytes.Compare] and [len] see it. *)
Definition ek (s : Span) : bytes := default [] (EndKey s).
Definition is_point (s : Span) : bool := (length (ek s) =? 0)%nat.

Definition EmptySpan : Span := MkSpan [] None.

(** * Operations *)

Definition Span_Equal (s o : Span) : bool := beqb (Key s) (Key o) && beqb (ek s) (ek o).

Definition Span_Valid (s : Span) : bool :=
  if (length (Key s) =? 0)%nat && is_point s then false
  else if is_point s then true
  else if bleb (ek s) (Key s) then false
  else true.

Definition Span_Overlaps (s o : Span) : bool :=
  if negb (Span_Valid s) || negb (Span_Valid o) then false
  else if is_point s && is_point o then beqb (Key s) (Key o)
  else if is_point s then bleb (Key o) (Key s) && bltb (Key s) (ek o)
  else if is_point o then bleb (Key s) (Key o) && bltb (Key o) (ek s)
  else bltb (Key o) (ek s) && bltb (Key s) (ek o).

Definition Span_Intersect (s o : Span) : Span :=
  if negb (Span_Overlaps s o) then EmptySpan
  else if is_point s then s
  else if is_point o then o
  else
    let key := if bltb (Key s) (Key o) then Key o else Key s in
    let endKey := if bltb (ek o) (ek s) then EndKey o else EndKey s in
    MkSpan key endKey.

Definition Span_Combine (s o : Span) : Span :=
  if negb (Span_Valid s) || negb (Span_Valid o) then EmptySpan
  else
    let min := Key s in
    let max := if is_point s then Key s else ek s in
    let '(min, max) :=
      if bltb (Key o) min then (Key o, max)
      else if bltb max (Key o) then (min, Key o) else (min, max) in
    let max := if negb (is_point o) && bltb max (ek o) then ek o else max in
    if beqb min max then MkSpan min None
    else if beqb (Key s) max || beqb (Key o) max then MkSpan min (Some (Key_Next max []))
    else MkSpan min (Some max).

Definition Span_Contains (s o : Span) : bool :=
  if negb (Span_Valid s) || negb (Span_Valid o) then false
  else if is_point s && is_point o then beqb (Key s) (Key o)
  else if is_point s then false
  else if is_point o then bleb (Key s) (Key o) && bltb (Key o) (ek s)
  else bleb (Key s) (Key o) && bleb (ek o) (ek s).

Definition Span_ContainsKey (s : Span) (key : bytes) : bool :=
  bleb (Key s) key && bltb key (ek s).

Definition Span_CompareKey (s : Span) (key : bytes) : Z :=
  if bleb (Key s) key then if bltb key (ek s) then 0 else 1 else -1.

Definition Span_ProperlyContainsKey (s : Span) (key : bytes) : bool :=
  bltb (Key s) key && bltb key (ek s).

(** The start and the end of the interval. *)
Definition Span_AsRange (s : Span) : bytes * bytes :=
  if is_point s
  then let endKey := Key_Next (Key s) [] in (take (length (Key s)) endKey, endKey)
  else (Key s, ek s).

Definition Span_SplitOnKey (s : Span) (key : bytes) : Span * Span :=
  if bleb key (Key s) || bleb (ek s) key then (s, EmptySpan)
  else (MkSpan (Key s) (Some key), MkSpan key (EndKey s)).

Definition Spans_ContainsKey (a : list Span) (key : bytes) : bool :=
  existsb (fun span => Span_ContainsKey span key) a.

Record RSpan := MkRSpan { RKey : bytes; REndKey : bytes }.

Definition RSpan_KeySpan (rs : RSpan) : RSpan :=
  let start := RKey rs in
  let start := if beqb start KeyMin then LocalMax else start in
  MkRSpan start (REndKey rs).

Definition RSpan_Equal (rs o : RSpan) : bool :=
  beqb (RKey rs) (RKey o) && beqb (REndKey rs) (REndKey o).

Definition RSpan_ContainsKey (rs : RSpan) (key : bytes) : bool :=
  bleb (RKey rs) key && bltb key (REndKey rs).

Definition RSpan_ContainsKeyInverted (rs : RSpan) (key : bytes) : bool :=
  bltb (RKey rs) key && bleb key (REndKey rs).

Definition RSpan_ContainsKeyRange (rs : RSpan) (start end_ : bytes) : bool :=
  if (length end_ =? 0)%nat then RSpan_ContainsKey rs start
  else match bytes_compare end_ start with
       | Lt => false
       | Eq => RSpan_ContainsKey rs start
       | Gt => bleb (RKey rs) start && bleb end_ (REndKey rs)
       end.

Definition RSpan_Intersect (rs rspan : RSpan) : res RSpan :=
  if negb (bltb (RKey rs) (REndKey rspan)) || negb (bltb (RKey rspan) (REndKey rs))
  then Err "spans do not overlap"
  else
    let key := RKey rs in
    let key := if bltb key (RKey rspan) then RKey rspan else key in
    let endKey := REndKey rs in
    let endKey := if negb (RSpan_ContainsKeyRange rspan (RKey rspan) endKey)
                  then REndKey rspan else endKey in
    Ok (MkRSpan key endKey).

(** * Sorting

    [sort.Sort] gives some permutation in the order of the [Less] method; insertion
    sort stands for it. *)

Fixpoint insert (less : Span -> Span -> bool) (s : Span) (l : list Span) : list Span :=
  match l with
  | [] => [s]
  | x :: l' => if less x s then x :: insert less s l' else s :: l
  end.
Definition sort_Sort (less : Span -> Span -> bool) (l : list Span) : list Span :=
  foldr (insert less) [] l.

Definition sortedSpans_Less (a b : Span) : bool :=
  match bytes_compare (Key a) (Key b) with
  | Eq => bltb (ek a) (ek b)
  | Lt => true
  | Gt => false
  end.

Definition Spans_Less (a b : Span) : bool := bltb (Key a) (Key b).

(** * Merging *)

(** One turn of the loop on [prev], the last span of the result: the span that takes
    its place, whether [cur] is appended after it, and whether the two are distinct. *)
Definition merge_step (prev cur : Span) : Span * bool * bool :=
  if is_point cur && is_point prev then
    if negb (beqb (Key cur) (Key prev)) then (prev, true, true) else (prev, false, false)
  else if is_point prev then
    if beqb (Key cur) (Key prev) then (MkSpan (Key prev) (EndKey cur), false, false)
    else (prev, true, true)
  else
    let c := bytes_compare (ek prev) (Key cur) in
    match c with
    | Lt => (prev, true, true)
    | _ =>
        match EndKey cur with
        | Some _ =>
            if bltb (ek prev) (ek cur)
            then (MkSpan (Key prev) (EndKey cur), false, match c with Gt => false | _ => true end)
            else (prev, false, false)
        | None =>
            match c with
            | Eq => (MkSpan (Key prev) (Some (Key_Next (Key cur) [])), false, true)
            | _ => (prev, false, false)
            end
        end
    end.

(** The loop: [prev] is the last span of the result, [l] what is left to visit. *)
Fixpoint merge_loop (prev : Span) (l : list Span) : list Span * bool :=
  match l with
  | [] => ([prev], true)
  | cur :: l =>
      let '(prev', appended, d) := merge_step prev cur in
      if appended
      then let '(r, d') := merge_loop cur l in (prev' :: r, d && d')
      else let '(r, d') := merge_loop prev' l in (r, d && d')
  end.

Definition MergeSpans (spans : list Span) : list Span * bool :=
  match sort_Sort sortedSpans_Less spans with
  | [] => (spans, true)
  | s :: l => merge_loop s l
  end.

(** * Subtraction *)

Definition appendRemaining (remaining : list Span) (s : Span) : list Span :=
  match rev remaining with
  | last :: rest =>
      if beqb (ek last) (Key s) then rev (MkSpan (Key last) (EndKey s) :: rest)
      else remaining ++ [s]
  | [] => remaining ++ [s]
  end.

(** The loop over [todo[t:]] and [done[d:]].  Every turn advances one of the two
    indices, the inner recursion the second alone. *)
Fixpoint subtract_loop (todo : list Span) : list Span -> list Span -> list Span :=
  match todo with
  | [] => fun _ remaining => remaining
  | t0 :: todo' =>
      (fix inner (t0 : Span) (done : list Span) (remaining : list Span) : list Span :=
         match done with
         | [] => remaining ++ t0 :: todo'
         | d0 :: done' =>
             if beqb (Key t0) (ek t0) then subtract_loop todo' done remaining
             else if bleb (ek t0) (Key d0)
             then subtract_loop todo' done (appendRemaining remaining t0)
             else if bleb (ek d0) (Key t0) then inner t0 done' remaining
             else
               let remaining :=
                 if bleb (Key d0) (Key t0) then remaining
                 else appendRemaining remaining (MkSpan (Key t0) (Some (Key d0))) in
               match bytes_compare (ek d0) (ek t0) with
               | Lt => inner (MkSpan (ek d0) (EndKey t0)) done' remaining
               | Gt => subtract_loop todo' done remaining
               | Eq => subtract_loop todo' done' remaining
               end
         end) t0
  end.

Definition SubtractSpans (todo done : list Span) : list Span :=
  match done with
  | [] => todo
  | _ => subtract_loop (sort_Sort Spans_Less todo) (sort_Sort Spans_Less done) []
  end.

(** * The keys of a span *)

Definition in_span (s : Span) (k : bytes) : Prop :=
  if is_point s then k = Key s else ble (Key s) k /\ blt k (ek s).
Definition in_spans (l : list Span) (k : bytes) : Prop := Exists (fun s => in_span s k) l.
Definition valid (s : Span) : Prop := Span_Valid s = true.

Lemma Valid_spec s :
  valid s <-> if is_point s then Key s <> [] else blt (Key s) (ek s).
Proof.
  unfold valid, Span_Valid. destruct (is_point s); rewrite ?andb_true_r, ?andb_false_r.
  - by destruct (Key s).
  - destruct (bleb_spec (ek s) (Key s)); split; try done; intros; border.
Qed.

(** A valid span is not empty: it holds its start key. *)
Lemma valid_start s : valid s -> in_span s (Key s).
Proof. rewrite Valid_spec. unfold in_span. destruct (is_point s); [done|]. intros. split; border. Qed.

Lemma ek_point s : is_point s = true -> ek s = [].
Proof. unfold is_point. by destruct (ek s). Qed.

Lemma ek_Some k e : ek (MkSpan k (Some e)) = e.
Proof. reflexivity. Qed.

(** [spans] decides facts about the keys of spans from the order of their ends. *)
Ltac spans_hyps :=
  intros; try match goal with |- ~ _ => intro end; repeat match goal with
  | H : _ /\ _ |- _ => destruct H
  | H : exists _, _ |- _ => destruct H
  end; subst.
Ltac spans :=
  spans_hyps; try discriminate; try (exfalso; border); repeat split; spans_hyps; try border.

Lemma Overlaps_spec s o :
  Span_Overlaps s o = true <-> valid s /\ valid o /\ exists k, in_span s k /\ in_span o k.
Proof.
  unfold valid, Span_Overlaps. destruct (Span_Valid s) eqn:Vs; cbn [negb orb]; [|by split; [|intros [? _]]].
  destruct (Span_Valid o) eqn:Vo; cbn [negb orb]; [|by split; [|intros (_ & ? & _)]].
  apply Valid_spec in Vs, Vo. unfold in_span.
  destruct (is_point s), (is_point o); cbn [andb]; bcases;
    (split; [try done; intros _; (split; [done|split; [done|]])|by spans]).
  - eauto.
  - exists (Key s). spans.
  - exists (Key o). spans.
  - destruct (bltb_spec (Key s) (Key o)); [exists (Key o)|exists (Key s)]; spans.
Qed.

Lemma valid_pair s o (P Q : bool) :
  (if negb (Span_Valid s) || negb (Span_Valid o) then P else Q) =
  if Span_Valid s && Span_Valid o then Q else P.
Proof. by destruct (Span_Valid s), (Span_Valid o). Qed.

(** Containment of the key sets, except that a single key is never taken to contain a
    span with an end key, not even the span of that key alone. *)
Lemma Contains_spec s o :
  Span_Contains s o = true <->
  valid s /\ valid o /\ (forall k, in_span o k -> in_span s k) /\
  (is_point s = true -> is_point o = true).
Proof.
  unfold valid, Span_Contains. rewrite valid_pair.
  destruct (Span_Valid s) eqn:Vs; [|by split; [|intros [? _]]].
  destruct (Span_Valid o) eqn:Vo; [|by split; [|intros (_ & ? & _)]]; cbn [andb].
  apply Valid_spec in Vs, Vo. unfold in_span.
  destruct (is_point s), (is_point o); cbn [andb].
  - bcases; (split; try done); [intros _; split_and!; try done; congruence|].
    intros (_ & _ & H & _). by destruct (H (Key o)).
  - split; [done|]. intros (_ & _ & _ & H). by specialize (H eq_refl).
  - bcases; (split; try done); try (intros (_ & _ & H & _); specialize (H _ eq_refl); spans).
    intros _. split_and!; try done. spans.
  - bcases; (split; try done).
    + intros _. split_and!; try done. spans.
    + intros (_ & _ & H & _). destruct (bltb_spec (ek s) (Key o)).
      * destruct (H (Key o)); spans.
      * destruct (H (ek s)); spans.
    + intros (_ & _ & H & _). destruct (H (Key o)); spans.
Qed.

Lemma Intersect_spec s o k :
  Span_Overlaps s o = true ->
  valid (Span_Intersect s o) /\ (in_span (Span_Intersect s o) k <-> in_span s k /\ in_span o k).
Proof.
  intros Ho. pose proof (proj1 (Overlaps_spec s o) Ho) as (Vs & Vo & k0 & Hs & Ho0).
  unfold Span_Intersect. rewrite Ho. cbn [negb].
  destruct (is_point s) eqn:Es; [|destruct (is_point o) eqn:Eo].
  - split; [done|]. unfold in_span in *. rewrite Es in *. subst k0. split; [by intros ->|by intros [? _]].
  - split; [done|]. unfold in_span in *. rewrite Es, Eo in *. subst k0. split; [by intros ->|by intros [_ ?]].
  - set (m := MkSpan _ _). revert Hs Ho0. unfold in_span. rewrite Es, Eo. intros.
    assert (ek m = if bltb (ek o) (ek s) then ek o else ek s) as Em
      by (unfold m; by destruct (bltb (ek o) (ek s))).
    assert (Key m = if bltb (Key s) (Key o) then Key o else Key s) as Ek by done.
    assert (is_point m = false) as Epm.
    { unfold is_point in *. rewrite Em. by destruct (bltb (ek o) (ek s)). }
    apply Valid_spec in Vs, Vo. rewrite Valid_spec, Epm, Ek, Em. rewrite Es in Vs. rewrite Eo in Vo.
    bcases; spans.
Qed.

Lemma next_above m k : bytes_ok k -> blt k (m ++ [0]) <-> ble k m.
Proof.
  intros Hk. pose proof (next_least m k Hk). pose proof (blt_next m). split; intros; [|border].
  destruct (bleb_spec k m); [done|]. assert (blt m k) by border. intuition border.
Qed.

Lemma has_below s k : valid s -> (exists a, in_span s a /\ ble a k) <-> ble (Key s) k.
Proof.
  intros V. split; [|intros; exists (Key s); split; [by apply valid_start|done]].
  intros (a & Ha & ?). unfold in_span in Ha. destruct (is_point s); spans.
Qed.

Lemma has_above s k :
  valid s ->
  (exists b, in_span s b /\ ble k b) <-> if is_point s then ble k (Key s) else blt k (ek s).
Proof.
  intros V%Valid_spec. unfold in_span. destruct (is_point s).
  - split; [by intros (b & -> & ?)|eauto].
  - split; [spans|]. intros. destruct (bleb_spec (Key s) k); [exists k|exists (Key s)]; spans.
Qed.

Lemma exists_or {A} (P Q R : A -> Prop) :
  (exists a, (P a \/ Q a) /\ R a) <-> (exists a, P a /\ R a) \/ (exists a, Q a /\ R a).
Proof. split; [intros (a & [?|?] & ?)|intros [(a & ? & ?)|(a & ? & ?)]]; eauto. Qed.

Lemma in_span_end min e k :
  blt min e -> in_span (MkSpan min (Some e)) k <-> ble min k /\ blt k e.
Proof. intros. unfold in_span, is_point. rewrite ek_Some. by destruct e; [destruct min|]. Qed.

(** The convex hull of the two spans. *)
Lemma Combine_spec s o k :
  valid s -> valid o -> bytes_ok k ->
  in_span (Span_Combine s o) k <->
   (exists a, (in_span s a \/ in_span o a) /\ ble a k) /\
   (exists b, (in_span s b \/ in_span o b) /\ ble k b).
Proof.
  intros Vs Vo Hk. rewrite !exists_or, !has_below, !has_above by done.
  unfold Span_Combine, Key_Next. unfold valid in Vs, Vo. rewrite Vs, Vo. cbn [negb orb].
  apply Valid_spec in Vs, Vo.
  destruct (is_point s), (is_point o); cbn [negb andb]; bcases.
  all: rewrite ?BytesNext_eq.
  all: rewrite ?in_span_end by (match goal with |- blt _ (?m ++ [0]) => pose proof (blt_next m) | _ => idtac end; border).
  all: rewrite ?next_above by done.
  all: unfold in_span; cbn [is_point ek EndKey Key default length Nat.eqb].
  all: try (exfalso; border).
  all: split; [intros|intros [[?|?] [?|?]]]; spans; first [left; border|right; border].
Qed.

Lemma CompareKey_spec s k :
  Span_ContainsKey s k = (Span_CompareKey s k =? 0) /\
  (Span_CompareKey s k = -1 <-> blt k (Key s)) /\
  (Span_ProperlyContainsKey s k = true -> Span_ContainsKey s k = true).
Proof.
  unfold Span_ContainsKey, Span_CompareKey, Span_ProperlyContainsKey.
  split_and!; bcases; try done; try split; try done; spans.
Qed.

(** The two sides partition the span; outside the span the split is the span itself. *)
Lemma SplitOnKey_spec s key k :
  blt (Key s) (ek s) ->
  let '(l, r) := Span_SplitOnKey s key in
  (in_span s k <-> in_span l k \/ (in_span r k /\ valid r)) /\
  (Span_ProperlyContainsKey s key = false -> (l, r) = (s, EmptySpan)) /\
  (Span_ProperlyContainsKey s key = true -> ek l = key /\ Key r = key /\ valid l /\ valid r).
Proof.
  intros Hr. unfold Span_SplitOnKey, Span_ProperlyContainsKey.
  destruct (bleb_spec key (Key s)); [|destruct (bleb_spec (ek s) key)]; cbn [orb].
  1,2: split; [split; [by left|intros [?|[_ ?]]; done]|]; split; [done|bcases; try done; spans].
  assert (blt (Key s) key) by border. assert (blt key (ek s)) by border.
  destruct (ek s) as [|x e] eqn:Ee; [by apply blt_nil_inv in Hr|]. rewrite <- Ee in *.
  destruct key as [|y key]; [by exfalso; eapply blt_nil_inv|].
  assert (is_point s = false) as Ep by (unfold is_point; by rewrite Ee).
  assert (is_point (MkSpan (y :: key) (EndKey s)) = false) as Ep'
    by (unfold is_point in *; done).
  rewrite !Valid_spec, Ep'. unfold in_span. rewrite Ep, Ep'.
  change (is_point (MkSpan (Key s) (Some (y :: key)))) with false. cbn [Key]. rewrite ek_Some.
  change (ek (MkSpan (y :: key) (EndKey s))) with (ek s). split_and!.
  - split; [intros [??]|intros [[??]|[[??] ?]]; spans].
    destruct (bltb_spec k (y :: key)); [left|right]; spans.
  - bcases; spans.
  - done.
Qed.

Lemma RSpan_Intersect_spec rs o k :
  match RSpan_Intersect rs o with
  | Ok i => RSpan_ContainsKey i k = RSpan_ContainsKey rs k && RSpan_ContainsKey o k
  | Err _ => RSpan_ContainsKey rs k && RSpan_ContainsKey o k = false
  | Panic _ => False
  end.
Proof.
  unfold RSpan_Intersect, RSpan_ContainsKeyRange, RSpan_ContainsKey.
  destruct (bltb_spec (RKey rs) (REndKey o)); cbn [negb orb]; [|bcases; spans].
  destruct (bltb_spec (RKey o) (REndKey rs)); cbn [negb orb]; [|bcases; spans].
  destruct (REndKey rs) as [|x e] eqn:E; [by exfalso; eapply blt_nil_inv|].
  cbn [length Nat.eqb]. rewrite <- E in *. cbn [RKey REndKey]. bcases; spans.
Qed.

(** * Sorted lists of spans *)

Fixpoint pairwise {A} (R : A -> A -> Prop) (l : list A) : Prop :=
  match l with
  | [] => True
  | a :: l => Forall (R a) l /\ pairwise R l
  end.

Lemma pairwise_app {A} (R : A -> A -> Prop) l1 l2 :
  pairwise R (l1 ++ l2) <->
  pairwise R l1 /\ pairwise R l2 /\ Forall (fun a => Forall (R a) l2) l1.
Proof.
  induction l1 as [|a l1 IH]; cbn; [by intuition|].
  rewrite IH, Forall_app, Forall_cons. tauto.
Qed.

Lemma pairwise_mono {A} (R S : A -> A -> Prop) l :
  (forall a b, a ∈ l -> b ∈ l -> R a b -> S a b) -> pairwise R l -> pairwise S l.
Proof.
  induction l as [|a l IH]; cbn; [done|]. intros H [Ha Hl]. split.
  - rewrite Forall_forall in *. intros b Hb. apply H; [by left|by right|auto].
  - apply IH; [|done]. intros. apply H; [by right..|done].
Qed.

Lemma pairwise_Permutation {A} (R : A -> A -> Prop) l l' :
  (forall a b, R a b -> R b a) -> Permutation l l' -> pairwise R l -> pairwise R l'.
Proof.
  intros Hs. induction 1 as [|a l l' Hp IH|a b l|]; cbn; auto.
  - intros [Ha Hl]. split; [by rewrite <- Hp|auto].
  - rewrite !Forall_cons. intros [[Hba Hb] [Ha Hl]]. auto.
Qed.

Section Sort.
Context (less : Span -> Span -> bool).
Hypothesis less_asym : forall a b, less a b = true -> less b a = false.
Hypothesis nless_trans : forall a b c, less b a = false -> less c b = false -> less c a = false.

Let le (a b : Span) : Prop := less b a = false.

Lemma insert_Permutation s l : Permutation (insert less s l) (s :: l).
Proof.
  induction l as [|x l IH]; cbn; [done|]. destruct (less x s); [|done].
  rewrite IH. apply perm_swap.
Qed.

Lemma sort_Permutation l : Permutation (sort_Sort less l) l.
Proof. induction l as [|s l IH]; [done|]. cbn. by rewrite insert_Permutation, IH. Qed.

Lemma insert_pairwise s l : pairwise le l -> pairwise le (insert less s l).
Proof.
  induction l as [|x l IH]; cbn; [by repeat split|]. intros [Hx Hl].
  destruct (less x s) eqn:E; cbn.
  - split; [|auto]. rewrite insert_Permutation. constructor; [|done]. by apply less_asym.
  - split; [|done]. constructor; [done|]. eapply Forall_impl; [exact Hx|].
    intros b Hb. eapply nless_trans; eauto.
Qed.

Lemma sort_pairwise l : pairwise le (sort_Sort less l).
Proof. induction l as [|s l IH]; [done|]. by apply insert_pairwise. Qed.

(** Where the order tells the spans apart there is only one sorted permutation, so the
    choice of the algorithm does not matter. *)
Lemma sort_unique l l' :
  (forall a b, a ∈ l -> b ∈ l -> le a b -> le b a -> a = b) ->
  Permutation l l' -> pairwise le l' -> l' = sort_Sort less l.
Proof.
  intros Ha Hp Hl'. pose proof (sort_pairwise l) as Hl.
  assert (Permutation l' (sort_Sort less l)) as Hq by (by rewrite sort_Permutation).
  assert (forall a b, a ∈ l' -> b ∈ l' -> le a b -> le b a -> a = b) as Ha'.
  { intros a b. rewrite <- Hp. apply Ha. }
  clear Ha Hp. revert Hq Hl Hl' Ha'. generalize (sort_Sort less l). clear l.
  induction l' as [|a l' IH]; intros l Hq Hl Hl' Ha'; [by apply Permutation_nil_l in Hq|].
  destruct l as [|b l]; [by apply Permutation_nil_r in Hq|].
  cbn in Hl, Hl'. destruct Hl as [Hb Hl], Hl' as [Hal Hl'].
  assert (a = b) as <-.
  { assert (a ∈ b :: l) as Hin by (rewrite <- Hq; by left).
    assert (b ∈ a :: l') as Hin' by (rewrite Hq; by left).
    apply elem_of_cons in Hin as [?|Hin]; [done|]. apply elem_of_cons in Hin' as [?|Hin']; [done|].
    apply Ha'; [by left|by right|..].
    - by rewrite Forall_forall in Hal; auto.
    - by rewrite Forall_forall in Hb; auto. }
  f_equal. apply Permutation_cons_inv in Hq. apply IH; try done. intros ????. apply Ha'; by right.
Qed.
End Sort.

(** * Merging *)

(** The spans callers pass: valid, with real keys, and nil where there is no end key. *)
Definition good (s : Span) : Prop := valid s /\ bytes_ok (Key s) /\ EndKey s <> Some [].

(** No key in both. *)
Definition disjoint (a b : Span) : Prop := forall k, bytes_ok k -> in_span a k -> ~ in_span b k.


Lemma good_point s : good s -> is_point s = true -> EndKey s = None.
Proof.
  intros (_ & _ & Hne) Hp. unfold is_point, ek in Hp. by destruct (EndKey s) as [[|]|].
Qed.


Lemma disjoint_sym a b : disjoint a b -> disjoint b a.
Proof. intros H k ? ? ?. by apply (H k). Qed.










(** ** The loop *)




(** * Subtraction *)

Definition range (s : Span) : Prop := blt (Key s) (ek s).
Definition before (a b : Span) : Prop := ble (ek a) (Key b).
(** Spans with end keys, in order and disjoint. *)
Definition ordered (l : list Span) : Prop := Forall range l /\ pairwise before l.

Lemma in_range s k : range s -> in_span s k <-> ble (Key s) k /\ blt k (ek s).
Proof.
  unfold range, in_span, is_point. destruct (ek s) eqn:E; [|done].
  by intros ?%blt_nil_inv.
Qed.

Lemma ordered_app l1 l2 :
  ordered (l1 ++ l2) <-> ordered l1 /\ ordered l2 /\ Forall (fun a => Forall (before a) l2) l1.
Proof. unfold ordered. rewrite pairwise_app, Forall_app. tauto. Qed.

Lemma ordered_cons s l : ordered (s :: l) <-> range s /\ Forall (before s) l /\ ordered l.
Proof. unfold ordered. cbn. rewrite Forall_cons. tauto. Qed.

(** Replacing a span by a part of it keeps the order. *)
Lemma ordered_shrink l1 s s' l2 :
  range s' -> ble (Key s) (Key s') -> ble (ek s') (ek s) ->
  ordered (l1 ++ s :: l2) -> ordered (l1 ++ s' :: l2).
Proof.
  intros Hr H1 H2. rewrite !ordered_app, !ordered_cons. intros (? & (? & Ha & ?) & Hb). split_and!; try done.
  - eapply Forall_impl; [exact Ha|]. unfold before. intros; border.
  - eapply Forall_impl; [exact Hb|]. intros a [Hx Hy]%Forall_cons. constructor; [|done].
    unfold before in *. border.
Qed.

Lemma ordered_drop l1 s l2 : ordered (l1 ++ s :: l2) -> ordered (l1 ++ l2).
Proof.
  rewrite !ordered_app, ordered_cons. intros (? & (? & ? & ?) & Hb). split_and!; try done.
  eapply Forall_impl; [exact Hb|]. by intros a [_ ?]%Forall_cons.
Qed.

Lemma ordered_join l1 a s l2 :
  ek a = Key s ->
  ordered (l1 ++ a :: s :: l2) -> ordered (l1 ++ MkSpan (Key a) (EndKey s) :: l2).
Proof.
  intros Ea. rewrite !ordered_app, !ordered_cons. unfold range, before. cbn [Key].
  change (ek (MkSpan (Key a) (EndKey s))) with (ek s).
  intros (? & (? & [? ?]%Forall_cons & ? & ? & ?) & Hb). split_and!; try done.
  - border.
  - eapply Forall_impl; [exact Hb|]. intros x [Hx [_ ?]%Forall_cons]%Forall_cons. by constructor.
Qed.

(** [appendRemaining] adds the keys of a span that comes after the others. *)
Lemma appendRemaining_spec rem s l :
  ordered (rem ++ s :: l) ->
  ordered (appendRemaining rem s ++ l) /\
  forall k, in_spans (appendRemaining rem s) k <-> in_spans rem k \/ in_span s k.
Proof.
  intros Ho. unfold appendRemaining, in_spans.
  destruct rem as [|a rem _] using rev_ind; cbn.
  { split; [done|]. intros. rewrite Exists_cons, !Exists_nil. tauto. }
  rewrite rev_unit. destruct (beqb_spec (ek a) (Key s)) as [E|E]; cbn; rewrite ?rev_involutive.
  - rewrite <- app_assoc in Ho. cbn in Ho. pose proof Ho as Ho'.
    apply ordered_app in Ho' as (_ & Hc & _). rewrite !ordered_cons in Hc.
    destruct Hc as (Ra & _ & Rs & _). apply ordered_join in Ho; [|done].
    rewrite <- app_assoc. split; [done|]. intros k.
    assert (range (MkSpan (Key a) (EndKey s))) as Rj
      by (unfold range in *; change (ek (MkSpan _ _)) with (ek s); cbn; border).
    rewrite !Exists_app, !Exists_cons, !Exists_nil, !in_range by done.
    change (ek (MkSpan (Key a) (EndKey s))) with (ek s). cbn [Key]. unfold range in *.
    destruct (bltb_spec k (Key s)); intuition (try border).
  - rewrite <- !app_assoc in *. split; [done|]. intros k.
    rewrite !Exists_app, !Exists_cons, !Exists_nil. tauto.
Qed.

(** The invariant of the loop: what is kept and what is left are in order, and what is
    kept, with what is left minus the spans still to subtract, is the answer. *)
Definition subtract_ok (todo done rem r : list Span) : Prop :=
  ordered r /\
  forall k, in_spans r k <-> in_spans rem k \/ in_spans todo k /\ ~ in_spans done k.

Lemma in_spans_cons s l k : in_spans (s :: l) k <-> in_span s k \/ in_spans l k.
Proof. apply Exists_cons. Qed.

(** Spans that start at or after [x] have no key below [x]. *)
Lemma in_spans_after l x k :
  Forall range l -> Forall (fun b => ble x (Key b)) l -> in_spans l k -> ble x k.
Proof.
  intros Hr Hx Hin. unfold in_spans in Hin. rewrite Exists_exists in Hin.
  destruct Hin as (s & Hs & Hk). rewrite Forall_forall in *.
  apply in_range in Hk; [|auto]. specialize (Hx s Hs). cbn in Hx. spans.
Qed.

Lemma subtract_loop_cons t0 todo d0 done rem :
  subtract_loop (t0 :: todo) (d0 :: done) rem =
  if beqb (Key t0) (ek t0) then subtract_loop todo (d0 :: done) rem
  else if bleb (ek t0) (Key d0) then subtract_loop todo (d0 :: done) (appendRemaining rem t0)
  else if bleb (ek d0) (Key t0) then subtract_loop (t0 :: todo) done rem
  else
    let rem := if bleb (Key d0) (Key t0) then rem
               else appendRemaining rem (MkSpan (Key t0) (Some (Key d0))) in
    match bytes_compare (ek d0) (ek t0) with
    | Lt => subtract_loop (MkSpan (ek d0) (EndKey t0) :: todo) done rem
    | Gt => subtract_loop todo (d0 :: done) rem
    | Eq => subtract_loop todo done rem
    end.
Proof. reflexivity. Qed.

Lemma ordered_after s l k : ordered (s :: l) -> in_spans l k -> ble (ek s) k.
Proof. rewrite ordered_cons. intros (_ & Hb & Hr & _) Hin. by eapply in_spans_after. Qed.

(** The uncovered head of a todo span is kept. *)
Lemma keep_head rem t0 todo d0 rest :
  ordered (rem ++ t0 :: todo) -> blt (Key d0) (ek t0) -> ordered rest ->
  Forall (fun b => ble (Key d0) (Key b) /\ ble (Key t0) (Key b)) rest ->
  let rem' := if bleb (Key d0) (Key t0) then rem
              else appendRemaining rem (MkSpan (Key t0) (Some (Key d0))) in
  ordered (rem' ++ rest) /\
  forall k, in_spans rem' k <-> in_spans rem k \/ in_span t0 k /\ blt k (Key d0).
Proof.
  intros (Hrem & (Rt & _ & _)%ordered_cons & Hb)%ordered_app Hd Hrest Hr.
  assert (forall s, Key s = Key t0 -> range s -> Forall (before s) rest ->
    ordered (rem ++ s :: rest)) as Hord.
  { intros s Es Rs Hs. rewrite ordered_app, ordered_cons. split_and!; try done.
    eapply Forall_impl; [exact Hb|]. intros x [Hx _]%Forall_cons. unfold before in *.
    constructor; [by rewrite Es|]. eapply Forall_impl; [exact Hr|]. intros ? [? ?]. border. }
  cbv zeta. destruct (bleb_spec (Key d0) (Key t0)).
  - split.
    + rewrite ordered_app. split_and!; try done. eapply Forall_impl; [exact Hb|].
      intros x [Hx _]%Forall_cons. eapply Forall_impl; [exact Hr|]. unfold before in *. intros ? [? ?]. border.
    + intros k. rewrite in_range by done. intuition border.
  - set (s := MkSpan (Key t0) (Some (Key d0))).
    assert (range s) as Rs by (unfold range, s; rewrite ek_Some; cbn; border).
    destruct (appendRemaining_spec rem s rest) as [Ho Hin].
    { apply Hord; try done. eapply Forall_impl; [exact Hr|]. unfold before, s. rewrite ek_Some. by intros ? [? _]. }
    split; [done|]. intros k. rewrite Hin, !in_range by done. unfold s. rewrite ek_Some. cbn [Key].
    intuition border.
Qed.

Ltac sub_logic k t0 d0 Ht Hd :=
  rewrite ?in_spans_cons, ?in_range by done;
  pose proof (ordered_after _ _ k Ht); pose proof (ordered_after _ _ k Hd);
  unfold range in *;
  destruct (bltb_spec k (Key t0)), (bltb_spec k (ek t0)), (bltb_spec k (Key d0)), (bltb_spec k (ek d0));
  try (exfalso; border);
  repeat match goal with
  | H : ~ ble ?a ?b |- _ => assert (blt b a) by border; clear H
  | H : ~ blt ?a ?b |- _ => assert (ble b a) by border; clear H
  end; intuition border.

Lemma subtract_loop_spec todo : forall done rem,
  ordered (rem ++ todo) -> ordered done -> subtract_ok todo done rem (subtract_loop todo done rem).
Proof.
  induction todo as [|t0 todo IHt]; intros done.
  { intros rem Ho _. rewrite app_nil_r in Ho. split; [done|]. intros.
    unfold in_spans at 3. rewrite Exists_nil. cbn. tauto. }
  revert t0. induction done as [|d0 done IHd]; intros t0 rem Ho Hd.
  { split; [done|]. intros. change (subtract_loop (t0 :: todo) [] rem) with (rem ++ t0 :: todo).
    unfold in_spans at 1 4. rewrite Exists_app, Exists_nil. tauto. }
  pose proof Ho as (_ & Ht & _)%ordered_app. pose proof Ht as (Rt & Bt & Ot)%ordered_cons.
  pose proof Hd as (Rd & Bd & Od)%ordered_cons. rewrite subtract_loop_cons.
  destruct (beqb_spec (Key t0) (ek t0)); [unfold range in Rt; border|].
  destruct (bleb_spec (ek t0) (Key d0)).
  { destruct (appendRemaining_spec rem t0 todo Ho) as [Ho' Hin].
    destruct (IHt (d0 :: done) _ Ho' Hd) as [? Hr].
    split; [done|]. intros k. rewrite Hr, Hin. sub_logic k t0 d0 Ht Hd. }
  destruct (bleb_spec (ek d0) (Key t0)).
  { destruct (IHd t0 rem Ho Od) as [? Hr].
    split; [done|]. intros k. rewrite Hr. sub_logic k t0 d0 Ht Hd. }
  assert (blt (Key d0) (ek t0)) as Hlt by border.
  assert (Forall (fun b => ble (Key d0) (Key b) /\ ble (Key t0) (Key b)) todo) as Hall.
  { eapply Forall_impl; [exact Bt|]. unfold before, range in *. intros; split; border. }
  cbv zeta. destruct (bytes_compare_spec (ek d0) (ek t0)) as [E|E|E].
  - destruct (keep_head rem t0 todo d0 todo Ho Hlt Ot Hall) as [Ho' Hin].
    destruct (IHt done _ Ho' Od) as [? Hr].
    split; [done|]. intros k. rewrite Hr, Hin. sub_logic k t0 d0 Ht Hd.
  - set (t' := MkSpan (ek d0) (EndKey t0)). assert (ek t' = ek t0) as Et by done.
    assert (range t') as Rt' by (unfold range; by rewrite Et).
    destruct (keep_head rem t0 todo d0 (t' :: todo) Ho Hlt) as [Ho' Hin].
    { by rewrite ordered_cons. }
    { constructor; [|done]. unfold range, t' in *; cbn in *. split; border. }
    destruct (IHd t' _ Ho' Od) as [? Hr].
    split; [done|]. intros k. rewrite Hr, Hin, !in_spans_cons, (in_range t') by done.
    rewrite Et. change (Key t') with (ek d0). sub_logic k t0 d0 Ht Hd.
  - destruct (keep_head rem t0 todo d0 todo Ho Hlt Ot Hall) as [Ho' Hin].
    destruct (IHt (d0 :: done) _ Ho' Hd) as [? Hr].
    split; [done|]. intros k. rewrite Hr, Hin. sub_logic k t0 d0 Ht Hd.
Qed.

(** ** The orders the code sorts by *)




Lemma Spans_asym a b : Spans_Less a b = true -> Spans_Less b a = false.
Proof. unfold Spans_Less. bcases; spans; done. Qed.

Lemma Spans_trans a b c :
  Spans_Less b a = false -> Spans_Less c b = false -> Spans_Less c a = false.
Proof. unfold Spans_Less. bcases; try done; spans. Qed.

Lemma in_spans_Permutation l l' k : Permutation l l' -> in_spans l k <-> in_spans l' k.
Proof. intros Hp. unfold in_spans. by rewrite Hp. Qed.

Lemma ordered_sort l :
  Forall range l -> Forall (fun s => bytes_ok (Key s)) l -> pairwise disjoint l ->
  ordered (sort_Sort Spans_Less l).
Proof.
  intros Hr Hk Hd. pose proof (sort_Permutation Spans_Less l) as Hp.
  pose proof (sort_pairwise _ Spans_asym Spans_trans l) as Hs.
  rewrite <- Hp in Hr, Hk. apply (pairwise_Permutation _ _ _ disjoint_sym (symmetry Hp)) in Hd.
  split; [done|]. revert Hr Hk Hd Hs. generalize (sort_Sort Spans_Less l). clear.
  induction l as [|a l IH]; [done|]. intros [Ra Rl]%Forall_cons [Ka Kl]%Forall_cons [Da Dl] [Sa Sl].
  split; [|auto]. rewrite Forall_forall in *. intros b Hb.
  specialize (Rl b Hb). specialize (Kl b Hb). specialize (Da b Hb). specialize (Sa b Hb).
  cbn in *. unfold Spans_Less in Sa. destruct (bltb_spec (Key b) (Key a)); [done|].
  unfold before. destruct (bleb_spec (ek a) (Key b)); [done|]. exfalso.
  apply (Da (Key b)); [done|apply in_range; [done|split; border]|].
  unfold range in *. apply in_range; [done|split; border].
Qed.

Lemma ordered_disjoint l : ordered l -> pairwise disjoint l.
Proof.
  intros [Hr Hp]. revert Hp. apply pairwise_mono. rewrite Forall_forall in Hr.
  intros a b Ha Hb Hab k _. rewrite !in_range by auto. unfold before in Hab. spans.
Qed.

(** * Properties *)

(** Overlap and intersection.  Two spans overlap exactly when they are valid and
    share a key, and the intersection of overlapping spans is a valid span that holds
    exactly the keys they share. *)
Theorem Overlaps_Intersect s o :
  (Span_Overlaps s o = true <-> valid s /\ valid o /\ exists k, in_span s k /\ in_span o k) /\
  (Span_Overlaps s o = true -> valid (Span_Intersect s o) /\
     forall k, in_span (Span_Intersect s o) k <-> in_span s k /\ in_span o k) /\
  (Span_Overlaps s o = false -> valid (Span_Intersect s o) -> False).
Proof.
  split_and!; [apply Overlaps_spec| |].
  - intros Ho. split; [by apply (Intersect_spec s o [])|]. intros k. by apply Intersect_spec.
  - intros Ho. unfold Span_Intersect. by rewrite Ho.
Qed.

(** Containment and combination.  A span contains another exactly when it holds all
    its keys (a single key is never taken to contain a span with an end key), and the
    combination of two valid spans holds the keys between any two of their keys. *)
Theorem Contains_Combine s o k :
  valid s -> valid o -> bytes_ok k ->
  (Span_Contains s o = true <->
     (forall x, in_span o x -> in_span s x) /\ (is_point s = true -> is_point o = true)) /\
  (in_span (Span_Combine s o) k <->
     (exists a, (in_span s a \/ in_span o a) /\ ble a k) /\
     (exists b, (in_span s b \/ in_span o b) /\ ble k b)).
Proof. intros Vs Vo Hk. split; [rewrite Contains_spec; tauto|by apply Combine_spec]. Qed.

Lemma Contains_Combine_witness :
  valid (MkSpan [1] (Some [3])) /\ in_span (Span_Combine (MkSpan [1] (Some [3])) (MkSpan [7] None)) [5].
Proof.
  split; [reflexivity|].
  apply (Contains_Combine (MkSpan [1] (Some [3])) (MkSpan [7] None) [5]);
    [reflexivity|reflexivity|repeat constructor; lia|].
  split; [exists [1]|exists [7]]; cbn; (split; [|done]); [left|right]; by vm_compute.
Defined.



(** [SubtractSpans] on disjoint spans with end keys returns disjoint spans that hold
    exactly the keys of the minuend that are not in the subtrahend. *)
Theorem SubtractSpans_correct todo done :
  Forall range todo -> Forall range done ->
  Forall (fun s => bytes_ok (Key s)) todo -> Forall (fun s => bytes_ok (Key s)) done ->
  pairwise disjoint todo -> pairwise disjoint done ->
  (forall k, in_spans (SubtractSpans todo done) k <-> in_spans todo k /\ ~ in_spans done k) /\
  Forall range (SubtractSpans todo done) /\ pairwise disjoint (SubtractSpans todo done).
Proof.
  intros Rt Rd Kt Kd Dt Dd. unfold SubtractSpans. destruct done as [|d0 done].
  { split_and!; try done. intros. unfold in_spans at 3. rewrite Exists_nil. tauto. }
  destruct (subtract_loop_spec (sort_Sort Spans_Less todo) (sort_Sort Spans_Less (d0 :: done)) [])
    as [Ho Hin]; [by apply ordered_sort..|].
  split_and!; [|apply Ho|by apply ordered_disjoint].
  intros k. rewrite Hin. rewrite !(in_spans_Permutation _ _ k (sort_Permutation _ _)).
  unfold in_spans at 1. rewrite Exists_nil. tauto.
Qed.

Lemma SubtractSpans_correct_witness :
  SubtractSpans [MkSpan [0] (Some [10])] [MkSpan [4] (Some [5])] =
    [MkSpan [0] (Some [4]); MkSpan [5] (Some [10])] /\
  in_spans (SubtractSpans [MkSpan [0] (Some [10])] [MkSpan [4] (Some [5])]) [7].
Proof.
  split; [reflexivity|].
  refine (proj2 (proj1 (SubtractSpans_correct [MkSpan [0] (Some [10])] [MkSpan [4] (Some [5])] _ _ _ _ _ _) [7]) _);
    try (repeat constructor; lia).
  split; [left; by vm_compute|]. intros H. apply Exists_cons in H as [H|H]; [|by apply Exists_nil in H].
  vm_compute in H. destruct H as [_ H]. discriminate H.
Defined.

(** The intersection of resolved spans holds exactly the common keys, and is refused
    exactly when there is none. *)
Theorem RSpan_Intersect_correct rs o k :
  match RSpan_Intersect rs o with
  | Ok i => RSpan_ContainsKey i k = RSpan_ContainsKey rs k && RSpan_ContainsKey o k
  | Err _ => RSpan_ContainsKey rs k && RSpan_ContainsKey o k = false
  | Panic _ => False
  end.
Proof. apply RSpan_Intersect_spec. Qed.

(** [MergeSpans] loses a single-key span whose end key is empty but not nil, when the
    span before it ends there: the test is on nil where the others are on the length. *)
Lemma MergeSpans_empty_end_key :
  MergeSpans [MkSpan [1] (Some [2]); MkSpan [2] (Some [])] = ([MkSpan [1] (Some [2])], false) /\
  MergeSpans [MkSpan [1] (Some [2]); MkSpan [2] None] = ([MkSpan [1] (Some [2; 0])], true).
Proof. done. Qed.
