(* ===== verification/KeyEnc.v ===== *)
(** Key encodings of the remaining column types (src/pkg/util/encoding/encoding.go,
    float.go, decimal.go; src/pkg/util/bitarray/bitarray.go).

    The markers that open every encoded value, the type and the length of the value at
    the front of a key, NULLs, booleans, floats, times, times with a zone, bit arrays and
    array keys. *)
From S2P Require Import Prelude Bytes IntEnc BytesEnc.

(** * Markers *)

Abbreviation encodedNull := 0x00.
Abbreviation encodedNotNull := 0x01.
Abbreviation floatNaN := 2.
Abbreviation floatNeg := 3.
Abbreviation floatZero := 4.
Abbreviation floatPos := 5.
Abbreviation floatNaNDesc := 6.
Abbreviation timeMarker := 0x14.
Abbreviation durationBigNegMarker := 0x15.
Abbreviation durationMarker := 0x16.
Abbreviation durationBigPosMarker := 0x17.
Abbreviation decimalNaN := 24.
Abbreviation decimalNegativeInfinity := 25.
Abbreviation decimalNegLarge := 26.
Abbreviation decimalNegMedium := 37.
Abbreviation decimalNegSmall := 38.
Abbreviation decimalZero := 39.
Abbreviation decimalPosSmall := 40.
Abbreviation decimalPosMedium := 41.
Abbreviation decimalPosLarge := 52.
Abbreviation decimalInfinity := 53.
Abbreviation decimalNaNDesc := 54.
Abbreviation decimalTerminator := 0x00.
Abbreviation jsonInvertedIndex := 55.
Abbreviation jsonEmptyArray := 56.
Abbreviation jsonEmptyObject := 57.
Abbreviation bitArrayMarker := 58.
Abbreviation bitArrayDescMarker := 59.
Abbreviation bitArrayDataTerminator := 0x00.
Abbreviation bitArrayDataDescTerminator := 0xff.
Abbreviation timeTZMarker := 60.
Abbreviation geoMarker := 61.
Abbreviation geoDescMarker := 62.
Abbreviation arrayKeyMarker := 63.
Abbreviation arrayKeyDescendingMarker := 64.
Abbreviation box2DMarker := 65.
Abbreviation geoInvertedIndexMarker := 66.
Abbreviation emptyArray := 67.
Abbreviation voidMarker := 68.
Abbreviation arrayKeyTerminator := 0x00.
Abbreviation arrayKeyDescendingTerminator := 0xff.
Abbreviation ascendingNullWithinArrayKey := 0x01.
Abbreviation descendingNullWithinArrayKey := 0xfe.
Abbreviation encodedNotNullDesc := 0xfe.
Abbreviation encodedNullDesc := 0xff.

Inductive Direction := Ascending | Descending.

(** * Types *)

Inductive Typ :=
| Unknown | Null | NotNull | Int | Float | Decimal | Bytes | BytesDesc | Time | Duration
| True_ | False_ | UUID | Array | IPAddr | JSON | Tuple | BitArray_ | BitArrayDesc | TimeTZ_
| Geo | GeoDesc | ArrayKeyAsc | ArrayKeyDesc | Box2D | Void | TSQuery | TSVector.

#[export] Instance Typ_eq_dec : EqDecision Typ.
Proof. solve_decision. Defined.

Definition typ_code (t : Typ) : Z :=
  match t with
  | Unknown => 0 | Null => 1 | NotNull => 2 | Int => 3 | Float => 4 | Decimal => 5
  | Bytes => 6 | BytesDesc => 7 | Time => 8 | Duration => 9 | True_ => 10 | False_ => 11
  | UUID => 12 | Array => 13 | IPAddr => 14 | JSON => 15 | Tuple => 16 | BitArray_ => 17
  | BitArrayDesc => 18 | TimeTZ_ => 19 | Geo => 20 | GeoDesc => 21 | ArrayKeyAsc => 22
  | ArrayKeyDesc => 23 | Box2D => 24 | Void => 25 | TSQuery => 26 | TSVector => 27
  end.

Definition slowPeekType (b : bytes) : Typ :=
  match b with
  | [] => Unknown
  | m :: _ =>
      if (m =? encodedNull) || (m =? encodedNullDesc) then Null
      else if (m =? encodedNotNull) || (m =? encodedNotNullDesc) then NotNull
      else if m =? arrayKeyMarker then ArrayKeyAsc
      else if m =? arrayKeyDescendingMarker then ArrayKeyDesc
      else if m =? bytesMarker then Bytes
      else if m =? bytesDescMarker then BytesDesc
      else if m =? bitArrayMarker then BitArray_
      else if m =? bitArrayDescMarker then BitArrayDesc
      else if m =? timeMarker then Time
      else if m =? timeTZMarker then TimeTZ_
      else if m =? geoMarker then Geo
      else if m =? box2DMarker then Box2D
      else if m =? geoDescMarker then GeoDesc
      else if m =? typ_code Array then Array
      else if m =? typ_code True_ then True_
      else if m =? typ_code False_ then False_
      else if (m =? durationBigNegMarker) || (m =? durationMarker) || (m =? durationBigPosMarker)
      then Duration
      else if (IntMin <=? m) && (m <=? IntMax) then Int
      else if (floatNaN <=? m) && (m <=? floatNaNDesc) then Float
      else if (decimalNaN <=? m) && (m <=? decimalNaNDesc) then Decimal
      else if m =? voidMarker then Void
      else Unknown
  end.

(** The table of 256 types. *)
Definition typMap : list Typ := map (fun i => slowPeekType [Z.of_nat i]) (seq 0 256).

Definition PeekType (b : bytes) : Typ :=
  match b with
  | [] => Unknown
  | m :: _ => nth (Z.to_nat m) typMap Unknown
  end.

Lemma PeekType_slow m r : byte_ok m -> PeekType (m :: r) = slowPeekType (m :: r).
Proof.
  intros Hm. unfold byte_ok in Hm. cbn [PeekType]. unfold typMap.
  etrans; [apply (map_nth (fun i => slowPeekType [Z.of_nat i]) _ 300%nat)|].
  rewrite seq_nth by lia. cbn [Nat.add]. rewrite Z2Nat.id by lia. reflexivity.
Qed.

(** * NULLs, booleans and void *)

Definition EncodeNullAscending (b : bytes) : bytes := b ++ [encodedNull].
Definition EncodeNullDescending (b : bytes) : bytes := b ++ [encodedNullDesc].
Definition EncodeNotNullAscending (b : bytes) : bytes := b ++ [encodedNotNull].
Definition EncodeNotNullDescending (b : bytes) : bytes := b ++ [encodedNotNullDesc].
Definition EncodeTrueAscending (b : bytes) : bytes := b ++ [typ_code True_].
Definition EncodeFalseAscending (b : bytes) : bytes := b ++ [typ_code False_].
Definition EncodeVoidAscendingOrDescending (b : bytes) : bytes := b ++ [voidMarker].
Definition EncodeJSONAscending (b : bytes) : bytes := b ++ [jsonInvertedIndex].
Definition EncodeArrayAscending (b : bytes) : bytes := b ++ [escape; escapedJSONArray].
Definition EncodeJSONObjectSpanStartAscending (b : bytes) : bytes := b ++ [escape; escaped00].

Definition DecodeIfNull (b : bytes) : bytes * bool :=
  if decide (PeekType b = Null) then (drop 1 b, true) else (b, false).
Definition DecodeIfNotNull (b : bytes) : bytes * bool :=
  if decide (PeekType b = NotNull) then (drop 1 b, true) else (b, false).
Definition DecodeVoidAscendingOrDescending (b : bytes) : res bytes :=
  if decide (PeekType b = Void) then Ok (drop 1 b) else Err "did not find Void marker".

(** * Times *)

(** Seconds since the epoch and the nanoseconds of the second. *)
Record Time_ := MkTime { t_unix : Z; t_nanos : Z }.

(** [time.Unix] normalises the nanoseconds. *)
Definition time_Unix (sec nsec : Z) : Time_ :=
  if (nsec <? 0) || (1000000000 <=? nsec) then
    let n := Z.quot nsec 1000000000 in
    let sec := s64 (sec + n) in
    let nsec := nsec - n * 1000000000 in
    if nsec <? 0 then MkTime (s64 (sec - 1)) (nsec + 1000000000) else MkTime sec nsec
  else MkTime sec nsec.

Definition encodeTime (b : bytes) (unix nanos : Z) : bytes :=
  let b := b ++ [timeMarker] in
  let b := EncodeVarintAscending b unix in
  EncodeVarintAscending b nanos.

Definition EncodeTimeAscending (b : bytes) (t : Time_) : bytes := encodeTime b (t_unix t) (t_nanos t).
Definition EncodeTimeDescending (b : bytes) (t : Time_) : bytes :=
  encodeTime b (Z.lnot (t_unix t)) (Z.lnot (t_nanos t)).

Definition decodeTime (b : bytes) : res (bytes * (Z * Z)) :=
  if decide (PeekType b = Time) then
    let b := drop 1 b in
    '(b, sec) ← DecodeVarintAscending b;
    '(b, nsec) ← DecodeVarintAscending b;
    Ok (b, (sec, nsec))
  else Err "did not find marker".

Definition DecodeTimeAscending (b : bytes) : res (bytes * Time_) :=
  '(b, (sec, nsec)) ← decodeTime b; Ok (b, time_Unix sec nsec).
Definition DecodeTimeDescending (b : bytes) : res (bytes * Time_) :=
  '(b, (sec, nsec)) ← decodeTime b; Ok (b, time_Unix (Z.lnot sec) (Z.lnot nsec)).

(** Microseconds of the day and the offset of the zone in seconds. *)
Record TimeTZ := MkTimeTZ { TimeOfDay : Z; OffsetSecs : Z }.
Abbreviation offsetSecsToMicros := 1000000.

Definition encodeTimeTZ (b : bytes) (unixMicros offsetSecs : Z) : bytes :=
  let b := b ++ [timeTZMarker] in
  let b := EncodeVarintAscending b unixMicros in
  EncodeVarintAscending b offsetSecs.

Definition EncodeTimeTZAscending (b : bytes) (t : TimeTZ) : bytes :=
  encodeTimeTZ b (s64 (TimeOfDay t + OffsetSecs t * offsetSecsToMicros)) (OffsetSecs t).
Definition EncodeTimeTZDescending (b : bytes) (t : TimeTZ) : bytes :=
  encodeTimeTZ b (Z.lnot (s64 (TimeOfDay t + OffsetSecs t * offsetSecsToMicros)))
    (Z.lnot (OffsetSecs t)).

Definition decodeTimeTZ (b : bytes) : res (bytes * (Z * Z)) :=
  if decide (PeekType b = TimeTZ_) then
    let b := drop 1 b in
    '(b, unixMicros) ← DecodeVarintAscending b;
    '(b, offsetSecs) ← DecodeVarintAscending b;
    Ok (b, (unixMicros, s32 offsetSecs))
  else Err "did not find marker".

Definition DecodeTimeTZAscending (b : bytes) : res (bytes * TimeTZ) :=
  '(b, (unixMicros, offsetSecs)) ← decodeTimeTZ b;
  Ok (b, MkTimeTZ (s64 (unixMicros - offsetSecs * offsetSecsToMicros)) offsetSecs).
Definition DecodeTimeTZDescending (b : bytes) : res (bytes * TimeTZ) :=
  '(b, (unixMicros, offsetSecs)) ← decodeTimeTZ b;
  Ok (b, MkTimeTZ (s64 (Z.lnot unixMicros - Z.lnot offsetSecs * offsetSecsToMicros))
           (Z.lnot offsetSecs)).

(** * Floats

    A float64 is its IEEE 754 bit pattern. *)

Abbreviation signBit := 0x8000000000000000.
Definition IsNaN (f : Z) : bool := 0x7ff0000000000000 <? f mod signBit.
(** [f == 0], for both zeros. *)
Definition float_is_zero (f : Z) : bool := f mod signBit =? 0.
(** [-f]. *)
Definition float_neg (f : Z) : Z := (f + signBit) mod 2 ^ 64.
(** [math.NaN()]. *)
Definition NaN : Z := 0x7ff8000000000001.

Definition EncodeFloatAscending (b : bytes) (f : Z) : bytes :=
  if IsNaN f then b ++ [floatNaN]
  else if float_is_zero f then b ++ [floatZero]
  else
    let u := f in
    if negb (Z.land u (1 ≪ 63) =? 0)
    then EncodeUint64Ascending (b ++ [floatNeg]) (u64 (Z.lnot u))
    else EncodeUint64Ascending (b ++ [floatPos]) u.

Definition EncodeFloatDescending (b : bytes) (f : Z) : bytes :=
  if IsNaN f then b ++ [floatNaNDesc] else EncodeFloatAscending b (float_neg f).

Definition DecodeFloatAscending (buf : bytes) : res (bytes * Z) :=
  if decide (PeekType buf = Float) then
    match buf with
    | [] => Panic "index out of range"
    | m :: buf =>
        if (m =? floatNaN) || (m =? floatNaNDesc) then Ok (buf, NaN)
        else if m =? floatNeg then '(b, u) ← DecodeUint64Ascending buf; Ok (b, u64 (Z.lnot u))
        else if m =? floatZero then Ok (buf, 0)
        else if m =? floatPos then DecodeUint64Ascending buf
        else Err "unknown prefix of the encoded byte slice"
    end
  else Err "did not find marker".

Definition DecodeFloatDescending (buf : bytes) : res (bytes * Z) :=
  '(b, r) ← DecodeFloatAscending buf;
  Ok (b, if negb (float_is_zero r) && negb (IsNaN r) then float_neg r else r).

(** * Bit arrays *)

Record BitArray := MkBitArray { words : list Z; lastBitsUsed : Z }.
Abbreviation numBitsPerWord := 64.

Fixpoint compare_words (l r : list Z) : comparison :=
  match l, r with
  | lw :: l, rw :: r => if lw <? rw then Lt else if rw <? lw then Gt else compare_words l r
  | [], _ :: _ => Lt
  | _ :: _, [] => Gt
  | [], [] => Eq
  end.

(** -1, 0 and 1 are [Lt], [Eq] and [Gt]. *)
Definition BitArray_Compare (lhs rhs : BitArray) : comparison :=
  match compare_words (words lhs) (words rhs) with
  | Eq => if lastBitsUsed lhs <? lastBitsUsed rhs then Lt
          else if lastBitsUsed rhs <? lastBitsUsed lhs then Gt else Eq
  | c => c
  end.

Definition EncodingParts (d : BitArray) : list Z * Z := (words d, lastBitsUsed d).

Definition FromEncodingParts (ws : list Z) (last : Z) : res BitArray :=
  if numBitsPerWord <? last then Err "FromEncodingParts: lastBitsUsed must not exceed 64"
  else Ok (MkBitArray ws (u8 last)).

Definition EncodeBitArrayAscending (b : bytes) (d : BitArray) : bytes :=
  let b := b ++ [bitArrayMarker] in
  let '(ws, last) := EncodingParts d in
  let b := foldl EncodeUvarintAscending b ws in
  let b := b ++ [bitArrayDataTerminator] in
  EncodeUvarintAscending b last.

Definition EncodeBitArrayDescending (b : bytes) (d : BitArray) : bytes :=
  let b := b ++ [bitArrayDescMarker] in
  let '(ws, last) := EncodingParts d in
  let b := foldl EncodeUvarintDescending b ws in
  let b := b ++ [bitArrayDataDescTerminator] in
  EncodeUvarintDescending b last.

(** The number of words and their size in bytes. *)
Fixpoint bit_words_loop (fuel : nat) (bSearch : bytes) (term numWords sz : Z) : res (Z * Z) :=
  match fuel with
  | O => Panic "out of fuel"
  | S fuel =>
      match bSearch with
      | [] => Err "slice too short for bit array"
      | x :: _ =>
          if x =? term then Ok (numWords, sz)
          else
            vLen ← getVarintLen bSearch;
            bSearch ← slice_from bSearch vLen;
            bit_words_loop fuel bSearch term (numWords + 1) (sz + vLen)
      end
  end.
Definition getBitArrayWordsLen (b : bytes) (term : Z) : res (Z * Z) :=
  bit_words_loop (S (length b)) b term 0 0.

Fixpoint decode_words (dec : bytes -> res (bytes * Z)) (n : nat) (b : bytes) : res (bytes * list Z) :=
  match n with
  | O => Ok (b, [])
  | S n => '(b, w) ← dec b; '(b, ws) ← decode_words dec n b; Ok (b, w :: ws)
  end.

Definition decode_bit_array (typ : Typ) (term : Z) (dec : bytes -> res (bytes * Z)) (b : bytes)
    : res (bytes * BitArray) :=
  if decide (PeekType b = typ) then
    let b := drop 1 b in
    '(numWords, _) ← getBitArrayWordsLen b term;
    '(b, ws) ← decode_words dec (Z.to_nat numWords) b;
    match b with
    | x :: b =>
        if x =? term then
          '(b, lastVal) ← dec b;
          ba ← FromEncodingParts ws lastVal;
          Ok (b, ba)
        else Err "cannot find bit array data terminator"
    | [] => Err "cannot find bit array data terminator"
    end
  else Err "did not find marker".

Definition DecodeBitArrayAscending (b : bytes) : res (bytes * BitArray) :=
  decode_bit_array BitArray_ bitArrayDataTerminator DecodeUvarintAscending b.
Definition DecodeBitArrayDescending (b : bytes) : res (bytes * BitArray) :=
  decode_bit_array BitArrayDesc bitArrayDataDescTerminator DecodeUvarintDescending b.

(** * Array keys *)

Definition EncodeArrayKeyMarker (buf : bytes) (dir : Direction) : bytes :=
  match dir with
  | Ascending => buf ++ [arrayKeyMarker]
  | Descending => buf ++ [arrayKeyDescendingMarker]
  end.
Definition EncodeArrayKeyTerminator (buf : bytes) (dir : Direction) : bytes :=
  match dir with
  | Ascending => buf ++ [arrayKeyTerminator]
  | Descending => buf ++ [arrayKeyDescendingTerminator]
  end.
Definition EncodeNullWithinArrayKey (buf : bytes) (dir : Direction) : bytes :=
  match dir with
  | Ascending => buf ++ [ascendingNullWithinArrayKey]
  | Descending => buf ++ [descendingNullWithinArrayKey]
  end.

Definition IsNextByteArrayEncodedNull (buf : bytes) (dir : Direction) : res bool :=
  let expected := match dir with
                  | Ascending => ascendingNullWithinArrayKey
                  | Descending => descendingNullWithinArrayKey
                  end in
  x ← go_index buf 0; Ok (x =? expected).

Definition ValidateAndConsumeArrayKeyMarker (buf : bytes) (dir : Direction) : res bytes :=
  let expected := match dir with Ascending => ArrayKeyAsc | Descending => ArrayKeyDesc end in
  if decide (PeekType buf = expected) then Ok (drop 1 buf) else Err "invalid type found".

Definition IsArrayKeyDone (buf : bytes) (dir : Direction) : res bool :=
  let expected := match dir with
                  | Ascending => arrayKeyTerminator
                  | Descending => arrayKeyDescendingTerminator
                  end in
  x ← go_index buf 0; Ok (x =? expected).

(** * The length of an encoded value *)

Fixpoint multi_varint_loop (n : nat) (b : bytes) (p : Z) : res Z :=
  match n with
  | O => Ok p
  | S n =>
      if p <? Z.of_nat (length b) then
        rest ← slice_from b p;
        l ← getVarintLen rest;
        multi_varint_loop n b (p + l)
      else Ok p
  end.
Definition GetMultiVarintLen (b : bytes) (num : nat) : res Z := multi_varint_loop num b 1.

Fixpoint box2d_loop (n : nat) (curr : bytes) (len : Z) : res Z :=
  match n with
  | O => Ok len
  | S n =>
      match curr with
      | [] => Err "slice too short for box2d"
      | x :: rest =>
          if (x =? floatNaN) || (x =? floatNaNDesc) || (x =? floatZero)
          then box2d_loop n rest (len + 1)
          else if (x =? floatNeg) || (x =? floatPos)
          then curr ← slice_from curr 9; box2d_loop n curr (len + 9)
          else Err "unexpected marker for box2d"
      end
  end.
Definition peekBox2DLength (b : bytes) : res Z := box2d_loop 4 b 0.

Definition findDecimalTerminator (buf : bytes) : res Z :=
  match IndexByte buf decimalTerminator with
  | Some idx => Ok (Z.of_nat idx)
  | None => Err "did not find terminator"
  end.

Definition getDecimalLen (buf : bytes) : res Z :=
  m ← go_index buf 0;
  if (m <? decimalNaN) || (decimalNaNDesc <? m) then Panic "invalid tag"
  else if (m =? decimalNaN) || (m =? decimalNegativeInfinity) || (m =? decimalNaNDesc)
          || (m =? decimalInfinity) || (m =? decimalZero) then Ok 1
  else
    p ← (if (m =? decimalNegLarge) || (m =? decimalNegSmall) || (m =? decimalPosLarge)
            || (m =? decimalPosSmall)
         then rest ← slice_from buf 1; l ← getVarintLen rest; Ok (1 + l)
         else Ok 1);
    rest ← slice_from buf p;
    idx ← findDecimalTerminator rest;
    Ok (p + idx + 1).

Fixpoint inverted_loop (fuel : nat) (b : bytes) (skipped : Z) : res Z :=
  match fuel with
  | O => Panic "out of fuel"
  | S fuel =>
      rest ← slice_from b skipped;
      match IndexByte rest escape with
      | None => Err "malformed inverted index key in buffer"
      | Some i =>
          let skipped := skipped + (Z.of_nat i + 2) in
          x ← go_index b (skipped - 1);
          if (x =? escapedTerm) || (x =? jsonEmptyObject) || (x =? jsonEmptyArray) then Ok skipped
          else inverted_loop fuel b skipped
      end
  end.
Definition getInvertedIndexKeyLength (b : bytes) : res Z := inverted_loop (S (length b)) b 0.

Definition getGeoInvertedIndexKeyLength (buf : bytes) : res Z :=
  if Z.of_nat (length buf) <? 19 then Err "buf length too small"
  else
    rest ← slice_from buf 1;
    cellLen ← getVarintLen rest;
    encodingKind ← go_index buf (1 + cellLen);
    let floatsLen := if encodingKind =? 1 then 16 else 32 in
    Ok (1 + cellLen + 1 + floatsLen).

Definition ascendingGeoEscapes : escapes :=
  Escapes escape escapedTerm escaped00 escapedFF geoMarker.
Definition descendingGeoEscapes : escapes :=
  Escapes (notb escape) (notb escapedTerm) (notb escaped00) (notb escapedFF) geoDescMarker.

(** The loop of [getArrayLength]; [peek] is [PeekLength]. *)
Fixpoint array_length_loop (peek : bytes -> res Z) (fuel : nat) (buf : bytes) (dir : Direction)
    (result : Z) : res Z :=
  match fuel with
  | O => Panic "out of fuel"
  | S fuel =>
      match buf with
      | [] => Err "invalid array encoding (unterminated)"
      | _ =>
          done ← IsArrayKeyDone buf dir;
          if (done : bool) then Ok (result + 1)
          else
            next ← peek buf;
            buf ← slice_from buf next;
            array_length_loop peek fuel buf dir (result + next)
      end
  end.

(** [PeekLength], [getArrayLength] and [getJSONInvertedIndexKeyLength] call each other
    on shorter and shorter buffers. *)
Fixpoint peek_length (fuel : nat) (b : bytes) : res Z :=
  match fuel with
  | O => Panic "out of fuel"
  | S fuel =>
      match b with
      | [] => Err "empty slice"
      | m :: _ =>
          if (m =? encodedNull) || (m =? encodedNullDesc) || (m =? encodedNotNull)
             || (m =? encodedNotNullDesc) || (m =? floatNaN) || (m =? floatNaNDesc)
             || (m =? floatZero) || (m =? decimalZero) || (m =? typ_code True_)
             || (m =? typ_code False_) || (m =? emptyArray) || (m =? voidMarker)
          then Ok 1
          else if (m =? bitArrayMarker) || (m =? bitArrayDescMarker) then
            let terminator := if m =? bitArrayDescMarker
                              then bitArrayDataDescTerminator else bitArrayDataTerminator in
            rest ← slice_from b 1;
            '(_, n) ← getBitArrayWordsLen rest terminator;
            rest ← slice_from b (n + 2);
            l ← getVarintLen rest;
            Ok (1 + n + l + 1)
          else if (m =? arrayKeyMarker) || (m =? arrayKeyDescendingMarker) then
            let dir := if m =? arrayKeyDescendingMarker then Descending else Ascending in
            rest ← slice_from b 1;
            len ← array_length_loop (peek_length fuel) (length b) rest dir 0;
            Ok (1 + len)
          else if m =? bytesMarker then getBytesLength b ascendingBytesEscapes
          else if m =? box2DMarker then
            rest ← slice_from b 1;
            len ← peekBox2DLength rest;
            Ok (1 + len)
          else if m =? geoInvertedIndexMarker then getGeoInvertedIndexKeyLength b
          else if m =? geoMarker then
            if Z.of_nat (length b) <? 8 then Err "slice too short for spatial object"
            else rest ← slice_from b 8; ret ← getBytesLength rest ascendingGeoEscapes; Ok (8 + ret)
          else if m =? jsonInvertedIndex then
            len ← getInvertedIndexKeyLength b;
            x ← go_index b len;
            if (x =? jsonEmptyArray) || (x =? jsonEmptyObject) then Ok (len + 1)
            else
              rest ← slice_from b len;
              valLen ← peek_length fuel rest;
              Ok (len + valLen)
          else if m =? bytesDescMarker then getBytesLength b descendingBytesEscapes
          else if m =? geoDescMarker then
            if Z.of_nat (length b) <? 8 then Err "slice too short for spatial object"
            else rest ← slice_from b 8; ret ← getBytesLength rest descendingGeoEscapes; Ok (8 + ret)
          else if (m =? timeMarker) || (m =? timeTZMarker) then GetMultiVarintLen b 2
          else if (m =? durationBigNegMarker) || (m =? durationMarker) || (m =? durationBigPosMarker)
          then GetMultiVarintLen b 3
          else if (m =? floatNeg) || (m =? floatPos) then
            if Z.of_nat (length b) <? 9 then Err "slice too short for float" else Ok 9
          else if (IntMin <=? m) && (m <=? IntMax) then getVarintLen b
          else if (decimalNaN <=? m) && (m <=? decimalNaNDesc) then getDecimalLen b
          else Err "unknown tag"
      end
  end.

Definition PeekLength (b : bytes) : res Z := peek_length (S (length b)) b.
Definition getArrayLength (buf : bytes) (dir : Direction) : res Z :=
  array_length_loop PeekLength (S (length buf)) buf dir 0.

(** * Order and round trips *)

Lemma PeekType_marker m r t : slowPeekType [m] = t -> byte_ok m -> PeekType (m :: r) = t.
Proof. intros <- Hm. by rewrite PeekType_slow. Qed.

Ltac marker := apply PeekType_marker; [reflexivity|unfold byte_ok; lia].
(** A decoder of a marker and two varints is the marker and the pair's decoder. *)
Ltac decode_two b :=
  rewrite decide_True by marker; cbn [drop]; rewrite drop_0;
  destruct (DecodeVarintAscending b) as [[? ?]| |]; cbn; [|done..];
  match goal with |- context [DecodeVarintAscending ?b1] =>
    by destruct (DecodeVarintAscending b1) as [[? ?]| |] end.

(** ** Times *)

Definition time_ok (t : Time_) : Prop := isS 64 (t_unix t) /\ 0 <= t_nanos t < 1000000000.
Definition time_cmp (x y : Time_) : comparison :=
  lexc (t_unix x ?= t_unix y) (t_nanos x ?= t_nanos y).

Abbreviation varint2 := (pair_codec (encA := EncodeVarintAscending) (encB := EncodeVarintAscending)).

#[export] Instance time_codec :
  OrderedCodec time_ok time_cmp EncodeTimeAscending DecodeTimeAscending.
Proof.
  apply (marked_codec (OrderedCodec0 := varint2) timeMarker time_ok time_cmp
    (fun t => (t_unix t, t_nanos t)) (fun p => time_Unix p.1 p.2)).
  - intros t [? ?]. split; [done|]. unfold isS. cbn. lia.
  - intros [u n] [? Hn]. cbn [t_unix t_nanos fst snd] in *. unfold time_Unix.
    destruct (Z.ltb_spec n 0), (Z.leb_spec 1000000000 n); try lia. done.
  - done.
  - done.
  - intros b. unfold DecodeTimeAscending, decodeTime, pair_dec.
    by decode_two b.
Qed.

(** The descending encodings complement both parts. *)
Lemma lnot_s64 x : isS 64 x -> isS 64 (Z.lnot x).
Proof. unfold isS, Z.lnot. lia. Qed.

Lemma lnot_compare x y : (Z.lnot x ?= Z.lnot y) = CompOpp (x ?= y).
Proof.
  unfold Z.lnot. destruct (Z.compare_spec x y); cbn; [subst; apply Z.compare_refl|..];
    [apply Z.compare_gt_iff|apply Z.compare_lt_iff]; lia.
Qed.

Lemma CompOpp_lexc c d : CompOpp (lexc c d) = lexc (CompOpp c) (CompOpp d).
Proof. by destruct c. Qed.

#[export] Instance time_desc_codec :
  OrderedCodec time_ok (fun x y => CompOpp (time_cmp x y)) EncodeTimeDescending DecodeTimeDescending.
Proof.
  apply (marked_codec (OrderedCodec0 := varint2) timeMarker time_ok _
    (fun t => (Z.lnot (t_unix t), Z.lnot (t_nanos t)))
    (fun p => time_Unix (Z.lnot p.1) (Z.lnot p.2))).
  - intros t [? ?]. split; [by apply lnot_s64|]. apply lnot_s64. unfold isS. lia.
  - intros [u n] [? Hn]. cbn [t_unix t_nanos fst snd] in *. unfold time_Unix.
    rewrite !Z.lnot_involutive. destruct (Z.ltb_spec n 0), (Z.leb_spec 1000000000 n); try lia. done.
  - intros x y _ _. unfold time_cmp, pair_cmp. cbn [fst snd]. by rewrite CompOpp_lexc, !lnot_compare.
  - done.
  - intros b. unfold DecodeTimeDescending, decodeTime, pair_dec.
    by decode_two b.
Qed.

(** ** Times with a zone: by instant, then by offset *)

Definition timetz_ok (t : TimeTZ) : Prop :=
  0 <= TimeOfDay t <= 86400000000 /\ isS 32 (OffsetSecs t).
Definition timetz_micros (t : TimeTZ) : Z := TimeOfDay t + OffsetSecs t * offsetSecsToMicros.
Definition timetz_cmp (x y : TimeTZ) : comparison :=
  lexc (timetz_micros x ?= timetz_micros y) (OffsetSecs x ?= OffsetSecs y).

Lemma timetz_micros_ok t : timetz_ok t -> isS 64 (timetz_micros t).
Proof. unfold timetz_ok, timetz_micros, isS. lia. Qed.

#[export] Instance timetz_codec :
  OrderedCodec timetz_ok timetz_cmp EncodeTimeTZAscending DecodeTimeTZAscending.
Proof.
  apply (marked_codec (OrderedCodec0 := varint2) timeTZMarker timetz_ok _
    (fun t => (s64 (timetz_micros t), OffsetSecs t))
    (fun p => MkTimeTZ (s64 (p.1 - s32 p.2 * offsetSecsToMicros)) (s32 p.2))).
  - intros t Ht. split; [apply (wrapS_range 64); lia|]. destruct Ht. unfold isS in *. cbn. lia.
  - intros [d o] Ht. pose proof (timetz_micros_ok _ Ht). destruct Ht as [Hd Ho].
    cbn [TimeOfDay OffsetSecs fst snd] in *. rewrite (wrapS_id 32 o), (wrapS_id 64 (timetz_micros _)) by (done || lia).
    unfold timetz_micros. cbn [TimeOfDay OffsetSecs].
    f_equal. rewrite Z.add_simpl_r. apply wrapS_id; [lia|]. unfold isS. lia.
  - intros x y Hx Hy. unfold timetz_cmp, pair_cmp. cbn [fst snd].
    by rewrite !wrapS_id by (try apply timetz_micros_ok; done || lia).
  - done.
  - intros b. unfold DecodeTimeTZAscending, decodeTimeTZ, pair_dec.
    by decode_two b.
Qed.

#[export] Instance timetz_desc_codec :
  OrderedCodec timetz_ok (fun x y => CompOpp (timetz_cmp x y))
    EncodeTimeTZDescending DecodeTimeTZDescending.
Proof.
  apply (marked_codec (OrderedCodec0 := varint2) timeTZMarker timetz_ok _
    (fun t => (Z.lnot (s64 (timetz_micros t)), Z.lnot (OffsetSecs t)))
    (fun p => MkTimeTZ (s64 (Z.lnot p.1 - Z.lnot (s32 p.2) * offsetSecsToMicros)) (Z.lnot (s32 p.2)))).
  - intros t Ht. split; [apply lnot_s64, (wrapS_range 64); lia|].
    destruct Ht. apply lnot_s64. unfold isS in *. lia.
  - intros [d o] Ht. pose proof (timetz_micros_ok _ Ht). destruct Ht as [Hd Ho].
    cbn [TimeOfDay OffsetSecs fst snd] in *.
    rewrite (wrapS_id 32 (Z.lnot o)), (wrapS_id 64 (timetz_micros _)), !Z.lnot_involutive
      by (done || lia || (unfold isS, Z.lnot in *; lia)).
    unfold timetz_micros. cbn [TimeOfDay OffsetSecs].
    f_equal. rewrite Z.add_simpl_r. apply wrapS_id; [lia|]. unfold isS. lia.
  - intros x y Hx Hy. unfold timetz_cmp, pair_cmp. cbn [fst snd].
    rewrite CompOpp_lexc, !lnot_compare.
    by rewrite !wrapS_id by (try apply timetz_micros_ok; done || lia).
  - done.
  - intros b. unfold DecodeTimeTZDescending, decodeTimeTZ, pair_dec.
    by decode_two b.
Qed.

(** ** Floats

    The value of a bit pattern that is not a NaN, in units of the smallest subnormal,
    with infinity above every finite value.  NaN comes first, as in SQL. *)

Definition fmag (m : Z) : Z :=
  let e := m / 2 ^ 52 in let f := m mod 2 ^ 52 in
  if e =? 0 then f else (2 ^ 52 + f) * 2 ^ (e - 1).
Definition fval (f : Z) : Z :=
  if signBit <=? f then - fmag (f mod signBit) else fmag (f mod signBit).
Definition float_cmp (x y : Z) : comparison :=
  match IsNaN x, IsNaN y with
  | true, true => Eq
  | true, false => Lt
  | false, true => Gt
  | false, false => fval x ?= fval y
  end.

Lemma fmag_mono a b : 0 <= a < b -> fmag a < fmag b.
Proof.
  intros H. unfold fmag. cbv zeta.
  pose proof (Z.mod_pos_bound a (2 ^ 52) ltac:(lia)). pose proof (Z.mod_pos_bound b (2 ^ 52) ltac:(lia)).
  pose proof (Z.div_mod a (2 ^ 52) ltac:(lia)). pose proof (Z.div_mod b (2 ^ 52) ltac:(lia)).
  set (ea := a / 2 ^ 52) in *. set (eb := b / 2 ^ 52) in *.
  assert (0 <= ea <= eb) by (split; [apply Z.div_pos|apply Z.div_le_mono]; lia).
  destruct (Z.eqb_spec ea 0), (Z.eqb_spec eb 0); [lia| |lia|].
  - assert (1 <= 2 ^ (eb - 1)) by lia. nia.
  - destruct (Z.eq_dec ea eb) as [<-|]; [assert (0 < 2 ^ (ea - 1)) by lia; nia|].
    assert (2 ^ ea <= 2 ^ (eb - 1)) by (apply Z.pow_le_mono_r; lia).
    assert (2 ^ ea = 2 * 2 ^ (ea - 1)) by (rewrite <- Z.pow_succ_r by lia; f_equal; lia).
    assert (0 < 2 ^ (ea - 1)) by lia. nia.
Qed.

Lemma fmag_compare a b : 0 <= a -> 0 <= b -> (fmag a ?= fmag b) = (a ?= b).
Proof.
  intros. destruct (Z.compare_spec a b) as [->|E|E]; [apply Z.compare_refl|..].
  - apply Z.compare_lt_iff, fmag_mono. lia.
  - apply Z.compare_gt_iff, fmag_mono. lia.
Qed.

Lemma fmag_pos a : 0 < a -> 0 < fmag a.
Proof. intros. apply (fmag_mono 0 a). lia. Qed.

Lemma sign_test u : isU 64 u -> negb (Z.land u (1 ≪ 63) =? 0) = (signBit <=? u).
Proof.
  intros Hu. unfold isU in Hu. change (1 ≪ 63) with (2 ^ 63). change signBit with (2 ^ 63).
  assert (Z.testbit u 63 = (2 ^ 63 <=? u)) as Ht.
  { pose proof (Z.testbit_spec' u 63 ltac:(lia)) as E.
    destruct (Z.leb_spec (2 ^ 63) u), (Z.testbit u 63); try done; cbn in E; exfalso.
    - Z.div_mod_to_equations; lia.
    - Z.div_mod_to_equations; lia. }
  rewrite <- Ht. destruct (Z.eqb_spec (Z.land u (2 ^ 63)) 0) as [E|E]; cbn.
  - apply (f_equal (fun z => Z.testbit z 63)) in E.
    rewrite Z.land_spec, Z.pow2_bits_true, andb_true_r, Z.bits_0 in E by lia. done.
  - destruct (Z.testbit u 63) eqn:Eb; [done|]. destruct E. apply Z.bits_inj'. intros i Hi.
    rewrite Z.land_spec, Z.pow2_bits_eqb, Z.bits_0 by lia.
    destruct (Z.eqb_spec 63 i) as [<-|]; [by rewrite Eb|by rewrite andb_false_r].
Qed.

(** The four classes of bit patterns and their encodings. *)
Inductive float_view (f : Z) : bytes -> Prop :=
| fv_nan : IsNaN f = true -> float_view f [floatNaN]
| fv_neg : IsNaN f = false -> signBit < f < 2 * signBit ->
    fval f = - fmag (f - signBit) -> float_view f (floatNeg :: be 8 (2 ^ 64 - 1 - f))
| fv_zero : IsNaN f = false -> fval f = 0 -> f = 0 \/ f = signBit -> float_view f [floatZero]
| fv_pos : IsNaN f = false -> 0 < f < signBit -> fval f = fmag f ->
    float_view f (floatPos :: be 8 f).

Lemma float_view_enc f : isU 64 f -> float_view f (EncodeFloatAscending [] f).
Proof.
  intros Hf. unfold EncodeFloatAscending. destruct (IsNaN f) eqn:En; [by constructor|].
  unfold float_is_zero. rewrite sign_test by done. pose proof Hf as Hf'. unfold isU in Hf'.
  destruct (Z.eqb_spec (f mod signBit) 0) as [Ez|Ez].
  { apply fv_zero; [done| |Z.div_mod_to_equations; lia].
    unfold fval. rewrite Ez. by destruct (signBit <=? f). }
  destruct (Z.leb_spec signBit f) as [Es|Es].
  - rewrite (wrapU_lnot 64) by done. apply fv_neg; [done|..].
    + destruct (Z.eq_dec f signBit) as [->|]; [done|lia].
    + unfold fval. rewrite (proj2 (Z.leb_le _ _)) by lia.
      replace (f mod signBit) with (f - signBit); [done|].
      apply (Z.mod_unique _ _ 1); lia.
  - assert (f mod signBit = f) as Em by (apply Z.mod_small; lia). rewrite Em in Ez.
    apply fv_pos; [done|lia|].
    unfold fval. rewrite (proj2 (Z.leb_gt _ _)) by lia. by rewrite Em.
Qed.

Lemma EncodeFloatAscending_append b f : EncodeFloatAscending b f = b ++ EncodeFloatAscending [] f.
Proof.
  unfold EncodeFloatAscending, EncodeUint64Ascending.
  destruct (IsNaN f), (float_is_zero f), (negb (Z.land f (1 ≪ 63) =? 0)); cbn [app];
    by rewrite <- ?app_assoc.
Qed.

Lemma float_order x y s t :
  isU 64 x -> isU 64 y ->
  bytes_compare (EncodeFloatAscending [] x ++ s) (EncodeFloatAscending [] y ++ t) =
  lexc (float_cmp x y) (bytes_compare s t).
Proof.
  intros Hx Hy. unfold float_cmp.
  destruct (float_view_enc x Hx) as [Nx|Nx Bx Vx|Nx Vx _|Nx Bx Vx];
    destruct (float_view_enc y Hy) as [Ny|Ny By Vy|Ny Vy _|Ny By Vy]; rewrite Nx, Ny;
    rewrite ?Vx, ?Vy; cbn [app]; rewrite bytes_compare_cons;
    (match goal with |- lexc (?a ?= ?b) _ = _ =>
       let c := eval compute in (a ?= b) in change (a ?= b) with c end); cbn [lexc];
    try reflexivity.
  all: try (pose proof (fmag_pos (x - signBit) ltac:(lia))).
  all: try (pose proof (fmag_pos (y - signBit) ltac:(lia))).
  all: try (pose proof (fmag_pos x ltac:(lia))).
  all: try (pose proof (fmag_pos y ltac:(lia))).
  all: try match goal with |- _ = lexc (?a ?= ?b) _ =>
    first [ rewrite (proj2 (Z.compare_lt_iff a b)) by lia; reflexivity
          | rewrite (proj2 (Z.compare_gt_iff a b)) by lia; reflexivity ] end.
  - rewrite bytes_compare_app_len, be_compare by (by rewrite !be_length). f_equal.
    rewrite !Z.mod_small by lia. rewrite Z.compare_opp, fmag_compare by lia.
    destruct (Z.compare_spec (2 ^ 64 - 1 - x) (2 ^ 64 - 1 - y)); symmetry;
      [apply Z.compare_eq_iff|apply Z.compare_lt_iff|apply Z.compare_gt_iff]; lia.
  - rewrite bytes_compare_app_len, be_compare by (by rewrite !be_length). f_equal.
    rewrite !Z.mod_small by lia. by rewrite fmag_compare by lia.
Qed.

(** What a float decodes to: one NaN, one zero. *)
Definition float_norm (f : Z) : Z :=
  if IsNaN f then NaN else if float_is_zero f then 0 else f.

Lemma uint64_be_dec v r : isU 64 v -> DecodeUint64Ascending (be 8 v ++ r) = Ok (r, v).
Proof. apply (oc_roundtrip (enc := EncodeUint64Ascending)). Qed.

Lemma float_roundtrip x r :
  isU 64 x -> DecodeFloatAscending (EncodeFloatAscending [] x ++ r) = Ok (r, float_norm x).
Proof.
  intros Hx. unfold DecodeFloatAscending, float_norm. pose proof Hx as Hx'. unfold isU in Hx'.
  destruct (float_view_enc x Hx) as [Nx|Nx Bx _|Nx _ Zx|Nx Bx _]; rewrite Nx; cbn [app];
    (rewrite decide_True by marker); cbn [Z.eqb Pos.eqb orb]; [done|..].
  - rewrite uint64_be_dec by (unfold isU; lia). cbn.
    rewrite (wrapU_lnot 64) by (unfold isU; lia). unfold float_is_zero.
    destruct (Z.eqb_spec (x mod signBit) 0); [exfalso; Z.div_mod_to_equations; lia|].
    do 2 f_equal. lia.
  - unfold float_is_zero. by destruct Zx as [-> | ->].
  - rewrite uint64_be_dec by done. unfold float_is_zero.
    rewrite Z.mod_small by lia. destruct (Z.eqb_spec x 0); [lia|done].
Qed.

Lemma float_neg_ok x : isU 64 (float_neg x).
Proof. apply Z.mod_pos_bound. lia. Qed.

Lemma float_neg_mod x : float_neg x mod signBit = x mod signBit.
Proof. unfold float_neg. Z.div_mod_to_equations. lia. Qed.

Lemma float_neg_sign x : isU 64 x -> float_neg x = if signBit <=? x then x - signBit else x + signBit.
Proof.
  unfold isU. intros Hx. unfold float_neg. destruct (Z.leb_spec signBit x); Z.div_mod_to_equations; lia.
Qed.

Lemma float_neg_val x : isU 64 x -> fval (float_neg x) = - fval x.
Proof.
  intros Hx. unfold fval. rewrite float_neg_mod, float_neg_sign by done. unfold isU in Hx.
  destruct (Z.leb_spec signBit x).
  - destruct (Z.leb_spec signBit (x - signBit)); lia.
  - destruct (Z.leb_spec signBit (x + signBit)); lia.
Qed.

Lemma IsNaN_neg x : IsNaN (float_neg x) = IsNaN x.
Proof. unfold IsNaN. by rewrite float_neg_mod. Qed.

Lemma float_cmp_neg x y :
  isU 64 x -> isU 64 y -> IsNaN x = false -> IsNaN y = false ->
  float_cmp (float_neg x) (float_neg y) = CompOpp (float_cmp x y).
Proof.
  intros Hx Hy Nx Ny. unfold float_cmp. rewrite !IsNaN_neg, Nx, Ny, !float_neg_val by done.
  by rewrite Z.compare_opp, (Z.compare_antisym (fval x)).
Qed.

(** Behind any prefix the first byte of an ascending float is at most [floatPos]. *)
Lemma float_first x : isU 64 x -> exists m l, EncodeFloatAscending [] x = m :: l /\ m <= floatPos.
Proof. intros Hx. destruct (float_view_enc x Hx); eexists _, _; (split; [reflexivity|lia]). Qed.

Lemma float_desc_order x y s t :
  isU 64 x -> isU 64 y ->
  bytes_compare (EncodeFloatDescending [] x ++ s) (EncodeFloatDescending [] y ++ t) =
  lexc (CompOpp (float_cmp x y)) (bytes_compare s t).
Proof.
  intros Hx Hy. unfold EncodeFloatDescending.
  pose proof (float_neg_ok x) as Ox. pose proof (float_neg_ok y) as Oy.
  destruct (IsNaN x) eqn:Nx, (IsNaN y) eqn:Ny.
  - unfold float_cmp. by rewrite Nx, Ny.
  - unfold float_cmp. rewrite Nx, Ny. destruct (float_first _ Oy) as (m & l & -> & ?).
    cbn [app]. rewrite bytes_compare_cons. by rewrite (proj2 (Z.compare_gt_iff _ _)) by lia.
  - unfold float_cmp. rewrite Nx, Ny. destruct (float_first _ Ox) as (m & l & -> & ?).
    cbn [app]. rewrite bytes_compare_cons. by rewrite (proj2 (Z.compare_lt_iff _ _)) by lia.
  - rewrite float_order by done. by rewrite float_cmp_neg.
Qed.

Lemma float_desc_roundtrip x r :
  isU 64 x -> DecodeFloatDescending (EncodeFloatDescending [] x ++ r) = Ok (r, float_norm x).
Proof.
  intros Hx. unfold DecodeFloatDescending, EncodeFloatDescending.
  destruct (IsNaN x) eqn:Nx.
  { unfold float_norm. by rewrite Nx. }
  rewrite float_roundtrip by apply float_neg_ok. cbn [mbind res_bind]. unfold float_norm.
  rewrite IsNaN_neg, Nx. unfold float_is_zero. rewrite float_neg_mod.
  destruct (Z.eqb_spec (x mod signBit) 0) as [E|E]; [done|].
  rewrite float_neg_mod. destruct (Z.eqb_spec (x mod signBit) 0); [done|].
  rewrite IsNaN_neg, Nx. cbn. do 2 f_equal.
  unfold isU in Hx. unfold float_neg. Z.div_mod_to_equations. lia.
Qed.

(** ** Bit arrays *)

Definition bitarray_ok (d : BitArray) : Prop :=
  Forall (isU 64) (words d) /\ 0 <= lastBitsUsed d <= numBitsPerWord.

Definition bitarray_cmp (c : comparison) (cmp : Z -> Z -> comparison) (x y : BitArray) : comparison :=
  lexc (list_cmp c cmp (words x) (words y)) (cmp (lastBitsUsed x) (lastBitsUsed y)).

Lemma compare_words_eq l r : compare_words l r = list_cmp Lt Z.compare l r.
Proof.
  revert r. induction l as [|x l IH]; intros [|y r]; cbn; try done. rewrite IH.
  destruct (Z.ltb_spec x y), (Z.ltb_spec y x), (Z.compare_spec x y); try lia; done.
Qed.

Lemma BitArray_Compare_eq x y : BitArray_Compare x y = bitarray_cmp Lt Z.compare x y.
Proof.
  unfold BitArray_Compare, bitarray_cmp. rewrite compare_words_eq.
  destruct (list_cmp _ _ _ _); cbn; [|done..].
  destruct (Z.ltb_spec (lastBitsUsed x) (lastBitsUsed y)),
    (Z.ltb_spec (lastBitsUsed y) (lastBitsUsed x)),
    (Z.compare_spec (lastBitsUsed x) (lastBitsUsed y)); try lia; done.
Qed.

(** The descending comparison is the ascending one reversed. *)
Lemma list_cmp_opp {A} c (cmp : A -> A -> comparison) l r :
  list_cmp (CompOpp c) (fun x y => CompOpp (cmp x y)) l r = CompOpp (list_cmp c cmp l r).
Proof.
  revert r. induction l as [|x l IH]; intros [|y r]; cbn; try done. by rewrite IH, CompOpp_lexc.
Qed.

Section BitArrays.
Context (typ : Typ) (marker_ term : Z) (c : comparison) (cmp : Z -> Z -> comparison).
Context (encW : bytes -> Z -> bytes) (decW : bytes -> res (bytes * Z)).
Context `{!OrderedCodec (isU 64) cmp encW decW}.
Hypothesis c_decided : c <> Eq.
Hypothesis marker_ok : byte_ok marker_.
Hypothesis marker_typ : slowPeekType [marker_] = typ.
Hypothesis len_ok : forall v r, isU 64 v -> getVarintLen (encW [] v ++ r) = Ok (Z.of_nat (length (encW [] v))).
Hypothesis first_ok : forall v, isU 64 v -> exists m l, encW [] v = m :: l /\ (term ?= m) = c.

Definition enc_bits (b : bytes) (d : BitArray) : bytes :=
  encW (foldl encW (b ++ [marker_]) (words d) ++ [term]) (lastBitsUsed d).

Lemma enc_bits_view b d :
  enc_bits b d = b ++ marker_ :: (words d ≫= encW []) ++ term :: encW [] (lastBitsUsed d).
Proof.
  unfold enc_bits. rewrite (oc_append (enc := encW)), foldl_enc by apply (oc_append (enc := encW)).
  by rewrite <- !app_assoc.
Qed.

Lemma bit_words_loop_enc ws : forall fuel r n sz,
  Forall (isU 64) ws -> (length ws < fuel)%nat ->
  bit_words_loop fuel ((ws ≫= encW []) ++ term :: r) term n sz =
  Ok (n + Z.of_nat (length ws), sz + Z.of_nat (length (ws ≫= encW []))).
Proof.
  induction ws as [|w ws IH]; intros [|fuel] r n sz Hw Hl; cbn [length] in Hl; try lia;
    cbn [mbind list_bind app length bit_words_loop].
  - rewrite Z.eqb_refl. by rewrite !Z.add_0_r.
  - apply Forall_cons in Hw as [Hw Hws]. destruct (first_ok w Hw) as (m & l & E & Hm).
    pose proof (len_ok w ((ws ≫= encW []) ++ term :: r) Hw) as Hlen.
    rewrite <- app_assoc. rewrite E in *. cbn [app] in *.
    destruct (Z.eqb_spec m term) as [->|]; [by rewrite Z.compare_refl in Hm|].
    rewrite Hlen, res_bind_Ok. rewrite (app_comm_cons l), slice_from_app by done.
    rewrite res_bind_Ok, IH by (done || lia). f_equal. cbn [length]. rewrite length_app. f_equal; lia.
Qed.

Lemma decode_words_enc ws r :
  Forall (isU 64) ws -> decode_words decW (length ws) ((ws ≫= encW []) ++ r) = Ok (r, ws).
Proof.
  revert r. induction ws as [|w ws IH]; intros r Hw; [done|].
  apply Forall_cons in Hw as [Hw Hws]. cbn [mbind list_bind length decode_words].
  rewrite <- app_assoc, (oc_roundtrip (enc := encW)) by done. cbn. by rewrite IH.
Qed.

Lemma words_length ws : Forall (isU 64) ws -> (length ws <= length (ws ≫= encW []))%nat.
Proof.
  induction 1 as [|w ws Hw _ IH]; cbn [mbind list_bind length]; [lia|]. rewrite length_app.
  destruct (first_ok w Hw) as (m & l & -> & _). cbn [length mbind list_bind] in *. lia.
Qed.

Lemma bitarray_codec_gen :
  OrderedCodec bitarray_ok (bitarray_cmp c cmp) enc_bits (decode_bit_array typ term decW).
Proof.
  split.
  - intros. by rewrite !enc_bits_view.
  - intros x y s t [Wx Lx] [Wy Ly]. rewrite !enc_bits_view. cbn [app].
    rewrite bytes_compare_cons, Z.compare_refl. cbn [lexc]. rewrite <- !app_assoc. cbn [app].
    erewrite terminated_order; [|done|apply (oc_order (enc := encW))|exact first_ok|done..].
    unfold bitarray_cmp. rewrite lexc_assoc. f_equal.
    apply (oc_order (enc := encW)); unfold isU; lia.
  - intros x r [Wx Lx]. rewrite enc_bits_view. cbn [app]. unfold decode_bit_array.
    rewrite decide_True by (by apply PeekType_marker). cbn [drop]. rewrite drop_0.
    rewrite <- app_assoc. cbn [app]. unfold getBitArrayWordsLen.
    rewrite bit_words_loop_enc; [|done|].
    2:{ rewrite length_app. pose proof (words_length _ Wx). cbn [length]. lia. }
    cbn [mbind res_bind]. rewrite Z.add_0_l, Nat2Z.id, decode_words_enc by done.
    cbn [mbind res_bind]. rewrite Z.eqb_refl.
    rewrite (oc_roundtrip (enc := encW)) by (unfold isU; lia). cbn [mbind res_bind].
    unfold FromEncodingParts. destruct (Z.ltb_spec numBitsPerWord (lastBitsUsed x)); [lia|].
    cbn. rewrite (wrapU_id 8) by (unfold isU; lia). by destruct x.
Qed.
End BitArrays.

#[export] Instance bitarray_codec :
  OrderedCodec bitarray_ok BitArray_Compare EncodeBitArrayAscending DecodeBitArrayAscending.
Proof.
  eapply codec_cmp_ext; [apply BitArray_Compare_eq|].
  apply (bitarray_codec_gen BitArray_ bitArrayMarker bitArrayDataTerminator Lt Z.compare
    EncodeUvarintAscending DecodeUvarintAscending); try done.
  - apply getVarintLen_uvarint.
  - intros v Hv. destruct (uvarint_first v Hv) as (m & l & -> & ?). eexists _, _.
    split; [reflexivity|]. apply Z.compare_lt_iff. lia.
Qed.

#[export] Instance bitarray_desc_codec :
  OrderedCodec bitarray_ok (fun x y => CompOpp (BitArray_Compare x y))
    EncodeBitArrayDescending DecodeBitArrayDescending.
Proof.
  eapply codec_cmp_ext with (cmp := bitarray_cmp Gt (fun x y => CompOpp (x ?= y))).
  { intros x y. rewrite BitArray_Compare_eq. unfold bitarray_cmp.
    by rewrite (list_cmp_opp Lt Z.compare), CompOpp_lexc. }
  apply (bitarray_codec_gen BitArrayDesc bitArrayDescMarker bitArrayDataDescTerminator Gt _
    EncodeUvarintDescending DecodeUvarintDescending); try done.
  - apply getVarintLen_uvarint_desc.
  - intros v Hv. destruct (uvarint_desc_first v Hv) as (m & l & -> & ?). eexists _, _.
    split; [reflexivity|]. apply Z.compare_gt_iff. lia.
Qed.

(** * What the encodings guarantee *)

(** The key encoding of floats.  NaN sorts before every number, numbers sort by the
    real value of their bit pattern with the infinities at the ends, and the two zeros
    encode alike; descending keys sort in the opposite order, with NaN last.  Decoding
    gives the float back, up to the sign of zero and the payload of a NaN. *)
Theorem float_encoding x y s t :
  isU 64 x -> isU 64 y ->
  bytes_compare (EncodeFloatAscending [] x ++ s) (EncodeFloatAscending [] y ++ t) =
    lexc (float_cmp x y) (bytes_compare s t) /\
  bytes_compare (EncodeFloatDescending [] x ++ s) (EncodeFloatDescending [] y ++ t) =
    lexc (CompOpp (float_cmp x y)) (bytes_compare s t) /\
  DecodeFloatAscending (EncodeFloatAscending [] x ++ s) = Ok (s, float_norm x) /\
  DecodeFloatDescending (EncodeFloatDescending [] x ++ s) = Ok (s, float_norm x).
Proof. auto 6 using float_order, float_desc_order, float_roundtrip, float_desc_roundtrip. Qed.

Lemma float_encoding_witness :
  let minus_one := 0xbff0000000000000 in let half := 0x3fe0000000000000 in
  bytes_compare (EncodeFloatAscending [] minus_one) (EncodeFloatAscending [] half) = Lt /\
  DecodeFloatDescending (EncodeFloatDescending [] half ++ [9]) = Ok ([9], half).
Proof.
  intros minus_one half. split.
  - etransitivity; [|apply (float_encoding minus_one half [] []); unfold isU; lia].
    by rewrite !app_nil_r.
  - etransitivity; [apply (float_encoding half half [9] []); unfold isU; lia|]. by vm_compute.
Defined.

(** The key encoding of bit arrays.  Keys sort as [BitArray.Compare] does, or the
    opposite way when descending, whatever follows; they decode back exactly. *)
Theorem bitarray_encoding x y s t :
  bitarray_ok x -> bitarray_ok y ->
  bytes_compare (EncodeBitArrayAscending [] x ++ s) (EncodeBitArrayAscending [] y ++ t) =
    lexc (BitArray_Compare x y) (bytes_compare s t) /\
  bytes_compare (EncodeBitArrayDescending [] x ++ s) (EncodeBitArrayDescending [] y ++ t) =
    lexc (CompOpp (BitArray_Compare x y)) (bytes_compare s t) /\
  DecodeBitArrayAscending (EncodeBitArrayAscending [] x ++ s) = Ok (s, x) /\
  DecodeBitArrayDescending (EncodeBitArrayDescending [] x ++ s) = Ok (s, x).
Proof.
  intros Hx Hy. split_and!.
  - by apply (oc_order (enc := EncodeBitArrayAscending)).
  - by apply (oc_order (enc := EncodeBitArrayDescending) (cmp := fun x y => CompOpp (BitArray_Compare x y))).
  - by apply (oc_roundtrip (enc := EncodeBitArrayAscending)).
  - by apply (oc_roundtrip (enc := EncodeBitArrayDescending)).
Qed.

Lemma bitarray_encoding_witness :
  let x := MkBitArray [2 ^ 63; 2 ^ 63] 1 in
  DecodeBitArrayDescending (EncodeBitArrayDescending [] x ++ [0; 255]) = Ok ([0; 255], x).
Proof.
  intros x. assert (bitarray_ok x) by (split; [repeat constructor|]; cbn; lia).
  by apply (bitarray_encoding x x [0; 255] []).
Defined.
