(* ===== verification/Durations.v ===== *)
(** Durations (src/pkg/util/duration/duration.go, src/pkg/util/arith/arith.go) and their
    key encoding (src/pkg/util/encoding/encoding.go).

    A duration is a number of months, of days and of nanoseconds, each an int64.  For
    comparisons and encodings a month is 30 days and a day 24 hours. *)
From S2P Require Import Prelude Bytes IntEnc BytesEnc KeyEnc.

(** * Arithmetic with overflow checks: [None] is [ok == false] *)

Definition AddWithOverflow (a b : Z) : option Z :=
  if (0 <? b) && (s64 (MaxInt64 - b) <? a) then None
  else if (b <? 0) && (a <? s64 (MinInt64 - b)) then None
  else Some (s64 (a + b)).

Definition SubWithOverflow (a b : Z) : option Z :=
  if (b <? 0) && (s64 (MaxInt64 + b) <? a) then None
  else if (0 <? b) && (a <? s64 (MinInt64 + b)) then None
  else Some (s64 (a - b)).

Definition MulHalfPositiveWithOverflow (a b : Z) : option Z :=
  if 0 <=? a then
    if Z.quot MaxInt64 b <? a then None else Some (s64 (a * b))
  else
    if a <? Z.quot MinInt64 b then None else Some (s64 (a * b)).

(** * Durations *)

Record Duration := MkDuration { Months : Z; Days : Z; nanos : Z }.

Abbreviation DaysPerMonth := 30.
Abbreviation nanosInDay := 86400000000000.
Abbreviation nanosInMonth := 2592000000000000.
Abbreviation nanosInMicro := 1000.

Definition lessThanHalf (x y : Z) : bool := u64 (u64 x + u64 x) <? u64 y.

(** [time.Duration.Round]. *)
Definition time_Round (d m : Z) : Z :=
  if m <=? 0 then d
  else
    let r := Z.rem d m in
    if d <? 0 then
      let r := s64 (- r) in
      if lessThanHalf r m then s64 (d + r)
      else let d1 := s64 (s64 (d - m) + r) in if d1 <? d then d1 else MinInt64
    else if lessThanHalf r m then s64 (d - r)
    else let d1 := s64 (s64 (d + m) - r) in if d <? d1 then d1 else MaxInt64.

Definition rounded (nanos : Z) : Z :=
  let v := time_Round nanos 1000 in
  let m := Z.rem v nanosInMicro in
  if negb (m =? 0) then s64 (v - m) else v.

Definition MakeDuration (nanos days months : Z) : Duration := MkDuration months days (rounded nanos).

Definition Duration_Add (d x : Duration) : Duration :=
  MakeDuration (s64 (nanos d + nanos x)) (s64 (Days d + Days x)) (s64 (Months d + Months x)).
Definition Duration_Sub (d x : Duration) : Duration :=
  MakeDuration (s64 (nanos d - nanos x)) (s64 (Days d - Days x)) (s64 (Months d - Months x)).
Definition Duration_Mul (d : Duration) (x : Z) : Duration :=
  MakeDuration (s64 (nanos d * x)) (s64 (Days d * x)) (s64 (Months d * x)).

Definition int64Max (a b : Z) : Z := if b <? a then a else b.
Definition int64Min (a b : Z) : Z := if a <? b then a else b.

Definition shiftPosDaysToMonths (d : Duration) : Duration :=
  let maxMonths := if 0 <? Months d then s64 (MaxInt64 - Months d) else MaxInt64 in
  let monthsFromDays := int64Min (Z.quot (Days d) DaysPerMonth) maxMonths in
  MkDuration (s64 (Months d + monthsFromDays)) (s64 (Days d - s64 (monthsFromDays * DaysPerMonth)))
    (nanos d).

Definition shiftPosNanosToDays (d : Duration) : Duration :=
  let maxDays := if 0 <? Days d then s64 (MaxInt64 - Days d) else MaxInt64 in
  let daysFromNanos := int64Min (Z.quot (nanos d) nanosInDay) maxDays in
  MkDuration (Months d) (s64 (Days d + daysFromNanos)) (s64 (nanos d - s64 (daysFromNanos * nanosInDay))).

Definition shiftNegDaysToMonths (d : Duration) : Duration :=
  let minMonths := if Months d <? 0 then s64 (MinInt64 - Months d) else MinInt64 in
  let monthsFromDays := int64Max (Z.quot (Days d) DaysPerMonth) minMonths in
  MkDuration (s64 (Months d + monthsFromDays)) (s64 (Days d - s64 (monthsFromDays * DaysPerMonth)))
    (nanos d).

Definition shiftNegNanosToDays (d : Duration) : Duration :=
  let minDays := if Days d <? 0 then s64 (MinInt64 - Days d) else MinInt64 in
  let daysFromNanos := int64Max (Z.quot (nanos d) nanosInDay) minDays in
  MkDuration (Months d) (s64 (Days d + daysFromNanos)) (s64 (nanos d - s64 (daysFromNanos * nanosInDay))).

Definition normalize (d : Duration) : Duration :=
  let d := if 0 <? Days d then shiftPosDaysToMonths d
           else if Days d <? 0 then shiftNegDaysToMonths d else d in
  if 0 <? nanos d then shiftPosDaysToMonths (shiftPosNanosToDays d)
  else if nanos d <? 0 then shiftNegDaysToMonths (shiftNegNanosToDays d)
  else d.

(** -1, 0 and 1 are [Lt], [Eq] and [Gt]. *)
Definition Duration_Compare (d x : Duration) : comparison :=
  let normD := normalize d in let normX := normalize x in
  if Months normD <? Months normX then Lt
  else if Months normX <? Months normD then Gt
  else if Days normD <? Days normX then Lt
  else if Days normX <? Days normD then Gt
  else if nanos normD <? nanos normX then Lt
  else if nanos normX <? nanos normD then Gt
  else Eq.

Definition of_overflow {A} (o : option A) : res A :=
  match o with Some a => Ok a | None => Err "overflow during Encode" end.

Definition Duration_Encode (d : Duration) : res (Z * Z * Z) :=
  monthNanos ← of_overflow (MulHalfPositiveWithOverflow (Months d) nanosInMonth);
  dayNanos ← of_overflow (MulHalfPositiveWithOverflow (Days d) nanosInDay);
  totalNanos ← of_overflow (AddWithOverflow monthNanos dayNanos);
  totalNanos ← of_overflow (AddWithOverflow totalNanos (nanos d));
  Ok (totalNanos, Months d, Days d).

Definition Duration_Decode (sortNanos months days : Z) : res Duration :=
  let nanos := s64 (s64 (sortNanos - s64 (months * nanosInMonth)) - s64 (days * nanosInDay)) in
  Ok (MkDuration months days nanos).

Definition EncodeDurationAscending (b : bytes) (d : Duration) : res bytes :=
  '(sortNanos, months, days) ← Duration_Encode d;
  let b := b ++ [durationMarker] in
  let b := EncodeVarintAscending b sortNanos in
  let b := EncodeVarintAscending b months in
  let b := EncodeVarintAscending b days in
  Ok b.

Definition EncodeDurationDescending (b : bytes) (d : Duration) : res bytes :=
  '(sortNanos, months, days) ← Duration_Encode d;
  let b := b ++ [durationMarker] in
  let b := EncodeVarintDescending b sortNanos in
  let b := EncodeVarintDescending b months in
  let b := EncodeVarintDescending b days in
  Ok b.

Definition DecodeDurationAscending (b : bytes) : res (bytes * Duration) :=
  if decide (PeekType b = KeyEnc.Duration) then
    let b := drop 1 b in
    '(b, sortNanos) ← DecodeVarintAscending b;
    '(b, months) ← DecodeVarintAscending b;
    '(b, days) ← DecodeVarintAscending b;
    d ← Duration_Decode sortNanos months days;
    Ok (b, d)
  else Err "did not find marker".

Definition DecodeDurationDescending (b : bytes) : res (bytes * Duration) :=
  if decide (PeekType b = KeyEnc.Duration) then
    let b := drop 1 b in
    '(b, sortNanos) ← DecodeVarintDescending b;
    '(b, months) ← DecodeVarintDescending b;
    '(b, days) ← DecodeVarintDescending b;
    d ← Duration_Decode sortNanos months days;
    Ok (b, d)
  else Err "did not find marker".

(** * Lengths *)

Definition duration_wf (d : Duration) : Prop := isS 64 (Months d) /\ isS 64 (Days d) /\ isS 64 (nanos d).

(** The length of a duration in nanoseconds. *)
Definition total (d : Duration) : Z := Months d * nanosInMonth + Days d * nanosInDay + nanos d.

(** [noS] removes the wrap-arounds that [lia] can show do not happen, innermost first. *)
Ltac noS :=
  repeat match goal with
  | |- context [wrapS 64 ?x] =>
      lazymatch x with
      | context [wrapS _ _] => fail
      | _ => rewrite (wrapS_id 64 x) by (try (unfold isS in *; Z.div_mod_to_equations); lia)
      end
  end.

Lemma AddWithOverflow_spec a b :
  isS 64 a -> isS 64 b -> AddWithOverflow a b = if decide (isS 64 (a + b)) then Some (a + b) else None.
Proof.
  intros Ha Hb. unfold AddWithOverflow. unfold isS in Ha, Hb.
  destruct (Z.ltb_spec 0 b); cbn [andb].
  - rewrite (wrapS_id 64) by (unfold isS; lia). destruct (Z.ltb_spec (MaxInt64 - b) a).
    + rewrite decide_False; [done|]. unfold isS. lia.
    + destruct (Z.ltb_spec b 0); [lia|]. cbn [andb].
      rewrite decide_True, (wrapS_id 64) by (unfold isS; lia). done.
  - destruct (Z.ltb_spec b 0); cbn [andb].
    + rewrite (wrapS_id 64) by (unfold isS; lia). destruct (Z.ltb_spec a (MinInt64 - b)).
      * rewrite decide_False; [done|]. unfold isS. lia.
      * rewrite decide_True, (wrapS_id 64) by (unfold isS; lia). done.
    + rewrite decide_True, (wrapS_id 64) by (unfold isS; lia). done.
Qed.

Lemma MulHalfPositive_spec a b :
  isS 64 a -> 0 < b -> MulHalfPositiveWithOverflow a b = if decide (isS 64 (a * b)) then Some (a * b) else None.
Proof.
  intros Ha Hb. unfold MulHalfPositiveWithOverflow. unfold isS in Ha.
  destruct (Z.leb_spec 0 a).
  - pose proof (Z.quot_rem MaxInt64 b ltac:(lia)). pose proof (Z.rem_bound_pos MaxInt64 b ltac:(lia) ltac:(lia)).
    destruct (Z.ltb_spec (MaxInt64 ÷ b) a).
    + rewrite decide_False; [done|]. unfold isS. nia.
    + rewrite decide_True, (wrapS_id 64) by (unfold isS; nia). done.
  - pose proof (Z.quot_rem MinInt64 b ltac:(lia)). pose proof (Z.rem_bound_pos_neg MinInt64 b ltac:(lia) ltac:(lia)).
    destruct (Z.ltb_spec a (MinInt64 ÷ b)).
    + rewrite decide_False; [done|]. unfold isS. nia.
    + rewrite decide_True, (wrapS_id 64) by (unfold isS; nia). done.
Qed.

(** The durations that can be encoded. *)
Definition duration_ok (d : Duration) : Prop :=
  isS 64 (Months d * nanosInMonth) /\ isS 64 (Days d * nanosInDay) /\
  isS 64 (Months d * nanosInMonth + Days d * nanosInDay) /\ isS 64 (total d).
#[export] Instance duration_ok_dec d : Decision (duration_ok d).
Proof. unfold duration_ok. apply _. Defined.

(** Encoding succeeds exactly when no step overflows, and gives the length. *)
Lemma Duration_Encode_spec d :
  duration_wf d ->
  Duration_Encode d =
  if decide (duration_ok d) then Ok (total d, Months d, Days d) else Err "overflow during Encode".
Proof.
  intros (Hm & Hd & Hn). unfold Duration_Encode, duration_ok, total.
  rewrite !MulHalfPositive_spec by (done || lia).
  destruct (decide (isS 64 (Months d * nanosInMonth))); cbn [of_overflow mbind res_bind];
    [|by rewrite decide_False by tauto].
  destruct (decide (isS 64 (Days d * nanosInDay))); cbn [of_overflow mbind res_bind];
    [|by rewrite decide_False by tauto].
  rewrite AddWithOverflow_spec by done.
  destruct (decide (isS 64 (Months d * nanosInMonth + Days d * nanosInDay)));
    cbn [of_overflow mbind res_bind]; [|by rewrite decide_False by tauto].
  rewrite AddWithOverflow_spec by done.
  destruct (decide (isS 64 (_ + nanos d))); cbn [of_overflow mbind res_bind];
    [by rewrite decide_True by done|by rewrite decide_False by tauto].
Qed.

Lemma Duration_Decode_spec d :
  duration_wf d -> isS 64 (Months d * nanosInMonth) -> isS 64 (Days d * nanosInDay) ->
  isS 64 (Months d * nanosInMonth + Days d * nanosInDay) -> isS 64 (total d) ->
  Duration_Decode (total d) (Months d) (Days d) = Ok d.
Proof.
  intros (Hm & Hd & Hn) ? ? ? ?. unfold Duration_Decode, total in *.
  rewrite !(wrapS_id 64 (_ * _)), wrapS_sub_l by (done || lia).
  rewrite (wrapS_id 64) by (unfold isS in *; lia). destruct d as [m y n]. cbn in *. do 2 f_equal. lia.
Qed.

(** ** Normal forms *)

(** All components of one sign. *)
Definition positive (d : Duration) : Prop := 0 <= Months d /\ 0 <= Days d /\ 0 <= nanos d.
Definition negative (d : Duration) : Prop := Months d <= 0 /\ Days d <= 0 /\ nanos d <= 0.

Lemma shiftPosDays_eq m y n :
  0 <= m < 2 ^ 62 -> 0 <= y < 2 ^ 62 ->
  shiftPosDaysToMonths (MkDuration m y n) = MkDuration (m + y / 30) (y mod 30) n.
Proof.
  intros. unfold shiftPosDaysToMonths, int64Min. cbn [Months Days nanos].
  rewrite Z.quot_div_nonneg by lia.
  assert ((if 0 <? m then s64 (MaxInt64 - m) else MaxInt64) = MaxInt64 - m) as ->.
  { destruct (Z.ltb_spec 0 m); [apply wrapS_id; [lia|unfold isS; lia]|lia]. }
  destruct (Z.ltb_spec (y / 30) (MaxInt64 - m)); [|exfalso; Z.div_mod_to_equations; lia].
  noS.
  f_equal. Z.div_mod_to_equations; lia.
Qed.

Lemma shiftPosNanos_eq m y n :
  0 <= y < 2 ^ 62 -> 0 <= n < 2 ^ 63 ->
  shiftPosNanosToDays (MkDuration m y n) = MkDuration m (y + n / nanosInDay) (n mod nanosInDay).
Proof.
  intros. unfold shiftPosNanosToDays, int64Min. cbn [Months Days nanos].
  rewrite Z.quot_div_nonneg by lia.
  assert ((if 0 <? y then s64 (MaxInt64 - y) else MaxInt64) = MaxInt64 - y) as ->.
  { destruct (Z.ltb_spec 0 y); [apply wrapS_id; [lia|unfold isS; lia]|lia]. }
  destruct (Z.ltb_spec (n / nanosInDay) (MaxInt64 - y)); [|exfalso; Z.div_mod_to_equations; lia].
  noS.
  f_equal. Z.div_mod_to_equations; lia.
Qed.

Lemma shiftNegDays_eq m y n :
  - 2 ^ 62 < m <= 0 -> - 2 ^ 62 < y <= 0 ->
  shiftNegDaysToMonths (MkDuration m y n) = MkDuration (m - (- y) / 30) (- ((- y) mod 30)) n.
Proof.
  intros. unfold shiftNegDaysToMonths, int64Max. cbn [Months Days nanos].
  replace (Z.quot y 30) with (- ((- y) / 30))
    by (rewrite <- (Z.quot_div_nonneg (- y)), Z.quot_opp_l by lia; lia).
  assert ((if m <? 0 then s64 (MinInt64 - m) else MinInt64) = MinInt64 - m) as ->.
  { destruct (Z.ltb_spec m 0); [apply wrapS_id; [lia|unfold isS; lia]|lia]. }
  destruct (Z.ltb_spec (MinInt64 - m) (- ((- y) / 30))); [|exfalso; Z.div_mod_to_equations; lia].
  noS.
  f_equal; Z.div_mod_to_equations; lia.
Qed.

Lemma shiftNegNanos_eq m y n :
  - 2 ^ 62 < y <= 0 -> - 2 ^ 63 <= n <= 0 ->
  shiftNegNanosToDays (MkDuration m y n) =
  MkDuration m (y - (- n) / nanosInDay) (- ((- n) mod nanosInDay)).
Proof.
  intros. unfold shiftNegNanosToDays, int64Max. cbn [Months Days nanos].
  replace (Z.quot n nanosInDay) with (- ((- n) / nanosInDay))
    by (rewrite <- (Z.quot_div_nonneg (- n)), Z.quot_opp_l by lia; lia).
  assert ((if y <? 0 then s64 (MinInt64 - y) else MinInt64) = MinInt64 - y) as ->.
  { destruct (Z.ltb_spec y 0); [apply wrapS_id; [lia|unfold isS; lia]|lia]. }
  destruct (Z.ltb_spec (MinInt64 - y) (- ((- n) / nanosInDay))); [|exfalso; Z.div_mod_to_equations; lia].
  noS.
  f_equal; Z.div_mod_to_equations; lia.
Qed.

(** A duration of one sign normalises to the digits of its length. *)
Definition digits (t : Z) : Duration :=
  if 0 <=? t
  then MkDuration (t / nanosInMonth) (t mod nanosInMonth / nanosInDay) (t mod nanosInDay)
  else MkDuration (- ((- t) / nanosInMonth)) (- ((- t) mod nanosInMonth / nanosInDay))
         (- ((- t) mod nanosInDay)).

Lemma digits_unique t m y n :
  0 <= t -> t = m * nanosInMonth + y * nanosInDay + n -> 0 <= y < 30 -> 0 <= n < nanosInDay ->
  t / nanosInMonth = m /\ t mod nanosInMonth / nanosInDay = y /\ t mod nanosInDay = n.
Proof.
  intros Ht E Hy Hn. assert (t / nanosInMonth = m) as Em.
  { symmetry. apply (Z.div_unique _ _ _ (y * nanosInDay + n)); lia. }
  assert (t mod nanosInMonth = y * nanosInDay + n) as Er by (rewrite Z.mod_eq, Em by lia; lia).
  split_and!; [done|rewrite Er; symmetry; apply (Z.div_unique _ _ _ n); lia|].
  symmetry. apply (Z.mod_unique _ _ (m * 30 + y)); lia.
Qed.

Lemma normalize_positive d :
  duration_wf d -> positive d -> isS 64 (total d) -> normalize d = digits (total d).
Proof.
  intros (Hm & Hd & Hn) (Pm & Pd & Pn) Ht. destruct d as [m y n]. unfold total, isS in *.
  cbn [Months Days nanos] in *.
  assert ((if 0 <? y then shiftPosDaysToMonths (MkDuration m y n)
    else if y <? 0 then shiftNegDaysToMonths (MkDuration m y n) else MkDuration m y n) =
    MkDuration (m + y / 30) (y mod 30) n) as E1.
  { destruct (Z.ltb_spec 0 y); [by apply shiftPosDays_eq; lia|].
    assert (y = 0) as -> by lia. change (0 / 30) with 0. by rewrite Z.add_0_r. }
  unfold normalize. cbn [Days]. rewrite E1. cbn [nanos].
  assert ((if 0 <? n then shiftPosDaysToMonths (shiftPosNanosToDays (MkDuration (m + y / 30) (y mod 30) n))
    else if n <? 0 then shiftNegDaysToMonths (shiftNegNanosToDays (MkDuration (m + y / 30) (y mod 30) n))
    else MkDuration (m + y / 30) (y mod 30) n) =
    MkDuration (m + y / 30 + (y mod 30 + n / nanosInDay) / 30) ((y mod 30 + n / nanosInDay) mod 30)
      (n mod nanosInDay)) as ->.
  { destruct (Z.ltb_spec 0 n).
    - rewrite shiftPosNanos_eq by (Z.div_mod_to_equations; lia).
      apply shiftPosDays_eq; Z.div_mod_to_equations; lia.
    - assert (n = 0) as -> by lia. cbn [Z.ltb Z.compare]. f_equal; Z.div_mod_to_equations; lia. }
  unfold digits. rewrite (proj2 (Z.leb_le _ _)) by lia.
  edestruct (digits_unique (m * nanosInMonth + y * nanosInDay + n)) as (-> & -> & ->);
    [lia| | | |reflexivity]; Z.div_mod_to_equations; lia.
Qed.

Lemma normalize_negative d :
  duration_wf d -> negative d -> isS 64 (total d) -> normalize d = digits (total d).
Proof.
  intros (Hm & Hd & Hn) (Pm & Pd & Pn) Ht. destruct d as [m y n]. unfold total, isS in *.
  cbn [Months Days nanos] in *.
  assert ((if 0 <? y then shiftPosDaysToMonths (MkDuration m y n)
    else if y <? 0 then shiftNegDaysToMonths (MkDuration m y n) else MkDuration m y n) =
    MkDuration (m - (- y) / 30) (- ((- y) mod 30)) n) as E1.
  { rewrite (proj2 (Z.ltb_ge 0 y)) by lia.
    destruct (Z.ltb_spec y 0); [by apply shiftNegDays_eq; lia|].
    assert (y = 0) as -> by lia. change (- 0 / 30) with 0. by rewrite Z.sub_0_r. }
  unfold normalize. cbn [Days]. rewrite E1. cbn [nanos]. rewrite (proj2 (Z.ltb_ge 0 n)) by lia.
  assert ((if n <? 0
    then shiftNegDaysToMonths (shiftNegNanosToDays (MkDuration (m - (- y) / 30) (- ((- y) mod 30)) n))
    else MkDuration (m - (- y) / 30) (- ((- y) mod 30)) n) =
    MkDuration (m - (- y) / 30 - ((- y) mod 30 + (- n) / nanosInDay) / 30)
      (- (((- y) mod 30 + (- n) / nanosInDay) mod 30)) (- ((- n) mod nanosInDay))) as ->.
  { destruct (Z.ltb_spec n 0).
    - rewrite shiftNegNanos_eq by (Z.div_mod_to_equations; lia).
      rewrite shiftNegDays_eq by (Z.div_mod_to_equations; lia).
      replace (- (- ((- y) mod 30) - (- n) / nanosInDay)) with ((- y) mod 30 + (- n) / nanosInDay) by lia.
      done.
    - assert (n = 0) as -> by lia. f_equal; Z.div_mod_to_equations; lia. }
  unfold digits.
  destruct (digits_unique (- (m * nanosInMonth + y * nanosInDay + n))
    (- m + (- y) / 30 + ((- y) mod 30 + (- n) / nanosInDay) / 30)
    (((- y) mod 30 + (- n) / nanosInDay) mod 30) ((- n) mod nanosInDay)) as (E & F & G);
    [Z.div_mod_to_equations; lia..|].
  destruct (Z.leb_spec 0 (m * nanosInMonth + y * nanosInDay + n)).
  - assert (m = 0 /\ y = 0 /\ n = 0) as (-> & -> & ->) by lia. reflexivity.
  - rewrite E, F, G. f_equal; lia.
Qed.

(** The digits of a length compare as the length. *)
Lemma digits_mono a b : a < b ->
  let x := digits a in let y := digits b in
  Months x < Months y \/ Months x = Months y /\
    (Days x < Days y \/ Days x = Days y /\ nanos x < nanos y).
Proof.
  intros H. unfold digits. destruct (Z.leb_spec 0 a), (Z.leb_spec 0 b); cbn [Months Days nanos];
    try lia; Z.div_mod_to_equations; lia.
Qed.

Lemma Compare_digits x y a b :
  normalize x = digits a -> normalize y = digits b -> Duration_Compare x y = (a ?= b).
Proof.
  intros Ex Ey. unfold Duration_Compare. rewrite Ex, Ey. destruct (Z.compare_spec a b) as [->|E|E].
  - by rewrite !Z.ltb_irrefl.
  - apply digits_mono in E as [?|(-> & [?|(-> & ?)])]; rewrite ?Z.ltb_irrefl;
      by rewrite (proj2 (Z.ltb_lt _ _)) by done.
  - apply digits_mono in E as [?|(-> & [?|(-> & ?)])]; rewrite ?Z.ltb_irrefl;
      by rewrite (proj2 (Z.ltb_ge _ _)), (proj2 (Z.ltb_lt _ _)) by lia.
Qed.

(** * The key encoding *)

(** By length, then months, then days. *)
Definition duration_cmp (x y : Duration) : comparison :=
  lexc (lexc (total x ?= total y) (Months x ?= Months y)) (Days x ?= Days y).

Definition duration_bytes (enc : bytes -> Z -> bytes) (b : bytes) (d : Duration) : bytes :=
  enc (enc (enc (b ++ [durationMarker]) (total d)) (Months d)) (Days d).

Lemma EncodeDuration_eq b d :
  duration_wf d -> duration_ok d ->
  EncodeDurationAscending b d = Ok (duration_bytes EncodeVarintAscending b d) /\
  EncodeDurationDescending b d = Ok (duration_bytes EncodeVarintDescending b d).
Proof.
  intros Hw Ho. unfold EncodeDurationAscending, EncodeDurationDescending.
  by rewrite Duration_Encode_spec, decide_True by done.
Qed.

Section DurationCodec.
Context (cmp : Z -> Z -> comparison) (enc : bytes -> Z -> bytes) (dec : bytes -> res (bytes * Z)).
Context `{!OrderedCodec (isS 64) cmp enc dec}.

Definition duration_dec (b : bytes) : res (bytes * Duration) :=
  if decide (PeekType b = KeyEnc.Duration) then
    let b := drop 1 b in
    '(b, sortNanos) ← dec b; '(b, months) ← dec b; '(b, days) ← dec b;
    d ← Duration_Decode sortNanos months days; Ok (b, d)
  else Err "did not find marker".

Lemma duration_codec :
  OrderedCodec (fun d => duration_wf d /\ duration_ok d)
    (fun x y => lexc (lexc (cmp (total x) (total y)) (cmp (Months x) (Months y))) (cmp (Days x) (Days y)))
    (duration_bytes enc) duration_dec.
Proof.
  apply (marked_codec
    (OrderedCodec0 := pair_codec (encA := pair_enc enc enc) (encB := enc)) durationMarker _ _
    (fun d => ((total d, Months d), Days d))
    (fun p => MkDuration p.1.2 p.2
       (s64 (s64 (p.1.1 - s64 (p.1.2 * nanosInMonth)) - s64 (p.2 * nanosInDay))))).
  - by intros d ((? & ? & ?) & ? & ? & ? & ?).
  - intros d (Hw & Hm & Hd & Hs & Ht). pose proof (Duration_Decode_spec d Hw Hm Hd Hs Ht) as E.
    by injection E.
  - done.
  - done.
  - intros b. unfold duration_dec, pair_dec. rewrite decide_True by marker. cbn [drop]. rewrite drop_0.
    destruct (dec b) as [[b1 x]| |]; cbn; [|done..].
    destruct (dec b1) as [[b2 y]| |]; cbn; [|done..].
    by destruct (dec b2) as [[b3 z]| |].
Qed.
End DurationCodec.

(** * Properties *)

(** The key encoding of durations.  It is refused exactly on overflow of the length;
    otherwise keys sort by length, then months, then days, ascending and descending,
    whatever follows, and decode back. *)
Theorem duration_encoding x y s t :
  duration_wf x -> duration_wf y ->
  (is_ok (EncodeDurationAscending [] x) = true <-> duration_ok x) /\
  forall ax ay dx dy,
    EncodeDurationAscending [] x = Ok ax -> EncodeDurationAscending [] y = Ok ay ->
    EncodeDurationDescending [] x = Ok dx -> EncodeDurationDescending [] y = Ok dy ->
    bytes_compare (ax ++ s) (ay ++ t) = lexc (duration_cmp x y) (bytes_compare s t) /\
    bytes_compare (dx ++ s) (dy ++ t) = lexc (CompOpp (duration_cmp x y)) (bytes_compare s t) /\
    DecodeDurationAscending (ax ++ s) = Ok (s, x) /\ DecodeDurationDescending (dx ++ s) = Ok (s, x).
Proof.
  intros Hx Hy.
  assert (forall d, duration_wf d -> is_ok (EncodeDurationAscending [] d) = true <-> duration_ok d) as Hok.
  { intros d Hd. unfold EncodeDurationAscending. rewrite Duration_Encode_spec by done. by case_decide. }
  split; [by apply Hok|]. intros ax ay dx dy Eax Eay Edx Edy.
  assert (duration_ok x) as Ox by (apply Hok; [done|by rewrite Eax]).
  assert (duration_ok y) as Oy by (apply Hok; [done|by rewrite Eay]).
  destruct (EncodeDuration_eq [] x Hx Ox) as [Ax Dx]. destruct (EncodeDuration_eq [] y Hy Oy) as [Ay Dy].
  assert (ax = duration_bytes EncodeVarintAscending [] x) as -> by congruence.
  assert (ay = duration_bytes EncodeVarintAscending [] y) as -> by congruence.
  assert (dx = duration_bytes EncodeVarintDescending [] x) as -> by congruence.
  assert (dy = duration_bytes EncodeVarintDescending [] y) as -> by congruence.
  pose proof (duration_codec _ _ _ (OrderedCodec0 := varint_codec)) as [_ Oa Ra].
  pose proof (duration_codec _ _ _ (OrderedCodec0 := varint_desc_codec)) as [_ Od Rd].
  split_and!; [by apply Oa| |by apply Ra|by apply Rd].
  rewrite Od by done. unfold duration_cmp. by rewrite !CompOpp_lexc.
Qed.

Lemma duration_encoding_witness :
  exists e, EncodeDurationAscending [] (MkDuration 1 (-2) 3) = Ok e /\
            DecodeDurationAscending (e ++ [7]) = Ok ([7], MkDuration 1 (-2) 3).
Proof.
  assert (duration_wf (MkDuration 1 (-2) 3)) as Hw by (repeat split; cbn; lia).
  eexists. split; [by vm_compute|].
  apply (duration_encoding _ _ [7] [] Hw Hw) with (dx := duration_bytes EncodeVarintDescending [] (MkDuration 1 (-2) 3))
    (dy := duration_bytes EncodeVarintDescending [] (MkDuration 1 (-2) 3))
    (ay := duration_bytes EncodeVarintAscending [] (MkDuration 1 (-2) 3)); by vm_compute.
Defined.

(** The comparison of durations.  On durations whose components have one sign and
    whose length fits an int64, [Compare] compares the lengths.  With components of mixed
    signs it does not: it puts a month less a day above 29 days and a nanosecond, which
    is longer, while their keys sort the other way. *)
Theorem Duration_Compare_length x y :
  duration_wf x -> duration_wf y -> isS 64 (total x) -> isS 64 (total y) ->
  positive x \/ negative x -> positive y \/ negative y ->
  Duration_Compare x y = (total x ?= total y) /\
  Duration_Compare (MkDuration 1 (-1) 0) (MkDuration 0 29 1) = Gt /\
  total (MkDuration 1 (-1) 0) < total (MkDuration 0 29 1).
Proof.
  intros Hx Hy Tx Ty Sx Sy. split; [|done]. apply Compare_digits.
  - destruct Sx; auto using normalize_positive, normalize_negative.
  - destruct Sy; auto using normalize_positive, normalize_negative.
Qed.

Lemma Duration_Compare_length_witness :
  Duration_Compare (MkDuration 1 0 0) (MkDuration 0 30 0) = Eq.
Proof.
  apply (Duration_Compare_length (MkDuration 1 0 0) (MkDuration 0 30 0));
    [split_and! ..|left; split_and!|left; split_and!]; by vm_compute.
Defined.
