(* ===== verification/Decimals.v ===== *)
(** The sorting key encoding of decimals (src/pkg/util/encoding/decimal.go).

    A finite non-zero decimal is written 0.M * 100^E with a mantissa M of base-100
    digits that neither starts nor ends with a zero; the key holds the sign and the
    magnitude class of E, then E, then M. *)
From S2P Require Import Prelude Bytes GoLib IntEnc BytesEnc KeyEnc.

(** * Decimals

    The fields of apd.Decimal; [Coeff] is a non-negative big integer. *)

Inductive Form_ := Finite | Infinite | NaNSignaling | NaN_.
#[export] Instance Form_eq_dec : EqDecision Form_.
Proof. solve_decision. Defined.

Record Decimal := MkDecimal { Form : Form_; Negative : bool; Exponent : Z; Coeff : Z }.

(** What the encoding uses of the apd library. *)
Class ApdLib := {
  IsZero : Decimal -> bool;
  IsZero_spec d : IsZero d = true <-> Form d = Finite /\ Coeff d = 0
}.

(** The decimal digits of a natural number in ASCII, as big.Int.Append writes them. *)
Fixpoint digits_loop (fuel : nat) (n : Z) (acc : bytes) : bytes :=
  match fuel with
  | O => acc
  | S fuel =>
      let acc := (48 + n mod 10) :: acc in
      if n <? 10 then acc else digits_loop fuel (n / 10) acc
  end.
Definition BigInt_Append (tmp : bytes) (n : Z) : bytes :=
  tmp ++ digits_loop (S (Z.to_nat (Z.log2 n))) n [].

(** big.Int.SetString in base 10, on a string of digits. *)
Definition is_digit (c : Z) : bool := (48 <=? c) && (c <=? 57).
Definition SetString (s : bytes) : option Z :=
  match s with
  | [] => None
  | _ => if forallb is_digit s then Some (foldl (fun a c => 10 * a + (c - 48)) 0 s) else None
  end.

(** * Exponent and mantissa *)

(** Removes trailing ['0']s; the argument is the reversed slice. *)
Fixpoint strip_zeros (r : bytes) : res bytes :=
  match r with
  | [] => Panic "index out of range"
  | c :: r' => if c =? 48 then strip_zeros r' else Ok (reverse r)
  end.

(** The conversion from base 10 to base 100. *)
Fixpoint centimal (tmp : bytes) : bytes :=
  match tmp with
  | c :: d :: tmp => u8 (2 * (10 * u8 (c - 48) + u8 (d - 48)) + 1) :: centimal tmp
  | _ => []
  end.

(** [m[len(m)-1]--]. *)
Fixpoint decrement_last (m : bytes) : res bytes :=
  match m with
  | [] => Panic "index out of range"
  | [x] => Ok [u8 (x - 1)]
  | x :: m => m' ← decrement_last m; Ok (x :: m')
  end.

(** [spare]: whether [tmp] has capacity. *)
Definition decimalEandM (d : Decimal) (spare : bool) : res (Z * bytes) :=
  let addedZero := spare in
  let tmp := if spare then [48] else [] in
  let tmp := BigInt_Append tmp (Coeff d) in
  let tmp := if addedZero then tmp
             else let tmp := tmp ++ [48] in 48 :: take (length tmp - 1) tmp in
  let e10 := s64 (Exponent d + Z.of_nat (length (drop 1 tmp))) in
  tmp ← strip_zeros (reverse tmp);
  let e100 := if 0 <=? e10 then Z.quot (e10 + 1) 2 else Z.quot e10 2 in
  let tmp := if e100 * 2 =? e10 then drop 1 tmp else tmp in
  let tmp := if Nat.odd (length tmp) then tmp ++ [48] else tmp in
  m ← decrement_last (centimal tmp);
  Ok (e100, m).

(** * Encoding *)

(** [encInto] is the buffer the encoding is laid out in, with its old contents. *)
Definition encodeVarExpNumber (tag : Z) (expAscending : bool) (exp : Z) (m encInto : bytes)
    : res bytes :=
  let n := Z.to_nat (if expAscending then EncLenUvarintAscending exp
                     else EncLenUvarintDescending exp) in
  let l := (1 + n + length m)%nat in
  if (length encInto <? l + 1)%nat then Panic "buffer too short"
  else
    let encInto := copy_at encInto (1 + n) m in
    let encInto := copy_at encInto 0 [tag] in
    let encInto := copy_at encInto 1
      (if expAscending then EncodeUvarintAscending [] exp else EncodeUvarintDescending [] exp) in
    let encInto := copy_at encInto l [decimalTerminator] in
    Ok (take (l + 1) encInto).

Definition encodeSmallNumber (negative : bool) (e : Z) (m encInto : bytes) : res bytes :=
  if negative then encodeVarExpNumber decimalNegSmall true (u64 (- e)) (onesComplement m) encInto
  else encodeVarExpNumber decimalPosSmall false (u64 (- e)) m encInto.

Definition encodeLargeNumber (negative : bool) (e : Z) (m encInto : bytes) : res bytes :=
  if negative then encodeVarExpNumber decimalNegLarge false (u64 e) (onesComplement m) encInto
  else encodeVarExpNumber decimalPosLarge true (u64 e) m encInto.

Definition encodeMediumNumber (negative : bool) (e : Z) (m encInto : bytes) : res bytes :=
  let l := (1 + length m)%nat in
  if (length encInto <? l + 1)%nat then Panic "buffer too short"
  else
    let encInto := copy_at encInto 1 m in
    let encInto :=
      if negative then
        let encInto := copy_at encInto 0 [u8 (decimalNegMedium - u8 e)] in
        copy_at encInto 1 (onesComplement (drop 1 (take l encInto)))
      else copy_at encInto 0 [u8 (decimalPosMedium + u8 e)] in
    let encInto := copy_at encInto l [decimalTerminator] in
    Ok (take (l + 1) encInto).

Abbreviation MaxVarintLen := 9%nat.

(** [spare]: the bytes of [appendTo] beyond its length, up to its capacity. *)
Definition encodeEandM (appendTo spare : bytes) (negative : bool) (e : Z) (m : bytes) : res bytes :=
  let n := (length m + MaxVarintLen + 2)%nat in
  let buf := if (n <=? length spare)%nat then take n spare else replicate n 0 in
  enc ← (if e <? 0 then encodeSmallNumber negative e m buf
         else if e <=? 10 then encodeMediumNumber negative e m buf
         else encodeLargeNumber negative e m buf);
  Ok (appendTo ++ enc).

Section Apd.
Context `{ApdLib}.

Definition encodeDecimal (appendTo spare : bytes) (d : Decimal) (invert : bool) : res bytes :=
  if IsZero d then Ok (appendTo ++ [decimalZero])
  else
    let neg := negb (Bool.eqb (Negative d) invert) in
    match Form d with
    | Finite =>
        '(e, m) ← decimalEandM d (negb (length spare =? 0)%nat);
        encodeEandM appendTo spare neg e m
    | Infinite =>
        if neg then Ok (appendTo ++ [decimalNegativeInfinity]) else Ok (appendTo ++ [decimalInfinity])
    | NaN_ => if invert then Ok (appendTo ++ [decimalNaNDesc]) else Ok (appendTo ++ [decimalNaN])
    | NaNSignaling => Panic "unknown form"
    end.

Definition EncodeDecimalAscending (appendTo spare : bytes) (d : Decimal) : res bytes :=
  encodeDecimal appendTo spare d false.
Definition EncodeDecimalDescending (appendTo spare : bytes) (d : Decimal) : res bytes :=
  encodeDecimal appendTo spare d true.
End Apd.

(** * Decoding *)

Definition zero_decimal : Decimal := MkDecimal Finite false 0 0.

Fixpoint mantissa_digits (m : bytes) (b : bytes) : res bytes :=
  match m with
  | [] => Ok b
  | v :: m =>
      let t := v / 2 in
      if (t <? 0) || (99 <? t) then Err "base-100 encoded digit out of range"
      else mantissa_digits m (b ++ [u8 (t / 10 + 48); u8 (t mod 10 + 48)])
  end.

Definition makeDecimalFromMandE (negative : bool) (e : Z) (m : bytes) : res Decimal :=
  if (length m =? 0)%nat then Err "expected mantissa, got zero bytes"
  else
    b ← mantissa_digits m [];
    last ← go_index b (Z.of_nat (length b) - 1);
    let b := if last =? 48 then take (length b - 1) b else b in
    let exp := s64 (s64 (2 * e) - Z.of_nat (length b)) in
    match SetString b with
    | Some c => Ok (MkDecimal Finite negative (s32 exp) c)
    | None => Err "could not set big.Int's string value"
    end.

(** The mantissa up to the terminator, complemented back if negative, and the rest. *)
Definition cut_mantissa (negative : bool) (r : bytes) : res (bytes * bytes) :=
  idx ← findDecimalTerminator r;
  let m := take (Z.to_nat idx) r in
  let m := if negative then onesComplement m else m in
  Ok (m, drop (Z.to_nat idx + 1) r).

Definition decodeSmallNumber (negative : bool) (buf : bytes) : res (Z * bytes * bytes) :=
  buf1 ← slice_from buf 1;
  '(r, ex) ← (if negative then DecodeUvarintAscending buf1 else DecodeUvarintDescending buf1);
  '(m, rest) ← cut_mantissa negative r;
  Ok (s64 (u64 (- ex)), m, rest).

Definition decodeMediumNumber (negative : bool) (buf : bytes) : res (Z * bytes * bytes) :=
  buf1 ← slice_from buf 1;
  '(m, rest) ← cut_mantissa negative buf1;
  b0 ← go_index buf 0;
  let e := if negative then u8 (decimalNegMedium - b0) else u8 (b0 - decimalPosMedium) in
  Ok (e, m, rest).

Definition decodeLargeNumber (negative : bool) (buf : bytes) : res (Z * bytes * bytes) :=
  buf1 ← slice_from buf 1;
  '(r, ex) ← (if negative then DecodeUvarintDescending buf1 else DecodeUvarintAscending buf1);
  '(m, rest) ← cut_mantissa negative r;
  Ok (s64 ex, m, rest).

Definition decodeDecimal (buf : bytes) (invert : bool) : res (bytes * Decimal) :=
  b0 ← go_index buf 0;
  buf1 ← slice_from buf 1;
  let number (negative : bool) (dec : res (Z * bytes * bytes)) : res (bytes * Decimal) :=
    '(e, m, r) ← dec;
    d ← makeDecimalFromMandE negative e m;
    Ok (r, d) in
  if (b0 =? decimalNaN) || (b0 =? decimalNaNDesc) then Ok (buf1, MkDecimal NaN_ false 0 0)
  else if b0 =? decimalInfinity then Ok (buf1, MkDecimal Infinite invert 0 0)
  else if b0 =? decimalNegativeInfinity then Ok (buf1, MkDecimal Infinite (negb invert) 0 0)
  else if b0 =? decimalZero then Ok (buf1, zero_decimal)
  else if b0 =? decimalNegLarge then number (negb invert) (decodeLargeNumber true buf)
  else if (decimalNegLarge <? b0) && (b0 <=? decimalNegMedium)
  then number (negb invert) (decodeMediumNumber true buf)
  else if b0 =? decimalNegSmall then number (negb invert) (decodeSmallNumber true buf)
  else if b0 =? decimalPosLarge then number invert (decodeLargeNumber false buf)
  else if (decimalPosMedium <=? b0) && (b0 <? decimalPosLarge)
  then number invert (decodeMediumNumber false buf)
  else if b0 =? decimalPosSmall then number invert (decodeSmallNumber false buf)
  else Err "unknown prefix of the encoded byte slice".

Definition DecodeDecimalAscending (buf : bytes) : res (bytes * Decimal) := decodeDecimal buf false.
Definition DecodeDecimalDescending (buf : bytes) : res (bytes * Decimal) := decodeDecimal buf true.

(** * Positional numerals *)

Definition num (B : Z) (l : list Z) : Z := foldl (fun a d => B * a + d) 0 l.
Abbreviation len l := (Z.of_nat (length l)).

Lemma foldl_num B l a : foldl (fun a d => B * a + d) a l = a * B ^ len l + num B l.
Proof.
  revert a. induction l as [|d l IH]; intros a; cbn [foldl length].
  - cbn. lia.
  - unfold num. cbn [foldl]. rewrite IH, (IH (B * 0 + d)).
    rewrite Nat2Z.inj_succ, Z.pow_succ_r by lia. lia.
Qed.

Lemma num_cons B d l : num B (d :: l) = d * B ^ len l + num B l.
Proof. unfold num at 1. cbn [foldl]. rewrite foldl_num. lia. Qed.

Lemma num_app B l r : num B (l ++ r) = num B l * B ^ len r + num B r.
Proof. unfold num at 1. rewrite foldl_app. apply foldl_num. Qed.

Lemma num_zeros B n : num B (replicate n 0) = 0.
Proof. induction n as [|n IH]; cbn [replicate]; [done|]. rewrite num_cons, IH. lia. Qed.

Abbreviation digit B := (fun d => 0 <= d < B).

Lemma num_bound B l : 1 <= B -> Forall (digit B) l -> 0 <= num B l < B ^ len l.
Proof.
  intros HB. induction 1 as [|d l Hd Hl IH]; [cbn; lia|].
  rewrite num_cons. cbn [length]. rewrite Nat2Z.inj_succ, Z.pow_succ_r by lia. nia.
Qed.

(** A numeral without trailing zeros. *)
Definition trimmed (l : list Z) : Prop := exists l' d, l = l' ++ [d] /\ d <> 0.

Lemma num_pos B l : 1 <= B -> Forall (digit B) l -> trimmed l -> 0 < num B l.
Proof.
  intros HB Hl (l' & d & -> & Hd). apply Forall_app in Hl as [Hl' [Hd' _]%Forall_cons].
  rewrite num_app. pose proof (num_bound B l' HB Hl'). unfold num at 2. cbn [foldl length].
  change (Z.of_nat 1) with 1. rewrite Z.pow_1_r. nia.
Qed.

Lemma trimmed_cons d l : trimmed (d :: l) -> l = [] \/ trimmed l.
Proof.
  intros ([|x l'] & e & E & He); cbn in E; simplify_eq; [by left|right]. by exists l', e.
Qed.

(** Fractions 0.x and 0.y in base [B] compare digit by digit. *)
Lemma fraction_compare B x y N :
  2 <= B -> Forall (digit B) x -> Forall (digit B) y ->
  (x = [] \/ trimmed x) -> (y = [] \/ trimmed y) -> len x <= N -> len y <= N ->
  (num B x * B ^ (N - len x) ?= num B y * B ^ (N - len y)) = list_cmp Lt Z.compare x y.
Proof.
  intros HB Hx. revert y N. induction Hx as [|d x Hd Hx IH]; intros y N Hy Tx Ty Nx Ny.
  - destruct Hy as [|e y He Hy]; [apply Z.compare_refl|]. cbn [list_cmp].
    apply Z.compare_lt_iff. destruct Ty as [|Ty]; [done|].
    pose proof (num_pos B (e :: y) ltac:(lia) ltac:(by constructor) Ty). change (num B []) with 0.
    assert (0 < B ^ (N - len (e :: y))) by (apply Z.pow_pos_nonneg; lia). nia.
  - destruct Hy as [|e y He Hy].
    { apply Z.compare_gt_iff. destruct Tx as [|Tx]; [done|].
      pose proof (num_pos B (d :: x) ltac:(lia) ltac:(by constructor) Tx). change (num B []) with 0.
      assert (0 < B ^ (N - len (d :: x))) by (apply Z.pow_pos_nonneg; lia). nia. }
    cbn [list_cmp]. destruct Tx as [|Tx%trimmed_cons]; [done|]. destruct Ty as [|Ty%trimmed_cons]; [done|].
    cbn [length] in *. rewrite !Nat2Z.inj_succ in *. rewrite !num_cons.
    assert (forall l : list Z, len l <= N - 1 -> B ^ len l * B ^ (N - Z.succ (len l)) = B ^ (N - 1)) as HP.
    { intros. rewrite <- Z.pow_add_r by lia. f_equal. lia. }
    rewrite !Z.mul_add_distr_r, <- !Z.mul_assoc, !HP by lia.
    rewrite <- (IH y (N - 1)) by (done || lia).
    replace (N - 1 - len x) with (N - Z.succ (len x)) by lia.
    replace (N - 1 - len y) with (N - Z.succ (len y)) by lia.
    pose proof (num_bound B x ltac:(lia) Hx). pose proof (num_bound B y ltac:(lia) Hy).
    assert (0 < B ^ (N - Z.succ (len x))) by (apply Z.pow_pos_nonneg; lia).
    assert (0 < B ^ (N - Z.succ (len y))) by (apply Z.pow_pos_nonneg; lia).
    pose proof (HP x ltac:(lia)). pose proof (HP y ltac:(lia)).
    set (X := num B x * B ^ (N - Z.succ (len x))) in *.
    set (Y := num B y * B ^ (N - Z.succ (len y))) in *.
    assert (0 <= X < B ^ (N - 1)) by (unfold X; nia).
    assert (0 <= Y < B ^ (N - 1)) by (unfold Y; nia).
    destruct (Z.compare_spec d e) as [->|E|E]; cbn [lexc].
    + apply Z.add_compare_mono_l.
    + apply Z.compare_lt_iff. nia.
    + apply Z.compare_gt_iff. nia.
Qed.

(** * Mantissas *)

(** The bytes of a mantissa of base-100 digits. *)
Fixpoint mant (l : list Z) : bytes :=
  match l with
  | [] => []
  | [x] => [2 * x]
  | x :: l => (2 * x + 1) :: mant l
  end.

Lemma mant_cons x l : l <> [] -> mant (x :: l) = (2 * x + 1) :: mant l.
Proof. by destruct l. Qed.

Lemma mant_ok l : Forall (digit 100) l -> bytes_ok (mant l).
Proof.
  induction 1 as [|x l Hx Hl IH]; [constructor|]. destruct l as [|y l].
  - repeat constructor; lia.
  - rewrite mant_cons by done. constructor; [unfold byte_ok; lia|done].
Qed.

Lemma mant_length l : length (mant l) = length l.
Proof. induction l as [|x [|y l] IH]; [done..|]. rewrite mant_cons by done. cbn [length]. by rewrite IH. Qed.

Lemma mant_order x y s t :
  x <> [] -> y <> [] ->
  bytes_compare (mant x ++ s) (mant y ++ t) = lexc (list_cmp Lt Z.compare x y) (bytes_compare s t).
Proof.
  revert y. induction x as [|d x IH]; intros [|e y] Hx Hy; try done.
  destruct x as [|d' x], y as [|e' y]; rewrite ?(mant_cons d (_ :: _)), ?(mant_cons e (_ :: _)) by done; change (mant [d]) with [2 * d]; change (mant [e]) with [2 * e];
    cbn [app]; rewrite bytes_compare_cons; cbn [list_cmp CompOpp].
  all: destruct (Z.compare_spec d e) as [->|E|E]; cbn [lexc];
    try (rewrite (proj2 (Z.compare_lt_iff _ _)) by lia; done);
    try (rewrite (proj2 (Z.compare_gt_iff _ _)) by lia; done).
  - by rewrite Z.compare_refl.
  - rewrite Z.compare_refl. cbn [lexc]. by rewrite IH.
Qed.

Lemma mant_no_zero l : Forall (digit 100) l -> trimmed l -> 0 ∉ mant l.
Proof.
  induction 1 as [|x l Hx Hl IH]; intros T; [by apply not_elem_of_nil|].
  destruct l as [|y l].
  - destruct T as ([|? [|??]] & d & E & Hd); cbn in E; simplify_eq.
    cbn [mant]. apply not_elem_of_cons. split; [lia|apply not_elem_of_nil].
  - rewrite mant_cons by done. apply not_elem_of_cons. split; [lia|].
    apply IH. by destruct (trimmed_cons _ _ T).
Qed.

Lemma mant_decrement l :
  Forall (digit 100) l -> l <> [] -> decrement_last ((fun x => 2 * x + 1) <$> l) = Ok (mant l).
Proof.
  induction 1 as [|x l Hx Hl IH]; intros Hne; [done|]. destruct l as [|y l].
  - cbn. do 2 f_equal. rewrite (wrapU_id 8) by (unfold isU; lia). lia.
  - rewrite mant_cons by done. specialize (IH ltac:(done)). cbn [fmap list_fmap] in *.
    cbn [decrement_last]. cbn [decrement_last] in IH. by rewrite IH.
Qed.

(** ** From base 10 to base 100 *)

Definition asc (ds : list Z) : bytes := (fun d => 48 + d) <$> ds.

Fixpoint pairs (t : list Z) : list Z :=
  match t with c :: d :: t => (10 * c + d) :: pairs t | _ => [] end.

Lemma centimal_pairs t :
  Forall (digit 10) t -> centimal (asc t) = (fun x => 2 * x + 1) <$> pairs t.
Proof.
  revert t. fix IH 1. intros [|c [|d t]] Ht; [done..|].
  apply Forall_cons in Ht as [Hc [Hd Ht]%Forall_cons].
  cbn [asc fmap list_fmap centimal pairs]. f_equal; [|by apply IH].
  rewrite (wrapU_id 8 (48 + c - 48)), (wrapU_id 8 (48 + d - 48)) by (unfold isU; lia).
  rewrite (wrapU_id 8) by (unfold isU; lia). lia.
Qed.

Lemma pairs_spec t n :
  length t = (2 * n)%nat -> Forall (digit 10) t ->
  num 100 (pairs t) = num 10 t /\ length (pairs t) = n /\ Forall (digit 100) (pairs t).
Proof.
  revert t. induction n as [|n IH]; intros [|c [|d t]] L Ht; cbn [length] in L; try lia; [done|].
  apply Forall_cons in Ht as [Hc [Hd Ht]%Forall_cons].
  destruct (IH t ltac:(lia) Ht) as (E & Ln & F). cbn [pairs]. split_and!.
  - rewrite !num_cons, E, Ln. cbn [length].
    replace (len t) with (2 * Z.of_nat n) by lia.
    replace (Z.of_nat (S (length t))) with (2 * Z.of_nat n + 1) by lia.
    rewrite (Z.pow_add_r 10 _ 1), Z.pow_mul_r by lia. change (10 ^ 2) with 100. lia.
  - cbn [length]. lia.
  - constructor; [lia|done].
Qed.

(** ** The digits of the coefficient *)

Lemma digits_loop_spec fuel n acc :
  0 < n < 2 ^ Z.of_nat fuel ->
  exists d ds, digits_loop fuel n acc = asc (d :: ds) ++ acc /\ num 10 (d :: ds) = n /\
    Forall (digit 10) (d :: ds) /\ d <> 0 /\ (length ds < fuel)%nat.
Proof.
  revert n acc. induction fuel as [|fuel IH]; intros n acc Hn; [cbn in Hn; lia|].
  cbn [digits_loop]. rewrite Nat2Z.inj_succ, Z.pow_succ_r in Hn by lia.
  destruct (Z.ltb_spec n 10).
  - exists n, []. rewrite Z.mod_small by lia. split_and!; [done..| |lia|cbn; lia].
    repeat constructor; lia.
  - destruct (IH (n / 10) ((48 + n mod 10) :: acc)) as (d & ds & -> & E & F & Hd & L).
    { Z.div_mod_to_equations. lia. }
    exists d, (ds ++ [n mod 10]). split_and!.
    + unfold asc. cbn [fmap list_fmap app]. by rewrite fmap_app, <- app_assoc.
    + rewrite app_comm_cons, num_app, E. unfold num. cbn [foldl length].
      change (10 ^ Z.of_nat 1) with 10. Z.div_mod_to_equations. lia.
    + rewrite app_comm_cons. apply Forall_app. split; [done|].
      repeat constructor; Z.div_mod_to_equations; lia.
    + done.
    + rewrite length_app. cbn. lia.
Qed.

(** The digits, ASCII and with the leading zero [decimalEandM] adds. *)
Lemma coeff_digits n :
  0 < n ->
  exists d ds, BigInt_Append [] n = asc (d :: ds) /\ num 10 (d :: ds) = n /\
    Forall (digit 10) (d :: ds) /\ d <> 0 /\ len ds <= Z.log2 n.
Proof.
  intros Hn. unfold BigInt_Append. cbn [app].
  destruct (digits_loop_spec (S (Z.to_nat (Z.log2 n))) n []) as (d & ds & -> & E & F & Hd & L).
  - rewrite Nat2Z.inj_succ, Z2Nat.id by apply Z.log2_nonneg. split; [done|]. apply Z.log2_spec. done.
  - exists d, ds. rewrite app_nil_r. split_and!; [done..|]. pose proof (Z.log2_nonneg n). lia.
Qed.

Lemma strip_zeros_spec l :
  Exists (fun d => d <> 0) l ->
  exists l' z, l = l' ++ replicate z 0 /\ trimmed l' /\ strip_zeros (reverse (asc l)) = Ok (asc l').
Proof.
  induction l as [|d l IH] using rev_ind; intros H; [by apply Exists_nil in H|].
  unfold asc. rewrite fmap_app, reverse_app. cbn [fmap list_fmap].
  change (reverse [48 + d]) with [48 + d]. cbn [app strip_zeros].
  destruct (decide (d = 0)) as [->|Hd].
  - change (48 + 0 =? 48) with true. cbv iota.
    destruct IH as (l' & z & -> & T & E).
    { apply Exists_app in H as [?|[?|?%Exists_nil]%Exists_cons]; done. }
    exists l', (S z). split_and!; [|done..]. by rewrite replicate_S_end, app_assoc.
  - replace (48 + d =? 48) with false by (symmetry; apply Z.eqb_neq; lia).
    exists (l ++ [d]), O. split_and!; [by rewrite app_nil_r|by exists l, d|].
    f_equal. by rewrite reverse_cons, reverse_involutive, fmap_app.
Qed.

Lemma pairs_snoc n u a b :
  length u = (2 * n)%nat -> pairs (u ++ [a; b]) = pairs u ++ [10 * a + b].
Proof.
  revert u. induction n as [|n IH]; intros [|c [|d u]] L; cbn [length] in L; try lia; [done|].
  cbn [app pairs]. f_equal. apply IH. lia.
Qed.

(** The last two digits of an even number of digits. *)
Lemma even_snoc2 (t : list Z) n :
  length t = (2 * S n)%nat -> exists u a b, t = u ++ [a; b] /\ length u = (2 * n)%nat.
Proof.
  intros L. destruct t as [|b t _] using rev_ind; [cbn in L; lia|].
  destruct t as [|a t _] using rev_ind; [cbn in L; lia|].
  rewrite !length_app in L. cbn in L. exists t, a, b. by rewrite <- app_assoc; split; [|lia].
Qed.

(** The mantissas the encoding produces. *)
Definition normal (ms : list Z) : Prop :=
  Forall (digit 100) ms /\ trimmed ms /\ exists d l, ms = d :: l /\ d <> 0.

(** 0.ms * 100^e is c * 10^x, both scaled by any large enough power of ten. *)
Definition represents (e : Z) (ms : list Z) (c x : Z) : Prop :=
  forall N, 0 <= x + N -> 0 <= 2 * (e - len ms) + N ->
  num 100 ms * 10 ^ (2 * (e - len ms) + N) = c * 10 ^ (x + N).

(** Digits [d :: r] with the zeros [decimalEandM] puts around them, in base 100. *)
Lemma pairs_normal (lead trail : bool) d r n :
  let t := (if lead then [0] else []) ++ (d :: r) ++ (if trail then [0] else []) in
  Forall (digit 10) (d :: r) -> d <> 0 -> trimmed (d :: r) -> length t = (2 * n)%nat ->
  normal (pairs t) /\ length (pairs t) = n /\
  num 100 (pairs t) = num 10 (d :: r) * 10 ^ (if trail then 1 else 0).
Proof.
  intros t F Hd T L.
  assert (Forall (digit 10) t) as Ft.
  { unfold t. rewrite !Forall_app. split_and!; [|done|]; [destruct lead|destruct trail];
      repeat constructor; lia. }
  destruct (pairs_spec t n L Ft) as (E & Ln & F100). split_and!; [|done|].
  - split_and!; [done| |].
    + destruct n as [|n]; [destruct lead; cbn in L; lia|].
      destruct (even_snoc2 t n L) as (u & a & b & Et & Lu).
      rewrite Et, (pairs_snoc n) by done. eexists _, _. split; [done|].
      rewrite Et in Ft. apply Forall_app in Ft as [_ [Ha [Hb _]%Forall_cons]%Forall_cons].
      enough (a <> 0 \/ b <> 0) by lia.
      destruct T as (r' & x & Er & Hx). unfold t in Et. rewrite Er in Et. destruct trail.
      * left. rewrite <- app_assoc, app_assoc in Et. cbn [app] in Et.
        apply (app_inj_2 _ _ [x; 0] [a; b]) in Et as [_ ?]; [by simplify_eq|done].
      * right. rewrite app_nil_r, app_assoc in Et.
        change [a; b] with ([a] ++ [b]) in Et. rewrite (app_assoc u) in Et.
        apply (app_inj_2 _ _ [x] [b]) in Et as [_ ?]; [by simplify_eq|done].
    + unfold t. destruct lead; cbn [app].
      * exists (10 * 0 + d), (pairs (r ++ if trail then [0] else [])). split; [done|lia].
      * unfold t in L. cbn [app length] in L.
        destruct (r ++ if trail then [0] else []) as [|y q] eqn:Eq; [cbn in L; lia|].
        exists (10 * d + y), (pairs q). split; [done|].
        apply Forall_cons in F as [? _].
        assert (0 <= y) by (unfold t in Ft; cbn [app] in Ft; rewrite Eq in Ft;
          rewrite !Forall_cons in Ft; lia). lia.
  - rewrite E. unfold t. rewrite num_app, (num_app 10 (d :: r)).
    assert (num 10 (if lead then [0] else []) = 0) as -> by by destruct lead.
    destruct trail; cbn [length]; [change (num 10 [0]) with 0; change (Z.of_nat 1) with 1
                                  |change (num 10 []) with 0; change (Z.of_nat 0) with 0]; lia.
Qed.

Lemma lead_strip d ds :
  d <> 0 ->
  exists r z, ds = r ++ replicate z 0 /\ trimmed (d :: r) /\
    strip_zeros (reverse (asc (0 :: d :: ds))) = Ok (asc (0 :: d :: r)).
Proof.
  intros Hd. destruct (strip_zeros_spec (0 :: d :: ds)) as (l' & z & E & T & S).
  { apply Exists_cons. right. apply Exists_cons. by left. }
  destruct l' as [|x [|y r]]; cbn [app] in E.
  - by destruct T as ([|??] & ? & ? & ?).
  - destruct T as ([|? [|??]] & ? & ? & ?); cbn in *; simplify_eq.
  - simplify_eq. exists r, z. split_and!; [done| |done]. by destruct (trimmed_cons _ _ T).
Qed.

(** ** What [decimalEandM] computes *)

Definition ceil2 (e : Z) : Z := if 0 <=? e then Z.quot (e + 1) 2 else Z.quot e 2.

Lemma ceil2_spec e : exists lead : bool, 2 * ceil2 e = e + (if lead then 1 else 0) /\
  (ceil2 e * 2 =? e) = negb lead.
Proof.
  unfold ceil2. exists (Z.odd e). destruct (Z.leb_spec 0 e).
  - rewrite Z.quot_div_nonneg by lia. pose proof (Z.div2_odd e). rewrite Z.div2_div in *.
    destruct (Z.odd e); cbn [Z.b2z negb] in *; split;
      [|apply Z.eqb_neq| |apply Z.eqb_eq]; Z.div_mod_to_equations; lia.
  - rewrite <- (Z.opp_involutive e) at 1 2. rewrite Z.quot_opp_l, Z.quot_div_nonneg by lia.
    rewrite <- (Z.opp_involutive e) at 4. rewrite Z.quot_opp_l, Z.quot_div_nonneg by lia.
    rewrite <- (Z.odd_opp e).
    pose proof (Z.div2_odd (- e)). rewrite Z.div2_div in *.
    destruct (Z.odd (- e)); cbn [Z.b2z negb] in *; split;
      [|apply Z.eqb_neq| |apply Z.eqb_eq]; Z.div_mod_to_equations; lia.
Qed.

(** Padding to an even length. *)
Lemma pad_even (l : list Z) : exists trail : bool,
  (if Nat.odd (length l) then asc l ++ [48] else asc l) = asc (l ++ if trail then [0] else []) /\
  exists n, length (l ++ if trail then [0] else []) = (2 * n)%nat.
Proof.
  exists (Nat.odd (length l)). destruct (Nat.odd (length l)) eqn:O.
  - split; [unfold asc; by rewrite fmap_app|]. apply Nat.odd_spec in O as [k Hk].
    exists (S k). rewrite length_app. cbn. lia.
  - split; [by rewrite app_nil_r|]. rewrite app_nil_r.
    apply Nat.even_spec. by rewrite <- Nat.negb_odd, O.
Qed.

Lemma asc_length l : length (asc l) = length l.
Proof. apply length_fmap. Qed.

Lemma decimalEandM_spec d spare :
  0 < Coeff d -> isS 32 (Exponent d) -> Z.log2 (Coeff d) < 2 ^ 32 ->
  exists e ms, decimalEandM d spare = Ok (e, mant ms) /\ normal ms /\
    represents e ms (Coeff d) (Exponent d) /\
    2 * e - 1 <= Exponent d + Z.log2 (Coeff d) + 1 /\ Exponent d < 2 * e /\
    len ms <= Z.log2 (Coeff d) + 2.
Proof.
  intros Hc Hx Hlog. destruct (coeff_digits _ Hc) as (c & cs & EA & Enum & Fcs & Hc0 & Lcs).
  unfold decimalEandM. cbv zeta.
  assert ((if spare then BigInt_Append (if spare then [48] else []) (Coeff d)
           else 48 :: take (length (BigInt_Append (if spare then [48] else []) (Coeff d) ++ [48]) - 1)
                        (BigInt_Append (if spare then [48] else []) (Coeff d) ++ [48])) = asc (0 :: c :: cs)) as ->.
  { destruct spare.
    - change [48] with ([48] ++ []). unfold BigInt_Append in *. cbn [app] in *. by rewrite EA.
    - rewrite EA, length_app, Nat.add_sub. by rewrite take_app_length. }
  destruct (lead_strip c cs Hc0) as (r & z & -> & T & ->). cbn [mbind res_bind].
  change (drop 1 (asc (0 :: c :: r ++ replicate z 0))) with (asc (c :: r ++ replicate z 0)).
  rewrite asc_length. cbn [length]. rewrite length_app, length_replicate in *.
  set (e10 := Exponent d + Z.of_nat (S (length r + z))).
  rewrite (wrapS_id 64 e10) by (unfold isS in *; lia). fold (ceil2 e10).
  destruct (ceil2_spec e10) as (lead & He & ->).
  assert ((if negb lead then drop 1 (asc (0 :: c :: r)) else asc (0 :: c :: r)) =
          asc ((if lead then [0] else []) ++ c :: r)) as -> by by destruct lead.
  rewrite asc_length.
  destruct (pad_even ((if lead then [0] else []) ++ c :: r)) as (trail & -> & n & Ln).
  rewrite <- app_assoc in *.
  assert (Forall (digit 10) (c :: r)) as Fr by (rewrite app_comm_cons in Fcs; by apply Forall_app in Fcs as [? _]).
  destruct (pairs_normal lead trail c r n Fr Hc0 T Ln) as (Hn & Lp & Np).
  rewrite centimal_pairs, mant_decrement; [|by apply Hn|by destruct Hn as (_ & _ & ? & ? & -> & _)|].
  2: { rewrite !Forall_app. split_and!; [|done|]; [destruct lead|destruct trail]; repeat constructor; lia. }
  cbn [mbind res_bind]. eexists _, _. split; [reflexivity|]. split; [done|].
  rewrite !length_app in Ln. cbn [length] in Ln.
  assert (Z.of_nat (length (if lead then [0] else [])) = if lead then 1 else 0) by by destruct lead.
  assert (Z.of_nat (length (if trail then [0] else [])) = if trail then 1 else 0) by by destruct trail.
  split.
  - intros N HN1 HN2. rewrite Np, Lp in *.
    rewrite <- Enum, app_comm_cons, num_app, num_zeros, length_replicate.
    rewrite Z.add_0_r, <- !Z.mul_assoc, <- !Z.pow_add_r by (destruct trail; lia). do 2 f_equal.
    unfold e10 in *. destruct lead, trail; lia.
  - unfold e10 in *. destruct lead, trail; lia.
Qed.

(** * Views of the encoders *)

Lemma copy_at_mid (a b c src : bytes) i :
  i = length a -> length src = length b -> copy_at (a ++ b ++ c) i src = a ++ src ++ c.
Proof.
  intros -> E. unfold copy_at. rewrite take_app_length. f_equal.
  rewrite !length_app, take_ge by lia. f_equal.
  rewrite app_assoc, drop_app_length'; [done|]. rewrite length_app. lia.
Qed.

(** A buffer cut into pieces of given lengths. *)
Lemma cut_buffer (l : bytes) n :
  (n <= length l)%nat -> exists a b, l = a ++ b /\ length a = n.
Proof. intros. exists (take n l), (drop n l). rewrite take_drop, length_take. split; [done|lia]. Qed.

Definition enc_exp (asc : bool) (exp : Z) : bytes :=
  if asc then EncodeUvarintAscending [] exp else EncodeUvarintDescending [] exp.

Lemma enc_exp_length (asc : bool) exp :
  isU 64 exp ->
  Z.to_nat (if asc then EncLenUvarintAscending exp else EncLenUvarintDescending exp) =
  length (enc_exp asc exp) /\ (length (enc_exp asc exp) <= 9)%nat.
Proof.
  intros H. split.
  - destruct asc; cbn [enc_exp].
    + rewrite EncLenUvarintAscending_eq, <- uvarint_length by done. lia.
    + rewrite EncLenUvarintDescending_eq by done. lia.
  - destruct asc; cbn [enc_exp].
    + rewrite uvarint_view by done. cbn [app length]. rewrite be_length.
      destruct (uv_class exp H) as [(? & _ & ->)|(? & _ & k & -> & ?)]; lia.
    + rewrite uvarint_desc_view by done. cbn [app length]. rewrite be_length.
      destruct (ud_class exp H) as [(? & ->)|(k & -> & ?)]; lia.
Qed.

Lemma encodeVarExpNumber_eq tag (asc : bool) exp m encInto :
  isU 64 exp -> (length m + 11 <= length encInto)%nat ->
  encodeVarExpNumber tag asc exp m encInto = Ok (tag :: enc_exp asc exp ++ m ++ [decimalTerminator]).
Proof.
  intros He Hl. unfold encodeVarExpNumber. cbv zeta. destruct (enc_exp_length asc exp He) as [-> L9].
  fold (enc_exp asc exp).
  destruct (Nat.ltb_spec (length encInto) (1 + length (enc_exp asc exp) + length m + 1)); [lia|].
  destruct (cut_buffer encInto 1) as (a & b & -> & La); [lia|]. rewrite length_app in *.
  destruct (cut_buffer b (length (enc_exp asc exp))) as (x & b' & -> & Lx); [lia|]. rewrite length_app in *.
  destruct (cut_buffer b' (length m)) as (y & b'' & -> & Ly); [lia|]. rewrite length_app in *.
  destruct (cut_buffer b'' 1) as (z & rest & -> & Lz); [lia|].
  rewrite (app_assoc a x), (copy_at_mid (a ++ x)) by (rewrite ?length_app; lia).
  rewrite <- (app_assoc a), (copy_at_mid [] a (x ++ m ++ z ++ rest) [tag]) by done.
  cbn [app]. change (tag :: x ++ m ++ z ++ rest) with ([tag] ++ x ++ m ++ z ++ rest).
  rewrite (copy_at_mid [tag] x) by done.
  rewrite (app_assoc (enc_exp asc exp)), (app_assoc [tag]).
  rewrite (copy_at_mid ([tag] ++ enc_exp asc exp ++ m)) by (rewrite ?length_app; cbn; lia).
  f_equal. rewrite app_assoc, take_app_length' by (rewrite !length_app; cbn; lia).
  cbn [app]. by rewrite <- !app_assoc.
Qed.

Lemma encodeMediumNumber_eq negative e m encInto :
  0 <= e <= 10 -> (length m + 11 <= length encInto)%nat -> bytes_ok m ->
  encodeMediumNumber negative e m encInto =
  Ok ((if negative then decimalNegMedium - e else decimalPosMedium + e)
      :: (if negative then notb <$> m else m) ++ [decimalTerminator]).
Proof.
  intros He Hl Hm. unfold encodeMediumNumber. cbv zeta.
  destruct (Nat.ltb_spec (length encInto) (1 + length m + 1)); [lia|].
  rewrite !(wrapU_id 8 e), !(wrapU_id 8) by (unfold isU; lia).
  destruct (cut_buffer encInto 1) as (a & b & -> & La); [lia|]. rewrite length_app in *.
  destruct (cut_buffer b (length m)) as (y & b' & -> & Ly); [lia|]. rewrite length_app in *.
  destruct (cut_buffer b' 1) as (z & rest & -> & Lz); [lia|].
  rewrite (copy_at_mid a) by lia.
  destruct negative.
  - rewrite (copy_at_mid [] a (m ++ z ++ rest) [_]) by done. cbn [app Nat.add].
    rewrite firstn_cons, skipn_cons, take_app_length, drop_0, onesComplement_map by done.
    change (decimalNegMedium - e :: m ++ z ++ rest) with ([decimalNegMedium - e] ++ m ++ z ++ rest).
    rewrite (copy_at_mid [_] m) by (try rewrite length_fmap; done).
    rewrite (app_assoc [_]).
    rewrite (copy_at_mid ([_] ++ _)) by (rewrite ?length_app, ?length_fmap; cbn; lia).
    f_equal. rewrite app_assoc, take_app_length' by (rewrite !length_app, length_fmap; cbn; lia).
    done.
  - rewrite (copy_at_mid [] a (m ++ z ++ rest) [_]) by done. cbn [app].
    rewrite app_comm_cons.
    rewrite (copy_at_mid (_ :: m)) by (cbn [length]; lia).
    f_equal. rewrite app_assoc, take_app_length' by (rewrite !length_app; cbn; lia).
    done.
Qed.

(** The sign, magnitude class and exponent that open the key of a number. *)
Definition exp_code (neg : bool) (e : Z) : bytes :=
  if e <? 0 then (if neg then decimalNegSmall else decimalPosSmall) :: enc_exp neg (- e)
  else if e <=? 10 then [if neg then decimalNegMedium - e else decimalPosMedium + e]
  else (if neg then decimalNegLarge else decimalPosLarge) :: enc_exp (negb neg) e.
Definition mant_code (neg : bool) (ms : list Z) : bytes :=
  (if neg then notb <$> mant ms else mant ms) ++ [decimalTerminator].

Lemma encodeEandM_eq appendTo spare neg e ms :
  - 2 ^ 62 <= e < 2 ^ 62 -> Forall (digit 100) ms ->
  encodeEandM appendTo spare neg e (mant ms) = Ok (appendTo ++ exp_code neg e ++ mant_code neg ms).
Proof.
  intros He Hm%mant_ok. unfold encodeEandM, exp_code, mant_code.
  match goal with |- context [if (?a <=? ?b)%nat then ?x else ?y] =>
    set (buf := if (a <=? b)%nat then x else y) end.
  assert (length (mant ms) + 11 <= length buf)%nat as Hb.
  { unfold buf. destruct (Nat.leb_spec (length (mant ms) + MaxVarintLen + 2) (length spare));
      [rewrite length_take|rewrite length_replicate]; lia. }
  destruct (Z.ltb_spec e 0); [|destruct (Z.leb_spec e 10)].
  - unfold encodeSmallNumber. rewrite (wrapU_id 64) by (unfold isU; lia).
    rewrite onesComplement_map by done.
    destruct neg; rewrite encodeVarExpNumber_eq by (rewrite ?length_fmap; unfold isU; lia);
      cbn [mbind res_bind app]; by rewrite <- ?app_assoc.
  - rewrite encodeMediumNumber_eq by (done || lia). by destruct neg.
  - unfold encodeLargeNumber. rewrite (wrapU_id 64) by (unfold isU; lia).
    rewrite onesComplement_map by done.
    destruct neg; rewrite encodeVarExpNumber_eq by (rewrite ?length_fmap; unfold isU; lia);
      cbn [mbind res_bind app]; by rewrite <- ?app_assoc.
Qed.

(** * Order *)

Lemma enc_exp_order (asc : bool) x y s t :
  isU 64 x -> isU 64 y ->
  bytes_compare (enc_exp asc x ++ s) (enc_exp asc y ++ t) =
  lexc (if asc then x ?= y else CompOpp (x ?= y)) (bytes_compare s t).
Proof.
  intros Hx Hy. destruct asc; cbn [enc_exp].
  - by apply (oc_order (enc := EncodeUvarintAscending)).
  - by apply (oc_order (enc := EncodeUvarintDescending) (cmp := fun x y => CompOpp (x ?= y))).
Qed.

(** Lexicographic comparison reduced by what is known of the integers. *)
Ltac zcompare :=
  repeat match goal with
  | |- context [?a ?= ?b] =>
      first [ rewrite (proj2 (Z.compare_lt_iff a b)) by lia
            | rewrite (proj2 (Z.compare_gt_iff a b)) by lia
            | rewrite (proj2 (Z.compare_eq_iff a b)) by lia ]
  end; cbn [lexc CompOpp].

Lemma exp_code_order (neg : bool) x y s t :
  - 2 ^ 62 <= x < 2 ^ 62 -> - 2 ^ 62 <= y < 2 ^ 62 ->
  bytes_compare (exp_code neg x ++ s) (exp_code neg y ++ t) =
  lexc (if neg then CompOpp (x ?= y) else x ?= y) (bytes_compare s t).
Proof.
  intros Hx Hy. unfold exp_code.
  destruct (Z.ltb_spec x 0); [|destruct (Z.leb_spec x 10)];
    (destruct (Z.ltb_spec y 0); [|destruct (Z.leb_spec y 10)]);
    cbn [app]; rewrite bytes_compare_cons.
  - rewrite Z.compare_refl. cbn [lexc]. rewrite enc_exp_order by (unfold isU; lia).
    rewrite Z.compare_opp, (Z.compare_antisym x y). f_equal. destruct neg; [done|].
    by rewrite CompOpp_involutive.
  - destruct neg; zcompare; done.
  - destruct neg; zcompare; done.
  - destruct neg; zcompare; done.
  - destruct neg; destruct (Z.compare_spec x y); zcompare; done.
  - destruct neg; zcompare; done.
  - destruct neg; zcompare; done.
  - destruct neg; zcompare; done.
  - rewrite Z.compare_refl. cbn [lexc]. rewrite enc_exp_order by (unfold isU; lia).
    by destruct neg.
Qed.

Lemma mant_code_order (neg : bool) x y s t :
  normal x -> normal y ->
  bytes_compare (mant_code neg x ++ s) (mant_code neg y ++ t) =
  lexc (let c := list_cmp Lt Z.compare x y in if neg then CompOpp c else c) (bytes_compare s t).
Proof.
  intros (Fx & _ & dx & lx & -> & _) (Fy & _ & dy & ly & -> & _). unfold mant_code. rewrite <- !app_assoc.
  destruct neg.
  - rewrite (complement_code _ _ (list_cmp Lt Z.compare (dx :: lx) (dy :: ly)));
      [done|by apply mant_ok..|]. intros. by apply mant_order.
  - by rewrite mant_order.
Qed.

(** ** Values *)

(** A common scale changes nothing. *)
Lemma scale_compare a b x y N M :
  0 <= x + N -> 0 <= y + N -> N <= M ->
  (a * 10 ^ (x + N) ?= b * 10 ^ (y + N)) = (a * 10 ^ (x + M) ?= b * 10 ^ (y + M)).
Proof.
  intros Hx Hy HM.
  replace (x + M) with (x + N + (M - N)) by lia. replace (y + M) with (y + N + (M - N)) by lia.
  rewrite !(Z.pow_add_r 10 (_ + N)), !Z.mul_assoc by lia.
  apply Zmult_compare_compat_r. apply Z.lt_gt. apply Z.pow_pos_nonneg; lia.
Qed.

(** A number with a larger exponent is larger. *)
Lemma exponent_gap e ms e' ms' K :
  normal ms -> normal ms' -> e < e' -> 0 <= e - len ms + K -> 0 <= e' - len ms' + K ->
  num 100 ms * 100 ^ (e - len ms + K) < num 100 ms' * 100 ^ (e' - len ms' + K).
Proof.
  intros (F & _ & _) (F' & _ & d' & l' & -> & Hd') He H1 H2.
  pose proof (num_bound 100 ms ltac:(lia) F) as B.
  apply Forall_cons in F' as [Hd F'].
  pose proof (num_bound 100 l' ltac:(lia) F') as B'. rewrite num_cons. cbn [length] in *.
  apply Z.lt_le_trans with (100 ^ (e + K)).
  - replace (e + K) with (len ms + (e - len ms + K)) by lia. rewrite (Z.pow_add_r 100 (len ms)) by lia.
    apply Z.mul_lt_mono_pos_r; [apply Z.pow_pos_nonneg; lia|lia].
  - apply Z.le_trans with (100 ^ (e' - 1 + K)); [apply Z.pow_le_mono_r; lia|].
    replace (e' - 1 + K) with (len l' + (e' - Z.of_nat (S (length l')) + K)) by lia.
    rewrite (Z.pow_add_r 100 (len l')) by lia. apply Z.mul_le_mono_nonneg_r; [apply Z.pow_nonneg; lia|]. nia.
Qed.

Lemma represents_compare e ms c x e' ms' c' x' N :
  normal ms -> normal ms' -> represents e ms c x -> represents e' ms' c' x' ->
  0 <= x + N -> 0 <= x' + N ->
  (c * 10 ^ (x + N) ?= c' * 10 ^ (x' + N)) = lexc (e ?= e') (list_cmp Lt Z.compare ms ms').
Proof.
  intros Hm Hm' R R' HN HN'.
  set (K := Z.max N 0 + Z.abs e + len ms + Z.abs e' + len ms').
  rewrite (scale_compare c c' x x' N (2 * K)) by lia.
  rewrite <- R, <- R' by lia.
  replace (2 * (e - len ms) + 2 * K) with (2 * (e - len ms + K)) by lia.
  replace (2 * (e' - len ms') + 2 * K) with (2 * (e' - len ms' + K)) by lia.
  rewrite !Z.pow_mul_r by lia. change (10 ^ 2) with 100.
  destruct (Z.compare_spec e e') as [->|E|E]; cbn [lexc].
  - destruct Hm as (F & T & _), Hm' as (F' & T' & _).
    replace (e' - len ms + K) with (e' + K - len ms) by lia.
    replace (e' - len ms' + K) with (e' + K - len ms') by lia.
    apply fraction_compare; (done || lia || by right).
  - apply Z.compare_lt_iff. apply exponent_gap; (done || lia).
  - apply Z.compare_gt_iff. apply exponent_gap; (done || lia).
Qed.

(** The SQL order of decimals: NaN, then by value, the infinities at the ends. *)
Definition dec_class (d : Decimal) : Z :=
  match Form d with
  | NaN_ | NaNSignaling => -2
  | Infinite => if Negative d then -1 else 1
  | Finite => 0
  end.
Definition dec_signed (N : Z) (d : Decimal) : Z :=
  if Negative d then - (Coeff d * 10 ^ (Exponent d + N)) else Coeff d * 10 ^ (Exponent d + N).
Definition dec_cmp (x y : Decimal) : comparison :=
  let N := - Z.min (Exponent x) (Exponent y) in
  lexc (dec_class x ?= dec_class y)
    (if dec_class x =? 0 then dec_signed N x ?= dec_signed N y else Eq).

(** The decimals that can be encoded; the exponent of the decimal without trailing zeros
    must still be an int32. *)
Definition dec_ok (d : Decimal) : Prop :=
  Form d <> NaNSignaling /\
  (Form d = Finite -> 0 <= Coeff d /\ - 2 ^ 31 <= Exponent d /\ Exponent d + Z.log2 (Coeff d) + 1 < 2 ^ 31).

(** ** The key of a decimal *)

Lemma decimalEandM_spare d spare : decimalEandM d spare = decimalEandM d false.
Proof.
  destruct spare; [|done]. unfold decimalEandM, BigInt_Append. cbv zeta. cbn [app].
  by rewrite length_app, Nat.add_sub, take_app_length.
Qed.

Definition is_neg (invert : bool) (d : Decimal) : bool := negb (Bool.eqb (Negative d) invert).

Inductive dec_view (invert : bool) (d : Decimal) : bytes -> Prop :=
  | view_nan : Form d = NaN_ ->
      dec_view invert d [if invert then decimalNaNDesc else decimalNaN]
  | view_inf : Form d = Infinite ->
      dec_view invert d [if is_neg invert d then decimalNegativeInfinity else decimalInfinity]
  | view_zero : Form d = Finite -> Coeff d = 0 -> dec_view invert d [decimalZero]
  | view_num e ms : Form d = Finite -> 0 < Coeff d -> normal ms ->
      represents e ms (Coeff d) (Exponent d) ->
      2 * e - 1 <= Exponent d + Z.log2 (Coeff d) + 1 -> Exponent d < 2 * e ->
      - 2 ^ 33 <= e < 2 ^ 33 -> len ms < 2 ^ 33 ->
      dec_view invert d (exp_code (is_neg invert d) e ++ mant_code (is_neg invert d) ms).

Section Keys.
Context `{ApdLib}.

Definition dec_key (invert : bool) (d : Decimal) : bytes :=
  match encodeDecimal [] [] d invert with Ok l => l | _ => [] end.

Lemma encodeDecimal_view d invert :
  dec_ok d ->
  exists l, dec_view invert d l /\ forall b spare, encodeDecimal b spare d invert = Ok (b ++ l).
Proof.
  intros [Hf Hd]. unfold encodeDecimal. fold (is_neg invert d).
  destruct (IsZero d) eqn:Z.
  { apply IsZero_spec in Z as [? ?]. exists [decimalZero]. split; [by constructor|done]. }
  destruct (Form d) eqn:F; [|..].
  - destruct (Hd eq_refl) as (Hc & Hx & Hx'). pose proof (Z.log2_nonneg (Coeff d)).
    assert (Coeff d <> 0) by (intros E; by rewrite (proj2 (IsZero_spec d)) in Z).
    destruct (decimalEandM_spec d false) as (e & ms & E & Hn & R & B1 & B2 & B3); [lia|unfold isS; lia|lia|].
    assert (- 2 ^ 33 <= e < 2 ^ 33) by lia.
    eexists. split; [eapply view_num; [done|lia|done|done|lia..]|].
    intros b spare. rewrite decimalEandM_spare, E. cbn [mbind res_bind].
    apply encodeEandM_eq; [lia|apply Hn].
  - eexists. split; [by apply view_inf|]. intros. by destruct (is_neg invert d).
  - done.
  - eexists. split; [by apply view_nan|]. intros. by destruct invert.
Qed.

Lemma dec_key_view d invert : dec_ok d -> dec_view invert d (dec_key invert d).
Proof. intros (l & V & E)%(encodeDecimal_view d invert). unfold dec_key. by rewrite E. Qed.

Lemma encodeDecimal_key d invert b spare :
  dec_ok d -> encodeDecimal b spare d invert = Ok (b ++ dec_key invert d).
Proof. intros (l & V & E)%(encodeDecimal_view d invert). unfold dec_key. by rewrite !E. Qed.
End Keys.

Lemma exp_code_first neg e r :
  exists c l, exp_code neg e ++ r = c :: l /\
    if neg then decimalNegLarge <= c <= decimalNegSmall else decimalPosSmall <= c <= decimalPosLarge.
Proof.
  unfold exp_code. destruct (Z.ltb_spec e 0); [|destruct (Z.leb_spec e 10)];
    cbn [app]; eexists _, _; (split; [reflexivity|]); destruct neg; lia.
Qed.

(** Numbers of one sign compare by exponent and mantissa. *)
Lemma number_order neg x y ex mx ey my s t :
  normal mx -> normal my -> represents ex mx (Coeff x) (Exponent x) ->
  represents ey my (Coeff y) (Exponent y) ->
  - 2 ^ 62 <= ex < 2 ^ 62 -> - 2 ^ 62 <= ey < 2 ^ 62 ->
  bytes_compare ((exp_code neg ex ++ mant_code neg mx) ++ s) ((exp_code neg ey ++ mant_code neg my) ++ t) =
  lexc (let N := - Z.min (Exponent x) (Exponent y) in
        let c := Coeff x * 10 ^ (Exponent x + N) ?= Coeff y * 10 ^ (Exponent y + N) in
        if neg then CompOpp c else c) (bytes_compare s t).
Proof.
  intros Nx Ny Rx Ry Bx By. rewrite <- !app_assoc, exp_code_order, mant_code_order by done.
  cbv zeta. rewrite (represents_compare ex mx _ _ ey my) by (done || lia).
  rewrite <- lexc_assoc. f_equal. destruct neg; [|done]. by rewrite CompOpp_lexc.
Qed.

Lemma scaled_pos c k : 0 < c -> 0 <= k -> 0 < c * 10 ^ k.
Proof. intros. pose proof (Z.pow_pos_nonneg 10 k). nia. Qed.

(** Keys of decimals of different signs, or not both numbers, differ in the first byte. *)
Ltac first_byte :=
  repeat match goal with |- context [(exp_code ?n ?e ++ ?m) ++ ?s] =>
    rewrite <- (app_assoc (exp_code n e) m s);
    destruct (exp_code_first n e (m ++ s)) as (? & ? & -> & ?) end;
  cbn [app]; rewrite bytes_compare_cons; zcompare; done.

Lemma dec_view_order invert x y lx ly s t :
  dec_view invert x lx -> dec_view invert y ly ->
  bytes_compare (lx ++ s) (ly ++ t) =
  lexc (if invert then CompOpp (dec_cmp x y) else dec_cmp x y) (bytes_compare s t).
Proof.
  intros Vx Vy. unfold dec_cmp, dec_class, dec_signed. cbv zeta.
  set (N := - Z.min (Exponent x) (Exponent y)).
  destruct Vx as [Fx|Fx|Fx Zx|ex mx Fx Px Nx Rx _ _ Bx _], Vy as [Fy|Fy|Fy Zy|ey my Fy Py Ny Ry _ _ By _];
    rewrite Fx, Fy; unfold is_neg; cbn [Z.eqb].
  all: try (pose proof (scaled_pos (Coeff x) (Exponent x + N) Px ltac:(lia))).
  all: try (pose proof (scaled_pos (Coeff y) (Exponent y + N) Py ltac:(lia))).
  all: rewrite ?Zx, ?Zy, ?Z.mul_0_l.
  16: destruct (Bool.eqb (Negative x) (Negative y)) eqn:En;
    [apply Bool.eqb_prop in En; rewrite En|].
  16: { rewrite (number_order _ x y) by (done || lia). fold N. f_equal.
        destruct (Negative y), invert; cbn [Bool.eqb negb Z.compare lexc];
          rewrite ?Z.compare_opp, ?(Z.compare_antisym (Coeff x * _)), ?CompOpp_involutive; done. }
  all: destruct (Negative x) eqn:Ex, (Negative y) eqn:Ey, invert; try discriminate En;
    cbn [Bool.eqb negb CompOpp]; first_byte.
Qed.

(** * Round trip *)

Definition undig (ms : list Z) : list Z := ms ≫= fun x => [x / 10; x mod 10].

Lemma undig_spec ms :
  Forall (digit 100) ms ->
  Forall (digit 10) (undig ms) /\ length (undig ms) = (2 * length ms)%nat /\
  num 10 (undig ms) = num 100 ms.
Proof.
  induction 1 as [|x ms Hx Hms (F & L & E)]; [done|]. unfold undig in *. cbn [mbind list_bind app].
  split_and!.
  - repeat constructor; [..|done]; Z.div_mod_to_equations; lia.
  - cbn [length] in *. lia.
  - rewrite !num_cons, E. cbn [length]. rewrite L.
    replace (Z.of_nat (S (2 * length ms))) with (2 * len ms + 1) by lia.
    rewrite (Z.pow_add_r 10 _ 1) by lia. replace (Z.of_nat (2 * length ms)) with (2 * len ms) by lia.
    rewrite Z.pow_mul_r by lia. change (10 ^ 2) with 100. Z.div_mod_to_equations. lia.
Qed.

Lemma mantissa_digits_mant ms b :
  Forall (digit 100) ms -> mantissa_digits (mant ms) b = Ok (b ++ asc (undig ms)).
Proof.
  intros F. revert b. induction F as [|x ms Hx Hms IH]; intros b; [by rewrite app_nil_r|].
  assert (forall v, v / 2 = x -> mantissa_digits (v :: mant ms) b = Ok (b ++ asc (undig (x :: ms)))) as Hv.
  { intros v E. cbn [mantissa_digits]. rewrite E.
    destruct (Z.ltb_spec x 0), (Z.ltb_spec 99 x); try lia. cbn [orb]. rewrite IH, <- app_assoc.
    rewrite !(wrapU_id 8) by (unfold isU; Z.div_mod_to_equations; lia).
    unfold undig, asc. cbn [mbind list_bind app fmap list_fmap]. do 3 f_equal; [lia|]. f_equal. lia. }
  destruct ms as [|y ms].
  - change (mant [x]) with [2 * x]. apply Hv. Z.div_mod_to_equations. lia.
  - rewrite mant_cons by done. apply Hv. Z.div_mod_to_equations. lia.
Qed.

Lemma SetString_asc ds : Forall (digit 10) ds -> ds <> [] -> SetString (asc ds) = Some (num 10 ds).
Proof.
  intros F Hne. unfold SetString. destruct ds as [|d ds]; [done|].
  change (asc (d :: ds)) with ((48 + d) :: asc ds). cbv iota.
  change ((48 + d) :: asc ds) with (asc (d :: ds)).
  assert (forallb is_digit (asc (d :: ds)) = true) as ->.
  { apply Is_true_true, forallb_True. unfold asc. apply Forall_fmap. eapply Forall_impl; [exact F|].
    intros x Hx. cbn in Hx |- *. unfold is_digit. apply andb_True.
    split; apply Is_true_true, Z.leb_le; lia. }
  f_equal. unfold num, asc. generalize 0 as a. clear F Hne. generalize (d :: ds) as l.
  induction l as [|x l IH]; intros a; [done|]. cbn [fmap list_fmap foldl]. rewrite IH. f_equal. lia.
Qed.

(** The digits of a mantissa, without the last one if it is zero. *)
Lemma strip_last_digit ms :
  Forall (digit 100) ms -> trimmed ms ->
  exists last ds (k : bool), go_index (asc (undig ms)) (len (undig ms) - 1) = Ok last /\
    (if last =? 48 then take (length (undig ms) - 1) (asc (undig ms)) else asc (undig ms)) = asc ds /\
    Forall (digit 10) ds /\ num 10 ds mod 10 <> 0 /\ 0 < num 10 ds /\
    num 10 ds * 10 ^ (if k then 1 else 0) = num 100 ms /\ len ds = 2 * len ms - (if k then 1 else 0).
Proof.
  intros F0 (ms' & m & -> & Hm). destruct (undig_spec _ F0) as (Fu & Lu & Nu).
  pose proof F0 as [F' [Fm _]%Forall_cons]%Forall_app. destruct (undig_spec _ F') as (Fu' & Lu' & _).
  pose proof (num_bound 10 _ ltac:(lia) Fu') as B. rewrite length_app in *. cbn [length] in *.
  assert (undig (ms' ++ [m]) = undig ms' ++ [m / 10] ++ [m mod 10]) as Eu by (unfold undig; by rewrite bind_app).
  assert (num 10 (undig ms' ++ [m / 10]) = num 10 (undig ms') * 10 + m / 10) as En
    by (rewrite num_app; unfold num; cbn [foldl length]; change (10 ^ Z.of_nat 1) with 10; lia).
  rewrite Eu in *. rewrite app_assoc in *. rewrite num_app, En in Nu.
  unfold num in Nu at 2. cbn [foldl length] in Nu. change (10 ^ Z.of_nat 1) with 10 in Nu.
  exists (48 + m mod 10). unfold asc at 1 2 3. rewrite fmap_app. cbn [fmap list_fmap].
  rewrite (go_index_app _ []) by (rewrite length_fmap, length_app; cbn; lia).
  destruct (Z.eqb_spec (48 + m mod 10) 48) as [E|E].
  - exists (undig ms' ++ [m / 10]), true. rewrite En. split_and!; [done| | | | | |].
    + rewrite take_app_length' by (rewrite length_fmap, !length_app; cbn; lia). done.
    + by apply Forall_app in Fu as [? _].
    + Z.div_mod_to_equations. lia.
    + Z.div_mod_to_equations. lia.
    + change (10 ^ 1) with 10. lia.
    + rewrite !length_app in *. cbn [length] in *. lia.
  - exists ((undig ms' ++ [m / 10]) ++ [m mod 10]), false. rewrite num_app, En.
    change (num 10 [m mod 10]) with (m mod 10). cbn [length]. change (10 ^ Z.of_nat 1) with 10.
    split_and!; [done|symmetry; apply (fmap_app _ (undig ms' ++ [m / 10]) [m mod 10])|done|Z.div_mod_to_equations; lia
      |Z.div_mod_to_equations; lia|change (10 ^ 0) with 1; lia|lia].
Qed.

(** The decimal made from a mantissa is the one encoded, without trailing zeros. *)
Lemma makeDecimal_mant negative e ms :
  normal ms -> - 2 ^ 60 <= e < 2 ^ 60 -> len ms < 2 ^ 61 ->
  exists c x, makeDecimalFromMandE negative e (mant ms) = Ok (MkDecimal Finite negative (s32 x) c) /\
    c mod 10 <> 0 /\ 0 < c /\
    forall N, 0 <= x + N -> 0 <= 2 * (e - len ms) + N ->
      c * 10 ^ (x + N) = num 100 ms * 10 ^ (2 * (e - len ms) + N).
Proof.
  intros (F & T & d & l & Ems & _) He L.
  destruct (strip_last_digit ms F T) as (last & ds & k & G & S & Fd & M10 & P & E & Ln).
  unfold makeDecimalFromMandE. rewrite mant_length.
  replace (length ms =? 0)%nat with false by (symmetry; apply Nat.eqb_neq; subst; cbn; lia).
  rewrite mantissa_digits_mant by done. cbn [mbind res_bind app].
  rewrite asc_length, G. cbn [mbind res_bind]. rewrite S.
  rewrite SetString_asc by (done || by intros ->). rewrite asc_length, Ln.
  rewrite (wrapS_id 64 (2 * e)), (wrapS_id 64) by (lia || (unfold isS; destruct k; lia)).
  eexists _, _. split; [reflexivity|]. split_and!; [done..|].
  intros N HN1 HN2. rewrite <- E, <- Z.mul_assoc, <- Z.pow_add_r by (destruct k; lia).
  do 2 f_equal. lia.
Qed.

(** The exponent of a number in lowest terms. *)
Lemma lowest_terms c x c' x' :
  0 < c -> 0 < c' -> c' mod 10 <> 0 ->
  (forall N, 0 <= x + N -> 0 <= x' + N -> c' * 10 ^ (x' + N) = c * 10 ^ (x + N)) ->
  x <= x' <= x + Z.log2 c.
Proof.
  intros Hc Hc' M E. split.
  - destruct (Z.le_gt_cases x x') as [|Hx]; [done|exfalso].
    specialize (E (- x') ltac:(lia) ltac:(lia)). rewrite Z.add_opp_diag_r, Z.mul_1_r in E.
    apply M. rewrite E. replace (x + - x') with (Z.succ (x - x' - 1)) by lia.
    rewrite Z.pow_succ_r, Z.mul_assoc, (Z.mul_comm c), <- Z.mul_assoc by lia.
    rewrite Z.mul_comm. apply Z.mod_mul. lia.
  - destruct (Z.le_gt_cases x' (x + Z.log2 c)) as [|Hx]; [done|exfalso].
    specialize (E (- x) ltac:(lia)). pose proof (Z.log2_nonneg c).
    specialize (E ltac:(lia)). rewrite Z.add_opp_diag_r, Z.mul_1_r in E.
    pose proof (Z.log2_spec c Hc) as [_ B].
    assert (2 ^ Z.succ (Z.log2 c) <= 10 ^ Z.succ (Z.log2 c)) by (apply Z.pow_le_mono_l; lia).
    assert (10 ^ Z.succ (Z.log2 c) <= 10 ^ (x' + - x)) by (apply Z.pow_le_mono_r; lia).
    nia.
Qed.

Lemma mant_bound l x : Forall (digit 100) l -> x ∈ mant l -> x <= 199.
Proof.
  intros F Hx. induction F as [|y l Hy Hl IH]; [by apply elem_of_nil in Hx|].
  destruct l as [|z l]; [apply list_elem_of_singleton in Hx; lia|].
  rewrite mant_cons in Hx by done. apply elem_of_cons in Hx as [->|?]; [lia|auto].
Qed.

Lemma mant_code_index neg ms r :
  normal ms -> IndexByte (mant_code neg ms ++ r) decimalTerminator = Some (length ms).
Proof.
  intros (F & T & _). unfold mant_code. rewrite <- app_assoc. cbn [app].
  rewrite <- (mant_length ms).
  assert (length (mant ms) = length (if neg then notb <$> mant ms else mant ms)) as ->
    by (destruct neg; [by rewrite length_fmap|done]).
  apply IndexByte_app. destruct neg; [|by apply mant_no_zero].
  intros (x & E & Hx)%list_elem_of_fmap. pose proof (mant_bound _ _ F Hx).
  assert (byte_ok x) by (apply (proj1 (Forall_forall _ _) (mant_ok _ F)); done).
  rewrite notb_eq in E by done. lia.
Qed.

Lemma cut_mantissa_mant neg ms r :
  normal ms -> cut_mantissa neg (mant_code neg ms ++ r) = Ok (mant ms, r).
Proof.
  intros Hn. unfold cut_mantissa, findDecimalTerminator. rewrite mant_code_index by done.
  cbn [mbind res_bind]. rewrite Nat2Z.id. unfold mant_code. rewrite <- app_assoc. cbn [app].
  assert (length ms = length (if neg then notb <$> mant ms else mant ms)) as ->
    by (destruct neg; rewrite ?length_fmap; by rewrite mant_length).
  rewrite cut_take, cut_drop1. destruct neg; [|done].
  rewrite onesComplement_map by apply map_notb_ok.
  rewrite map_notb_involutive; [done|]. apply mant_ok, Hn.
Qed.

Lemma wrapS_wrapU w z : 1 <= w -> wrapS w (wrapU w z) = wrapS w z.
Proof. intros. unfold wrapS, wrapU. by rewrite Zplus_mod_idemp_l. Qed.

Lemma enc_exp_dec (asc : bool) v r :
  isU 64 v ->
  (if asc then DecodeUvarintAscending (enc_exp asc v ++ r)
   else DecodeUvarintDescending (enc_exp asc v ++ r)) = Ok (r, v).
Proof.
  intros Hv. destruct asc; cbn [enc_exp].
  - by apply (oc_roundtrip (enc := EncodeUvarintAscending)).
  - by apply (oc_roundtrip (enc := EncodeUvarintDescending)).
Qed.

(** Case analysis on integer tests, dropping the cases [lia] excludes at once. *)
Ltac zprune :=
  repeat match goal with
  | |- context [?a <=? ?b] => destruct (Z.leb_spec a b); try (exfalso; lia); []
  | |- context [?a <? ?b] => destruct (Z.ltb_spec a b); try (exfalso; lia); []
  | |- context [?a =? ?b] => destruct (Z.eqb_spec a b); try (exfalso; lia); []
  end.

(** Decoding a number gets back to its exponent and mantissa. *)
Lemma decode_number (neg invert : bool) e ms r :
  normal ms -> - 2 ^ 60 <= e < 2 ^ 60 ->
  decodeDecimal ((exp_code neg e ++ mant_code neg ms) ++ r) invert =
  (d ← makeDecimalFromMandE (if neg then negb invert else invert) e (mant ms); Ok (r, d)).
Proof.
  intros Hn He. rewrite <- app_assoc. unfold exp_code, decodeDecimal.
  destruct (Z.ltb_spec e 0); [|destruct (Z.leb_spec e 10)]; cbn [app];
    rewrite go_index_0; cbn [mbind res_bind]; rewrite slice_from_1; cbn [mbind res_bind].
  - pose proof (enc_exp_dec neg (- e) (mant_code neg ms ++ r) ltac:(unfold isU; lia)) as D.
    destruct neg; cbn [Z.eqb Pos.eqb orb andb Z.ltb Z.leb Z.compare Pos.compare Pos.compare_cont];
      unfold decodeSmallNumber; rewrite slice_from_1; cbn [mbind res_bind];
      rewrite D; cbn [mbind res_bind];
      rewrite cut_mantissa_mant by done; cbn [mbind res_bind];
      rewrite Z.opp_involutive, wrapS_wrapU, wrapS_id by (lia || unfold isS; lia); done.
  - destruct neg; zprune; cbn [orb andb]; unfold decodeMediumNumber; rewrite slice_from_1;
      cbn [mbind res_bind]; rewrite cut_mantissa_mant by done; cbn [mbind res_bind];
      rewrite go_index_0; cbn [mbind res_bind]; rewrite (wrapU_id 8) by (unfold isU; lia);
      repeat f_equal; lia.
  - pose proof (enc_exp_dec (negb neg) e (mant_code neg ms ++ r) ltac:(unfold isU; lia)) as D.
    destruct neg; cbn [negb Z.eqb Pos.eqb orb andb Z.ltb Z.leb Z.compare Pos.compare Pos.compare_cont] in *;
      unfold decodeLargeNumber; rewrite slice_from_1; cbn [mbind res_bind];
      rewrite D; cbn [mbind res_bind];
      rewrite cut_mantissa_mant by done; cbn [mbind res_bind];
      rewrite wrapS_id by (lia || unfold isS; lia); done.
Qed.

(** What decoding preserves: the kind, the value, not the trailing zeros. *)
Definition dec_reduced (d : Decimal) : Prop := d = zero_decimal \/ Coeff d mod 10 <> 0.

Lemma dec_cmp_eq x y :
  Form x = Finite -> Form y = Finite -> Negative x = Negative y ->
  (forall N, 0 <= Exponent x + N -> 0 <= Exponent y + N ->
    Coeff x * 10 ^ (Exponent x + N) = Coeff y * 10 ^ (Exponent y + N)) ->
  dec_cmp x y = Eq.
Proof.
  intros Fx Fy S E. unfold dec_cmp, dec_class, dec_signed. rewrite Fx, Fy, S. cbn [Z.eqb].
  cbn [Z.compare lexc]. rewrite E by lia. destruct (Negative y); apply Z.compare_refl.
Qed.

Lemma dec_cmp_zero x y :
  Form x = Finite -> Form y = Finite -> Coeff x = 0 -> Coeff y = 0 -> dec_cmp x y = Eq.
Proof.
  intros Fx Fy Cx Cy. unfold dec_cmp, dec_class, dec_signed. rewrite Fx, Fy, Cx, Cy, !Z.mul_0_l.
  by destruct (Negative x), (Negative y).
Qed.

Lemma is_neg_xor invert d : (if is_neg invert d then negb invert else invert) = Negative d.
Proof. unfold is_neg. by destruct (Negative d), invert. Qed.

(** Keys of one byte. *)
Ltac one_byte :=
  unfold decodeDecimal; cbn [app]; rewrite go_index_0; cbn [mbind res_bind];
  rewrite slice_from_1; done.

Lemma dec_view_roundtrip invert d l r :
  dec_ok d -> dec_view invert d l ->
  exists d', decodeDecimal (l ++ r) invert = Ok (r, d') /\ Form d' = Form d /\ dec_cmp d' d = Eq /\
    (Form d = Finite -> dec_reduced d').
Proof.
  intros [_ Hok] V. destruct V as [F|F|F Z|e ms F P N R B1 B2 B3 B4].
  - exists (MkDecimal NaN_ false 0 0). unfold dec_cmp, dec_class. rewrite F.
    split_and!; [destruct invert; one_byte|done..].
  - exists (MkDecimal Infinite (Negative d) 0 0). unfold dec_cmp, dec_class. rewrite F. cbn [Form Negative].
    split_and!; [|done|by destruct (Negative d)|done]. unfold is_neg.
    destruct (Negative d), invert; one_byte.
  - exists zero_decimal. split_and!; [one_byte|done|by apply dec_cmp_zero|by left].
  - destruct (Hok F) as (_ & Hx1 & Hx2).
    rewrite decode_number by (done || lia). rewrite is_neg_xor.
    destruct (makeDecimal_mant (Negative d) e ms) as (c & x & -> & M & Pc & E); [done|lia..|].
    assert (forall N, 0 <= Exponent d + N -> 0 <= x + N ->
      c * 10 ^ (x + N) = Coeff d * 10 ^ (Exponent d + N)) as EN.
    { intros N0 H1 H2. set (M0 := N0 + Z.abs e + len ms + 2 * Z.abs (e - len ms)).
      assert (c * 10 ^ (x + M0) = Coeff d * 10 ^ (Exponent d + M0)) as E0
        by (rewrite E by lia; apply R; lia).
      apply Z.compare_eq_iff. rewrite (scale_compare c (Coeff d) x (Exponent d) N0 M0) by lia.
      by apply Z.compare_eq_iff. }
    pose proof (lowest_terms (Coeff d) (Exponent d) c x P Pc M EN).
    rewrite (wrapS_id 32 x) by (lia || unfold isS; lia).
    eexists. split; [reflexivity|]. split_and!; [done| |by right].
    apply dec_cmp_eq; [done..|]. cbn [Exponent Coeff]. intros. by apply EN.
Qed.

(** ** Lengths *)

Lemma getVarintLen_exp (asc : bool) v r :
  isU 64 v -> getVarintLen (enc_exp asc v ++ r) = Ok (len (enc_exp asc v)).
Proof. destruct asc; [apply getVarintLen_uvarint|apply getVarintLen_uvarint_desc]. Qed.

Lemma mant_code_length neg ms : length (mant_code neg ms) = S (length ms).
Proof.
  unfold mant_code. rewrite length_app. cbn [length].
  destruct neg; rewrite ?length_fmap, mant_length; lia.
Qed.

Lemma getDecimalLen_view invert d l r :
  dec_view invert d l -> getDecimalLen (l ++ r) = Ok (len l).
Proof.
  intros V. destruct V as [F|F|F Z|e ms F P N R B1 B2 B3 B4].
  - unfold getDecimalLen. cbn [app]. rewrite go_index_0. by destruct invert.
  - unfold getDecimalLen. cbn [app]. rewrite go_index_0. by destruct (is_neg invert d).
  - unfold getDecimalLen. cbn [app]. by rewrite go_index_0.
  - set (neg := is_neg invert d). rewrite <- app_assoc. unfold getDecimalLen, exp_code.
    assert (forall asc v, isU 64 v -> forall tag,
      (rest ← slice_from (tag :: enc_exp asc v ++ mant_code neg ms ++ r) 1;
       l ← getVarintLen rest; Ok (1 + l)) = Ok (len (tag :: enc_exp asc v))) as Hexp.
    { intros asc v Hv tag. rewrite slice_from_1. cbn [mbind res_bind].
      rewrite getVarintLen_exp by done. cbn [mbind res_bind length]. f_equal. lia. }
    assert (forall a, (rest ← slice_from (a ++ mant_code neg ms ++ r) (len a);
      idx ← findDecimalTerminator rest; Ok (len a + idx + 1)) = Ok (len (a ++ mant_code neg ms))) as Hm.
    { intros a. rewrite slice_from_app by done. cbn [mbind res_bind]. unfold findDecimalTerminator.
      rewrite mant_code_index by done. cbn [mbind res_bind]. f_equal.
      rewrite length_app, mant_code_length. lia. }
    destruct (Z.ltb_spec e 0); [|destruct (Z.leb_spec e 10)]; cbn [app]; rewrite go_index_0;
      cbn [mbind res_bind]; [|destruct neg; zprune; cbn [orb]; cbn [mbind res_bind]; apply (Hm [_])|].
    + specialize (Hexp neg (- e) ltac:(unfold isU; lia)).
      destruct neg; cbn [Z.eqb Pos.eqb orb Z.ltb Z.compare Pos.compare Pos.compare_cont];
        rewrite Hexp; cbn [mbind res_bind]; apply (Hm (_ :: _)).
    + specialize (Hexp (negb neg) e ltac:(unfold isU; lia)).
      destruct neg; cbn [negb Z.eqb Pos.eqb orb Z.ltb Z.compare Pos.compare Pos.compare_cont] in *;
        rewrite Hexp; cbn [mbind res_bind]; apply (Hm (_ :: _)).
Qed.

(** * What the encoding guarantees *)

(** C38: The key encoding of decimals.  The encoders append one key whatever the buffer's
    spare capacity holds; keys sort as the values do, NaN first and the infinities at the
    ends (descending: the opposite), whatever follows; decoding gives the decimal back
    up to trailing zeros, and the length function finds the end of the key. *)
Theorem decimal_encoding `{ApdLib} x y b spare s t :
  dec_ok x -> dec_ok y ->
  exists ax ay dx dy,
    (EncodeDecimalAscending b spare x = Ok (b ++ ax) /\ EncodeDecimalAscending b spare y = Ok (b ++ ay) /\
     EncodeDecimalDescending b spare x = Ok (b ++ dx) /\ EncodeDecimalDescending b spare y = Ok (b ++ dy)) /\
    bytes_compare (ax ++ s) (ay ++ t) = lexc (dec_cmp x y) (bytes_compare s t) /\
    bytes_compare (dx ++ s) (dy ++ t) = lexc (CompOpp (dec_cmp x y)) (bytes_compare s t) /\
    (exists d, DecodeDecimalAscending (ax ++ s) = Ok (s, d) /\ Form d = Form x /\ dec_cmp d x = Eq) /\
    (exists d, DecodeDecimalDescending (dx ++ s) = Ok (s, d) /\ Form d = Form x /\ dec_cmp d x = Eq) /\
    getDecimalLen (ax ++ s) = Ok (len ax) /\ getDecimalLen (dx ++ s) = Ok (len dx).
Proof.
  intros Hx Hy. exists (dec_key false x), (dec_key false y), (dec_key true x), (dec_key true y).
  pose proof (dec_key_view x false Hx) as Ax. pose proof (dec_key_view x true Hx) as Dx.
  pose proof (dec_key_view y false Hy) as Ay. pose proof (dec_key_view y true Hy) as Dy.
  split_and!; eauto using encodeDecimal_key, getDecimalLen_view.
  - by apply (dec_view_order false).
  - by apply (dec_view_order true).
  - destruct (dec_view_roundtrip false x _ s Hx Ax) as (d & ? & ? & ? & _). by exists d.
  - destruct (dec_view_roundtrip true x _ s Hx Dx) as (d & ? & ? & ? & _). by exists d.
Qed.

(** A library with the documented behaviour. *)
Definition apd_lib : ApdLib.
Proof.
  refine {| IsZero := fun d => bool_decide (Form d = Finite) && (Coeff d =? 0) |}.
  intros d. rewrite andb_true_iff, bool_decide_eq_true, Z.eqb_eq. done.
Defined.

Lemma decimal_encoding_witness :
  let x := MkDecimal Finite true (-2) 12300 in
  exists k d, @EncodeDecimalAscending apd_lib [9] [] x = Ok ([9] ++ k) /\
    DecodeDecimalAscending (k ++ [7]) = Ok ([7], d) /\ dec_cmp d x = Eq.
Proof.
  intros x. assert (dec_ok x) as Hx by (split; [done|intros _; by vm_compute]).
  destruct (@decimal_encoding apd_lib x x [9] [] [7] [] Hx Hx)
    as (k & _ & _ & _ & (Ek & _) & _ & _ & (d & Ed & _ & Cd) & _).
  by exists k, d.
Defined.
