(* ===== verification/GeoEnc.v ===== *)
(** Key encodings of spatial values (src/pkg/util/encoding/encoding.go, src/pkg/geo/bbox.go).

    Bounding boxes are four floats; spatial objects are a position on a space-filling
    curve followed by the serialised object.  Serialisation is generated code and the
    curve is the geometry library's: both are parameters. *)
From S2P Require Import Prelude Bytes IntEnc BytesEnc KeyEnc.

(** * Bounding boxes *)

Record BoundingBox := MkBox { LoX : Z; HiX : Z; LoY : Z; HiY : Z }.

(** [x < y] on floats. *)
Definition float_lt (x y : Z) : bool := negb (IsNaN x) && negb (IsNaN y) && (fval x <? fval y).

(** One coordinate of [CartesianBoundingBox.Compare]: -1, 1 or go on. *)
Definition compare_coord (x y : Z) (rest : comparison) : comparison :=
  if float_lt x y || (IsNaN x && negb (IsNaN y)) then Lt
  else if float_lt y x || (negb (IsNaN x) && IsNaN y) then Gt
  else rest.
Definition CartesianBoundingBox_Compare (b o : BoundingBox) : comparison :=
  compare_coord (LoX b) (LoX o)
    (compare_coord (HiX b) (HiX o)
      (compare_coord (LoY b) (LoY o)
        (compare_coord (HiY b) (HiY o) Eq))).

Definition EncodeBox2DAscending (b : bytes) (box : BoundingBox) : res bytes :=
  let b := b ++ [box2DMarker] in
  let b := EncodeFloatAscending b (LoX box) in
  let b := EncodeFloatAscending b (HiX box) in
  let b := EncodeFloatAscending b (LoY box) in
  let b := EncodeFloatAscending b (HiY box) in
  Ok b.

Definition EncodeBox2DDescending (b : bytes) (box : BoundingBox) : res bytes :=
  let b := b ++ [box2DMarker] in
  let b := EncodeFloatDescending b (LoX box) in
  let b := EncodeFloatDescending b (HiX box) in
  let b := EncodeFloatDescending b (LoY box) in
  let b := EncodeFloatDescending b (HiY box) in
  Ok b.

Definition DecodeBox2DAscending (b : bytes) : res (bytes * BoundingBox) :=
  if decide (PeekType b = Box2D) then
    let b := drop 1 b in
    '(b, loX) ← DecodeFloatAscending b;
    '(b, hiX) ← DecodeFloatAscending b;
    '(b, loY) ← DecodeFloatAscending b;
    '(b, hiY) ← DecodeFloatAscending b;
    Ok (b, MkBox loX hiX loY hiY)
  else Err "did not find Box2D marker".

Definition DecodeBox2DDescending (b : bytes) : res (bytes * BoundingBox) :=
  if decide (PeekType b = Box2D) then
    let b := drop 1 b in
    '(b, loX) ← DecodeFloatDescending b;
    '(b, hiX) ← DecodeFloatDescending b;
    '(b, loY) ← DecodeFloatDescending b;
    '(b, hiY) ← DecodeFloatDescending b;
    Ok (b, MkBox loX hiX loY hiY)
  else Err "did not find Box2D marker".

(** * Keys of geospatial inverted indexes *)

Abbreviation geoInvertedFourFloats := 0.
Abbreviation geoInvertedTwoFloats := 1.

(** [x == y] on floats. *)
Definition float_eq (x y : Z) : bool := negb (IsNaN x) && negb (IsNaN y) && (fval x =? fval y).

Definition EncodeUntaggedFloatValue (appendTo : bytes) (f : Z) : bytes := EncodeUint64Ascending appendTo f.
Definition DecodeUntaggedFloatValue (b : bytes) : res (bytes * Z) :=
  if (length b <? 8)%nat then Err "float64 value should be exactly 8 bytes"
  else DecodeUint64Ascending b.

Definition EncodeGeoInvertedAscending (b : bytes) : bytes := b ++ [geoInvertedIndexMarker].

Definition EncodeGeoInvertedBBox (b : bytes) (loX loY hiX hiY : Z) : bytes :=
  let encodeTwoFloats := float_eq loX hiX && float_eq loY hiY in
  if encodeTwoFloats then
    let b := b ++ [geoInvertedTwoFloats] in
    let b := EncodeUntaggedFloatValue b loX in
    EncodeUntaggedFloatValue b loY
  else
    let b := b ++ [geoInvertedFourFloats] in
    let b := EncodeUntaggedFloatValue b loX in
    let b := EncodeUntaggedFloatValue b loY in
    let b := EncodeUntaggedFloatValue b hiX in
    EncodeUntaggedFloatValue b hiY.

(** The box is (loX, loY, hiX, hiY). *)
Definition DecodeGeoInvertedKey (b : bytes) : res (Z * Z * Z * Z * bytes) :=
  if (length b <? 3 + 2 * 8)%nat then Err "inverted key length too small"
  else
    m ← go_index b 0;
    if negb (m =? geoInvertedIndexMarker) then Err "marker is not geoInvertedIndexMarker"
    else
      b ← slice_from b 1;
      cellLen ← getVarintLen b;
      if Z.of_nat (length b) <? cellLen + 17 then Err "insufficient length for encoded bbox"
      else
        encodingKind ← go_index b cellLen;
        if negb (encodingKind =? geoInvertedTwoFloats) && negb (encodingKind =? geoInvertedFourFloats)
        then Err "unknown encoding kind for bbox"
        else
          b ← slice_from b (cellLen + 1);
          '(b, loX) ← DecodeUntaggedFloatValue b;
          '(b, loY) ← DecodeUntaggedFloatValue b;
          if encodingKind =? geoInvertedFourFloats then
            '(b, hiX) ← DecodeUntaggedFloatValue b;
            '(b, hiY) ← DecodeUntaggedFloatValue b;
            Ok (loX, loY, hiX, hiY, b)
          else Ok (loX, loY, loX, loY, b).

(** * Spatial objects *)

Class GeoLib := {
  SpatialObject : Type;
  Marshal : SpatialObject -> res bytes;
  Unmarshal : bytes -> res SpatialObject;
  Geography_SpaceCurveIndex : SpatialObject -> Z;
  Geometry_SpaceCurveIndex : SpatialObject -> res Z;
  Marshal_bytes so d : Marshal so = Ok d -> bytes_ok d;
  Marshal_Unmarshal so d : Marshal so = Ok d -> Unmarshal d = Ok so;
  Geography_SpaceCurveIndex_u64 so : isU 64 (Geography_SpaceCurveIndex so);
  Geometry_SpaceCurveIndex_u64 so i : Geometry_SpaceCurveIndex so = Ok i -> isU 64 i
}.

Section Geo.
Context `{GeoLib}.

Definition EncodeGeoAscending (b : bytes) (curveIndex : Z) (so : SpatialObject) : res bytes :=
  let b := b ++ [geoMarker] in
  let b := EncodeUint64Ascending b curveIndex in
  data ← Marshal so;
  Ok (encodeBytesAscendingWithTerminator b data (e_escapedTerm ascendingGeoEscapes)).

Definition EncodeGeoDescending (b : bytes) (curveIndex : Z) (so : SpatialObject) : res bytes :=
  let b := b ++ [geoDescMarker] in
  let b := EncodeUint64Descending b curveIndex in
  data ← Marshal so;
  let n := length b in
  let b := encodeBytesAscendingWithTerminator b data (e_escapedTerm ascendingGeoEscapes) in
  Ok (take n b ++ onesComplement (drop n b)).

Definition DecodeGeoAscending (b : bytes) : res (bytes * SpatialObject) :=
  if decide (PeekType b = Geo) then
    let b := drop 1 b in
    '(b, _) ← DecodeUint64Ascending b;
    '(b, pbBytes) ← decodeBytesInternal b [] ascendingGeoEscapes false false;
    so ← Unmarshal pbBytes;
    Ok (b, so)
  else Err "did not find Geo marker".

Definition DecodeGeoDescending (b : bytes) : res (bytes * SpatialObject) :=
  if decide (PeekType b = GeoDesc) then
    let b := drop 1 b in
    '(b, _) ← DecodeUint64Descending b;
    '(b, pbBytes) ← decodeBytesInternal b [] descendingGeoEscapes false false;
    let pbBytes := onesComplement pbBytes in
    so ← Unmarshal pbBytes;
    Ok (b, so)
  else Err "did not find Geo marker".
End Geo.

(** [decodeBytesInternal] without a deep copy returns a sub-slice of its input when it has
    nothing decoded yet ([r] is nil) and the first escape is the terminator; the sub-slice
    ends there ([geo_alias_decodes]). *)
Definition geo_desc_aliased (b : bytes) : option nat :=
  match IndexByte b (e_escape descendingGeoEscapes) with
  | Some i => if nth (i + 1) b 0 =? e_escapedTerm descendingGeoEscapes then Some i else None
  | None => None
  end.
(** The contents of the caller's slice after [DecodeGeoDescending]: [onesComplement] of a
    sub-slice of the key changes the key. *)
Definition DecodeGeoDescending_key (b : bytes) : bytes :=
  if decide (PeekType b = GeoDesc) then
    match DecodeUint64Descending (drop 1 b) with
    | Ok (rest, _) =>
        match geo_desc_aliased rest with
        | Some i => take 9 b ++ onesComplement (take i rest) ++ drop i rest
        | None => b
        end
    | _ => b
    end
  else b.

(** * Properties of boxes *)

Lemma compare_coord_eq x y c : compare_coord x y c = lexc (float_cmp x y) c.
Proof.
  unfold compare_coord, float_cmp, float_lt. destruct (IsNaN x), (IsNaN y); cbn [negb andb orb]; try done.
  rewrite !orb_false_r. destruct (Z.ltb_spec (fval x) (fval y)), (Z.ltb_spec (fval y) (fval x)),
    (Z.compare_spec (fval x) (fval y)); try lia; done.
Qed.

Definition box_ok (b : BoundingBox) : Prop :=
  isU 64 (LoX b) /\ isU 64 (HiX b) /\ isU 64 (LoY b) /\ isU 64 (HiY b).
Definition box_norm (b : BoundingBox) : BoundingBox :=
  MkBox (float_norm (LoX b)) (float_norm (HiX b)) (float_norm (LoY b)) (float_norm (HiY b)).

Lemma EncodeFloatDescending_append b f : EncodeFloatDescending b f = b ++ EncodeFloatDescending [] f.
Proof.
  unfold EncodeFloatDescending. destruct (IsNaN f); [done|]. apply EncodeFloatAscending_append.
Qed.

Lemma CompOpp_box c1 c2 c3 c4 :
  CompOpp (lexc c1 (lexc c2 (lexc c3 c4))) =
  lexc (CompOpp c1) (lexc (CompOpp c2) (lexc (CompOpp c3) (CompOpp c4))).
Proof. by rewrite !CompOpp_lexc. Qed.

Definition box_key (encF : bytes -> Z -> bytes) (b : BoundingBox) : bytes :=
  box2DMarker :: encF [] (LoX b) ++ encF [] (HiX b) ++ encF [] (LoY b) ++ encF [] (HiY b).

Lemma EncodeBox2D_eq b box :
  EncodeBox2DAscending b box = Ok (b ++ box_key EncodeFloatAscending box) /\
  EncodeBox2DDescending b box = Ok (b ++ box_key EncodeFloatDescending box).
Proof.
  unfold EncodeBox2DAscending, EncodeBox2DDescending, box_key. split; f_equal.
  - rewrite EncodeFloatAscending_append, (EncodeFloatAscending_append _ (LoY box)),
      (EncodeFloatAscending_append _ (HiX box)), (EncodeFloatAscending_append _ (LoX box)).
    by rewrite <- !app_assoc.
  - rewrite EncodeFloatDescending_append, (EncodeFloatDescending_append _ (LoY box)),
      (EncodeFloatDescending_append _ (HiX box)), (EncodeFloatDescending_append _ (LoX box)).
    by rewrite <- !app_assoc.
Qed.

Lemma box_order x y s t :
  box_ok x -> box_ok y ->
  bytes_compare (box_key EncodeFloatAscending x ++ s) (box_key EncodeFloatAscending y ++ t) =
    lexc (CartesianBoundingBox_Compare x y) (bytes_compare s t) /\
  bytes_compare (box_key EncodeFloatDescending x ++ s) (box_key EncodeFloatDescending y ++ t) =
    lexc (CompOpp (CartesianBoundingBox_Compare x y)) (bytes_compare s t).
Proof.
  intros (? & ? & ? & ?) (? & ? & ? & ?). unfold CartesianBoundingBox_Compare, box_key.
  rewrite !compare_coord_eq, lexc_Eq_r, CompOpp_box.
  split; cbn [app]; rewrite bytes_compare_cons, Z.compare_refl; cbn [lexc]; rewrite <- !app_assoc.
  - by rewrite !float_order, !lexc_assoc.
  - by rewrite !float_desc_order, !lexc_assoc.
Qed.

Lemma box_roundtrip x r :
  box_ok x ->
  DecodeBox2DAscending (box_key EncodeFloatAscending x ++ r) = Ok (r, box_norm x) /\
  DecodeBox2DDescending (box_key EncodeFloatDescending x ++ r) = Ok (r, box_norm x).
Proof.
  intros (? & ? & ? & ?). unfold DecodeBox2DAscending, DecodeBox2DDescending, box_key. cbn [app].
  rewrite !decide_True by marker. cbn [drop]. rewrite !drop_0, <- !app_assoc.
  split.
  - do 4 (rewrite float_roundtrip by done; cbn [mbind res_bind]). done.
  - do 4 (rewrite float_desc_roundtrip by done; cbn [mbind res_bind]). done.
Qed.

(** One float of a box is skipped. *)
Lemma box2d_loop_float n e r k :
  (exists m, e = [m] /\ (m = floatNaN \/ m = floatZero \/ m = floatNaNDesc)) \/
  (exists m l, e = m :: l /\ (m = floatNeg \/ m = floatPos) /\ length l = 8%nat) ->
  box2d_loop (S n) (e ++ r) k = box2d_loop n r (k + Z.of_nat (length e)).
Proof.
  intros [(m & -> & [->| [-> | ->]])|(m & l & -> & [-> | ->] & L)]; cbn [app box2d_loop Z.eqb Pos.eqb orb].
  1-3: done.
  all: rewrite (app_comm_cons l), slice_from_app by (cbn [length]; lia); cbn [mbind res_bind length]; by rewrite L.
Qed.

Lemma float_shape x : isU 64 x ->
  forall e, e = EncodeFloatAscending [] x \/ e = EncodeFloatDescending [] x ->
  (exists m, e = [m] /\ (m = floatNaN \/ m = floatZero \/ m = floatNaNDesc)) \/
  (exists m l, e = m :: l /\ (m = floatNeg \/ m = floatPos) /\ length l = 8%nat).
Proof.
  assert (forall x, isU 64 x -> forall e, e = EncodeFloatAscending [] x ->
    (exists m, e = [m] /\ (m = floatNaN \/ m = floatZero \/ m = floatNaNDesc)) \/
    (exists m l, e = m :: l /\ (m = floatNeg \/ m = floatPos) /\ length l = 8%nat)) as A.
  { clear. intros x Hx e ->. destruct (float_view_enc x Hx); [left; eauto|right|left; eauto|right];
      eexists _, _; (split; [reflexivity|]); rewrite be_length; auto. }
  intros Hx e [->| ->]; [by apply (A x)|]. unfold EncodeFloatDescending.
  destruct (IsNaN x); [left; eauto|]. eapply A; [apply float_neg_ok|done].
Qed.

Lemma peekBox2DLength_key encF x r :
  encF = EncodeFloatAscending \/ encF = EncodeFloatDescending -> box_ok x ->
  peekBox2DLength (drop 1 (box_key encF x) ++ r) = Ok (Z.of_nat (length (box_key encF x)) - 1).
Proof.
  intros HF (H1 & H2 & H3 & H4). unfold peekBox2DLength, box_key. cbn [drop]. rewrite drop_0, <- !app_assoc.
  rewrite box2d_loop_float by (apply (float_shape _ H1); destruct HF; subst; auto).
  rewrite box2d_loop_float by (apply (float_shape _ H2); destruct HF; subst; auto).
  rewrite box2d_loop_float by (apply (float_shape _ H3); destruct HF; subst; auto).
  rewrite box2d_loop_float by (apply (float_shape _ H4); destruct HF; subst; auto).
  cbn [box2d_loop length]. rewrite !length_app. f_equal. lia.
Qed.

(** * Properties of spatial objects *)

Lemma dec_ref_ext b r e e' :
  e_escape e = e_escape e' -> e_escapedTerm e = e_escapedTerm e' ->
  e_escaped00 e = e_escaped00 e' -> e_escapedFF e = e_escapedFF e' ->
  dec_ref b r e = dec_ref b r e'.
Proof.
  intros E1 E2 E3 E4. revert r. induction b as [[|x b] IH] using (induction_ltof1 _ (@length Z)); intros r; [done|].
  rewrite !dec_ref_cons, E1, E2, E3, E4. destruct (x =? _); [|apply IH; unfold ltof; cbn; lia].
  destruct b as [|v b]; [done|]. destruct (v =? _); [done|]. destruct (v =? _); cbn [negb]; [|done].
  apply IH. unfold ltof. cbn. lia.
Qed.

(** The bytes of a spatial object in a key. *)
Definition geo_bytes (desc : bool) (data : bytes) : bytes :=
  let l := esc_ref data ++ [escape; escapedTerm] in if desc then notb <$> l else l.

Lemma geo_bytes_ok data : bytes_ok data -> bytes_ok (esc_ref data ++ [escape; escapedTerm]).
Proof.
  intros. apply bytes_ok_app. split; [by apply esc_ref_ok|]. repeat constructor; unfold byte_ok; lia.
Qed.

Lemma geo_bytes_order desc x y s t :
  bytes_ok x -> bytes_ok y ->
  bytes_compare (geo_bytes desc x ++ s) (geo_bytes desc y ++ t) =
  lexc (if desc then CompOpp (bytes_compare x y) else bytes_compare x y) (bytes_compare s t).
Proof.
  intros Hx Hy. assert (forall s t,
    bytes_compare ((esc_ref x ++ [escape; escapedTerm]) ++ s) ((esc_ref y ++ [escape; escapedTerm]) ++ t) =
    lexc (bytes_compare x y) (bytes_compare s t)) as E.
  { intros. rewrite <- !app_assoc. apply esc_order; (done || lia). }
  unfold geo_bytes. destruct desc; [|done]. by apply complement_code; auto using geo_bytes_ok.
Qed.

Lemma decode_geo_asc data r :
  bytes_ok data ->
  decodeBytesInternal (geo_bytes false data ++ r) [] ascendingGeoEscapes false false = Ok (r, data).
Proof.
  intros Hd. unfold decodeBytesInternal, geo_bytes. rewrite decode_loop_ref by lia.
  rewrite (dec_ref_ext _ _ _ ascendingBytesEscapes) by done. rewrite <- app_assoc. by rewrite dec_ref_esc.
Qed.

Lemma decode_geo_desc data r :
  bytes_ok data -> bytes_ok r ->
  decodeBytesInternal (geo_bytes true data ++ r) [] descendingGeoEscapes false false = Ok (r, notb <$> data).
Proof.
  intros Hd Hr. unfold decodeBytesInternal, geo_bytes. rewrite decode_loop_ref by lia.
  rewrite (dec_ref_ext _ _ _ descendingBytesEscapes) by done.
  rewrite <- (map_notb_involutive r) by done. rewrite <- fmap_app, <- app_assoc.
  rewrite (dec_ref_complement _ []).
  2: { rewrite app_assoc. apply bytes_ok_app. split; [by apply geo_bytes_ok|apply map_notb_ok]. }
  rewrite dec_ref_esc by done. cbn. by rewrite map_notb_involutive.
Qed.

Section GeoProps.
Context `{GeoLib}.

Definition geo_key (desc : bool) (i : Z) (data : bytes) : bytes :=
  (if desc then geoDescMarker :: EncodeUint64Descending [] i else geoMarker :: EncodeUint64Ascending [] i)
  ++ geo_bytes desc data.

Lemma EncodeGeo_eq b i so data :
  isU 64 i -> Marshal so = Ok data ->
  EncodeGeoAscending b i so = Ok (b ++ geo_key false i data) /\
  EncodeGeoDescending b i so = Ok (b ++ geo_key true i data).
Proof.
  intros Hi M. pose proof (Marshal_bytes so data M) as Hd.
  unfold EncodeGeoAscending, EncodeGeoDescending, geo_key, geo_bytes. rewrite M. cbn [mbind res_bind].
  unfold encodeBytesAscendingWithTerminator. rewrite !escape_ref.
  rewrite (oc_append (enc := EncodeUint64Ascending)), (oc_append (enc := EncodeUint64Descending)).
  split; f_equal; [by rewrite <- !app_assoc|].
  rewrite <- (app_assoc _ (esc_ref data)), take_app_length, drop_app_length.
  rewrite onesComplement_map by by apply geo_bytes_ok. by rewrite <- !app_assoc.
Qed.

Lemma geo_order desc i j x y s t :
  isU 64 i -> isU 64 j -> bytes_ok x -> bytes_ok y ->
  bytes_compare (geo_key desc i x ++ s) (geo_key desc j y ++ t) =
  lexc (let c := lexc (i ?= j) (bytes_compare x y) in if desc then CompOpp c else c) (bytes_compare s t).
Proof.
  intros Hi Hj Hx Hy. unfold geo_key. rewrite <- !app_assoc.
  destruct desc; cbn [app]; rewrite bytes_compare_cons, Z.compare_refl; cbn [lexc].
  - rewrite (oc_order (enc := EncodeUint64Descending) (cmp := fun x y => CompOpp (x ?= y))) by done.
    by rewrite geo_bytes_order, CompOpp_lexc, lexc_assoc.
  - rewrite (oc_order (enc := EncodeUint64Ascending)) by done.
    by rewrite geo_bytes_order, lexc_assoc.
Qed.

Lemma geo_roundtrip i so data r :
  isU 64 i -> Marshal so = Ok data -> bytes_ok r ->
  DecodeGeoAscending (geo_key false i data ++ r) = Ok (r, so) /\
  DecodeGeoDescending (geo_key true i data ++ r) = Ok (r, so).
Proof.
  intros Hi M Hr. pose proof (Marshal_bytes so data M) as Hd.
  unfold DecodeGeoAscending, DecodeGeoDescending, geo_key. cbn [app]. rewrite <- !app_assoc.
  rewrite !decide_True by marker. cbn [drop]. rewrite !drop_0.
  rewrite (oc_roundtrip (enc := EncodeUint64Ascending)), (oc_roundtrip (enc := EncodeUint64Descending)) by done.
  cbn [mbind res_bind]. rewrite decode_geo_asc, decode_geo_desc by done. cbn [mbind res_bind].
  rewrite onesComplement_map, map_notb_involutive by (done || apply map_notb_ok).
  by rewrite (Marshal_Unmarshal so data M).
Qed.
End GeoProps.

(** The scan starts on the last byte of the curve index, which it takes for the tag. *)
Lemma geo_length (desc : bool) i data r :
  bytes_ok data -> bytes_ok r ->
  (rest ← slice_from (geo_key desc i data ++ r) 8;
   ret ← getBytesLength rest (if desc then descendingGeoEscapes else ascendingGeoEscapes);
   Ok (8 + ret)) = Ok (Z.of_nat (length (geo_key desc i data))).
Proof.
  intros Hd Hr.
  assert (exists a x, (if desc then geoDescMarker :: EncodeUint64Descending [] i
    else geoMarker :: EncodeUint64Ascending [] i) = a ++ [x] /\ length a = 8%nat /\ byte_ok x)
    as (a & x & E & La & Hx).
  { destruct desc; eexists [_; _; _; _; _; _; _; _], (u8 _);
      (split; [reflexivity|split; [done|apply byte_ok_u8]]). }
  unfold geo_key. rewrite E, <- !app_assoc, slice_from_app by (by rewrite La). cbn [mbind res_bind app].
  assert (getBytesLength (x :: geo_bytes desc data ++ r) (if desc then descendingGeoEscapes else ascendingGeoEscapes)
    = Ok (Z.of_nat (length (x :: geo_bytes desc data)))) as ->.
  { unfold geo_bytes. destruct desc.
    - unfold getBytesLength. rewrite (bytes_length_loop_ext _ _ _ descendingBytesEscapes) by done.
      cbn [length]. rewrite length_fmap. by apply getBytesLength_desc_tag.
    - unfold getBytesLength. rewrite (bytes_length_loop_ext _ _ _ ascendingBytesEscapes) by done.
      apply getBytesLength_tag. }
  cbn [mbind res_bind]. f_equal. rewrite length_app. cbn [length]. lia.
Qed.

(** ** Inverted index keys *)

Definition geo_inverted_key (cellID loX loY hiX hiY : Z) : bytes :=
  EncodeGeoInvertedBBox (EncodeUvarintAscending (EncodeGeoInvertedAscending []) cellID) loX loY hiX hiY.

Lemma float_dec f r : isU 64 f -> DecodeUntaggedFloatValue (EncodeUint64Ascending [] f ++ r) = Ok (r, f).
Proof.
  intros Hf. unfold DecodeUntaggedFloatValue.
  destruct (Nat.ltb_spec (length (EncodeUint64Ascending [] f ++ r)) 8) as [L|_].
  { rewrite length_app in L. cbn in L. lia. }
  by apply (oc_roundtrip (enc := EncodeUint64Ascending)).
Qed.

Lemma EncodeGeoInvertedBBox_view b loX loY hiX hiY :
  EncodeGeoInvertedBBox b loX loY hiX hiY =
  b ++ (if float_eq loX hiX && float_eq loY hiY
        then geoInvertedTwoFloats :: EncodeUint64Ascending [] loX ++ EncodeUint64Ascending [] loY
        else geoInvertedFourFloats :: EncodeUint64Ascending [] loX ++ EncodeUint64Ascending [] loY
             ++ EncodeUint64Ascending [] hiX ++ EncodeUint64Ascending [] hiY).
Proof.
  unfold EncodeGeoInvertedBBox, EncodeUntaggedFloatValue. destruct (_ && _).
  - rewrite (oc_append (enc := EncodeUint64Ascending) _ loY), (oc_append (enc := EncodeUint64Ascending) _ loX).
    by rewrite <- !app_assoc.
  - rewrite (oc_append (enc := EncodeUint64Ascending) _ hiY), (oc_append (enc := EncodeUint64Ascending) _ hiX),
      (oc_append (enc := EncodeUint64Ascending) _ loY), (oc_append (enc := EncodeUint64Ascending) _ loX).
    by rewrite <- !app_assoc.
Qed.

(** The decoder and the length function on a key whose cell takes [cell]. *)
Lemma geo_inverted_cell cell kind l :
  (0 < length cell)%nat -> (16 <= length l)%nat ->
  (forall r, getVarintLen (cell ++ r) = Ok (Z.of_nat (length cell))) ->
  kind = geoInvertedTwoFloats \/ kind = geoInvertedFourFloats ->
  DecodeGeoInvertedKey (geoInvertedIndexMarker :: cell ++ kind :: l) =
    ('(b, loX) ← DecodeUntaggedFloatValue l;
     '(b, loY) ← DecodeUntaggedFloatValue b;
     if kind =? geoInvertedFourFloats then
       '(b, hiX) ← DecodeUntaggedFloatValue b;
       '(b, hiY) ← DecodeUntaggedFloatValue b;
       Ok (loX, loY, hiX, hiY, b)
     else Ok (loX, loY, loX, loY, b)) /\
  getGeoInvertedIndexKeyLength (geoInvertedIndexMarker :: cell ++ kind :: l) =
    Ok (Z.of_nat (length cell) + (if kind =? geoInvertedTwoFloats then 18 else 34)).
Proof.
  intros Hc Hl HL Hk. unfold DecodeGeoInvertedKey, getGeoInvertedIndexKeyLength.
  assert (length (geoInvertedIndexMarker :: cell ++ kind :: l) = S (length cell + S (length l))) as Len
    by (cbn [length]; by rewrite length_app).
  rewrite Len. destruct (Nat.ltb_spec (S (length cell + S (length l))) (3 + 2 * 8)); [lia|].
  destruct (Z.ltb_spec (Z.of_nat (S (length cell + S (length l)))) 19); [lia|].
  rewrite go_index_0. cbn [mbind res_bind]. cbn [Z.eqb Pos.eqb negb].
  rewrite slice_from_1. cbn [mbind res_bind]. rewrite HL. cbn [mbind res_bind].
  split.
  - rewrite length_app. cbn [length].
    destruct (Z.ltb_spec (Z.of_nat (length cell + S (length l))) (Z.of_nat (length cell) + 17)); [lia|].
    rewrite go_index_app by done. cbn [mbind res_bind].
    change (kind :: l) with ([kind] ++ l). rewrite app_assoc.
    rewrite slice_from_app by (rewrite length_app; cbn; lia). cbn [mbind res_bind].
    by destruct Hk as [-> | ->].
  - rewrite app_comm_cons, go_index_app by (cbn [length]; lia). cbn [mbind res_bind].
    f_equal. destruct Hk as [-> | ->]; cbn; lia.
Qed.

Lemma uint64_length v : length (EncodeUint64Ascending [] v) = 8%nat.
Proof. done. Qed.

Lemma float_eq_cmp x y : float_eq x y = true -> float_cmp x y = Eq.
Proof.
  unfold float_eq, float_cmp. destruct (IsNaN x), (IsNaN y); try done. cbn [negb andb].
  intros E%Z.eqb_eq. by apply Z.compare_eq_iff.
Qed.

(** Keys of two and of four floats. *)
Section InvertedKeys.
Context (cell f1 f2 f3 f4 : bytes) (x1 x2 x3 x4 : Z).
Hypothesis cell_pos : (0 < length cell)%nat.
Hypothesis cell_len : forall r, getVarintLen (cell ++ r) = Ok (Z.of_nat (length cell)).
Hypothesis f_len : length f1 = 8%nat /\ length f2 = 8%nat /\ length f3 = 8%nat /\ length f4 = 8%nat.
Hypothesis f_dec : forall r,
  DecodeUntaggedFloatValue (f1 ++ r) = Ok (r, x1) /\ DecodeUntaggedFloatValue (f2 ++ r) = Ok (r, x2) /\
  DecodeUntaggedFloatValue (f3 ++ r) = Ok (r, x3) /\ DecodeUntaggedFloatValue (f4 ++ r) = Ok (r, x4).

Lemma geo_inverted_two r :
  let k := geoInvertedIndexMarker :: cell ++ geoInvertedTwoFloats :: f1 ++ f2 in
  DecodeGeoInvertedKey (k ++ r) = Ok (x1, x2, x1, x2, r) /\
  getGeoInvertedIndexKeyLength (k ++ r) = Ok (Z.of_nat (length k)).
Proof.
  destruct f_len as (L1 & L2 & L3 & L4). cbn [app]. rewrite <- app_assoc. cbn [app]. rewrite <- app_assoc.
  destruct (geo_inverted_cell cell geoInvertedTwoFloats (f1 ++ f2 ++ r)) as [-> ->];
    [done|rewrite !length_app; lia|done|by left|].
  rewrite (proj1 (f_dec _)). cbn [mbind res_bind]. rewrite (proj1 (proj2 (f_dec _))). cbn [mbind res_bind].
  split; [done|]. f_equal. cbn [length]. rewrite length_app. cbn [length]. rewrite length_app, L1, L2.
  cbn [Z.eqb Pos.eqb]. lia.
Qed.

Lemma geo_inverted_four r :
  let k := geoInvertedIndexMarker :: cell ++ geoInvertedFourFloats :: f1 ++ f2 ++ f3 ++ f4 in
  DecodeGeoInvertedKey (k ++ r) = Ok (x1, x2, x3, x4, r) /\
  getGeoInvertedIndexKeyLength (k ++ r) = Ok (Z.of_nat (length k)).
Proof.
  destruct f_len as (L1 & L2 & L3 & L4). cbn [app]. rewrite <- app_assoc. cbn [app]. rewrite <- !app_assoc.
  destruct (geo_inverted_cell cell geoInvertedFourFloats (f1 ++ f2 ++ f3 ++ f4 ++ r)) as [-> ->];
    [done|rewrite !length_app; lia|done|by right|].
  destruct (f_dec (f2 ++ f3 ++ f4 ++ r)) as (-> & _). cbn [mbind res_bind].
  destruct (f_dec (f3 ++ f4 ++ r)) as (_ & -> & _). cbn [mbind res_bind Z.eqb].
  destruct (f_dec (f4 ++ r)) as (_ & _ & -> & _). cbn [mbind res_bind].
  destruct (f_dec r) as (_ & _ & _ & ->). cbn [mbind res_bind].
  split; [done|]. f_equal. cbn [length]. rewrite length_app. cbn [length].
  rewrite !length_app, L1, L2, L3, L4. cbn [Z.eqb]. lia.
Qed.
End InvertedKeys.

Lemma geo_inverted_key_view cellID loX loY hiX hiY :
  geo_inverted_key cellID loX loY hiX hiY =
  geoInvertedIndexMarker :: EncodeUvarintAscending [] cellID ++
  (if float_eq loX hiX && float_eq loY hiY
   then geoInvertedTwoFloats :: EncodeUint64Ascending [] loX ++ EncodeUint64Ascending [] loY
   else geoInvertedFourFloats :: EncodeUint64Ascending [] loX ++ EncodeUint64Ascending [] loY
        ++ EncodeUint64Ascending [] hiX ++ EncodeUint64Ascending [] hiY).
Proof.
  unfold geo_inverted_key. rewrite EncodeGeoInvertedBBox_view.
  by rewrite (oc_append (enc := EncodeUvarintAscending)), <- app_assoc.
Qed.

Lemma geo_inverted_spec cellID loX loY hiX hiY r :
  isU 64 cellID -> isU 64 loX -> isU 64 loY -> isU 64 hiX -> isU 64 hiY ->
  exists hx hy,
    DecodeGeoInvertedKey (geo_inverted_key cellID loX loY hiX hiY ++ r) = Ok (loX, loY, hx, hy, r) /\
    (hx = hiX \/ float_cmp hx hiX = Eq) /\ (hy = hiY \/ float_cmp hy hiY = Eq) /\
    getGeoInvertedIndexKeyLength (geo_inverted_key cellID loX loY hiX hiY ++ r) =
      Ok (Z.of_nat (length (geo_inverted_key cellID loX loY hiX hiY))).
Proof.
  intros Hc H1 H2 H3 H4. rewrite geo_inverted_key_view.
  assert (0 < length (EncodeUvarintAscending [] cellID))%nat as Lc
    by (destruct (uvarint_first cellID Hc) as (m & l & -> & _); cbn; lia).
  pose proof (fun r => getVarintLen_uvarint cellID r Hc) as HL.
  destruct (float_eq loX hiX && float_eq loY hiY) eqn:E.
  - apply andb_true_iff in E as [E1 E2]. exists loX, loY.
    destruct (geo_inverted_two (EncodeUvarintAscending [] cellID) (EncodeUint64Ascending [] loX)
      (EncodeUint64Ascending [] loY) (EncodeUint64Ascending [] loX) (EncodeUint64Ascending [] loX)
      loX loY loX loX Lc HL) with (r := r) as [D L];
      [auto using uint64_length|intros; split_and!; by apply float_dec|].
    split_and!; auto using float_eq_cmp.
  - exists hiX, hiY.
    destruct (geo_inverted_four (EncodeUvarintAscending [] cellID) (EncodeUint64Ascending [] loX)
      (EncodeUint64Ascending [] loY) (EncodeUint64Ascending [] hiX) (EncodeUint64Ascending [] hiY)
      loX loY hiX hiY Lc HL) with (r := r) as [D L];
      [auto using uint64_length|intros; split_and!; by apply float_dec|].
    split_and!; auto.
Qed.

(** * What the encodings guarantee *)

(** Keys of spatial objects and of their inverted indexes.  Keys sort by curve index,
    then by the bytes of the object (descending: the opposite), whatever follows, and
    decode back; the keys of inverted indexes give their bounding box back (up to the sign
    of a zero when the box is a point) and their length is found. *)
Theorem geo_encoding `{GeoLib} i j so so' data data' s t :
  isU 64 i -> isU 64 j -> Marshal so = Ok data -> Marshal so' = Ok data' -> bytes_ok s ->
  (exists ax ay dx dy,
    (EncodeGeoAscending [] i so = Ok ax /\ EncodeGeoAscending [] j so' = Ok ay /\
     EncodeGeoDescending [] i so = Ok dx /\ EncodeGeoDescending [] j so' = Ok dy) /\
    bytes_compare (ax ++ s) (ay ++ t) = lexc (lexc (i ?= j) (bytes_compare data data')) (bytes_compare s t) /\
    bytes_compare (dx ++ s) (dy ++ t) =
      lexc (CompOpp (lexc (i ?= j) (bytes_compare data data'))) (bytes_compare s t) /\
    DecodeGeoAscending (ax ++ s) = Ok (s, so) /\ DecodeGeoDescending (dx ++ s) = Ok (s, so)) /\
  forall loX loY hiX hiY, isU 64 loX -> isU 64 loY -> isU 64 hiX -> isU 64 hiY ->
    exists hx hy,
      DecodeGeoInvertedKey (geo_inverted_key i loX loY hiX hiY ++ s) = Ok (loX, loY, hx, hy, s) /\
      (hx = hiX \/ float_cmp hx hiX = Eq) /\ (hy = hiY \/ float_cmp hy hiY = Eq) /\
      getGeoInvertedIndexKeyLength (geo_inverted_key i loX loY hiX hiY ++ s) =
        Ok (Z.of_nat (length (geo_inverted_key i loX loY hiX hiY))).
Proof.
  intros Hi Hj M M' Hs. split; [|intros; by apply geo_inverted_spec].
  exists (geo_key false i data), (geo_key false j data'), (geo_key true i data), (geo_key true j data').
  pose proof (Marshal_bytes _ _ M). pose proof (Marshal_bytes _ _ M').
  destruct (EncodeGeo_eq [] i so data Hi M), (EncodeGeo_eq [] j so' data' Hj M').
  destruct (geo_roundtrip i so data s Hi M Hs).
  split_and!; try done; [by apply (geo_order false)|by apply (geo_order true)].
Qed.

(** A library whose objects are byte strings. *)
Definition geo_lib : GeoLib.
Proof.
  refine {| SpatialObject := bytes;
            Marshal := fun so => if forallb (fun x => (0 <=? x) && (x <? 256)) so then Ok so else Err "bytes";
            Unmarshal := fun d => Ok d;
            Geography_SpaceCurveIndex := fun _ => 0;
            Geometry_SpaceCurveIndex := fun _ => Ok 0 |}.
  - intros so d. destruct (forallb _ so) eqn:E; [|done]. intros [= <-].
    apply Is_true_true, forallb_True in E. eapply Forall_impl; [exact E|].
    intros x Hx%Is_true_true%andb_true_iff. unfold byte_ok. lia.
  - intros so d. by destruct (forallb _ so); [intros [= <-]|].
  - intros so. unfold isU. lia.
  - intros so i [= <-]. unfold isU. lia.
Defined.

Lemma geo_encoding_witness :
  exists k, @EncodeGeoDescending geo_lib [] 5 [0; 1; 255] = Ok k /\
    @DecodeGeoDescending geo_lib (k ++ [3]) = Ok ([3], [0; 1; 255]).
Proof.
  destruct (proj1 (@geo_encoding geo_lib 5 5 [0; 1; 255] [0; 1; 255] [0; 1; 255] [0; 1; 255] [3] []
    ltac:(unfold isU; lia) ltac:(unfold isU; lia) eq_refl eq_refl ltac:(repeat constructor; lia)))
    as (_ & _ & k & _ & (_ & _ & E & _) & _ & _ & _ & D).
  by exists k.
Defined.

(** The sub-slice is what the decoder returns. *)
Lemma geo_alias_decodes b i :
  geo_desc_aliased b = Some i ->
  decodeBytesInternal b [] descendingGeoEscapes false false = Ok (drop (i + 2) b, take i b).
Proof.
  unfold geo_desc_aliased, decodeBytesInternal. cbn [decode_loop].
  destruct (IndexByte b (e_escape descendingGeoEscapes)) as [j|]; [|done].
  destruct (Z.eqb_spec (nth (j + 1) b 0) (e_escapedTerm descendingGeoEscapes)) as [E|]; [|done]. intros [= <-].
  destruct (Nat.leb_spec (length b) (j + 1)); [|done]. rewrite nth_overflow in E by done. done.
Qed.

(** C40: decoding a descending spatial key can change the key.  The decoder complements the
    bytes it got in place; when no byte of the object needed an escape they are still part
    of the caller's key, which then holds the object uncomplemented. *)
Theorem geo_descending_key_changed i data r :
  isU 64 i -> bytes_ok data -> bytes_ok r ->
  DecodeGeoDescending_key (geo_key true i data ++ r) =
  if decide (0 ∈ data) then geo_key true i data ++ r
  else (geoDescMarker :: EncodeUint64Descending [] i) ++ data ++ (notb <$> [escape; escapedTerm]) ++ r.
Proof.
  intros Hi Hd Hr. unfold DecodeGeoDescending_key, geo_key. cbn [app].
  rewrite decide_True by marker. rewrite skipn_cons, drop_0, <- app_assoc.
  rewrite (oc_roundtrip (enc := EncodeUint64Descending)) by done.
  unfold geo_desc_aliased, geo_bytes. cbn [e_escape e_escapedTerm descendingGeoEscapes].
  destruct (decide (0 ∈ data)) as [Hz|Hz].
  - assert (exists l1 l2, data = l1 ++ 0 :: l2 /\ 0 ∉ l1) as (l1 & l2 & -> & Hn).
    { destruct (IndexByte data 0) as [n|] eqn:E; [|by apply IndexByte_None in E].
      apply IndexByte_Some in E as (l1 & l2 & -> & _ & ?). by exists l1, l2. }
    apply bytes_ok_app in Hd as [H1 [_ H2]%bytes_ok_cons].
    rewrite esc_ref_app, (esc_ref_plain l1), esc_ref_cons by done. cbn [Z.eqb app].
    rewrite <- app_assoc, fmap_app, <- app_assoc. cbn [fmap list_fmap app].
    assert (notb escape ∉ (notb <$> l1)) as Hn'.
    { intros (x & E & Hx)%list_elem_of_fmap. pose proof (proj1 (Forall_forall _ _) H1 x Hx) as Bx.
      apply Hn. rewrite !notb_eq in E by (done || unfold byte_ok; lia).
      by replace 0 with x by lia. }
    by rewrite IndexByte_app, cut_nth.
  - rewrite esc_ref_plain, fmap_app, <- app_assoc by done. cbn [fmap list_fmap app].
    assert (notb escape ∉ (notb <$> data)) as Hn'.
    { intros (x & E & Hx)%list_elem_of_fmap. pose proof (proj1 (Forall_forall _ _) Hd x Hx) as Bx.
      apply Hz. rewrite !notb_eq in E by (done || unfold byte_ok; lia).
      by replace 0 with x by lia. }
    rewrite IndexByte_app, cut_nth, Z.eqb_refl by done.
    rewrite take_app_length, drop_app_length, onesComplement_map, map_notb_involutive
      by (done || apply map_notb_ok). by rewrite app_comm_cons, take_app_length' by done.
Qed.

Lemma geo_descending_key_changed_witness :
  DecodeGeoDescending_key (geo_key true 0 [1]) <> geo_key true 0 [1].
Proof.
  rewrite <- (app_nil_r (geo_key true 0 [1])).
  rewrite (geo_descending_key_changed 0 [1] []); [by vm_compute|unfold isU; lia|repeat constructor; lia|constructor].
Defined.
