(* ===== verification/ScalarKeys.v ===== *)
(** What every scalar key encoding promises to the encoding of SQL values.

    [ScalarKey] is the interface between the encodings of single values and
    src/pkg/sql/rowenc/keyside: order in both directions, first bytes that leave room for
    NULL and for array terminators, a length that [PeekLength]
    (src/pkg/util/encoding/encoding.go) finds, and decoding.  The instances are the
    integers, floats, decimals, byte strings, times, intervals, bit arrays, boxes and
    spatial objects. *)
From S2P Require Import Prelude Bytes IntEnc BytesEnc KeyEnc Durations Decimals GeoEnc.

Definition dir_cmp (dir : Direction) (c : comparison) : comparison :=
  match dir with Ascending => c | Descending => CompOpp c end.

Class ScalarKey {A : Type} (ok : A -> Prop) (cmp : A -> A -> comparison) (eqv : A -> A -> Prop)
    (key : Direction -> A -> bytes) (dec : Direction -> bytes -> res (bytes * A)) : Prop := {
  sk_order dir x y s t : ok x -> ok y ->
    bytes_compare (key dir x ++ s) (key dir y ++ t) = lexc (dir_cmp dir (cmp x y)) (bytes_compare s t);
  sk_first dir x : ok x -> exists m l, key dir x = m :: l /\ 2 <= m <= 253;
  sk_bytes dir x : ok x -> bytes_ok (key dir x);
  sk_peek dir x r fuel : ok x -> bytes_ok r ->
    peek_length (S fuel) (key dir x ++ r) = Ok (len (key dir x));
  sk_dec dir x r : ok x -> bytes_ok r ->
    exists y, dec dir (key dir x ++ r) = Ok (r, y) /\ eqv x y
}.

(** An encoding with an ascending and a descending codec has most of it. *)
Definition dir_enc {A} (asc desc : bytes -> A -> bytes) (dir : Direction) (x : A) : bytes :=
  match dir with Ascending => asc [] x | Descending => desc [] x end.
Definition dir_dec {A} (asc desc : bytes -> res (bytes * A)) (dir : Direction) (b : bytes)
    : res (bytes * A) :=
  match dir with Ascending => asc b | Descending => desc b end.

Lemma scalar_of_codecs {A} (ok : A -> Prop) cmp asc desc decA decD :
  OrderedCodec ok cmp asc decA -> OrderedCodec ok (fun x y => CompOpp (cmp x y)) desc decD ->
  (forall dir x, ok x -> exists m l, dir_enc asc desc dir x = m :: l /\ 2 <= m <= 253) ->
  (forall dir x, ok x -> bytes_ok (dir_enc asc desc dir x)) ->
  (forall dir x r fuel, ok x -> bytes_ok r ->
    peek_length (S fuel) (dir_enc asc desc dir x ++ r) = Ok (len (dir_enc asc desc dir x))) ->
  ScalarKey ok cmp eq (dir_enc asc desc) (dir_dec decA decD).
Proof.
  intros CA CD Hf Hb Hp. split; try done.
  - intros [] x y s t Hx Hy; cbn [dir_enc dir_cmp].
    + by apply (oc_order (enc := asc)).
    + by apply (oc_order (enc := desc) (cmp := fun x y => CompOpp (cmp x y))).
  - intros [] x r Hx Hr; cbn [dir_enc dir_dec]; exists x; (split; [|done]).
    + by apply (oc_roundtrip (enc := asc)).
    + by apply (oc_roundtrip (enc := desc)).
Qed.

(** ** The length of a value by its first byte *)

Ltac peek_tag := cbn [peek_length typ_code]; zprune; cbn [orb andb].

Lemma peek_int fuel m l : IntMin <= m <= IntMax -> peek_length (S fuel) (m :: l) = getVarintLen (m :: l).
Proof. intros Hm. by peek_tag. Qed.

Lemma peek_decimal fuel m l :
  decimalNaN <= m <= decimalNaNDesc -> peek_length (S fuel) (m :: l) = getDecimalLen (m :: l).
Proof.
  intros Hm. destruct (Z.eqb_spec m decimalZero) as [->|]; [|by peek_tag].
  cbn [peek_length]. unfold getDecimalLen. by rewrite go_index_0.
Qed.

(** ** Integers *)

Lemma varint_first v : isS 64 v -> exists m l, EncodeVarintAscending [] v = m :: l /\ IntMin <= m <= IntMax.
Proof.
  intros Hv. rewrite varint_view by done. eexists _, _. split; [reflexivity|].
  unfold v_tag. destruct (Z.ltb_spec v 0).
  - destruct (neg_class v Hv) as (k & -> & ? & ? & ?); [done|]. lia.
  - assert (isU 64 v) as Hu by (apply isS64_isU64; [done|lia]).
    destruct (uv_class v Hu) as [(? & -> & _)|(? & -> & k & -> & ? & ? & ?)]; unfold isU in Hu; lia.
Qed.

Lemma varint_bytes v : isS 64 v -> bytes_ok (EncodeVarintAscending [] v).
Proof.
  intros Hv. destruct (varint_first v Hv) as (m & l & E & Hm). revert E.
  rewrite varint_view by done. cbn [app]. intros [= <- <-]. constructor; [unfold byte_ok; lia|apply be_ok].
Qed.

Lemma EncodeVarintDescending_eq b v : EncodeVarintDescending b v = EncodeVarintAscending b (Z.lnot v).
Proof. reflexivity. Qed.

(** A signed varint in either direction is the varint of some int64. *)
Definition vdir (dir : Direction) (v : Z) : Z := match dir with Ascending => v | Descending => Z.lnot v end.
Lemma vdir_ok dir v : isS 64 v -> isS 64 (vdir dir v).
Proof. destruct dir; [done|apply lnot_s64]. Qed.
Abbreviation vkey := (dir_enc EncodeVarintAscending EncodeVarintDescending).
Lemma vkey_eq dir v : vkey dir v = EncodeVarintAscending [] (vdir dir v).
Proof. by destruct dir. Qed.

#[export] Instance varint_scalar :
  ScalarKey (isS 64) Z.compare eq vkey (dir_dec DecodeVarintAscending DecodeVarintDescending).
Proof.
  apply scalar_of_codecs; [apply _..| | |].
  - intros dir x Hx. rewrite vkey_eq. destruct (varint_first _ (vdir_ok dir x Hx)) as (m & l & -> & ?).
    exists m, l. split; [done|lia].
  - intros dir x Hx. rewrite vkey_eq. by apply varint_bytes, vdir_ok.
  - intros dir x r fuel Hx Hr. rewrite vkey_eq. pose proof (vdir_ok dir x Hx) as Hv.
    pose proof (getVarintLen_enc _ r Hv) as L. destruct (varint_first _ Hv) as (m & l & E & Hm).
    rewrite E in *. cbn [app] in *. by rewrite peek_int.
Qed.

(** ** Markers followed by varints *)

Definition varints (vs : list Z) : bytes := vs ≫= EncodeVarintAscending [].

Lemma multi_varint_enc vs pre r :
  Forall (isS 64) vs ->
  multi_varint_loop (length vs) (pre ++ varints vs ++ r) (len pre) = Ok (len (pre ++ varints vs)).
Proof.
  intros F. revert pre. induction F as [|v vs Hv Hvs IH]; intros pre.
  { cbn. by rewrite app_nil_r. }
  destruct (varint_first v Hv) as (m & l & E & _).
  unfold varints in *. cbn [mbind list_bind length multi_varint_loop]. rewrite <- app_assoc.
  destruct (Z.ltb_spec (len pre) (len (pre ++ EncodeVarintAscending [] v ++ (vs ≫= EncodeVarintAscending []) ++ r)))
    as [_|H]; [|rewrite !length_app, E in H; cbn [length] in H; lia].
  rewrite slice_from_app by done. cbn [mbind res_bind]. rewrite getVarintLen_enc by done. cbn [mbind res_bind].
  rewrite (app_assoc pre), <- Nat2Z.inj_add, <- length_app, IH, <- app_assoc. done.
Qed.

Lemma varints_bytes vs : Forall (isS 64) vs -> bytes_ok (varints vs).
Proof.
  induction 1 as [|v vs Hv Hvs IH]; [constructor|]. unfold varints in *. cbn [mbind list_bind].
  apply bytes_ok_app. split; [by apply varint_bytes|done].
Qed.

(** Keys made of a marker and varints. *)
Lemma marked_varints_peek m vs k r fuel :
  (forall l fuel, peek_length (S fuel) (m :: l) = GetMultiVarintLen (m :: l) (length vs)) ->
  Forall (isS 64) vs -> k = m :: varints vs ->
  peek_length (S fuel) (k ++ r) = Ok (len k).
Proof.
  intros P F ->. cbn [app]. rewrite P. unfold GetMultiVarintLen.
  apply (multi_varint_enc vs [m] r F).
Qed.

Lemma varints_2 a b : varints [a; b] = EncodeVarintAscending [] a ++ EncodeVarintAscending [] b.
Proof. unfold varints. cbn [mbind list_bind]. by rewrite app_nil_r. Qed.
Lemma varints_3 a b c :
  varints [a; b; c] = EncodeVarintAscending [] a ++ EncodeVarintAscending [] b ++ EncodeVarintAscending [] c.
Proof. unfold varints. cbn [mbind list_bind]. by rewrite app_nil_r. Qed.

Lemma marked_varints_scalar {A} (ok : A -> Prop) cmp asc desc decA decD m (f : Direction -> A -> list Z) n :
  OrderedCodec ok cmp asc decA -> OrderedCodec ok (fun x y => CompOpp (cmp x y)) desc decD ->
  2 <= m <= 253 -> (forall l fuel, peek_length (S fuel) (m :: l) = GetMultiVarintLen (m :: l) n) ->
  (forall dir x, ok x -> dir_enc asc desc dir x = m :: varints (f dir x) /\
     Forall (isS 64) (f dir x) /\ length (f dir x) = n) ->
  ScalarKey ok cmp eq (dir_enc asc desc) (dir_dec decA decD).
Proof.
  intros CA CD Hm P Hk. apply scalar_of_codecs; [done..| | |].
  - intros dir x Hx. destruct (Hk dir x Hx) as (-> & _). by eexists _, _.
  - intros dir x Hx. destruct (Hk dir x Hx) as (-> & F & _).
    constructor; [unfold byte_ok; lia|by apply varints_bytes].
  - intros dir x r fuel Hx Hr. destruct (Hk dir x Hx) as (E & F & Ln).
    eapply marked_varints_peek; [|exact F|done]. by rewrite Ln.
Qed.

Lemma append_marker m v : EncodeVarintAscending [m] v = m :: EncodeVarintAscending [] v.
Proof. apply (oc_append (enc := EncodeVarintAscending)). Qed.

#[export] Instance time_scalar :
  ScalarKey time_ok time_cmp eq (dir_enc EncodeTimeAscending EncodeTimeDescending)
    (dir_dec DecodeTimeAscending DecodeTimeDescending).
Proof.
  apply (marked_varints_scalar _ _ _ _ _ _ timeMarker (fun dir t => [vdir dir (t_unix t); vdir dir (t_nanos t)]) 2);
    [apply _..|lia|done|].
  intros dir x [Hu Hn]. split_and!; [|repeat constructor; apply vdir_ok; try done; unfold isS; lia|done].
  rewrite varints_2. destruct dir; cbn [dir_enc]; unfold EncodeTimeAscending, EncodeTimeDescending, encodeTime;
    cbn [app vdir]; rewrite (oc_append (enc := EncodeVarintAscending)), append_marker; done.
Qed.

#[export] Instance timetz_scalar :
  ScalarKey timetz_ok timetz_cmp eq (dir_enc EncodeTimeTZAscending EncodeTimeTZDescending)
    (dir_dec DecodeTimeTZAscending DecodeTimeTZDescending).
Proof.
  apply (marked_varints_scalar _ _ _ _ _ _ timeTZMarker
    (fun dir t => [vdir dir (s64 (timetz_micros t)); vdir dir (OffsetSecs t)]) 2); [apply _..|lia|done|].
  intros dir x [Hu Hn]. split_and!; [| |done].
  - rewrite varints_2. destruct dir; cbn [dir_enc]; unfold EncodeTimeTZAscending, EncodeTimeTZDescending,
      encodeTimeTZ; cbn [app vdir]; rewrite (oc_append (enc := EncodeVarintAscending)), append_marker; done.
  - apply Forall_cons; split; [apply vdir_ok, (wrapS_range 64); lia|].
    apply Forall_cons; split; [apply vdir_ok; unfold isS in *; lia|done].
Qed.

(** ** Intervals *)

Definition interval_ok (d : Durations.Duration) : Prop := duration_wf d /\ duration_ok d.

Lemma CompOpp_duration x y :
  CompOpp (duration_cmp x y) =
  lexc (lexc (CompOpp (total x ?= total y)) (CompOpp (Months x ?= Months y))) (CompOpp (Days x ?= Days y)).
Proof. unfold duration_cmp. by rewrite !CompOpp_lexc. Qed.

#[export] Instance interval_scalar :
  ScalarKey interval_ok duration_cmp eq
    (dir_enc (duration_bytes EncodeVarintAscending) (duration_bytes EncodeVarintDescending))
    (dir_dec DecodeDurationAscending DecodeDurationDescending).
Proof.
  apply (marked_varints_scalar _ _ _ _ _ _ durationMarker
    (fun dir d => [vdir dir (total d); vdir dir (Months d); vdir dir (Days d)]) 3).
  - apply (duration_codec _ _ _ (OrderedCodec0 := varint_codec)).
  - eapply codec_cmp_ext; [intros; apply CompOpp_duration|].
    apply (duration_codec _ _ _ (OrderedCodec0 := varint_desc_codec)).
  - lia.
  - done.
  - intros dir x ((? & ? & ?) & (? & ? & ? & ?)). split_and!; [| |done].
    + rewrite varints_3. destruct dir; cbn [dir_enc]; unfold duration_bytes; rewrite ?EncodeVarintDescending_eq;
        cbn [app vdir]; rewrite (oc_append (enc := EncodeVarintAscending)),
          (oc_append (enc := EncodeVarintAscending) (EncodeVarintAscending [durationMarker] _)),
          append_marker; cbn [app]; by rewrite <- app_assoc.
    + apply Forall_cons; split; [by apply vdir_ok|]. apply Forall_cons; split; [by apply vdir_ok|].
      apply Forall_cons; split; [by apply vdir_ok|done].
Qed.

(** ** Byte strings *)

Lemma DeepCopy_eq b r : DecodeBytesAscendingDeepCopy b r = DecodeBytesAscending b r.
Proof.
  unfold DecodeBytesAscendingDeepCopy, DecodeBytesAscending, decodeBytesInternal.
  destruct b as [|m b]; [done|]. by rewrite !decode_loop_ref by lia.
Qed.

#[export] Instance bytes_scalar :
  ScalarKey bytes_ok bytes_compare eq (dir_enc EncodeBytesAscending EncodeBytesDescending)
    (dir_dec (fun b => DecodeBytesAscending b []) (fun b => DecodeBytesDescending b [])).
Proof.
  split.
  - intros [] x y s t Hx Hy; cbn [dir_enc dir_cmp];
      [by apply (oc_order (enc := EncodeBytesAscending))|by apply EncodeBytesDescending_order].
  - intros [] x Hx; cbn [dir_enc]; [rewrite EncodeBytesAscending_view|rewrite EncodeBytesDescending_view by done];
      eexists _, _; (split; [reflexivity|lia]).
  - intros [] x Hx; cbn [dir_enc]; [rewrite EncodeBytesAscending_view|rewrite EncodeBytesDescending_view by done];
      (constructor; [unfold byte_ok; lia|]); [by apply geo_bytes_ok|apply map_notb_ok].
  - intros [] x r fuel Hx Hr; cbn [dir_enc].
    + pose proof (getBytesLength_enc x r) as L. rewrite EncodeBytesAscending_view in *. exact L.
    + pose proof (getBytesLength_desc_enc x r Hx Hr) as L. rewrite EncodeBytesDescending_view in * by done. exact L.
  - intros [] x r Hx Hr; cbn [dir_enc dir_dec]; exists x; (split; [|done]).
    + by apply (oc_roundtrip (enc := EncodeBytesAscending) (dec := fun b => DecodeBytesAscending b [])).
    + by apply (DecodeBytesDescending_enc x []); [|apply bytes_ok_nil|].
Qed.

(** ** Void *)

#[export] Instance void_scalar :
  ScalarKey (fun _ : unit => True) (fun _ _ => Eq) eq (fun _ _ => EncodeVoidAscendingOrDescending [])
    (fun _ b => b ← DecodeVoidAscendingOrDescending b; Ok (b, ())).
Proof.
  split.
  - intros [] x y s t _ _; cbn [app]; unfold EncodeVoidAscendingOrDescending; cbn [app];
      by rewrite bytes_compare_cons, Z.compare_refl.
  - intros dir x _. eexists _, _. split; [reflexivity|lia].
  - intros dir x _. repeat constructor; lia.
  - done.
  - intros dir [] r _ _. exists (). split; [|done]. unfold DecodeVoidAscendingOrDescending,
      EncodeVoidAscendingOrDescending. cbn [app]. by rewrite decide_True by marker.
Qed.

(** ** Floats *)

Lemma float_key_bytes x :
  isU 64 x -> bytes_ok (EncodeFloatAscending [] x) /\ bytes_ok (EncodeFloatDescending [] x).
Proof.
  assert (forall x, isU 64 x -> bytes_ok (EncodeFloatAscending [] x)) as A.
  { clear. intros x Hx. destruct (float_view_enc x Hx); (constructor; [unfold byte_ok; lia|first [apply be_ok|constructor]]). }
  intros Hx. split; [by apply A|]. unfold EncodeFloatDescending.
  destruct (IsNaN x); [repeat constructor; lia|apply A, float_neg_ok].
Qed.

#[export] Instance float_scalar :
  ScalarKey (isU 64) float_cmp (fun x y => y = float_norm x)
    (dir_enc EncodeFloatAscending EncodeFloatDescending) (dir_dec DecodeFloatAscending DecodeFloatDescending).
Proof.
  assert (forall dir x, isU 64 x -> let e := dir_enc EncodeFloatAscending EncodeFloatDescending dir x in
    (exists m, e = [m] /\ (m = floatNaN \/ m = floatZero \/ m = floatNaNDesc)) \/
    (exists m l, e = m :: l /\ (m = floatNeg \/ m = floatPos) /\ length l = 8%nat)) as Sh.
  { intros [] x Hx e; apply (float_shape x Hx); auto. }
  split.
  - intros [] x y s t Hx Hy; cbn [dir_enc dir_cmp]; [by apply float_order|by apply float_desc_order].
  - intros dir x Hx. destruct (Sh dir x Hx) as [(m & -> & ?)|(m & l & -> & ? & _)]; eexists _, _;
      (split; [reflexivity|lia]).
  - intros [] x Hx; apply (float_key_bytes x Hx).
  - intros dir x r fuel Hx Hr. destruct (Sh dir x Hx) as [(m & -> & Hm)|(m & l & -> & Hm & L)].
    + by destruct Hm as [->|[-> | ->]].
    + cbn [app length]. rewrite L. destruct Hm as [-> | ->]; cbn [peek_length]; cbn [length]; rewrite length_app, L;
        (destruct (Z.ltb_spec (Z.of_nat (S (8 + length r))) 9); [lia|done]).
  - intros [] x r Hx Hr; cbn [dir_enc dir_dec]; eexists; (split; [|reflexivity]);
      [by apply float_roundtrip|by apply float_desc_roundtrip].
Qed.

(** ** Bit arrays *)

Lemma uvarint_bytes v : isU 64 v -> bytes_ok (EncodeUvarintAscending [] v) /\ bytes_ok (EncodeUvarintDescending [] v).
Proof.
  intros Hv. split.
  - destruct (uvarint_first v Hv) as (m & l & E & Hm). revert E. rewrite uvarint_view by done. cbn [app].
    intros [= <- <-]. constructor; [unfold byte_ok; lia|apply be_ok].
  - destruct (uvarint_desc_first v Hv) as (m & l & E & Hm). revert E. rewrite uvarint_desc_view by done. cbn [app].
    intros [= <- <-]. constructor; [unfold byte_ok; lia|apply be_ok].
Qed.

Definition uvdir (dir : Direction) : bytes -> Z -> bytes :=
  match dir with Ascending => EncodeUvarintAscending | Descending => EncodeUvarintDescending end.
Definition bit_marker (dir : Direction) : Z :=
  match dir with Ascending => bitArrayMarker | Descending => bitArrayDescMarker end.
Definition bit_term (dir : Direction) : Z :=
  match dir with Ascending => bitArrayDataTerminator | Descending => bitArrayDataDescTerminator end.

Lemma bit_key_view dir d :
  dir_enc EncodeBitArrayAscending EncodeBitArrayDescending dir d =
  bit_marker dir :: (words d ≫= uvdir dir []) ++ bit_term dir :: uvdir dir [] (lastBitsUsed d).
Proof.
  destruct dir; [apply (enc_bits_view _ _ _ EncodeUvarintAscending _ [])
                |apply (enc_bits_view _ _ _ EncodeUvarintDescending _ [])].
Qed.

Lemma uvdir_len dir v r :
  isU 64 v -> getVarintLen (uvdir dir [] v ++ r) = Ok (len (uvdir dir [] v)).
Proof. destruct dir; [apply getVarintLen_uvarint|apply getVarintLen_uvarint_desc]. Qed.

Lemma uvdir_first dir v :
  isU 64 v -> exists m l, uvdir dir [] v = m :: l /\ (bit_term dir ?= m) = dir_cmp dir Lt.
Proof.
  intros Hv. destruct dir; cbn [uvdir bit_term dir_cmp CompOpp].
  - destruct (uvarint_first v Hv) as (m & l & -> & ?). eexists _, _. split; [reflexivity|].
    apply Z.compare_lt_iff. lia.
  - destruct (uvarint_desc_first v Hv) as (m & l & -> & ?). eexists _, _. split; [reflexivity|].
    apply Z.compare_gt_iff. lia.
Qed.

Lemma uvdir_bytes dir ws : Forall (isU 64) ws -> bytes_ok (ws ≫= uvdir dir []).
Proof.
  induction 1 as [|w ws Hw _ IH]; [constructor|]. cbn [mbind list_bind]. apply bytes_ok_app.
  split; [destruct dir; by apply uvarint_bytes|done].
Qed.

Lemma peek_bits dir ws last r fuel :
  Forall (isU 64) ws -> isU 64 last ->
  let k := bit_marker dir :: (ws ≫= uvdir dir []) ++ bit_term dir :: uvdir dir [] last in
  peek_length (S fuel) (k ++ r) = Ok (len k).
Proof.
  intros Hw Hl. cbn [app]. rewrite <- app_assoc. cbn [app].
  transitivity (
    rest ← slice_from (bit_marker dir :: (ws ≫= uvdir dir []) ++ bit_term dir :: uvdir dir [] last ++ r) 1;
    '(_, n) ← getBitArrayWordsLen rest (bit_term dir);
    rest ← slice_from (bit_marker dir :: (ws ≫= uvdir dir []) ++ bit_term dir :: uvdir dir [] last ++ r) (n + 2);
    l ← getVarintLen rest; Ok (1 + n + l + 1)); [by destruct dir|].
  rewrite slice_from_1. cbn [mbind res_bind]. unfold getBitArrayWordsLen.
  rewrite (bit_words_loop_enc _ (dir_cmp dir Lt)); [|by destruct dir|apply uvdir_len|apply uvdir_first|done|].
  2: { rewrite length_app. pose proof (words_length _ _ _ (uvdir_first dir) ws Hw). cbn [length]. lia. }
  cbn [mbind res_bind].
  replace (bit_marker dir :: (ws ≫= uvdir dir []) ++ bit_term dir :: uvdir dir [] last ++ r)
    with ((bit_marker dir :: (ws ≫= uvdir dir []) ++ [bit_term dir]) ++ uvdir dir [] last ++ r)
    by (cbn [app]; by rewrite <- app_assoc).
  rewrite slice_from_app by (cbn [length]; rewrite length_app; cbn [length]; lia).
  cbn [mbind res_bind]. rewrite uvdir_len by done. cbn [mbind res_bind]. f_equal.
  cbn [length]. rewrite length_app. cbn [length]. lia.
Qed.

#[export] Instance bitarray_scalar :
  ScalarKey bitarray_ok BitArray_Compare eq (dir_enc EncodeBitArrayAscending EncodeBitArrayDescending)
    (dir_dec DecodeBitArrayAscending DecodeBitArrayDescending).
Proof.
  apply scalar_of_codecs; [apply _..| | |].
  - intros dir x Hx. rewrite bit_key_view. eexists _, _. split; [reflexivity|]. destruct dir; cbn; lia.
  - intros dir x [Hw Hl]. rewrite bit_key_view. constructor; [unfold byte_ok; destruct dir; cbn; lia|].
    apply bytes_ok_app. split; [by apply uvdir_bytes|]. constructor; [unfold byte_ok; destruct dir; cbn; lia|].
    destruct dir; apply uvarint_bytes; unfold isU; lia.
  - intros dir x r fuel [Hw Hl] Hr. rewrite bit_key_view. apply peek_bits; [done|unfold isU; lia].
Qed.

(** ** Decimals *)

Section Decimals.
Context `{ApdLib}.

Definition is_desc (dir : Direction) : bool := match dir with Ascending => false | Descending => true end.
Definition dec_dir_key (dir : Direction) (d : Decimal) : bytes := dec_key (is_desc dir) d.

Lemma dec_view_first invert d l : dec_view invert d l ->
  exists m r, l = m :: r /\ decimalNaN <= m <= decimalNaNDesc.
Proof.
  intros V. destruct V.
  1-3: eexists _, _; split; [reflexivity|]; try destruct invert; try destruct (is_neg _ _); lia.
  destruct (exp_code_first (is_neg invert d) e (mant_code (is_neg invert d) ms)) as (c & r & -> & B).
  eexists _, _. split; [reflexivity|]. destruct (is_neg invert d); lia.
Qed.

Lemma enc_exp_bytes (asc : bool) v : isU 64 v -> bytes_ok (enc_exp asc v).
Proof. intros. destruct asc; by apply uvarint_bytes. Qed.

Lemma dec_view_bytes invert d l : dec_view invert d l -> bytes_ok l.
Proof.
  intros V. destruct V as [| | |e ms F P N R B1 B2 B3 B4].
  1-3: constructor; [unfold byte_ok; try destruct invert; try destruct (is_neg _ _); lia|constructor].
  apply bytes_ok_app. split.
  - unfold exp_code. destruct (Z.ltb_spec e 0); [|destruct (Z.leb_spec e 10)];
      (constructor; [unfold byte_ok; destruct (is_neg _ _); lia|]);
      [apply enc_exp_bytes; unfold isU; lia|constructor|apply enc_exp_bytes; unfold isU; lia].
  - unfold mant_code. apply bytes_ok_app. split; [|repeat constructor; lia].
    destruct (is_neg invert d); [apply map_notb_ok|apply mant_ok, N].
Qed.

#[export] Instance decimal_scalar :
  ScalarKey dec_ok dec_cmp (fun x y => Form y = Form x /\ dec_cmp y x = Eq) dec_dir_key
    (dir_dec DecodeDecimalAscending DecodeDecimalDescending).
Proof.
  split; unfold dec_dir_key.
  - intros dir x y s t Hx Hy. destruct dir; cbn [dir_cmp].
    + apply (dec_view_order false); by apply dec_key_view.
    + apply (dec_view_order true); by apply dec_key_view.
  - intros dir x Hx. destruct (dec_view_first _ _ _ (dec_key_view x (is_desc dir) Hx)) as (m & l & -> & B).
    exists m, l. split; [done|lia].
  - intros dir x Hx. eapply dec_view_bytes, dec_key_view, Hx.
  - intros dir x r fuel Hx Hr.
    pose proof (dec_key_view x (is_desc dir) Hx) as V.
    pose proof (getDecimalLen_view _ _ _ r V) as L.
    destruct (dec_view_first _ _ _ V) as (m & l & E & B). rewrite E in *. cbn [app] in *.
    by rewrite peek_decimal.
  - intros dir x r Hx Hr.
    destruct (dec_view_roundtrip _ x _ r Hx
      (dec_key_view x (is_desc dir) Hx)) as (d & E & F & C & _).
    exists d. by destruct dir.
Qed.
End Decimals.

(** ** Boxes *)

Lemma box_key_bytes encF x :
  encF = EncodeFloatAscending \/ encF = EncodeFloatDescending -> box_ok x -> bytes_ok (box_key encF x).
Proof.
  intros HF (H1 & H2 & H3 & H4). constructor; [unfold byte_ok; lia|].
  rewrite !bytes_ok_app. destruct HF as [-> | ->]; split_and!; by apply float_key_bytes.
Qed.

Definition box_dir_key (dir : Direction) (x : BoundingBox) : bytes :=
  box_key (match dir with Ascending => EncodeFloatAscending | Descending => EncodeFloatDescending end) x.

#[export] Instance box_scalar :
  ScalarKey box_ok CartesianBoundingBox_Compare (fun x y => y = box_norm x) box_dir_key
    (dir_dec DecodeBox2DAscending DecodeBox2DDescending).
Proof.
  assert (forall dir, let f := match dir with Ascending => EncodeFloatAscending | Descending => EncodeFloatDescending end
    in f = EncodeFloatAscending \/ f = EncodeFloatDescending) as HF by (intros []; auto).
  split; unfold box_dir_key.
  - intros [] x y s t Hx Hy; by apply box_order.
  - intros dir x Hx. eexists _, _. split; [reflexivity|lia].
  - intros dir x Hx. by apply box_key_bytes.
  - intros dir x r fuel Hx Hr. unfold box_key at 1. cbn [app peek_length]. cbn [Z.eqb Pos.eqb orb].
    rewrite slice_from_1. cbn [mbind res_bind].
    pose proof (peekBox2DLength_key _ x r (HF dir) Hx) as L. unfold box_key in L at 1. cbn [drop] in L.
    rewrite drop_0 in L. rewrite L. cbn [mbind res_bind]. f_equal. lia.
  - intros [] x r Hx Hr; eexists; (split; [|reflexivity]); by apply box_roundtrip.
Qed.

(** ** Spatial objects, at the position [ix] gives them *)

Section Geo.
Context `{GeoLib} (ix : SpatialObject -> res Z).
Hypothesis ix_u64 : forall so i, ix so = Ok i -> isU 64 i.

Definition geo_data (so : SpatialObject) : bytes := match Marshal so with Ok d => d | _ => [] end.
Definition geo_ix (so : SpatialObject) : Z := match ix so with Ok i => i | _ => 0 end.
Definition geo_ok (so : SpatialObject) : Prop := is_ok (Marshal so) = true /\ is_ok (ix so) = true.
Definition geo_cmp (x y : SpatialObject) : comparison :=
  lexc (geo_ix x ?= geo_ix y) (bytes_compare (geo_data x) (geo_data y)).
Definition geo_dir_key (dir : Direction) (so : SpatialObject) : bytes :=
  geo_key (is_desc dir) (geo_ix so) (geo_data so).

Lemma geo_ok_spec so : geo_ok so ->
  Marshal so = Ok (geo_data so) /\ ix so = Ok (geo_ix so) /\ isU 64 (geo_ix so) /\ bytes_ok (geo_data so).
Proof.
  unfold geo_ok, geo_data, geo_ix. intros [M I].
  destruct (Marshal so) eqn:EM; try done. destruct (ix so) eqn:EI; try done.
  split_and!; eauto using Marshal_bytes.
Qed.

Lemma uint64_bytes v : bytes_ok (EncodeUint64Ascending [] v).
Proof. unfold EncodeUint64Ascending. cbn [app]. repeat (constructor; [apply byte_ok_u8|]). constructor. Qed.

Lemma geo_key_bytes desc i d : bytes_ok d -> bytes_ok (geo_key desc i d).
Proof.
  intros Hd. unfold geo_key, geo_bytes. apply bytes_ok_app. split.
  - destruct desc; (constructor; [unfold byte_ok; lia|]); apply uint64_bytes.
  - destruct desc; [apply map_notb_ok|by apply geo_bytes_ok].
Qed.

Lemma peek_geo (desc : bool) i d r fuel :
  bytes_ok d -> bytes_ok r -> peek_length (S fuel) (geo_key desc i d ++ r) = Ok (len (geo_key desc i d)).
Proof.
  intros Hd Hr. pose proof (geo_length desc i d r Hd Hr) as L.
  assert (8 <= len (geo_key desc i d ++ r)).
  { unfold geo_key. rewrite !length_app. destruct desc; cbn; lia. }
  assert (exists l, geo_key desc i d ++ r = (if desc then geoDescMarker else geoMarker) :: l) as (l & E).
  { unfold geo_key. destruct desc; cbn [app]; eexists; reflexivity. }
  rewrite E in *. destruct desc; cbn [peek_length]; cbn [Z.eqb Pos.eqb orb];
    [destruct (Z.ltb_spec (len (geoDescMarker :: l)) 8)|destruct (Z.ltb_spec (len (geoMarker :: l)) 8)];
    first [lia|exact L].
Qed.

Lemma geo_scalar :
  ScalarKey geo_ok geo_cmp eq geo_dir_key (dir_dec DecodeGeoAscending DecodeGeoDescending).
Proof.
  split; unfold geo_dir_key.
  - intros dir x y s t (_ & _ & Ix & Bx)%geo_ok_spec (_ & _ & Iy & By)%geo_ok_spec.
    rewrite geo_order by done. by destruct dir.
  - intros dir x Hx. destruct dir; eexists _, _; (split; [reflexivity|lia]).
  - intros dir x (_ & _ & _ & B)%geo_ok_spec. by apply geo_key_bytes.
  - intros dir x r fuel (_ & _ & _ & B)%geo_ok_spec Hr. by apply peek_geo.
  - intros dir x r (M & _ & I & B)%geo_ok_spec Hr. exists x. split; [|done].
    destruct (geo_roundtrip _ x _ r I M Hr) as [A D]. by destruct dir.
Qed.
End Geo.
