(* ===== verification/KeySide.v ===== *)
(** Key encoding of SQL values (src/pkg/sql/rowenc/keyside).

    [Encode] turns a datum into its part of an index key, [Decode] reads a datum of a given
    type back and [Skip] finds the rest of the key.  The file shows what an index relies
    on: keys sort as the values do, in both directions, for every type the encoding
    supports, arrays and NULLs included; every key decodes to the value it was made from;
    and the length of every key can be found without knowing its type. *)
From S2P Require Import Prelude Bytes GoLib IntEnc BytesEnc KeyEnc Durations Decimals GeoEnc ScalarKeys.

(** * IP addresses (src/pkg/util/ipaddr) *)

Module IP.
Record IPAddr := MkIP { Family : Z; Mask : Z; AddrHi : Z; AddrLo : Z }.

Abbreviation IPv4family := 0.
Abbreviation IPv6family := 1.
Abbreviation IPv4size := 6.
Abbreviation IPv6size := 18.
Definition IPv4mappedIPv6prefix : Z := 0xFFFF ≪ 32.

Definition ToBuffer (ip : IPAddr) (appendTo : bytes) : bytes :=
  let appendTo := appendTo ++ [Family ip; Mask ip] in
  if Family ip =? IPv4family then appendTo ++ be 4 (u32 (AddrLo ip))
  else (appendTo ++ be 8 (AddrHi ip)) ++ be 8 (AddrLo ip).

(** Big-endian reads at the front of a slice. *)
Definition Uint32 (b : bytes) : res Z :=
  if (length b <? 4)%nat then Panic "index out of range" else Ok (be_uint (take 4 b)).
Definition uint128_FromBytes (b : bytes) : res (Z * Z) :=
  if (length b <? 16)%nat then Panic "index out of range"
  else Ok (be_uint (take 8 b), be_uint (take 8 (drop 8 b))).

(** [FromBuffer] on an address that is still zero. *)
Definition FromBuffer (data : bytes) : res (bytes * IPAddr) :=
  family ← go_index data 0;
  if negb (family =? IPv4family) && negb (family =? IPv6family)
  then Err "IPAddr decoding error: unexpected family"
  else
    mask ← go_index data 1;
    d2 ← slice_from data 2;
    if family =? IPv4family then
      lo ← Uint32 d2;
      rest ← slice_from data IPv4size;
      Ok (rest, MkIP family mask 0 (Z.lor lo IPv4mappedIPv6prefix))
    else
      '(hi, lo) ← uint128_FromBytes d2;
      rest ← slice_from data IPv6size;
      Ok (rest, MkIP family mask hi lo).

(** Family, mask, then address. *)
Definition Compare (ip other : IPAddr) : comparison :=
  if Family ip <? Family other then Lt else if Family other <? Family ip then Gt
  else if Mask ip <? Mask other then Lt else if Mask other <? Mask ip then Gt
  else if AddrHi other <? AddrHi ip then Gt else if AddrHi ip <? AddrHi other then Lt
  else if AddrLo other <? AddrLo ip then Gt else if AddrLo ip <? AddrLo other then Lt
  else Eq.
End IP.

(** * Dates (src/pkg/util/timeutil/pgdate) *)

Record Date := MkDate { days : Z; hasOrig : bool; orig : Z }.

Abbreviation unixEpochToPGEpoch := 10957.
Abbreviation lowDays := (-2451545).
Abbreviation highDays := 2145031948.

Definition UnixEpochDays (d : Date) : Z :=
  if days d =? - 2 ^ 31 then MinInt64
  else if days d =? 2 ^ 31 - 1 then MaxInt64
  else days d + unixEpochToPGEpoch.
Definition UnixEpochDaysWithOrig (d : Date) : Z := if hasOrig d then orig d else UnixEpochDays d.
Definition MakeCompatibleDateFromDisk (unixDays : Z) : Date :=
  MkDate (match SubWithOverflow unixDays unixEpochToPGEpoch with
          | None => - 2 ^ 31
          | Some pgDays =>
              if highDays <? pgDays then 2 ^ 31 - 1
              else if pgDays <? lowDays then - 2 ^ 31
              else s32 pgDays
          end) true unixDays.

(** * Types and datums *)

Inductive T :=
  | TUnknown | TBool | TInt | TFloat | TDecimal | TString | TName | TBytes | TVoid | TBox2D
  | TGeography | TGeometry | TDate | TTime | TTimestamp | TTimestampTZ | TTimeTZ | TInterval
  | TUuid | TINet | TBit | TOid | TJson | TEncodedKey | TTuple
  | TEnum (Oid : Z) (physical : list bytes) (logical : list string)
  | TCollatedString (locale : string)
  | TArray (contents : T).

(** A number for each family of types; names are strings. *)
Definition family (t : T) : Z :=
  match t with
  | TUnknown => 0 | TBool => 1 | TInt => 2 | TFloat => 3 | TDecimal => 4 | TString | TName => 5
  | TBytes => 6 | TVoid => 7 | TBox2D => 8 | TGeography => 9 | TGeometry => 10 | TDate => 11
  | TTime => 12 | TTimestamp => 13 | TTimestampTZ => 14 | TTimeTZ => 15 | TInterval => 16
  | TUuid => 17 | TINet => 18 | TBit => 19 | TOid => 20 | TJson => 21 | TEncodedKey => 22
  | TTuple => 23 | TEnum _ _ _ => 24 | TCollatedString _ => 25 | TArray _ => 26
  end.

(** Go's [unicode.ToLower] on the code points of single bytes. *)
Definition ToLower (c : Z) : Z :=
  if (65 <=? c) && (c <=? 90) then c + 32
  else if (192 <=? c) && (c <=? 222) && negb (c =? 215) then c + 32
  else c.


(** The loop of [LocaleNamesAreEqual]: case does not matter, and ['-'] is ['_']. *)
Fixpoint locale_loop (a b : string) : bool :=
  match a, b with
  | String ai a, String bi b =>
      if Ascii.eqb ai bi then locale_loop a b
      else if (byte_of ai =? 45) && (byte_of bi =? 95) then locale_loop a b
      else if (byte_of ai =? 95) && (byte_of bi =? 45) then locale_loop a b
      else if negb (ToLower (byte_of ai) =? ToLower (byte_of bi)) then false
      else locale_loop a b
  | _, _ => true
  end.
Definition LocaleNamesAreEqual (a b : string) : bool :=
  if String.eqb a b then true
  else if negb (String.length a =? String.length b)%nat then false
  else locale_loop a b.

Abbreviation T_anyenum := 3500.

(** Tuples here have no contents: they are not stored in keys, so one never reaches the
    comparison of contents. *)
Fixpoint Equivalent (t other : T) : bool :=
  if negb (family t =? family other) then false
  else
    match t with
    | TCollatedString l =>
        match other with
        | TCollatedString l' =>
            if negb (String.eqb l EmptyString) && negb (String.eqb l' EmptyString)
            then LocaleNamesAreEqual l l' else true
        | _ => false
        end
    | TArray t => match other with TArray u => Equivalent t u | _ => false end
    | TEnum o _ _ =>
        match other with
        | TEnum o' _ _ => if (o =? T_anyenum) || (o' =? T_anyenum) then true else o =? o'
        | _ => false
        end
    | _ => true
    end.

Definition EquivalentOrNull (t other : T) (allowNullTupleEquivalence : bool) : bool :=
  if Equivalent t other then true
  else
    match t with
    | TUnknown => allowNullTupleEquivalence || negb (family other =? family TTuple)
    | _ => false
    end.

Abbreviation maxArrayLength := (2 ^ 31 - 1).

(** The collation library. *)
Class CollateLib := { KeyFromString : string -> bytes -> res bytes }.

Section Datums.
Context {geo : GeoLib} {apd : ApdLib} {coll : CollateLib}.

(** [DEnum] and [DArray] know their type; a [DName] is a wrapped [DString]. *)
Inductive Datum :=
  | DNull
  | DBool (b : bool)
  | DInt (i : Z)
  | DFloat (f : Z)
  | DDecimal (d : Decimal)
  | DString (s : bytes)
  | DBytes (s : bytes)
  | DVoid
  | DBox2D (b : BoundingBox)
  | DGeography (so : SpatialObject)
  | DGeometry (so : SpatialObject)
  | DDate (d : Date)
  | DTime (t : Z)
  | DTimestamp (t : Time_)
  | DTimestampTZ (t : Time_)
  | DTimeTZ (t : TimeTZ)
  | DInterval (d : Durations.Duration)
  | DUuid (u : bytes)
  | DIPAddr (ip : IP.IPAddr)
  | DTuple (D : list Datum)
  | DArray (ParamTyp : T) (Array : list Datum)
  | DCollatedString (Contents : bytes) (Locale : string) (Key : bytes)
  | DBitArray (d : BitArray)
  | DOid (o : Z)
  | DEnum (EnumTyp : T) (PhysicalRep : bytes) (LogicalRep : string)
  | DEncodedKey (k : bytes)
  | DJSON
  | DOther
  | DOidWrapper (Wrapped : Datum).

Definition is_null (d : Datum) : bool := match d with DNull => true | _ => false end.

Definition UnwrapDOidWrapper (d : Datum) : Datum :=
  match d with DOidWrapper w => w | _ => d end.

Definition ResolvedType (d : Datum) : T :=
  match d with
  | DNull | DOther => TUnknown
  | DBool _ => TBool | DInt _ => TInt | DFloat _ => TFloat | DDecimal _ => TDecimal
  | DString _ => TString | DBytes _ => TBytes | DVoid => TVoid | DBox2D _ => TBox2D
  | DGeography _ => TGeography | DGeometry _ => TGeometry | DDate _ => TDate | DTime _ => TTime
  | DTimestamp _ => TTimestamp | DTimestampTZ _ => TTimestampTZ | DTimeTZ _ => TTimeTZ
  | DInterval _ => TInterval | DUuid _ => TUuid | DIPAddr _ => TINet | DTuple _ => TTuple
  | DArray t _ => TArray t | DCollatedString _ l _ => TCollatedString l | DBitArray _ => TBit
  | DOid _ => TOid | DEnum t _ _ => t | DEncodedKey _ => TEncodedKey | DJSON => TJson
  | DOidWrapper _ => TName
  end.

(** * Encoding *)

(** The spare capacity of the buffer, which only decimals look at. *)
Context (spare : bytes).

(** The elements of a tuple and of an array, one after the other; [enc] is [Encode]. *)
Fixpoint encode_tuple (enc : bytes -> Datum -> res bytes) (b : bytes) (l : list Datum) : res bytes :=
  match l with
  | [] => Ok b
  | d :: l => b ← enc b d; encode_tuple enc b l
  end.
Fixpoint encode_elems (enc : bytes -> Datum -> res bytes) (dir : Direction) (b : bytes) (l : list Datum)
    : res bytes :=
  match l with
  | [] => Ok b
  | elem :: l =>
      b ← (if is_null elem then Ok (EncodeNullWithinArrayKey b dir) else enc b elem);
      encode_elems enc dir b l
  end.

Fixpoint Encode (b : bytes) (val : Datum) (dir : Direction) {struct val} : res bytes :=
  if is_null val then
    match dir with
    | Ascending => Ok (EncodeNullAscending b)
    | Descending => Ok (EncodeNullDescending b)
    end
  else
    match UnwrapDOidWrapper val with
    | DBool t =>
        let x := if t then 1 else 0 in
        match dir with
        | Ascending => Ok (EncodeVarintAscending b x)
        | Descending => Ok (EncodeVarintDescending b x)
        end
    | DInt t =>
        match dir with
        | Ascending => Ok (EncodeVarintAscending b t)
        | Descending => Ok (EncodeVarintDescending b t)
        end
    | DFloat t =>
        match dir with
        | Ascending => Ok (EncodeFloatAscending b t)
        | Descending => Ok (EncodeFloatDescending b t)
        end
    | DDecimal t =>
        match dir with
        | Ascending => EncodeDecimalAscending b spare t
        | Descending => EncodeDecimalDescending b spare t
        end
    | DString t =>
        match dir with
        | Ascending => Ok (EncodeStringAscending b t)
        | Descending => Ok (EncodeStringDescending b t)
        end
    | DBytes t =>
        match dir with
        | Ascending => Ok (EncodeStringAscending b t)
        | Descending => Ok (EncodeStringDescending b t)
        end
    | DVoid => Ok (EncodeVoidAscendingOrDescending b)
    | DBox2D t =>
        match dir with
        | Ascending => EncodeBox2DAscending b t
        | Descending => EncodeBox2DDescending b t
        end
    | DGeography so =>
        match dir with
        | Ascending => EncodeGeoAscending b (Geography_SpaceCurveIndex so) so
        | Descending => EncodeGeoDescending b (Geography_SpaceCurveIndex so) so
        end
    | DGeometry so =>
        spaceCurveIndex ← Geometry_SpaceCurveIndex so;
        match dir with
        | Ascending => EncodeGeoAscending b spaceCurveIndex so
        | Descending => EncodeGeoDescending b spaceCurveIndex so
        end
    | DDate t =>
        match dir with
        | Ascending => Ok (EncodeVarintAscending b (UnixEpochDaysWithOrig t))
        | Descending => Ok (EncodeVarintDescending b (UnixEpochDaysWithOrig t))
        end
    | DTime t =>
        match dir with
        | Ascending => Ok (EncodeVarintAscending b t)
        | Descending => Ok (EncodeVarintDescending b t)
        end
    | DTimestamp t | DTimestampTZ t =>
        match dir with
        | Ascending => Ok (EncodeTimeAscending b t)
        | Descending => Ok (EncodeTimeDescending b t)
        end
    | DTimeTZ t =>
        match dir with
        | Ascending => Ok (EncodeTimeTZAscending b t)
        | Descending => Ok (EncodeTimeTZDescending b t)
        end
    | DInterval t =>
        match dir with
        | Ascending => EncodeDurationAscending b t
        | Descending => EncodeDurationDescending b t
        end
    | DUuid t =>
        match dir with
        | Ascending => Ok (EncodeBytesAscending b t)
        | Descending => Ok (EncodeBytesDescending b t)
        end
    | DIPAddr t =>
        let data := IP.ToBuffer t [] in
        match dir with
        | Ascending => Ok (EncodeBytesAscending b data)
        | Descending => Ok (EncodeBytesDescending b data)
        end
    | DTuple D => encode_tuple (fun b d => Encode b d dir) b D
    | DArray _ elems =>
        (* encodeArrayKey *)
        let b := EncodeArrayKeyMarker b dir in
        b ← encode_elems (fun b d => Encode b d dir) dir b elems;
        Ok (EncodeArrayKeyTerminator b dir)
    | DCollatedString _ _ k =>
        match dir with
        | Ascending => Ok (EncodeBytesAscending b k)
        | Descending => Ok (EncodeBytesDescending b k)
        end
    | DBitArray t =>
        match dir with
        | Ascending => Ok (EncodeBitArrayAscending b t)
        | Descending => Ok (EncodeBitArrayDescending b t)
        end
    | DOid o =>
        match dir with
        | Ascending => Ok (EncodeVarintAscending b o)
        | Descending => Ok (EncodeVarintDescending b o)
        end
    | DEnum _ phys _ =>
        match dir with
        | Ascending => Ok (EncodeBytesAscending b phys)
        | Descending => Ok (EncodeBytesDescending b phys)
        end
    | DEncodedKey k => Ok (b ++ k)
    | DJSON => Err "unable to encode JSON as a table key"
    | DNull | DOther | DOidWrapper _ => Err "unable to encode table key"
    end.

Definition encodeArrayKey (b : bytes) (elems : list Datum) (dir : Direction) : res bytes :=
  let b := EncodeArrayKeyMarker b dir in
  b ← encode_elems (fun b d => Encode b d dir) dir b elems;
  Ok (EncodeArrayKeyTerminator b dir).

(** * Decoding *)

Definition DArray_Len (d : Datum) : option nat :=
  match d with DArray _ l => Some (length l) | _ => None end.

Abbreviation errNonHomogeneousArray :=
  "multidimensional arrays must have array expressions with matching dimensions".

(** The elements of an array of arrays: not NULL, and as long as the last one. *)
Definition check_homogeneous (l : list Datum) (v : Datum) : res unit :=
  if is_null v then Err errNonHomogeneousArray
  else
    match last l with
    | None => Ok ()
    | Some prevItem =>
        if is_null prevItem then Err errNonHomogeneousArray
        else
          match DArray_Len prevItem, DArray_Len v with
          | Some expectedLen, Some n =>
              if (n =? expectedLen)%nat then Ok () else Err errNonHomogeneousArray
          | _, _ => Panic "expected *DArray"
          end
    end.

(** [DArray.Append]; the new elements of the array. *)
Definition DArray_Append (ParamTyp : T) (l : list Datum) (v : Datum) : res (list Datum) :=
  if negb (EquivalentOrNull (ResolvedType v) ParamTyp true)
  then Err "cannot append to array"
  else if maxArrayLength <=? Z.of_nat (length l) then Err "array too long"
  else
    _ ← (if family ParamTyp =? family (TArray TUnknown) then check_homogeneous l v else Ok ());
    let l := l ++ [v] in
    if maxArrayLength <? Z.of_nat (length l) then Err "array too long" else Ok l.

(** The loop of [decodeArrayKey]; [dec] is [Decode] at the element type. *)
Fixpoint decode_array_loop (dec : bytes -> res (Datum * bytes)) (ParamTyp : T) (dir : Direction)
    (fuel : nat) (buf : bytes) (result : list Datum) : res (Datum * bytes) :=
  match fuel with
  | O => Panic "out of fuel"
  | S fuel =>
      match buf with
      | [] => Err "invalid array encoding (unterminated)"
      | _ =>
          done_ ← IsArrayKeyDone buf dir;
          if (done_ : bool) then Ok (DArray ParamTyp result, drop 1 buf)
          else
            isNull ← IsNextByteArrayEncodedNull buf dir;
            '(d, buf) ← (if (isNull : bool) then Ok (DNull, drop 1 buf) else dec buf);
            result ← DArray_Append ParamTyp result d;
            decode_array_loop dec ParamTyp dir fuel buf result
      end
  end.

Definition decodeArrayKey (dec : bytes -> res (Datum * bytes)) (ParamTyp : T) (buf : bytes)
    (dir : Direction) : res (Datum * bytes) :=
  buf ← ValidateAndConsumeArrayKeyMarker buf dir;
  decode_array_loop dec ParamTyp dir (S (length buf)) buf [].

(** [EnumGetIdxOfPhysical]. *)
Fixpoint EnumGetIdxOfPhysical (phys : bytes) (reps : list bytes) (i : nat) : res nat :=
  match reps with
  | [] => Err "could not find in enum representation"
  | r :: reps => if beqb phys r then Ok i else EnumGetIdxOfPhysical phys reps (S i)
  end.
Definition GetEnumComponentsFromPhysicalRep (physical : list bytes) (logical : list string) (rep : bytes)
    : res (bytes * string) :=
  idx ← EnumGetIdxOfPhysical rep physical 0;
  match physical !! idx, logical !! idx with
  | Some p, Some l => Ok (p, l)
  | _, _ => Panic "index out of range"
  end.

Definition uuid_FromBytes (input : bytes) : res bytes :=
  if negb (length input =? 16)%nat then Err "uuid: UUID must be exactly 16 bytes long" else Ok input.

(** [(rkey, x, err)] with [x] made into a datum. *)
Definition ret {A} (f : A -> Datum) (r : res (bytes * A)) : res (Datum * bytes) :=
  '(rkey, x) ← r; Ok (f x, rkey).

Fixpoint Decode (valType : T) (key : bytes) (dir : Direction) {struct valType} : res (Datum * bytes) :=
  let '(key, isNull) := DecodeIfNull key in
  if (isNull : bool) then Ok (DNull, key)
  else
    let varint := match dir with
                  | Ascending => DecodeVarintAscending key
                  | Descending => DecodeVarintDescending key
                  end in
    let str := match dir with
               | Ascending => DecodeBytesAscendingDeepCopy key []
               | Descending => DecodeBytesDescending key []
               end in
    let byt := match dir with
               | Ascending => DecodeBytesAscending key []
               | Descending => DecodeBytesDescending key []
               end in
    match valType with
    | TArray contents =>
        decodeArrayKey (fun buf => Decode contents buf dir) contents key dir
    | TBit =>
        ret DBitArray match dir with
                      | Ascending => DecodeBitArrayAscending key
                      | Descending => DecodeBitArrayDescending key
                      end
    | TBool => ret (fun i => DBool (negb (i =? 0))) varint
    | TInt => ret DInt varint
    | TFloat =>
        ret DFloat match dir with
                   | Ascending => DecodeFloatAscending key
                   | Descending => DecodeFloatDescending key
                   end
    | TDecimal =>
        ret DDecimal match dir with
                     | Ascending => DecodeDecimalAscending key
                     | Descending => DecodeDecimalDescending key
                     end
    | TString => ret DString str
    | TName => ret (fun r => DOidWrapper (DString r)) str
    | TCollatedString locale =>
        '(rkey, r) ← str;
        k ← KeyFromString locale r;
        Ok (DCollatedString r locale k, rkey)
    | TJson =>
        jsonLen ← PeekLength key;
        rest ← slice_from key jsonLen;
        Ok (DNull, rest)
    | TBytes => ret DBytes byt
    | TVoid => rkey ← DecodeVoidAscendingOrDescending key; Ok (DVoid, rkey)
    | TBox2D =>
        ret DBox2D match dir with
                   | Ascending => DecodeBox2DAscending key
                   | Descending => DecodeBox2DDescending key
                   end
    | TGeography =>
        ret DGeography match dir with
                       | Ascending => DecodeGeoAscending key
                       | Descending => DecodeGeoDescending key
                       end
    | TGeometry =>
        ret DGeometry match dir with
                      | Ascending => DecodeGeoAscending key
                      | Descending => DecodeGeoDescending key
                      end
    | TDate => ret (fun t => DDate (MakeCompatibleDateFromDisk t)) varint
    | TTime => ret DTime varint
    | TTimeTZ =>
        ret DTimeTZ match dir with
                    | Ascending => DecodeTimeTZAscending key
                    | Descending => DecodeTimeTZDescending key
                    end
    | TTimestamp =>
        ret DTimestamp match dir with
                       | Ascending => DecodeTimeAscending key
                       | Descending => DecodeTimeDescending key
                       end
    | TTimestampTZ =>
        ret DTimestampTZ match dir with
                         | Ascending => DecodeTimeAscending key
                         | Descending => DecodeTimeDescending key
                         end
    | TInterval =>
        ret DInterval match dir with
                      | Ascending => DecodeDurationAscending key
                      | Descending => DecodeDurationDescending key
                      end
    | TUuid => '(rkey, r) ← byt; u ← uuid_FromBytes r; Ok (DUuid u, rkey)
    | TINet => '(rkey, r) ← byt; '(_, ip) ← IP.FromBuffer r; Ok (DIPAddr ip, rkey)
    | TOid => ret (fun i => DOid (u32 i)) varint
    | TEnum _ physical logical =>
        '(rkey, r) ← byt;
        '(phys, log) ← GetEnumComponentsFromPhysicalRep physical logical r;
        Ok (DEnum valType phys log, rkey)
    | TEncodedKey =>
        len ← PeekLength key;
        rkey ← slice_from key len;
        Ok (DEncodedKey (take (Z.to_nat len) key), rkey)
    | TUnknown | TTuple => Err "unable to decode table key"
    end.

Definition Skip (key : bytes) : res bytes :=
  skipLen ← PeekLength key; slice_from key skipLen.
End Datums.
