(* ===== verification/KeySideOk.v ===== *)
(** What index keys rely on: the properties of src/pkg/sql/rowenc/keyside.

    For every type the encoding supports, in both directions: [Encode] succeeds and appends
    one key, keys compare as the values do under an order of the values, [key_cmp], [Decode]
    gives the value back and [PeekLength] finds its end. *)
From S2P Require Import Prelude Bytes IntEnc BytesEnc KeyEnc Durations Decimals GeoEnc ScalarKeys KeySide.

(** * Values of a type *)

Section Values.
Context {geo : GeoLib} {apd : ApdLib} {coll : CollateLib}.

Definition ip_ok (ip : IP.IPAddr) : Prop :=
  byte_ok (IP.Mask ip) /\
  ((IP.Family ip = IP.IPv4family /\ IP.AddrHi ip = 0 /\
    exists lo, 0 <= lo < 2 ^ 32 /\ IP.AddrLo ip = Z.lor lo IP.IPv4mappedIPv6prefix) \/
   (IP.Family ip = IP.IPv6family /\ isU 64 (IP.AddrHi ip) /\ isU 64 (IP.AddrLo ip))).

(** A date as made by the constructors of the package: from days in range, infinite, or
    read from disk. *)
Definition date_ok (d : Date) : Prop :=
  isS 64 (UnixEpochDaysWithOrig d) /\
  days (MakeCompatibleDateFromDisk (UnixEpochDaysWithOrig d)) = days d.

(** Arrays of arrays are rectangular and have no NULLs. *)
Definition homogeneous (t : T) (l : list Datum) : Prop :=
  match t with
  | TArray _ => exists n, Forall (fun d => DArray_Len d = Some n) l
  | _ => True
  end.

(** The position of a geography; it cannot fail. *)
Definition Geography_ix (so : SpatialObject) : res Z := Ok (Geography_SpaceCurveIndex so).

Fixpoint datum_ok (t : T) (d : Datum) : Prop :=
  d = DNull \/
  match t with
  | TBool => match d with DBool _ => True | _ => False end
  | TInt => match d with DInt i => isS 64 i | _ => False end
  | TFloat => match d with DFloat f => isU 64 f | _ => False end
  | TDecimal => match d with DDecimal x => dec_ok x | _ => False end
  | TString => match d with DString s => bytes_ok s | _ => False end
  | TName => match d with DOidWrapper (DString s) => bytes_ok s | _ => False end
  | TBytes => match d with DBytes s => bytes_ok s | _ => False end
  | TVoid => match d with DVoid => True | _ => False end
  | TBox2D => match d with DBox2D b => box_ok b | _ => False end
  | TGeography => match d with DGeography so => geo_ok Geography_ix so | _ => False end
  | TGeometry => match d with DGeometry so => geo_ok Geometry_SpaceCurveIndex so | _ => False end
  | TDate => match d with DDate x => date_ok x | _ => False end
  | TTime => match d with DTime x => isS 64 x | _ => False end
  | TTimestamp => match d with DTimestamp x => time_ok x | _ => False end
  | TTimestampTZ => match d with DTimestampTZ x => time_ok x | _ => False end
  | TTimeTZ => match d with DTimeTZ x => timetz_ok x | _ => False end
  | TInterval => match d with DInterval x => interval_ok x | _ => False end
  | TUuid => match d with DUuid u => bytes_ok u /\ length u = 16%nat | _ => False end
  | TINet => match d with DIPAddr ip => ip_ok ip | _ => False end
  | TBit => match d with DBitArray x => bitarray_ok x | _ => False end
  | TOid => match d with DOid o => isU 32 o | _ => False end
  | TEnum _ p l =>
      match d with
      | DEnum t' r s => t' = t /\ bytes_ok r /\ GetEnumComponentsFromPhysicalRep p l r = Ok (r, s)
      | _ => False
      end
  | TCollatedString loc =>
      match d with
      | DCollatedString _ loc' k => loc' = loc /\ bytes_ok k /\ is_ok (KeyFromString loc k) = true
      | _ => False
      end
  | TArray c =>
      match d with
      | DArray c' l =>
          c' = c /\ Forall (datum_ok c) l /\ homogeneous c l /\ Z.of_nat (length l) <= maxArrayLength
      | _ => False
      end
  | TUnknown | TJson | TEncodedKey | TTuple => False
  end.

(** Comparing two datums by a part of them. *)
Definition cmp_on {A} (f : Datum -> option A) (c : A -> A -> comparison) (x y : Datum) : comparison :=
  match f x, f y with Some a, Some b => c a b | _, _ => Eq end.
Definition bool_cmp (a b : bool) : comparison :=
  match a, b with false, true => Lt | true, false => Gt | _, _ => Eq end.

(** The orders of the types on which the keys and SQL need not agree. *)
Record Orders := {
  date_order : Date -> Date -> comparison;
  time_order : Z -> Z -> comparison;
  timestamp_order : Time_ -> Time_ -> comparison;
  timestamptz_order : Time_ -> Time_ -> comparison;
  timetz_order : TimeTZ -> TimeTZ -> comparison;
  interval_order : Duration -> Duration -> comparison
}.

(** An order of the values of a type; NULL comes first, arrays compare element by element. *)
Fixpoint datum_cmp (o : Orders) (t : T) (x y : Datum) : comparison :=
  if is_null x then (if is_null y then Eq else Lt)
  else if is_null y then Gt
  else
    match t with
    | TBool => cmp_on (fun d => match d with DBool a => Some a | _ => None end) bool_cmp x y
    | TInt => cmp_on (fun d => match d with DInt a => Some a | _ => None end) Z.compare x y
    | TFloat => cmp_on (fun d => match d with DFloat a => Some a | _ => None end) float_cmp x y
    | TDecimal => cmp_on (fun d => match d with DDecimal a => Some a | _ => None end) dec_cmp x y
    | TString => cmp_on (fun d => match d with DString a => Some a | _ => None end) bytes_compare x y
    | TName => cmp_on (fun d => match d with DOidWrapper (DString a) => Some a | _ => None end) bytes_compare x y
    | TBytes => cmp_on (fun d => match d with DBytes a => Some a | _ => None end) bytes_compare x y
    | TBox2D => cmp_on (fun d => match d with DBox2D a => Some a | _ => None end) CartesianBoundingBox_Compare x y
    | TGeography => cmp_on (fun d => match d with DGeography a => Some a | _ => None end) (geo_cmp Geography_ix) x y
    | TGeometry => cmp_on (fun d => match d with DGeometry a => Some a | _ => None end) (geo_cmp Geometry_SpaceCurveIndex) x y
    | TDate => cmp_on (fun d => match d with DDate a => Some a | _ => None end) (date_order o) x y
    | TTime => cmp_on (fun d => match d with DTime a => Some a | _ => None end) (time_order o) x y
    | TTimestamp => cmp_on (fun d => match d with DTimestamp a => Some a | _ => None end) (timestamp_order o) x y
    | TTimestampTZ => cmp_on (fun d => match d with DTimestampTZ a => Some a | _ => None end) (timestamptz_order o) x y
    | TTimeTZ => cmp_on (fun d => match d with DTimeTZ a => Some a | _ => None end) (timetz_order o) x y
    | TInterval => cmp_on (fun d => match d with DInterval a => Some a | _ => None end) (interval_order o) x y
    | TUuid => cmp_on (fun d => match d with DUuid a => Some a | _ => None end) bytes_compare x y
    | TINet => cmp_on (fun d => match d with DIPAddr a => Some a | _ => None end) IP.Compare x y
    | TBit => cmp_on (fun d => match d with DBitArray a => Some a | _ => None end) BitArray_Compare x y
    | TOid => cmp_on (fun d => match d with DOid a => Some a | _ => None end) Z.compare x y
    | TEnum _ _ _ => cmp_on (fun d => match d with DEnum _ a _ => Some a | _ => None end) bytes_compare x y
    | TCollatedString _ => cmp_on (fun d => match d with DCollatedString _ _ a => Some a | _ => None end) bytes_compare x y
    | TArray c => cmp_on (fun d => match d with DArray _ a => Some a | _ => None end) (list_cmp Lt (datum_cmp o c)) x y
    | _ => Eq
    end.

(** The order of the keys: dates by their number on disk, times of day and timestamps as
    instants, intervals by their length, then their months, then their days. *)
Definition key_orders : Orders := {|
  date_order := fun a b => UnixEpochDaysWithOrig a ?= UnixEpochDaysWithOrig b;
  time_order := Z.compare; timestamp_order := time_cmp; timestamptz_order := time_cmp;
  timetz_order := timetz_cmp; interval_order := duration_cmp
|}.

(** What decoding preserves.  Floats lose the sign of zero and the payload of a NaN,
    decimals their trailing zeros, dates remember their number on disk, and of a collated
    string the key holds only the collation key. *)
Fixpoint same (t : T) (x y : Datum) : Prop :=
  match t with
  | TFloat => match x with DFloat a => y = DFloat (float_norm a) | _ => y = x end
  | TDecimal =>
      match x with
      | DDecimal a => exists b, y = DDecimal b /\ Form b = Form a /\ dec_cmp b a = Eq
      | _ => y = x
      end
  | TBox2D => match x with DBox2D a => y = DBox2D (box_norm a) | _ => y = x end
  | TDate =>
      match x with
      | DDate a => exists b, y = DDate b /\ days b = days a /\ UnixEpochDaysWithOrig b = UnixEpochDaysWithOrig a
      | _ => y = x
      end
  | TCollatedString _ =>
      match x with DCollatedString _ loc k => exists k', y = DCollatedString k loc k' | _ => y = x end
  | TArray c =>
      match x with DArray p l => exists l', y = DArray p l' /\ Forall2 (same c) l l' | _ => y = x end
  | _ => y = x
  end.
End Values.

Abbreviation key_cmp := (datum_cmp key_orders).

(** * IP addresses *)

Lemma mapped_prefix lo : 0 <= lo < 2 ^ 32 -> Z.lor lo IP.IPv4mappedIPv6prefix = lo + 65535 * 2 ^ 32.
Proof.
  intros Hlo. unfold IP.IPv4mappedIPv6prefix. rewrite Z.lor_comm, <- Z.add_nocarry_lor.
  - rewrite Z.shiftl_mul_pow2 by lia. lia.
  - apply Z.bits_inj'. intros i Hi. rewrite Z.land_spec, Z.bits_0. destruct (decide (i < 32)).
    + by rewrite Z.shiftl_spec_low by lia.
    + rewrite <- (Z.mod_small lo (2 ^ 32)), Z.mod_pow2_bits_high by lia. apply andb_false_r.
Qed.

Lemma ToBuffer_ok ip : ip_ok ip -> bytes_ok (IP.ToBuffer ip []).
Proof.
  destruct ip as [f m hi lo]. intros [Hm Hf]. cbn in *. unfold IP.ToBuffer. cbn [IP.Family IP.Mask].
  assert (bytes_ok [f; m]).
  { unfold byte_ok in *. repeat constructor; lia. }
  destruct (f =? IP.IPv4family); cbn [app]; apply (bytes_ok_app [f; m]);
    rewrite ?bytes_ok_app; split_and!; auto using be_ok.
Qed.

(** Reading the fields of a buffer. *)
Lemma buffer_reads (f m : Z) (l : bytes) n :
  n = 2 + Z.of_nat (length l) ->
  go_index (f :: m :: l) 1 = Ok m /\ slice_from (f :: m :: l) 2 = Ok l /\ slice_from (f :: m :: l) n = Ok [].
Proof.
  intros ->. split_and!.
  - exact (go_index_app [f] l m 1 eq_refl).
  - exact (slice_from_app [f; m] l 2 eq_refl).
  - rewrite <- (app_nil_r (f :: m :: l)). apply slice_from_app. cbn [length]. lia.
Qed.

Lemma FromBuffer_ToBuffer ip : ip_ok ip -> IP.FromBuffer (IP.ToBuffer ip []) = Ok ([], ip).
Proof.
  destruct ip as [f m hi lo]. unfold ip_ok. cbn [IP.Family IP.Mask IP.AddrHi IP.AddrLo].
  intros [Hm [(-> & -> & a & Ha & ->)|(-> & Hh & Hl)]]; unfold IP.ToBuffer;
    cbn [IP.Family IP.Mask IP.AddrHi IP.AddrLo Z.eqb]; unfold IP.FromBuffer; cbn [app]; rewrite go_index_0;
    cbn [mbind res_bind Z.eqb negb andb].
  - rewrite mapped_prefix by done.
    assert (u32 (a + 65535 * 2 ^ 32) = a) as -> by (unfold wrapU; rewrite Z.mod_add, Z.mod_small by lia; done).
    destruct (buffer_reads 0 m (be 4 a) IP.IPv4size) as (-> & -> & ->); [by rewrite be_length|].
    cbn [mbind res_bind]. unfold IP.Uint32. rewrite be_length. cbn [Nat.ltb Nat.leb mbind res_bind].
    rewrite take_ge by (by rewrite be_length). unfold be_uint. rewrite be_acc_u64, Z.mod_small by lia.
    by rewrite mapped_prefix by done.
  - destruct (buffer_reads 1 m (be 8 hi ++ be 8 lo) IP.IPv6size) as (-> & -> & ->); [by rewrite length_app, !be_length|].
    cbn [mbind res_bind]. unfold IP.uint128_FromBytes.
    rewrite length_app, !be_length. cbn [Nat.ltb Nat.leb Nat.add mbind res_bind].
    rewrite take_app_length', drop_app_length', (take_ge (be 8 lo)) by (by rewrite be_length).
    unfold be_uint. rewrite !be_acc_u64, !Z.mod_small by (unfold isU in *; lia). done.
Qed.

(** Addresses sort as their buffers do. *)
Lemma lexc_ltb a b c : lexc (a ?= b) c = (if a <? b then Lt else if b <? a then Gt else c).
Proof. destruct (Z.compare_spec a b), (Z.ltb_spec a b), (Z.ltb_spec b a); try lia; done. Qed.

Lemma IP_Compare_eq x y :
  IP.Compare x y = lexc (IP.Family x ?= IP.Family y) (lexc (IP.Mask x ?= IP.Mask y)
    (lexc (IP.AddrHi x ?= IP.AddrHi y) (IP.AddrLo x ?= IP.AddrLo y))).
Proof.
  unfold IP.Compare. rewrite !lexc_ltb.
  destruct (Z.compare_spec (IP.AddrLo x) (IP.AddrLo y)); zcases; try lia; done.
Qed.

Lemma ToBuffer_order x y : ip_ok x -> ip_ok y ->
  bytes_compare (IP.ToBuffer x []) (IP.ToBuffer y []) = IP.Compare x y.
Proof.
  destruct x as [f m hi lo], y as [f' m' hi' lo']. rewrite IP_Compare_eq. unfold IP.ToBuffer, ip_ok.
  cbn [IP.Family IP.Mask IP.AddrHi IP.AddrLo].
  intros [Hm [(-> & -> & a & Ha & ->)|(-> & Hh & Hl)]] [Hm' [(-> & -> & a' & Ha' & ->)|(-> & Hh' & Hl')]];
    cbn [Z.eqb app]; rewrite !bytes_compare_cons; try done.
  - rewrite be_compare. unfold wrapU. rewrite !Zmod_mod, !mapped_prefix, !Z.mod_add, !Z.mod_small by lia.
    rewrite (Z.compare_refl 0). cbn [lexc]. by rewrite !(Z.add_comm _ (65535 * _)), Z.add_compare_mono_l.
  - rewrite bytes_compare_app_len by (by rewrite !be_length). rewrite !be_compare, !Z.mod_small by done. done.
Qed.

(** * Scalars

    A scalar type encodes a part of its values ([st_f]) with a [ScalarKey]. *)
Section Scalars.
Context {geo : GeoLib} {apd : ApdLib} {coll : CollateLib} (spare : bytes).
Abbreviation Encode := (Encode spare).

Record ScalarType (t : T) := {
  st_car : Type;
  st_base : Type;
  st_inj : st_car -> Datum;
  st_f : st_car -> st_base;
  st_ok : st_base -> Prop;
  st_cmp : st_base -> st_base -> comparison;
  st_eqv : st_base -> st_base -> Prop;
  st_key : Direction -> st_base -> bytes;
  st_dec : Direction -> bytes -> res (bytes * st_base);
  st_scalar : ScalarKey st_ok st_cmp st_eqv st_key st_dec;
  st_inv : forall d, datum_ok t d -> d = DNull \/
    exists x, d = st_inj x /\ datum_ok t (st_inj x) /\ st_ok (st_f x) /\ is_null (st_inj x) = false;
  st_key_cmp : forall x y, datum_ok t (st_inj x) -> datum_ok t (st_inj y) ->
    key_cmp t (st_inj x) (st_inj y) = st_cmp (st_f x) (st_f y);
  st_encode : forall b dir x, datum_ok t (st_inj x) -> st_ok (st_f x) ->
    Encode b (st_inj x) dir = Ok (b ++ st_key dir (st_f x));
  st_decode : forall dir key x y r, datum_ok t (st_inj x) -> DecodeIfNull key = (key, false) ->
    st_dec dir key = Ok (r, y) -> st_eqv (st_f x) y ->
    exists d, Decode t key dir = Ok (d, r) /\ same t (st_inj x) d /\
      ResolvedType d = ResolvedType (st_inj x)
}.

Lemma DecodeIfNull_first m l : 1 <= m <= 254 -> DecodeIfNull (m :: l) = (m :: l, false).
Proof.
  intros Hm. unfold DecodeIfNull. rewrite decide_False; [done|].
  rewrite PeekType_slow by (unfold byte_ok; lia). cbn [slowPeekType].
  destruct (Z.eqb_spec m encodedNull), (Z.eqb_spec m encodedNullDesc); try lia. cbn [orb].
  by repeat (match goal with |- context [if ?c then _ else _] => destruct c end).
Qed.

(** The obligations of most types follow their definitions. *)
Ltac st_inv_tac :=
  intros d [->|H]; [by left|right]; destruct d; try done;
  eexists; (split; [reflexivity|]); (split; [by right|split; [|done]]); cbn in *; try done.
Ltac st_dec_tac :=
  intros dir key x y r Hx HN D E; cbn [Decode]; rewrite HN; destruct dir; cbn [dir_dec] in D;
  rewrite ?DeepCopy_eq, D; cbn [mbind res_bind ret].

(** Appending to a buffer. *)
Lemma varint_append b dir v :
  match dir with Ascending => Ok (EncodeVarintAscending b v) | Descending => Ok (EncodeVarintDescending b v) end
  = Ok (b ++ dir_enc EncodeVarintAscending EncodeVarintDescending dir v).
Proof.
  destruct dir; cbn; f_equal; [apply (oc_append (enc := EncodeVarintAscending))
                              |apply (oc_append (enc := EncodeVarintDescending))].
Qed.

Lemma bytes_desc_append b s : bytes_ok s -> EncodeBytesDescending b s = b ++ EncodeBytesDescending [] s.
Proof. intros. by rewrite !EncodeBytesDescending_view. Qed.

Lemma bytes_append b dir s : bytes_ok s ->
  match dir with Ascending => Ok (EncodeBytesAscending b s) | Descending => Ok (EncodeBytesDescending b s) end
  = Ok (b ++ dir_enc EncodeBytesAscending EncodeBytesDescending dir s).
Proof.
  intros Hs. destruct dir; cbn; f_equal; [apply (oc_append (enc := EncodeBytesAscending))|by apply bytes_desc_append].
Qed.

Lemma string_bytes b s :
  EncodeStringAscending b s = EncodeBytesAscending b s /\ EncodeStringDescending b s = EncodeBytesDescending b s.
Proof. split; [done|]. unfold EncodeStringDescending. by destruct s. Qed.

Lemma string_append b dir s : bytes_ok s ->
  match dir with Ascending => Ok (EncodeStringAscending b s) | Descending => Ok (EncodeStringDescending b s) end
  = Ok (b ++ dir_enc EncodeBytesAscending EncodeBytesDescending dir s).
Proof. destruct (string_bytes b s) as [-> ->]. apply bytes_append. Qed.

Ltac st_done E := eexists; (split; [reflexivity|]); cbn; rewrite ?E; try done.

Definition st_bool : ScalarType TBool.
Proof.
  refine {| st_inj := DBool; st_f := fun b : bool => if b then 1 else 0; st_scalar := varint_scalar |}.
  - st_inv_tac. match goal with b : bool |- _ => destruct b end; unfold isS; lia.
  - by intros [] [] _ _.
  - intros b dir x _ _. apply varint_append.
  - st_dec_tac; st_done E; rewrite <- E; by destruct x.
Defined.

Definition st_int : ScalarType TInt.
Proof.
  refine {| st_inj := DInt; st_f := fun x => x; st_scalar := varint_scalar |}.
  - st_inv_tac.
  - done.
  - intros b dir x _ _. apply varint_append.
  - st_dec_tac; st_done E.
Defined.

Definition st_time : ScalarType TTime.
Proof.
  refine {| st_inj := DTime; st_f := fun x => x; st_scalar := varint_scalar |}.
  - st_inv_tac.
  - done.
  - intros b dir x _ _. apply varint_append.
  - st_dec_tac; st_done E.
Defined.

Definition st_oid : ScalarType TOid.
Proof.
  refine {| st_inj := DOid; st_f := fun x => x; st_scalar := varint_scalar |}.
  - st_inv_tac. unfold isU, isS in *. lia.
  - done.
  - intros b dir x _ _. apply varint_append.
  - st_dec_tac; st_done E; rewrite <- E; (split; [|done]); f_equal;
      (destruct Hx as [|Hx]; [done|]; by apply (wrapU_id 32)).
Defined.

Definition st_date : ScalarType TDate.
Proof.
  refine {| st_inj := DDate; st_f := UnixEpochDaysWithOrig; st_scalar := varint_scalar |}.
  - st_inv_tac. apply H.
  - done.
  - intros b dir x _ _. apply varint_append.
  - st_dec_tac; st_done E; rewrite <- E; (split; [|done]); (eexists; split_and!; [reflexivity| |done]);
      (destruct Hx as [|Hx]; [done|]; apply Hx).
Defined.

Definition st_float : ScalarType TFloat.
Proof.
  refine {| st_inj := DFloat; st_f := fun x => x; st_scalar := float_scalar |}.
  - st_inv_tac.
  - done.
  - intros b [] x _ _; cbn; f_equal; [apply EncodeFloatAscending_append|apply EncodeFloatDescending_append].
  - st_dec_tac; st_done E.
Defined.

Definition st_decimal : ScalarType TDecimal.
Proof.
  refine {| st_inj := DDecimal; st_f := fun x => x; st_scalar := decimal_scalar |}.
  - st_inv_tac.
  - done.
  - intros b [] x _ Hx; cbn; by apply encodeDecimal_key.
  - st_dec_tac; st_done E; (split; [|done]); destruct E; eauto.
Defined.

Definition st_string : ScalarType TString.
Proof.
  refine {| st_inj := DString; st_f := fun x => x; st_scalar := bytes_scalar |}.
  - st_inv_tac.
  - done.
  - intros b dir x _ Hx. by apply string_append.
  - st_dec_tac; st_done E.
Defined.

Definition st_name : ScalarType TName.
Proof.
  refine {| st_inj := fun s => DOidWrapper (DString s); st_f := fun x => x; st_scalar := bytes_scalar |}.
  - intros d [->|H]; [by left|right]. destruct d; try done. match goal with w : Datum |- _ => destruct w end; try done.
    eexists. split; [reflexivity|]. split; [by right|done].
  - done.
  - intros b dir x _ Hx. by apply string_append.
  - st_dec_tac; st_done E.
Defined.

Definition st_bytes : ScalarType TBytes.
Proof.
  refine {| st_inj := DBytes; st_f := fun x => x; st_scalar := bytes_scalar |}.
  - st_inv_tac.
  - done.
  - intros b dir x _ Hx. by apply string_append.
  - st_dec_tac; st_done E.
Defined.

Definition st_void : ScalarType TVoid.
Proof.
  refine {| st_inj := fun _ : unit => DVoid; st_f := fun x => x; st_scalar := void_scalar |}.
  - intros d [->|H]; [by left|right]. destruct d; try done. exists (). split; [done|]. split; [by right|done].
  - done.
  - intros b [] x _ _; done.
  - intros dir key x y r Hx HN D E. cbn [Decode]. rewrite HN.
    destruct (DecodeVoidAscendingOrDescending key); cbn in D; try done. simplify_eq. by eexists.
Defined.

Definition st_box : ScalarType TBox2D.
Proof.
  refine {| st_inj := DBox2D; st_f := fun x => x; st_scalar := box_scalar |}.
  - st_inv_tac.
  - done.
  - intros b dir x _ Hx. destruct (EncodeBox2D_eq b x). by destruct dir.
  - st_dec_tac; st_done E.
Defined.

Definition st_timestamp : ScalarType TTimestamp.
Proof.
  refine {| st_inj := DTimestamp; st_f := fun x => x; st_scalar := time_scalar |}.
  - st_inv_tac.
  - done.
  - intros b [] x _ Hx; cbn; f_equal; [apply (oc_append (enc := EncodeTimeAscending))
                                      |apply (oc_append (enc := EncodeTimeDescending))].
  - st_dec_tac; st_done E.
Defined.

Definition st_timestamptz : ScalarType TTimestampTZ.
Proof.
  refine {| st_inj := DTimestampTZ; st_f := fun x => x; st_scalar := time_scalar |}.
  - st_inv_tac.
  - done.
  - intros b [] x _ Hx; cbn; f_equal; [apply (oc_append (enc := EncodeTimeAscending))
                                      |apply (oc_append (enc := EncodeTimeDescending))].
  - st_dec_tac; st_done E.
Defined.

Definition st_timetz : ScalarType TTimeTZ.
Proof.
  refine {| st_inj := DTimeTZ; st_f := fun x => x; st_scalar := timetz_scalar |}.
  - st_inv_tac.
  - done.
  - intros b [] x _ Hx; cbn; f_equal; [apply (oc_append (enc := EncodeTimeTZAscending))
                                      |apply (oc_append (enc := EncodeTimeTZDescending))].
  - st_dec_tac; st_done E.
Defined.

Definition st_interval : ScalarType TInterval.
Proof.
  refine {| st_inj := DInterval; st_f := fun x => x; st_scalar := interval_scalar |}.
  - st_inv_tac.
  - done.
  - intros b dir x _ [W Hx]. destruct (EncodeDuration_eq b x W Hx) as [A D].
    destruct dir; cbn; rewrite ?A, ?D; f_equal.
    + apply (oc_append (OrderedCodec := duration_codec _ _ _ (OrderedCodec0 := varint_codec))).
    + apply (oc_append (OrderedCodec := duration_codec _ _ _ (OrderedCodec0 := varint_desc_codec))).
  - st_dec_tac; st_done E.
Defined.

Definition st_bit : ScalarType TBit.
Proof.
  refine {| st_inj := DBitArray; st_f := fun x => x; st_scalar := bitarray_scalar |}.
  - st_inv_tac.
  - done.
  - intros b [] x _ Hx; cbn; f_equal; [apply (oc_append (enc := EncodeBitArrayAscending))
                                      |apply (oc_append (enc := EncodeBitArrayDescending))].
  - st_dec_tac; st_done E.
Defined.

Definition st_uuid : ScalarType TUuid.
Proof.
  refine {| st_inj := DUuid; st_f := fun x => x; st_scalar := bytes_scalar |}.
  - st_inv_tac. apply H.
  - done.
  - intros b dir x _ Hx. by apply bytes_append.
  - st_dec_tac; (destruct Hx as [|[_ Hx]]; [done|]); unfold uuid_FromBytes; rewrite <- E, Hx;
      st_done E.
Defined.

Definition st_inet : ScalarType TINet.
Proof.
  refine {| st_inj := DIPAddr; st_f := fun ip => IP.ToBuffer ip []; st_scalar := bytes_scalar |}.
  - st_inv_tac. by apply ToBuffer_ok.
  - intros x y [|Hx] [|Hy]; try done. symmetry. by apply ToBuffer_order.
  - intros b dir x _ Hx. by apply bytes_append.
  - st_dec_tac; (destruct Hx as [|Hx]; [done|]); rewrite <- E, FromBuffer_ToBuffer by done; st_done E.
Defined.

Definition st_enum o p l : ScalarType (TEnum o p l).
Proof.
  refine {| st_inj := fun x => DEnum (x.1.1) (x.1.2) (x.2); st_f := fun x : T * bytes * string => x.1.2; st_scalar := bytes_scalar |}.
  - intros d [->|H]; [by left|right]. destruct d; try done. eexists (_, _, _). split; [reflexivity|].
    split; [by right|]. split; [apply H|done].
  - done.
  - intros b dir x _ Hx. by apply bytes_append.
  - st_dec_tac; (destruct Hx as [|Hx]; [done|]); cbn in Hx; destruct Hx as (Et & _ & Hx); destruct x as [[t r0] s];
      cbn in *; subst; rewrite Hx; st_done Hx.
Defined.

Definition st_collated loc : ScalarType (TCollatedString loc).
Proof.
  refine {| st_inj := fun x => DCollatedString (x.1.1) (x.1.2) (x.2);
            st_f := fun x : bytes * string * bytes => x.2; st_scalar := bytes_scalar |}.
  - intros d [->|H]; [by left|right]. destruct d; try done. eexists (_, _, _). split; [reflexivity|].
    split; [by right|]. split; [apply H|done].
  - done.
  - intros b dir x _ Hx. by apply bytes_append.
  - st_dec_tac; (destruct Hx as [|Hx]; [done|]); cbn in Hx; destruct Hx as (Et & _ & Hx); destruct x as [[c l] k];
      cbn in *; subst; destruct (KeyFromString loc y); try done; cbn; eexists; (split; [reflexivity|]); (split; [eauto|done]).
Defined.

Lemma Geography_ix_u64 so i : Geography_ix so = Ok i -> isU 64 i.
Proof. intros [= <-]. apply Geography_SpaceCurveIndex_u64. Qed.

Definition st_geography : ScalarType TGeography.
Proof.
  refine {| st_inj := DGeography; st_f := fun x => x; st_scalar := geo_scalar Geography_ix Geography_ix_u64 |}.
  - st_inv_tac.
  - done.
  - intros b dir x _ (M & I & U & _)%(geo_ok_spec _ Geography_ix_u64).
    destruct (EncodeGeo_eq b _ x _ U M) as [A D]. by destruct dir.
  - st_dec_tac; st_done E.
Defined.

Definition st_geometry : ScalarType TGeometry.
Proof.
  refine {| st_inj := DGeometry; st_f := fun x => x;
            st_scalar := geo_scalar Geometry_SpaceCurveIndex Geometry_SpaceCurveIndex_u64 |}.
  - st_inv_tac.
  - done.
  - intros b dir x _ (M & I & U & _)%(geo_ok_spec _ Geometry_SpaceCurveIndex_u64).
    destruct (EncodeGeo_eq b _ x _ U M) as [A D]. cbn [Encode is_null UnwrapDOidWrapper]. rewrite I. by destruct dir.
  - st_dec_tac; st_done E.
Defined.
End Scalars.
