(* ===== verification/SqlOrder.v ===== *)
(** The SQL order of values (the [CompareError] methods of src/pkg/sql/sem/tree/datum.go) and
    the order of their index keys.

    On most types the two are one order.  They differ on intervals, which SQL compares
    after carrying days into months and nanoseconds into days, on dates read from disk that
    are out of range and stand for an infinite date, and on timestamps and times of day when
    the time zone of the session changes its offset.  [sql_exact] are the values on which
    the orders agree, [sql_refined] those the keys sort as SQL does but may tell apart when
    SQL does not. *)
From S2P Require Import Prelude Bytes IntEnc BytesEnc KeyEnc Durations Decimals GeoEnc ScalarKeys KeySide KeySideOk.

(** [Date.Compare]. *)
Definition Date_Compare (d other : Date) : comparison :=
  if days d <? days other then Lt else if days other <? days d then Gt else Eq.

(** [TimeOfDay.ToTime]; [Time.Add] of seconds. *)
Definition TimeOfDay_ToTime (t : Z) : Time_ := time_Unix 0 (s64 (t * 1000)).
Definition add_secs (t : Time_) (secs : Z) : Time_ := MkTime (t_unix t + secs) (t_nanos t).

(** [Date.IsFinite] and [Date.ToTime]. *)
Definition IsFinite (d : Date) : bool := negb (days d =? - 2 ^ 31) && negb (days d =? 2 ^ 31 - 1).
Definition Date_ToTime (d : Date) : res Time_ :=
  if IsFinite d then Ok (MkTime (s64 (UnixEpochDays d * 86400)) 0) else Err "date out of range for timestamp".

Definition MaxSupportedTime : Time_ := MkTime (9224318016000 - 1) 999999000.
Definition MinSupportedTime : Time_ := MkTime (-210866803200) 0.

Inductive infiniteDateComparison := negativeInfinity | finite | positiveInfinity.
#[export] Instance infiniteDateComparison_eq : EqDecision infiniteDateComparison.
Proof. solve_decision. Defined.
Definition infinite_code (i : infiniteDateComparison) : Z :=
  match i with negativeInfinity => 0 | finite => 1 | positiveInfinity => 2 end.

Section SqlOrder.
Context {geo : GeoLib} {apd : ApdLib} {coll : CollateLib}.
(** The offset of the time zone of the session in seconds, at a number of seconds since the
    epoch ([ctx.GetLocation]), and that of the time of the statement
    ([ctx.GetRelativeParseTime]). *)
Context (zone : Z -> Z) (zoneOffset : Z).

(** Midnight of the date in the time zone of the session, a whole number of seconds. *)
Definition MakeDTimestampTZFromDate (d : Date) : res Time_ :=
  t ← Date_ToTime d;
  let ts := add_secs t (- zone (t_unix t)) in
  if match time_cmp MaxSupportedTime ts, time_cmp ts MinSupportedTime with Lt, _ | _, Lt => true | _, _ => false end
  then Err "timestamp exceeds supported timestamp bounds" else Ok ts.

(** A timestamp and a time of day are taken to the time zone of the session. *)
Definition TimeFromDatumForComparison (d : Datum) : res Time_ :=
  match UnwrapDOidWrapper d with
  | DDate t => MakeDTimestampTZFromDate t
  | DTimestampTZ t => Ok t
  | DTimestamp t => Ok (add_secs t (- zone (t_unix t)))
  | DTime t => let toTime := TimeOfDay_ToTime t in Ok (add_secs toTime (- zone (t_unix toTime)))
  | DTimeTZ t => Ok (add_secs (TimeOfDay_ToTime (TimeOfDay t)) (OffsetSecs t))
  | _ => Err "unexpected type"
  end.

Definition checkInfiniteDate (d : Datum) : infiniteDateComparison :=
  match d with
  | DDate d => if days d =? 2 ^ 31 - 1 then positiveInfinity else if days d =? - 2 ^ 31 then negativeInfinity else finite
  | _ => finite
  end.

(** The offset of a time of day with a time zone; other values have the session's. *)
Definition offset_or_session (d : Datum) : Z :=
  match d with DTimeTZ t => OffsetSecs t | _ => s32 (- zoneOffset) end.
Definition isTimeTZ (d : Datum) : bool := match d with DTimeTZ _ => true | _ => false end.

Definition compareTimestamps (l r : Datum) : res comparison :=
  let leftInf := checkInfiniteDate l in let rightInf := checkInfiniteDate r in
  if bool_decide (leftInf <> finite \/ rightInf <> finite) then
    if bool_decide (leftInf <> finite /\ rightInf <> finite) then Err "unexpectedly two infinite dates in compareTimestamps"
    else Ok (infinite_code leftInf ?= infinite_code rightInf)
  else
    match TimeFromDatumForComparison l, TimeFromDatumForComparison r with
    | Ok lTime, Ok rTime =>
        match time_cmp lTime rTime with
        | Lt => Ok Lt
        | Gt => Ok Gt
        | Eq =>
            if negb (isTimeTZ l) && negb (isTimeTZ r) then Ok Eq
            else Ok (offset_or_session l ?= offset_or_session r)
        end
    | _, _ => Err "unsupported comparison"
    end.

(** The result of a comparison, which does not fail on two values of one type. *)
Definition compared (r : res comparison) : comparison := match r with Ok c => c | _ => Eq end.

Definition sql_orders : Orders := {|
  date_order := Date_Compare;
  time_order := fun a b => compared (compareTimestamps (DTime a) (DTime b));
  timestamp_order := fun a b => compared (compareTimestamps (DTimestamp a) (DTimestamp b));
  timestamptz_order := fun a b => compared (compareTimestamps (DTimestampTZ a) (DTimestampTZ b));
  timetz_order := fun a b => compared (compareTimestamps (DTimeTZ a) (DTimeTZ b));
  interval_order := Duration_Compare
|}.

(** [Datum.Compare] of two values of one type. *)
Definition Datum_Compare : T -> Datum -> Datum -> comparison := datum_cmp sql_orders.

(** Dates whose number on disk is the one of the date; intervals of fewer than 30 days and
    less than a day of nanoseconds, all of one sign; times of day within the day and
    timestamps at which the time zone has the offset it has at the epoch. *)
Fixpoint sql_exact (t : T) (d : Datum) : Prop :=
  match t, d with
  | TDate, DDate x => UnixEpochDaysWithOrig x = UnixEpochDays x
  | TInterval, DInterval x => x = digits (total x)
  | TTime, DTime x => 0 <= x <= 86400000000 /\ zone (x / 1000000) = zone 0
  | TTimestamp, DTimestamp x => zone (t_unix x) = zone 0
  | TArray c, DArray _ l => Forall (sql_exact c) l
  | _, _ => True
  end.

(** All dates, and the intervals whose components have one sign. *)
Definition sql_refined (t : T) (d : Datum) : Prop :=
  match t, d with
  | TDate, DDate _ => True
  | TInterval, DInterval x => positive x \/ negative x
  | _, _ => sql_exact t d
  end.

(** ** The types on which the orders are defined apart *)

Lemma time_cmp_nanos x y : 0 <= t_nanos x < 1000000000 -> 0 <= t_nanos y < 1000000000 ->
  time_cmp x y = (t_unix x * 1000000000 + t_nanos x ?= t_unix y * 1000000000 + t_nanos y).
Proof.
  intros. unfold time_cmp. destruct (Z.compare_spec (t_unix x) (t_unix y)) as [E|E|E]; cbn [lexc].
  - rewrite E. destruct (Z.compare_spec (t_nanos x) (t_nanos y)); symmetry;
      [apply Z.compare_eq_iff|apply Z.compare_lt_iff|apply Z.compare_gt_iff]; lia.
  - symmetry. apply Z.compare_lt_iff. lia.
  - symmetry. apply Z.compare_gt_iff. lia.
Qed.

Lemma ToTime_day t : 0 <= t <= 86400000000 ->
  TimeOfDay_ToTime t = MkTime (t / 1000000) (t mod 1000000 * 1000).
Proof.
  intros. unfold TimeOfDay_ToTime, time_Unix. rewrite (wrapS_id 64 (t * 1000)) by (unfold isS; lia).
  rewrite (proj2 (Z.ltb_ge _ _)) by lia. cbn [orb].
  destruct (Z.leb_spec 1000000000 (t * 1000)); [|f_equal; Z.div_mod_to_equations; lia].
  rewrite Z.quot_div_nonneg by lia. rewrite Z.add_0_l.
  rewrite (wrapS_id 64 (t * 1000 / 1000000000)) by (unfold isS; Z.div_mod_to_equations; lia).
  rewrite (proj2 (Z.ltb_ge _ _)) by (Z.div_mod_to_equations; lia). f_equal; Z.div_mod_to_equations; lia.
Qed.

Lemma compare_times l r lTime rTime :
  checkInfiniteDate l = finite -> checkInfiniteDate r = finite ->
  TimeFromDatumForComparison l = Ok lTime -> TimeFromDatumForComparison r = Ok rTime ->
  compareTimestamps l r =
    Ok (lexc (time_cmp lTime rTime)
          (if negb (isTimeTZ l) && negb (isTimeTZ r) then Eq else offset_or_session l ?= offset_or_session r)).
Proof.
  intros Il Ir El Er. unfold compareTimestamps. rewrite Il, Ir, El, Er.
  rewrite bool_decide_false by naive_solver. destruct (time_cmp lTime rTime); [|done..]. cbn [lexc].
  by destruct (negb _ && negb _).
Qed.

(** Comparing microseconds through seconds and nanoseconds. *)
Lemma time_cmp_micros a b k l :
  time_cmp (MkTime (a / 1000000 + k) (a mod 1000000 * 1000)) (MkTime (b / 1000000 + l) (b mod 1000000 * 1000))
  = (a + k * 1000000 ?= b + l * 1000000).
Proof.
  rewrite time_cmp_nanos; cbn [t_unix t_nanos]; [|Z.div_mod_to_equations; lia..].
  destruct (Z.compare_spec (a + k * 1000000) (b + l * 1000000));
    [apply Z.compare_eq_iff|apply Z.compare_lt_iff|apply Z.compare_gt_iff]; Z.div_mod_to_equations; lia.
Qed.

Lemma times_agree a b : sql_exact TTime (DTime a) -> sql_exact TTime (DTime b) ->
  compareTimestamps (DTime a) (DTime b) = Ok (a ?= b).
Proof.
  intros [Ha Za] [Hb Zb]. erewrite compare_times by reflexivity. rewrite !ToTime_day by done. cbn [t_unix].
  rewrite Za, Zb. unfold add_secs. cbn [t_unix t_nanos]. rewrite time_cmp_micros.
  rewrite !(Z.add_comm _ (_ * 1000000)), Z.add_compare_mono_l. by destruct (a ?= b).
Qed.

Lemma timetzs_agree a b : timetz_ok a -> timetz_ok b ->
  compareTimestamps (DTimeTZ a) (DTimeTZ b) = Ok (timetz_cmp a b).
Proof.
  intros [Ha _] [Hb _]. erewrite compare_times by reflexivity. rewrite !ToTime_day by done.
  unfold add_secs. cbn [t_unix t_nanos]. by rewrite time_cmp_micros.
Qed.

Lemma timestamps_agree a b : zone (t_unix a) = zone 0 -> zone (t_unix b) = zone 0 ->
  compareTimestamps (DTimestamp a) (DTimestamp b) = Ok (time_cmp a b).
Proof.
  intros Za Zb. erewrite compare_times by reflexivity. rewrite Za, Zb. unfold time_cmp, add_secs.
  cbn [t_unix t_nanos]. rewrite !(Z.add_comm _ (- zone 0)), Z.add_compare_mono_l.
  by destruct (t_unix a ?= t_unix b), (t_nanos a ?= t_nanos b).
Qed.

Lemma timestamptzs_agree a b : compareTimestamps (DTimestampTZ a) (DTimestampTZ b) = Ok (time_cmp a b).
Proof. erewrite compare_times by reflexivity. by destruct (time_cmp a b). Qed.

Lemma date_days x : date_ok x -> days x = - 2 ^ 31 \/ days x = 2 ^ 31 - 1 \/ lowDays <= days x <= highDays.
Proof.
  intros [_ <-]. cbn [MakeCompatibleDateFromDisk days]. destruct (SubWithOverflow _ _) as [p|]; [|by left].
  destruct (Z.ltb_spec highDays p); [by right; left|]. destruct (Z.ltb_spec p lowDays); [by left|].
  right. right. rewrite (wrapS_id 32) by (unfold isS; lia). lia.
Qed.

Lemma dates_agree x y : date_ok x -> date_ok y ->
  UnixEpochDaysWithOrig x = UnixEpochDays x -> UnixEpochDaysWithOrig y = UnixEpochDays y ->
  Date_Compare x y = (UnixEpochDaysWithOrig x ?= UnixEpochDaysWithOrig y).
Proof.
  intros Hx%date_days Hy%date_days -> ->. unfold Date_Compare, UnixEpochDays.
  destruct (Z.compare_spec (days x) (days y)) as [->|E|E].
  - by rewrite Z.ltb_irrefl, Z.compare_refl.
  - rewrite (proj2 (Z.ltb_lt _ _)) by done. symmetry. apply Z.compare_lt_iff.
    repeat (match goal with |- context [?a =? ?b] => destruct (Z.eqb_spec a b) end); lia.
  - rewrite (proj2 (Z.ltb_ge _ _)), (proj2 (Z.ltb_lt _ _)) by lia. symmetry. apply Z.compare_gt_iff.
    repeat (match goal with |- context [?a =? ?b] => destruct (Z.eqb_spec a b) end); lia.
Qed.

(** The number on disk grows with the date. *)
Lemma disk_mono n m : isS 64 n -> isS 64 m ->
  days (MakeCompatibleDateFromDisk n) < days (MakeCompatibleDateFromDisk m) -> n < m.
Proof.
  unfold isS. intros Hn Hm. cbn [MakeCompatibleDateFromDisk days]. unfold SubWithOverflow. cbn [Z.ltb Z.compare andb].
  rewrite !(wrapS_id 64 (MinInt64 + _)) by (unfold isS; lia).
  destruct (Z.ltb_spec n (MinInt64 + unixEpochToPGEpoch)), (Z.ltb_spec m (MinInt64 + unixEpochToPGEpoch)); try lia.
  all: rewrite ?(wrapS_id 64 (n - _)), ?(wrapS_id 64 (m - _)) by (unfold isS; lia).
  all: repeat (match goal with |- context [?a <? ?b] => destruct (Z.ltb_spec a b) end).
  all: rewrite ?(wrapS_id 32) by (unfold isS; lia); lia.
Qed.

Lemma dates_refine x y : date_ok x -> date_ok y -> Date_Compare x y <> Eq ->
  (UnixEpochDaysWithOrig x ?= UnixEpochDaysWithOrig y) = Date_Compare x y.
Proof.
  intros [Wx Ex] [Wy Ey]. unfold Date_Compare. rewrite <- Ex, <- Ey.
  destruct (Z.ltb_spec (days (MakeCompatibleDateFromDisk (UnixEpochDaysWithOrig x)))
    (days (MakeCompatibleDateFromDisk (UnixEpochDaysWithOrig y)))) as [L|L].
  - intros _. apply Z.compare_lt_iff. by apply disk_mono.
  - destruct (Z.ltb_spec (days (MakeCompatibleDateFromDisk (UnixEpochDaysWithOrig y)))
      (days (MakeCompatibleDateFromDisk (UnixEpochDaysWithOrig x)))) as [L'|L']; [|done].
    intros _. apply Z.compare_gt_iff. by apply disk_mono.
Qed.

Lemma intervals_length x y : interval_ok x -> interval_ok y -> positive x \/ negative x -> positive y \/ negative y ->
  Duration_Compare x y = (total x ?= total y).
Proof.
  intros [Wx Ox] [Wy Oy] Sx Sy. apply Compare_digits.
  - destruct Sx; [apply normalize_positive|apply normalize_negative]; try done; apply Ox.
  - destruct Sy; [apply normalize_positive|apply normalize_negative]; try done; apply Oy.
Qed.

Lemma digits_sign t : positive (digits t) \/ negative (digits t).
Proof.
  unfold digits, positive, negative. destruct (Z.leb_spec 0 t); [left|right]; cbn [Months Days nanos];
    split_and!; Z.div_mod_to_equations; lia.
Qed.

Lemma intervals_agree x y : interval_ok x -> interval_ok y -> x = digits (total x) -> y = digits (total y) ->
  Duration_Compare x y = duration_cmp x y.
Proof.
  intros Hx Hy Dx Dy. rewrite intervals_length; try done; [|rewrite Dx; apply digits_sign|rewrite Dy; apply digits_sign].
  unfold duration_cmp. destruct (Z.compare_spec (total x) (total y)) as [E|E|E]; [|done..].
  cbn [lexc]. by rewrite Dx, Dy, E, !Z.compare_refl.
Qed.

(** ** All types *)

Lemma list_cmp_ext (f g : Datum -> Datum -> comparison) l l' :
  (forall x y, x ∈ l -> y ∈ l' -> f x y = g x y) -> list_cmp Lt f l l' = list_cmp Lt g l l'.
Proof.
  revert l'. induction l as [|x l IH]; intros [|y l'] H; try done. cbn [list_cmp].
  rewrite (H x y) by set_solver. f_equal. apply IH. set_solver.
Qed.

Lemma orders_agree t x y : datum_ok t x -> datum_ok t y -> sql_exact t x -> sql_exact t y ->
  key_cmp t x y = Datum_Compare t x y.
Proof.
  revert x y. unfold Datum_Compare. induction t; intros x y [->|Hx] [->|Hy] Ex Ey; try done;
    destruct x; try done; destruct y; try done;
    cbn [datum_cmp is_null cmp_on key_orders sql_orders date_order time_order timestamp_order timestamptz_order timetz_order interval_order].
  all: symmetry; rewrite ?times_agree, ?timestamps_agree, ?timestamptzs_agree, ?timetzs_agree by done;
    auto using dates_agree, intervals_agree.
  apply list_cmp_ext. intros x y Ix Iy. symmetry. destruct Hx as (_ & Fx & _), Hy as (_ & Fy & _).
  rewrite Forall_forall in Fx, Fy. cbn [sql_exact] in Ex, Ey. rewrite Forall_forall in Ex, Ey. auto.
Qed.

Lemma order_refined t x y : datum_ok t x -> datum_ok t y -> sql_refined t x -> sql_refined t y ->
  Datum_Compare t x y <> Eq -> key_cmp t x y = Datum_Compare t x y.
Proof.
  intros Hx Hy Rx Ry N.
  destruct t; try by (apply orders_agree; [..|destruct x|destruct y]).
  - destruct Hx as [->|Hx], Hy as [->|Hy]; try done; destruct x; try done; destruct y; try done.
    by apply dates_refine.
  - destruct Hx as [->|Hx], Hy as [->|Hy]; try done; destruct x; try done; destruct y; try done.
    revert N. unfold Datum_Compare. cbn [datum_cmp is_null cmp_on key_orders sql_orders interval_order].
    rewrite intervals_length by done. unfold duration_cmp. by destruct (total _ ?= total _).
Qed.
End SqlOrder.

(** Clocks going forward an hour, at second 25200: SQL puts the timestamp of the last second
    before the change after the one of the next second, while the keys sort the other way. *)
Lemma zone_change_inverts {geo : GeoLib} :
  let zone := fun s => if s <? 25200 then -18000 else -14400 in
  let x := DTimestamp (MkTime 25199 0) in let y := DTimestamp (MkTime 25200 0) in
  Datum_Compare zone 0 TTimestamp x y = Gt /\ key_cmp TTimestamp x y = Lt.
Proof. done. Qed.
