(* ===== verification/KeySideArrays.v ===== *)
(** Index keys of every type: scalars, arrays of any depth and NULLs
    (src/pkg/sql/rowenc/keyside).

    [TypeKey] is what the values of a type need to be elements of an array; it holds for
    the scalar types and, by induction on the type, for arrays of them.  The theorems about
    [Encode], [Decode] and [Skip] follow for every type. *)
From S2P Require Import Prelude Bytes IntEnc BytesEnc KeyEnc Durations Decimals GeoEnc ScalarKeys KeySide KeySideOk SqlOrder.

Section Types.
Context {geo : GeoLib} {apd : ApdLib} {coll : CollateLib} (spare : bytes).
Abbreviation Encode := (Encode spare).
Abbreviation ScalarType := (ScalarType spare).

(** The key of a value. *)
Definition datum_key (dir : Direction) (d : Datum) : bytes :=
  match Encode [] d dir with Ok k => k | _ => [] end.

(** The decoded value is one of the type. *)
Definition decodes_to (t : T) (x y : Datum) : Prop :=
  same t x y /\ Equivalent (ResolvedType y) t = true /\ is_null y = false.

Class TypeKey (t : T) : Prop := {
  tk_encode d b dir : datum_ok t d -> is_null d = false -> Encode b d dir = Ok (b ++ datum_key dir d);
  tk_first d dir : datum_ok t d -> is_null d = false ->
    exists m l, datum_key dir d = m :: l /\ 2 <= m <= 253;
  tk_bytes d dir : datum_ok t d -> is_null d = false -> bytes_ok (datum_key dir d);
  tk_order x y dir s s' : datum_ok t x -> is_null x = false -> datum_ok t y -> is_null y = false ->
    bytes_compare (datum_key dir x ++ s) (datum_key dir y ++ s')
    = lexc (dir_cmp dir (key_cmp t x y)) (bytes_compare s s');
  tk_peek d dir r fuel : datum_ok t d -> is_null d = false -> bytes_ok r ->
    (length (datum_key dir d) <= fuel)%nat ->
    peek_length fuel (datum_key dir d ++ r) = Ok (len (datum_key dir d));
  tk_decode d dir r : datum_ok t d -> is_null d = false -> bytes_ok r ->
    exists y, Decode t (datum_key dir d ++ r) dir = Ok (y, r) /\ decodes_to t d y
}.

(** ** Scalars *)

Lemma Equivalent_refl t : Equivalent t t = true.
Proof.
  induction t as [| | | | | | | | | | | | | | | | | | | | | | | | |o p l|l|t IH]; try done; cbn.
  - rewrite Z.eqb_refl. by destruct (o =? T_anyenum).
  - unfold LocaleNamesAreEqual. rewrite String.eqb_refl. by destruct (negb _ && negb _).
Qed.

Lemma datum_ok_type t d : datum_ok t d -> is_null d = false -> Equivalent (ResolvedType d) t = true.
Proof.
  destruct t; intros [->|H] N; try done; destruct d; try done; cbn [ResolvedType];
    destruct H as [-> _]; apply Equivalent_refl.
Qed.

Lemma Equivalent_null t d : datum_ok t d -> is_null d = false -> Equivalent TUnknown t = false.
Proof. by destruct t; intros [->|H] N. Qed.

Lemma decodes_to_intro t x y :
  datum_ok t x -> is_null x = false -> same t x y -> ResolvedType y = ResolvedType x -> decodes_to t x y.
Proof.
  intros Hx N S R. pose proof (datum_ok_type t x Hx N) as E. rewrite <- R in E. split_and!; [done..|].
  destruct y; try done. cbn [ResolvedType] in E. rewrite (Equivalent_null t x) in E; done.
Qed.

Lemma scalar_type_key t (S : ScalarType t) : TypeKey t.
Proof.
  assert (forall d, datum_ok t d -> is_null d = false -> exists x, d = st_inj spare t S x /\
    datum_ok t (st_inj spare t S x) /\ st_ok spare t S (st_f spare t S x) /\
    forall dir, datum_key dir d = st_key spare t S dir (st_f spare t S x)) as V.
  { intros d H N. destruct (st_inv spare t S d H) as [->|(x & -> & Hx & Ox & _)]; [done|].
    exists x. split_and!; [done..|]. intros dir. unfold datum_key.
    by rewrite (st_encode spare t S [] dir x Hx Ox). }
  pose proof (st_scalar spare t S) as SK.
  split.
  - intros d b dir H N. destruct (V d H N) as (x & -> & Hx & Ox & K). rewrite K. by apply st_encode.
  - intros d dir H N. destruct (V d H N) as (x & -> & Hx & Ox & K). rewrite K. by apply (sk_first (ScalarKey := SK)).
  - intros d dir H N. destruct (V d H N) as (x & -> & Hx & Ox & K). rewrite K. by apply (sk_bytes (ScalarKey := SK)).
  - intros d e dir s s' H N H' N'. destruct (V d H N) as (x & -> & Hx & Ox & K).
    destruct (V e H' N') as (y & -> & Hy & Oy & K'). rewrite K, K', st_key_cmp by done.
    by apply (sk_order (ScalarKey := SK)).
  - intros d dir r fuel H N Hr. destruct (V d H N) as (x & -> & Hx & Ox & K). rewrite K.
    destruct (sk_first (ScalarKey := SK) dir _ Ox) as (m & l & E & _).
    destruct fuel as [|fuel]; [rewrite E; cbn; lia|]. intros _. by apply (sk_peek (ScalarKey := SK)).
  - intros d dir r H N Hr. destruct (V d H N) as (x & -> & Hx & Ox & K). rewrite K.
    destruct (sk_dec (ScalarKey := SK) dir _ r Ox Hr) as (y & D & E).
    destruct (sk_first (ScalarKey := SK) dir _ Ox) as (m & l & F & B).
    destruct (st_decode spare t S dir (st_key spare t S dir (st_f spare t S x) ++ r) x y r) as (d & D' & S' & R); try done.
    { rewrite F. apply DecodeIfNull_first. lia. }
    exists d. split; [done|]. by apply decodes_to_intro.
Qed.

(** Types without values. *)
Lemma no_values t : (forall d, datum_ok t d -> d = DNull) -> TypeKey t.
Proof. intros H. split; intros; exfalso; match goal with D : datum_ok t _ |- _ => apply H in D; by subst end. Qed.

(** ** Arrays *)

Definition null_byte (dir : Direction) : Z :=
  match dir with Ascending => ascendingNullWithinArrayKey | Descending => descendingNullWithinArrayKey end.
Definition array_marker (dir : Direction) : Z :=
  match dir with Ascending => arrayKeyMarker | Descending => arrayKeyDescendingMarker end.
Definition array_term (dir : Direction) : Z :=
  match dir with Ascending => arrayKeyTerminator | Descending => arrayKeyDescendingTerminator end.
Definition elem_key (dir : Direction) (d : Datum) : bytes :=
  if is_null d then [null_byte dir] else datum_key dir d.

Section Arrays.
Context (c : T) {TK : TypeKey c}.

Lemma elem_first d dir : datum_ok c d -> exists m l, elem_key dir d = m :: l /\ 1 <= m <= 254.
Proof.
  intros H. unfold elem_key. destruct (is_null d) eqn:N.
  - eexists _, _. split; [reflexivity|]. destruct dir; cbn; lia.
  - destruct (tk_first d dir H N) as (m & l & -> & ?). eexists _, _. split; [reflexivity|lia].
Qed.

Lemma elem_bytes d dir : datum_ok c d -> bytes_ok (elem_key dir d).
Proof.
  intros H. unfold elem_key. destruct (is_null d) eqn:N; [|by apply (tk_bytes d)].
  destruct dir; repeat constructor; cbn; lia.
Qed.

Lemma elem_peek d dir r fuel :
  datum_ok c d -> bytes_ok r -> (length (elem_key dir d) <= fuel)%nat ->
  peek_length fuel (elem_key dir d ++ r) = Ok (len (elem_key dir d)).
Proof.
  intros H Hr. unfold elem_key. destruct (is_null d) eqn:N; [|by apply tk_peek].
  destruct fuel; [cbn; lia|]. by destruct dir.
Qed.

Lemma key_cmp_null x y :
  is_null x || is_null y = true ->
  key_cmp c x y = (if is_null x then if is_null y then Eq else Lt else Gt).
Proof. destruct c; cbn [datum_cmp]; destruct (is_null x), (is_null y); done. Qed.

Lemma elem_order x y dir s s' : datum_ok c x -> datum_ok c y ->
  bytes_compare (elem_key dir x ++ s) (elem_key dir y ++ s')
  = lexc (dir_cmp dir (key_cmp c x y)) (bytes_compare s s').
Proof.
  intros Hx Hy. unfold elem_key. destruct (is_null x) eqn:Nx, (is_null y) eqn:Ny.
  4: by apply tk_order.
  all: rewrite key_cmp_null by (by rewrite Nx, Ny); rewrite Nx, ?Ny; cbn [app].
  - rewrite bytes_compare_cons, Z.compare_refl. by destruct dir.
  - destruct (tk_first y dir Hy Ny) as (m & l & -> & B). cbn [app]. rewrite bytes_compare_cons.
    destruct dir; cbn [null_byte dir_cmp CompOpp]; [rewrite (proj2 (Z.compare_lt_iff _ _)) by lia
      |rewrite (proj2 (Z.compare_gt_iff _ _)) by lia]; done.
  - destruct (tk_first x dir Hx Nx) as (m & l & -> & B). cbn [app]. rewrite bytes_compare_cons.
    destruct dir; cbn [null_byte dir_cmp CompOpp]; [rewrite (proj2 (Z.compare_gt_iff _ _)) by lia
      |rewrite (proj2 (Z.compare_lt_iff _ _)) by lia]; done.
Qed.

Lemma elems_bytes l dir : Forall (datum_ok c) l -> bytes_ok (l ≫= elem_key dir).
Proof.
  induction 1 as [|d l Hd _ IH]; [constructor|]. cbn [mbind list_bind]. apply bytes_ok_app.
  split; [by apply elem_bytes|done].
Qed.

Lemma elems_encode l b dir : Forall (datum_ok c) l ->
  encode_elems (fun b d => Encode b d dir) dir b l = Ok (b ++ (l ≫= elem_key dir)).
Proof.
  intros F. revert b. induction F as [|d l Hd _ IH]; intros b; cbn [encode_elems mbind list_bind].
  { by rewrite app_nil_r. }
  transitivity (encode_elems (fun b d => Encode b d dir) dir (b ++ elem_key dir d) l);
    [|rewrite IH, <- app_assoc; done].
  unfold elem_key. destruct (is_null d) eqn:N; [by destruct dir|]. by rewrite tk_encode.
Qed.

Lemma array_encode p l b dir : Forall (datum_ok c) l ->
  Encode b (DArray p l) dir = Ok (b ++ array_marker dir :: (l ≫= elem_key dir) ++ [array_term dir]).
Proof.
  intros F. transitivity (encodeArrayKey spare b l dir); [reflexivity|]. unfold encodeArrayKey.
  rewrite elems_encode by done. cbn [mbind res_bind]. f_equal.
  by destruct dir; cbn; rewrite <- !app_assoc.
Qed.

Lemma array_key p l dir : Forall (datum_ok c) l ->
  datum_key dir (DArray p l) = array_marker dir :: (l ≫= elem_key dir) ++ [array_term dir].
Proof. intros F. unfold datum_key. by rewrite array_encode. Qed.

Lemma list_cmp_dir dir l l' :
  list_cmp (dir_cmp dir Lt) (fun x y => dir_cmp dir (key_cmp c x y)) l l'
  = dir_cmp dir (list_cmp Lt (key_cmp c) l l').
Proof. destruct dir; [done|]. apply (list_cmp_opp Lt). Qed.

Lemma array_order p q l l' dir s s' : Forall (datum_ok c) l -> Forall (datum_ok c) l' ->
  bytes_compare (datum_key dir (DArray p l) ++ s) (datum_key dir (DArray q l') ++ s')
  = lexc (dir_cmp dir (list_cmp Lt (key_cmp c) l l')) (bytes_compare s s').
Proof.
  intros F F'. rewrite !array_key by done. cbn [app].
  rewrite bytes_compare_cons, Z.compare_refl. cbn [lexc]. rewrite <- !app_assoc. cbn [app].
  rewrite <- list_cmp_dir.
  apply (terminated_order (ok := datum_ok c) (enc := fun b d => b ++ elem_key dir d)); try done.
  - by destruct dir.
  - intros x y u v Hx Hy. by apply elem_order.
  - intros x Hx. destruct (elem_first x dir Hx) as (m & e & E & B). exists m, e. split; [done|].
    destruct dir; [apply Z.compare_lt_iff|apply Z.compare_gt_iff]; cbn; lia.
Qed.

(** *** Length *)

Lemma not_done dir m l : 1 <= m <= 254 -> IsArrayKeyDone (m :: l) dir = Ok false.
Proof.
  intros B. unfold IsArrayKeyDone. rewrite go_index_0. cbn [mbind res_bind]. f_equal.
  destruct dir; apply Z.eqb_neq; lia.
Qed.

Lemma is_done dir l : IsArrayKeyDone (array_term dir :: l) dir = Ok true.
Proof. unfold IsArrayKeyDone. rewrite go_index_0. by destruct dir. Qed.

Lemma array_length_enc peek fuel l dir r acc :
  Forall (datum_ok c) l -> bytes_ok r -> (length l < fuel)%nat ->
  (forall d r, d ∈ l -> bytes_ok r -> peek (elem_key dir d ++ r) = Ok (len (elem_key dir d))) ->
  array_length_loop peek fuel ((l ≫= elem_key dir) ++ array_term dir :: r) dir acc
  = Ok (acc + len (l ≫= elem_key dir) + 1).
Proof.
  intros F Hr. revert fuel acc. induction F as [|d l Hd F IH]; intros [|fuel] acc Hf P; try (cbn in Hf; lia).
  { cbn [mbind list_bind app array_length_loop]. rewrite is_done. cbn. f_equal. lia. }
  cbn [mbind list_bind]. rewrite <- app_assoc.
  assert (bytes_ok ((l ≫= elem_key dir) ++ array_term dir :: r)) as Hb.
  { apply bytes_ok_app. split; [by apply elems_bytes|]. constructor; [destruct dir; cbn; unfold byte_ok; lia|done]. }
  pose proof (P d _ ltac:(left) Hb) as Pd.
  pose proof (slice_from_app (elem_key dir d) ((l ≫= elem_key dir) ++ array_term dir :: r) _ eq_refl) as Sl.
  destruct (elem_first d dir Hd) as (m & e & E & B). rewrite E in *. cbn [app array_length_loop] in *.
  rewrite not_done by done. cbn [mbind res_bind]. rewrite Pd. cbn [mbind res_bind].
  rewrite Sl. cbn [mbind res_bind].
  rewrite IH; [|cbn in Hf; lia|intros; apply P; [by right|done]].
  f_equal. cbn [length]. rewrite length_app. unfold mbind. lia.
Qed.

Lemma elems_length l dir : Forall (datum_ok c) l -> (length l <= length (l ≫= elem_key dir))%nat.
Proof.
  induction 1 as [|d l Hd _ IH]; [done|]. rewrite bind_cons, length_app.
  destruct (elem_first d dir Hd) as (m & e & -> & _). cbn [length]. lia.
Qed.

Lemma elem_length l d dir : d ∈ l -> (length (elem_key dir d) <= length (l ≫= elem_key dir))%nat.
Proof.
  induction 1 as [d l|d e l _ IH]; rewrite bind_cons, length_app; lia.
Qed.

Lemma array_peek p l dir r fuel :
  Forall (datum_ok c) l -> bytes_ok r -> (length (datum_key dir (DArray p l)) <= fuel)%nat ->
  peek_length fuel (datum_key dir (DArray p l) ++ r) = Ok (len (datum_key dir (DArray p l))).
Proof.
  intros F Hr. rewrite array_key by done. cbn [length app]. rewrite length_app. cbn [length].
  intros Hf. destruct fuel as [|fuel]; [lia|].
  transitivity (len ← array_length_loop (peek_length fuel)
      (length (array_marker dir :: ((l ≫= elem_key dir) ++ [array_term dir]) ++ r))
      ((l ≫= elem_key dir) ++ array_term dir :: r) dir 0; Ok (1 + len)).
  { rewrite <- app_assoc. cbn [app]. destruct dir; cbn [array_marker peek_length]; cbn [Z.eqb Pos.eqb orb];
      rewrite slice_from_1; done. }
  rewrite array_length_enc; [|done|done| |].
  - cbn. f_equal. unfold mbind in *. lia.
  - cbn [length]. rewrite !length_app. pose proof (elems_length l dir F). unfold mbind in *. lia.
  - intros d r' Hd Hr'. apply elem_peek; [by eapply Forall_forall in F|done|].
    pose proof (elem_length l d dir Hd). lia.
Qed.
(** *** Decoding *)

(** Elements that are arrays have the same length. *)
Definition hom_ok (n : nat) (d : Datum) : Prop :=
  match c with TArray _ => DArray_Len d = Some n | _ => True end.

Lemma homogeneous_hom l : homogeneous c l -> exists n, Forall (hom_ok n) l.
Proof. unfold homogeneous, hom_ok. destruct c; try (intros; exists 0%nat; by apply Forall_true). done. Qed.

Lemma family_array t : (family t =? family (TArray TUnknown)) = true -> exists u, t = TArray u.
Proof. destruct t; try discriminate. eauto. Qed.

Lemma check_homogeneous_ok acc v n contents :
  c = TArray contents -> Forall (hom_ok n) acc -> hom_ok n v -> check_homogeneous acc v = Ok ().
Proof.
  unfold hom_ok, check_homogeneous. intros -> F Hv. destruct v; try done. cbn [is_null].
  destruct (last acc) as [p|] eqn:L; [|done].
  assert (DArray_Len p = Some n) as Hp.
  { eapply Forall_forall in F; [exact F|]. apply last_Some_elem_of. exact L. }
  destruct p; try done. cbn [is_null]. rewrite Hp, Hv. by rewrite Nat.eqb_refl.
Qed.

Lemma DArray_Append_ok acc v n :
  Forall (hom_ok n) acc -> hom_ok n v -> is_null v = true \/ Equivalent (ResolvedType v) c = true ->
  Z.of_nat (length acc) < maxArrayLength -> DArray_Append c acc v = Ok (acc ++ [v]).
Proof.
  intros F Hv Ht Hl. unfold DArray_Append.
  assert (EquivalentOrNull (ResolvedType v) c true = true) as ->.
  { unfold EquivalentOrNull. destruct Ht as [N| ->]; [|done]. destruct v; try done. by destruct (Equivalent _ c). }
  cbn [negb]. destruct (Z.leb_spec maxArrayLength (Z.of_nat (length acc))); [lia|].
  assert ((if family c =? family (TArray TUnknown) then check_homogeneous acc v else Ok ()) = Ok ()) as ->.
  { destruct (family c =? family (TArray TUnknown)) eqn:E; [|done].
    destruct (family_array c E) as [t Ec]. by apply (check_homogeneous_ok acc v n t). }
  cbn [mbind res_bind]. rewrite length_app. cbn [length].
  destruct (Z.ltb_spec maxArrayLength (Z.of_nat (length acc + 1))); [lia|done].
Qed.

Lemma same_hom n x y : datum_ok c x -> same c x y -> hom_ok n x -> hom_ok n y.
Proof.
  unfold hom_ok. destruct c; try done. intros [->|H] S Hn; [done|]. destruct x; try done.
  destruct S as (l' & -> & F). cbn in *. by rewrite <- (Forall2_length _ _ _ F).
Qed.

Lemma same_null : same c DNull DNull.
Proof. by destruct c. Qed.

(** One element. *)
Lemma elem_decode d dir r : datum_ok c d -> bytes_ok r ->
  exists y, same c d y /\ (is_null y = true \/ Equivalent (ResolvedType y) c = true) /\
    (isNull ← IsNextByteArrayEncodedNull (elem_key dir d ++ r) dir;
     if (isNull : bool) then Ok (DNull, drop 1 (elem_key dir d ++ r))
     else Decode c (elem_key dir d ++ r) dir) = Ok (y, r).
Proof.
  intros H Hr. unfold elem_key, IsNextByteArrayEncodedNull. destruct (is_null d) eqn:N.
  - exists DNull. destruct d; try done. split; [apply same_null|]. split; [by left|].
    cbn [app]. rewrite go_index_0. cbn [mbind res_bind drop]. rewrite drop_0. by destruct dir.
  - destruct (tk_decode d dir r H N Hr) as (y & D & S & E & _). exists y. split_and!; [done|by right|].
    destruct (tk_first d dir H N) as (m & l & K & B). rewrite K in *. cbn [app] in *. rewrite go_index_0.
    cbn [mbind res_bind]. rewrite (proj2 (Z.eqb_neq m _)); [done|]. destruct dir; lia.
Qed.

Lemma decode_array_enc n l acc dir r fuel :
  Forall (datum_ok c) l -> bytes_ok r -> (length l < fuel)%nat ->
  Forall (hom_ok n) acc -> Forall (hom_ok n) l -> Z.of_nat (length acc + length l) <= maxArrayLength ->
  exists l', Forall2 (same c) l l' /\
    decode_array_loop (fun b => Decode c b dir) c dir fuel ((l ≫= elem_key dir) ++ array_term dir :: r) acc
    = Ok (DArray c (acc ++ l'), r).
Proof.
  intros F Hr. revert fuel acc. induction F as [|d l Hd F IH]; intros [|fuel] acc Hf Fa Fl Hl; try (cbn in Hf; lia).
  { exists []. split; [done|]. rewrite app_nil_r. cbn [mbind list_bind app decode_array_loop]. rewrite is_done.
    cbn [mbind res_bind drop]. by rewrite drop_0. }
  rewrite bind_cons, <- app_assoc. apply Forall_cons in Fl as [Hn Fl].
  assert (bytes_ok ((l ≫= elem_key dir) ++ array_term dir :: r)) as Hb.
  { apply bytes_ok_app. split; [by apply elems_bytes|]. constructor; [destruct dir; cbn; unfold byte_ok; lia|done]. }
  destruct (elem_decode d dir _ Hd Hb) as (y & S & E & D).
  pose proof (same_hom n d y Hd S Hn) as Hy. cbn [length] in *.
  pose proof (DArray_Append_ok acc y n Fa Hy E ltac:(lia)) as A.
  destruct (IH fuel (acc ++ [y])) as (l' & F' & D'); [lia|by apply Forall_app_2, Forall_cons|done|rewrite length_app; cbn; lia|].
  exists (y :: l'). split; [by constructor|].
  destruct (elem_first d dir Hd) as (m & e & K & B). rewrite K in *. cbn [app decode_array_loop] in *.
  rewrite not_done by done. cbn [mbind res_bind].
  destruct (IsNextByteArrayEncodedNull _ dir) as [b| |]; cbn [mbind res_bind] in D |- *; try done. rewrite D.
  cbn [mbind res_bind]. rewrite A. cbn [mbind res_bind]. rewrite D', <- app_assoc. done.
Qed.

Lemma array_decode p l dir r : datum_ok (TArray c) (DArray p l) -> bytes_ok r ->
  exists y, Decode (TArray c) (datum_key dir (DArray p l) ++ r) dir = Ok (y, r) /\
    decodes_to (TArray c) (DArray p l) y.
Proof.
  intros [|(-> & F & (n & Fn)%homogeneous_hom & L)] Hr; [done|]. rewrite array_key by done.
  cbn [app]. rewrite <- app_assoc. cbn [app].
  destruct (decode_array_enc n l [] dir r (S (length ((l ≫= elem_key dir) ++ array_term dir :: r))) F Hr)
    as (l' & F' & D); [|done..|].
  { rewrite length_app. pose proof (elems_length l dir F). lia. }
  exists (DArray c l'). split.
  - transitivity (decodeArrayKey (fun b => Decode c b dir) c
      (array_marker dir :: (l ≫= elem_key dir) ++ array_term dir :: r) dir).
    { cbn [Decode]. rewrite DecodeIfNull_first by (destruct dir; cbn; lia). done. }
    unfold decodeArrayKey, ValidateAndConsumeArrayKeyMarker. rewrite decide_True by (destruct dir; cbn [array_marker]; marker).
    cbn [drop mbind res_bind]. rewrite drop_0. exact D.
  - split_and!; [by exists l'|apply Equivalent_refl|done].
Qed.

Lemma array_type_key : TypeKey (TArray c).
Proof.
  assert (forall d, datum_ok (TArray c) d -> is_null d = false ->
    exists p l, d = DArray p l /\ Forall (datum_ok c) l) as V.
  { intros d [->|H] N; [done|]. destruct d; try done. destruct H as (-> & F & _). eauto. }
  split.
  - intros d b dir H N. destruct (V d H N) as (p & l & -> & F). rewrite array_key by done. by apply array_encode.
  - intros d dir H N. destruct (V d H N) as (p & l & -> & F). rewrite array_key by done.
    eexists _, _. split; [reflexivity|]. destruct dir; cbn; lia.
  - intros d dir H N. destruct (V d H N) as (p & l & -> & F). rewrite array_key by done.
    constructor; [destruct dir; cbn; unfold byte_ok; lia|]. apply bytes_ok_app.
    split; [by apply elems_bytes|]. repeat constructor; destruct dir; cbn; lia.
  - intros x y dir s s' H N H' N'. destruct (V x H N) as (p & l & -> & F).
    destruct (V y H' N') as (q & l' & -> & F'). rewrite array_order by done. done.
  - intros d dir r fuel H N Hr. destruct (V d H N) as (p & l & -> & F). by apply array_peek.
  - intros d dir r H N Hr. destruct (V d H N) as (p & l & -> & F). by apply array_decode.
Qed.
End Arrays.

(** ** Every type *)

Lemma type_key t : TypeKey t.
Proof.
  induction t; try (by apply no_values; intros d [->|H]);
    first [by apply array_type_key|apply scalar_type_key].
  all: first [exact (st_bool spare)|exact (st_int spare)|exact (st_float spare)|exact (st_decimal spare)
    |exact (st_string spare)|exact (st_name spare)|exact (st_bytes spare)|exact (st_void spare)
    |exact (st_box spare)|exact (st_geography spare)|exact (st_geometry spare)|exact (st_date spare)
    |exact (st_time spare)|exact (st_timestamp spare)|exact (st_timestamptz spare)|exact (st_timetz spare)
    |exact (st_interval spare)|exact (st_uuid spare)|exact (st_inet spare)|exact (st_bit spare)
    |exact (st_oid spare)|apply st_enum|apply st_collated].
Qed.
(** ** Columns: values that can be NULL *)

Lemma null_key dir : datum_key dir DNull = [match dir with Ascending => encodedNull | Descending => encodedNullDesc end].
Proof. by destruct dir. Qed.

Lemma column_encode t d b dir : datum_ok t d -> Encode b d dir = Ok (b ++ datum_key dir d).
Proof.
  intros H. destruct (is_null d) eqn:N; [|by apply (tk_encode (TypeKey := type_key t))].
  destruct d; try done. by destruct dir.
Qed.

Lemma column_order t x y dir s s' : datum_ok t x -> datum_ok t y ->
  bytes_compare (datum_key dir x ++ s) (datum_key dir y ++ s')
  = lexc (dir_cmp dir (key_cmp t x y)) (bytes_compare s s').
Proof.
  pose proof (type_key t) as TK. intros Hx Hy. destruct (is_null x) eqn:Nx, (is_null y) eqn:Ny.
  4: by apply tk_order.
  all: rewrite (key_cmp_null t x y) by (by rewrite Nx, Ny); rewrite Nx, ?Ny.
  - destruct x, y; try done. rewrite null_key. cbn [app]. rewrite bytes_compare_cons, Z.compare_refl. by destruct dir.
  - destruct x; try done. rewrite null_key. destruct (tk_first y dir Hy Ny) as (m & l & -> & B). cbn [app].
    rewrite bytes_compare_cons. destruct dir; cbn [dir_cmp CompOpp]; [rewrite (proj2 (Z.compare_lt_iff _ _)) by lia
      |rewrite (proj2 (Z.compare_gt_iff _ _)) by lia]; done.
  - destruct y; try done. rewrite null_key. destruct (tk_first x dir Hx Nx) as (m & l & -> & B). cbn [app].
    rewrite bytes_compare_cons. destruct dir; cbn [dir_cmp CompOpp]; [rewrite (proj2 (Z.compare_gt_iff _ _)) by lia
      |rewrite (proj2 (Z.compare_lt_iff _ _)) by lia]; done.
Qed.

Lemma column_peek t d dir r : datum_ok t d -> bytes_ok r ->
  PeekLength (datum_key dir d ++ r) = Ok (len (datum_key dir d)).
Proof.
  intros H Hr. unfold PeekLength. destruct (is_null d) eqn:N.
  - destruct d; try done. by destruct dir.
  - apply (tk_peek (TypeKey := type_key t)); try done. rewrite length_app. lia.
Qed.

Lemma column_decode t d dir r : datum_ok t d -> bytes_ok r ->
  exists y, Decode t (datum_key dir d ++ r) dir = Ok (y, r) /\ same t d y.
Proof.
  intros H Hr. destruct (is_null d) eqn:N.
  - destruct d; try done. exists DNull. split; [|by destruct t]. rewrite null_key. cbn [app].
    transitivity (let '(key, isNull) := (r, true) in if (isNull : bool) then Ok (DNull, key) else Ok (DNull, r)); [|done].
    assert (DecodeIfNull ((match dir with Ascending => encodedNull | Descending => encodedNullDesc end) :: r) = (r, true)) as E.
    { unfold DecodeIfNull. rewrite decide_True; [cbn [drop]; by rewrite drop_0|]. destruct dir; marker. }
    destruct t; cbn [Decode]; rewrite E; done.
  - destruct (tk_decode (TypeKey := type_key t) d dir r H N Hr) as (y & D & S & _). eauto.
Qed.
End Types.

(** The spare capacity of the buffer does not show in the key. *)
Section Spare.
Context {geo : GeoLib} {apd : ApdLib} {coll : CollateLib}.

Lemma spare_irrelevant sp sp' t d b dir : datum_ok t d -> Encode sp b d dir = Encode sp' b d dir.
Proof.
  revert d b. induction t; intros d bb [->|H]; try done; destruct d; try done.
  - destruct dir; cbn [Encode is_null UnwrapDOidWrapper]; unfold EncodeDecimalAscending, EncodeDecimalDescending;
      by rewrite !encodeDecimal_key.
  - by destruct d.
  - destruct H as (_ & F & _).
    transitivity (encodeArrayKey sp bb Array dir); [reflexivity|].
    transitivity (encodeArrayKey sp' bb Array dir); [|reflexivity].
    unfold encodeArrayKey. f_equal. generalize (EncodeArrayKeyMarker bb dir). clear bb.
    induction F as [|e l He _ IHl]; intros bb; [done|]. cbn [encode_elems].
    destruct (is_null e); cbn [mbind res_bind]; [apply IHl|]. rewrite (IHt e bb He).
    destruct (Encode sp' bb e dir); cbn [mbind res_bind]; [apply IHl|done..].
Qed.

Lemma datum_key_spare sp sp' t d dir : datum_ok t d -> datum_key sp dir d = datum_key sp' dir d.
Proof. intros H. unfold datum_key. by rewrite (spare_irrelevant sp sp' t). Qed.

(** C20: Index keys sort as SQL values do.  For two values of one type, NULLs and arrays of
    any depth included, and either direction, [keyside.Encode] succeeds and appends a key
    to the buffer.  Whatever columns follow them, the keys compare as [Datum.Compare] compares
    the values, in the direction of the column, and equal values leave the decision to what
    follows.  This holds of the values [sql_exact] describes: all values of all types but
    intervals, which must be in normal form (one sign, fewer than 30 days, less than a day of
    nanoseconds), dates, whose number on disk must be that of the date, and times of day and
    timestamps without a time zone, at which the time zone of the session must have one
    offset.  Outside of arrays every date, and every interval of one sign, that SQL sorts
    before another has the lesser key.  In every case the keys compare by [key_cmp], which
    sorts intervals by length, months and days and dates by their number on disk. *)
Theorem keyside_order zone zoneOffset sp sp' t x y dir b b' s s' :
  datum_ok t x -> datum_ok t y ->
  exists kx ky, Encode sp b x dir = Ok (b ++ kx) /\ Encode sp' b' y dir = Ok (b' ++ ky) /\
    (sql_exact zone t x -> sql_exact zone t y ->
      bytes_compare (kx ++ s) (ky ++ s') = lexc (dir_cmp dir (Datum_Compare zone zoneOffset t x y)) (bytes_compare s s')) /\
    (sql_refined zone t x -> sql_refined zone t y -> Datum_Compare zone zoneOffset t x y <> Eq ->
      bytes_compare (kx ++ s) (ky ++ s') = dir_cmp dir (Datum_Compare zone zoneOffset t x y)) /\
    bytes_compare (kx ++ s) (ky ++ s') = lexc (dir_cmp dir (key_cmp t x y)) (bytes_compare s s').
Proof.
  intros Hx Hy. exists (datum_key sp dir x), (datum_key sp' dir y).
  rewrite (datum_key_spare sp' sp t) by done. rewrite (column_order sp t) by done.
  split_and!; [by rewrite (column_encode sp t)|rewrite (column_encode sp' t), (datum_key_spare sp' sp t) by done; done| | |done].
  - intros Ex Ey. by rewrite (orders_agree zone zoneOffset).
  - intros Rx Ry N. rewrite (order_refined zone zoneOffset) by done. by destruct (Datum_Compare zone zoneOffset t x y), dir.
Qed.

(** C21: Index keys decode.  The key of a value of a type, followed by any other columns,
    decodes at that type and direction to the value (with the sign of zero, NaN payloads
    and trailing decimal zeros normalised, and of a collated string its collation key),
    and decoding leaves exactly what followed. *)
Theorem keyside_roundtrip sp t d dir b r :
  datum_ok t d -> bytes_ok r ->
  exists k y, Encode sp b d dir = Ok (b ++ k) /\ Decode t (k ++ r) dir = Ok (y, r) /\ same t d y.
Proof.
  intros Hd Hr. destruct (column_decode sp t d dir r Hd Hr) as (y & D & S).
  exists (datum_key sp dir d), y. split_and!; [by apply (column_encode sp t)|done..].
Qed.

(** C22: Index keys delimit themselves.  Without knowing its type, [PeekLength] finds the
    length of the key of a value of any type in either direction, whatever follows it, and
    [Skip] steps over exactly that key; it terminates on nested arrays. *)
Theorem keyside_skip sp t d dir b r :
  datum_ok t d -> bytes_ok r ->
  exists k, Encode sp b d dir = Ok (b ++ k) /\
    PeekLength (k ++ r) = Ok (Z.of_nat (length k)) /\ Skip (k ++ r) = Ok r.
Proof.
  intros Hd Hr. exists (datum_key sp dir d). pose proof (column_peek sp t d dir r Hd Hr) as P.
  split_and!; [by apply (column_encode sp t)|done|].
  unfold Skip. rewrite P. cbn [mbind res_bind]. by apply slice_from_app.
Qed.
End Spare.

(** A collation that compares bytes. *)
Definition coll_lib : CollateLib := {| KeyFromString := fun _ s => Ok s |}.

(** A two-dimensional array with a NULL in it. *)
Definition sample : @Datum geo_lib :=
  DArray (TArray TInt) [DArray TInt [DInt 1; DNull]; DArray TInt [DInt (-300); DInt 7]].

Lemma sample_ok : @datum_ok geo_lib coll_lib (TArray (TArray TInt)) sample.
Proof.
  assert (forall a b, @datum_ok geo_lib coll_lib TInt a -> @datum_ok geo_lib coll_lib TInt b ->
    @datum_ok geo_lib coll_lib (TArray TInt) (DArray TInt [a; b])) as R.
  { intros a b Ha Hb. right. split_and!; [done|constructor; [done|constructor; [done|constructor]]|done|by vm_compute]. }
  right. split_and!; [done| |by exists 2%nat; repeat constructor|by vm_compute].
  constructor; [|constructor; [|constructor]]; apply R; first [by left|right; unfold isS; cbn; lia].
Qed.

Lemma keyside_order_witness :
  exists kx ky, @Encode geo_lib apd_lib [] [1] sample Descending = Ok ([1] ++ kx) /\
    @Encode geo_lib apd_lib [] [1] DNull Descending = Ok ([1] ++ ky) /\
    bytes_compare (kx ++ [5]) (ky ++ []) = Lt.
Proof.
  destruct (@keyside_order geo_lib apd_lib coll_lib (fun _ => 0) 0 [] [] (TArray (TArray TInt)) sample DNull Descending
    [1] [1] [5] [] sample_ok ltac:(by left)) as (kx & ky & Ex & Ey & C & _).
  exists kx, ky. split_and!; [done..|]. apply C; repeat constructor.
Defined.

Lemma keyside_roundtrip_witness :
  exists k y, @Encode geo_lib apd_lib [] [] sample Ascending = Ok k /\
    @Decode geo_lib coll_lib (TArray (TArray TInt)) (k ++ [9]) Ascending = Ok (y, [9]) /\
    same (TArray (TArray TInt)) sample y.
Proof.
  destruct (@keyside_roundtrip geo_lib apd_lib coll_lib [] (TArray (TArray TInt)) sample Ascending
    [] [9] sample_ok ltac:(repeat constructor; lia)) as (k & y & Ek & D & S).
  by exists k, y.
Defined.

Lemma keyside_skip_witness :
  exists k, @Encode geo_lib apd_lib [] [] sample Descending = Ok k /\ Skip (k ++ [9; 200]) = Ok [9; 200].
Proof.
  destruct (@keyside_skip geo_lib apd_lib coll_lib [] (TArray (TArray TInt)) sample Descending
    [] [9; 200] sample_ok ltac:(repeat constructor; lia)) as (k & Ek & _ & S).
  by exists k.
Defined.
