(* ===== verification/MvccKey.v ===== *)
(** Versioned keys and the order of the storage engine
    (src/pkg/storage/mvcc_key.go, engine_key.go, the comparer of pebble.go, and
    enginepb/decode.go).

    An MVCC key is a key and a timestamp; the engine stores its encoding and sorts the
    encodings with [EngineKeyCompare].  The file shows that the comparer orders encoded
    keys by key and then from the newest to the oldest version, with the metadata version
    first, that encodings decode whatever buffer they were laid out in, and what Pebble
    asks of a comparer. *)
From S2P Require Import Prelude Bytes GoLib IntEnc Hlc KeyOps.

(** * MVCC keys *)

Record MVCCKey := MkMVCCKey { k_Key : bytes; k_Timestamp : Timestamp }.

Definition MakeMVCCMetadataKey (key : bytes) : MVCCKey := MkMVCCKey key EmptyTimestamp.
Definition MVCCKeyMax : MVCCKey := MakeMVCCMetadataKey KeyMax.

(** [spare] is the spare capacity behind the key's bytes. *)
Definition MVCCKey_Next (k : MVCCKey) (spare : bytes) : res MVCCKey :=
  ts ← Timestamp_Prev (k_Timestamp k);
  if Timestamp_IsEmpty ts then Ok (MkMVCCKey (Key_Next (k_Key k) spare) EmptyTimestamp)
  else Ok (MkMVCCKey (k_Key k) ts).

Definition MVCCKey_IsValue (k : MVCCKey) : bool := negb (Timestamp_IsEmpty (k_Timestamp k)).

Definition MVCCKey_Compare (k o : MVCCKey) : comparison :=
  match Key_Compare (k_Key k) (k_Key o) with
  | Eq =>
      if Timestamp_IsEmpty (k_Timestamp k) && negb (Timestamp_IsEmpty (k_Timestamp o)) then Lt
      else if negb (Timestamp_IsEmpty (k_Timestamp k)) && Timestamp_IsEmpty (k_Timestamp o) then Gt
      else - Timestamp_Compare (k_Timestamp k) (k_Timestamp o) ?= 0
  | c => c
  end.

Definition MVCCKey_Less (k l : MVCCKey) : bool :=
  match Key_Compare (k_Key k) (k_Key l) with
  | Lt => true
  | Gt => false
  | Eq =>
      if negb (MVCCKey_IsValue k) then MVCCKey_IsValue l
      else if negb (MVCCKey_IsValue l) then false
      else Timestamp_Less (k_Timestamp l) (k_Timestamp k)
  end.

Definition MVCCKey_Equal (k l : MVCCKey) : bool :=
  match Key_Compare (k_Key k) (k_Key l) with
  | Eq => Timestamp_EqOrdering (k_Timestamp k) (k_Timestamp l)
  | _ => false
  end.

Abbreviation MVCCVersionTimestampSize := 12.

Definition MVCCKey_EncodedSize (k : MVCCKey) : Z :=
  Z.of_nat (length (k_Key k)) + 1 + (if MVCCKey_IsValue k then MVCCVersionTimestampSize else 0).

(** ** Encoding *)

Abbreviation mvccEncodedTimeSentinelLen := 1%nat.
Abbreviation mvccEncodedTimeWallLen := 8%nat.
Abbreviation mvccEncodedTimeLogicalLen := 4%nat.
Abbreviation mvccEncodedTimeSyntheticLen := 1%nat.
Abbreviation mvccEncodedTimeLengthLen := 1%nat.

Definition encodedMVCCKeyLength (key : MVCCKey) : nat :=
  let ts := k_Timestamp key in
  (length (k_Key key) + mvccEncodedTimeSentinelLen +
   if Timestamp_IsEmpty ts then 0
   else
     mvccEncodedTimeWallLen + mvccEncodedTimeLengthLen +
     if negb (Logical ts =? 0)%Z || Synthetic ts then
       mvccEncodedTimeLogicalLen + (if Synthetic ts then mvccEncodedTimeSyntheticLen else 0)
     else 0)%nat.

Definition MVCCKey_Len (k : MVCCKey) : nat := encodedMVCCKeyLength k.
Definition EncodedMVCCKeyPrefixLength (key : bytes) : nat := (length key + mvccEncodedTimeSentinelLen)%nat.

Definition encodedMVCCTimestampLength (ts : Timestamp) : nat :=
  let tsLen := (encodedMVCCKeyLength (MkMVCCKey [] ts) - mvccEncodedTimeSentinelLen)%nat in
  if (0 <? tsLen)%nat then (tsLen - mvccEncodedTimeLengthLen)%nat else tsLen.
Definition EncodedMVCCTimestampSuffixLength (ts : Timestamp) : nat :=
  (encodedMVCCKeyLength (MkMVCCKey [] ts) - mvccEncodedTimeSentinelLen)%nat.

(** The buffer after the write. *)
Definition encodeMVCCTimestampToBuf (buf : bytes) (ts : Timestamp) : res bytes :=
  buf ← put_at buf 0 (be 8 (u64 (WallTime ts)));
  if negb (Logical ts =? 0) || Synthetic ts then
    buf ← put_at buf mvccEncodedTimeWallLen (be 4 (u32 (Logical ts)));
    if Synthetic ts then put_at buf (mvccEncodedTimeWallLen + mvccEncodedTimeLogicalLen) [1] else Ok buf
  else Ok buf.

Definition encodeMVCCKeyToBuf (buf : bytes) (key : MVCCKey) (keyLen : nat) : res bytes :=
  let buf := copy_at buf 0 (k_Key key) in
  let pos := length (k_Key key) in
  buf ← put_at buf pos [0];
  let pos := (pos + mvccEncodedTimeSentinelLen)%nat in
  let tsLen := Z.of_nat keyLen - Z.of_nat pos - Z.of_nat mvccEncodedTimeLengthLen in
  if 0 <? tsLen then
    tail ← encodeMVCCTimestampToBuf (drop pos buf) (k_Timestamp key);
    let buf := take pos buf ++ tail in
    let pos := (pos + Z.to_nat tsLen)%nat in
    put_at buf pos [u8 (tsLen + Z.of_nat mvccEncodedTimeLengthLen)]
  else Ok buf.

Definition EncodeMVCCKey (key : MVCCKey) : res bytes :=
  let keyLen := encodedMVCCKeyLength key in
  encodeMVCCKeyToBuf (make_bytes keyLen) key keyLen.

(** [buf] here and below is what the capacity of the given buffer holds. *)
Definition EncodeMVCCKeyToBuf (buf : bytes) (key : MVCCKey) : res bytes :=
  let keyLen := encodedMVCCKeyLength key in
  encodeMVCCKeyToBuf (reuse buf keyLen) key keyLen.

Definition EncodeMVCCKeyPrefix (key : bytes) : res bytes := EncodeMVCCKey (MkMVCCKey key EmptyTimestamp).

Definition encodeMVCCTimestamp (ts : Timestamp) : res bytes :=
  let tsLen := encodedMVCCTimestampLength ts in
  if (tsLen =? 0)%nat then Ok [] else encodeMVCCTimestampToBuf (make_bytes tsLen) ts.

Definition encodeMVCCTimestampSuffixToBuf (buf : bytes) (ts : Timestamp) : res bytes :=
  let tsLen := encodedMVCCTimestampLength ts in
  if (tsLen =? 0)%nat then Ok []
  else
    let suffixLen := (tsLen + mvccEncodedTimeLengthLen)%nat in
    buf ← encodeMVCCTimestampToBuf (reuse buf suffixLen) ts;
    put_at buf tsLen [u8 (Z.of_nat suffixLen)].
Definition EncodeMVCCTimestampSuffix (ts : Timestamp) : res bytes := encodeMVCCTimestampSuffixToBuf [] ts.

Definition EncodeMVCCTimestampToBuf (buf : bytes) (ts : Timestamp) : res bytes :=
  let tsLen := encodedMVCCTimestampLength ts in
  if (tsLen =? 0)%nat then Ok [] else encodeMVCCTimestampToBuf (reuse buf tsLen) ts.

(** ** Decoding *)

(** The last byte of a non-empty key. *)
Definition last_byte (b : bytes) : Z := nth (length b - 1) b 0.

Definition SplitMVCCKey (mvccKey : bytes) : option (bytes * bytes) :=
  if (length mvccKey =? 0)%nat then None
  else
    let n := Z.of_nat (length mvccKey) in
    let tsLen := last_byte mvccKey in
    let keyPartEnd := n - 1 - tsLen in
    if keyPartEnd <? 0 then None
    else
      Some (slice mvccKey 0 keyPartEnd,
            if 0 <? tsLen then slice mvccKey (keyPartEnd + 1) (n - 1) else []).

Definition decodeMVCCTimestamp (encodedTS : bytes) : res Timestamp :=
  let wall := s64 (be_uint (slice encodedTS 0 8)) in
  let logical := s32 (be_uint (slice encodedTS 8 12)) in
  match length encodedTS with
  | 0%nat => Ok EmptyTimestamp
  | 8%nat => Ok (MkTimestamp wall 0 false)
  | 12%nat => Ok (MkTimestamp wall logical false)
  | 13%nat => Ok (MkTimestamp wall logical (negb (nth 12 encodedTS 0 =? 0)))
  | _ => Err "bad timestamp"
  end.

(** [enginepb.DecodeKey] repeats the cases of [decodeMVCCTimestamp]. *)
Definition DecodeKey (encodedKey : bytes) : res (bytes * Timestamp) :=
  match SplitMVCCKey encodedKey with
  | None => Err "invalid encoded mvcc key"
  | Some (key, encodedTS) =>
      match decodeMVCCTimestamp encodedTS with
      | Ok ts => Ok (key, ts)
      | _ => Err "invalid encoded mvcc key: bad timestamp"
      end
  end.

Definition DecodeMVCCKey (encodedKey : bytes) : res MVCCKey :=
  '(k, ts) ← DecodeKey encodedKey; Ok (MkMVCCKey k ts).

Definition DecodeMVCCTimestampSuffix (encodedTS : bytes) : res Timestamp :=
  if (length encodedTS =? 0)%nat then Ok EmptyTimestamp
  else if negb (last_byte encodedTS =? Z.of_nat (length encodedTS)) then Err "bad timestamp: length suffix"
  else decodeMVCCTimestamp (slice encodedTS 0 (Z.of_nat (length encodedTS) - 1)).

(** * Engine keys *)

Record EngineKey := MkEngineKey { e_Key : bytes; e_Version : bytes }.

Definition EngineKey_EncodedLen (k : EngineKey) : nat :=
  let versionLen := length (e_Version k) in
  (length (e_Key k) + 1 + if (0 <? versionLen)%nat then 1 + versionLen else 0)%nat.

Definition encodeToSizedBuf (k : EngineKey) (buf : bytes) : res bytes :=
  let buf := copy_at buf 0 (e_Key k) in
  let pos := length (e_Key k) in
  let suffixLen := Z.of_nat (length buf) - Z.of_nat pos - 1 in
  buf ← (if 0 <? suffixLen then
           buf ← put_at buf pos [0];
           Ok (copy_at buf (pos + 1) (e_Version k))
         else Ok buf);
  put_at buf (length buf - 1) [u8 suffixLen].

Definition EngineKey_Encode (k : EngineKey) : res bytes :=
  encodeToSizedBuf k (make_bytes (EngineKey_EncodedLen k)).
Definition EngineKey_EncodeToBuf (k : EngineKey) (buf : bytes) : res bytes :=
  encodeToSizedBuf k (reuse buf (EngineKey_EncodedLen k)).

Definition EngineKey_IsMVCCKey (k : EngineKey) : bool :=
  let l := length (e_Version k) in
  ((l =? 0) || (l =? 8) || (l =? 12) || (l =? 13))%nat.
Definition EngineKey_IsLockTableKey (k : EngineKey) : bool := (length (e_Version k) =? 17)%nat.

Definition EngineKey_ToMVCCKey (k : EngineKey) : res MVCCKey :=
  match decodeMVCCTimestamp (e_Version k) with
  | Ok ts => Ok (MkMVCCKey (e_Key k) ts)
  | _ => Err "version is not an encoded timestamp"
  end.

Definition DecodeEngineKey (b : bytes) : option EngineKey :=
  if (length b =? 0)%nat then None
  else
    let n := Z.of_nat (length b) in
    let versionLen := last_byte b in
    let keyPartEnd := n - 1 - versionLen in
    if keyPartEnd <? 0 then None
    else
      Some (MkEngineKey (slice b 0 keyPartEnd)
              (if 0 <? versionLen then slice b (keyPartEnd + 1) (n - 1) else [])).

Definition GetKeyPartFromEngineKey (engineKey : bytes) : option bytes :=
  if (length engineKey =? 0)%nat then None
  else
    let keyPartEnd := Z.of_nat (length engineKey) - 1 - last_byte engineKey in
    if keyPartEnd <? 0 then None else Some (slice engineKey 0 keyPartEnd).

(** * The comparer *)

Abbreviation withWall := (mvccEncodedTimeSentinelLen + mvccEncodedTimeWallLen)%nat.
Abbreviation withLogical := (withWall + mvccEncodedTimeLogicalLen)%nat.
Abbreviation withSynthetic := (withLogical + mvccEncodedTimeSyntheticLen)%nat.
Abbreviation withLockTableLen := (mvccEncodedTimeSentinelLen + 17)%nat.

Definition normalizeEngineKeyVersionForCompare (a : bytes) : bytes :=
  let a := if (length a =? withSynthetic)%nat then take withLogical a else a in
  if (length a =? withLogical)%nat then
    if beqb (drop withWall a) [0; 0; 0; 0] then take withWall a else a
  else a.

Definition EngineKeyCompare (a b : bytes) : comparison :=
  let aEnd := Z.of_nat (length a) - 1 in
  let bEnd := Z.of_nat (length b) - 1 in
  if (aEnd <? 0) || (bEnd <? 0) then bytes_compare a b
  else
    let aSep := aEnd - last_byte a in
    let bSep := bEnd - last_byte b in
    let '(aSep, bSep) := if (aSep =? -1) && (bSep =? -1) then (0, 0) else (aSep, bSep) in
    if (aSep <? 0) || (bSep <? 0) then bytes_compare a b
    else
      match bytes_compare (slice a 0 aSep) (slice b 0 bSep) with
      | Eq =>
          let aVer := slice a aSep aEnd in
          let bVer := slice b bSep bEnd in
          match aVer, bVer with
          | [], [] => Eq
          | [], _ :: _ => Lt
          | _ :: _, [] => Gt
          | _ :: _, _ :: _ =>
              bytes_compare (normalizeEngineKeyVersionForCompare bVer)
                (normalizeEngineKeyVersionForCompare aVer)
          end
      | c => c
      end.

Definition EngineKeyEqual (a b : bytes) : bool :=
  let aEnd := Z.of_nat (length a) - 1 in
  let bEnd := Z.of_nat (length b) - 1 in
  if (aEnd <? 0) || (bEnd <? 0) then beqb a b
  else
    let aVerLen := last_byte a in
    let bVerLen := last_byte b in
    if ((aVerLen <=? Z.of_nat withWall) && (bVerLen <=? Z.of_nat withWall))
       || ((aVerLen =? Z.of_nat withLockTableLen) && (bVerLen =? Z.of_nat withLockTableLen))
    then beqb a b
    else
      let aSep := aEnd - aVerLen in
      let bSep := bEnd - bVerLen in
      let '(aSep, bSep) := if (aSep =? -1) && (bSep =? -1) then (0, 0) else (aSep, bSep) in
      if (aSep <? 0) || (bSep <? 0) then beqb a b
      else if negb (beqb (slice a 0 aSep) (slice b 0 bSep)) then false
      else
        beqb (normalizeEngineKeyVersionForCompare (slice a aSep aEnd))
          (normalizeEngineKeyVersionForCompare (slice b bSep bEnd)).

(** What Pebble's default comparer promises. *)
Class PebbleLib := {
  DefaultAbbreviatedKey : bytes -> Z;
  DefaultSeparator : bytes -> bytes -> bytes -> bytes;
  DefaultSuccessor : bytes -> bytes -> bytes;
  AbbreviatedKey_mono a b : ble a b -> DefaultAbbreviatedKey a <= DefaultAbbreviatedKey b;
  Separator_spec dst a b : blt a b -> exists s, DefaultSeparator dst a b = dst ++ s /\ ble a s /\ blt s b;
  Successor_spec dst a : exists s, DefaultSuccessor dst a = dst ++ s /\ ble a s
}.

Section Comparer.
Context `{PebbleLib}.

Definition Comparer_AbbreviatedKey (k : bytes) : Z :=
  match GetKeyPartFromEngineKey k with
  | None => 0
  | Some key => DefaultAbbreviatedKey key
  end.

Definition Comparer_Separator (dst a b : bytes) : bytes :=
  match GetKeyPartFromEngineKey a with
  | None => dst ++ a
  | Some aKey =>
      match GetKeyPartFromEngineKey b with
      | None => dst ++ a
      | Some bKey =>
          if beqb aKey bKey then dst ++ a
          else
            let n := length dst in
            let dst := DefaultSeparator dst aKey bKey in
            let buf := drop n dst in
            if beqb aKey buf then take n dst ++ a else dst ++ [0]
      end
  end.

Definition Comparer_Successor (dst a : bytes) : bytes :=
  match GetKeyPartFromEngineKey a with
  | None => dst ++ a
  | Some aKey =>
      let n := length dst in
      let dst := DefaultSuccessor dst aKey in
      let buf := drop n dst in
      if beqb aKey buf then take n dst ++ a else dst ++ [0]
  end.

Definition Comparer_ImmediateSuccessor (dst a : bytes) : bytes := (dst ++ a) ++ [0].

Definition Comparer_Split (k : bytes) : Z :=
  let keyLen := Z.of_nat (length k) in
  if keyLen =? 0 then 0
  else
    let keyPartEnd := keyLen - 1 - last_byte k in
    if keyPartEnd <? 0 then keyLen else keyPartEnd + 1.
End Comparer.

(** * Encoded keys *)

(** The parts of an encoding: the timestamp, and the timestamp with its length. *)
Definition ts_body (ts : Timestamp) : bytes :=
  be 8 (u64 (WallTime ts)) ++
  if negb (Logical ts =? 0) || Synthetic ts
  then be 4 (u32 (Logical ts)) ++ (if Synthetic ts then [1] else []) else [].
Definition ts_suffix (ts : Timestamp) : bytes :=
  if Timestamp_IsEmpty ts then [] else ts_body ts ++ [Z.of_nat (length (ts_body ts)) + 1].
Definition mvcc_bytes (k : MVCCKey) : bytes := k_Key k ++ [0] ++ ts_suffix (k_Timestamp k).

Lemma ts_body_length ts :
  length (ts_body ts) =
  (8 + if negb (Logical ts =? 0)%Z || Synthetic ts then 4 + (if Synthetic ts then 1 else 0) else 0)%nat.
Proof.
  unfold ts_body. rewrite length_app, be_length. destruct (negb (Logical ts =? 0) || Synthetic ts); [|done].
  rewrite length_app, be_length. by destruct (Synthetic ts).
Qed.

Lemma ts_body_bound ts : (8 <= length (ts_body ts) <= 13)%nat.
Proof. rewrite ts_body_length. destruct (_ || _), (Synthetic ts); lia. Qed.

Lemma encodeTs_body buf rest ts :
  length buf = length (ts_body ts) ->
  encodeMVCCTimestampToBuf (buf ++ rest) ts = Ok (ts_body ts ++ rest).
Proof.
  rewrite ts_body_length. intros L. unfold encodeMVCCTimestampToBuf, ts_body.
  destruct (split_at buf 8) as (b8 & tl & -> & E8); [lia|]. rewrite length_app in L. rewrite <- app_assoc.
  rewrite put_at_0 by (by rewrite be_length). cbn [mbind res_bind app].
  destruct (negb (Logical ts =? 0) || Synthetic ts).
  2: { destruct tl; [by rewrite app_nil_r|cbn in L; lia]. }
  destruct (split_at tl 4) as (b4 & t1 & -> & E4); [lia|]. rewrite length_app in L. rewrite <- app_assoc.
  replace mvccEncodedTimeWallLen with (length (be 8 (u64 (WallTime ts)))) at 1 by apply be_length.
  rewrite put_at_app by (by rewrite be_length). cbn [mbind res_bind].
  destruct (Synthetic ts).
  - rewrite app_assoc.
    replace (8 + 4)%nat with (length (be 8 (u64 (WallTime ts)) ++ be 4 (u32 (Logical ts))))
      by (by rewrite length_app, !be_length).
    rewrite put_at_app by (cbn; lia). by rewrite <- !app_assoc.
  - destruct t1; [|cbn in L; lia]. by rewrite app_nil_r, <- !app_assoc.
Qed.

Lemma encodedMVCCKeyLength_eq k : encodedMVCCKeyLength k = length (mvcc_bytes k).
Proof.
  unfold encodedMVCCKeyLength, mvcc_bytes, ts_suffix. rewrite !length_app.
  destruct (Timestamp_IsEmpty (k_Timestamp k)); [done|]. rewrite length_app, ts_body_length. cbn [length].
  destruct (negb (Logical (k_Timestamp k) =? 0) || Synthetic (k_Timestamp k)), (Synthetic (k_Timestamp k)); lia.
Qed.

Lemma copy_at_0 buf src (tl : bytes) : (length buf = length src + length tl)%nat -> copy_at buf 0 src = src ++ drop (length src) buf.
Proof. intros L. unfold copy_at. rewrite take_0, (take_ge src) by lia. done. Qed.

Lemma u8_length ts : u8 (Z.of_nat (length (ts_body ts)) + 1) = Z.of_nat (length (ts_body ts)) + 1.
Proof. apply wrapU_id. pose proof (ts_body_bound ts). unfold isU. lia. Qed.

(** The encoder lays the key out, whatever the buffer held. *)
Lemma encodeToBuf_eq buf k :
  length buf = encodedMVCCKeyLength k -> encodeMVCCKeyToBuf buf k (encodedMVCCKeyLength k) = Ok (mvcc_bytes k).
Proof.
  rewrite encodedMVCCKeyLength_eq. intros L. unfold encodeMVCCKeyToBuf, mvcc_bytes in *.
  rewrite (copy_at_0 _ _ ([0] ++ ts_suffix (k_Timestamp k))) by (by rewrite L, length_app).
  pose proof (length_drop buf (length (k_Key k))) as L'. rewrite L, length_app in L'.
  destruct (drop (length (k_Key k)) buf) as [|x tl]; [cbn in L'; lia|].
  pose proof (put_at_app (k_Key k) [x] tl [0] eq_refl) as P. cbn [app] in P. rewrite P. cbn [mbind res_bind].
  rewrite !length_app in *. cbn [length] in *. unfold ts_suffix in *.
  destruct (Timestamp_IsEmpty (k_Timestamp k)).
  - cbn [length] in *. destruct (Z.ltb_spec 0 (Z.of_nat (length (k_Key k) + (1 + 0)) - Z.of_nat (length (k_Key k) + 1) - Z.of_nat 1)); [lia|].
    destruct tl; [done|cbn in L'; lia].
  - rewrite length_app in *. cbn [length] in *. set (n := length (ts_body (k_Timestamp k))) in *.
    pose proof (ts_body_bound (k_Timestamp k)) as B. fold n in B.
    destruct (Z.ltb_spec 0 (Z.of_nat (length (k_Key k) + (1 + (n + 1))) - Z.of_nat (length (k_Key k) + 1) - Z.of_nat 1)); [|lia].
    replace (k_Key k ++ 0 :: tl) with ((k_Key k ++ [0]) ++ tl) by (by rewrite <- app_assoc).
    replace (length (k_Key k) + 1)%nat with (length (k_Key k ++ [0])) by (rewrite length_app; done).
    rewrite drop_app_length, take_app_length.
    destruct (split_at tl n) as (b & t1 & -> & E); [lia|]. rewrite length_app in L'.
    rewrite encodeTs_body by done. cbn [mbind res_bind].
    destruct t1 as [|y [|? ?]]; [cbn [length] in L'; lia| |cbn [length] in L'; lia].
    rewrite app_assoc.
    replace (_ + Z.to_nat _)%nat with (length ((k_Key k ++ [0]) ++ ts_body (k_Timestamp k)))
      by (rewrite !length_app; cbn [length]; fold n; lia).
    rewrite (put_at_app _ [y] []) by done. rewrite app_nil_r, <- !app_assoc. cbn [app]. repeat f_equal.
    rewrite length_app. cbn [length]. transitivity (u8 (Z.of_nat n + 1)); [f_equal; lia|apply u8_length].
Qed.

Lemma EncodeMVCCKey_eq k : EncodeMVCCKey k = Ok (mvcc_bytes k).
Proof. apply encodeToBuf_eq, length_replicate. Qed.

Lemma EncodeMVCCKeyToBuf_eq buf k : EncodeMVCCKeyToBuf buf k = Ok (mvcc_bytes k).
Proof. apply encodeToBuf_eq, reuse_length. Qed.

(** ** Engine keys: a key, a version part and its length

    The version part is empty, or the sentinel and the version. *)
Definition ver_part (ver : bytes) : bytes := match ver with [] => [] | _ => 0 :: ver end.
Definition engine_bytes (key w : bytes) : bytes := key ++ w ++ [Z.of_nat (length w)].

Definition ts_version (ts : Timestamp) : bytes := if Timestamp_IsEmpty ts then [] else ts_body ts.

Lemma ver_part_ts ts : ver_part (ts_version ts) = if Timestamp_IsEmpty ts then [] else 0 :: ts_body ts.
Proof.
  unfold ts_version. destruct (Timestamp_IsEmpty ts); [done|]. pose proof (ts_body_bound ts).
  destruct (ts_body ts); [cbn in *; lia|done].
Qed.

Lemma mvcc_engine_bytes k : mvcc_bytes k = engine_bytes (k_Key k) (ver_part (ts_version (k_Timestamp k))).
Proof.
  unfold mvcc_bytes, engine_bytes, ts_suffix. rewrite ver_part_ts.
  destruct (Timestamp_IsEmpty (k_Timestamp k)); [done|]. cbn [app length]. repeat f_equal. lia.
Qed.

Lemma last_byte_app a x : last_byte (a ++ [x]) = x.
Proof. unfold last_byte. rewrite length_app. cbn [length]. rewrite Nat.add_sub. apply nth_middle. Qed.

Lemma engine_parts key w :
  let b := engine_bytes key w in
  let n := Z.of_nat (length b) in
  n = Z.of_nat (length key) + Z.of_nat (length w) + 1 /\ last_byte b = Z.of_nat (length w) /\
  slice b 0 (Z.of_nat (length key)) = key /\ slice b (Z.of_nat (length key)) (n - 1) = w.
Proof.
  cbn zeta. assert (Z.of_nat (length (engine_bytes key w)) = Z.of_nat (length key) + Z.of_nat (length w) + 1) as E.
  { unfold engine_bytes. rewrite !length_app. cbn [length]. lia. }
  split_and!; [done| | |].
  - unfold engine_bytes. rewrite app_assoc. apply last_byte_app.
  - by apply slice_0.
  - rewrite E. apply slice_app; lia.
Qed.

(** The order of version parts: none first, then the later ones. *)
Definition ver_cmp (w w' : bytes) : comparison :=
  match w, w' with
  | [], [] => Eq
  | [], _ :: _ => Lt
  | _ :: _, [] => Gt
  | _ :: _, _ :: _ =>
      bytes_compare (normalizeEngineKeyVersionForCompare w') (normalizeEngineKeyVersionForCompare w)
  end.

Lemma EngineKeyCompare_engine k w k' w' :
  EngineKeyCompare (engine_bytes k w) (engine_bytes k' w') = lexc (bytes_compare k k') (ver_cmp w w').
Proof.
  unfold EngineKeyCompare.
  destruct (engine_parts k w) as (Ea & La & Ka & Va), (engine_parts k' w') as (Eb & Lb & Kb & Vb).
  rewrite Ea, Eb in *. rewrite La, Lb.
  destruct (Z.ltb_spec (Z.of_nat (length k) + Z.of_nat (length w) + 1 - 1) 0); [lia|].
  destruct (Z.ltb_spec (Z.of_nat (length k') + Z.of_nat (length w') + 1 - 1) 0); [lia|]. cbn [orb].
  replace (Z.of_nat (length k) + Z.of_nat (length w) + 1 - 1 - Z.of_nat (length w)) with (Z.of_nat (length k)) by lia.
  replace (Z.of_nat (length k') + Z.of_nat (length w') + 1 - 1 - Z.of_nat (length w')) with (Z.of_nat (length k')) by lia.
  destruct (Z.eqb_spec (Z.of_nat (length k)) (-1)); [lia|]. cbn [andb].
  destruct (Z.ltb_spec (Z.of_nat (length k)) 0); [lia|]. destruct (Z.ltb_spec (Z.of_nat (length k')) 0); [lia|].
  cbn [orb]. rewrite Ka, Kb, Va, Vb. by destruct (bytes_compare k k').
Qed.

(** ** Timestamps as versions *)

(** A timestamp of a stored version is not negative. *)
Definition ts_ok (ts : Timestamp) : Prop := ts_wf ts /\ 0 <= WallTime ts /\ 0 <= Logical ts.

(** The version without the synthetic bit. *)
Definition ts_norm (ts : Timestamp) : bytes :=
  be 8 (u64 (WallTime ts)) ++ if Logical ts =? 0 then [] else be 4 (u32 (Logical ts)).

Lemma be4_zero l : 0 <= l -> isS 32 l -> beqb (be 4 (u32 l)) [0; 0; 0; 0] = (l =? 0).
Proof.
  intros H0 H. unfold beqb. change [0; 0; 0; 0] with (be 4 0). rewrite be_compare.
  rewrite wrapU_id by (unfold isU, isS in *; lia).
  rewrite Z.mod_small by (unfold isS in *; cbn in *; lia). rewrite Z.mod_0_l by done.
  destruct (Z.compare_spec l 0), (Z.eqb_spec l 0); try lia; done.
Qed.

Lemma normalize_body ts : ts_ok ts -> normalizeEngineKeyVersionForCompare (0 :: ts_body ts) = 0 :: ts_norm ts.
Proof.
  intros ((_ & Hl) & _ & H0). pose proof (be4_zero _ H0 Hl) as Z4.
  unfold normalizeEngineKeyVersionForCompare. cbn [length]. rewrite ts_body_length. unfold ts_body, ts_norm.
  pose proof (be_length 8 (u64 (WallTime ts))) as L8. pose proof (be_length 4 (u32 (Logical ts))) as L4.
  set (b8 := be 8 _) in *. set (b4 := be 4 _) in *.
  assert (forall tl, drop 9 (0 :: b8 ++ tl) = tl) as D9.
  { intros tl. cbn [drop]. by rewrite drop_app_length'. }
  assert (forall tl, take 13 (0 :: b8 ++ b4 ++ tl) = 0 :: b8 ++ b4) as T13.
  { intros tl. cbn [take]. rewrite app_assoc, take_app_length'; [done|rewrite length_app; lia]. }
  destruct (Logical ts =? 0), (Synthetic ts); cbn [negb orb];
    cbn [Nat.add Nat.eqb]; rewrite ?T13; cbn [length]; rewrite ?app_nil_r, ?length_app, ?L8, ?L4; cbn [Nat.add Nat.eqb];
    rewrite ?D9, ?Z4; try done.
Qed.

Lemma ts_norm_compare t s : ts_ok t -> ts_ok s ->
  bytes_compare (0 :: ts_norm t) (0 :: ts_norm s) = (Timestamp_Compare t s ?= 0).
Proof.
  intros ((Wt & Lt) & Pt & Qt) ((Ws & Ls) & Ps & Qs). unfold ts_norm, isS in *.
  rewrite bytes_compare_cons, Z.compare_refl. cbn [lexc].
  rewrite bytes_compare_app_len by (by rewrite !be_length). rewrite be_compare.
  rewrite !(wrapU_id 64), !Z.mod_small by (unfold isU; cbn in *; lia).
  assert (bytes_compare (if Logical t =? 0 then [] else be 4 (u32 (Logical t)))
            (if Logical s =? 0 then [] else be 4 (u32 (Logical s))) = (Logical t ?= Logical s)) as ->.
  { destruct (Z.eqb_spec (Logical t) 0) as [->|], (Z.eqb_spec (Logical s) 0) as [->|]; try done.
    - cbn [be bytes_compare]. symmetry. apply Z.compare_lt_iff. lia.
    - cbn [be bytes_compare]. symmetry. apply Z.compare_gt_iff. lia.
    - rewrite be_compare, !(wrapU_id 32), !Z.mod_small by (unfold isU; cbn in *; lia). done. }
  unfold Timestamp_Compare.
  destruct (Z.compare_spec (WallTime t) (WallTime s)), (Z.compare_spec (Logical t) (Logical s));
    destruct (Z.ltb_spec (WallTime s) (WallTime t)), (Z.ltb_spec (WallTime t) (WallTime s)),
      (Z.ltb_spec (Logical s) (Logical t)), (Z.ltb_spec (Logical t) (Logical s)); try lia; done.
Qed.

Lemma Timestamp_Compare_values t s : let c := Timestamp_Compare t s in
  (- c ?= 0) = CompOpp (c ?= 0).
Proof. cbn zeta. unfold Timestamp_Compare. by repeat destruct (_ <? _). Qed.

Lemma engine_compare_mvcc k l : ts_ok (k_Timestamp k) -> ts_ok (k_Timestamp l) ->
  EngineKeyCompare (mvcc_bytes k) (mvcc_bytes l) = MVCCKey_Compare k l.
Proof.
  intros Hk Hl. rewrite !mvcc_engine_bytes, EngineKeyCompare_engine, !ver_part_ts.
  unfold MVCCKey_Compare, Key_Compare. destruct (bytes_compare (k_Key k) (k_Key l)); try done. cbn [lexc].
  destruct (Timestamp_IsEmpty (k_Timestamp k)) eqn:Ek, (Timestamp_IsEmpty (k_Timestamp l)) eqn:El; cbn [andb negb ver_cmp].
  - unfold Timestamp_IsEmpty in *. apply andb_prop in Ek as [[Wk Lk]%andb_prop _], El as [[Wl Ll]%andb_prop _].
    apply Z.eqb_eq in Wk, Lk, Wl, Ll. unfold Timestamp_Compare. rewrite Wk, Lk, Wl, Ll. done.
  - done.
  - done.
  - rewrite !normalize_body, ts_norm_compare, Timestamp_Compare_values by done.
    unfold Timestamp_Compare. ts_cases; try lia; done.
Qed.

Lemma MVCCKey_Less_Compare k l : MVCCKey_Less k l = true <-> MVCCKey_Compare k l = Lt.
Proof.
  unfold MVCCKey_Less, MVCCKey_Compare, MVCCKey_IsValue. destruct (Key_Compare _ _); try done.
  destruct (Timestamp_IsEmpty (k_Timestamp k)) eqn:Ek, (Timestamp_IsEmpty (k_Timestamp l)) eqn:El; cbn [andb negb].
  - unfold Timestamp_IsEmpty in *. apply andb_prop in Ek as [[Wk Lk]%andb_prop _], El as [[Wl Ll]%andb_prop _].
    apply Z.eqb_eq in Wk, Lk, Wl, Ll. unfold Timestamp_Compare. by rewrite Wk, Lk, Wl, Ll.
  - done.
  - done.
  - unfold Timestamp_Less, Timestamp_Compare. ts_cases; cbn; try lia; done.
Qed.

(** ** Decoding *)

Lemma SplitMVCCKey_engine key ver :
  SplitMVCCKey (engine_bytes key (ver_part ver)) = Some (key, ver).
Proof.
  unfold SplitMVCCKey. destruct (engine_parts key (ver_part ver)) as (E & L & K & V).
  destruct (Nat.eqb_spec (length (engine_bytes key (ver_part ver))) 0); [lia|]. rewrite L, E.
  replace (_ + 1 - 1 - _) with (Z.of_nat (length key)) by lia.
  destruct (Z.ltb_spec (Z.of_nat (length key)) 0); [lia|]. rewrite K. do 2 f_equal.
  destruct ver as [|x ver]; [done|]. cbn [ver_part length].
  destruct (Z.ltb_spec 0 (Z.of_nat (S (S (length ver))))); [|lia].
  unfold engine_bytes, ver_part. rewrite <- !app_comm_cons, cons_middle.
  rewrite (app_assoc key [0]), app_comm_cons. apply slice_app; rewrite length_app; cbn [length]; lia.
Qed.

Lemma s64_u64 w : isS 64 w -> s64 (u64 w) = w.
Proof. intros H. unfold wrapS, wrapU. rewrite Zplus_mod_idemp_l. by apply (wrapS_id 64). Qed.
Lemma s32_u32 w : isS 32 w -> s32 (u32 w) = w.
Proof. intros H. unfold wrapS, wrapU. rewrite Zplus_mod_idemp_l. by apply (wrapS_id 32). Qed.

Lemma be_uint_u64 w : be_uint (be 8 (u64 w)) = u64 w.
Proof. unfold be_uint. rewrite be_acc_u64 by lia. apply Zmod_mod. Qed.
Lemma be_uint_u32 w : be_uint (be 4 (u32 w)) = u32 w.
Proof. unfold be_uint. rewrite be_acc_u64 by lia. apply Zmod_mod. Qed.

Lemma decode_body ts : ts_wf ts -> decodeMVCCTimestamp (ts_body ts) = Ok ts.
Proof.
  intros [Hw Hl]. unfold decodeMVCCTimestamp. rewrite ts_body_length.
  assert (slice (ts_body ts) 0 8 = be 8 (u64 (WallTime ts))) as ->.
  { apply slice_0. by rewrite be_length. }
  rewrite be_uint_u64, s64_u64 by done.
  destruct ts as [w l syn]. cbn [WallTime Logical Synthetic] in *. unfold ts_body. cbn [WallTime Logical Synthetic].
  destruct (negb (l =? 0) || syn) eqn:E.
  - assert (forall tl, slice (be 8 (u64 w) ++ be 4 (u32 l) ++ tl) 8 12 = be 4 (u32 l)) as S12.
    { intros tl. apply slice_app; by rewrite ?be_length. }
    rewrite S12, be_uint_u32, s32_u32 by done. destruct syn; cbn [Nat.add]; [|done].
    rewrite app_assoc, app_nth2, length_app, !be_length; [done|rewrite length_app, !be_length; lia].
  - apply orb_false_elim in E as [E ->]. apply negb_false_iff, Z.eqb_eq in E as ->. done.
Qed.

Lemma decode_version ts : ts_wf ts -> decodeMVCCTimestamp (ts_version ts) = Ok ts.
Proof.
  intros H. unfold ts_version. destruct (Timestamp_IsEmpty ts) eqn:E; [|by apply decode_body].
  unfold Timestamp_IsEmpty in E. apply andb_prop in E as [[W L]%andb_prop S].
  apply Z.eqb_eq in W, L. apply negb_true_iff in S. destruct ts. cbn in *. by subst.
Qed.

Lemma DecodeMVCCKey_enc k : ts_wf (k_Timestamp k) -> DecodeMVCCKey (mvcc_bytes k) = Ok k.
Proof.
  intros H. unfold DecodeMVCCKey, DecodeKey. rewrite mvcc_engine_bytes, SplitMVCCKey_engine, decode_version by done.
  by destruct k.
Qed.

Lemma encodeSuffix_eq buf ts : encodeMVCCTimestampSuffixToBuf buf ts = Ok (ts_suffix ts).
Proof.
  unfold encodeMVCCTimestampSuffixToBuf, encodedMVCCTimestampLength, ts_suffix.
  rewrite encodedMVCCKeyLength_eq. unfold mvcc_bytes, ts_suffix. cbn [k_Key k_Timestamp app length].
  destruct (Timestamp_IsEmpty ts); [done|]. rewrite length_app. cbn [length].
  set (n := length (ts_body ts)). pose proof (ts_body_bound ts) as B. fold n in B.
  replace (S (n + 1) - 1)%nat with (n + 1)%nat by lia.
  destruct (Nat.ltb_spec 0 (n + 1)); [|lia]. rewrite Nat.add_sub.
  destruct (Nat.eqb_spec n 0); [lia|].
  destruct (split_at (reuse buf (n + 1)) n) as (b & t & E & L); [rewrite reuse_length; lia|].
  pose proof (reuse_length buf (n + 1)) as R. rewrite E, length_app in *.
  rewrite encodeTs_body by done. cbn [mbind res_bind]. destruct t as [|y [|]]; cbn [length] in R; try lia.
  pose proof (put_at_app (ts_body ts) [y] [] [u8 (Z.of_nat (n + 1))] eq_refl) as P. rewrite !app_nil_r in P.
  fold n in P. rewrite P. repeat f_equal. rewrite Nat2Z.inj_add. apply u8_length.
Qed.

Lemma DecodeSuffix_enc ts : ts_wf ts -> DecodeMVCCTimestampSuffix (ts_suffix ts) = Ok ts.
Proof.
  intros H. pose proof (decode_version ts H) as D. unfold ts_version, ts_suffix, DecodeMVCCTimestampSuffix in *.
  destruct (Timestamp_IsEmpty ts); [exact D|]. rewrite last_byte_app, length_app. cbn [length].
  destruct (Nat.eqb_spec (length (ts_body ts) + 1) 0); [lia|]. rewrite (proj2 (Z.eqb_eq _ _)) by lia. cbn [negb].
  rewrite slice_0; [done|lia].
Qed.

(** ** Equality *)

Lemma normalize_id w :
  length w <> withSynthetic -> length w <> withLogical -> normalizeEngineKeyVersionForCompare w = w.
Proof.
  intros H1 H2. unfold normalizeEngineKeyVersionForCompare.
  by rewrite (proj2 (Nat.eqb_neq _ _) H1), (proj2 (Nat.eqb_neq _ _) H2).
Qed.

Lemma normalize_nil w : normalizeEngineKeyVersionForCompare w = [] <-> w = [].
Proof.
  split; [|by intros ->]. unfold normalizeEngineKeyVersionForCompare.
  destruct w as [|x w]; [done|]. destruct (Nat.eqb_spec (length (x :: w)) withSynthetic).
  - cbn [take]. by repeat case_match.
  - destruct (Nat.eqb_spec (length (x :: w)) withLogical); [|done]. cbn [take]. by case_match.
Qed.

Lemma ver_cmp_Eq w w' :
  ver_cmp w w' = Eq <-> normalizeEngineKeyVersionForCompare w = normalizeEngineKeyVersionForCompare w'.
Proof.
  destruct w as [|x w], w' as [|y w']; cbn [ver_cmp]; try done.
  - split; [done|]. intros E. symmetry in E. by apply (proj1 (normalize_nil (y :: w'))) in E.
  - split; [done|]. intros E. by apply (proj1 (normalize_nil (x :: w))) in E.
  - split; [intros E; symmetry; by apply bytes_compare_eq|]. intros ->. apply bytes_compare_refl.
Qed.

Lemma beqb_true a b : beqb a b = true <-> a = b.
Proof. destruct (beqb_spec a b); naive_solver. Qed.

Lemma beqb_compare a b : beqb a b = true <-> bytes_compare a b = Eq.
Proof. unfold beqb. by destruct (bytes_compare a b). Qed.

Lemma engine_bytes_inj k w k' w' : engine_bytes k w = engine_bytes k' w' -> k = k' /\ w = w'.
Proof.
  intros E. destruct (engine_parts k w) as (N & L & K & V), (engine_parts k' w') as (N' & L' & K' & V').
  rewrite E in *. assert (length w = length w') by lia. assert (length k = length k') as Lk by lia.
  rewrite Lk in *. split; congruence.
Qed.

(** The part of a key before its length byte, when it is not corrupt. *)
Lemma engine_view a :
  bytes_ok a -> a <> [] -> last_byte a <= Z.of_nat (length a) - 1 -> exists k w, a = engine_bytes k w.
Proof.
  intros Ha Hn Hl. destruct (last_split a) as [|(l & x & ->)]; [done|]. rewrite last_byte_app, length_app in *.
  cbn [length] in Hl. apply bytes_ok_app in Ha as [_ Hx]. apply Forall_cons in Hx as [Hx _]. unfold byte_ok in Hx.
  destruct (split_at l (length l - Z.to_nat x)) as (k & w & -> & Ek); [lia|]. rewrite length_app in *.
  exists k, w. unfold engine_bytes. rewrite <- app_assoc. repeat f_equal. lia.
Qed.

Lemma suffix_view a :
  bytes_ok a -> a <> [] -> last_byte a = Z.of_nat (length a) ->
  exists w, a = w ++ [Z.of_nat (length w) + 1].
Proof.
  intros Ha Hn Hl. destruct (last_split a) as [|(l & x & ->)]; [done|]. rewrite last_byte_app, length_app in *.
  exists l. cbn [length] in Hl. repeat f_equal. lia.
Qed.

Lemma fast_path (n m : Z) (w w' : bytes) :
  ((n <=? Z.of_nat withWall) && (m <=? Z.of_nat withWall))
    || ((n =? Z.of_nat withLockTableLen) && (m =? Z.of_nat withLockTableLen)) = true ->
  n = Z.of_nat (length w) \/ n = Z.of_nat (length w) + 1 ->
  m = Z.of_nat (length w') \/ m = Z.of_nat (length w') + 1 ->
  normalizeEngineKeyVersionForCompare w = w /\ normalizeEngineKeyVersionForCompare w' = w'.
Proof.
  rewrite orb_true_iff, !andb_true_iff, !Z.leb_le, !Z.eqb_eq. intros. split; apply normalize_id; lia.
Qed.

Lemma EngineKeyEqual_engine k w k' w' :
  EngineKeyEqual (engine_bytes k w) (engine_bytes k' w') = true <->
  EngineKeyCompare (engine_bytes k w) (engine_bytes k' w') = Eq.
Proof.
  rewrite EngineKeyCompare_engine. unfold EngineKeyEqual.
  destruct (engine_parts k w) as (Ea & La & Ka & Va), (engine_parts k' w') as (Eb & Lb & Kb & Vb).
  rewrite Ea, Eb in *. rewrite La, Lb.
  destruct (Z.ltb_spec (Z.of_nat (length k) + Z.of_nat (length w) + 1 - 1) 0); [lia|].
  destruct (Z.ltb_spec (Z.of_nat (length k') + Z.of_nat (length w') + 1 - 1) 0); [lia|]. cbn [orb].
  assert (lexc (bytes_compare k k') (ver_cmp w w') = Eq <->
    k = k' /\ normalizeEngineKeyVersionForCompare w = normalizeEngineKeyVersionForCompare w') as ->.
  { rewrite <- ver_cmp_Eq. destruct (bytes_compare_spec k k') as [->|Hk|Hk]; cbn [lexc]; [naive_solver| |];
      (split; [done|]); intros [-> _]; by apply blt_irrefl in Hk. }
  destruct (((_ <=? _) && (_ <=? _)) || ((_ =? _) && (_ =? _))) eqn:F.
  - rewrite beqb_true. assert (normalizeEngineKeyVersionForCompare w = w /\ normalizeEngineKeyVersionForCompare w' = w') as [-> ->].
    { apply (fast_path _ _ w w' F); by left. }
    split; [apply engine_bytes_inj|]. by intros [-> ->].
  - replace (Z.of_nat (length k) + Z.of_nat (length w) + 1 - 1 - Z.of_nat (length w)) with (Z.of_nat (length k)) by lia.
    replace (Z.of_nat (length k') + Z.of_nat (length w') + 1 - 1 - Z.of_nat (length w')) with (Z.of_nat (length k')) by lia.
    destruct (Z.eqb_spec (Z.of_nat (length k)) (-1)); [lia|]. cbn [andb].
    destruct (Z.ltb_spec (Z.of_nat (length k)) 0); [lia|]. destruct (Z.ltb_spec (Z.of_nat (length k')) 0); [lia|].
    cbn [orb]. rewrite Ka, Kb, Va, Vb. destruct (beqb_spec k k'); cbn [negb]; [|naive_solver].
    rewrite beqb_true. naive_solver.
Qed.

(** *** Bare suffixes *)

Lemma suffix_parts w :
  let b := w ++ [Z.of_nat (length w) + 1] in
  Z.of_nat (length b) = Z.of_nat (length w) + 1 /\ last_byte b = Z.of_nat (length w) + 1 /\
  slice b 0 (Z.of_nat (length w)) = w.
Proof.
  cbn zeta. rewrite length_app. cbn [length]. split_and!; [lia|apply last_byte_app|by apply slice_0].
Qed.

Lemma slice_00 b : slice b 0 0 = [].
Proof. apply (slice_0 [] b 0 eq_refl). Qed.

Lemma EngineKeyCompare_suffix w w' :
  EngineKeyCompare (w ++ [Z.of_nat (length w) + 1]) (w' ++ [Z.of_nat (length w') + 1]) = ver_cmp w w'.
Proof.
  unfold EngineKeyCompare.
  destruct (suffix_parts w) as (Ea & La & Va), (suffix_parts w') as (Eb & Lb & Vb). rewrite Ea, Eb, La, Lb.
  destruct (Z.ltb_spec (Z.of_nat (length w) + 1 - 1) 0); [lia|].
  destruct (Z.ltb_spec (Z.of_nat (length w') + 1 - 1) 0); [lia|]. cbn [orb].
  rewrite !(proj2 (Z.eqb_eq _ (-1))) by lia. cbn [andb]. cbn [Z.ltb Z.compare orb].
  rewrite !slice_00. cbn [bytes_compare]. rewrite !Z.add_simpl_r, Va, Vb. done.
Qed.

Lemma EngineKeyEqual_suffix w w' :
  EngineKeyEqual (w ++ [Z.of_nat (length w) + 1]) (w' ++ [Z.of_nat (length w') + 1]) = true <-> ver_cmp w w' = Eq.
Proof.
  rewrite ver_cmp_Eq. unfold EngineKeyEqual.
  destruct (suffix_parts w) as (Ea & La & Va), (suffix_parts w') as (Eb & Lb & Vb). rewrite Ea, Eb, La, Lb.
  destruct (Z.ltb_spec (Z.of_nat (length w) + 1 - 1) 0); [lia|].
  destruct (Z.ltb_spec (Z.of_nat (length w') + 1 - 1) 0); [lia|]. cbn [orb].
  destruct (((_ <=? _) && (_ <=? _)) || ((_ =? _) && (_ =? _))) eqn:F.
  - rewrite beqb_true. assert (normalizeEngineKeyVersionForCompare w = w /\ normalizeEngineKeyVersionForCompare w' = w') as [-> ->].
    { apply (fast_path _ _ w w' F); by right. }
    split; [|by intros ->]. by intros [E _]%app_inj_tail.
  - rewrite !(proj2 (Z.eqb_eq _ (-1))) by lia. cbn [andb]. cbn [Z.ltb Z.compare orb].
    rewrite !slice_00. change (beqb [] []) with true. cbn [negb]. rewrite !Z.add_simpl_r, Va, Vb. apply beqb_true.
Qed.

(** *** Any two byte strings *)

Lemma EngineKey_corrupt a b :
  a = [] \/ b = [] \/
  (let sa := Z.of_nat (length a) - 1 - last_byte a in let sb := Z.of_nat (length b) - 1 - last_byte b in
   (sa < 0 \/ sb < 0) /\ ~ (sa = -1 /\ sb = -1)) ->
  EngineKeyCompare a b = bytes_compare a b /\ EngineKeyEqual a b = beqb a b.
Proof.
  intros H. unfold EngineKeyCompare, EngineKeyEqual.
  destruct (Z.ltb_spec (Z.of_nat (length a) - 1) 0); [done|]. destruct (Z.ltb_spec (Z.of_nat (length b) - 1) 0); [done|].
  cbn [orb]. destruct H as [->|[->|[H Hn]]]; [cbn in *; lia..|].
  assert ((Z.of_nat (length a) - 1 - last_byte a =? -1) && (Z.of_nat (length b) - 1 - last_byte b =? -1) = false) as ->.
  { apply not_true_iff_false. rewrite andb_true_iff, !Z.eqb_eq. done. }
  assert ((Z.of_nat (length a) - 1 - last_byte a <? 0) || (Z.of_nat (length b) - 1 - last_byte b <? 0) = true) as ->.
  { rewrite orb_true_iff, !Z.ltb_lt. done. }
  split; [done|]. by destruct (_ || _).
Qed.

(** The comparer's two halves agree.  For any two byte strings, corrupt ones and bare
    suffixes included, [EngineKeyEqual] says yes exactly when [EngineKeyCompare] says
    equal, although it skips the comparison of versions on its fast path. *)
Theorem EngineKeyEqual_Compare a b :
  bytes_ok a -> bytes_ok b -> (EngineKeyEqual a b = true <-> EngineKeyCompare a b = Eq).
Proof.
  intros Ha Hb.
  assert (forall a, bytes_ok a -> a = [] \/ (a <> [] /\ (last_byte a <= Z.of_nat (length a) - 1 \/
    last_byte a = Z.of_nat (length a) \/ Z.of_nat (length a) < last_byte a))) as V.
  { clear. intros a Ha. destruct a; [by left|right]. split; [done|]. lia. }
  destruct (V a Ha) as [Na|[Na Va]]; [destruct (EngineKey_corrupt a b (or_introl Na)) as [-> ->]; apply beqb_compare|].
  destruct (V b Hb) as [Nb|[Nb Vb]];
    [destruct (EngineKey_corrupt a b (or_intror (or_introl Nb))) as [-> ->]; apply beqb_compare|].
  destruct Va as [Va|[Va|Va]], Vb as [Vb|[Vb|Vb]];
    try (destruct (EngineKey_corrupt a b) as [-> ->]; [right; right; cbn zeta; split; lia|apply beqb_compare]).
  - destruct (engine_view a Ha Na Va) as (k & w & ->), (engine_view b Hb Nb Vb) as (k' & w' & ->).
    apply EngineKeyEqual_engine.
  - destruct (suffix_view a Ha Na Va) as (w & ->), (suffix_view b Hb Nb Vb) as (w' & ->).
    rewrite EngineKeyCompare_suffix. apply EngineKeyEqual_suffix.
Qed.

Lemma EngineKeyEqual_Compare_witness :
  let a := [1; 0; 0; 0; 0; 0; 0; 0; 0; 7; 0; 0; 0; 0; 13] in
  let b := [1; 0; 0; 0; 0; 0; 0; 0; 0; 7; 9] in
  EngineKeyEqual a b = true /\ EngineKeyCompare a b = Eq.
Proof.
  intros a b. assert (EngineKeyEqual a b = true) as E by by vm_compute. split; [done|].
  apply (EngineKeyEqual_Compare a b); [repeat constructor; lia..|done].
Defined.

(** ** Properties of encoded keys *)

(** C9: the storage order is the MVCC order.  Encoding a key and a non-negative timestamp
    succeeds, the result does not depend on what the reused buffer held, and its length is
    the one computed ahead; the engine's comparer orders two encodings as
    [MVCCKey.Compare] and [MVCCKey.Less] order the keys: by key, the metadata version
    first, then newer versions before older ones, whatever the synthetic bits say; and
    the encoding decodes to the key. *)
Theorem mvcc_key_order k l :
  ts_ok (k_Timestamp k) -> ts_ok (k_Timestamp l) ->
  exists a b, EncodeMVCCKey k = Ok a /\ EncodeMVCCKey l = Ok b /\
    (forall buf, EncodeMVCCKeyToBuf buf k = Ok a) /\ length a = MVCCKey_Len k /\
    EngineKeyCompare a b = MVCCKey_Compare k l /\
    (MVCCKey_Less k l = true <-> EngineKeyCompare a b = Lt) /\ DecodeMVCCKey a = Ok k.
Proof.
  intros Hk Hl. exists (mvcc_bytes k), (mvcc_bytes l).
  split_and!; auto using EncodeMVCCKey_eq, EncodeMVCCKeyToBuf_eq, engine_compare_mvcc.
  - symmetry. apply encodedMVCCKeyLength_eq.
  - rewrite engine_compare_mvcc by done. apply MVCCKey_Less_Compare.
  - apply DecodeMVCCKey_enc, Hk.
Qed.

Lemma mvcc_key_order_witness :
  exists a b, EncodeMVCCKey (MkMVCCKey [3; 7] (MkTimestamp 5 2 false)) = Ok a /\
    EncodeMVCCKey (MkMVCCKey [3; 7] (MkTimestamp 5 0 true)) = Ok b /\ EngineKeyCompare a b = Lt.
Proof.
  destruct (mvcc_key_order (MkMVCCKey [3; 7] (MkTimestamp 5 2 false)) (MkMVCCKey [3; 7] (MkTimestamp 5 0 true)))
    as (a & b & Ea & Eb & _ & _ & C & _).
  1,2: repeat split; cbn; lia.
  exists a, b. by rewrite C.
Defined.

Lemma mvcc_suffix_compare t s :
  EngineKeyCompare (ts_suffix t) (ts_suffix s) = ver_cmp (ts_version t) (ts_version s).
Proof.
  unfold ts_suffix, ts_version. pose proof (ts_body_bound t) as Bt. pose proof (ts_body_bound s) as Bs.
  destruct (Timestamp_IsEmpty t), (Timestamp_IsEmpty s); [done| | |apply EngineKeyCompare_suffix].
  - unfold EngineKeyCompare. cbn [length]. destruct (ts_body s); [cbn in *; lia|done].
  - destruct (ts_body t) as [|x b]; [cbn in *; lia|]. unfold EngineKeyCompare. cbn [length Z.of_nat].
    by rewrite orb_true_r.
Qed.

Lemma ver_cmp_sentinel a b : ver_cmp (ver_part a) (ver_part b) =
  match a, b with
  | [], [] => Eq | [], _ :: _ => Lt | _ :: _, [] => Gt
  | _ :: _, _ :: _ => bytes_compare (normalizeEngineKeyVersionForCompare (0 :: b)) (normalizeEngineKeyVersionForCompare (0 :: a))
  end.
Proof. by destruct a, b. Qed.

Lemma suffix_norm t : ts_ok t -> Synthetic t = false ->
  normalizeEngineKeyVersionForCompare (ts_body t) = ts_norm t.
Proof.
  intros H S. rewrite normalize_id.
  - unfold ts_body, ts_norm. rewrite S, orb_false_r, app_nil_r. by destruct (Logical t =? 0).
  - rewrite ts_body_length, S. destruct (_ || _); cbn; lia.
  - rewrite ts_body_length, S. destruct (_ || _); cbn; lia.
Qed.

(** Bare suffixes.  Pebble compares suffixes without their keys and relies on the
    order they have behind a common key.  They have it when no timestamp is synthetic;
    with a synthetic timestamp they do not: the comparer strips the synthetic bit and a
    zero logical part only at the lengths these have behind a sentinel byte, which a
    bare suffix lacks. *)
Theorem mvcc_suffix_order key t s :
  ts_ok t -> ts_ok s ->
  exists a b a' b', EncodeMVCCTimestampSuffix t = Ok a /\ EncodeMVCCTimestampSuffix s = Ok b /\
    EncodeMVCCKey (MkMVCCKey key t) = Ok a' /\ EncodeMVCCKey (MkMVCCKey key s) = Ok b' /\
    DecodeMVCCTimestampSuffix a = Ok t /\
    (Synthetic t = false -> Synthetic s = false -> EngineKeyCompare a b = EngineKeyCompare a' b') /\
    (t = MkTimestamp 5 0 true -> s = MkTimestamp 5 0 false ->
     EngineKeyCompare a' b' = Eq /\ EngineKeyCompare a b = Lt /\ EngineKeyEqual a b = false).
Proof.
  intros Ht Hs. exists (ts_suffix t), (ts_suffix s), (mvcc_bytes (MkMVCCKey key t)), (mvcc_bytes (MkMVCCKey key s)).
  split_and!; try apply encodeSuffix_eq; try apply EncodeMVCCKey_eq; [apply DecodeSuffix_enc, Ht| |].
  - intros St Ss. rewrite !mvcc_engine_bytes, EngineKeyCompare_engine, mvcc_suffix_compare, ver_cmp_sentinel.
    cbn [k_Key k_Timestamp]. rewrite bytes_compare_refl. cbn [lexc]. unfold ts_version.
    pose proof (ts_body_bound t). pose proof (ts_body_bound s).
    destruct (Timestamp_IsEmpty t), (Timestamp_IsEmpty s); try done.
    unfold ver_cmp. rewrite !normalize_body, !suffix_norm by done.
    rewrite bytes_compare_cons, Z.compare_refl. cbn [lexc]. destruct (ts_body t), (ts_body s); cbn in *; try lia; done.
  - intros -> ->. split; [|by vm_compute]. rewrite !mvcc_engine_bytes, EngineKeyCompare_engine.
    cbn [k_Key k_Timestamp]. rewrite bytes_compare_refl. by vm_compute.
Qed.

Lemma mvcc_suffix_order_witness :
  exists a b, EncodeMVCCTimestampSuffix (MkTimestamp 5 0 true) = Ok a /\
    EncodeMVCCTimestampSuffix (MkTimestamp 5 0 false) = Ok b /\ EngineKeyEqual a b = false.
Proof.
  destruct (mvcc_suffix_order [1] (MkTimestamp 5 0 true) (MkTimestamp 5 0 false))
    as (a & b & a' & b' & Ea & Eb & _ & _ & _ & _ & D).
  1,2: repeat split; cbn; lia.
  exists a, b. destruct D as (_ & _ & D); done.
Defined.

(** ** The next key *)

Lemma Timestamp_Prev_cases ts : ts_ok ts ->
  (Timestamp_Prev ts = Panic "cannot take the previous value to a zero timestamp" /\ WallTime ts = 0 /\ Logical ts = 0) \/
  exists p, Timestamp_Prev ts = Ok p /\ ts_ok p /\ lt_ts p ts /\ Synthetic p = Synthetic ts /\
    forall u, ts_ok u -> lt_ts p u -> le_ts ts u.
Proof.
  intros ((Hw & Hl) & Pw & Pl). unfold Timestamp_Prev, isS in *.
  destruct (Z.ltb_spec 0 (Logical ts)); [|destruct (Z.ltb_spec 0 (WallTime ts))]; [right..|left; split_and!; [done|lia..]].
  - eexists. split; [done|]. rewrite (wrapS_id 32) by (unfold isS; lia).
    split_and!; [repeat split; unfold isS; cbn; lia|ts|done|]. intros u _. ts.
  - eexists. split; [done|]. rewrite (wrapS_id 64) by (unfold isS; lia).
    split_and!; [repeat split; unfold isS; cbn; lia|ts|done|].
    intros u ((_ & Hu) & _ & Pu). unfold isS in Hu. ts.
Qed.

(** The order of versions of one key. *)
Definition version_cmp (t s : Timestamp) : comparison :=
  if Timestamp_IsEmpty t && negb (Timestamp_IsEmpty s) then Lt
  else if negb (Timestamp_IsEmpty t) && Timestamp_IsEmpty s then Gt
  else - Timestamp_Compare t s ?= 0.

Lemma MVCCKey_Compare_eq k o :
  MVCCKey_Compare k o = lexc (bytes_compare (k_Key k) (k_Key o)) (version_cmp (k_Timestamp k) (k_Timestamp o)).
Proof. unfold MVCCKey_Compare, Key_Compare. by destruct (bytes_compare _ _). Qed.

Lemma version_cmp_set t s : Timestamp_IsEmpty t = false -> Timestamp_IsEmpty s = false ->
  (version_cmp t s = Lt <-> lt_ts s t) /\ (version_cmp t s <> Gt <-> le_ts s t).
Proof.
  intros Et Es. unfold version_cmp. rewrite Et, Es. cbn [negb andb].
  unfold Timestamp_Compare, lt_ts, le_ts, Timestamp_Less, Timestamp_LessEq. ts_cases; cbn; split; split; try lia; done.
Qed.

Lemma IsEmpty_spec t : Timestamp_IsEmpty t = true <-> t = EmptyTimestamp.
Proof.
  unfold Timestamp_IsEmpty. rewrite !andb_true_iff, !Z.eqb_eq, negb_true_iff. destruct t as [w l s]. cbn.
  split; [by intros [[-> ->] ->]|]. by intros [= -> -> ->].
Qed.

Lemma le_lt_ts p u : ~ lt_ts p u -> le_ts u p.
Proof. ts. Qed.

Lemma above_zero p t : ts_ok p -> lt_ts p t -> lt_ts EmptyTimestamp t.
Proof.
  intros (_ & W & L) Lt. apply (le_lt_ts_trans _ p); [|done]. clear Lt.
  unfold le_ts, Timestamp_LessEq. cbn [WallTime Logical EmptyTimestamp].
  destruct (Z.ltb_spec 0 (WallTime p)); [done|]. by rewrite (proj2 (Z.eqb_eq 0 _)), (proj2 (Z.leb_le 0 _)) by lia.
Qed.

Lemma lt_le_ts_contra t s : lt_ts t s -> le_ts s t -> False.
Proof. ts. Qed.

Lemma version_next t p m : ts_ok m ->
  (forall u, ts_ok u -> lt_ts p u -> le_ts t u) ->
  Timestamp_IsEmpty t = false -> Timestamp_IsEmpty p = false -> version_cmp t m = Lt -> version_cmp p m <> Gt.
Proof.
  intros Hm Hp Et Ep C. destruct (Timestamp_IsEmpty m) eqn:Em.
  - unfold version_cmp in C. by rewrite Et, Em in C.
  - apply version_cmp_set in C; [|done..]. apply version_cmp_set; [done..|].
    apply le_lt_ts. intros L. exact (lt_le_ts_contra _ _ C (Hp m Hm L)).
Qed.

(** The next key.  [MVCCKey.Next] of a version gives a key right after it in the
    order of the engine: later, and no stored key is between the two (a stored version
    has a time above zero); a metadata key has no next key, the call panics. *)
Theorem MVCCKey_Next_successor k spare m :
  ts_ok (k_Timestamp k) -> ts_ok (k_Timestamp m) -> bytes_ok (k_Key m) ->
  (k_Timestamp m = EmptyTimestamp \/ lt_ts EmptyTimestamp (k_Timestamp m)) ->
  if Timestamp_Less EmptyTimestamp (k_Timestamp k) then
    exists n, MVCCKey_Next k spare = Ok n /\ MVCCKey_Compare k n = Lt /\
      (MVCCKey_Compare k m = Lt -> MVCCKey_Compare n m <> Gt)
  else MVCCKey_Next k spare = Panic "cannot take the previous value to a zero timestamp".
Proof.
  intros Hk Hm Bm Pm. unfold MVCCKey_Next.
  destruct (Timestamp_Prev_cases _ Hk) as [(-> & W & L)|(p & -> & Hp & Lp & Sp & Np)].
  { replace (Timestamp_Less _ _) with false; [done|]. unfold Timestamp_Less. by rewrite W, L. }
  rewrite (above_zero p _ Hp Lp : Timestamp_Less _ _ = true).
  assert (Timestamp_IsEmpty (k_Timestamp k) = false) as Ek.
  { apply not_true_iff_false. intros E%IsEmpty_spec. rewrite E in Lp. by apply above_zero, lt_ts_irrefl in Lp. }
  cbn [mbind res_bind]. destruct (Timestamp_IsEmpty p) eqn:Ep.
  - exists (MkMVCCKey (Key_Next (k_Key k) spare) EmptyTimestamp). split; [done|].
    unfold Key_Next. rewrite BytesNext_eq, !MVCCKey_Compare_eq. cbn [k_Key k_Timestamp]. split.
    { by rewrite (blt_next (k_Key k) : bytes_compare _ _ = Lt). }
    intros C. apply IsEmpty_spec in Ep as ->.
    destruct (bytes_compare_spec (k_Key k) (k_Key m)) as [E|B|B]; cbn [lexc] in C; [exfalso| |done].
    + destruct Pm as [Em|Pm]; [unfold version_cmp in C; by rewrite Ek, Em in C|].
      assert (Timestamp_IsEmpty (k_Timestamp m) = false) as Em.
      { apply not_true_iff_false. intros Em%IsEmpty_spec. rewrite Em in Pm. by apply lt_ts_irrefl in Pm. }
      apply version_cmp_set in C; [|done..]. exact (lt_le_ts_contra _ _ C (Np _ Hm Pm)).
    + apply next_least in B; [|done]. unfold ble in B.
      destruct (bytes_compare (k_Key k ++ [0]) (k_Key m)); try done. cbn [lexc]. unfold version_cmp.
      destruct Pm as [-> |Pm]; [done|]. by destruct (Timestamp_IsEmpty (k_Timestamp m)) eqn:Em;
        [apply IsEmpty_spec in Em as ->|].
  - exists (MkMVCCKey (k_Key k) p). split; [done|]. rewrite !MVCCKey_Compare_eq. cbn [k_Key k_Timestamp].
    rewrite bytes_compare_refl. cbn [lexc]. split; [by apply version_cmp_set|].
    destruct (bytes_compare (k_Key k) (k_Key m)); try done. cbn [lexc]. by apply (version_next (k_Timestamp k)).
Qed.

Lemma MVCCKey_Next_successor_witness :
  let k := MkMVCCKey [3] (MkTimestamp 0 1 false) in
  exists n, MVCCKey_Next k [9] = Ok n /\ MVCCKey_Compare k n = Lt.
Proof.
  intros k. destruct (MVCCKey_Next_successor k [9] k) as (n & E & C & _).
  1,2: repeat split; cbn; lia.
  - repeat constructor; lia.
  - by right.
  - by exists n.
Defined.

(** ** Engine keys *)

Lemma copy_at_app a b c src : length b = length src -> copy_at (a ++ b ++ c) (length a) src = a ++ src ++ c.
Proof.
  intros L. unfold copy_at. rewrite !length_app, take_app_length, (take_ge src) by lia.
  by rewrite drop_app_add, <- L, drop_app_length.
Qed.

Lemma encodeToSizedBuf_eq k buf :
  (length (e_Version k) <= 254)%nat -> length buf = EngineKey_EncodedLen k ->
  encodeToSizedBuf k buf = Ok (engine_bytes (e_Key k) (ver_part (e_Version k))).
Proof.
  destruct k as [key ver]. cbn [e_Key e_Version]. unfold EngineKey_EncodedLen, encodeToSizedBuf, engine_bytes.
  cbn [e_Key e_Version]. intros Lv L.
  destruct (split_at buf (length key)) as (b0 & tl & -> & E0); [lia|].
  assert (copy_at (b0 ++ tl) 0 key = key ++ tl) as ->.
  { pose proof (copy_at_app [] b0 tl key E0) as C. exact C. }
  rewrite !length_app in *. destruct ver as [|x ver].
  - cbn [length Nat.ltb Nat.leb] in *. destruct tl as [|y [|]]; cbn [length] in *; try lia.
    destruct (Z.ltb_spec 0 (Z.of_nat (length key + 1) - Z.of_nat (length key) - 1)); [lia|]. cbn [mbind res_bind].
    rewrite length_app. cbn [length]. rewrite Nat.add_sub.
    pose proof (put_at_app key [y] [] [u8 (Z.of_nat (length key + 1) - Z.of_nat (length key) - 1)] eq_refl) as P.
    rewrite !app_nil_r in P. rewrite P. cbn [ver_part app length]. do 3 f_equal.
    replace (Z.of_nat (length key + 1) - Z.of_nat (length key) - 1) with 0 by lia. done.
  - cbn [ver_part]. destruct (Nat.ltb_spec 0 (length (x :: ver))); [|cbn in *; lia].
    destruct tl as [|y tl]; [cbn [length] in *; lia|]. cbn [length] in L, Lv.
    destruct (split_at tl (length (x :: ver))) as (b1 & t2 & -> & E1); [cbn [length]; lia|].
    rewrite length_app in L. destruct t2 as [|z [|]]; cbn [length] in *; try lia.
    rewrite !length_app. cbn [length]. set (n := (length key + S (length b1 + 1))%nat).
    destruct (Z.ltb_spec 0 (Z.of_nat n - Z.of_nat (length key) - 1)); [|lia].
    pose proof (put_at_app key [y] (b1 ++ [z]) [0] eq_refl) as P. cbn [app] in P. rewrite P. cbn [mbind res_bind].
    pose proof (copy_at_app (key ++ [0]) b1 [z] (x :: ver) E1) as C.
    rewrite length_app in C. cbn [length] in C. rewrite <- !app_assoc in C. cbn [app] in C. rewrite C.
    cbn [mbind res_bind]. rewrite !length_app. cbn [length]. rewrite length_app. cbn [length].
    pose proof (put_at_app (key ++ 0 :: x :: ver) [z] [] [u8 (Z.of_nat n - Z.of_nat (length key) - 1)] eq_refl) as Q.
    rewrite !app_nil_r, <- !app_assoc in Q. cbn [app] in Q. rewrite !length_app in Q. cbn [length] in Q.
    replace (length key + S (S (length ver + 1)) - 1)%nat with (length key + S (S (length ver)))%nat by lia.
    rewrite Q. do 2 f_equal. cbn [app]. repeat f_equal. subst n. rewrite (wrapU_id 8) by (unfold isU; lia). lia.
Qed.

Lemma EngineKey_Encode_eq k : (length (e_Version k) <= 254)%nat ->
  EngineKey_Encode k = Ok (engine_bytes (e_Key k) (ver_part (e_Version k))).
Proof. intros H. apply encodeToSizedBuf_eq; [done|apply length_replicate]. Qed.

Lemma EngineKey_EncodeToBuf_eq k buf : (length (e_Version k) <= 254)%nat ->
  EngineKey_EncodeToBuf k buf = Ok (engine_bytes (e_Key k) (ver_part (e_Version k))).
Proof. intros H. apply encodeToSizedBuf_eq; [done|apply reuse_length]. Qed.

Lemma DecodeEngineKey_Split b :
  DecodeEngineKey b = match SplitMVCCKey b with Some (k, v) => Some (MkEngineKey k v) | None => None end.
Proof. unfold DecodeEngineKey, SplitMVCCKey. by repeat case_match; simplify_eq. Qed.

Lemma GetKeyPart_engine key w : GetKeyPartFromEngineKey (engine_bytes key w) = Some key.
Proof.
  unfold GetKeyPartFromEngineKey. destruct (engine_parts key w) as (E & L & K & V).
  destruct (Nat.eqb_spec (length (engine_bytes key w)) 0); [lia|]. rewrite L, E.
  replace (_ + 1 - 1 - _) with (Z.of_nat (length key)) by lia.
  destruct (Z.ltb_spec (Z.of_nat (length key)) 0); [lia|]. by rewrite K.
Qed.

Lemma ts_version_bound ts : (length (ts_version ts) <= 13)%nat.
Proof. unfold ts_version. pose proof (ts_body_bound ts). destruct (Timestamp_IsEmpty ts); cbn [length]; lia. Qed.

(** Engine keys.  Encoding a key with a version of at most 254 bytes succeeds whatever
    the reused buffer held and decodes to the parts; an MVCC key encodes to the same bytes
    as the engine key with its timestamp as version, and that engine key converts back to
    it. *)
Theorem engine_key_roundtrip k buf m :
  (length (e_Version k) <= 254)%nat -> ts_wf (k_Timestamp m) ->
  (exists a, EngineKey_Encode k = Ok a /\ EngineKey_EncodeToBuf k buf = Ok a /\
     length a = EngineKey_EncodedLen k /\
     DecodeEngineKey a = Some k /\ GetKeyPartFromEngineKey a = Some (e_Key k)) /\
  (exists v, encodeMVCCTimestamp (k_Timestamp m) = Ok v /\
     EngineKey_Encode (MkEngineKey (k_Key m) v) = EncodeMVCCKey m /\
     EngineKey_IsMVCCKey (MkEngineKey (k_Key m) v) = true /\
     EngineKey_ToMVCCKey (MkEngineKey (k_Key m) v) = Ok m).
Proof.
  intros Lv Hm. split.
  - exists (engine_bytes (e_Key k) (ver_part (e_Version k))).
    split_and!; [by apply EngineKey_Encode_eq|by apply EngineKey_EncodeToBuf_eq| | |apply GetKeyPart_engine].
    + unfold engine_bytes, EngineKey_EncodedLen. rewrite !length_app. destruct (e_Version k); cbn; lia.
    + rewrite DecodeEngineKey_Split, SplitMVCCKey_engine. by destruct k.
  - exists (ts_version (k_Timestamp m)). pose proof (ts_version_bound (k_Timestamp m)). split_and!.
    + unfold encodeMVCCTimestamp, encodedMVCCTimestampLength, ts_version. rewrite encodedMVCCKeyLength_eq.
      unfold mvcc_bytes, ts_suffix. cbn [k_Key k_Timestamp app length].
      destruct (Timestamp_IsEmpty (k_Timestamp m)); [done|]. rewrite length_app. cbn [length].
      set (n := length (ts_body (k_Timestamp m))). pose proof (ts_body_bound (k_Timestamp m)) as B. fold n in B.
      replace (S (n + 1) - 1)%nat with (n + 1)%nat by lia. destruct (Nat.ltb_spec 0 (n + 1)); [|lia].
      rewrite Nat.add_sub. destruct (Nat.eqb_spec n 0); [lia|].
      pose proof (encodeTs_body (make_bytes n) [] (k_Timestamp m)) as E. rewrite !app_nil_r in E.
      apply E, length_replicate.
    + rewrite EngineKey_Encode_eq, EncodeMVCCKey_eq by (cbn [e_Version]; lia). cbn [e_Key e_Version].
      by rewrite mvcc_engine_bytes.
    + unfold EngineKey_IsMVCCKey, ts_version. cbn [e_Version].
      destruct (Timestamp_IsEmpty (k_Timestamp m)); [done|]. rewrite ts_body_length.
      by destruct (negb (Logical (k_Timestamp m) =? 0)), (Synthetic (k_Timestamp m)).
    + unfold EngineKey_ToMVCCKey. cbn [e_Key e_Version]. rewrite decode_version by done. by destruct m.
Qed.

Lemma engine_key_roundtrip_witness :
  exists a, EngineKey_Encode (MkEngineKey [7] [1; 2]) = Ok a /\ DecodeEngineKey a = Some (MkEngineKey [7] [1; 2]).
Proof.
  destruct (engine_key_roundtrip (MkEngineKey [7] [1; 2]) [5] (MakeMVCCMetadataKey [1])) as [(a & E & _ & _ & D & _) _].
  - cbn. lia.
  - repeat split; cbn; lia.
  - by exists a.
Defined.

(** ** The contract of a Pebble comparer *)

Section Contract.
Context `{PebbleLib}.

Definition is_engine_key (a : bytes) : Prop := exists k v, bytes_ok k /\ a = engine_bytes k (ver_part v).

Definition Comparer_prefix (a : bytes) : bytes := take (Z.to_nat (Comparer_Split a)) a.

Lemma engine_nil key : engine_bytes key [] = key ++ [0].
Proof. done. Qed.

Lemma prefix_engine key v : Comparer_prefix (engine_bytes key (ver_part v)) = engine_bytes key [].
Proof.
  unfold Comparer_prefix, Comparer_Split. destruct (engine_parts key (ver_part v)) as (E & L & _ & _). rewrite E, L.
  destruct (Z.eqb_spec (Z.of_nat (length key) + Z.of_nat (length (ver_part v)) + 1) 0); [lia|].
  replace (_ + 1 - 1 - _) with (Z.of_nat (length key)) by lia.
  destruct (Z.ltb_spec (Z.of_nat (length key)) 0); [lia|].
  replace (Z.to_nat (Z.of_nat (length key) + 1)) with (length (key ++ [0])) by (rewrite length_app; cbn; lia).
  unfold engine_bytes. destruct v as [|x v]; cbn [ver_part app].
  - apply take_ge. done.
  - transitivity (take (length (key ++ [0])) ((key ++ [0]) ++ (x :: v) ++ [Z.of_nat (length (0 :: x :: v))]));
      [by rewrite <- app_assoc|apply take_app_length].
Qed.

Lemma compare_le_key k w s : ble k s -> k <> s -> EngineKeyCompare (engine_bytes k w) (engine_bytes s []) = Lt.
Proof.
  intros L N. rewrite EngineKeyCompare_engine. assert (blt k s) as B by border. unfold blt in B. by rewrite B.
Qed.

Lemma EngineKeyCompare_refl k w : EngineKeyCompare (engine_bytes k w) (engine_bytes k w) = Eq.
Proof.
  rewrite EngineKeyCompare_engine, bytes_compare_refl. cbn [lexc].
  by apply ver_cmp_Eq.
Qed.

Lemma compare_keys k w k' w' :
  EngineKeyCompare (engine_bytes k w) (engine_bytes k' w') = Lt -> ble k k'.
Proof. rewrite EngineKeyCompare_engine. unfold ble. by destruct (bytes_compare k k'). Qed.

(** C26: Pebble's requirements on the comparer.  For encoded engine keys: the prefix that
    [Split] cuts off is the encoding of the key without a version, keys compare first by
    prefix and a prefix comes before its versions; the separator of two ordered keys is
    at or after the first and before the second; the successor is not before its key; the
    immediate successor of a prefix is the next prefix; abbreviated keys respect the
    order. *)
Theorem comparer_contract a b dst :
  is_engine_key a -> is_engine_key b ->
  (EngineKeyCompare a b <> Gt -> EngineKeyCompare (Comparer_prefix a) (Comparer_prefix b) <> Gt) /\
  EngineKeyCompare (Comparer_prefix a) a <> Gt /\
  (EngineKeyCompare (Comparer_prefix a) (Comparer_prefix b) = Eq <-> Comparer_prefix a = Comparer_prefix b) /\
  (EngineKeyCompare a b = Lt -> exists s,
     Comparer_Separator dst a b = dst ++ s /\ EngineKeyCompare a s <> Gt /\ EngineKeyCompare s b = Lt) /\
  (exists s, Comparer_Successor dst a = dst ++ s /\ EngineKeyCompare a s <> Gt) /\
  (EngineKeyCompare (Comparer_prefix a) (Comparer_ImmediateSuccessor [] (Comparer_prefix a)) = Lt /\
   (EngineKeyCompare (Comparer_prefix a) (Comparer_prefix b) = Lt ->
    EngineKeyCompare (Comparer_ImmediateSuccessor [] (Comparer_prefix a)) (Comparer_prefix b) <> Gt)) /\
  (EngineKeyCompare a b = Lt -> Comparer_AbbreviatedKey a <= Comparer_AbbreviatedKey b).
Proof.
  intros (k & v & _ & ->) (l & u & Bl & ->). rewrite !prefix_engine. split_and!.
  - rewrite !EngineKeyCompare_engine. by destruct (bytes_compare k l).
  - rewrite EngineKeyCompare_engine, bytes_compare_refl. by destruct (ver_part v).
  - rewrite EngineKeyCompare_engine. cbn [ver_cmp]. rewrite lexc_Eq_r. split.
    + by intros ->%bytes_compare_eq.
    + intros [-> _]%engine_bytes_inj. apply bytes_compare_refl.
  - intros C. unfold Comparer_Separator. rewrite !GetKeyPart_engine. pose proof (compare_keys _ _ _ _ C) as B.
    destruct (beqb_spec k l) as [->|N].
    { eexists. split; [done|]. split; [by rewrite EngineKeyCompare_refl|done]. }
    destruct (Separator_spec dst k l) as (s & -> & L1 & L2); [border|]. rewrite drop_app_length, take_app_length.
    destruct (beqb_spec k s) as [->|Ns].
    { eexists. split; [done|]. split; [by rewrite EngineKeyCompare_refl|done]. }
    exists (engine_bytes s []). split; [by rewrite engine_nil, app_assoc|].
    split; [by rewrite compare_le_key|]. rewrite EngineKeyCompare_engine. unfold blt in L2. by rewrite L2.
  - unfold Comparer_Successor. rewrite GetKeyPart_engine. destruct (Successor_spec dst k) as (s & -> & L).
    rewrite drop_app_length, take_app_length. destruct (beqb_spec k s) as [->|Ns].
    { eexists. split; [done|]. by rewrite EngineKeyCompare_refl. }
    exists (engine_bytes s []). split; [by rewrite engine_nil, app_assoc|]. by rewrite compare_le_key.
  - unfold Comparer_ImmediateSuccessor. cbn [app].
    change (engine_bytes k [] ++ [0]) with ((k ++ [0]) ++ [0]). rewrite <- (engine_nil (k ++ [0])).
    rewrite EngineKeyCompare_engine. by rewrite (blt_next k : bytes_compare _ _ = Lt).
  - unfold Comparer_ImmediateSuccessor. cbn [app].
    change (engine_bytes k [] ++ [0]) with ((k ++ [0]) ++ [0]). rewrite <- (engine_nil (k ++ [0])).
    rewrite !EngineKeyCompare_engine. cbn [ver_cmp]. rewrite !lexc_Eq_r. intros B.
    by apply (next_least k l) in B.
  - intros C%compare_keys. unfold Comparer_AbbreviatedKey. rewrite !GetKeyPart_engine. by apply AbbreviatedKey_mono.
Qed.
End Contract.

(** A default comparer: separators and successors that keep the key. *)
Definition pebble_lib : PebbleLib.
Proof.
  refine {| DefaultAbbreviatedKey := fun _ => 0;
            DefaultSeparator := fun dst a _ => dst ++ a;
            DefaultSuccessor := fun dst a => dst ++ a |}.
  - done.
  - intros dst a b Hab. exists a. split; [done|]. split; [border|done].
  - intros dst a. exists a. split; [done|border].
Defined.

Lemma comparer_contract_witness :
  let a := mvcc_bytes (MkMVCCKey [1] (MkTimestamp 7 0 false)) in
  let b := mvcc_bytes (MkMVCCKey [4] (MkTimestamp 9 1 false)) in
  exists s, @Comparer_Separator pebble_lib [8] a b = [8] ++ s /\ EngineKeyCompare s b = Lt.
Proof.
  intros a b. destruct (@comparer_contract pebble_lib a b [8]) as (_ & _ & _ & S & _).
  - subst a. rewrite mvcc_engine_bytes. eexists _, _. split; [|reflexivity]. repeat constructor; lia.
  - subst b. rewrite mvcc_engine_bytes. eexists _, _. split; [|reflexivity]. repeat constructor; lia.
  - destruct S as (s & E & _ & C); [by vm_compute|]. by exists s.
Defined.
