(* ===== verification/RangeKeys.v ===== *)
(** MVCC range keys and stacks of their versions (src/pkg/storage/mvcc_key.go).

    A range key deletes the older versions of all keys in its span; overlapping range keys
    are kept as stacks of versions with the same bounds, newest first.  The file shows
    that the stack operations, which use linear and binary searches and edit the stack in
    place, keep the stack sorted and do what filtering it would do, and that a stack
    covers exactly the point keys one of its range keys deletes. *)
From S2P Require Import Prelude Bytes GoLib IntEnc Hlc KeyOps Spans MvccKey.

(** Equality of timestamps in every field (generated with the message type). *)
Definition Timestamp_Equal (t s : Timestamp) : bool :=
  (WallTime t =? WallTime s) && (Logical t =? Logical s) && Bool.eqb (Synthetic t) (Synthetic s).

Lemma Timestamp_Equal_spec t s : Timestamp_Equal t s = true <-> t = s.
Proof.
  unfold Timestamp_Equal. rewrite !andb_true_iff, !Z.eqb_eq, Bool.eqb_true_iff. destruct t, s. cbn. naive_solver.
Qed.

(** * Range keys *)

Record MVCCRangeKey := MkRangeKey { StartKey : bytes; REnd : bytes; r_Timestamp : Timestamp }.

Record MVCCRangeKeyVersion := MkVersion { v_Timestamp : Timestamp; v_Value : bytes }.
Abbreviation MVCCRangeKeyVersions := (list MVCCRangeKeyVersion).
Record MVCCRangeKeyStack := MkStack { Bounds : Span; Versions : MVCCRangeKeyVersions }.

Definition RangeKey_Bounds (k : MVCCRangeKey) : Span := MkSpan (StartKey k) (Some (REnd k)).
Definition RangeKey_AsStack (k : MVCCRangeKey) (valueRaw : bytes) : MVCCRangeKeyStack :=
  MkStack (RangeKey_Bounds k) [MkVersion (r_Timestamp k) valueRaw].

Definition RangeKey_Compare (k o : MVCCRangeKey) : comparison :=
  match Key_Compare (StartKey k) (StartKey o) with
  | Eq =>
      if Timestamp_IsEmpty (r_Timestamp k) && negb (Timestamp_IsEmpty (r_Timestamp o)) then Lt
      else if negb (Timestamp_IsEmpty (r_Timestamp k)) && Timestamp_IsEmpty (r_Timestamp o) then Gt
      else
        let c := Timestamp_Compare (r_Timestamp k) (r_Timestamp o) in
        if negb (c =? 0) then - c ?= 0 else Key_Compare (REnd k) (REnd o)
  | c => c
  end.

Definition RangeKey_EncodedSize (k : MVCCRangeKey) : nat :=
  (EncodedMVCCKeyPrefixLength (StartKey k) + EncodedMVCCKeyPrefixLength (REnd k) +
   EncodedMVCCTimestampSuffixLength (r_Timestamp k))%nat.

Definition RangeKey_Validate (k : MVCCRangeKey) : res unit :=
  if (length (StartKey k) =? 0)%nat then Err "no start key"
  else if (length (REnd k) =? 0)%nat then Err "no end key"
  else if Timestamp_IsEmpty (r_Timestamp k) then Err "no timestamp"
  else if bleb (REnd k) (StartKey k) then Err "start key is at or after end key"
  else Ok ().

Definition RangeKey_Includes (k : MVCCRangeKey) (key : bytes) : bool :=
  bleb (StartKey k) key && bltb key (REnd k).
Definition RangeKey_Overlaps (k b : MVCCRangeKey) : bool :=
  bltb (StartKey k) (REnd b) && bltb (StartKey b) (REnd k).
Definition RangeKey_Deletes (k : MVCCRangeKey) (key : MVCCKey) : bool :=
  RangeKey_Includes k (k_Key key) && negb (Timestamp_Less (r_Timestamp k) (k_Timestamp key)).

(** * Versions *)

Definition Version_Equal (v o : MVCCRangeKeyVersion) : bool :=
  Timestamp_Equal (v_Timestamp v) (v_Timestamp o) && beqb (v_Value v) (v_Value o).

Definition Versions_IsEmpty (v : MVCCRangeKeyVersions) : bool := (length v =? 0)%nat.

Definition Versions_Covers (v : MVCCRangeKeyVersions) (ts : Timestamp) : bool :=
  match v with
  | [] => false
  | v0 :: _ => negb (Timestamp_IsEmpty ts) && Timestamp_LessEq ts (v_Timestamp v0)
  end.

Fixpoint Versions_Equal (v other : MVCCRangeKeyVersions) : bool :=
  match v, other with
  | [], [] => true
  | x :: v, y :: other => Version_Equal x y && Versions_Equal v other
  | _, _ => false
  end.

(** The versions left, and whether any was removed. *)
Definition Versions_Excise (v : MVCCRangeKeyVersions) (from to : Timestamp) : MVCCRangeKeyVersions * bool :=
  let start := first_index (fun version => Timestamp_LessEq (v_Timestamp version) to) v in
  let end_ := search_list (fun version => Timestamp_Less (v_Timestamp version) from) v in
  if (end_ <=? start)%nat then (v, false)
  else if (start =? 0)%nat then (drop end_ v, true)
  else (take start v ++ drop end_ v, true).

Definition Versions_Trim (v : MVCCRangeKeyVersions) (from to : Timestamp) : MVCCRangeKeyVersions * bool :=
  let start := first_index (fun version => Timestamp_LessEq (v_Timestamp version) to) v in
  let v := drop start v in
  let removed := (0 <? start)%nat in
  let end_ := search_list (fun version => Timestamp_Less (v_Timestamp version) from) v in
  if (end_ <? length v)%nat then (take end_ v, true) else (v, removed).

Definition Versions_FirstAtOrAbove (v : MVCCRangeKeyVersions) (ts : Timestamp) : option MVCCRangeKeyVersion :=
  if (0 <? length v)%nat then
    let i := search_list (fun version => Timestamp_Less (v_Timestamp version) ts) v in
    if (0 <? i)%nat then v !! (i - 1)%nat else None
  else None.

Definition Versions_FirstAtOrBelow (v : MVCCRangeKeyVersions) (ts : Timestamp) : option MVCCRangeKeyVersion :=
  if (0 <? length v)%nat then
    let i := search_list (fun version => Timestamp_LessEq (v_Timestamp version) ts) v in
    if (i <? length v)%nat then v !! i else None
  else None.

Definition Versions_HasBetween (v : MVCCRangeKeyVersions) (lower upper : Timestamp) : bool :=
  match Versions_FirstAtOrAbove v lower with
  | Some version => Timestamp_LessEq (v_Timestamp version) upper
  | None => false
  end.

Definition Versions_Newest (v : MVCCRangeKeyVersions) : Timestamp :=
  match v with [] => EmptyTimestamp | x :: _ => v_Timestamp x end.
Definition Versions_Oldest (v : MVCCRangeKeyVersions) : Timestamp :=
  match v !! (length v - 1)%nat with None => EmptyTimestamp | Some x => v_Timestamp x end.

(** The versions left, and the one removed. *)
Definition Versions_Remove (v : MVCCRangeKeyVersions) (ts : Timestamp)
    : MVCCRangeKeyVersions * option MVCCRangeKeyVersion :=
  match v with
  | [] => (v, None)
  | r :: v' =>
      if Timestamp_Equal (v_Timestamp r) ts then (v', Some r)
      else
        let i := search_list (fun version => Timestamp_LessEq (v_Timestamp version) ts) v in
        match v !! i with
        | Some r =>
            if Timestamp_Equal (v_Timestamp r) ts then (take i v ++ drop (i + 1) v, Some r) else (v, None)
        | None => (v, None)
        end
  end.

Definition Versions_Timestamps (v : MVCCRangeKeyVersions) : list Timestamp := v_Timestamp <$> v.
Definition Versions_Clear (v : MVCCRangeKeyVersions) : MVCCRangeKeyVersions := take 0 v.

(** * Stacks *)

Definition Stack_AsRangeKey (s : MVCCRangeKeyStack) (v : MVCCRangeKeyVersion) : MVCCRangeKey :=
  MkRangeKey (Key (Bounds s)) (ek (Bounds s)) (v_Timestamp v).
Definition Stack_AsRangeKeys (s : MVCCRangeKeyStack) : list MVCCRangeKey := Stack_AsRangeKey s <$> Versions s.
Definition Stack_IsEmpty (s : MVCCRangeKeyStack) : bool := Versions_IsEmpty (Versions s).
Definition Stack_Len (s : MVCCRangeKeyStack) : nat := length (Versions s).

Definition Stack_CanMergeRight (s r : MVCCRangeKeyStack) : bool :=
  if Stack_IsEmpty s || negb (Stack_Len s =? Stack_Len r)%nat || negb (Key_Equal (ek (Bounds s)) (Key (Bounds r)))
  then false
  else forallb (fun p => Version_Equal p.1 p.2) (zip (Versions s) (Versions r)).

Definition Stack_Covers (s : MVCCRangeKeyStack) (k : MVCCKey) : bool :=
  Versions_Covers (Versions s) (k_Timestamp k) && Span_ContainsKey (Bounds s) (k_Key k).
Definition Stack_Equal (s o : MVCCRangeKeyStack) : bool :=
  Span_Equal (Bounds s) (Bounds o) && Versions_Equal (Versions s) (Versions o).
Definition Stack_Excise (s : MVCCRangeKeyStack) (from to : Timestamp) : MVCCRangeKeyStack * bool :=
  let '(v, r) := Versions_Excise (Versions s) from to in (MkStack (Bounds s) v, r).
Definition Stack_Trim (s : MVCCRangeKeyStack) (from to : Timestamp) : MVCCRangeKeyStack * bool :=
  let '(v, r) := Versions_Trim (Versions s) from to in (MkStack (Bounds s) v, r).
Definition Stack_Remove (s : MVCCRangeKeyStack) (ts : Timestamp)
    : MVCCRangeKeyStack * option MVCCRangeKeyVersion :=
  let '(v, r) := Versions_Remove (Versions s) ts in (MkStack (Bounds s) v, r).

(** * The invariant: newest first *)

Definition newer (a b : MVCCRangeKeyVersion) : Prop := lt_ts (v_Timestamp b) (v_Timestamp a).
Definition newest_first (v : MVCCRangeKeyVersions) : Prop := StronglySorted newer v.

Definition at_most (ts : Timestamp) (v : MVCCRangeKeyVersion) : bool := Timestamp_LessEq (v_Timestamp v) ts.
Definition below (ts : Timestamp) (v : MVCCRangeKeyVersion) : bool := Timestamp_Less (v_Timestamp v) ts.
Definition within (from to : Timestamp) (v : MVCCRangeKeyVersion) : bool := at_most to v && negb (below from v).

Lemma at_most_up ts v : newest_first v -> upclosed (at_most ts) v.
Proof. apply upclosed_impl. intros x y. unfold newer, at_most. ts. Qed.
Lemma below_up ts v : newest_first v -> upclosed (below ts) v.
Proof. apply upclosed_impl. intros x y. unfold newer, below. ts. Qed.

Lemma sorted_filter p v : newest_first v -> newest_first (List.filter p v).
Proof.
  induction 1 as [|x v S IH F]; [constructor|]. cbn. destruct (p x); [|done]. constructor; [done|].
  apply List.Forall_forall. intros y Hy%List.filter_In. eapply List.Forall_forall in F; [exact F|]. apply Hy.
Qed.

Lemma filter_filter {A} (p q : A -> bool) l : List.filter p (List.filter q l) = List.filter (fun x => q x && p x) l.
Proof. induction l as [|x l IH]; [done|]. cbn. destruct (q x); cbn; destruct (p x); by rewrite IH. Qed.

Lemma filter_length_le {A} (p : A -> bool) l : (length (List.filter p l) <= length l)%nat.
Proof. induction l as [|x l IH]; [done|]. cbn. destruct (p x); cbn; lia. Qed.

Lemma filter_length_all {A} (p : A -> bool) l : length (List.filter p l) = length l -> List.filter p l = l.
Proof.
  induction l as [|x l IH]; [done|]. cbn. pose proof (filter_length_le p l). destruct (p x); cbn; [|lia].
  intros [= E]. f_equal. auto.
Qed.

Lemma Trim_filter v from to : newest_first v ->
  Versions_Trim v from to =
  (List.filter (within from to) v, negb (length (List.filter (within from to) v) =? length v)%nat).
Proof.
  intros S. unfold Versions_Trim.
  destruct (first_index_filter _ v (at_most_up to v S)) as (K & T & D).
  change (fun version => Timestamp_LessEq (v_Timestamp version) to) with (at_most to).
  change (fun version => Timestamp_Less (v_Timestamp version) from) with (below from).
  pose proof (length_drop v (first_index (at_most to) v)) as Ld. rewrite D in *.
  pose proof (sorted_filter (at_most to) v S) as S'.
  destruct (search_list_filter _ _ (below_up from _ S')) as (K' & T' & D').
  rewrite filter_filter in T'. fold (within from to) in T'.
  change (fun x => at_most to x && negb (below from x)) with (within from to) in T'.
  set (k := search_list (below from) (List.filter (at_most to) v)) in *.
  pose proof (length_take (List.filter (at_most to) v) k) as Lt. rewrite T' in Lt.
  destruct (Nat.ltb_spec k (length (List.filter (at_most to) v))).
  - rewrite T'. f_equal. symmetry. apply negb_true_iff, Nat.eqb_neq. lia.
  - assert (k = length (List.filter (at_most to) v)) as E by lia.
    rewrite E, firstn_all in T'. rewrite <- T'. f_equal.
    destruct (Nat.ltb_spec 0 (first_index (at_most to) v)); symmetry;
      [apply negb_true_iff, Nat.eqb_neq|apply negb_false_iff, Nat.eqb_eq]; lia.
Qed.

Lemma filter_Forall {A} (p : A -> bool) l : Forall (fun x => p x = true) (List.filter p l).
Proof. induction l as [|x l IH]; cbn; [constructor|]. destruct (p x) eqn:E; [by constructor|done]. Qed.

Lemma Forall_and_1 {A} (P Q : A -> Prop) l : Forall P l -> Forall Q l -> Forall (fun x => P x /\ Q x) l.
Proof. intros F G. apply Forall_and. done. Qed.

Lemma Forall_drop_le {A} (P : A -> Prop) i j (l : list A) : (i <= j)%nat -> Forall P (drop i l) -> Forall P (drop j l).
Proof. intros L F. replace j with (i + (j - i))%nat by lia. rewrite <- drop_drop. by apply Forall_drop. Qed.

Lemma Excise_filter v from to : newest_first v ->
  Versions_Excise v from to =
  (List.filter (fun x => negb (within from to x)) v,
   negb (length (List.filter (fun x => negb (within from to x)) v) =? length v)%nat).
Proof.
  intros S. unfold Versions_Excise.
  change (fun version => Timestamp_LessEq (v_Timestamp version) to) with (at_most to).
  change (fun version => Timestamp_Less (v_Timestamp version) from) with (below from).
  destruct (first_index_filter _ v (at_most_up to v S)) as (K & T & D).
  destruct (search_list_filter _ v (below_up from v S)) as (K' & T' & D').
  set (i := first_index (at_most to) v) in *. set (j := search_list (below from) v) in *.
  assert (Forall (fun x => negb (within from to x) = true) (take i v)) as Fi.
  { rewrite T. eapply Forall_impl; [apply filter_Forall|]. intros x E. apply negb_true_iff in E. unfold within. by rewrite E. }
  assert (Forall (fun x => negb (within from to x) = true) (drop j v)) as Fj.
  { rewrite D'. eapply Forall_impl; [apply filter_Forall|]. intros x E. unfold within. rewrite E. by destruct (at_most to x). }
  destruct (Nat.leb_spec j i).
  - assert (List.filter (fun x => negb (within from to x)) v = v) as ->; [|by rewrite Nat.eqb_refl].
    apply filter_all. rewrite <- (take_drop i v). apply Forall_app. split; [done|]. by apply (Forall_drop_le _ j).
  - assert (List.filter (fun x => negb (within from to x)) v = take i v ++ drop j v) as ->.
    { rewrite <- (take_drop i v) at 1. rewrite <- (take_drop (j - i) (drop i v)), drop_drop.
      replace (i + (j - i))%nat with j by lia. rewrite !List.filter_app, (filter_all _ (take i v)), (filter_all _ (drop j v)) by done.
      rewrite (filter_none _ (take (j - i) (drop i v))); [done|].
      assert (Forall (fun x => at_most to x = true) (take (j - i) (drop i v))) as F1.
      { apply Forall_take. rewrite D. apply filter_Forall. }
      assert (Forall (fun x => negb (below from x) = true) (take (j - i) (drop i v))) as F2.
      { rewrite take_drop_commute. replace (i + (j - i))%nat with j by lia. apply Forall_drop. rewrite T'.
        apply filter_Forall. }
      eapply Forall_impl; [exact (Forall_and_1 _ _ _ F1 F2)|]. intros x [E1 E2]. unfold within. by rewrite E1, E2. }
    rewrite length_app, length_take, length_drop. rewrite (proj2 (Nat.eqb_neq (_ + _) _)) by lia.
    destruct (Nat.eqb_spec i 0) as [->|]; done.
Qed.

Lemma last_take {A} (l : list A) i : (0 < i <= length l)%nat -> l !! (i - 1)%nat = last (take i l).
Proof.
  intros H. rewrite last_lookup, length_take, lookup_take_lt by lia. f_equal. lia.
Qed.

Lemma FirstAtOrAbove_last v ts : newest_first v ->
  Versions_FirstAtOrAbove v ts = last (List.filter (fun x => negb (below ts x)) v).
Proof.
  intros S. unfold Versions_FirstAtOrAbove.
  change (fun version => Timestamp_Less (v_Timestamp version) ts) with (below ts).
  destruct (search_list_filter _ v (below_up ts v S)) as (K & T & D). rewrite <- T.
  set (k := search_list (below ts) v) in *.
  destruct (Nat.ltb_spec 0 (length v)); [|by destruct v; [destruct k|cbn in *; lia]].
  destruct (Nat.ltb_spec 0 k); [apply last_take; lia|]. by replace k with 0%nat by lia.
Qed.

Lemma FirstAtOrBelow_head v ts : newest_first v ->
  Versions_FirstAtOrBelow v ts = head (List.filter (at_most ts) v).
Proof.
  intros S. unfold Versions_FirstAtOrBelow.
  change (fun version => Timestamp_LessEq (v_Timestamp version) ts) with (at_most ts).
  destruct (search_list_filter _ v (at_most_up ts v S)) as (K & T & D). rewrite <- D.
  set (k := search_list (at_most ts) v) in *. rewrite head_lookup, lookup_drop, Nat.add_0_r.
  destruct (Nat.ltb_spec 0 (length v)); [|by rewrite lookup_ge_None_2 by lia].
  destruct (Nat.ltb_spec k (length v)); [done|by rewrite lookup_ge_None_2 by lia].
Qed.

(** The last element is the oldest. *)
Lemma last_oldest v x y : newest_first v -> last v = Some y -> In x v -> le_ts (v_Timestamp y) (v_Timestamp x).
Proof.
  induction 1 as [|z v S IH F]; [done|]. intros L [->|Hx].
  - destruct v as [|w v]; cbn in L; [simplify_eq; apply le_ts_refl|].
    apply lt_le_ts. eapply Forall_forall in F; [exact F|]. by apply last_Some_elem_of.
  - destruct v; [done|]. by apply IH.
Qed.

Lemma existsb_filter {A} (p q : A -> bool) l : existsb (fun x => p x && q x) l = existsb p (List.filter q l).
Proof. induction l as [|x l IH]; [done|]. cbn. destruct (q x); cbn; by rewrite IH, ?andb_true_r, ?andb_false_r. Qed.

Lemma HasBetween_exists v lower upper : newest_first v ->
  Versions_HasBetween v lower upper = existsb (within lower upper) v.
Proof.
  intros S. unfold Versions_HasBetween, within. rewrite FirstAtOrAbove_last, existsb_filter by done.
  pose proof (sorted_filter (fun x => negb (below lower x)) v S) as S'.
  set (l := List.filter _ v) in *. clearbody l. destruct (last l) as [y|] eqn:L.
  - change (Timestamp_LessEq (v_Timestamp y) upper) with (at_most upper y). destruct (at_most upper y) eqn:E; symmetry.
    + apply List.existsb_exists. exists y. split; [|done]. apply list_elem_of_In. by apply last_Some_elem_of.
    + apply not_true_iff_false. intros (x & Hx & Ex)%List.existsb_exists.
      pose proof (last_oldest l x y S' L Hx) as O. apply not_true_iff_false in E. apply E.
      unfold at_most in *. exact (le_ts_trans _ _ _ O Ex).
  - apply last_None in L as ->. done.
Qed.

Lemma Covers_exists v ts : newest_first v ->
  Versions_Covers v ts = negb (Timestamp_IsEmpty ts) && existsb (fun x => Timestamp_LessEq ts (v_Timestamp x)) v.
Proof.
  intros S. destruct S as [|x v S F]; cbn; [by rewrite andb_false_r|]. f_equal.
  destruct (Timestamp_LessEq ts (v_Timestamp x)) eqn:E; [done|]. symmetry. apply not_true_iff_false.
  intros (y & Hy & Ey)%List.existsb_exists. apply not_true_iff_false in E. apply E.
  eapply List.Forall_forall in F; [|exact Hy]. exact (le_ts_trans _ _ _ Ey (lt_le_ts _ _ F)).
Qed.

Abbreviation is_ts ts := (fun x => Timestamp_Equal (v_Timestamp x) ts).

Lemma newer_not_equal x y ts : newer x y -> is_ts ts x = true -> is_ts ts y = false.
Proof.
  intros N E%Timestamp_Equal_spec. apply not_true_iff_false. intros E'%Timestamp_Equal_spec.
  unfold newer in N. rewrite E, E' in N. by apply lt_ts_irrefl in N.
Qed.

Lemma Remove_cons x v ts : newest_first (x :: v) -> is_ts ts x = true ->
  List.filter (fun y => negb (is_ts ts y)) (x :: v) = v.
Proof.
  intros S E. inversion_clear S as [|? ? _ F]. cbn. rewrite E. cbn. apply filter_all.
  eapply Forall_impl; [exact F|]. intros y N. by rewrite (newer_not_equal x y ts N E).
Qed.

Lemma find_app_none {A} (p : A -> bool) a b :
  Forall (fun x => p x = false) a -> List.find p (a ++ b) = List.find p b.
Proof. induction 1 as [|x l E _ IH]; [done|]. cbn. by rewrite E. Qed.

Lemma Remove_filter v ts : newest_first v ->
  Versions_Remove v ts = (List.filter (fun x => negb (is_ts ts x)) v, List.find (is_ts ts) v).
Proof.
  intros So. destruct v as [|r v]; [done|]. unfold Versions_Remove.
  destruct (is_ts ts r) eqn:E0; [by rewrite Remove_cons by done; cbn; rewrite E0|].
  change (fun version => Timestamp_LessEq (v_Timestamp version) ts) with (at_most ts).
  destruct (search_list_filter _ _ (at_most_up ts _ So)) as (K & T & D).
  set (w := r :: v) in *. set (k := search_list (at_most ts) w) in *.
  assert (Forall (fun x => is_ts ts x = false) (take k w)) as F.
  { rewrite T. eapply Forall_impl; [apply filter_Forall|]. intros x Hx%negb_true_iff. apply not_true_iff_false.
    intros <-%Timestamp_Equal_spec. unfold at_most in Hx. by rewrite (le_ts_refl _ : Timestamp_LessEq _ _ = true) in Hx. }
  assert (List.filter (fun x => negb (is_ts ts x)) w = take k w ++ List.filter (fun x => negb (is_ts ts x)) (drop k w)
    /\ List.find (is_ts ts) w = List.find (is_ts ts) (drop k w)) as [-> ->].
  { split.
    - rewrite <- (take_drop k w) at 1. rewrite List.filter_app. f_equal. apply filter_all.
      eapply Forall_impl; [exact F|]. by intros x ->.
    - rewrite <- (take_drop k w) at 1. by apply find_app_none. }
  assert (newest_first (drop k w)) as Sd by (rewrite D; by apply sorted_filter).
  destruct (w !! k) as [x|] eqn:L.
  - rewrite (drop_S w x k L) in *. rewrite Nat.add_1_r.
    destruct (is_ts ts x) eqn:Ex.
    + rewrite Remove_cons by done. cbn. by rewrite Ex.
    + assert (Forall (fun y => is_ts ts y = false) (x :: drop (S k) w)) as G.
      { constructor; [done|]. inversion_clear Sd as [|? ? _ G]. eapply Forall_impl; [exact G|]. intros y N.
        apply not_true_iff_false. intros Ey%Timestamp_Equal_spec. unfold newer in N. rewrite Ey in N.
        assert (at_most ts x = true) as A.
        { assert (Forall (fun x => at_most ts x = true) (x :: drop (S k) w)) as FA by (rewrite D; apply filter_Forall).
          by inversion_clear FA. }
        exact (lt_le_ts_contra _ _ N A). }
      rewrite filter_all by (eapply Forall_impl; [exact G|]; by intros y ->).
      rewrite <- (drop_S w x k L) in *. rewrite take_drop. f_equal.
      rewrite <- (app_nil_r (drop k w)). by rewrite find_app_none.
  - apply lookup_ge_None_1 in L. rewrite drop_ge, take_ge by lia. by rewrite app_nil_r.
Qed.

(** * Properties *)

(** C28: stacks stay sorted.  [Trim], [Excise] and [Remove], which edit a stack of range key
    versions in place, keep the bounds and the order from newest to oldest; they leave
    exactly the versions inside the time span, outside of it, and other than the given
    one, and report exactly whether (which) versions were removed. *)
Theorem stack_edits s from to ts :
  newest_first (Versions s) ->
  (let '(t, removed) := Stack_Trim s from to in
   Bounds t = Bounds s /\ newest_first (Versions t) /\
   Versions t = List.filter (within from to) (Versions s) /\ (removed = true <-> Versions t <> Versions s)) /\
  (let '(t, removed) := Stack_Excise s from to in
   Bounds t = Bounds s /\ newest_first (Versions t) /\
   Versions t = List.filter (fun v => negb (within from to v)) (Versions s) /\
   (removed = true <-> Versions t <> Versions s)) /\
  (let '(t, r) := Stack_Remove s ts in
   Bounds t = Bounds s /\ newest_first (Versions t) /\
   Versions t = List.filter (fun v => negb (is_ts ts v)) (Versions s) /\
   r = List.find (is_ts ts) (Versions s)).
Proof.
  intros S. unfold Stack_Trim, Stack_Excise, Stack_Remove.
  rewrite Trim_filter, Excise_filter, Remove_filter by done. cbn [Bounds Versions].
  assert (forall p, negb (length (List.filter p (Versions s)) =? length (Versions s))%nat = true <->
    List.filter p (Versions s) <> Versions s) as C.
  { intros p. rewrite negb_true_iff, Nat.eqb_neq. split; [by intros H E; apply H; rewrite E|].
    intros H E. apply H, filter_length_all, E. }
  split_and!; auto using sorted_filter; apply C.
Qed.

Lemma stack_edits_witness :
  let v n := MkVersion (MkTimestamp n 0 false) [] in
  let s := MkStack (MkSpan [1] (Some [5])) [v 9; v 6; v 3] in
  Stack_Trim s (MkTimestamp 4 0 false) (MkTimestamp 8 0 false) = (MkStack (Bounds s) [v 6], true).
Proof.
  intros v s.
  destruct (stack_edits s (MkTimestamp 4 0 false) (MkTimestamp 8 0 false) (MkTimestamp 6 0 false)) as [T _].
  { repeat constructor. }
  destruct (Stack_Trim s _ _) as [[b u] r]. cbn [Bounds Versions] in T. destruct T as (Eb & _ & Eu & R). subst b u.
  f_equal. by apply R.
Defined.

(** Searches in a stack.  On a stack sorted from newest to oldest the binary searches
    find what a scan would: the oldest version at or above a time, the newest at or below
    it, and whether any version lies between two times. *)
Theorem stack_searches v ts lower upper :
  newest_first v ->
  Versions_FirstAtOrAbove v ts = last (List.filter (fun x => Timestamp_LessEq ts (v_Timestamp x)) v) /\
  Versions_FirstAtOrBelow v ts = head (List.filter (fun x => Timestamp_LessEq (v_Timestamp x) ts) v) /\
  (Versions_HasBetween v lower upper = true <->
   exists x, In x v /\ le_ts lower (v_Timestamp x) /\ le_ts (v_Timestamp x) upper).
Proof.
  intros S. split_and!.
  - rewrite FirstAtOrAbove_last by done. f_equal. apply List.filter_ext. intros x. unfold below. by rewrite LessEq_negb.
  - by rewrite FirstAtOrBelow_head.
  - rewrite HasBetween_exists, List.existsb_exists by done. unfold within, at_most, below, le_ts.
    setoid_rewrite andb_true_iff. setoid_rewrite <- LessEq_negb. naive_solver.
Qed.

Lemma stack_searches_witness :
  let v n := MkVersion (MkTimestamp n 0 false) [] in
  Versions_FirstAtOrAbove [v 9; v 6; v 3] (MkTimestamp 5 0 false) = Some (v 6).
Proof.
  intros v. destruct (stack_searches [v 9; v 6; v 3] (MkTimestamp 5 0 false) EmptyTimestamp EmptyTimestamp) as [E _].
  { repeat constructor. }
  by rewrite E.
Defined.

Lemma existsb_map {A B} (f : A -> B) p l : existsb p (f <$> l) = existsb (fun x => p (f x)) l.
Proof. induction l as [|x l IH]; [done|]. cbn. by rewrite IH. Qed.

Lemma existsb_ext {A} (p q : A -> bool) l : (forall x, p x = q x) -> existsb p l = existsb q l.
Proof. intros H. induction l as [|x l IH]; [done|]. cbn. by rewrite H, IH. Qed.

Lemma existsb_andb {A} b (p : A -> bool) l : existsb (fun x => b && p x) l = b && existsb p l.
Proof. induction l as [|x l IH]; cbn; [by rewrite andb_false_r|]. rewrite IH. by destruct b. Qed.

Lemma Version_Equal_spec v o : Version_Equal v o = true <-> v = o.
Proof.
  unfold Version_Equal. rewrite andb_true_iff, Timestamp_Equal_spec. destruct v as [t x], o as [u y]. cbn.
  destruct (beqb_spec x y); naive_solver.
Qed.

Lemma zip_equal (v w : MVCCRangeKeyVersions) : length v = length w ->
  forallb (fun p => Version_Equal p.1 p.2) (zip v w) = true -> v = w.
Proof.
  revert w. induction v as [|x v IH]; intros [|y w] L; try done. cbn [zip zip_with forallb].
  intros [Ex E]%andb_prop. cbn [fst snd] in Ex. apply Version_Equal_spec in Ex as ->. f_equal.
  apply IH; [by injection L|done].
Qed.

(** What a stack covers.  A stack covers a version of a key exactly when one of its
    range keys deletes it, and never an intent (no timestamp); two stacks that may be merged to the
    right cover, as one stack over the joined bounds, exactly what they cover apart. *)
Theorem stack_covers s r k :
  newest_first (Versions s) ->
  Stack_Covers s k =
    negb (Timestamp_IsEmpty (k_Timestamp k)) && existsb (fun rk => RangeKey_Deletes rk k) (Stack_AsRangeKeys s) /\
  (Stack_CanMergeRight s r = true -> ble (Key (Bounds s)) (ek (Bounds s)) -> ble (Key (Bounds r)) (ek (Bounds r)) ->
   Stack_Covers (MkStack (MkSpan (Key (Bounds s)) (EndKey (Bounds r))) (Versions s)) k
   = Stack_Covers s k || Stack_Covers r k).
Proof.
  intros S. split.
  - unfold Stack_Covers, Stack_AsRangeKeys. rewrite Covers_exists, existsb_map by done.
    unfold RangeKey_Deletes, RangeKey_Includes, Span_ContainsKey, Stack_AsRangeKey. cbn [StartKey REnd r_Timestamp].
    rewrite existsb_andb.
    rewrite (existsb_ext (fun x => negb (Timestamp_Less (v_Timestamp x) (k_Timestamp k)))
               (fun x => Timestamp_LessEq (k_Timestamp k) (v_Timestamp x))) by (intros; by rewrite LessEq_negb).
    destruct (negb _), (bleb _ _ && bltb _ _), (existsb _ _); done.
  - unfold Stack_CanMergeRight. destruct (Stack_IsEmpty s); [done|]. cbn [orb].
    destruct (Nat.eqb_spec (Stack_Len s) (Stack_Len r)) as [L|]; [|done]. cbn [negb orb].
    unfold Key_Equal. destruct (beqb_spec (ek (Bounds s)) (Key (Bounds r))) as [E|]; [|done]. cbn [negb].
    intros Z%zip_equal Ls Lr; [|done]. unfold Stack_Covers, Span_ContainsKey. cbn [Versions Bounds Key].
    rewrite <- Z, <- andb_orb_distrib_r. f_equal. change (ek (MkSpan _ (EndKey (Bounds r)))) with (ek (Bounds r)).
    rewrite E in *. bcases; try done; exfalso; border.
Qed.

Lemma stack_covers_witness :
  let v n := MkVersion (MkTimestamp n 0 false) [] in
  Stack_Covers (MkStack (MkSpan [1] (Some [5])) [v 9; v 6]) (MkMVCCKey [2] (MkTimestamp 7 0 false)) = true.
Proof.
  intros v. destruct (stack_covers (MkStack (MkSpan [1] (Some [5])) [v 9; v 6])
    (MkStack EmptySpan []) (MkMVCCKey [2] (MkTimestamp 7 0 false))) as [E _].
  { repeat constructor. }
  by rewrite E.
Defined.
