(* ===== verification/MvccValue.v ===== *)
(** Versioned values, intents and uncertainty (src/pkg/storage/mvcc_value.go,
    src/pkg/storage/enginepb/mvcc.go and mvcc3_valueheader.go,
    src/pkg/kv/kvserver/uncertainty/interval.go).

    What a reader finds under a versioned key: a value with an optional header, the metadata of
    an intent with the history of its writes, and the test that makes a value uncertain.  The
    file shows that encoded values decode, that the tombstone test on encodings agrees with
    decoding, what the searches in an intent's history find, and what a corrupt length does. *)
From stdpp Require Import sorting.
From S2P Require Import Prelude Bytes GoLib IntEnc Hlc MvccKey.

(** * Values *)

(** Outside test builds the header is the local timestamp alone. *)
Record MVCCValueHeader := MkHeader { LocalTimestamp : ClockTimestamp }.
Definition EmptyHeader : MVCCValueHeader := MkHeader EmptyTimestamp.

(** The generated marshalling code of the header. *)
Class HeaderLib := {
  hdr_Marshal : MVCCValueHeader -> bytes;
  hdr_Unmarshal : bytes -> res MVCCValueHeader
}.
Class HeaderLaws `{HeaderLib} := {
  hdr_roundtrip h : ts_wf (LocalTimestamp h) -> hdr_Unmarshal (hdr_Marshal h) = Ok h;
  hdr_length h : isU 31 (Z.of_nat (length (hdr_Marshal h)))
}.

Definition Header_IsEmpty (h : MVCCValueHeader) : bool := Timestamp_IsEmpty (LocalTimestamp h).

Record MVCCValue := MkMVCCValue { vHeader : MVCCValueHeader; RawBytes : bytes }.
Definition EmptyValue : MVCCValue := MkMVCCValue EmptyHeader [].

Definition MVCCValue_IsTombstone (v : MVCCValue) : bool := (length (RawBytes v) =? 0)%nat.

Definition MinClockTimestamp : ClockTimestamp := MkTimestamp 0 1 false.

Definition LocalTimestampNeeded (v : MVCCValue) (keyTS : Timestamp) : res bool :=
  let l := LocalTimestamp (vHeader v) in
  if negb (Timestamp_IsEmpty l) then
    l ← ClockTimestamp_ToTimestamp l; Ok (Timestamp_Less l keyTS)
  else Ok false.

Definition GetLocalTimestamp (v : MVCCValue) (keyTS : Timestamp) : ClockTimestamp :=
  if Timestamp_IsEmpty (LocalTimestamp (vHeader v)) then
    if Synthetic keyTS then MinClockTimestamp else keyTS
  else LocalTimestamp (vHeader v).

Abbreviation tagPos := 4%nat.
Abbreviation extendedPreludeSize := 5.
Abbreviation extendedEncodingSentinel := 101.

Section Encoding.
Context `{HeaderLib} (disableSimpleValueEncoding : bool).

Definition encodedMVCCValueSize (v : MVCCValue) : Z :=
  if Header_IsEmpty (vHeader v) && negb disableSimpleValueEncoding then Z.of_nat (length (RawBytes v))
  else extendedPreludeSize + Z.of_nat (length (hdr_Marshal (vHeader v))) + Z.of_nat (length (RawBytes v)).

Definition EncodeMVCCValue (v : MVCCValue) : res bytes :=
  if Header_IsEmpty (vHeader v) && negb disableSimpleValueEncoding then Ok (RawBytes v)
  else
    let h := hdr_Marshal (vHeader v) in
    let headerLen := length h in
    let headerSize := (5 + headerLen)%nat in
    let buf := make_bytes (headerSize + length (RawBytes v)) in
    buf ← put_at buf 0 (be 4 (u32 (Z.of_nat headerLen)));
    buf ← put_at buf tagPos [extendedEncodingSentinel];
    buf ← put_at buf 5 h;
    Ok (copy_at buf headerSize (RawBytes v)).

(** [None] when the encoding is extended. *)
Definition tryDecodeSimpleMVCCValue (buf : bytes) : res (option MVCCValue) :=
  if (length buf =? 0)%nat then Ok (Some EmptyValue)
  else if (length buf <=? tagPos)%nat then Err "invalid encoded mvcc value, missing tag"
  else if negb (nth tagPos buf 0 =? extendedEncodingSentinel) then Ok (Some (MkMVCCValue EmptyHeader buf))
  else Ok None.

Definition decodeExtendedMVCCValue (buf : bytes) : res MVCCValue :=
  let headerLen := be_uint (take 4 buf) in
  let headerSize := u32 (extendedPreludeSize + headerLen) in
  if Z.of_nat (length buf) <? headerSize then Err "invalid encoded mvcc value, missing header"
  else if headerSize <? extendedPreludeSize then Panic "slice bounds out of range"
  else
    match hdr_Unmarshal (slice buf extendedPreludeSize headerSize) with
    | Ok h => Ok (MkMVCCValue h (drop (Z.to_nat headerSize) buf))
    | Err _ => Err "unmarshaling MVCCValueHeader"
    | Panic e => Panic e
    end.

Definition DecodeMVCCValue (buf : bytes) : res MVCCValue :=
  v ← tryDecodeSimpleMVCCValue buf;
  match v with Some v => Ok v | None => decodeExtendedMVCCValue buf end.

Definition EncodedMVCCValueIsTombstone (buf : bytes) : res bool :=
  if (length buf =? 0)%nat then Ok true
  else if (length buf <=? tagPos)%nat then Err "invalid encoded mvcc value, missing tag"
  else if negb (nth tagPos buf 0 =? extendedEncodingSentinel) then Ok false
  else
    let headerSize := u32 (extendedPreludeSize + be_uint (take 4 buf)) in
    if Z.of_nat (length buf) <? headerSize then Err "invalid encoded mvcc value, missing header"
    else Ok (Z.of_nat (length buf) =? headerSize).
End Encoding.

(** * Uncertainty *)

Record Interval := MkInterval { GlobalLimit : Timestamp; LocalLimit : ClockTimestamp }.

Definition IsUncertain (i : Interval) (valueTs : Timestamp) (localTs : ClockTimestamp) : res bool :=
  if Timestamp_IsEmpty valueTs then Panic "unexpected empty value timestamp"
  else if Timestamp_IsEmpty localTs then Panic "unexpected empty local timestamp"
  else if negb (Timestamp_IsEmpty (LocalLimit i)) && Timestamp_Less (LocalLimit i) localTs then Ok false
  else Ok (Timestamp_LessEq valueTs (GlobalLimit i)).

(** * Transactions and intents *)

Record IgnoredSeqNumRange := MkIgnored { i_Start : Z; i_End : Z }.

(** The loop runs from the last range to the first. *)
Fixpoint ignored_loop (seq : Z) (rev_ignored : list IgnoredSeqNumRange) : bool :=
  match rev_ignored with
  | [] => false
  | r :: rest => if seq <? i_Start r then ignored_loop seq rest else negb (i_End r <? seq)
  end.
Definition TxnSeqIsIgnored (seq : Z) (ignored : list IgnoredSeqNumRange) : bool := ignored_loop seq (rev ignored).

Record TxnMeta := MkTxnMeta {
  t_ID : bytes; t_Key : bytes; t_Epoch : Z; t_WriteTimestamp : Timestamp; t_MinTimestamp : Timestamp;
  t_Priority : Z; t_Sequence : Z
}.

Record SequencedIntent := MkSequenced { h_Sequence : Z; h_Value : bytes }.

(** [m_RawBytes] is [None] for a nil slice. *)
Record MVCCMetadata := MkMetadata {
  m_Txn : option TxnMeta;
  m_Timestamp : LegacyTimestamp;
  m_Deleted : bool;
  m_KeyBytes : Z;
  m_ValBytes : Z;
  m_RawBytes : option bytes;
  m_IntentHistory : list SequencedIntent;
  m_MergeTimestamp : option LegacyTimestamp;
  m_TxnDidNotUpdateMeta : option bool
}.

Definition IsInline (m : MVCCMetadata) : bool := match m_RawBytes m with Some _ => true | None => false end.

Definition AddToIntentHistory (m : MVCCMetadata) (seq : Z) (val : bytes) : MVCCMetadata :=
  MkMetadata (m_Txn m) (m_Timestamp m) (m_Deleted m) (m_KeyBytes m) (m_ValBytes m) (m_RawBytes m)
    (m_IntentHistory m ++ [MkSequenced seq val]) (m_MergeTimestamp m) (m_TxnDidNotUpdateMeta m).

(** Each turn that goes on lowers [end_], so one more turn than there are entries is enough. *)
Fixpoint prev_intent_loop (fuel : nat) (h : list SequencedIntent) (seq : Z) (ignored : list IgnoredSeqNumRange)
    (end_ : nat) : res (option SequencedIntent) :=
  match fuel with
  | O => Panic "out of fuel"
  | S fuel =>
      let index := search_list (fun x => negb (h_Sequence x <? seq)) (take end_ h) in
      if (index =? 0)%nat then Ok None
      else
        let candidate := (index - 1)%nat in
        match h !! candidate with
        | None => Panic "index out of range"
        | Some x =>
            if TxnSeqIsIgnored (h_Sequence x) ignored then prev_intent_loop fuel h seq ignored candidate
            else Ok (Some x)
        end
  end.
Definition GetPrevIntentSeq (m : MVCCMetadata) (seq : Z) (ignored : list IgnoredSeqNumRange)
    : res (option SequencedIntent) :=
  let h := m_IntentHistory m in prev_intent_loop (S (length h)) h seq ignored (length h).

Definition GetIntentValue (m : MVCCMetadata) (seq : Z) : option bytes :=
  let h := m_IntentHistory m in
  let index := search_list (fun x => negb (h_Sequence x <? seq)) h in
  match h !! index with
  | Some x => if h_Sequence x =? seq then Some (h_Value x) else None
  | None => None
  end.

(** * Lemmas *)

(** What a [roachpb.Value] encodes to: nothing for a tombstone, else a checksum, a tag that is
    not the sentinel, and the data. *)
Definition value_bytes (raw : bytes) : Prop :=
  raw = [] \/ ((tagPos < length raw)%nat /\ nth tagPos raw 0 <> extendedEncodingSentinel).

Lemma nth_app_sentinel (a b : bytes) : length a = 4%nat -> nth tagPos (a ++ extendedEncodingSentinel :: b) 0 = extendedEncodingSentinel.
Proof. intros E. rewrite app_nth2, E by lia. done. Qed.

Lemma be4_u32 n : isU 31 n -> be_uint (be 4 (u32 n)) = n.
Proof.
  intros Hn. unfold be_uint. rewrite be_acc_u64, (wrapU_id 32) by (unfold isU in *; lia).
  apply Z.mod_small. unfold isU in *. lia.
Qed.

Lemma be4_head n rest : isU 31 n -> be_uint (take 4 (be 4 (u32 n) ++ rest)) = n.
Proof.
  intros Hn. rewrite take_app_le, take_ge by (by rewrite be_length). by apply be4_u32.
Qed.

Lemma put_at_app_eq (a b c src : bytes) i :
  i = length a -> length b = length src -> put_at (a ++ b ++ c) i src = Ok (a ++ src ++ c).
Proof. intros ->. apply put_at_app. Qed.

Lemma copy_at_end (a b src : bytes) i : i = length a -> length b = length src -> copy_at (a ++ b) i src = a ++ src.
Proof.
  intros -> E. unfold copy_at. rewrite take_app_length, length_app, take_ge, drop_ge, app_nil_r; [done|..];
    rewrite ?length_app; lia.
Qed.

Section Laws.
Context `{HeaderLaws} (simple_off : bool).

Lemma Encode_extended v :
  Header_IsEmpty (vHeader v) && negb simple_off = false ->
  let h := hdr_Marshal (vHeader v) in
  EncodeMVCCValue simple_off v =
  Ok (be 4 (u32 (Z.of_nat (length h))) ++ extendedEncodingSentinel :: h ++ RawBytes v).
Proof.
  intros E h. unfold EncodeMVCCValue. rewrite E. fold h. cbv zeta.
  set (raw := RawBytes v). set (l := be 4 _). assert (Ll : length l = 4%nat) by apply be_length.
  unfold make_bytes. replace (5 + length h + length raw)%nat with (4 + (1 + (length h + length raw)))%nat by lia.
  rewrite !replicate_add. rewrite put_at_0 by (by rewrite length_replicate). cbn [mbind res_bind].
  rewrite (put_at_app_eq l (replicate 1 0)) by done. cbn [mbind res_bind].
  rewrite (app_assoc l), (put_at_app_eq (l ++ _) (replicate (length h) 0))
    by (rewrite ?length_replicate, ?length_app, ?Ll; done).
  cbn [mbind res_bind]. f_equal. rewrite (app_assoc (l ++ _)), copy_at_end.
  - by rewrite <- !app_assoc.
  - rewrite !length_app, Ll. cbn. lia.
  - apply length_replicate.
Qed.

Lemma decodeExtended_enc h raw :
  ts_wf (LocalTimestamp h) ->
  let l := hdr_Marshal h in
  decodeExtendedMVCCValue (be 4 (u32 (Z.of_nat (length l))) ++ extendedEncodingSentinel :: l ++ raw) =
  Ok (MkMVCCValue h raw).
Proof.
  intros W l. pose proof (hdr_length h) as B. fold l in B. unfold decodeExtendedMVCCValue.
  rewrite be4_head, (wrapU_id 32 (5 + Z.of_nat (length l))) by (unfold isU in *; lia). cbv zeta.
  set (p := be 4 _). assert (Lp : length p = 4%nat) by apply be_length.
  rewrite (cons_middle _ p), app_assoc. set (q := p ++ [extendedEncodingSentinel]).
  assert (Lq : length q = 5%nat) by (unfold q; rewrite length_app, Lp; done).
  rewrite !length_app, Lq. destruct (Z.ltb_spec (Z.of_nat (5 + (length l + length raw))) (5 + Z.of_nat (length l))); [lia|].
  destruct (Z.ltb_spec (5 + Z.of_nat (length l)) 5); [lia|]. rewrite (slice_app q l) by lia.
  unfold l at 1. rewrite hdr_roundtrip by done. do 2 f_equal.
  replace (Z.to_nat _) with (length (q ++ l)) by (rewrite length_app; lia). by rewrite app_assoc, drop_app_length.
Qed.

Lemma decode_simple raw : value_bytes raw -> tryDecodeSimpleMVCCValue raw = Ok (Some (MkMVCCValue EmptyHeader raw)).
Proof.
  intros [->|[L N]]; [done|]. unfold tryDecodeSimpleMVCCValue.
  destruct (Nat.eqb_spec (length raw) 0); [lia|]. destruct (Nat.leb_spec (length raw) tagPos); [lia|].
  by destruct (Z.eqb_spec (nth tagPos raw 0) extendedEncodingSentinel).
Qed.

Lemma Header_IsEmpty_spec h : Header_IsEmpty h = true -> h = EmptyHeader.
Proof.
  destruct h as [[w l []]]; unfold Header_IsEmpty, Timestamp_IsEmpty; cbn; [by rewrite !andb_false_r|].
  rewrite andb_true_r. intros [->%Z.eqb_eq ->%Z.eqb_eq]%andb_prop. done.
Qed.

Lemma extended_not_simple (p b : bytes) :
  length p = 4%nat -> tryDecodeSimpleMVCCValue (p ++ extendedEncodingSentinel :: b) = Ok None.
Proof.
  intros L. unfold tryDecodeSimpleMVCCValue. rewrite length_app, L, nth_app_sentinel by done. done.
Qed.

(** An encoded value decodes to itself, in either encoding. *)
Lemma DecodeMVCCValue_enc v :
  ts_wf (LocalTimestamp (vHeader v)) -> value_bytes (RawBytes v) ->
  exists b, EncodeMVCCValue simple_off v = Ok b /\ DecodeMVCCValue b = Ok v /\
    Z.of_nat (length b) = encodedMVCCValueSize simple_off v /\
    EncodedMVCCValueIsTombstone b = Ok (MVCCValue_IsTombstone v).
Proof.
  intros W V. unfold DecodeMVCCValue, encodedMVCCValueSize. destruct v as [h raw]. cbn [RawBytes vHeader] in *.
  destruct (Header_IsEmpty h && negb simple_off) eqn:E.
  - apply andb_prop in E as [Eh Es]. exists raw. unfold EncodeMVCCValue. cbn [vHeader RawBytes].
    rewrite Eh, Es. cbn [andb]. apply Header_IsEmpty_spec in Eh as ->. rewrite decode_simple by done.
    repeat split. unfold EncodedMVCCValueIsTombstone, MVCCValue_IsTombstone. cbn [RawBytes].
    destruct V as [->|[L N]]; [done|]. destruct (Nat.eqb_spec (length raw) 0); [lia|].
    destruct (Nat.leb_spec (length raw) tagPos); [lia|]. by apply Z.eqb_neq in N as ->.
  - eexists. split; [by apply Encode_extended|]. cbn [vHeader RawBytes].
    pose proof (hdr_length h) as B. set (l := hdr_Marshal h) in *.
    assert (Lp : length (be 4 (u32 (Z.of_nat (length l)))) = 4%nat) by apply be_length.
    rewrite extended_not_simple by done. cbn [mbind res_bind]. split; [by apply decodeExtended_enc|].
    split; [rewrite length_app, Lp; cbn [length]; rewrite length_app; lia|].
    unfold EncodedMVCCValueIsTombstone. rewrite nth_app_sentinel, be4_head, (wrapU_id 32 (5 + Z.of_nat (length l))) by (done || unfold isU in *; lia).
    rewrite length_app, Lp. cbn [length]. rewrite length_app. cbn. unfold MVCCValue_IsTombstone. cbn [RawBytes].
    destruct (Z.ltb_spec (Z.of_nat (S (S (S (S (S (length l + length raw))))))) (5 + Z.of_nat (length l))); [lia|].
    f_equal. destruct (Nat.eqb_spec (length raw) 0), (Z.eqb_spec (Z.of_nat (S (S (S (S (S (length l + length raw)))))))
      (5 + Z.of_nat (length l))); lia || done.
Qed.
End Laws.

(** ** Ignored sequence numbers *)

(** Sorted, not overlapping and not contiguous, as the source keeps them. *)
Definition ignored_ok (l : list IgnoredSeqNumRange) : Prop :=
  Forall (fun r => i_Start r <= i_End r) l /\ StronglySorted (fun a b => i_End a < i_Start b) l.

Lemma ignored_loop_spec seq l :
  Forall (fun r => i_Start r <= i_End r) l -> StronglySorted (fun a b => i_End b < i_Start a) l ->
  ignored_loop seq l = existsb (fun r => (i_Start r <=? seq) && (seq <=? i_End r)) l.
Proof.
  intros F S. induction S as [|r l S IH Hr]; [done|]. apply Forall_cons in F as [F1 F]. cbn.
  rewrite (IH F). destruct (Z.ltb_spec seq (i_Start r)) as [L|L]; [by apply Z.leb_gt in L as ->|].
  apply Z.leb_le in L as ->. cbn.
  destruct (Z.ltb_spec (i_End r) seq) as [L2|L2]; [|by apply Z.leb_le in L2 as ->].
  pose proof L2 as ->%Z.leb_gt. cbn. symmetry.
  apply not_true_iff_false. rewrite existsb_exists. intros (x & Hx & Ex). rewrite Forall_forall in Hr.
  specialize (Hr x ltac:(by apply list_elem_of_In)). rewrite Forall_forall in F.
  specialize (F x ltac:(by apply list_elem_of_In)). cbn in F. lia.
Qed.

Lemma StronglySorted_rev {A} (R : A -> A -> Prop) l :
  StronglySorted R l -> StronglySorted (fun x y => R y x) (rev l).
Proof.
  induction 1 as [|x l S IH F]; [constructor|]. cbn. apply StronglySorted_app. split_and!; [|done|repeat constructor].
  intros y z Hy ->%list_elem_of_singleton. rewrite Forall_forall in F. apply F.
  apply list_elem_of_In, in_rev, list_elem_of_In, Hy.
Qed.

(** [TxnSeqIsIgnored] is membership in one of the ranges. *)
Lemma TxnSeqIsIgnored_spec seq l :
  ignored_ok l -> TxnSeqIsIgnored seq l = existsb (fun r => (i_Start r <=? seq) && (seq <=? i_End r)) l.
Proof.
  intros [F S]. unfold TxnSeqIsIgnored. rewrite ignored_loop_spec.
  - apply eq_true_iff_eq. rewrite !existsb_exists. by setoid_rewrite <- in_rev.
  - apply Forall_forall. intros r Hr. rewrite Forall_forall in F. apply F. apply list_elem_of_In, in_rev, list_elem_of_In, Hr.
  - by apply StronglySorted_rev.
Qed.

(** ** Intent histories *)

Definition history_ok (h : list SequencedIntent) : Prop := StronglySorted (fun a b => h_Sequence a < h_Sequence b) h.

Lemma at_least_up seq h : history_ok h -> upclosed (fun x => negb (h_Sequence x <? seq)) h.
Proof.
  intros S. eapply upclosed_impl; [|exact S]. cbn. intros x y L.
  destruct (Z.ltb_spec (h_Sequence x) seq), (Z.ltb_spec (h_Sequence y) seq); try done; lia.
Qed.

Lemma search_split {A} (p : A -> bool) l : upclosed p l ->
  exists k, search_list p l = k /\ (k <= length l)%nat /\
    Forall (fun x => p x = false) (take k l) /\ Forall (fun x => p x = true) (drop k l).
Proof. intros U. eexists. split; [done|]. apply search_list_spec. by apply upclosed_lookup. Qed.

(** The last entry below [seq] that is not ignored. *)
Lemma prev_intent_loop_spec fuel h seq ignored n :
  history_ok h -> (n < fuel)%nat -> (n <= length h)%nat ->
  prev_intent_loop fuel h seq ignored n =
  Ok (last (List.filter (fun x => (h_Sequence x <? seq) && negb (TxnSeqIsIgnored (h_Sequence x) ignored)) (take n h))).
Proof.
  intros S. revert n. induction fuel as [|fuel IH]; intros n Hf Hn; [lia|]. cbn [prev_intent_loop].
  set (p := fun x => negb (h_Sequence x <? seq)). set (q := fun x => _ && _).
  assert (St : history_ok (take n h)).
  { rewrite <- (take_drop n h) in S. by apply StronglySorted_app in S as (_ & ? & _). }
  destruct (search_split p _ (at_least_up seq _ St)) as (k & -> & Hk & F1 & F2).
  rewrite length_take in Hk. rewrite take_take, Nat.min_l in F1 by lia.
  assert (Eq : List.filter q (take n h) = List.filter q (take k h)).
  { rewrite <- (take_drop k (take n h)), List.filter_app, take_take, Nat.min_l by lia.
    rewrite (filter_none q (drop _ _)); [by rewrite app_nil_r|].
    eapply Forall_impl; [exact F2|]. unfold p, q. intros x Hx. apply negb_true_iff in Hx. by rewrite Hx. }
  rewrite Eq. destruct (Nat.eqb_spec k 0) as [->|Hk0]; [done|].
  destruct (lookup_lt_is_Some_2 h (k - 1)) as [x Ex]; [lia|]. rewrite Ex.
  assert (Et : take k h = take (k - 1) h ++ [x]).
  { replace k with (Datatypes.S (k - 1)) at 1 by lia. by apply take_S_r. }
  rewrite Et in *. apply Forall_app in F1 as [_ [Fx _]%Forall_cons].
  rewrite List.filter_app. cbn [List.filter]. unfold q at 2. unfold p in Fx. apply negb_false_iff in Fx. rewrite Fx. cbn [andb].
  destruct (TxnSeqIsIgnored (h_Sequence x) ignored); cbn [negb].
  - rewrite app_nil_r. apply IH; lia.
  - by rewrite last_snoc.
Qed.

Lemma GetIntentValue_spec m seq :
  history_ok (m_IntentHistory m) ->
  forall v, GetIntentValue m seq = Some v <-> MkSequenced seq v ∈ m_IntentHistory m.
Proof.
  intros S v. unfold GetIntentValue. set (h := m_IntentHistory m) in *.
  destruct (search_split _ _ (at_least_up seq _ S)) as (k & -> & Hk & F1 & F2).
  split.
  - destruct (h !! k) as [[s w]|] eqn:E; [|done]. cbn. destruct (Z.eqb_spec s seq) as [->|]; [|done].
    intros [= ->]. by eapply list_elem_of_lookup_2.
  - intros Hin. rewrite <- (take_drop k h), elem_of_app in Hin. destruct Hin as [Hin|Hin].
    { rewrite Forall_forall in F1. specialize (F1 _ Hin). cbn in F1. rewrite Z.ltb_irrefl in F1. done. }
    destruct (drop k h) as [|x l] eqn:E; [by apply elem_of_nil in Hin|].
    assert (h !! k = Some x) as -> by (rewrite <- (Nat.add_0_r k), <- lookup_drop, E; done).
    rewrite <- (take_drop k h), E in S. apply StronglySorted_app in S as (_ & _ & S).
    apply StronglySorted_inv in S as [_ S]. apply Forall_cons in F2 as [Fx _]. cbn in Fx.
    apply elem_of_cons in Hin as [<-|Hin]; [cbn; by rewrite Z.eqb_refl|].
    rewrite Forall_forall in S. specialize (S _ Hin). cbn in S. destruct (Z.ltb_spec (h_Sequence x) seq); [done|lia].
Qed.

(** * Theorems *)

(** Versioned values round-trip in both encodings: the encoded size is the one computed in
    advance, [DecodeMVCCValue] gives the value with its header back, and the tombstone test on
    the encoding agrees with the one on the value. *)
Theorem mvcc_value_roundtrip `{HeaderLaws} simple_off v :
  ts_wf (LocalTimestamp (vHeader v)) -> value_bytes (RawBytes v) ->
  exists b, EncodeMVCCValue simple_off v = Ok b /\ DecodeMVCCValue b = Ok v /\
    Z.of_nat (length b) = encodedMVCCValueSize simple_off v /\
    EncodedMVCCValueIsTombstone b = Ok (MVCCValue_IsTombstone v).
Proof. apply DecodeMVCCValue_enc. Qed.

(** A marshalling that has the laws: the bytes of the timestamp. *)
#[local] Instance sample_HeaderLib : HeaderLib := {|
  hdr_Marshal h := ts_body (LocalTimestamp h);
  hdr_Unmarshal b := t ← decodeMVCCTimestamp b; Ok (MkHeader t)
|}.
#[local] Instance sample_HeaderLaws : HeaderLaws.
Proof.
  split.
  - intros [t] W. cbn [hdr_Unmarshal hdr_Marshal sample_HeaderLib LocalTimestamp] in *. by rewrite decode_body.
  - intros h. cbn [hdr_Marshal sample_HeaderLib]. pose proof (ts_body_bound (LocalTimestamp h)). unfold isU. lia.
Qed.

Lemma mvcc_value_roundtrip_witness :
  exists b, EncodeMVCCValue false (MkMVCCValue (MkHeader (MkTimestamp 7 2 false)) []) = Ok b /\
    DecodeMVCCValue b = Ok (MkMVCCValue (MkHeader (MkTimestamp 7 2 false)) []) /\
    EncodedMVCCValueIsTombstone b = Ok true.
Proof.
  destruct (mvcc_value_roundtrip false (MkMVCCValue (MkHeader (MkTimestamp 7 2 false)) [])) as (b & E & D & _ & T).
  - split; unfold isS; cbn; lia.
  - by left.
  - by exists b.
Defined.

(** Reading an intent's history: with sorted histories and sorted disjoint ignored ranges, a
    sequence number is ignored when a range contains it, [GetPrevIntentSeq] finds the last entry
    below the given sequence that is not ignored, and [GetIntentValue] the entry written at it. *)
Theorem intent_history m seq ignored :
  history_ok (m_IntentHistory m) -> ignored_ok ignored ->
  TxnSeqIsIgnored seq ignored = existsb (fun r => (i_Start r <=? seq) && (seq <=? i_End r)) ignored /\
  GetPrevIntentSeq m seq ignored =
    Ok (last (List.filter (fun x => (h_Sequence x <? seq) && negb (TxnSeqIsIgnored (h_Sequence x) ignored))
                (m_IntentHistory m))) /\
  forall v, GetIntentValue m seq = Some v <-> MkSequenced seq v ∈ m_IntentHistory m.
Proof.
  intros S I. split; [by apply TxnSeqIsIgnored_spec|]. split; [|by apply GetIntentValue_spec].
  unfold GetPrevIntentSeq. rewrite prev_intent_loop_spec by (done || lia). by rewrite take_ge.
Qed.

Definition sample_meta : MVCCMetadata :=
  MkMetadata None (MkLegacyTimestamp 0 0 None) false 0 0 None
    [MkSequenced 1 [10]; MkSequenced 3 [30]; MkSequenced 5 [50]] None None.

Lemma intent_history_witness :
  GetPrevIntentSeq sample_meta 5 [MkIgnored 2 3] = Ok (Some (MkSequenced 1 [10])) /\
  GetIntentValue sample_meta 3 = Some [30].
Proof.
  destruct (intent_history sample_meta 5 [MkIgnored 2 3]) as (_ & E & _); [repeat constructor|repeat constructor; cbn; lia|].
  destruct (intent_history sample_meta 3 [MkIgnored 2 3]) as (_ & _ & G); [repeat constructor|repeat constructor; cbn; lia|].
  split; [exact E|]. apply G. cbn. set_solver.
Defined.

(** A header length near the largest 32-bit integer wraps: decoding panics, and the tombstone
    test, which makes the same addition, answers. *)
Theorem corrupt_header_length `{HeaderLib} rest :
  decodeExtendedMVCCValue ([255; 255; 255; 255] ++ extendedEncodingSentinel :: rest) =
    Panic "slice bounds out of range" /\
  EncodedMVCCValueIsTombstone ([255; 255; 255; 255] ++ extendedEncodingSentinel :: rest) = Ok false.
Proof.
  unfold decodeExtendedMVCCValue, EncodedMVCCValueIsTombstone.
  change (take 4 (_ ++ _)) with [255; 255; 255; 255].
  change (u32 (5 + be_uint [255; 255; 255; 255])) with 4. cbn [length app Nat.eqb Nat.leb nth negb].
  split.
  - destruct (Z.ltb_spec (Z.of_nat (S (S (S (S (S (length rest))))))) 4); [lia|done].
  - destruct (Z.ltb_spec (Z.of_nat (S (S (S (S (S (length rest))))))) 4); [lia|].
    cbv beta zeta. cbn. f_equal. apply Z.eqb_neq. lia.
Qed.
