(* ===== verification/MvccIter.v ===== *)
(** The iterator over versioned keys (src/pkg/storage/engine.go: [SimpleMVCCIterator] and
    [MVCCIterator]).

    [MVCCIterator] is the interface a scanner uses.  The implementations run over Pebble, which
    is not in the repository, so what they do is stated as laws: the documented behaviour is a
    reference iterator over a snapshot, the sequence of positions with their point values and
    the stacks of range keys, and an implementation is one whose operations commute with the
    reference's.  The reference iterator is executable and has the laws itself. *)
From stdpp Require Import sorting.
From S2P Require Import Prelude Bytes GoLib Hlc KeyOps Spans MvccKey RangeKeys.

(** [Valid] is [Err] for an iterator that failed; [UnsafeLazyValue] is the outcome of fetching
    the value. *)
Class MVCCIterator (It : Type) := {
  SeekGE : It -> MVCCKey -> It;
  SeekLT : It -> MVCCKey -> It;
  Next : It -> It;
  Prev : It -> It;
  NextKey : It -> It;
  Valid : It -> res bool;
  UnsafeKey : It -> MVCCKey;
  UnsafeRawMVCCKey : It -> bytes;
  UnsafeLazyValue : It -> res bytes;
  HasPointAndRange : It -> bool * bool;
  it_RangeKeys : It -> MVCCRangeKeyStack;
  RangeKeyChanged : It -> bool
}.

(** * Snapshots

    A position is a point key with its value, or a bare range key ([None]). *)
Record pos := MkPos { q_key : MVCCKey; q_val : option bytes }.
Record snapshot := MkSnapshot { positions : list pos; stacks : list MVCCRangeKeyStack }.

Definition q_user (q : pos) : bytes := k_Key (q_key q).
Definition q_ts (q : pos) : Timestamp := k_Timestamp (q_key q).
Definition has_point (q : pos) : bool := match q_val q with Some _ => true | None => false end.

Definition EmptyStack : MVCCRangeKeyStack := MkStack (MkSpan [] None) [].

(** The range keys that cover a key. *)
Definition stack_at (db : snapshot) (key : bytes) : MVCCRangeKeyStack :=
  match List.find (fun s => Span_ContainsKey (Bounds s) key) (stacks db) with
  | Some s => s
  | None => EmptyStack
  end.

#[export] Instance Span_eq_dec : EqDecision Span.
Proof. solve_decision. Defined.
#[export] Instance Version_eq_dec : EqDecision MVCCRangeKeyVersion.
Proof. solve_decision. Defined.
#[export] Instance Stack_eq_dec : EqDecision MVCCRangeKeyStack.
Proof. solve_decision. Defined.

(** * The reference iterator *)

(** Exhausted at the beginning or at the end, or at a position. *)
Inductive cursor := Lo | Hi | At (q : pos).
Record ref := MkRef { r_cur : cursor; r_changed : bool }.

Section Ref.
Context (db : snapshot).

Definition cursor_stack (c : cursor) : MVCCRangeKeyStack :=
  match c with At q => stack_at db (q_user q) | _ => EmptyStack end.

Definition move (r : ref) (c : cursor) : ref :=
  MkRef c (negb (bool_decide (cursor_stack (r_cur r) = cursor_stack c))).

Definition or_hi (o : option pos) : cursor := match o with Some q => At q | None => Hi end.
Definition or_lo (o : option pos) : cursor := match o with Some q => At q | None => Lo end.

Definition first_ge (k : MVCCKey) : option pos :=
  List.find (fun q => negb (MVCCKey_Less (q_key q) k)) (positions db).
Definition first_gt (k : MVCCKey) : option pos :=
  List.find (fun q => MVCCKey_Less k (q_key q)) (positions db).
Definition last_lt (k : MVCCKey) : option pos :=
  List.find (fun q => MVCCKey_Less (q_key q) k) (rev (positions db)).
Definition first_key_gt (key : bytes) : option pos :=
  List.find (fun q => bltb key (q_user q)) (positions db).

(** Inside a range key the seek stays at the seek key, unless a point is there. *)
Definition seek_ge (k : MVCCKey) : cursor :=
  if negb (Stack_IsEmpty (stack_at db (k_Key k))) &&
     negb (existsb (fun q => MVCCKey_Equal (q_key q) k) (positions db))
  then At (MkPos k None)
  else or_hi (first_ge k).

Definition ref_SeekGE (r : ref) (k : MVCCKey) : ref := move r (seek_ge k).
Definition ref_SeekLT (r : ref) (k : MVCCKey) : ref := move r (or_lo (last_lt k)).
Definition ref_Next (r : ref) : ref :=
  match r_cur r with
  | At q => move r (or_hi (first_gt (q_key q)))
  | Lo => move r (or_hi (head (positions db)))
  | Hi => move r Hi
  end.
Definition ref_Prev (r : ref) : ref :=
  match r_cur r with
  | At q => move r (or_lo (last_lt (q_key q)))
  | Hi => move r (or_lo (last (positions db)))
  | Lo => move r Lo
  end.
Definition ref_NextKey (r : ref) : ref :=
  match r_cur r with
  | At q => move r (or_hi (first_key_gt (q_user q)))
  | Lo => move r (or_hi (head (positions db)))
  | Hi => move r Hi
  end.

Definition is_at (r : ref) : bool := match r_cur r with At _ => true | _ => false end.

Definition ref_iterator : MVCCIterator ref := {|
  SeekGE := ref_SeekGE;
  SeekLT := ref_SeekLT;
  Next := ref_Next;
  Prev := ref_Prev;
  NextKey := ref_NextKey;
  Valid r := Ok (is_at r);
  UnsafeKey r := match r_cur r with At q => q_key q | _ => MkMVCCKey [] EmptyTimestamp end;
  UnsafeRawMVCCKey r :=
    match r_cur r with
    | At q => match EncodeMVCCKey (q_key q) with Ok b => b | _ => [] end
    | _ => []
    end;
  UnsafeLazyValue r := match r_cur r with At q => Ok (default [] (q_val q)) | _ => Ok [] end;
  HasPointAndRange r :=
    match r_cur r with At q => (has_point q, negb (Stack_IsEmpty (stack_at db (q_user q)))) | _ => (false, false) end;
  it_RangeKeys r := cursor_stack (r_cur r);
  RangeKeyChanged := r_changed
|}.
End Ref.

(** * The laws of an implementation

    [it_abs] is where an iterator stands.  Steps are only specified where the documentation
    does: [Next] also repositions an iterator that has run off the beginning. *)
Class IteratorLaws {It} (M : MVCCIterator It) (db : snapshot) := {
  it_abs : It -> ref;
  it_SeekGE it k : it_abs (SeekGE it k) = ref_SeekGE db (it_abs it) k;
  it_SeekLT it k : it_abs (SeekLT it k) = ref_SeekLT db (it_abs it) k;
  it_Next it : r_cur (it_abs it) <> Hi -> it_abs (Next it) = ref_Next db (it_abs it);
  it_Prev it : r_cur (it_abs it) <> Lo -> it_abs (Prev it) = ref_Prev db (it_abs it);
  it_NextKey it : is_at (it_abs it) = true -> it_abs (NextKey it) = ref_NextKey db (it_abs it);
  it_Valid it : Valid it = Ok (is_at (it_abs it));
  it_UnsafeKey it q : r_cur (it_abs it) = At q -> UnsafeKey it = q_key q;
  it_UnsafeRawMVCCKey it q : r_cur (it_abs it) = At q -> EncodeMVCCKey (q_key q) = Ok (UnsafeRawMVCCKey it);
  it_UnsafeLazyValue it q v : r_cur (it_abs it) = At q -> q_val q = Some v -> UnsafeLazyValue it = Ok v;
  it_HasPointAndRange it q :
    r_cur (it_abs it) = At q ->
    HasPointAndRange it = (has_point q, negb (Stack_IsEmpty (stack_at db (q_user q))));
  it_RangeKeys_at it q : r_cur (it_abs it) = At q -> it_RangeKeys it = stack_at db (q_user q);
  it_RangeKeyChanged it : is_at (it_abs it) = true -> RangeKeyChanged it = r_changed (it_abs it)
}.

#[export] Instance ref_laws db : IteratorLaws (ref_iterator db) db.
Proof.
  refine {| it_abs := fun r => r |}; try done.
  - intros it q E. cbn. by rewrite E.
  - intros it q E. cbn. rewrite E. by rewrite EncodeMVCCKey_eq.
  - intros it q v E V. cbn. rewrite E. cbn. by rewrite V.
  - intros it q E. cbn. by rewrite E.
  - intros it q E. cbn. by rewrite E.
Defined.

(** * Well-formed snapshots *)

Definition q_lt (a b : pos) : Prop := MVCCKey_Less (q_key a) (q_key b) = true.

(** Versions are above the zero timestamp; the metadata of a key has the zero timestamp. *)
Definition ts_pos (t : Timestamp) : Prop := ts_wf t /\ lt_ts EmptyTimestamp t /\ 0 <= Logical t.
Definition q_ok (q : pos) : Prop := q_user q <> [] /\ (q_ts q = EmptyTimestamp \/ ts_pos (q_ts q)).

Definition stack_ok (s : MVCCRangeKeyStack) : Prop :=
  Versions s <> [] /\ newest_first (Versions s) /\ Forall (fun v => ts_pos (v_Timestamp v)) (Versions s).

(** Bare positions are the start keys of stacks, and every stack starts at a position.  Under a
    range key, the metadata of a key is that of an intent, which has its provisional value: inline
    values are not written there. *)
Record snapshot_ok (db : snapshot) : Prop := {
  ok_sorted : StronglySorted q_lt (positions db);
  ok_pos : Forall q_ok (positions db);
  ok_stacks : Forall stack_ok (stacks db);
  ok_bare q : q ∈ positions db -> q_val q = None ->
    q_ts q = EmptyTimestamp /\ Key (Bounds (stack_at db (q_user q))) = q_user q /\
    Stack_IsEmpty (stack_at db (q_user q)) = false;
  ok_start s : s ∈ stacks db -> exists q, q ∈ positions db /\ q_key q = MkMVCCKey (Key (Bounds s)) EmptyTimestamp;
  ok_meta w : w ∈ positions db -> has_point w = true -> q_ts w = EmptyTimestamp ->
    Stack_IsEmpty (stack_at db (q_user w)) = false ->
    exists x, x ∈ positions db /\ q_user x = q_user w /\ q_ts x <> EmptyTimestamp
}.
