(* ===== verification/Scanner.v ===== *)
(** The MVCC scanner (src/pkg/storage/pebble_mvcc_scanner.go).

    [pebbleMVCCScanner] reads the versions of keys through an [MVCCIterator] and puts what a
    reader at a timestamp sees into its results: it picks the version of each key, consults
    intents, range tombstones, the uncertainty interval and the lock table, keeps to limits,
    and in reverse peeks backwards for the newest version of a key.  It adapts how many steps
    it takes before it seeks.  This file has the definitions; what a scan computes is proved in
    the files that follow.

    Methods that touch the iterator are functions on [scanner]; those that only touch what has
    been collected are functions on its part [out].  A method that returns [false] after setting
    [p.err] does so here too, and [Panic] is a panic of the source.  The buffers that the source
    reuses for keys ([keyBuf], [savedBuf], [savedRangeKeys], [lazyValueBuf]) are values here.
    Loops that are not bounded by a counter take [fuel]. *)
From S2P Require Import Prelude Bytes GoLib Hlc KeyOps Spans MvccKey RangeKeys MvccValue MvccIter.

Inductive ResumeReason := RESUME_UNKNOWN | RESUME_KEY_LIMIT | RESUME_BYTE_LIMIT | RESUME_INTENT_LIMIT.

Definition no_reason (r : ResumeReason) : bool := match r with RESUME_UNKNOWN => true | _ => false end.

Inductive scan_error :=
  | WriteTooOldError (ts actual : Timestamp) (key : bytes)
  | ReadWithinUncertaintyIntervalError (readTs : Timestamp) (localLimit : ClockTimestamp)
      (valueTs : Timestamp) (localTs : ClockTimestamp)
  | ScanError (msg : string).

(** The part of [roachpb.Transaction] that reads and writes use. *)
Record Transaction := MkTransaction { tx_Meta : TxnMeta; tx_ReadTimestamp : Timestamp; tx_IgnoredSeqNums : list IgnoredSeqNumRange }.

Inductive Strength := StrengthNone | StrengthExclusive.

(** What the scanner calls: the memory account, Pebble's batch of intents, the generated
    marshalling code, and the view of the lock table. *)
Class ScanLib := {
  scan_HeaderLib :: HeaderLib;
  account : Type;
  Grow : account -> Z -> res account;
  batch : Type;
  batch_empty : batch;
  batch_Set : batch -> bytes -> bytes -> res batch;
  batch_Count : batch -> Z;
  UnmarshalMeta : bytes -> res MVCCMetadata;
  MarshalMeta : MVCCMetadata -> res bytes;
  IsKeyLockedByConflictingTxn : bytes -> Strength -> bool * option TxnMeta
}.

(** The interface of a result set. *)
Class Results `{ScanLib} (R : Type) := {
  r_clear : R -> R;
  r_sizeInfo : R -> Z -> Z -> Z * Z * Z;
  r_put : R -> account -> bytes -> bytes -> Z -> res (R * account);
  r_continuesFirstRow : R -> bytes -> res bool;
  r_maybeTrimPartialLastRow : R -> bytes -> res (R * option bytes);
  r_lastRowHasFinalColumnFamily : R -> bool -> res bool;
  r_lastOffsetsEnabled : R -> bool
}.

(** The fields that do not change during a scan. *)
Record config := MkConfig {
  c_reverse : bool;
  c_start : bytes;
  c_end : bytes;
  c_ts : Timestamp;
  c_maxKeys : Z;
  c_targetBytes : Z;
  c_allowEmpty : bool;
  c_wholeRows : bool;
  c_maxIntents : Z;
  c_txn : option Transaction;
  c_uncertainty : Interval;
  c_inconsistent : bool;
  c_skipLocked : bool;
  c_tombstones : bool;
  c_failOnMoreRecent : bool;
  c_maxItersBeforeSeek : Z
}.

Definition txnEpoch (c : config) : Z := match c_txn c with Some t => t_Epoch (tx_Meta t) | None => 0 end.
Definition txnSequence (c : config) : Z := match c_txn c with Some t => t_Sequence (tx_Meta t) | None => 0 end.
Definition txnIgnoredSeqNums (c : config) : list IgnoredSeqNumRange :=
  match c_txn c with Some t => tx_IgnoredSeqNums t | None => [] end.
Definition checkUncertainty (c : config) : bool := Timestamp_Less (c_ts c) (GlobalLimit (c_uncertainty c)).

Inductive advanceFn :=
  | advanceKeyForwardFn | advanceKeyAtEndForwardFn | advanceKeyAtNewKeyForwardFn
  | advanceKeyReverseFn | advanceKeyAtEndReverseFn | advanceKeyAtNewKeyReverseFn | noAdvanceFn.

Section Scanner.
Context `{L : ScanLib} {R : Type} `{!Results R}.

(** * What a scan collects *)

Record out := MkOut {
  results : R;
  intents : batch;
  memAccount : account;
  curUnsafeValue : MVCCValue;
  mostRecentTS : Timestamp;
  mostRecentKey : bytes;
  err : option scan_error;
  resumeReason : ResumeReason;
  resumeKey : bytes;
  resumeNextBytes : Z
}.

Definition set_err (o : out) (e : option scan_error) : out :=
  MkOut (results o) (intents o) (memAccount o) (curUnsafeValue o) (mostRecentTS o) (mostRecentKey o) e
    (resumeReason o) (resumeKey o) (resumeNextBytes o).
Definition set_results (o : out) (r : R) (a : account) : out :=
  MkOut r (intents o) a (curUnsafeValue o) (mostRecentTS o) (mostRecentKey o) (err o)
    (resumeReason o) (resumeKey o) (resumeNextBytes o).
Definition set_intents (o : out) (b : batch) (a : account) : out :=
  MkOut (results o) b a (curUnsafeValue o) (mostRecentTS o) (mostRecentKey o) (err o)
    (resumeReason o) (resumeKey o) (resumeNextBytes o).
Definition set_value (o : out) (v : MVCCValue) (e : option scan_error) : out :=
  MkOut (results o) (intents o) (memAccount o) v (mostRecentTS o) (mostRecentKey o) e
    (resumeReason o) (resumeKey o) (resumeNextBytes o).
Definition set_recent (o : out) (t : Timestamp) (k : bytes) : out :=
  MkOut (results o) (intents o) (memAccount o) (curUnsafeValue o) t k (err o)
    (resumeReason o) (resumeKey o) (resumeNextBytes o).
Definition set_resume (o : out) (r : ResumeReason) (k : bytes) (n : Z) : out :=
  MkOut (results o) (intents o) (memAccount o) (curUnsafeValue o) (mostRecentTS o) (mostRecentKey o) (err o) r k n.

(** The record the scanner points at. *)
Record cur := MkCur {
  curUnsafeKey : MVCCKey;
  curRawKey : bytes;
  curRawValue : res bytes;
  curRangeKeys : MVCCRangeKeyStack
}.

(** [p.results.clear()] and [p.intents.Reset()]. *)
Definition discard (o : out) : out := set_intents (set_results o (r_clear (results o)) (memAccount o)) batch_empty (memAccount o).

Definition has_err (o : out) : bool := match err o with Some _ => true | None => false end.

Section Config.
Context (c : config).

Definition maybeFailOnMoreRecent (o : out) : res out :=
  if has_err o || Timestamp_IsEmpty (mostRecentTS o) then Ok o
  else
    actual ← Timestamp_Next (mostRecentTS o);
    Ok (discard (set_err o (Some (WriteTooOldError (c_ts c) actual (mostRecentKey o))))).

Definition uncertaintyError (o : out) (valueTs : Timestamp) (localTs : ClockTimestamp) : out :=
  discard (set_err o (Some (ReadWithinUncertaintyIntervalError (c_ts c) (LocalLimit (c_uncertainty c)) valueTs localTs))).

(** [p.mostRecentTS.Forward(ts)], and the key if none is recorded. *)
Definition record_recent (o : out) (t : Timestamp) (key : bytes) : out :=
  set_recent o (Timestamp_Forward (mostRecentTS o) t).1
    (if (length (mostRecentKey o) =? 0)%nat then key else mostRecentKey o).

Definition IncludeStartKeyIntoErr (e : string) : scan_error := ScanError ("scan with start key: " ++ e)%string.

Definition addRawIntent (o : out) (key value : bytes) : res (out * bool) :=
  match Grow (memAccount o) (Z.of_nat (length key + length value)) with
  | Err e => Ok (set_err o (Some (IncludeStartKeyIntoErr e)), false)
  | Panic e => Panic e
  | Ok a =>
      match batch_Set (intents o) key value with
      | Ok b => Ok (set_err (set_intents o b a) None, true)
      | Err e => Ok (set_err (set_intents o (intents o) a) (Some (ScanError e)), false)
      | Panic e => Panic e
      end
  end.

Definition addKeyAndMetaAsIntent (o : out) (key : bytes) (txn : TxnMeta) : res (out * bool) :=
  encodedKey ← EncodeMVCCKey (MakeMVCCMetadataKey key);
  match MarshalMeta (MkMetadata (Some txn) (MkLegacyTimestamp 0 0 None) false 0 0 None [] None None) with
  | Ok encodedVal => addRawIntent o encodedKey encodedVal
  | Err e => Ok (set_err o (Some (ScanError e)), false)
  | Panic e => Panic e
  end.

Definition intents_room (o : out) : bool := (c_maxIntents c =? 0) || (batch_Count (intents o) <? c_maxIntents c).

(** The collected state, whether the key is locked, and whether there was no error. *)
Definition isKeyLockedByConflictingTxn (o : out) (rawKey : bytes) : res (out * (bool * bool)) :=
  match DecodeKey rawKey with
  | Panic e => Panic e
  | Err e => Ok (set_err o (Some (ScanError e)), (false, false))
  | Ok (key, _) =>
      let strength := if c_failOnMoreRecent c then StrengthExclusive else StrengthNone in
      match IsKeyLockedByConflictingTxn key strength with
      | (true, Some txn) =>
          if intents_room o then
            '(o, ok) ← addKeyAndMetaAsIntent o key txn;
            if negb ok then Ok (o, (false, false)) else Ok (o, (true, true))
          else Ok (o, (true, true))
      | (true, None) => Ok (o, (true, true))
      | (false, _) => Ok (o, (false, true))
      end
  end.

(** The collected state, [ok] and [added]. *)
Definition add (o : out) (key rawKey rawValue : bytes) : res (out * (bool * bool)) :=
  if (length rawValue =? 0)%nat && negb (c_tombstones c) then Ok (o, (true, false))
  else
    '(o, (locked, ok)) ← (if c_skipLocked c then isKeyLockedByConflictingTxn o rawKey else Ok (o, (false, true)));
    if negb ok then Ok (o, (false, false))
    else if (locked : bool) then Ok (o, (true, false))
    else
      let '(numKeys, numBytes, numBytesInc) :=
        r_sizeInfo (results o) (Z.of_nat (length rawKey)) (Z.of_nat (length rawValue)) in
      let o :=
        if (0 <? c_targetBytes c) && (c_targetBytes c <? numBytes + numBytesInc)
        then set_resume o RESUME_BYTE_LIMIT (resumeKey o) numBytesInc
        else if (0 <? c_maxKeys c) && (c_maxKeys c <=? numKeys)
        then set_resume o RESUME_KEY_LIMIT (resumeKey o) (resumeNextBytes o)
        else o in
      continues ← (if negb (no_reason (resumeReason o)) && negb (c_allowEmpty c) && negb (numKeys =? 0) && c_wholeRows c
                   then r_continuesFirstRow (results o) key else Ok false);
      let mustPutKey :=
        negb (no_reason (resumeReason o)) && negb (c_allowEmpty c) && ((numKeys =? 0) || continues) in
      if negb (no_reason (resumeReason o)) && negb mustPutKey then
        let o := set_resume o (resumeReason o) key (resumeNextBytes o) in
        if c_wholeRows c then
          match r_maybeTrimPartialLastRow (results o) key with
          | Panic e => Panic e
          | Err e => Ok (set_err o (Some (ScanError e)), (false, false))
          | Ok (r, trimmedKey) =>
              let o := set_results o r (memAccount o) in
              Ok (match trimmedKey with
                  | Some k => set_resume o (resumeReason o) k (resumeNextBytes o)
                  | None => o
                  end, (false, false))
          end
        else Ok (o, (false, false))
      else
        let o := if mustPutKey then set_resume o RESUME_UNKNOWN (resumeKey o) 0 else o in
        let maxNewSize :=
          if (0 <? c_targetBytes c) && (numBytes <? c_targetBytes c) && negb mustPutKey
          then c_targetBytes c - numBytes else 0 in
        match r_put (results o) (memAccount o) rawKey rawValue maxNewSize with
        | Panic e => Panic e
        | Err e => Ok (set_err o (Some (IncludeStartKeyIntoErr e)), (false, false))
        | Ok (r, a) =>
            let o := set_results o r a in
            let numKeys := numKeys + 1 in
            if (0 <? c_maxKeys c) && (c_maxKeys c <=? numKeys) then
              final ← (if negb (c_wholeRows c) then Ok true else r_lastRowHasFinalColumnFamily (results o) (c_reverse c));
              if (final : bool) then Ok (set_resume o RESUME_KEY_LIMIT (resumeKey o) (resumeNextBytes o), (false, true))
              else Ok (o, (true, true))
            else Ok (o, (true, true))
        end.

Definition addSynthetic (o : out) (key : bytes) (version : MVCCRangeKeyVersion) : res (out * (bool * bool)) :=
  keyBuf ← EncodeMVCCKeyToBuf [] (MkMVCCKey key (v_Timestamp version));
  match DecodeMVCCValue (v_Value version) with
  | Panic e => Panic e
  | Err e => Ok (set_err o (Some (ScanError e)), (false, false))
  | Ok value => add (set_err o None) key keyBuf (RawBytes value)
  end.

(** The loop over the versions of newly met range keys. *)
Fixpoint range_uncertainty (o : out) (versions : list MVCCRangeKeyVersion) : res (out * bool) :=
  match versions with
  | [] => Ok (o, true)
  | version :: versions =>
      if Timestamp_LessEq (v_Timestamp version) (c_ts c) then Ok (o, true)
      else
        match DecodeMVCCValue (v_Value version) with
        | Panic e => Panic e
        | Err e => Ok (set_err o (Some (ScanError e)), false)
        | Ok value =>
            let o := set_err o None in
            let localTS := GetLocalTimestamp value (v_Timestamp version) in
            unc ← IsUncertain (c_uncertainty c) (v_Timestamp version) localTS;
            if (unc : bool) then Ok (uncertaintyError o (v_Timestamp version) localTS, false)
            else range_uncertainty o versions
        end
  end.

(** The checks that [processRangeKeys] makes on newly met range keys at a position. *)
Definition check_range_keys (o : out) (hasPoint : bool) (key : MVCCKey) (st : MVCCRangeKeyStack) : res (out * bool) :=
  let o :=
    if c_failOnMoreRecent c && (negb hasPoint || negb (Timestamp_IsEmpty (k_Timestamp key))) &&
       Timestamp_LessEq (c_ts c) (Versions_Newest (Versions st))
    then record_recent o (Versions_Newest (Versions st)) (k_Key key) else o in
  if checkUncertainty c then range_uncertainty o (Versions st) else Ok (o, true).

(** * Reading a record *)

Definition getFromLazyValue (o : out) (k : cur) : res (out * option bytes) :=
  match curRawValue k with
  | Ok v => Ok (o, Some v)
  | Err e => Ok (set_err o (Some (ScanError e)), None)
  | Panic e => Panic e
  end.

(** [tryDecodeCurrentValueSimple], then [decodeCurrentValueExtended] if need be. *)
Definition decodeCurrentValue (o : out) (v : bytes) : res (out * bool) :=
  match DecodeMVCCValue v with
  | Ok value => Ok (set_value o value None, true)
  | Err e => Ok (set_value o EmptyValue (Some (ScanError e)), false)
  | Panic e => Panic e
  end.

Definition doCoveredByRangeKey (k : cur) (ts : Timestamp) : option MVCCRangeKeyVersion :=
  let vs := Versions (curRangeKeys k) in
  if c_tombstones c || Timestamp_LessEq ts (Versions_Newest vs) then
    match Versions_FirstAtOrBelow vs (c_ts c) with
    | Some rkv => if Timestamp_LessEq ts (v_Timestamp rkv) then Some rkv else None
    | None => None
    end
  else None.
Definition coveredByRangeKey (k : cur) (ts : Timestamp) : option MVCCRangeKeyVersion :=
  if (0 <? length (Versions (curRangeKeys k)))%nat then doCoveredByRangeKey k ts else None.

Definition add_current (o : out) (k : cur) : res (out * (bool * bool)) :=
  add o (k_Key (curUnsafeKey k)) (curRawKey k) (RawBytes (curUnsafeValue o)).

(** What both loops of [seekVersion] do at a version at or below the seek timestamp: [None]
    when the loop goes on. *)
Definition seek_candidate (o : out) (k : cur) (uncertaintyCheck : bool) : res (out * option (bool * bool)) :=
  '(o, v) ← getFromLazyValue o k;
  match v with
  | None => Ok (o, Some (false, false))
  | Some v =>
      '(o, valid) ← decodeCurrentValue o v;
      if negb valid then Ok (o, Some (false, false))
      else
        let ts := k_Timestamp (curUnsafeKey k) in
        if negb uncertaintyCheck || Timestamp_LessEq ts (c_ts c) then
          '(o, r) ← match coveredByRangeKey k ts with
                    | Some rkv => addSynthetic o (k_Key (curUnsafeKey k)) rkv
                    | None => add_current o k
                    end;
          Ok (o, Some r)
        else
          let localTS := GetLocalTimestamp (curUnsafeValue o) ts in
          unc ← IsUncertain (c_uncertainty c) ts localTS;
          if (unc : bool) then Ok (uncertaintyError o ts localTS, Some (false, false)) else Ok (o, None)
  end.

(** Back from an index over ignored entries of the history. *)
Fixpoint history_back (h : list SequencedIntent) (upIdx : nat) : option bytes :=
  match upIdx with
  | O => None
  | S i =>
      match h !! i with
      | Some x => if TxnSeqIsIgnored (h_Sequence x) (txnIgnoredSeqNums c) then history_back h i else Some (h_Value x)
      | None => None
      end
  end.
Definition getFromIntentHistory (meta : MVCCMetadata) : option bytes :=
  let h := m_IntentHistory meta in
  history_back h (search_list (fun x => txnSequence c <? h_Sequence x) h).

Definition addCurIntent (o : out) (k : cur) : res (out * bool) :=
  '(o, v) ← getFromLazyValue o k;
  match v with
  | None => Ok (o, false)
  | Some v => addRawIntent o (curRawKey k) v
  end.

Definition decodeCurrentMetadata (o : out) (k : cur) : res (out * option MVCCMetadata) :=
  '(o, v) ← getFromLazyValue o k;
  match v with
  | None => Ok (o, None)
  | Some [] => Ok (set_err o (Some (ScanError "zero-length mvcc metadata")), None)
  | Some v =>
      match UnmarshalMeta v with
      | Ok meta => Ok (o, Some meta)
      | Err e => Ok (set_err o (Some (ScanError "unable to decode MVCCMetadata")), None)
      | Panic e => Panic e
      end
  end.

(** Cases 2 and 4: a version at or above the read timestamp, with [failOnMoreRecent]. *)
Definition more_recent (o : out) (k : cur) : res (out * (bool * bool)) :=
  '(o, (locked, ok)) ← (if c_skipLocked c then isKeyLockedByConflictingTxn o (curRawKey k) else Ok (o, (false, true)));
  if negb ok then Ok (o, (false, false))
  else if (locked : bool) then Ok (o, (true, false))
  else Ok (record_recent o (k_Timestamp (curUnsafeKey k)) (k_Key (curUnsafeKey k)), (true, false)).

(** How [getOne] ends: with a result, the timestamp of the current key overwritten if one is
    given, or with a call of [seekVersion]. *)
Inductive action :=
  | Return (corrupt : option Timestamp) (r : bool * bool)
  | SeekVersion (seekTS : Timestamp) (uncertaintyCheck : bool).

Definition returns (r : res (out * (bool * bool))) : res (out * action) := '(o, r) ← r; Ok (o, Return None r).

(** The cases of [getOne] at a versioned value. *)
Definition getOne_version (o : out) (k : cur) : res (out * action) :=
  let ts := k_Timestamp (curUnsafeKey k) in
  match coveredByRangeKey k ts with
  | Some rkv => returns (addSynthetic o (k_Key (curUnsafeKey k)) rkv)
  | None =>
      '(o, v) ← getFromLazyValue o k;
      match v with
      | None => Ok (o, Return None (false, false))
      | Some v =>
          '(o, valid) ← decodeCurrentValue o v;
          if negb valid then Ok (o, Return None (false, false))
          else if Timestamp_Less ts (c_ts c) then returns (add_current o k)
          else if Timestamp_EqOrdering ts (c_ts c) then
            if c_failOnMoreRecent c then returns (more_recent o k) else returns (add_current o k)
          else if c_failOnMoreRecent c then returns (more_recent o k)
          else if checkUncertainty c then
            let localTS := GetLocalTimestamp (curUnsafeValue o) ts in
            unc ← IsUncertain (c_uncertainty c) ts localTS;
            if (unc : bool) then Ok (uncertaintyError o ts localTS, Return None (false, false))
            else Ok (o, SeekVersion (GlobalLimit (c_uncertainty c)) true)
          else Ok (o, SeekVersion (c_ts c) false)
      end
  end.

Definition raw_bytes (meta : MVCCMetadata) : bytes := match m_RawBytes meta with Some b => b | None => [] end.

(** The cases of [getOne] at another transaction's intent. *)
Definition getOne_foreign (o : out) (k : cur) (metaTS prevTS : Timestamp) : res (out * action) :=
  let conflictingIntent := Timestamp_LessEq metaTS (c_ts c) || c_failOnMoreRecent c in
  if negb conflictingIntent then
    if checkUncertainty c then Ok (o, SeekVersion (GlobalLimit (c_uncertainty c)) true)
    else Ok (o, SeekVersion (c_ts c) false)
  else if c_inconsistent c then
    '(o, ok) ← addCurIntent o k;
    if negb ok then Ok (o, Return None (false, false)) else Ok (o, SeekVersion prevTS false)
  else if c_skipLocked c then
    '(o, ok) ← (if intents_room o then addCurIntent o k else Ok (o, true));
    if negb ok then Ok (o, Return None (false, false)) else Ok (o, Return None (true, false))
  else
    '(o, ok) ← addCurIntent o k;
    if negb ok then Ok (o, Return None (false, false))
    else if (0 <? c_maxIntents c) && (c_maxIntents c <=? batch_Count (intents o)) then
      Ok (set_resume o RESUME_INTENT_LIMIT (resumeKey o) (resumeNextBytes o), Return None (false, false))
    else Ok (o, Return None (true, false)).

(** The cases of [getOne] at the reader's own intent. *)
Definition getOne_own (o : out) (k : cur) (meta : MVCCMetadata) (txn : TxnMeta) (metaTS prevTS : Timestamp)
    : res (out * action) :=
  if txnEpoch c =? t_Epoch txn then
    if (t_Sequence txn <=? txnSequence c) && negb (TxnSeqIsIgnored (t_Sequence txn) (txnIgnoredSeqNums c))
    then Ok (o, SeekVersion metaTS false)
    else
      match getFromIntentHistory meta with
      | Some intentValueRaw =>
          let key := k_Key (curUnsafeKey k) in
          keyBuf ← EncodeMVCCKeyToBuf [] (MkMVCCKey key metaTS);
          '(o, valid) ← decodeCurrentValue o intentValueRaw;
          if negb valid then Ok (o, Return (Some metaTS) (false, false))
          else '(o, r) ← add o key keyBuf (RawBytes (curUnsafeValue o)); Ok (o, Return (Some metaTS) r)
      | None => Ok (o, SeekVersion prevTS false)
      end
  else if txnEpoch c <? t_Epoch txn then
    Ok (set_err o (Some (ScanError "failed to read with epoch due to a write intent with a later epoch")),
        Return None (false, false))
  else Ok (o, SeekVersion prevTS false).

(** The body of [getOne] up to the calls of [seekVersion], which all end it. *)
Definition getOne_cases (o : out) (k : cur) : res (out * action) :=
  if negb (Timestamp_IsEmpty (k_Timestamp (curUnsafeKey k))) then getOne_version o k
  else
    '(o, m) ← decodeCurrentMetadata o k;
    match m with
    | None => Ok (o, Return None (false, false))
    | Some meta =>
        if negb (length (raw_bytes meta) =? 0)%nat
        then returns (add o (k_Key (curUnsafeKey k)) (curRawKey k) (raw_bytes meta))
        else
          match m_Txn meta with
          | None => Ok (set_err o (Some (ScanError "intent without transaction")), Return None (false, false))
          | Some txn =>
              let metaTS := LegacyTimestamp_ToTimestamp (m_Timestamp meta) in
              prevTS ← (if Timestamp_LessEq metaTS (c_ts c) then Timestamp_Prev metaTS else Ok (c_ts c));
              let ownIntent := match c_txn c with Some t => beqb (t_ID txn) (t_ID (tx_Meta t)) | None => false end in
              if negb ownIntent then getOne_foreign o k metaTS prevTS else getOne_own o k meta txn metaTS prevTS
          end
    end.

(** * The scanner *)

Context {It : Type} `{!MVCCIterator It} (fuel : nat).

Record scanner := MkScanner {
  parent : It;
  peeked : bool;
  sc : cur;
  itersBeforeSeek : Z;
  fn : advanceFn;
  origKey : bytes;
  so : out
}.

Definition set_parent (p : scanner) (it : It) : scanner :=
  MkScanner it (peeked p) (sc p) (itersBeforeSeek p) (fn p) (origKey p) (so p).
Definition set_peeked (p : scanner) (b : bool) : scanner :=
  MkScanner (parent p) b (sc p) (itersBeforeSeek p) (fn p) (origKey p) (so p).
Definition set_cur (p : scanner) (k : cur) : scanner :=
  MkScanner (parent p) (peeked p) k (itersBeforeSeek p) (fn p) (origKey p) (so p).
Definition set_iters (p : scanner) (n : Z) : scanner :=
  MkScanner (parent p) (peeked p) (sc p) n (fn p) (origKey p) (so p).
Definition set_fn (p : scanner) (f : advanceFn) (k : bytes) : scanner :=
  MkScanner (parent p) (peeked p) (sc p) (itersBeforeSeek p) f k (so p).
Definition set_out (p : scanner) (o : out) : scanner :=
  MkScanner (parent p) (peeked p) (sc p) (itersBeforeSeek p) (fn p) (origKey p) o.

Definition cur_key (p : scanner) : bytes := k_Key (curUnsafeKey (sc p)).
Definition set_range_keys (p : scanner) (s : MVCCRangeKeyStack) : scanner :=
  set_cur p (MkCur (curUnsafeKey (sc p)) (curRawKey (sc p)) (curRawValue (sc p)) s).

(** Runs a method of [out]. *)
Definition lift {A} (p : scanner) (r : res (out * A)) : res (scanner * A) :=
  '(o, a) ← r; Ok (set_out p o, a).

Definition init (it : It) (r : R) (a : account) : scanner :=
  MkScanner it false (MkCur (MkMVCCKey [] EmptyTimestamp) [] (Ok []) EmptyStack)
    (c_maxItersBeforeSeek c / 2) noAdvanceFn []
    (MkOut r batch_empty a EmptyValue EmptyTimestamp [] None RESUME_UNKNOWN [] 0).

(** ** Moving the iterator *)

Definition iterValid (p : scanner) : res (scanner * bool) :=
  match Valid (parent p) with
  | Ok b => Ok (p, b)
  | Err e => Ok (set_out p (set_err (so p) (Some (ScanError e))), false)
  | Panic e => Panic e
  end.

Fixpoint processRangeKeys_loop (n : nat) (p : scanner) (seeked reverse : bool) : res (scanner * bool) :=
  match n with
  | O => Panic "out of fuel"
  | S n =>
      let rangeKeyChanged := RangeKeyChanged (parent p) in
      if negb rangeKeyChanged && negb reverse && negb seeked then Ok (p, true)
      else
        let '(hasPoint, hasRange) := HasPointAndRange (parent p) in
        if negb hasRange then Ok (set_range_keys p EmptyStack, true)
        else
          '(p, ok) ← (if rangeKeyChanged || (seeked && Stack_IsEmpty (curRangeKeys (sc p))) then
                        let p := set_range_keys p (it_RangeKeys (parent p)) in
                        lift p (check_range_keys (so p) hasPoint (UnsafeKey (parent p)) (curRangeKeys (sc p)))
                      else Ok (p, true));
          if negb ok then Ok (p, false)
          else if (hasPoint : bool) then Ok (p, true)
          else
            let p := set_parent p (if negb reverse then Next (parent p) else Prev (parent p)) in
            '(p, valid) ← iterValid p;
            if negb valid then Ok (p, false) else processRangeKeys_loop n p seeked reverse
  end.
Definition processRangeKeys (p : scanner) (seeked reverse : bool) : res (scanner * bool) :=
  processRangeKeys_loop fuel p seeked reverse.

Definition updateCurrent (p : scanner) : res (scanner * bool) :=
  let raw := UnsafeRawMVCCKey (parent p) in
  match DecodeMVCCKey raw with
  | Panic e => Panic e
  | Err e => Ok (set_out (set_cur p (MkCur (MkMVCCKey [] EmptyTimestamp) raw (curRawValue (sc p)) (curRangeKeys (sc p))))
                   (set_err (so p) (Some (ScanError "unable to decode MVCCKey"))), false)
  | Ok k => Ok (set_cur p (MkCur k raw (UnsafeLazyValue (parent p)) (curRangeKeys (sc p))), true)
  end.

(** What follows every positioning of the iterator. *)
Definition settle (p : scanner) (seeked reverse : bool) : res (scanner * bool) :=
  '(p, valid) ← iterValid p;
  if negb valid then Ok (p, false)
  else
    '(p, ok) ← processRangeKeys p seeked reverse;
    if negb ok then Ok (p, false) else updateCurrent p.

Definition clearPeeked (p : scanner) : scanner := if c_reverse c then set_peeked p false else p.

Definition iterSeek (p : scanner) (key : MVCCKey) : res (scanner * bool) :=
  let p := clearPeeked p in
  settle (set_parent p (SeekGE (parent p) key)) true false.

Definition iterNext (p : scanner) : res (scanner * bool) :=
  '(p, ok) ← (if c_reverse c && peeked p then
                let p := set_peeked p false in
                iterValid (set_parent p (Next (parent p)))
              else Ok (p, true));
  if negb ok then Ok (p, false)
  else settle (set_parent p (Next (parent p))) false false.

Definition iterPrev (p : scanner) : res (scanner * bool) :=
  let p := if peeked p then set_peeked p false else set_parent p (Prev (parent p)) in
  settle p false true.

(** The peeked key and whether it is a point, or [None] at the beginning. *)
Definition iterPeekPrev (p : scanner) : res (scanner * option (bytes * bool)) :=
  '(p, valid) ← (if negb (peeked p)
                 then iterValid (set_parent (set_peeked p true) (Prev (parent p)))
                 else iterValid p);
  if negb valid then Ok (p, None)
  else
    let peekedKey := UnsafeKey (parent p) in
    let hasPoint := if Timestamp_IsEmpty (k_Timestamp peekedKey) then (HasPointAndRange (parent p)).1 else true in
    Ok (p, Some (k_Key peekedKey, hasPoint)).

Definition incrementItersBeforeSeek (p : scanner) : scanner :=
  let n := itersBeforeSeek p + 1 in
  set_iters p (if c_maxItersBeforeSeek c <? n then c_maxItersBeforeSeek c else n).
Definition decrementItersBeforeSeek (p : scanner) : scanner :=
  let n := itersBeforeSeek p - 1 in
  set_iters p (if n <? 1 then if 0 <? c_maxItersBeforeSeek c then 1 else if n <? 0 then 0 else n else n).

Fixpoint backward_loop (n : nat) (p : scanner) (keyBuf : bytes) (i : Z) : res (scanner * option bool) :=
  match n with
  | O => Panic "out of fuel"
  | S n =>
      if negb (i <? itersBeforeSeek p) then Ok (p, None)
      else
        '(p, peek) ← iterPeekPrev p;
        match peek with
        | None => Ok (p, Some true)
        | Some (peekedKey, hasPoint) =>
            if negb (beqb peekedKey keyBuf) || negb hasPoint then Ok (incrementItersBeforeSeek p, Some true)
            else
              '(p, ok) ← iterPrev p;
              if negb ok then Ok (p, Some false) else backward_loop n p keyBuf (i + 1)
        end
  end.
Definition backwardLatestVersion (p : scanner) (key : bytes) (i : Z) : res (scanner * bool) :=
  '(p, r) ← backward_loop fuel p key i;
  match r with
  | Some b => Ok (p, b)
  | None => iterSeek (decrementItersBeforeSeek p) (MkMVCCKey key EmptyTimestamp)
  end.

Definition iterSeekReverse (p : scanner) (key : MVCCKey) : res (scanner * bool) :=
  let p := clearPeeked p in
  '(p, ok) ← settle (set_parent p (SeekLT (parent p) key)) true true;
  if negb ok then Ok (p, false)
  else if Timestamp_IsEmpty (k_Timestamp (curUnsafeKey (sc p))) then Ok (p, true)
  else backwardLatestVersion p (cur_key p) 0.

Fixpoint prev_loop (n : nat) (p : scanner) (key : bytes) (i : Z) : res (scanner * option bool) :=
  match n with
  | O => Panic "out of fuel"
  | S n =>
      if negb (i <? itersBeforeSeek p) then Ok (p, None)
      else
        '(p, ok) ← iterPrev p;
        if negb ok then Ok (p, Some false)
        else if negb (beqb (cur_key p) key) then
          '(p, b) ← backwardLatestVersion p (cur_key p) (i + 1); Ok (p, Some b)
        else prev_loop n p key (i + 1)
  end.
Definition prevKey (p : scanner) (key : bytes) : res (scanner * bool) :=
  '(p, r) ← prev_loop fuel p key 0;
  match r with
  | Some b => Ok (p, b)
  | None => iterSeekReverse (decrementItersBeforeSeek p) (MkMVCCKey key EmptyTimestamp)
  end.

Definition nextKey (p : scanner) : res (scanner * bool) :=
  '(p, ok) ← (if c_reverse c && peeked p then iterNext p else Ok (p, true));
  if negb ok then Ok (p, false)
  else settle (set_parent p (NextKey (parent p))) false false.

Definition advanceKeyForward (p : scanner) : res (scanner * bool) := nextKey p.
Definition advanceKeyReverse (p : scanner) : res (scanner * bool) := prevKey p (cur_key p).

Definition setAdvanceKeyAtEnd (p : scanner) : scanner :=
  set_fn p (if c_reverse c then advanceKeyAtEndReverseFn else advanceKeyAtEndForwardFn) (origKey p).
Definition setAdvanceKeyAtNewKey (p : scanner) (orig : bytes) : scanner :=
  set_fn p (if c_reverse c then advanceKeyAtNewKeyReverseFn else advanceKeyAtNewKeyForwardFn) orig.

Definition advanceKeyAtEndReverse (p : scanner) : res (scanner * bool) :=
  let p := set_peeked p false in
  '(p, ok) ← settle (set_parent p (SeekLT (parent p) (MkMVCCKey (c_end c) EmptyTimestamp))) true true;
  if negb ok then Ok (p, false) else advanceKeyReverse p.

Definition advanceKeyAtNewKeyReverse (p : scanner) : res (scanner * bool) := prevKey p (origKey p).

Definition advance (p : scanner) : res (scanner * bool) :=
  match fn p with
  | advanceKeyForwardFn => advanceKeyForward p
  | advanceKeyAtEndForwardFn => Ok (p, false)
  | advanceKeyAtNewKeyForwardFn => Ok (set_fn p advanceKeyForwardFn (origKey p), true)
  | advanceKeyReverseFn => advanceKeyReverse p
  | advanceKeyAtEndReverseFn => advanceKeyAtEndReverse (set_fn p advanceKeyReverseFn (origKey p))
  | advanceKeyAtNewKeyReverseFn => advanceKeyAtNewKeyReverse (set_fn p advanceKeyReverseFn (origKey p))
  | noAdvanceFn => Ok (set_out p (set_err (so p) (Some (ScanError "unexpected advanceFn"))), false)
  end.

Fixpoint seek_next_loop (n : nat) (p : scanner) (seekTS : Timestamp) (uncertaintyCheck : bool) (orig : bytes) (i : Z)
    : res (scanner * option (bool * bool)) :=
  match n with
  | O => Panic "out of fuel"
  | S n =>
      if negb (i <? itersBeforeSeek p) then Ok (p, None)
      else
        '(p, ok) ← iterNext p;
        if negb ok then Ok (setAdvanceKeyAtEnd p, Some (true, false))
        else if negb (beqb (cur_key p) orig) then
          Ok (setAdvanceKeyAtNewKey (incrementItersBeforeSeek p) orig, Some (true, false))
        else if Timestamp_LessEq (k_Timestamp (curUnsafeKey (sc p))) seekTS then
          let p := incrementItersBeforeSeek p in
          '(p, r) ← lift p (seek_candidate (so p) (sc p) uncertaintyCheck);
          match r with
          | Some r => Ok (p, Some r)
          | None => seek_next_loop n p seekTS uncertaintyCheck orig (i + 1)
          end
        else seek_next_loop n p seekTS uncertaintyCheck orig (i + 1)
  end.

Fixpoint seek_found_loop (n : nat) (p : scanner) (uncertaintyCheck : bool) (orig : bytes) : res (scanner * (bool * bool)) :=
  match n with
  | O => Panic "out of fuel"
  | S n =>
      if negb (beqb (cur_key p) orig) then Ok (setAdvanceKeyAtNewKey p orig, (true, false))
      else
        '(p, r) ← lift p (seek_candidate (so p) (sc p) uncertaintyCheck);
        match r with
        | Some r => Ok (p, r)
        | None =>
            '(p, ok) ← iterNext p;
            if negb ok then Ok (setAdvanceKeyAtEnd p, (true, false)) else seek_found_loop n p uncertaintyCheck orig
        end
  end.

Definition seekVersion (p : scanner) (seekTS : Timestamp) (uncertaintyCheck : bool) : res (scanner * (bool * bool)) :=
  if Timestamp_IsEmpty seekTS then Ok (p, (true, false))
  else
    let orig := cur_key p in
    '(p, r) ← seek_next_loop fuel p seekTS uncertaintyCheck orig 0;
    match r with
    | Some r => Ok (p, r)
    | None =>
        '(p, ok) ← iterSeek (decrementItersBeforeSeek p) (MkMVCCKey orig seekTS);
        if negb ok then Ok (setAdvanceKeyAtEnd p, (true, false)) else seek_found_loop fuel p uncertaintyCheck orig
    end.

Definition getOne (p : scanner) : res (scanner * (bool * bool)) :=
  '(p, a) ← lift p (getOne_cases (so p) (sc p));
  match a with
  | Return None r => Ok (p, r)
  | Return (Some metaTS) r =>
      let k := sc p in
      Ok (set_cur p (MkCur (MkMVCCKey (cur_key p) metaTS) (curRawKey k) (curRawValue k) (curRangeKeys k)), r)
  | SeekVersion seekTS uncertaintyCheck => seekVersion p seekTS uncertaintyCheck
  end.

(** ** Scans and gets *)

Definition seekToStartOfScan (p : scanner) : res (scanner * bool) :=
  '(p, ok) ← (if c_reverse c then iterSeekReverse p (MkMVCCKey (c_end c) EmptyTimestamp)
              else iterSeek p (MkMVCCKey (c_start c) EmptyTimestamp));
  if negb ok then o ← maybeFailOnMoreRecent (so p); Ok (set_out p o, false)
  else Ok (set_fn p (if c_reverse c then advanceKeyReverseFn else advanceKeyForwardFn) (origKey p), true).

Fixpoint scan_loop (n : nat) (p : scanner) : res scanner :=
  match n with
  | O => Panic "out of fuel"
  | S n =>
      '(p, (ok, _)) ← getOne p;
      if negb ok then Ok p
      else '(p, ok) ← advance p; if (ok : bool) then scan_loop n p else Ok p
  end.

(** The resume span, the reason and the size of the next result; or the error. *)
Definition scan_result : Type := (option Span * ResumeReason * Z) + scan_error.
Definition nothing_to_resume : scan_result := inl (None, RESUME_UNKNOWN, 0).

Definition result_of (o : out) : scan_result :=
  match err o with Some e => inr e | None => nothing_to_resume end.

Definition afterScan (p : scanner) : res (scanner * scan_result) :=
  o ← maybeFailOnMoreRecent (so p);
  let p := set_out p o in
  match err o with
  | Some e => Ok (p, inr e)
  | None =>
      if no_reason (resumeReason o) then Ok (p, nothing_to_resume)
      else
        '(p, key) ← (if (length (resumeKey o) =? 0)%nat then
                       '(p, ok) ← (if c_reverse c then advanceKeyReverse p else advanceKeyForward p);
                       Ok (p, if (ok : bool) then Some (cur_key p) else None)
                     else Ok (p, Some (resumeKey o)));
        match key with
        | None => Ok (p, nothing_to_resume)
        | Some key =>
            let span := if c_reverse c then MkSpan (c_start c) (Some (Key_Next key [])) else MkSpan key (Some (c_end c)) in
            Ok (p, inl (Some span, resumeReason (so p), resumeNextBytes (so p)))
        end
  end.

Definition scan (p : scanner) : res (scanner * scan_result) :=
  if c_wholeRows c && negb (r_lastOffsetsEnabled (results (so p)))
  then Ok (p, inr (ScanError "cannot use wholeRows without trackLastOffsets"))
  else
    '(p, ok) ← seekToStartOfScan p;
    if negb ok then Ok (p, result_of (so p))
    else p ← scan_loop fuel p; afterScan p.

Definition get (p : scanner) : res scanner :=
  let p := set_parent p (SeekGE (parent p) (MkMVCCKey (c_start c) EmptyTimestamp)) in
  '(p, valid) ← iterValid p;
  if negb valid then Ok p
  else
    let saved :=
      if c_tombstones c && (HasPointAndRange (parent p)).2
      then Versions_FirstAtOrBelow (Versions (it_RangeKeys (parent p))) (c_ts c) else None in
    '(p, ok) ← processRangeKeys p true false;
    '(p, added) ← (if negb ok then Ok (p, false)
                   else
                     '(p, ok) ← updateCurrent p;
                     if negb ok then Ok (p, false) else '(p, (_, added)) ← getOne p; Ok (p, added));
    o ← maybeFailOnMoreRecent (so p);
    let p := set_out p o in
    match saved with
    | Some rkv =>
        if c_tombstones c && negb added && negb (has_err (so p))
        then '(p, _) ← lift p (addSynthetic (so p) (c_start c) rkv); Ok p
        else Ok p
    | None => Ok p
    end.
End Config.
End Scanner.

Arguments add : simpl never.
Arguments addSynthetic : simpl never.
Arguments check_range_keys : simpl never.
Arguments seek_candidate : simpl never.
Arguments getOne_cases : simpl never.
Arguments maybeFailOnMoreRecent : simpl never.
Arguments updateCurrent : simpl never.
Arguments settle : simpl never.
Arguments processRangeKeys : simpl never.
