(* ===== verification/ScanSpec.v ===== *)
(** What a scan computes.

    The reference scan walks once over the positions of a snapshot in the direction of the
    scan.  It checks the range keys where their stack changes, and reads each user key at its
    first point, from the list of its versions; it neither seeks nor peeks nor steps back.  The
    cases of a read ([getOne_cases], [seek_candidate]) are those of the scanner, so that what
    the scanner adds to this is the navigation. *)
From S2P Require Import Prelude Bytes GoLib Hlc KeyOps Spans MvccKey RangeKeys MvccValue MvccIter Scanner.

(** * The reference scan *)

Section Reference.
Context `{L : ScanLib} {R : Type} `{!Results R} (c : config) (db : snapshot).

Definition the_stack (q : pos) : MVCCRangeKeyStack := stack_at db (q_user q).

(** The record at a position. *)
Definition cur_of (q : pos) : cur := MkCur (q_key q) (mvcc_bytes (q_key q)) (Ok (default [] (q_val q))) (the_stack q).

(** The points of a key: the metadata if there is one, and the versions, newest first. *)
Definition is_key (key : bytes) (q : pos) : bool := beqb (q_user q) key.
Definition points (key : bytes) : list pos := List.filter (fun q => is_key key q && has_point q) (positions db).

Definition at_or_below (t : Timestamp) (q : pos) : bool := Timestamp_LessEq (q_ts q) t.

Fixpoint read_version (o : out) (vs : list pos) (unc : bool) : res (out * (bool * bool)) :=
  match vs with
  | [] => Ok (o, (true, false))
  | q :: vs =>
      '(o, r) ← seek_candidate c o (cur_of q) unc;
      match r with Some r => Ok (o, r) | None => read_version o vs unc end
  end.

Definition read_at (o : out) (vs : list pos) (seekTS : Timestamp) (unc : bool) : res (out * (bool * bool)) :=
  if Timestamp_IsEmpty seekTS then Ok (o, (true, false))
  else read_version o (List.filter (at_or_below seekTS) vs) unc.

Definition read_key (o : out) (key : bytes) : res (out * (bool * bool)) :=
  match points key with
  | [] => Ok (o, (true, false))
  | q :: vs =>
      '(o, a) ← getOne_cases c o (cur_of q);
      match a with
      | Return _ r => Ok (o, r)
      | SeekVersion t unc => read_at o vs t unc
      end
  end.

(** Range keys are checked where the stack changes. *)
Definition encounter (o : out) (st : MVCCRangeKeyStack) (q : pos) : res (out * bool) :=
  if bool_decide (st = the_stack q) || Stack_IsEmpty (the_stack q) then Ok (o, true)
  else check_range_keys c o (has_point q) (q_key q) (the_stack q).

Definition is_last (last : option bytes) (q : pos) : bool :=
  match last with Some key => is_key key q | None => false end.

(** Goes to the first point of another key than [last]: the positions from there on. *)
Fixpoint land (last : option bytes) (o : out) (st : MVCCRangeKeyStack) (l : list pos) : res (out * list pos) :=
  match l with
  | [] => Ok (o, [])
  | q :: l' =>
      '(o, ok) ← encounter o st q;
      if negb ok then Ok (o, [])
      else if has_point q && negb (is_last last q) then Ok (o, l)
      else land last o (the_stack q) l'
  end.

(** Reads every key; stops at the end, or where a limit or an error stops it. *)
Fixpoint walk (last : option bytes) (o : out) (st : MVCCRangeKeyStack) (l : list pos) : res (out * list pos) :=
  match l with
  | [] => Ok (o, [])
  | q :: l' =>
      '(o, ok) ← encounter o st q;
      if negb ok then Ok (o, [])
      else if has_point q && negb (is_last last q) then
        '(o, (ok, _)) ← read_key o (q_user q);
        if negb ok then Ok (o, l) else walk (Some (q_user q)) o (the_stack q) l'
      else walk last o (the_stack q) l'
  end.

(** A scan that starts inside a range key meets it at the start key. *)
Definition start_key : MVCCKey := MkMVCCKey (c_start c) EmptyTimestamp.
Definition starts_inside : bool :=
  negb (Stack_IsEmpty (stack_at db (c_start c))) &&
  negb (existsb (fun q => MVCCKey_Equal (q_key q) start_key) (positions db)).
Definition itinerary : list pos :=
  if c_reverse c then rev (positions db)
  else if starts_inside then MkPos start_key None :: positions db else positions db.

Definition resume_span (key : bytes) : Span :=
  if c_reverse c then MkSpan (c_start c) (Some (Key_Next key [])) else MkSpan key (Some (c_end c)).

(** The resume key, if there is none yet, is the next key to read. *)
Definition after_walk (o : out) (l : list pos) : res (out * scan_result) :=
  o ← maybeFailOnMoreRecent c o;
  match err o, l with
  | Some e, _ => Ok (o, inr e)
  | None, [] => Ok (o, nothing_to_resume)
  | None, q :: l' =>
      if no_reason (resumeReason o) then Ok (o, nothing_to_resume)
      else if (length (resumeKey o) =? 0)%nat then
        '(o, l) ← land (Some (q_user q)) o (the_stack q) l';
        match l with
        | [] => Ok (o, nothing_to_resume)
        | q :: _ => Ok (o, inl (Some (resume_span (q_user q)), resumeReason o, resumeNextBytes o))
        end
      else Ok (o, inl (Some (resume_span (resumeKey o)), resumeReason o, resumeNextBytes o))
  end.

Definition reference_scan (o : out) : res (out * scan_result) :=
  '(o, l) ← walk None o EmptyStack itinerary; after_walk o l.
End Reference.

Arguments encounter : simpl never.
Arguments read_at : simpl never.
Arguments read_key : simpl never.

(** * Two computations that end alike *)

Definition sim {A B} (Q : A -> B -> Prop) (a : res A) (b : res B) : Prop :=
  match a, b with
  | Ok x, Ok y => Q x y
  | Err e, Err e' => e = e'
  | Panic e, Panic e' => e = e'
  | _, _ => False
  end.

Lemma sim_bind {A B A' B'} (Q : A -> B -> Prop) (Q' : A' -> B' -> Prop) a b f g :
  sim Q a b -> (forall x y, Q x y -> sim Q' (f x) (g y)) -> sim Q' (a ≫= f) (b ≫= g).
Proof. destruct a, b; cbn; naive_solver. Qed.

Lemma sim_mono {A B} (Q Q' : A -> B -> Prop) a b : (forall x y, Q x y -> Q' x y) -> sim Q a b -> sim Q' a b.
Proof. destruct a, b; cbn; naive_solver. Qed.

Lemma sim_eq {A} (a b : res A) : sim eq a b <-> a = b.
Proof. destruct a, b; cbn; naive_solver. Qed.

Lemma sim_map {A B} (f : A -> B) a b : sim (fun x y => f x = y) a b -> (x ← a; Ok (f x)) = b.
Proof. destruct a, b; cbn; naive_solver. Qed.

Lemma sim_with {A B} (Q : A -> B -> Prop) a b : sim Q a b -> sim (fun x y => Q x y /\ b = Ok y) a b.
Proof. destruct a, b; cbn; naive_solver. Qed.

Lemma res_bind_assoc {A B C} (a : res A) (f : A -> res B) (g : B -> res C) : ((a ≫= f) ≫= g) = (a ≫= fun x => f x ≫= g).
Proof. by destruct a. Qed.

Lemma sim_refl {A} (Q : A -> A -> Prop) (a : res A) : (forall x, a = Ok x -> Q x x) -> sim Q a a.
Proof. destruct a; cbn; naive_solver. Qed.

(** * How the collected state evolves

    The largest timestamp seen only goes forward, and while a scan goes on there is no error and
    no reason to resume. *)

Definition settled (m t : Timestamp) : Prop :=
  lt_ts t m \/ (Timestamp_EqOrdering t m = true /\ (Synthetic m = true -> Synthetic t = true)).

Lemma Forward_settled m t : settled (Timestamp_Forward m t).1 t.
Proof.
  unfold settled, Timestamp_Forward, bothSynthetic. destruct (Timestamp_Less m t) eqn:E; cbn; [right; split; [ts|done]|].
  destruct (Timestamp_EqOrdering m t) eqn:F; cbn; [right; split; [ts|]|left; ts].
  destruct (Synthetic m), (Synthetic t); done.
Qed.

Lemma Forward_keeps m t u : settled m u -> settled (Timestamp_Forward m t).1 u.
Proof.
  unfold settled, Timestamp_Forward, bothSynthetic. intros S. destruct (Timestamp_Less m t) eqn:E; cbn; [left; ts|].
  destruct (Timestamp_EqOrdering m t) eqn:F; cbn; [|done].
  destruct S as [S|[S Y]]; [left; ts|right; split; [ts|]]. destruct (Synthetic m); naive_solver.
Qed.

Lemma settled_Forward m t : settled m t -> (Timestamp_Forward m t).1 = m.
Proof.
  unfold settled, Timestamp_Forward, bothSynthetic. intros [S|[S Y]].
  - replace (Timestamp_Less m t) with false by ts. by replace (Timestamp_EqOrdering m t) with false by ts.
  - replace (Timestamp_Less m t) with false by ts. replace (Timestamp_EqOrdering m t) with true by ts. cbn.
    destruct m as [w l []]; cbn in *; [by rewrite Y|done].
Qed.

Section Evolution.
Context `{L : ScanLib} {R : Type} `{!Results R} (c : config).
Implicit Types o : @out L R.

Definition steady (o : @out L R) : Prop := err o = None /\ resumeReason o = RESUME_UNKNOWN.
Definition grows (o o' : @out L R) : Prop :=
  (forall t, settled (mostRecentTS o) t -> settled (mostRecentTS o') t) /\
  (mostRecentKey o <> [] -> mostRecentKey o' <> []).
Definition ends {A} (o : @out L R) (good : A -> Prop) (r : res (@out L R * A)) : Prop :=
  forall o' a, r = Ok (o', a) -> grows o o' /\ (good a -> steady o').

Lemma grows_refl o : grows o o.
Proof. by split. Qed.
Lemma grows_trans o1 o2 o3 : grows o1 o2 -> grows o2 o3 -> grows o1 o3.
Proof. intros [] []. split; auto. Qed.
Lemma grows_same o o1 o2 :
  grows o o1 -> mostRecentTS o2 = mostRecentTS o1 -> mostRecentKey o2 = mostRecentKey o1 -> grows o o2.
Proof. unfold grows. by intros ? -> ->. Qed.
Lemma grows_record o o' t key : grows o o' -> key <> [] -> grows o (record_recent o' t key).
Proof.
  intros G K. eapply grows_trans; [done|]. split; cbn; [intros; by apply Forward_keeps|].
  intros N. by destruct (mostRecentKey o').
Qed.

Lemma ends_Ok {A} o (good : A -> Prop) o' a : grows o o' -> (good a -> steady o') -> ends o good (Ok (o', a)).
Proof. intros G S ?? [= <- <-]. done. Qed.
Lemma ends_bind {A B} o (g1 : A -> Prop) (g2 : B -> Prop) r k :
  ends o g1 r -> (forall o' a, grows o o' -> (g1 a -> steady o') -> ends o g2 (k (o', a))) -> ends o g2 (r ≫= k).
Proof. intros E K. destruct r as [[o' a]| |]; cbn; try done. destruct (E o' a eq_refl). by apply K. Qed.
Lemma ends_Panic {A} o (good : A -> Prop) e : ends o good (Panic e).
Proof. done. Qed.
Lemma ends_Err {A} o (good : A -> Prop) e : ends o good (Err e).
Proof. done. Qed.
End Evolution.

Create HintDb scan.
#[export] Hint Resolve grows_refl ends_Panic ends_Err : scan.

(** Ends a branch that returns. *)
Ltac ends_leaf :=
  apply ends_Ok;
  [first [done | eapply grows_same; [eassumption|reflexivity|reflexivity]]
  |unfold steady in *; cbn; intuition (try discriminate; try congruence)].

Section Operations.
Context `{L : ScanLib} {R : Type} `{!Results R} (c : config).
Implicit Types o : @out L R.

Definition fine (r : bool * bool) : Prop := r.1 = true.
Definition fine_option (r : option (bool * bool)) : Prop := match r with Some r => fine r | None => True end.
Definition fine_action (a : action) : Prop := match a with Return _ r => fine r | SeekVersion _ _ => True end.

Lemma addRawIntent_ends o0 o key v : grows o0 o -> steady o -> ends o0 (eq true) (addRawIntent o key v).
Proof.
  intros G S. unfold addRawIntent. destruct (Grow _ _); [|ends_leaf|done]. destruct (batch_Set _ _ _); [ends_leaf|ends_leaf|done].
Qed.

Lemma addKeyAndMeta_ends o0 o key t : grows o0 o -> steady o -> ends o0 (eq true) (addKeyAndMetaAsIntent o key t).
Proof.
  intros G S. unfold addKeyAndMetaAsIntent. rewrite EncodeMVCCKey_eq. cbn.
  destruct (MarshalMeta _); [by apply addRawIntent_ends|ends_leaf|done].
Qed.

Lemma locked_ends o0 o key : grows o0 o -> steady o -> ends o0 (fun r => r.2 = true) (isKeyLockedByConflictingTxn c o key).
Proof.
  intros G S. unfold isKeyLockedByConflictingTxn. destruct (DecodeKey key) as [[k kts]| |]; [|ends_leaf|done].
  destruct (IsKeyLockedByConflictingTxn _ _) as [[] [tx|]]; [|ends_leaf|ends_leaf|ends_leaf].
  destruct (intents_room c o); [|ends_leaf].
  eapply ends_bind; [by apply addKeyAndMeta_ends|]. intros o' [] ? ?; ends_leaf.
Qed.

Lemma maybe_locked_ends o0 o key : grows o0 o -> steady o ->
  ends o0 (fun r => r.2 = true) (if c_skipLocked c then isKeyLockedByConflictingTxn c o key else Ok (o, (false, true))).
Proof. intros G S. destruct (c_skipLocked c); [by apply locked_ends|ends_leaf]. Qed.
#[local] Hint Resolve maybe_locked_ends addRawIntent_ends : scan.

Lemma add_ends o0 o key raw v : grows o0 o -> steady o -> ends o0 fine (add c o key raw v).
Proof.
  intros G S. unfold add. destruct ((length v =? 0)%nat && negb (c_tombstones c)); [ends_leaf|].
  eapply ends_bind; [by apply maybe_locked_ends|]. clear o G S. intros o [locked ok] G S. cbn in S.
  destruct ok; cbn [negb]; [|ends_leaf]. specialize (S eq_refl). destruct locked; [ends_leaf|].
  destruct (r_sizeInfo _ _ _) as [[numKeys numBytes] inc].
  match goal with |- context [r_continuesFirstRow (results ?o1) _] => set (o' := o1) end.
  assert (grows o0 o' /\ err o' = None) as [G' E'].
  { subst o'. unfold steady in S. destruct (_ && _); [|destruct (_ && _)]; (split; [|naive_solver]);
      try done; (eapply grows_same; [eassumption|reflexivity|reflexivity]). }
  clearbody o'. match goal with |- ends _ _ (?a ≫= _) => destruct a as [cont| |]; cbn [mbind res_bind]; [|done|done] end.
  match goal with |- context [negb (no_reason _) && negb ?m] => set (must := m) end.
  destruct (no_reason (resumeReason o')) eqn:NR; cbn [negb andb]; [|clearbody must; destruct must; cbn [negb]].
  - subst must. cbn [negb andb]. destruct (r_put _ _ _ _ _) as [[r a]| |]; [|ends_leaf|done].
    destruct (resumeReason o') eqn:RR; try done.
    destruct (_ && _); [|ends_leaf]. match goal with |- ends _ _ (?a ≫= _) => destruct a as [[]| |]; cbn; try done end; ends_leaf.
  - destruct (r_put _ _ _ _ _) as [[r a]| |]; [|ends_leaf|done].
    destruct (_ && _); [|ends_leaf]. match goal with |- ends _ _ (?a ≫= _) => destruct a as [[]| |]; cbn; try done end; ends_leaf.
  - destruct (c_wholeRows c); [|ends_leaf].
    destruct (r_maybeTrimPartialLastRow _ _) as [[r [k|]]| |]; [ends_leaf|ends_leaf|ends_leaf|done].
Qed.

Lemma addSynthetic_ends o0 o key v : grows o0 o -> steady o -> ends o0 fine (addSynthetic c o key v).
Proof.
  intros G S. unfold addSynthetic. rewrite EncodeMVCCKeyToBuf_eq. cbn.
  destruct (DecodeMVCCValue _); [|ends_leaf|done]. apply add_ends; [|by split; [|apply S]].
  eapply grows_same; [done|reflexivity|reflexivity].
Qed.

Lemma add_current_ends o0 o k : grows o0 o -> steady o -> ends o0 fine (add_current c o k).
Proof. apply add_ends. Qed.

Lemma getFromLazy_ends o0 o k : grows o0 o -> steady o -> ends o0 (fun v => v <> None) (getFromLazyValue o k).
Proof. intros G S. unfold getFromLazyValue. destruct (curRawValue k); [ends_leaf|ends_leaf|done]. Qed.

Lemma decodeCurrent_ends o0 o v : grows o0 o -> steady o -> ends o0 (eq true) (decodeCurrentValue o v).
Proof. intros G S. unfold decodeCurrentValue. destruct (DecodeMVCCValue v); [ends_leaf|ends_leaf|done]. Qed.

Lemma addCurIntent_ends o0 o k : grows o0 o -> steady o -> ends o0 (eq true) (addCurIntent o k).
Proof.
  intros G S. unfold addCurIntent. eapply ends_bind; [by apply getFromLazy_ends|]. intros o' [v|] G' S'; [|ends_leaf].
  apply addRawIntent_ends; auto.
Qed.

Lemma more_recent_ends o0 o k : k_Key (curUnsafeKey k) <> [] -> grows o0 o -> steady o -> ends o0 fine (more_recent c o k).
Proof.
  intros K G S. unfold more_recent. eapply ends_bind; [by apply maybe_locked_ends|]. clear o G S. intros o [[] []] G S; cbn in *; [ends_leaf..| |ends_leaf].
  apply ends_Ok; [by apply grows_record|]. intros _. by apply S.
Qed.

Lemma seek_candidate_ends o0 o k unc : grows o0 o -> steady o -> ends o0 fine_option (seek_candidate c o k unc).
Proof.
  intros G S. unfold seek_candidate. eapply ends_bind; [by apply getFromLazy_ends|]. clear o G S. intros o [v|] G S; [|ends_leaf].
  eapply ends_bind; [apply decodeCurrent_ends; [done|auto]|]. clear o G S. intros o [] G S; [|ends_leaf]. specialize (S eq_refl).
  cbn [negb]. destruct (_ || _).
  - eapply (ends_bind _ fine); [|by intros o' r G' S'; apply ends_Ok].
    destruct (coveredByRangeKey _ _ _); [by apply addSynthetic_ends|by apply add_current_ends].
  - destruct (IsUncertain _ _ _) as [[]| |]; cbn; [ends_leaf|ends_leaf|done|done].
Qed.

Lemma returns_ends o0 r : ends o0 fine r -> ends o0 fine_action (returns r).
Proof. intros E. eapply ends_bind; [done|]. intros. by apply ends_Ok. Qed.

Lemma getOne_version_ends o0 o k : k_Key (curUnsafeKey k) <> [] -> grows o0 o -> steady o -> ends o0 fine_action (getOne_version c o k).
Proof.
  intros K G S. unfold getOne_version. destruct (coveredByRangeKey _ _ _); [by apply returns_ends, addSynthetic_ends|].
  eapply ends_bind; [by apply getFromLazy_ends|]. clear o G S. intros o [v|] G S; [|ends_leaf].
  eapply ends_bind; [apply decodeCurrent_ends; [done|auto]|]. clear o G S. intros o [] G S; [|ends_leaf]. specialize (S eq_refl).
  cbn [negb]. destruct (Timestamp_Less _ _); [by apply returns_ends, add_current_ends|].
  destruct (Timestamp_EqOrdering _ _).
  { destruct (c_failOnMoreRecent c); apply returns_ends; [by apply more_recent_ends|by apply add_current_ends]. }
  destruct (c_failOnMoreRecent c); [by apply returns_ends, more_recent_ends|].
  destruct (checkUncertainty c); [|ends_leaf]. destruct (IsUncertain _ _ _) as [[]| |]; cbn; [ends_leaf|ends_leaf|done|done].
Qed.

Lemma getOne_foreign_ends o0 o k t u : grows o0 o -> steady o -> ends o0 fine_action (getOne_foreign c o k t u).
Proof.
  intros G S. unfold getOne_foreign. destruct (negb _); [destruct (checkUncertainty c); ends_leaf|].
  destruct (c_inconsistent c); [|destruct (c_skipLocked c)].
  - eapply ends_bind; [by apply addCurIntent_ends|]. intros o' [] G' S'; ends_leaf.
  - eapply (ends_bind _ (eq true)); [destruct (intents_room c o); [by apply addCurIntent_ends|ends_leaf]|].
    intros o' [] G' S'; ends_leaf.
  - eapply ends_bind; [by apply addCurIntent_ends|]. intros o' [] G' S'; [|ends_leaf]. cbn [negb]. destruct (_ && _); ends_leaf.
Qed.

Lemma getOne_own_ends o0 o k m t u v : grows o0 o -> steady o -> ends o0 fine_action (getOne_own c o k m t u v).
Proof.
  intros G S. unfold getOne_own. destruct (_ =? _); [|destruct (_ <? _); ends_leaf].
  destruct (_ && _); [ends_leaf|]. destruct (getFromIntentHistory c m); [|ends_leaf].
  rewrite EncodeMVCCKeyToBuf_eq. cbn [mbind res_bind].
  eapply ends_bind; [by apply decodeCurrent_ends|]. clear o G S. intros o [] G S; [|ends_leaf]. specialize (S eq_refl). cbn [negb].
  eapply ends_bind; [by apply add_ends|]. intros. by apply ends_Ok.
Qed.

Lemma getOne_cases_ends o0 o k : k_Key (curUnsafeKey k) <> [] -> grows o0 o -> steady o -> ends o0 fine_action (getOne_cases c o k).
Proof.
  intros K G S. unfold getOne_cases. destruct (negb _); [by apply getOne_version_ends|].
  eapply (ends_bind _ (fun m => m <> None)).
  { unfold decodeCurrentMetadata. eapply ends_bind; [by apply getFromLazy_ends|]. intros o' [[|x v]|] G' S'; [ends_leaf| |ends_leaf].
    destruct (UnmarshalMeta _); [|ends_leaf|done]. apply ends_Ok; [done|]. intros _. by apply S'. }
  clear o G S. intros o [m|] G S; [|ends_leaf]. assert (S' := S ltac:(done)).
  destruct (negb _); [by apply returns_ends, add_ends|]. destruct (m_Txn m) as [t|]; [|ends_leaf].
  match goal with |- ends _ _ (?a ≫= _) => destruct a as [prevTS| |]; cbn [mbind res_bind]; [|done|done] end.
  destruct (negb _); [by apply getOne_foreign_ends|by apply getOne_own_ends].
Qed.

Lemma range_uncertainty_ends o0 o vs : grows o0 o -> steady o -> ends o0 (eq true) (range_uncertainty c o vs).
Proof.
  intros G S. revert o G S. induction vs as [|v vs IH]; intros o G S; cbn; [ends_leaf|]. destruct (Timestamp_LessEq _ _); [ends_leaf|].
  destruct (DecodeMVCCValue _); [|ends_leaf|done]. destruct (IsUncertain _ _ _) as [[]| |]; cbn; [ends_leaf| |done|done].
  apply IH; [eapply grows_same; [done|reflexivity|reflexivity]|by split; [|apply S]].
Qed.

Lemma check_range_keys_ends o0 o hp k st : k_Key k <> [] -> grows o0 o -> steady o -> ends o0 (eq true) (check_range_keys c o hp k st).
Proof.
  intros K G S. unfold check_range_keys.
  match goal with |- context [if ?b then record_recent ?a ?t ?k else _] => set (o' := if b then record_recent a t k else a) end.
  assert (grows o0 o' /\ steady o') as [G' S'] by (subst o'; destruct (_ && _); split; auto using grows_record).
  destruct (checkUncertainty c); [by apply range_uncertainty_ends|by apply ends_Ok].
Qed.
End Operations.

(** * The reference scan and its parts *)

Section ReferenceFacts.
Context `{L : ScanLib} {R : Type} `{!Results R} (c : config) (db : snapshot).
Implicit Types o : @out L R.

(** Reading a candidate sets the decoded value and the error afresh. *)
Lemma seek_candidate_value o v q unc : seek_candidate c (set_value o v None) (cur_of db q) unc = seek_candidate c o (cur_of db q) unc.
Proof. unfold seek_candidate. cbn. unfold decodeCurrentValue. by destruct (DecodeMVCCValue _). Qed.

Lemma seek_candidate_None o q unc o' : seek_candidate c o (cur_of db q) unc = Ok (o', None) -> exists v, o' = set_value o v None.
Proof.
  unfold seek_candidate. cbn. unfold decodeCurrentValue. destruct (DecodeMVCCValue _) as [v| |]; cbn; [|done|done].
  destruct (_ || _); [intros ([??] & ? & [=])%res_bind_inv|]. intros (u & _ & E)%res_bind_inv. destruct u; simplify_eq. eauto.
Qed.

(** A candidate read before is read again to the same effect. *)
Lemma read_version_again o o1 v unc h rest :
  read_version c db o (h ++ rest) unc = read_version c db o1 rest unc ->
  (h = [] /\ o1 = o) \/ o1 = set_value o v None ->
  read_version c db o1 (h ++ rest) unc = read_version c db o1 rest unc.
Proof.
  intros E [[-> ->]| ->]; [done|]. rewrite <- E. destruct (h ++ rest) eqn:F.
  - apply app_eq_nil in F as [-> ->]. cbn in *. congruence.
  - cbn [read_version]. by rewrite seek_candidate_value.
Qed.

Lemma read_version_ends o0 o vs unc : grows o0 o -> steady o -> ends o0 fine (read_version c db o vs unc).
Proof.
  intros G S. revert o G S. induction vs as [|q vs IH]; intros o G S; cbn; [by apply ends_Ok|].
  eapply ends_bind; [by apply seek_candidate_ends|]. intros o' [r|] G' S'; [by apply ends_Ok|]. apply IH; [done|by apply S'].
Qed.

Lemma read_at_ends o0 o vs t unc : grows o0 o -> steady o -> ends o0 fine (read_at c db o vs t unc).
Proof. intros G S. unfold read_at. destruct (Timestamp_IsEmpty t); [by apply ends_Ok|by apply read_version_ends]. Qed.

Lemma read_key_ends o0 o key : key <> [] -> grows o0 o -> steady o -> ends o0 fine (read_key c db o key).
Proof.
  intros K G S. unfold read_key. destruct (points db key) as [|q vs] eqn:E; [by apply ends_Ok|].
  assert (U : q_user q = key).
  { assert (I : In q (points db key)) by (rewrite E; by left). apply List.filter_In in I as [_ [I _]%andb_true_iff].
    by apply beqb_true. }
  eapply ends_bind; [apply getOne_cases_ends; [by cbn; rewrite <- U in K|done|done]|].
  intros o' [k r|t u] G' S'; [by apply ends_Ok|]. apply read_at_ends; [done|by apply S'].
Qed.

(** A walk goes to a key, reads it and goes on. *)
Lemma walk_land last o st l :
  walk c db last o st l =
  ('(o, l) ← land c db last o st l;
   match l with
   | [] => Ok (o, [])
   | q :: l' => '(o, (ok, _)) ← read_key c db o (q_user q);
                if negb ok then Ok (o, l) else walk c db (Some (q_user q)) o (the_stack db q) l'
   end).
Proof.
  revert o st. induction l as [|q l IH]; intros o st; cbn; [done|]. destruct (encounter _ _ _ _ _) as [[o' []]| |]; cbn; [|done..].
  by destruct (has_point q && _).
Qed.

Lemma land_split last o st l o' l' : land c db last o st l = Ok (o', l') ->
  l' = [] \/ exists pre q t, l = pre ++ l' /\ l' = q :: t /\ has_point q = true /\ is_last last q = false /\
    Forall (fun x => has_point x && negb (is_last last x) = false) pre.
Proof.
  revert o st. induction l as [|q l IH]; intros o st; cbn; [naive_solver|].
  destruct (encounter _ _ _ _ _) as [[o1 []]| |]; cbn; [|naive_solver|done..].
  destruct (has_point q && negb (is_last last q)) eqn:H.
  - intros [= <- <-]. right. exists [], q, l. apply andb_true_iff in H as [? ?%negb_true_iff]. done.
  - intros [->|(pre & y & t & -> & -> & ? & ? & F)]%IH; [by left|right]. exists (q :: pre), y, t. split_and!; try done. by constructor.
Qed.

Lemma encounter_same o q st : st = the_stack db q -> encounter c db o st q = Ok (o, true).
Proof. intros ->. unfold encounter. by rewrite bool_decide_true. Qed.

Lemma same_stack q key : is_key key q = true -> the_stack db q = stack_at db key.
Proof. intros E%beqb_true. unfold the_stack. by rewrite E. Qed.

(** The other positions of the key last read are passed over. *)
Lemma land_skip key o g l : Forall (fun q => is_key key q = true) g ->
  land c db (Some key) o (stack_at db key) (g ++ l) = land c db (Some key) o (stack_at db key) l.
Proof.
  induction g as [|q g IH]; intros F; [done|]. apply Forall_cons in F as [E F]. cbn.
  rewrite encounter_same by (symmetry; by apply same_stack). cbn. rewrite E. rewrite andb_false_r.
  rewrite (same_stack q key) by done. by apply IH.
Qed.

Lemma land_other key o st l : Forall (fun q => is_key key q = false) l -> land c db (Some key) o st l = land c db None o st l.
Proof.
  revert o st. induction l as [|q l IH]; intros o st F; [done|]. apply Forall_cons in F as [E F]. cbn. rewrite E. cbn.
  destruct (encounter _ _ _ _ _) as [[o' []]| |]; cbn; [|done..]. rewrite andb_true_r. destruct (has_point q); cbn; [done|].
  by apply IH.
Qed.

Lemma encounter_ends o0 o st q : q_user q <> [] -> grows o0 o -> steady o -> ends o0 (eq true) (encounter c db o st q).
Proof.
  intros K G S. unfold encounter. destruct (_ || _); [by apply ends_Ok|]. by apply check_range_keys_ends.
Qed.

Lemma land_ends o0 o last st l : Forall (fun q => q_user q <> []) l -> grows o0 o -> steady o ->
  ends o0 (fun l' => l' <> []) (land c db last o st l).
Proof.
  intros F G S. revert o st G S. induction F as [|q l K F IH]; intros o st G S; cbn; [by apply ends_Ok|].
  eapply ends_bind; [by apply encounter_ends|]. intros o' [] G' S'; cbn [negb]; [|by apply ends_Ok].
  destruct (has_point q && _); [apply ends_Ok; auto|]. apply IH; auto.
Qed.

Lemma range_uncertainty_reason o vs o' b : range_uncertainty c o vs = Ok (o', b) -> resumeReason o' = resumeReason o.
Proof.
  revert o. induction vs as [|v vs IH]; intros o; cbn; [by intros [= <- _]|]. destruct (Timestamp_LessEq _ _); [by intros [= <- _]|].
  destruct (DecodeMVCCValue _); [|by intros [= <- _]|done]. intros (u & _ & E)%res_bind_inv. destruct u; [by injection E as <- _|by apply IH in E].
Qed.

Lemma land_reason last o st l o' l' : land c db last o st l = Ok (o', l') -> resumeReason o' = resumeReason o.
Proof.
  revert o st. induction l as [|q l IH]; intros o st; cbn; [by intros [= <- _]|].
  intros ([o1 b] & E & H)%res_bind_inv. assert (E1 : resumeReason o1 = resumeReason o).
  { unfold encounter in E. destruct (_ || _); [by injection E as <- _|]. unfold check_range_keys in E.
    destruct (checkUncertainty c); [apply range_uncertainty_reason in E|injection E as <- _]; (etrans; [eassumption || reflexivity|]); by destruct (_ && _). }
  rewrite <- E1. destruct b; cbn in H; [|by injection H as <- _]. destruct (has_point q && _); [by injection H as <- _|by eapply IH].
Qed.

Lemma land_steady last o st l o' q t : land c db last o st l = Ok (o', q :: t) -> steady o -> steady o'.
Proof.
  revert o st. induction l as [|x l IH]; intros o st; cbn; [done|]. intros ([o1 b] & E & H)%res_bind_inv S.
  destruct b; cbn in H; [|done]. assert (S1 : steady o1).
  { unfold encounter in E. destruct (_ || _); [by injection E as <-|]. unfold check_range_keys in E.
    match type of E with context [if ?b then record_recent ?a ?t ?k else _] => set (o2 := if b then record_recent a t k else a) in E end.
    assert (S2 : steady o2) by (subst o2; by destruct (_ && _)). destruct (checkUncertainty c); [|by injection E as <-].
    apply (range_uncertainty_ends c o2 o2 _ (grows_refl o2) S2) in E as [_ E]. auto. }
  destruct (has_point x && _); [by injection H as <-|by eapply IH].
Qed.
End ReferenceFacts.
