(* ===== verification/ScanNav.v ===== *)
(** How the scanner moves over a snapshot.

    The first part is about a sorted snapshot: what the steps and seeks of the reference
    iterator reach, and how the positions of one key lie between those of the others.  The
    second relates the positioning methods of the scanner to it: after a move the scanner
    settles where the reference walk lands, having checked the same range keys. *)
From stdpp Require Import sorting.
From S2P Require Import Prelude Bytes GoLib Hlc KeyOps Spans MvccKey RangeKeys MvccValue MvccIter Scanner ScanSpec.

(** * The order of versioned keys *)

Definition ver_lt (t s : Timestamp) : Prop :=
  (t = EmptyTimestamp /\ s <> EmptyTimestamp) \/ (t <> EmptyTimestamp /\ s <> EmptyTimestamp /\ lt_ts s t).

Lemma IsEmpty_false t : Timestamp_IsEmpty t = false <-> t <> EmptyTimestamp.
Proof. rewrite <- IsEmpty_spec. by destruct (Timestamp_IsEmpty t). Qed.

Lemma Less_spec k l : MVCCKey_Less k l = true <->
  blt (k_Key k) (k_Key l) \/ (k_Key k = k_Key l /\ ver_lt (k_Timestamp k) (k_Timestamp l)).
Proof.
  unfold MVCCKey_Less, MVCCKey_IsValue, Key_Compare, ver_lt. fold (lt_ts (k_Timestamp l) (k_Timestamp k)).
  destruct (bytes_compare_spec (k_Key k) (k_Key l)) as [E|E|E]; [rewrite E| |].
  - destruct (Timestamp_IsEmpty (k_Timestamp k)) eqn:Ek; [apply IsEmpty_spec in Ek|apply IsEmpty_false in Ek];
      (destruct (Timestamp_IsEmpty (k_Timestamp l)) eqn:El; [apply IsEmpty_spec in El|apply IsEmpty_false in El]); cbn;
      (split; [intros; right|intros [B|B]; [exfalso; border|]]); intuition; try done.
  - split; [by left|done].
  - split; [done|]. intros [B|[B _]]; exfalso; [border|]. rewrite B in E. border.
Qed.

Lemma ver_lt_irrefl t : ~ ver_lt t t.
Proof. intros [[]|(? & ? & H)]; [done|]. by apply lt_ts_irrefl in H. Qed.
Lemma ver_lt_trans t s u : ver_lt t s -> ver_lt s u -> ver_lt t u.
Proof.
  unfold ver_lt. intros [[]|(? & ? & H)] [[]|(? & ? & H')]; try done; [by left|]. right. split_and!; [done..|]. by eapply lt_ts_trans.
Qed.
Lemma Less_irrefl k : MVCCKey_Less k k = false.
Proof. apply not_true_is_false. rewrite Less_spec. intros [H|[_ H]]; [border|by apply ver_lt_irrefl in H]. Qed.
Lemma Less_trans k l m : MVCCKey_Less k l = true -> MVCCKey_Less l m = true -> MVCCKey_Less k m = true.
Proof.
  rewrite !Less_spec. intros [H|[E H]] [H'|[E' H']]; [left; border|left; border|left; border|].
  right. split; [congruence|by eapply ver_lt_trans].
Qed.
Lemma Less_asym k l : MVCCKey_Less k l = true -> MVCCKey_Less l k = false.
Proof.
  intros H. apply not_true_is_false. intros H'. pose proof (Less_trans _ _ _ H H') as F. by rewrite Less_irrefl in F.
Qed.

(** Keys that are neither smaller nor equal are greater. *)
Lemma Less_total k l : MVCCKey_Less k l = false -> MVCCKey_Equal k l = false -> MVCCKey_Less l k = true.
Proof.
  unfold MVCCKey_Less, MVCCKey_Equal, MVCCKey_IsValue, Key_Compare. rewrite (bytes_compare_antisym (k_Key k)).
  destruct (bytes_compare (k_Key k) (k_Key l)) eqn:E; [|done|done]. cbn.
  destruct (Timestamp_IsEmpty (k_Timestamp k)) eqn:Ek, (Timestamp_IsEmpty (k_Timestamp l)) eqn:El; cbn; try done.
  - apply IsEmpty_spec in Ek, El. rewrite Ek, El. done.
  - intros. ts.
Qed.

(** * Lists *)

Lemma find_skip {A} (p : A -> bool) a b : Forall (fun x => p x = false) a -> List.find p (a ++ b) = List.find p b.
Proof. induction 1 as [|x a H _ IH]; [done|]. cbn. by rewrite H. Qed.
Lemma find_head {A} (p : A -> bool) b : (forall x, head b = Some x -> p x = true) -> List.find p b = head b.
Proof. destruct b as [|x b]; intros H; [done|]. cbn. by rewrite H. Qed.
Lemma filter_app {A} (p : A -> bool) a b : List.filter p (a ++ b) = List.filter p a ++ List.filter p b.
Proof. induction a as [|x a IH]; cbn; [done|]. rewrite IH. by destruct (p x). Qed.
Lemma filter_ext_Forall {A} (p q : A -> bool) l : Forall (fun x => p x = q x) l -> List.filter p l = List.filter q l.
Proof. induction 1 as [|x l H _ IH]; cbn; [done|]. by rewrite H, IH. Qed.

Lemma Forall_filter {A} (Q : A -> Prop) (p : A -> bool) l : Forall Q l -> Forall Q (List.filter p l).
Proof. induction 1 as [|x l H _ IH]; cbn; [done|]. destruct (p x); [by constructor|done]. Qed.

Lemma sorted_app {A} (R : A -> A -> Prop) l x r : StronglySorted R (l ++ x :: r) ->
  Forall (fun y => R y x) l /\ Forall (R x) r.
Proof.
  induction l as [|y l IH]; cbn; intros S.
  - by inversion S.
  - apply StronglySorted_inv in S as [S F]. apply Forall_app in F as [_ F]. apply Forall_cons in F as [F _].
    destruct (IH S). by split; [constructor|].
Qed.

(** * A sorted snapshot *)

Fixpoint path (step : MVCCKey -> option pos) (l : list pos) : Prop :=
  match l with [] => True | q :: l => step (q_key q) = head l /\ path step l end.

Section Snapshot.
Context (db : snapshot) (ok : snapshot_ok db).

Abbreviation P := (positions db).

Lemma first_gt_split l q r : P = l ++ q :: r -> first_gt db (q_key q) = head r.
Proof.
  intros E. pose proof (ok_sorted db ok) as S. rewrite E in S. apply sorted_app in S as [Fl Fr].
  unfold first_gt. rewrite E, find_skip.
  - cbn. rewrite Less_irrefl. apply find_head. intros x H. destruct r; [done|]. simplify_eq/=. by apply Forall_cons in Fr as [? _].
  - eapply Forall_impl; [done|]. intros x Hx. by apply Less_asym.
Qed.

Lemma last_lt_split l q r : P = l ++ q :: r -> last_lt db (q_key q) = head (rev l).
Proof.
  intros E. pose proof (ok_sorted db ok) as S. rewrite E in S. apply sorted_app in S as [Fl%Forall_rev Fr%Forall_rev].
  unfold last_lt. rewrite E, rev_app_distr. cbn. rewrite <- app_assoc, find_skip.
  - cbn. rewrite Less_irrefl. apply find_head. intros x H. destruct (rev l); [done|]. simplify_eq/=. by apply Forall_cons in Fl as [? _].
  - eapply Forall_impl; [done|]. intros x Hx. by apply Less_asym.
Qed.

Lemma path_suffix l r : P = l ++ r -> path (first_gt db) r.
Proof.
  revert l. induction r as [|q r IH]; intros l E; [done|]. split; [by eapply first_gt_split|].
  apply (IH (l ++ [q])). by rewrite <- app_assoc.
Qed.

Lemma path_rev l r : P = l ++ r -> path (last_lt db) (rev l).
Proof.
  revert r. induction l as [|q l IH] using rev_ind; intros r E; [done|]. rewrite rev_app_distr. cbn.
  rewrite <- app_assoc in E. split; [by eapply last_lt_split|]. by eapply IH.
Qed.

(** ** The positions of a key *)

Definition below (key : bytes) : list pos := List.filter (fun q => bltb (q_user q) key) P.
Definition above (key : bytes) : list pos := List.filter (fun q => bltb key (q_user q)) P.

Lemma q_lt_user x y : q_lt x y -> ble (q_user x) (q_user y).
Proof. unfold q_lt, q_user. intros [H|[H _]]%Less_spec; [border|rewrite H; border]. Qed.

Lemma split_key key : exists g, P = below key ++ g ++ above key /\ Forall (fun q => is_key key q = true) g.
Proof.
  exists (List.filter (is_key key) P). split; [|apply filter_Forall]. unfold below, above.
  assert (S := ok_sorted db ok). induction S as [|q l S IH F]; [done|].
  assert (F' : Forall (fun x => ble (q_user q) (q_user x)) l) by (eapply Forall_impl; [done|apply q_lt_user]).
  assert (N : ble key (q_user q) -> List.filter (fun q => bltb (q_user q) key) l = []).
  { intros B. apply filter_none. eapply Forall_impl; [done|]. cbn. intros x Hx. bcases; [border|done]. }
  cbn. unfold is_key at 1.
  destruct (bltb_spec (q_user q) key) as [B|B], (bltb_spec key (q_user q)) as [C|C], (beqb_spec (q_user q) key) as [D|D];
    try (exfalso; border); cbn.
  - by f_equal.
  - rewrite N by border. rewrite filter_none; [cbn; f_equal; rewrite filter_all; [done|]|];
      (eapply Forall_impl; [done|]); cbn; intros x Hx; unfold is_key; bcases; try done; border.
  - rewrite N by border. cbn. f_equal. rewrite IH at 1. by rewrite N by border.
Qed.

Lemma no_repeat q l r : ~ StronglySorted q_lt (q :: l ++ q :: r).
Proof.
  intros [_ F]%StronglySorted_inv. rewrite Forall_forall in F. specialize (F q ltac:(set_solver)).
  unfold q_lt in F. by rewrite Less_irrefl in F.
Qed.

Lemma split_inj l q r l' r' : P = l ++ q :: r -> P = l' ++ q :: r' -> l = l' /\ r = r'.
Proof.
  pose proof (ok_sorted db ok) as S. intros E E'. rewrite E in E', S. clear E. revert l' E' S.
  induction l as [|x l IH]; intros [|x' l'] E' S; simplify_eq/=; try done.
  - by apply no_repeat in S.
  - by apply no_repeat in S.
  - apply StronglySorted_inv in S as [S _]. by destruct (IH l') as [-> ->].
Qed.

(** The positions around one of a key: those of the key, then those of the other keys. *)
Lemma split_around l q r : P = l ++ q :: r -> exists g1 g2,
  l = below (q_user q) ++ g1 /\ r = g2 ++ above (q_user q) /\
  Forall (fun x => is_key (q_user q) x = true) g1 /\ Forall (fun x => is_key (q_user q) x = true) g2.
Proof.
  intros E. destruct (split_key (q_user q)) as (g & Eg & F). assert (I : q ∈ g).
  { assert (I : q ∈ P) by (rewrite E; set_solver). rewrite Eg in I. apply elem_of_app in I as [I|[I|I]%elem_of_app]; [|done|];
      apply list_elem_of_In, List.filter_In in I as [_ I]; exfalso; bcases; [border|done|border|done]. }
  apply list_elem_of_split in I as (g1 & g2 & ->). apply Forall_app in F as [F1 [_ F2]%Forall_cons].
  exists g1, g2. rewrite <- !app_assoc in Eg. cbn in Eg. rewrite app_assoc in Eg.
  by destruct (split_inj _ _ _ _ _ E Eg) as [-> ->].
Qed.

Lemma above_key key : Forall (fun q => is_key key q = false) (above key).
Proof.
  eapply Forall_impl; [apply filter_Forall|]. cbn. intros q B. unfold is_key. bcases; try done. subst. border.
Qed.
Lemma below_key key : Forall (fun q => is_key key q = false) (rev (below key)).
Proof.
  apply Forall_rev. eapply Forall_impl; [apply filter_Forall|]. cbn. intros q B. unfold is_key. bcases; try done. subst. border.
Qed.

(** [NextKey] goes to the next key. *)
Lemma first_key_gt_above key : first_key_gt db key = head (above key).
Proof.
  unfold first_key_gt, above. induction P as [|q l IH]; [done|]. cbn. by destruct (bltb key (q_user q)).
Qed.

(** Later positions of a key are versions, and so are points. *)
Lemma later_version l q r : P = l ++ q :: r ->
  Forall (fun x => is_key (q_user q) x = true -> q_ts x <> EmptyTimestamp /\ has_point x = true) r.
Proof.
  intros E. pose proof (ok_sorted db ok) as S. rewrite E in S. apply sorted_app in S as [_ F].
  apply Forall_forall. intros x I K%beqb_true. rewrite Forall_forall in F. specialize (F x I). unfold q_lt in F.
  apply Less_spec in F as [F|[_ F]]; [unfold q_user in K; rewrite K in F; border|].
  assert (N : q_ts x <> EmptyTimestamp) by (unfold q_ts; destruct F as [[]|(? & ? & _)]; done). split; [done|].
  unfold has_point. destruct (q_val x) eqn:V; [done|]. destruct (ok_bare db ok x) as [T _]; [rewrite E; set_solver|done|done].
Qed.

(** ** Range keys *)

Lemma stack_at_in key : Stack_IsEmpty (stack_at db key) = false ->
  stack_at db key ∈ stacks db /\ Span_ContainsKey (Bounds (stack_at db key)) key = true.
Proof.
  unfold stack_at. destruct (List.find _ _) as [s|] eqn:F; [|done]. apply List.find_some in F as [I C]. by rewrite list_elem_of_In.
Qed.

Lemma stack_at_empty key : Stack_IsEmpty (stack_at db key) = true -> stack_at db key = EmptyStack.
Proof.
  unfold stack_at. destruct (List.find _ _) as [s|] eqn:F; [|done]. apply List.find_some in F as [I _].
  pose proof (ok_stacks db ok) as K. rewrite Forall_forall in K. apply list_elem_of_In in I. destruct (K s I) as [N _].
  unfold Stack_IsEmpty, Versions_IsEmpty. by destruct (Versions s).
Qed.

(** A bare position is the first one in its stack. *)
Lemma bare_starts q y : y ∈ P -> MVCCKey_Less (q_key q) (q_key y) = true -> the_stack db q = the_stack db y -> has_point y = true.
Proof.
  intros I B E. unfold has_point. destruct (q_val y) eqn:V; [done|exfalso]. destruct (ok_bare db ok y I V) as (T & K & N).
  fold (the_stack db y) in K, N. rewrite <- E in N, K. apply stack_at_in in N as [_ C]. unfold Span_ContainsKey in C.
  fold (the_stack db q) in C. rewrite K in C. apply Less_spec in B as [B|[_ [[_ B]|(_ & B & _)]]].
  - apply andb_true_iff in C as [C _]. unfold q_user in C. bcases; [border|done].
  - by rewrite <- T in B.
  - by rewrite <- T in B.
Qed.

(** ** Seeks *)

Definition from (k : MVCCKey) : list pos := List.filter (fun q => negb (MVCCKey_Less (q_key q) k)) P.

Lemma from_suffix k : exists l, P = l ++ from k /\ Forall (fun q => MVCCKey_Less (q_key q) k = true) l.
Proof.
  exists (List.filter (fun q => MVCCKey_Less (q_key q) k) P). split; [|apply filter_Forall]. unfold from.
  assert (S := ok_sorted db ok). induction S as [|q l S IH F]; [done|]. cbn.
  destruct (MVCCKey_Less (q_key q) k) eqn:B; cbn; [by f_equal|].
  assert (F' : Forall (fun x => MVCCKey_Less (q_key x) k = false) l).
  { eapply Forall_impl; [done|]. intros x Hx. apply not_true_is_false. intros C.
    by rewrite (Less_trans _ _ _ Hx C) in B. }
  rewrite filter_none by done. cbn. f_equal. rewrite filter_all; [done|]. eapply Forall_impl; [done|]. cbn. by intros x ->.
Qed.

Lemma first_ge_from k : first_ge db k = head (from k).
Proof. unfold first_ge, from. induction P as [|q l IH]; [done|]. cbn. by destruct (negb _). Qed.

(** Where a seek goes: to the positions from the key on, or to the key itself inside a range key. *)
Lemma seek_path k : exists l, path (first_gt db) l /\ seek_ge db k = or_hi (head l) /\
  (l = from k \/ (l = MkPos k None :: from k /\ Stack_IsEmpty (stack_at db (k_Key k)) = false)).
Proof.
  destruct (from_suffix k) as (a & E & F). unfold seek_ge. destruct (_ && _) eqn:B.
  - apply andb_true_iff in B as [B%negb_true_iff X%negb_true_iff].
    exists (MkPos k None :: from k). split_and!; [|done|by right]. split; [|by eapply path_suffix].
    unfold first_gt. rewrite E at 1. cbn. rewrite find_skip.
    + apply find_head. intros x Hx. destruct (from k) as [|y t] eqn:Ef; [done|]. simplify_eq/=.
      assert (I : In x (from k)) by (rewrite Ef; by left). apply List.filter_In in I as [I N%negb_true_iff].
      apply Less_total; [done|]. apply not_true_is_false. intros Q. apply not_true_iff_false in X. apply X.
      apply existsb_exists. by exists x.
    + eapply Forall_impl; [done|]. intros x Hx. by apply Less_asym.
  - exists (from k). split_and!; [by eapply path_suffix| |by left]. by rewrite first_ge_from.
Qed.

Lemma last_lt_below key : last_lt db (MkMVCCKey key EmptyTimestamp) = head (rev (below key)).
Proof.
  destruct (split_key key) as (g & E & F). unfold last_lt. rewrite E at 1. rewrite !rev_app_distr, <- app_assoc, find_skip, find_skip.
  - apply find_head. intros x Hx. destruct (rev (below key)) as [|y t] eqn:Er; [done|]. simplify_eq/=.
    assert (I : In x (below key)) by (apply in_rev; rewrite Er; by left). apply List.filter_In in I as [_ B].
    apply Less_spec. left. cbn. unfold q_user in B. by bcases.
  - apply Forall_rev. eapply Forall_impl; [done|]. cbn. intros x K%beqb_true. apply not_true_is_false. intros [B|[_ B]]%Less_spec; cbn in B.
    + unfold q_user in K. rewrite K in B. border.
    + destruct B as [[_ []]|(_ & [] & _)]; done.
  - apply Forall_rev. eapply Forall_impl; [apply filter_Forall|]. cbn. intros x K. apply not_true_is_false. unfold q_user in K.
    intros [B|[B _]]%Less_spec; cbn in B; bcases; try done; [border|]. rewrite B in *. border.
Qed.
End Snapshot.

(** * Positioning the scanner *)

Section Moves.
Context `{L : ScanLib} {R : Type} `{!Results R} (c : config) (db : snapshot) (ok : snapshot_ok db).
Context {It : Type} {M : MVCCIterator It} `{!IteratorLaws M db} (fuel : nat).
Implicit Types (o : @out L R) (p : @scanner L R It).

Abbreviation P := (positions db).

Definition abs p : ref := it_abs (parent p).

(** What positioning leaves alone. *)
Definition keeps p p' : Prop :=
  peeked p' = peeked p /\ itersBeforeSeek p' = itersBeforeSeek p /\ fn p' = fn p /\ origKey p' = origKey p.

Lemma keeps_refl p : keeps p p.
Proof. done. Qed.
Lemma keeps_trans p1 p2 p3 : keeps p1 p2 -> keeps p2 p3 -> keeps p1 p3.
Proof. unfold keeps. intuition congruence. Qed.

Definition edge (reverse : bool) : cursor := if reverse then Lo else Hi.
Definition cursor_of (reverse : bool) (l : list pos) : cursor := match l with q :: _ => At q | [] => edge reverse end.
Definition step (reverse : bool) : MVCCKey -> option pos := if reverse then last_lt db else first_gt db.

(** The scanner is where the reference walk landed. *)
Definition landed (full reverse : bool) p (x : @scanner L R It * bool) (y : @out L R * list pos) : Prop :=
  let '(p', b) := x in let '(o, l) := y in
  keeps p p' /\ so p' = o /\
  match l with
  | [] => b = false /\ (has_err o = true \/ r_cur (abs p') = edge reverse)
  | q :: _ => b = true /\ r_cur (abs p') = At q /\
              if full then sc p' = cur_of db q else curRangeKeys (sc p') = the_stack db q
  end.

(** The range keys of the scanner and the change the iterator reports agree with the stack that
    the reference walk comes from. *)
Record entry p (st : MVCCRangeKeyStack) (seeked reverse : bool) (q : pos) : Prop := {
  en_check :
    (if Stack_IsEmpty (the_stack db q) then Ok (so p, true)
     else if r_changed (abs p) || (seeked && Stack_IsEmpty (curRangeKeys (sc p)))
     then check_range_keys c (so p) (has_point q) (q_key q) (the_stack db q)
     else Ok (so p, true)) = encounter c db (so p) st q;
  en_keys :
    r_changed (abs p) = false -> seeked && Stack_IsEmpty (curRangeKeys (sc p)) = false ->
    seeked || reverse = false \/ Stack_IsEmpty (the_stack db q) = false -> curRangeKeys (sc p) = the_stack db q;
  en_point : r_changed (abs p) = false -> seeked = false -> reverse = false -> has_point q = true
}.

Definition bare_ok (q : pos) : Prop := has_point q = false -> Stack_IsEmpty (the_stack db q) = false.

Lemma entry_step p st seeked reverse q :
  curRangeKeys (sc p) = st -> r_changed (abs p) = negb (bool_decide (st = the_stack db q)) ->
  (seeked = false -> reverse = false -> st = the_stack db q -> has_point q = true) ->
  entry p st seeked reverse q.
Proof.
  intros K C H. constructor; rewrite ?K, C; unfold encounter.
  - destruct (bool_decide_reflect (st = the_stack db q)) as [E|E]; cbn [negb orb].
    + destruct (Stack_IsEmpty (the_stack db q)) eqn:F; [done|]. rewrite E, F. by rewrite andb_false_r.
    + by destruct (Stack_IsEmpty (the_stack db q)).
  - by intros E%negb_false_iff%bool_decide_eq_true.
  - intros E%negb_false_iff%bool_decide_eq_true. auto.
Qed.

Lemma first_gt_some k y : first_gt db k = Some y -> y ∈ P /\ MVCCKey_Less k (q_key y) = true.
Proof. unfold first_gt. intros [I H]%List.find_some. by rewrite list_elem_of_In. Qed.

(** A step of the iterator from a position. *)
Lemma step_abs p q l reverse : r_cur (abs p) = At q -> step reverse (q_key q) = head l ->
  it_abs (if negb reverse then Next (parent p) else Prev (parent p)) = move db (abs p) (cursor_of reverse l).
Proof.
  unfold abs, step. intros A S. destruct reverse; cbn.
  - rewrite it_Prev by (by rewrite A). unfold ref_Prev. rewrite A, S. by destruct l.
  - rewrite it_Next by (by rewrite A). unfold ref_Next. rewrite A, S. by destruct l.
Qed.

Lemma check_range_keys_false o hp k st o' : check_range_keys c o hp k st = Ok (o', false) -> has_err o' = true.
Proof.
  unfold check_range_keys. destruct (checkUncertainty c); [|done].
  match goal with |- range_uncertainty _ ?o _ = _ -> _ => generalize o end. induction (Versions st) as [|v vs IH]; intros o1; cbn; [done|].
  destruct (Timestamp_LessEq _ _); [done|]. destruct (DecodeMVCCValue _); [|by intros [= <-]|done].
  intros (u & _ & E)%res_bind_inv. destruct u; [by injection E as <-|by eapply IH].
Qed.

Lemma encounter_false o st q o' : encounter c db o st q = Ok (o', false) -> has_err o' = true.
Proof. unfold encounter. destruct (_ || _); [done|]. apply check_range_keys_false. Qed.

Lemma move_changed r q y : r_cur r = At q -> r_changed (move db r (At y)) = negb (bool_decide (the_stack db q = the_stack db y)).
Proof. unfold move. by intros ->. Qed.

Lemma process_land n p st seeked reverse q l :
  r_cur (abs p) = At q -> path (step reverse) (q :: l) -> Forall bare_ok (q :: l) -> (length l < n)%nat ->
  entry p st seeked reverse q ->
  sim (landed false reverse p) (processRangeKeys_loop c n p seeked reverse) (land c db None (so p) st (q :: l)).
Proof.
  revert p st q l. induction n as [|n IH]; intros p st q l A Pa B N E; [lia|]. cbn [processRangeKeys_loop].
  assert (V : is_at (abs p) = true) by (unfold is_at; by rewrite A).
  rewrite it_RangeKeyChanged, (it_HasPointAndRange _ q), (it_RangeKeys_at _ q), (it_UnsafeKey _ q) by done.
  fold (abs p) (the_stack db q). cbn [land is_last]. rewrite <- (en_check _ _ _ _ _ E), andb_true_r.
  apply Forall_cons in B as [Bq B]. destruct (negb _ && negb reverse && negb seeked) eqn:Quiet.
  { apply andb_true_iff in Quiet as [[C%negb_true_iff ->%negb_true_iff]%andb_true_iff ->%negb_true_iff].
    rewrite C, (en_point _ _ _ _ _ E C eq_refl eq_refl). cbn [orb andb].
    assert (Ek : curRangeKeys (sc p) = the_stack db q) by (apply (en_keys _ _ _ _ _ E); auto).
    by destruct (Stack_IsEmpty _). }
  destruct (Stack_IsEmpty (the_stack db q)) eqn:Emp; cbn [negb].
  { destruct (has_point q) eqn:H; [|by rewrite Bq in Emp]. cbn. split_and!; try done. symmetry. by apply stack_at_empty. }
  eapply (sim_bind (fun x y => keeps p x.1 /\ parent x.1 = parent p /\ so x.1 = y.1 /\ x.2 = y.2 /\
    curRangeKeys (sc x.1) = the_stack db q /\ (y.2 = false -> has_err y.1 = true))).
  { destruct (_ || _) eqn:C.
    - unfold lift. cbn [so set_range_keys set_cur sc curRangeKeys].
      destruct (check_range_keys _ _ _ _ _) as [[o []]| |] eqn:F; cbn; try done. split_and!; try done. intros _. by eapply check_range_keys_false.
    - apply orb_false_iff in C as [C1 C2]. cbn. split_and!; try done. apply (en_keys _ _ _ _ _ E); auto. }
  intros [p1 b] [o b'] (K & Pp & So & Eb & Kr & F). cbn [fst snd] in *. subst b'. destruct b; cbn [negb]; [|by cbn; split_and!; auto].
  assert (A1 : r_cur (abs p1) = At q) by (unfold abs; by rewrite Pp).
  destruct (has_point q) eqn:H; cbn; [done|]. destruct Pa as [S Pa].
  set (p2 := set_parent p1 _). assert (A2 : abs p2 = move db (abs p1) (cursor_of reverse l)) by (by apply (step_abs p1 q)).
  unfold iterValid. rewrite it_Valid. fold (abs p2). rewrite A2. destruct l as [|y l]; cbn [cursor_of].
  { unfold is_at. replace (r_cur _) with (edge reverse) by done. replace (match edge reverse with At _ => true | _ => false end) with false by (by destruct reverse).
    cbn. split_and!; try done. right. fold (abs p2). by rewrite A2. }
  cbn. eapply sim_mono; [|subst o; apply (IH p2 (the_stack db q) y l); try done].
  - intros [p3 b3] [o3 l3] (K3 & S3 & E3). split_and!; try done. by eapply keeps_trans.
  - by rewrite A2.
  - cbn [length] in N. lia.
  - apply entry_step; [done|rewrite A2; by apply (move_changed _ q)|]. intros _ -> Est. destruct (first_gt_some (q_key q) y S). by apply (bare_starts db ok q).
Qed.

Lemma pos_wf q : q ∈ P -> ts_wf (k_Timestamp (q_key q)).
Proof.
  intros I. pose proof (ok_pos db ok) as F. rewrite Forall_forall in F. destruct (F q I) as [_ [E|[E _]]]; [|done].
  unfold q_ts in E. rewrite E. unfold ts_wf, isS. cbn. lia.
Qed.

Lemma updateCurrent_at p q : r_cur (abs p) = At q -> q ∈ P -> has_point q = true -> curRangeKeys (sc p) = the_stack db q ->
  updateCurrent p = Ok (set_cur p (cur_of db q), true).
Proof.
  intros A I H K. unfold updateCurrent. pose proof (it_UnsafeRawMVCCKey _ q A) as E. rewrite EncodeMVCCKey_eq in E. injection E as E.
  rewrite <- E, DecodeMVCCKey_enc by (by apply pos_wf). unfold has_point in H. destruct (q_val q) as [v|] eqn:V; [|done].
  rewrite (it_UnsafeLazyValue _ q v A V). unfold cur_of. by rewrite V, K.
Qed.

Lemma settle_land p st seeked reverse l :
  r_cur (abs p) = cursor_of reverse l -> path (step reverse) l -> Forall bare_ok l ->
  Forall (fun q => has_point q = true -> q ∈ P) l -> (length l <= fuel)%nat ->
  (forall q t, l = q :: t -> entry p st seeked reverse q) ->
  sim (landed true reverse p) (settle c fuel p seeked reverse) (land c db None (so p) st l).
Proof.
  intros A Pa B F N E. unfold settle, iterValid. rewrite it_Valid. fold (abs p). destruct l as [|q l].
  { unfold is_at. rewrite A. cbn [cursor_of]. replace (match edge reverse with At _ => true | _ => false end) with false by (by destruct reverse).
    cbn. auto using keeps_refl. }
  replace (is_at (abs p)) with true by (unfold is_at; by rewrite A). cbn [mbind res_bind negb].
  unfold processRangeKeys. pose proof (process_land fuel p st seeked reverse q l A Pa B N (E q l eq_refl)) as Q.
  destruct (processRangeKeys_loop _ _ _ _ _) as [[p' b]| |], (land _ _ _ _ _ _) as [[o l']| |] eqn:La; try done.
  destruct Q as (K & So & Q). cbn [mbind res_bind]. destruct l' as [|y t].
  { destruct Q as [-> Q]. by cbn. }
  destruct Q as (-> & A' & Kr). cbn [negb]. apply land_split in La as [La|(pre & y' & t' & El & [= <- <-] & H & _)]; [done|].
  rewrite (updateCurrent_at _ y); [by cbn|done| |done|done]. rewrite El, Forall_app, Forall_cons in F. by apply F.
Qed.

(** ** Where the scanner is *)

(** A scanner that has peeked stands before the current position. *)
Definition spot p (l : list pos) (q : pos) : Prop :=
  if peeked p then
    c_reverse c = true /\ 1 <= itersBeforeSeek p /\
    r_cur (abs p) = cursor_of true (rev l) /\
    r_changed (abs p) = negb (bool_decide (the_stack db q = cursor_stack db (cursor_of true (rev l))))
  else r_cur (abs p) = At q.

Definition iters_ok p : Prop := 0 <= itersBeforeSeek p <= c_maxItersBeforeSeek c.

Lemma keeps_iters p p' : keeps p p' -> iters_ok p -> iters_ok p'.
Proof. intros (_ & E & _). unfold iters_ok. by rewrite E. Qed.
Lemma keeps_peeked p p' : keeps p p' -> peeked p = false -> peeked p' = false.
Proof. by intros (-> & _). Qed.

Record at_pos p (l : list pos) (q : pos) (r : list pos) : Prop := {
  ap_split : P = l ++ q :: r;
  ap_point : has_point q = true;
  ap_spot : spot p l q;
  ap_keys : curRangeKeys (sc p) = the_stack db q;
  ap_key : cur_key p = q_user q;
  ap_iters : iters_ok p
}.

Lemma bare_pos q : q ∈ P -> bare_ok q.
Proof.
  intros I. unfold bare_ok, has_point. destruct (q_val q) eqn:V; [done|]. intros _. by apply (ok_bare db ok).
Qed.

Lemma sub_ok l : (forall q, q ∈ l -> q ∈ P) -> Forall bare_ok l /\ Forall (fun q => has_point q = true -> q ∈ P) l.
Proof. intros I. split; apply Forall_forall; intros q Hq; [apply bare_pos|]; auto. Qed.

Lemma cursor_or (reverse : bool) (l : list pos) : (if reverse then or_lo (head l) else or_hi (head l)) = cursor_of reverse l.
Proof. by destruct reverse, l. Qed.

(** Entering the next position from a known one. *)
Lemma entry_move p p0 q y reverse seeked :
  r_cur (abs p0) = At q -> abs p = move db (abs p0) (At y) -> curRangeKeys (sc p) = the_stack db q ->
  (seeked = false -> reverse = false -> y ∈ P /\ MVCCKey_Less (q_key q) (q_key y) = true) ->
  entry p (the_stack db q) seeked reverse y.
Proof.
  intros A E K B. apply entry_step; [done|rewrite E; by apply (move_changed _ q)|].
  intros S Rv Est. destruct (B S Rv). by apply (bare_starts db ok q).
Qed.

Lemma suffix_in l r q : P = l ++ r -> q ∈ r -> q ∈ P.
Proof. intros -> ?. set_solver. Qed.
Lemma prefix_in l r q : P = l ++ r -> q ∈ rev l -> q ∈ P.
Proof. intros -> I%list_elem_of_In%in_rev%list_elem_of_In. set_solver. Qed.

Lemma split_length l r : P = l ++ r -> (length r <= length P /\ length (rev l) <= length P)%nat.
Proof. intros ->. rewrite length_rev, length_app. lia. Qed.

Lemma suffix_sub l r : P = l ++ r ->
  path (first_gt db) r /\ Forall bare_ok r /\ Forall (fun x => has_point x = true -> x ∈ P) r /\ (length r <= length P + 1)%nat.
Proof.
  intros E. split; [by eapply path_suffix|]. destruct (sub_ok r); [intros q; by eapply suffix_in|]. split_and!; [done..|].
  destruct (split_length _ _ E). lia.
Qed.
Lemma prefix_sub l r : P = l ++ r ->
  path (last_lt db) (rev l) /\ Forall bare_ok (rev l) /\ Forall (fun x => has_point x = true -> x ∈ P) (rev l) /\
  (length (rev l) <= length P + 1)%nat.
Proof.
  intros E. split; [by eapply path_rev|]. destruct (sub_ok (rev l)); [intros q; by eapply prefix_in|]. split_and!; [done..|].
  destruct (split_length _ _ E). lia.
Qed.

Lemma cons_split l q r : P = l ++ q :: r -> P = (l ++ [q]) ++ r.
Proof. intros ->. by rewrite <- app_assoc. Qed.

(** ** The number of steps before a seek *)

Lemma increment_ok p : iters_ok p -> iters_ok (incrementItersBeforeSeek c p).
Proof. unfold iters_ok. cbn. destruct (Z.ltb_spec (c_maxItersBeforeSeek c) (itersBeforeSeek p + 1)); lia. Qed.
Lemma decrement_ok p : iters_ok p -> iters_ok (decrementItersBeforeSeek c p).
Proof. unfold iters_ok. cbn. repeat match goal with |- context [?a <? ?b] => destruct (Z.ltb_spec a b) end; lia. Qed.

Lemma increment_at p l q r : at_pos p l q r -> at_pos (incrementItersBeforeSeek c p) l q r.
Proof.
  intros [S H Sp K Ck Io]. constructor; try done; [|by apply increment_ok]. unfold spot in *. cbn. destruct (peeked p); [|done].
  destruct Sp as (? & ? & ? & ?). split_and!; try done. destruct (Z.ltb_spec (c_maxItersBeforeSeek c) (itersBeforeSeek p + 1)); unfold iters_ok in *; lia.
Qed.
Lemma decrement_at p l q r : at_pos p l q r -> peeked p = false -> at_pos (decrementItersBeforeSeek c p) l q r.
Proof.
  intros [S H Sp K Ck Io] Pk. constructor; try done; [|by apply decrement_ok]. unfold spot in *. cbn. by rewrite Pk in *.
Qed.

(** ** Steps and seeks *)

Context (enough : (length P + 1 <= fuel)%nat).

Lemma unpeek p l q r : at_pos p l q r -> peeked p = true ->
  it_abs (Next (parent p)) = move db (abs p) (At q).
Proof.
  intros [S _ Sp _ _ _] Pk. unfold spot in Sp. rewrite Pk in Sp. destruct Sp as (_ & _ & A & _). fold (abs p) in *.
  assert (rev_head : cursor_of true (rev l) <> Hi) by (by destruct (rev l)).
  rewrite it_Next by (fold (abs p); by rewrite A). unfold ref_Next. fold (abs p). rewrite A.
  destruct l as [|x l _] using rev_ind; cbn [rev cursor_of edge].
  - rewrite S. done.
  - rewrite rev_app_distr. cbn. rewrite (first_gt_split db ok l x (q :: r)); [done|]. by rewrite S, <- app_assoc.
Qed.

(** Settling after a move from a known position. *)
Lemma settle_move p p1 r0 q seeked reverse l :
  keeps p p1 -> so p1 = so p -> curRangeKeys (sc p1) = the_stack db q ->
  r_cur r0 = At q -> abs p1 = move db r0 (cursor_of reverse l) ->
  path (step reverse) l -> Forall bare_ok l -> Forall (fun x => has_point x = true -> x ∈ P) l -> (length l <= length P + 1)%nat ->
  (seeked = false -> reverse = false -> forall y t, l = y :: t -> y ∈ P /\ MVCCKey_Less (q_key q) (q_key y) = true) ->
  sim (landed true reverse p) (settle c fuel p1 seeked reverse) (land c db None (so p) (the_stack db q) l).
Proof.
  intros Kp So K A A1 Pa B I N Hy. rewrite <- So. eapply sim_mono; [|apply settle_land; [by rewrite A1|done|done|done|lia|]].
  - intros [p2 b] [o t] (K2 & Q). split; [|done]. by eapply keeps_trans.
  - intros y t ->. apply entry_step; [done|rewrite A1; by apply (move_changed _ q)|].
    intros S Rv Est. destruct (Hy S Rv y t eq_refl). by apply (bare_starts db ok q).
Qed.

Lemma iterNext_land p l q r : at_pos p l q r ->
  sim (landed true false (set_peeked p false)) (iterNext c fuel p) (land c db None (so p) (the_stack db q) r).
Proof.
  intros Ap. pose proof Ap as [S H Sp K _ _]. unfold iterNext. cbv zeta. change (parent (set_peeked p false)) with (parent p).
  assert (exists p0, (if c_reverse c && peeked p then iterValid (set_parent (set_peeked p false) (Next (parent p))) else Ok (p, true)) = Ok (p0, true) /\
            keeps (set_peeked p false) p0 /\ so p0 = so p /\ sc p0 = sc p /\ r_cur (abs p0) = At q) as (p0 & -> & Kp & So & Sc & A).
  { destruct (peeked p) eqn:Pk.
    - pose proof (unpeek p l q r Ap Pk) as U. unfold spot in Sp. rewrite Pk in Sp. destruct Sp as (-> & _). cbn [andb].
      unfold iterValid. rewrite it_Valid. cbn. rewrite U. eexists. split; [done|]. split_and!; try done. unfold abs. cbn. by rewrite U.
    - rewrite andb_false_r. exists p. unfold spot in Sp. rewrite Pk in Sp. split_and!; done. }
  cbn [mbind res_bind negb]. pose proof (first_gt_split db ok l q r S) as G.
  destruct (suffix_sub (l ++ [q]) r) as (? & ? & ? & ?); [by apply cons_split|].
  apply (settle_move (set_peeked p false) _ (abs p0) q); try done; [cbn; by rewrite Sc|by apply (step_abs p0 q r false)|].
  intros _ _ y t ->. by apply first_gt_some.
Qed.

Lemma nextKey_land p l q r : at_pos p l q r -> c_reverse c = false ->
  sim (landed true false p) (nextKey c fuel p) (land c db None (so p) (the_stack db q) (above db (q_user q))).
Proof.
  intros [S H Sp K _ _] Fw. unfold nextKey. rewrite Fw. cbn [andb mbind res_bind negb]. unfold spot in Sp.
  destruct (peeked p); [destruct Sp; congruence|]. destruct (split_around db ok l q r S) as (g1 & g2 & El & Er & _).
  destruct (suffix_sub (l ++ q :: g2) (above db (q_user q))) as (? & ? & ? & ?); [by rewrite S, Er, <- app_assoc|].
  apply (settle_move p _ (abs p) q); try done.
  - unfold abs at 1. cbn. rewrite it_NextKey by (unfold is_at; fold (abs p); by rewrite Sp). unfold ref_NextKey. fold (abs p).
    rewrite Sp, first_key_gt_above. by destruct (above _ _).
  - intros _ _ y t E. assert (I : In y (above db (q_user q))) by (rewrite E; by left). apply List.filter_In in I as [I B].
    rewrite <- list_elem_of_In in I. split; [done|]. apply Less_spec. left. unfold q_user in B. by bcases.
Qed.

Lemma iterPrev_land p l q r : at_pos p l q r ->
  sim (landed true true (set_peeked p false)) (iterPrev c fuel p) (land c db None (so p) (the_stack db q) (rev l)).
Proof.
  intros [S H Sp K _ _]. unfold iterPrev. destruct (prefix_sub l (q :: r) S) as (? & ? & ? & ?). unfold spot in Sp.
  destruct (peeked p) eqn:Pk.
  - destruct Sp as (_ & _ & A & Ch).
    apply (settle_move (set_peeked p false) _ (MkRef (At q) false) q); try done. unfold abs at 1, move. cbn. fold (abs p).
    destruct (abs p) as [cu ch]. cbn in *. by rewrite A, Ch.
  - apply (settle_move (set_peeked p false) _ (abs p) q); try done.
    apply (step_abs p q (rev l) true); [done|]. by eapply last_lt_split.
Qed.

(** A seek to a version of the current key. *)
Lemma from_sub k : Forall bare_ok (from db k) /\ Forall (fun x => has_point x = true -> x ∈ P) (from db k) /\
  (length (from db k) <= length P)%nat.
Proof.
  destruct (from_suffix db ok k) as (l & E & _). destruct (suffix_sub l _ E) as (_ & ? & ? & _). split_and!; [done..|].
  by destruct (split_length _ _ E).
Qed.

Lemma iterSeek_land p l q r t : at_pos p l q r -> peeked p = false ->
  sim (landed true false p) (iterSeek c fuel p (MkMVCCKey (q_user q) t))
    (land c db None (so p) (the_stack db q) (from db (MkMVCCKey (q_user q) t))).
Proof.
  intros [S H Sp K _ _] Pk. unfold iterSeek, spot in *. rewrite Pk in Sp. set (k := MkMVCCKey _ t).
  assert (clearPeeked c p = p) as -> by (unfold clearPeeked; destruct (c_reverse c); [|done]; destruct p; cbn in *; by subst).
  destruct (seek_path db ok k) as (l0 & Pa & G & Sh). destruct (from_sub k) as (B & I & N).
  replace (land c db None (so p) (the_stack db q) (from db k)) with (land c db None (so p) (the_stack db q) l0).
  - apply (settle_move p _ (abs p) q); try done.
    + unfold abs at 1. cbn. rewrite it_SeekGE. unfold ref_SeekGE. rewrite G. fold (abs p). by destruct l0.
    + destruct Sh as [->|[-> E]]; [done|]. constructor; [|done]. by intros _.
    + destruct Sh as [->|[-> E]]; [done|]. by constructor.
    + destruct Sh as [->|[-> E]]; cbn; lia.
  - destruct Sh as [->|[-> E]]; [done|]. cbn [land]. rewrite encounter_same by done. by cbn.
Qed.

(** The first seek of a scan finds the iterator anywhere. *)
Lemma entry_first p seeked reverse q : curRangeKeys (sc p) = EmptyStack -> seeked = true -> entry p EmptyStack seeked reverse q.
Proof.
  intros K ->. constructor; rewrite ?K; cbn; [|done|done]. rewrite orb_true_r. unfold encounter.
  destruct (Stack_IsEmpty (the_stack db q)) eqn:E; [by rewrite orb_true_r|]. rewrite bool_decide_false; [done|].
  intros F. by rewrite <- F in E.
Qed.

Lemma seekLT_first p key : curRangeKeys (sc p) = EmptyStack ->
  sim (landed true true p) (settle c fuel (set_parent p (SeekLT (parent p) (MkMVCCKey key EmptyTimestamp))) true true)
    (land c db None (so p) EmptyStack (rev (below db key))).
Proof.
  intros K. destruct (split_key db ok key) as (g & E & _). destruct (prefix_sub _ _ E) as (? & ? & ? & ?).
  set (p1 := set_parent _ _). eapply sim_mono; [|apply (settle_land p1); try done; [|lia|]].
  - by intros [p2 b] [o l] Q.
  - unfold abs. cbn. rewrite it_SeekLT. unfold ref_SeekLT. cbn. rewrite last_lt_below by done. by destruct (rev _).
  - intros q t _. by apply entry_first.
Qed.

Lemma seekLT_land p l q r key : at_pos p l q r -> peeked p = false ->
  sim (landed true true p) (settle c fuel (set_parent p (SeekLT (parent p) (MkMVCCKey key EmptyTimestamp))) true true)
    (land c db None (so p) (the_stack db q) (rev (below db key))).
Proof.
  intros [S H Sp K _ _] Pk. unfold spot in Sp. rewrite Pk in Sp.
  destruct (split_key db ok key) as (g & E & _). destruct (prefix_sub _ _ E) as (? & ? & ? & ?).
  apply (settle_move p _ (abs p) q); try done.
  unfold abs at 1. cbn. rewrite it_SeekLT. unfold ref_SeekLT. rewrite last_lt_below by done. fold (abs p). by destruct (rev _).
Qed.

(** Having landed. *)
Lemma landed_fwd p x l0 l o st o' y t : P = l0 ++ l -> peeked p = false -> iters_ok p ->
  land c db None o st l = Ok (o', y :: t) -> landed true false p x (o', y :: t) ->
  exists p' l1, x = (p', true) /\ keeps p p' /\ so p' = o' /\ sc p' = cur_of db y /\ at_pos p' l1 y t.
Proof.
  intros E Pk Io La. destruct x as [p' b]. intros (K & So & -> & A & Sc).
  apply land_split in La as [La|(pre & ? & ? & El & [= <- <-] & H & _)]; [done|]. exists p', (l0 ++ pre). split_and!; try done.
  destruct K as (K1 & K2 & _). constructor; try done.
  - by rewrite E, El, <- app_assoc.
  - unfold spot. by rewrite K1, Pk.
  - by rewrite Sc.
  - unfold cur_key. by rewrite Sc.
  - unfold iters_ok. by rewrite K2.
Qed.

Lemma landed_rev p x l r o st o' y t : P = l ++ r -> peeked p = false -> iters_ok p ->
  land c db None o st (rev l) = Ok (o', y :: t) -> landed true true p x (o', y :: t) ->
  exists p' r1, x = (p', true) /\ keeps p p' /\ so p' = o' /\ sc p' = cur_of db y /\ at_pos p' (rev t) y r1.
Proof.
  intros E Pk Io La. destruct x as [p' b]. intros (K & So & -> & A & Sc).
  apply land_split in La as [La|(pre & ? & ? & El & [= <- <-] & H & _)]; [done|]. exists p', (rev pre ++ r). split_and!; try done.
  destruct K as (K1 & K2 & _). constructor; try done.
  - rewrite E. apply (f_equal (@rev _)) in El. rewrite rev_involutive in El. rewrite El, rev_app_distr. cbn. by rewrite <- !app_assoc.
  - unfold spot. by rewrite K1, Pk.
  - by rewrite Sc.
  - unfold cur_key. by rewrite Sc.
  - unfold iters_ok. by rewrite K2.
Qed.

End Moves.
