(* ===== verification/ScanVersion.v ===== *)
(** Reading a key ([getOne] and [seekVersion]).

    The scanner is at the first point of a key.  Whether it steps or seeks to the version it
    wants, it reads what [read_key] reads from the list of the key's points.  It ends at a
    position of the key, or past the key because there was no such version; then it has already
    landed where the walk would land next, and the state machine records that. *)
From S2P Require Import Prelude Bytes GoLib Hlc KeyOps Spans MvccKey RangeKeys MvccValue MvccIter Scanner ScanSpec ScanNav.

Section Version.
Context `{L : ScanLib} {R : Type} `{!Results R} (c : config) (db : snapshot) (ok : snapshot_ok db).
Context {It : Type} {M : MVCCIterator It} `{!IteratorLaws M db} (fuel : nat).
Context (enough : (length (positions db) + 1 <= fuel)%nat).
Implicit Types (o : @out L R) (p : @scanner L R It).

Abbreviation P := (positions db).
Abbreviation at_pos := (at_pos c db).

(** ** How reading a key ends *)

Definition stays (key : bytes) (f : advanceFn) (x : @scanner L R It * (bool * bool)) (y : @out L R * (bool * bool)) : Prop :=
  x.2 = y.2 /\ so x.1 = y.1 /\ fn x.1 = f /\ exists l q r, at_pos x.1 l q r /\ q_user q = key.

Definition end_fn : advanceFn := if c_reverse c then advanceKeyAtEndReverseFn else advanceKeyAtEndForwardFn.
Definition new_fn : advanceFn := if c_reverse c then advanceKeyAtNewKeyReverseFn else advanceKeyAtNewKeyForwardFn.

Definition leaves (key : bytes) (x : @scanner L R It * (bool * bool)) (y : @out L R * list pos) : Prop :=
  x.2 = (true, false) /\ so x.1 = y.1 /\ peeked x.1 = false /\ iters_ok c x.1 /\
  match y.2 with
  | [] => fn x.1 = end_fn /\ (has_err y.1 = true \/ r_cur (abs db x.1) = Hi)
  | q :: t => fn x.1 = new_fn /\ origKey x.1 = key /\ sc x.1 = cur_of db q /\ exists l, at_pos x.1 l q t
  end.

(** The scanner ends at the key with what was read; or nothing was read and it went on to the next key. *)
Definition outcome key f (a : res (@scanner L R It * (bool * bool))) (spec : res (@out L R * (bool * bool))) : Prop :=
  sim (stays key f) a spec \/
  exists o, spec = Ok (o, (true, false)) /\ sim (leaves key) a (land c db None o (stack_at db key) (above db key)).

Lemma at_out p o l q r : at_pos p l q r -> at_pos (set_out p o) l q r.
Proof. by intros []. Qed.

Definition of_key (key : bytes) (l : list pos) : Prop := Forall (fun q => is_key key q = true) l.

(** A move that goes past the key. *)
Definition passes (key : bytes) (x : @scanner L R It * bool) (y : @out L R * list pos) : Prop :=
  so x.1 = y.1 /\ peeked x.1 = false /\ iters_ok c x.1 /\
  match y.2 with
  | [] => x.2 = false /\ (has_err y.1 = true \/ r_cur (abs db x.1) = Hi)
  | q :: t => x.2 = true /\ beqb (cur_key x.1) key = false /\ sc x.1 = cur_of db q /\ exists l, at_pos x.1 l q t
  end.

Lemma landed_passes p key x l0 o st y : P = l0 ++ above db key -> peeked p = false -> iters_ok c p ->
  land c db None o st (above db key) = Ok y -> landed db true false p x y -> passes key x y.
Proof.
  intros E Pk Io La Q. destruct y as [o' [|q t]].
  - destruct x as [p' b], Q as (K & So & -> & Q). unfold passes. cbn. split_and!; [done|by eapply keeps_peeked|by eapply keeps_iters|done|done].
  - destruct (landed_fwd c db p x l0 (above db key) o st o' q t) as (p' & l1 & -> & K & So & Sc & Ap); [done..|].
    unfold passes. cbn. split; [done|]. split; [by eapply keeps_peeked|]. split; [by eapply keeps_iters|]. split_and!; try done; [|by eauto].
    rewrite (ap_key _ _ _ _ _ _ Ap). apply land_split in La as [La|(pre & ? & ? & El & [= <- <-] & _)]; [done|].
    pose proof (above_key db key) as F. rewrite El, Forall_app, Forall_cons in F. apply F.
Qed.

Lemma next_passes p l q key : at_pos p l q (above db key) -> q_user q = key ->
  sim (passes key) (iterNext c fuel p) (land c db None (so p) (stack_at db key) (above db key)).
Proof.
  intros Ap <-. pose proof (iterNext_land c db ok fuel enough p l q _ Ap) as S. change (the_stack db q) with (stack_at db (q_user q)) in S.
  destruct (iterNext c fuel p), (land _ _ _ _ _ _) as [y| |] eqn:La; try done. cbn in *.
  eapply (landed_passes (set_peeked p false) (q_user q) _ (l ++ [q])); [|done|exact (ap_iters _ _ _ _ _ _ Ap)|done|done].
  apply cons_split, (ap_split _ _ _ _ _ _ Ap).
Qed.

Lemma passes_leaves key p b o l : passes key (p, b) (o, l) ->
  leaves key (if negb b then setAdvanceKeyAtEnd c p else setAdvanceKeyAtNewKey c p key, (true, false)) (o, l).
Proof.
  intros (So & Pk & Io & Q). destruct l as [|q t]; cbn in *.
  - by destruct Q as [-> Q].
  - destruct Q as (-> & _ & Sc & l1 & []). cbn. do 4 (split; [done|]). do 3 (split; [done|]). by exists l1.
Qed.

Lemma passes_increment key p b o l : passes key (p, b) (o, l) -> passes key (incrementItersBeforeSeek c p, b) (o, l).
Proof.
  intros (So & Pk & Io & Q). do 2 (split; [done|]). split; [by apply increment_ok|]. destruct l as [|q t]; [done|].
  destruct Q as (? & ? & ? & l1 & ?). do 3 (split; [done|]). exists l1. by apply increment_at.
Qed.

(** ** Stepping to the version *)

Definition gives_up key o w seekTS unc f (a : res (@scanner L R It * option (bool * bool))) : Prop :=
  exists p l q w' h, a = Ok (p, None) /\ at_pos p l q (w' ++ above db key) /\ q_user q = key /\ peeked p = false /\ fn p = f /\
    List.filter (at_or_below seekTS) w = h ++ List.filter (at_or_below seekTS) w' /\
    read_version c db o (List.filter (at_or_below seekTS) w) unc = read_version c db (so p) (List.filter (at_or_below seekTS) w') unc /\
    ((h = [] /\ so p = o) \/ exists v, so p = set_value o v None).

Definition some {A} (a : res (@scanner L R It * A)) : res (@scanner L R It * option A) := '(p, r) ← a; Ok (p, Some r).

Lemma step_in_key p l q x w key : at_pos p l q (x :: w ++ above db key) -> q_user q = key -> is_key key x = true ->
  exists p' l', iterNext c fuel p = Ok (p', true) /\ keeps (set_peeked p false) p' /\ so p' = so p /\ sc p' = cur_of db x /\
    at_pos p' l' x (w ++ above db key).
Proof.
  intros Ap U K. pose proof (iterNext_land c db ok fuel enough p l q _ Ap) as S. pose proof (later_version db ok _ _ _ (ap_split _ _ _ _ _ _ Ap)) as V.
  rewrite U in V. apply Forall_cons in V as [V _]. destruct (V K) as [_ H].
  assert (La : land c db None (so p) (the_stack db q) (x :: w ++ above db key) = Ok (so p, x :: w ++ above db key)).
  { cbn [land]. rewrite encounter_same; [by rewrite H|]. rewrite (same_stack db x key) by done. by rewrite <- U. }
  rewrite La in S. destruct (iterNext c fuel p) as [y| |]; try done. cbn in S.
  destruct (landed_fwd c db (set_peeked p false) y (l ++ [q]) (x :: w ++ above db key) (so p) (the_stack db q) (so p) x (w ++ above db key))
    as (p' & l1 & -> & K' & So & Sc & Ap'); [|done|exact (ap_iters _ _ _ _ _ _ Ap)|exact La|done|by exists p', l1].
  apply cons_split, (ap_split _ _ _ _ _ _ Ap).
Qed.

Lemma seek_next n p i l q w key seekTS unc :
  at_pos p l q (w ++ above db key) -> q_user q = key -> of_key key w -> (length w < n)%nat -> 0 <= i ->
  (peeked p = true -> i = 0) ->
  let a := seek_next_loop c fuel n p seekTS unc key i in
  (exists a', a = some a' /\ outcome key (fn p) a' (read_version c db (so p) (List.filter (at_or_below seekTS) w) unc)) \/
  gives_up key (so p) w seekTS unc (fn p) a.
Proof.
  revert p i l q w. induction n as [|n IH]; intros p i l q w Ap U W N Hi Pk; [lia|]. cbn [seek_next_loop].
  destruct (Z.ltb_spec i (itersBeforeSeek p)) as [Lt|Ge]; cbn [negb].
  2: { right. exists p, l, q, w, []. split_and!; try done; [|by left]. destruct (peeked p) eqn:E; [|done]. exfalso.
       pose proof (ap_spot _ _ _ _ _ _ Ap) as Sp. unfold spot in Sp. rewrite E in Sp. destruct Sp as (_ & ? & _). specialize (Pk eq_refl). lia. }
  destruct w as [|x w].
  { left. pose proof (next_passes p l q key Ap U) as S. destruct (iterNext c fuel p) as [[p1 b]|e|e], (land _ _ _ _ _ _) as [[o1 l1]| |] eqn:La; try done.
    - cbn [mbind res_bind]. destruct b; cbn [negb].
      + assert (beqb (cur_key p1) key = false) as -> by (destruct S as (_ & _ & _ & S); cbn in S; destruct l1; naive_solver).
        exists (Ok (setAdvanceKeyAtNewKey c (incrementItersBeforeSeek c p1) key, (true, false))). split; [done|]. right. exists (so p). split; [done|].
        rewrite La. apply (passes_leaves key (incrementItersBeforeSeek c p1) true). by apply passes_increment.
      + exists (Ok (setAdvanceKeyAtEnd c p1, (true, false))). split; [done|]. right. exists (so p). split; [done|]. rewrite La.
        by apply (passes_leaves key p1 false).
    - exists (Err e). split; [done|]. right. exists (so p). split; [done|]. by rewrite La.
    - exists (Panic e). split; [done|]. right. exists (so p). split; [done|]. by rewrite La. }
  apply Forall_cons in W as [Kx W]. destruct (step_in_key p l q x w key Ap U Kx) as (p1 & l1 & -> & K1 & So & Sc & Ap1).
  cbn [mbind res_bind negb]. unfold cur_key. rewrite Sc. cbn [curUnsafeKey cur_of]. fold (q_user x). fold (is_key key x). rewrite Kx. cbn [negb].
  assert (Ux : q_user x = key) by (by apply beqb_true). fold (q_ts x).
  destruct K1 as (Pk1 & It1 & F1 & _). cbn in Pk1, It1, F1. cbn [length] in N. destruct (Timestamp_LessEq (q_ts x) seekTS) eqn:Le.
  2: { assert (Ef : List.filter (at_or_below seekTS) (x :: w) = List.filter (at_or_below seekTS) w) by (cbn; unfold at_or_below at 1; by rewrite Le).
       unfold gives_up. rewrite Ef, <- F1, <- So. apply (IH p1 (i + 1) l1 x w); try done; [lia|lia|congruence]. }
  assert (Ef : List.filter (at_or_below seekTS) (x :: w) = x :: List.filter (at_or_below seekTS) w) by (cbn; unfold at_or_below at 1; by rewrite Le).
  unfold gives_up. rewrite Ef. cbn [read_version].
  change (sc (incrementItersBeforeSeek c p1)) with (sc p1). change (so (incrementItersBeforeSeek c p1)) with (so p1). unfold lift. rewrite Sc, So.
  apply increment_at in Ap1. set (p2 := incrementItersBeforeSeek c p1) in *.
  destruct (seek_candidate c (so p) (cur_of db x) unc) as [[o1 [r|]]|e|e] eqn:Cand; cbn [mbind res_bind].
  - left. exists (Ok (set_out p2 o1, r)). split; [done|]. left. unfold stays. cbn. do 3 (split; [done|]). exists l1, x, (w ++ above db key). split; [by apply at_out|done].
  - destruct (seek_candidate_None c db _ _ _ _ Cand) as [v Ev].
    destruct (IH (set_out p2 o1) (i + 1) l1 x w) as [(a' & E & O)|G]; try done; [by apply at_out|lia|lia|cbn; congruence| |].
    + left. exists a'. split; [done|]. change (fn (set_out p2 o1)) with (fn p1) in O. by rewrite F1 in O.
    + right. destruct G as (p3 & l3 & q3 & w3 & h & E & Ap3 & U3 & Pk3 & F3 & Fl & Rv & Sh). exists p3, l3, q3, w3, (x :: h).
      do 4 (split; [done|]). split; [rewrite F3; exact F1|]. split; [by rewrite Fl|]. split; [done|]. right. cbn [so set_out] in Sh. subst o1.
      destruct Sh as [[_ ->]|[u ->]]; eauto.
  - left. exists (Err e). split; [done|]. by left.
  - left. exists (Panic e). split; [done|]. by left.
Qed.

(** ** Seeking to the version *)

(** Past the key, the loop after the seek ends at once. *)
Lemma found_passes n key unc (a : res (@scanner L R It * bool)) y : sim (passes key) a y -> (0 < n)%nat ->
  sim (leaves key)
    ('(p, b) ← a; if negb b then Ok (setAdvanceKeyAtEnd c p, (true, false)) else seek_found_loop c fuel n p unc key) y.
Proof.
  intros S N. destruct n as [|n]; [lia|]. destruct a as [[p b]| |], y as [[o l]| |]; try done. cbn [mbind res_bind seek_found_loop].
  pose proof (passes_leaves key p b o l S) as Lv. destruct b; cbn [negb] in *; [|done].
  assert (beqb (cur_key p) key = false) as ->; [|done]. destruct S as (_ & _ & _ & S). cbn in S. destruct l; naive_solver.
Qed.

Lemma seek_found n p l q w key unc :
  at_pos p l q (w ++ above db key) -> sc p = cur_of db q -> q_user q = key -> of_key key w -> (length w + 1 < n)%nat -> peeked p = false ->
  outcome key (fn p) (seek_found_loop c fuel n p unc key) (read_version c db (so p) (q :: w) unc).
Proof.
  revert p l q w. induction n as [|n IH]; intros p l q w Ap Sc U W N Pk; [lia|]. cbn [seek_found_loop read_version].
  unfold cur_key. rewrite Sc. cbn [curUnsafeKey cur_of]. fold (q_user q). rewrite U. rewrite (proj2 (beqb_true key key) eq_refl). cbn [negb]. unfold lift.
  destruct (seek_candidate c (so p) (cur_of db q) unc) as [[o1 [r|]]|e|e] eqn:Cand; cbn [mbind res_bind].
  - left. unfold stays. cbn. do 3 (split; [done|]). exists l, q, (w ++ above db key). split; [by apply at_out|done].
  - apply (at_out _ o1) in Ap. destruct w as [|x w].
    + right. exists o1. split; [done|]. apply found_passes; [|lia]. by apply (next_passes (set_out p o1) l q).
    + apply Forall_cons in W as [Kx W]. destruct (step_in_key (set_out p o1) l q x w key Ap U Kx) as (p1 & l1 & -> & (Pk1 & _ & F1 & _) & So & Sc1 & Ap1).
      cbn [mbind res_bind negb]. change (fn p) with (fn (set_peeked (set_out p o1) false)). rewrite <- F1.
      change o1 with (so (set_out p o1)). rewrite <- So. cbn [length] in N. eapply IH; try done; [by apply beqb_true|lia].
  - by left.
  - by left.
Qed.

(** ** The first point of a key *)

Definition first_of (l : list pos) (q : pos) : Prop :=
  forall x, x ∈ l -> is_key (q_user q) x = true -> has_point x = false.

Lemma key_points l q r : P = l ++ q :: r -> has_point q = true -> first_of l q ->
  exists g1 g2, l = below db (q_user q) ++ g1 /\ r = g2 ++ above db (q_user q) /\ of_key (q_user q) g1 /\ of_key (q_user q) g2 /\
    Forall (fun x => q_ts x = EmptyTimestamp) g1 /\ Forall (fun x => q_ts x <> EmptyTimestamp) g2 /\ points db (q_user q) = q :: g2.
Proof.
  intros E H F. destruct (split_around db ok l q r E) as (g1 & g2 & El & Er & K1 & K2). exists g1, g2. do 4 (split; [done|]).
  pose proof (later_version db ok _ _ _ E) as V. rewrite Er in V. apply Forall_app in V as [V _].
  assert (N : Forall (fun x => has_point x = false) g1).
  { rewrite Forall_forall in K1 |- *. intros x I. apply F; [rewrite El; set_solver|by apply K1]. }
  assert (V2 : Forall (fun x => q_ts x <> EmptyTimestamp /\ has_point x = true) g2).
  { rewrite Forall_forall in K2, V |- *. intros x I. by apply V, K2. }
  split; [|split; [by eapply Forall_impl; [exact V2|intros x [? _]]|]].
  - rewrite Forall_forall in N |- *. intros x I. specialize (N x I). unfold has_point in N. destruct (q_val x) eqn:Q; [done|].
    apply (ok_bare db ok); [|done]. rewrite E, El. set_solver.
  - unfold points. rewrite E, El, Er. rewrite !filter_app. cbn [List.filter]. rewrite filter_app.
    unfold is_key at 3. rewrite (proj2 (beqb_true _ _) eq_refl), H. cbn [andb].
    rewrite (filter_none _ (below _ _)), (filter_none _ g1), (filter_none _ (above _ _)), (filter_all _ g2); [by cbn; rewrite app_nil_r|..].
    + rewrite Forall_forall in K2, V2 |- *. intros x I. rewrite K2 by done. by apply V2.
    + eapply Forall_impl; [apply above_key|]. by intros x ->.
    + eapply Forall_impl; [exact N|]. intros x ->. apply andb_false_r.
    + pose proof (below_key db (q_user q)) as Bk. apply Forall_rev in Bk. rewrite rev_involutive in Bk. eapply Forall_impl; [exact Bk|]. by intros x ->.
Qed.

Lemma version_from key t x : is_key key x = true -> t <> EmptyTimestamp ->
  negb (MVCCKey_Less (q_key x) (MkMVCCKey key t)) = negb (Timestamp_IsEmpty (q_ts x)) && at_or_below t x.
Proof.
  intros K%beqb_true T%IsEmpty_false. unfold MVCCKey_Less, MVCCKey_IsValue, Key_Compare, at_or_below. unfold q_user in K. cbn [k_Key k_Timestamp].
  rewrite K, bytes_compare_refl, T. unfold q_ts. cbn. destruct (Timestamp_IsEmpty (k_Timestamp (q_key x))); [done|]. cbn. by rewrite LessEq_negb.
Qed.

(** Where a seek to a version of the current key leads. *)
Lemma from_version l q r g2 t : P = l ++ q :: r -> has_point q = true -> first_of l q -> points db (q_user q) = q :: g2 -> t <> EmptyTimestamp ->
  from db (MkMVCCKey (q_user q) t) =
  List.filter (fun x => negb (Timestamp_IsEmpty (q_ts x)) && at_or_below t x) [q] ++ List.filter (at_or_below t) g2 ++ above db (q_user q).
Proof.
  intros E H F Pt T. destruct (key_points l q r E H F) as (g1 & g2' & El & Er & K1 & K2 & Z1 & Z2 & Pt'). rewrite Pt in Pt'. injection Pt' as <-. unfold of_key in *.
  unfold from. rewrite E, El, Er, !filter_app. cbn [List.filter]. rewrite filter_app, version_from by (try done; by apply beqb_true).
  rewrite (filter_none _ (below _ _)), (filter_none _ g1), (filter_all _ (above _ _)); cbn [app].
  - rewrite (filter_ext_Forall _ (at_or_below t) g2); [by destruct (_ && _)|]. rewrite Forall_forall in K2, Z2 |- *. intros x I.
    rewrite version_from by (by auto). specialize (Z2 x I). apply IsEmpty_false in Z2. by rewrite Z2.
  - apply Forall_forall. intros x I. apply list_elem_of_In, List.filter_In in I as [_ I]. apply negb_true_iff, not_true_is_false.
    intros [B|[B _]]%Less_spec; unfold q_user in *; cbn in *; bcases; try done; [border|]. rewrite B in *. border.
  - rewrite Forall_forall in K1, Z1 |- *. intros x I. rewrite version_from by (by auto). rewrite Z1 by done. done.
  - apply Forall_forall. intros x I. apply list_elem_of_In, List.filter_In in I as [_ I]. apply negb_false_iff, Less_spec. left. unfold q_user in I. cbn. by bcases.
Qed.

Lemma at_pos_length p l q w key : at_pos p l q (w ++ above db key) -> (length w + 1 <= length P)%nat.
Proof. intros Ap. rewrite (ap_split _ _ _ _ _ _ Ap), length_app. cbn. rewrite length_app. lia. Qed.

(** ** Going to a version, by steps or by a seek *)

(** The candidates, read from where the steps ended. *)
Lemma reread p1 o q F h rest unc (b : bool) :
  F = h ++ rest -> read_version c db o F unc = read_version c db (so p1) rest unc ->
  (h = [] /\ so p1 = o) \/ (exists v, so p1 = set_value o v None) ->
  (b = true -> seek_candidate c o (cur_of db q) unc = Ok (o, None)) ->
  read_version c db (@so L R It p1) ((if b then [q] else []) ++ F) unc = read_version c db o F unc.
Proof.
  intros -> Rv Sh C. assert (E : read_version c db (so p1) (h ++ rest) unc = read_version c db o (h ++ rest) unc).
  { destruct Sh as [[-> ->]|[v Ev]]; [done|]. rewrite Rv. eapply (read_version_again c db o (so p1) v); [done|by right]. }
  destruct b; [|done]. cbn [app read_version]. destruct Sh as [[-> ->]|[v ->]]; rewrite ?seek_candidate_value, C; done.
Qed.

Lemma after_seek p l q r key t b F unc :
  at_pos p l q r -> q_user q = key -> peeked p = false -> of_key key F -> Forall (fun x => has_point x = true) F ->
  from db (MkMVCCKey key t) = F ++ above db key -> b = read_version c db (so p) F unc ->
  outcome key (fn p)
    ('(p, ok) ← iterSeek c fuel p (MkMVCCKey key t); if negb ok then Ok (setAdvanceKeyAtEnd c p, (true, false)) else seek_found_loop c fuel fuel p unc key) b.
Proof.
  intros Ap U Pk Fk Fp Fr ->. pose proof (iterSeek_land c db ok fuel enough p l q r t Ap Pk) as S.
  change (the_stack db q) with (stack_at db (q_user q)) in S. rewrite U in S. rewrite Fr in S.
  destruct (from_suffix db ok (MkMVCCKey key t)) as (l0 & Ef & _). rewrite Fr in Ef. destruct F as [|y w].
  - right. exists (so p). split; [done|]. apply found_passes; [|lia].
    destruct (iterSeek c fuel p _), (land _ _ _ _ _ _) eqn:La; try done. cbn in *.
    eapply landed_passes; [exact Ef|done|exact (ap_iters _ _ _ _ _ _ Ap)|done|done].
  - apply Forall_cons in Fk as [Ky Kw], Fp as [Hy _].
    assert (La : land c db None (so p) (stack_at db key) ((y :: w) ++ above db key) = Ok (so p, (y :: w) ++ above db key)).
    { cbn [land app]. rewrite encounter_same; [by rewrite Hy|]. symmetry. by apply same_stack. }
    rewrite La in S. destruct (iterSeek c fuel p _) as [x| |]; try done. cbn in S.
    destruct (landed_fwd c db p x l0 ((y :: w) ++ above db key) (so p) (stack_at db key) (so p) y (w ++ above db key))
      as (p' & l1 & -> & K' & So & Sc & Ap'); [done|done|exact (ap_iters _ _ _ _ _ _ Ap)|done|done|].
    cbn [mbind res_bind negb]. rewrite <- So. assert (F' : fn p' = fn p) by apply K'. rewrite <- F'.
    pose proof (at_pos_length _ _ _ _ _ Ap'). eapply seek_found; try done; [by apply beqb_true|lia|by eapply keeps_peeked].
Qed.

Lemma seekVersion_reads p l q r g2 t unc :
  at_pos p l q r -> first_of l q -> points db (q_user q) = q :: g2 ->
  (t = EmptyTimestamp \/ q_ts q = EmptyTimestamp \/ at_or_below t q = false \/ seek_candidate c (so p) (cur_of db q) unc = Ok (so p, None)) ->
  outcome (q_user q) (fn p) (seekVersion c fuel p t unc) (read_at c db (so p) g2 t unc).
Proof.
  intros Ap F1 Pt Hq. unfold seekVersion, read_at. destruct (Timestamp_IsEmpty t) eqn:Et.
  { left. cbn. do 3 (split; [done|]). by exists l, q, r. }
  apply IsEmpty_false in Et. rewrite (ap_key _ _ _ _ _ _ Ap). pose proof (ap_split _ _ _ _ _ _ Ap) as E.
  destruct (key_points l q r E (ap_point _ _ _ _ _ _ Ap) F1) as (g1 & g2' & El & Er & K1 & K2 & Z1 & Z2 & Pt').
  rewrite Pt in Pt'. injection Pt' as <-. set (key := q_user q) in *. rewrite Er in Ap. pose proof (at_pos_length _ _ _ _ _ Ap).
  destruct (seek_next fuel p 0 l q g2 key t unc Ap eq_refl K2) as [(a & Ea & O)|G]; [lia|lia|done| |].
  { rewrite Ea. unfold some. by destruct a as [[? ?]| |]. }
  destruct G as (p1 & l1 & q1 & w1 & h & -> & Ap1 & U1 & Pk1 & F1' & Fl & Rv & Sh). cbn [mbind res_bind].
  set (C := List.filter (fun x => negb (Timestamp_IsEmpty (q_ts x)) && at_or_below t x) [q]).
  apply decrement_at in Ap1; [|done]. set (p2 := decrementItersBeforeSeek c p1) in *. rewrite <- F1'. change (fn p1) with (fn p2).
  eapply (after_seek p2 l1 q1 _ key t _ (C ++ List.filter (at_or_below t) g2)); try done.
  - subst C. unfold of_key. apply Forall_app. split; [|by apply Forall_filter]. apply Forall_filter. constructor; [|done]. by apply beqb_true.
  - subst C. assert (I : Forall (fun x => has_point x = true) (q :: g2)).
    { rewrite <- Pt. eapply Forall_impl; [apply filter_Forall|]. cbn. intros x Hx. by apply andb_true_iff in Hx as [_ ?]. }
    apply Forall_cons in I as [I1 I2]. apply Forall_app. split; [apply Forall_filter; by constructor|by apply Forall_filter].
  - rewrite <- app_assoc. subst key. eapply from_version; [exact E|exact (ap_point _ _ _ _ _ _ Ap)|done|done|done].
  - symmetry. change (so p2) with (so p1). subst C. cbn [List.filter].
    replace (if _ && _ then [q] else []) with (if negb (Timestamp_IsEmpty (q_ts q)) && at_or_below t q then [q] else []) by done.
    eapply (reread p1 (so p) q); try done. intros [N%negb_true_iff B]%andb_true_iff. apply IsEmpty_false in N.
    destruct Hq as [?|[?|[?|?]]]; [done|done|congruence|done].
Qed.

(** ** Reading a key *)

Lemma returns_inv (r : res (@out L R * (bool * bool))) o t unc : returns r <> Ok (o, SeekVersion t unc).
Proof. unfold returns. by destruct r as [[? ?]| |]. Qed.

(** The version that [getOne] starts from is not one that [seekVersion] could return. *)
Lemma getOne_seek o q o1 t unc : getOne_cases c o (cur_of db q) = Ok (o1, SeekVersion t unc) ->
  q_ts q = EmptyTimestamp \/ at_or_below t q = false \/ seek_candidate c o1 (cur_of db q) unc = Ok (o1, None).
Proof.
  unfold getOne_cases. cbn [curUnsafeKey cur_of]. fold (q_ts q). destruct (Timestamp_IsEmpty (q_ts q)) eqn:Em; [left; by apply IsEmpty_spec|]. cbn [negb].
  unfold getOne_version. cbn [curUnsafeKey cur_of]. fold (q_ts q). fold (cur_of db q). destruct (coveredByRangeKey _ _ _); [by intros ?%returns_inv|].
  cbn. destruct (decodeCurrentValue o _) as [[o2 []]| |] eqn:De; cbn; [|done..].
  destruct (Timestamp_Less (q_ts q) (c_ts c)) eqn:Lt; [by intros ?%returns_inv|].
  destruct (Timestamp_EqOrdering (q_ts q) (c_ts c)) eqn:Eq; [by destruct (c_failOnMoreRecent c); intros ?%returns_inv|].
  assert (Ab : Timestamp_LessEq (q_ts q) (c_ts c) = false) by (clear - Lt Eq; ts).
  destruct (c_failOnMoreRecent c); [by intros ?%returns_inv|]. destruct (checkUncertainty c); [|intros [= -> <- <-]; by right; left].
  destruct (IsUncertain _ _ _) as [[]| |] eqn:Un; cbn; try done. intros [= -> <- <-]. right; right.
  unfold seek_candidate. cbn [getFromLazyValue curRawValue cur_of mbind res_bind]. unfold decodeCurrentValue in *.
  destruct (DecodeMVCCValue _) as [v| |]; simplify_eq. cbn [mbind res_bind negb orb curUnsafeKey cur_of]. fold (q_ts q).
  rewrite Ab. cbn [curUnsafeValue set_value] in *. by rewrite Un.
Qed.

Lemma getOne_reads p l q r : at_pos p l q r -> sc p = cur_of db q -> first_of l q ->
  outcome (q_user q) (fn p) (getOne c fuel p) (read_key c db (so p) (q_user q)).
Proof.
  intros Ap Sc F. destruct (key_points l q r (ap_split _ _ _ _ _ _ Ap) (ap_point _ _ _ _ _ _ Ap) F) as (g1 & g2 & _ & _ & _ & _ & _ & _ & Pt).
  unfold getOne, read_key. rewrite Pt, Sc. unfold lift. destruct (getOne_cases c (so p) (cur_of db q)) as [[o a]| |] eqn:G; cbn [mbind res_bind]; [|by left..].
  destruct a as [[t|] x|t unc].
  - left. cbn. do 3 (split; [done|]). exists l, q, r. split; [|done]. destruct Ap. by constructor.
  - left. cbn. do 3 (split; [done|]). exists l, q, r. split; [|done]. by apply at_out.
  - change (fn p) with (fn (set_out p o)). change o with (so (set_out p o)) at 2.
    eapply seekVersion_reads; [by apply at_out|done|done|]. right. by apply (getOne_seek (so p)).
Qed.
End Version.
