(* ===== verification/ScanLoop.v ===== *)
(** The loop of a scan, and scans forward.

    A scan is a loop of reading a key and advancing to the next, and an end that finds the key
    to resume at.  The first section proves, for either direction, that this is the walk of the
    reference scan, given what one turn of the loop does; the second has the turns of a forward
    scan. *)
From S2P Require Import Prelude Bytes GoLib Hlc KeyOps Spans MvccKey RangeKeys MvccValue MvccIter Scanner ScanSpec ScanNav ScanVersion.

Section Loop.
Context `{L : ScanLib} {R : Type} `{!Results R} (c : config) (db : snapshot).
Context {It : Type} {M : MVCCIterator It} (fuel : nat).
Implicit Types (o : @out L R) (p : @scanner L R It).

(** One turn: [None] when reading stopped the scan, else whether there is a next key. *)
Definition turn p : res (@scanner L R It * option bool) :=
  '(p, (ok, _)) ← getOne c fuel p;
  if negb ok then Ok (p, None) else '(p, ok) ← advance c fuel p; Ok (p, Some ok).
Definition walk_turn o (q : pos) (rest : list pos) : res (@out L R * option (list pos)) :=
  '(o, (ok, _)) ← read_key c db o (q_user q);
  if negb ok then Ok (o, None) else '(o, l) ← land c db (Some (q_user q)) o (the_stack db q) rest; Ok (o, Some l).

(** Having advanced to the next key. *)
Definition arrives (x : @scanner L R It * bool) (y : @out L R * list pos) : Prop :=
  so x.1 = y.1 /\ match y.2 with [] => x.2 = false | q :: _ => x.2 = true /\ cur_key x.1 = q_user q end.

(** The resume key would be found by advancing. *)
Definition ready p o (l : list pos) : Prop :=
  so p = o /\
  match l with
  | [] => err o = None -> no_reason (resumeReason o) = true
  | q :: rest =>
      err o = None ->
      sim arrives (if c_reverse c then advanceKeyReverse c fuel p else advanceKeyForward c fuel p)
        (land c db (Some (q_user q)) o (the_stack db q) rest)
  end.

(** [poised p q rest]: at the point to read the key of [q] from, with [rest] to walk after [q]. *)
Context (poised : @scanner L R It -> pos -> list pos -> Prop).

Definition turned (q : pos) (rest : list pos) (x : @scanner L R It * option bool) (y : @out L R * option (list pos)) : Prop :=
  so x.1 = y.1 /\
  match x.2, y.2 with
  | None, None => ready x.1 y.1 (q :: rest)
  | Some b, Some [] => b = false /\ (err y.1 = None -> no_reason (resumeReason y.1) = true)
  | Some b, Some (q' :: rest') => b = true /\ poised x.1 q' rest' /\ (length rest' < length rest)%nat
  | _, _ => False
  end.

Context (turns : forall p q rest, poised p q rest -> sim (turned q rest) (turn p) (walk_turn (so p) q rest)).

Lemma scan_loop_turn n p : scan_loop c fuel (S n) p =
  ('(p, b) ← turn p; match b with Some true => scan_loop c fuel n p | _ => Ok p end).
Proof.
  cbn [scan_loop]. unfold turn. destruct (getOne c fuel p) as [[p1 [[] a]]| |]; cbn; [|done..]. by destruct (advance c fuel p1) as [[? []]| |].
Qed.

Definition walk_from o (q : pos) (rest : list pos) : res (@out L R * list pos) :=
  '(o, (ok, _)) ← read_key c db o (q_user q);
  if negb ok then Ok (o, q :: rest) else walk c db (Some (q_user q)) o (the_stack db q) rest.

Lemma walk_from_turn o q rest : walk_from o q rest =
  ('(o, l) ← walk_turn o q rest;
   match l with None => Ok (o, q :: rest) | Some [] => Ok (o, []) | Some (q' :: rest') => walk_from o q' rest' end).
Proof.
  unfold walk_from, walk_turn. destruct (read_key c db o (q_user q)) as [[o1 [[] a]]| |]; cbn; [|done..].
  rewrite walk_land. by destruct (land _ _ _ _ _ _) as [[? []]| |].
Qed.

Lemma loop_walks n p q rest : poised p q rest -> (length rest < n)%nat ->
  sim (fun p' y => ready p' y.1 y.2) (scan_loop c fuel n p) (walk_from (so p) q rest).
Proof.
  revert p q rest. induction n as [|n IH]; intros p q rest Po N; [lia|]. rewrite scan_loop_turn, walk_from_turn.
  eapply sim_bind; [by apply turns|]. intros [p1 b] [o1 l] [So S]. cbn in So, S. destruct b as [b|], l as [[|q' rest']|]; try done.
  - by destruct S as [-> S].
  - destruct S as (-> & Po' & Len). rewrite <- So. apply IH; [done|lia].
Qed.

Lemma maybeFail_same o o' : maybeFailOnMoreRecent c o = Ok o' -> err o' = None -> o' = o.
Proof.
  unfold maybeFailOnMoreRecent. destruct (_ || _); [by intros [= <-]|]. intros (t & _ & [= <-])%res_bind_inv. done.
Qed.

Lemma afterScan_walks p o l : ready p o l ->
  sim (fun x y => (so x.1, x.2) = y) (afterScan c fuel p) (after_walk c db o l).
Proof.
  intros [So Rd]. unfold afterScan, after_walk. rewrite So. destruct (maybeFailOnMoreRecent c o) as [o'| |] eqn:Mf; cbn [mbind res_bind]; [|done..].
  destruct (err o') eqn:Er; [done|]. apply maybeFail_same in Mf; [|done]. subst o'. assert (set_out p o = p) as -> by (destruct p; cbn in *; by subst).
  destruct l as [|q rest]; [rewrite Rd by done; cbn; by rewrite So|]. specialize (Rd Er). destruct (no_reason (resumeReason o)); [by cbn; rewrite So|].
  destruct (length (resumeKey o) =? 0)%nat; [|by cbn; rewrite So].
  destruct (if c_reverse c then _ else _) as [[p1 b]| |], (land _ _ _ _ _ _) as [[o1 l1]| |]; try done. cbn [mbind res_bind].
  destruct Rd as [So1 Rd]. cbn in So1, Rd. destruct l1 as [|y t].
  - subst b. cbn. by rewrite So1.
  - destruct Rd as [-> Ck]. unfold resume_span. cbn. by rewrite So1, Ck.
Qed.

(** A scan from a position the seek found, or from none. *)
Lemma scan_walks p x st l :
  (c_wholeRows c = true -> r_lastOffsetsEnabled (results (so p)) = true) ->
  sim (fun x y => so x.1 = y.1 /\ match y.2 with
                                  | [] => x.2 = false /\ (err y.1 = None -> no_reason (resumeReason y.1) = true)
                                  | q :: rest => x.2 = true /\ poised (set_fn x.1 (if c_reverse c then advanceKeyReverseFn else advanceKeyForwardFn) (origKey x.1)) q rest /\
                                                 (length rest < fuel)%nat
                                  end)
    x (land c db None (so p) st l) ->
  x = (if c_reverse c then iterSeekReverse c fuel p (MkMVCCKey (c_end c) EmptyTimestamp) else iterSeek c fuel p (MkMVCCKey (c_start c) EmptyTimestamp)) ->
  sim (fun x y => (so x.1, x.2) = y) (scan c fuel p) ('(o, l) ← walk c db None (so p) st l; after_walk c db o l).
Proof.
  intros W S E. unfold scan. replace (c_wholeRows c && _) with false by (destruct (c_wholeRows c); [by rewrite W|done]).
  unfold seekToStartOfScan. rewrite <- E, walk_land. destruct x as [[p1 b]| |], (land _ _ _ _ _ _) as [[o1 l1]| |]; try done.
  destruct S as [So S]. cbn in So, S. cbn [mbind res_bind]. destruct l1 as [|q rest].
  - destruct S as [-> S]. cbn [negb mbind res_bind]. unfold after_walk. rewrite So. destruct (maybeFailOnMoreRecent c o1) as [o'| |]; cbn; [|done..].
    unfold result_of. by destruct (err o').
  - destruct S as (-> & Po & N). cbn [negb mbind res_bind]. change (so p1) with (so (set_fn p1 (if c_reverse c then advanceKeyReverseFn else advanceKeyForwardFn) (origKey p1))) in So.
    pose proof (loop_walks fuel _ q rest Po N) as S. rewrite So in S.
    eapply sim_bind; [exact S|]. intros p2 [o2 l2] Rd. by apply afterScan_walks.
Qed.
End Loop.

Section Forward.
Context `{L : ScanLib} {R : Type} `{!Results R} (c : config) (db : snapshot) (ok : snapshot_ok db).
Context {It : Type} {M : MVCCIterator It} `{!IteratorLaws M db} (fuel : nat).
Implicit Types (o : @out L R) (p : @scanner L R It).

Abbreviation P := (positions db).
Abbreviation at_pos := (at_pos c db).

Lemma pos_key q : q ∈ P -> q_user q <> [].
Proof. intros I. pose proof (ok_pos db ok) as F. rewrite Forall_forall in F. by apply F. Qed.

Lemma keys_nonempty l : (forall q, q ∈ l -> q ∈ P) -> Forall (fun q => q_user q <> []) l.
Proof. intros H. apply Forall_forall. intros q I. by apply pos_key, H. Qed.

(** What is left to walk after a key. *)
Lemma land_above l q r o : P = l ++ q :: r ->
  land c db (Some (q_user q)) o (the_stack db q) r = land c db None o (stack_at db (q_user q)) (above db (q_user q)).
Proof.
  intros E. destruct (split_around db ok l q r E) as (g1 & g2 & _ & -> & _ & K). unfold the_stack. rewrite land_skip by done.
  apply land_other, above_key.
Qed.

Lemma above_suffix key : exists l, P = l ++ above db key /\ Forall (fun q => ~ blt key (q_user q)) l.
Proof.
  destruct (split_key db ok key) as (g & E & K). exists (below db key ++ g). split; [by rewrite <- app_assoc|]. apply Forall_app. split.
  - eapply Forall_impl; [apply filter_Forall|]. cbn. intros q B. bcases; [border|done].
  - eapply Forall_impl; [exact K|]. cbn. intros q ->%beqb_true. border.
Qed.

Lemma above_in key q : q ∈ above db key -> q ∈ P /\ blt key (q_user q).
Proof. intros [I B]%list_elem_of_In%List.filter_In. rewrite list_elem_of_In. split; [done|]. by bcases. Qed.

Lemma first_of_above key o st o' y t : land c db None o st (above db key) = Ok (o', y :: t) ->
  exists l1, P = l1 ++ y :: t /\ first_of l1 y.
Proof.
  intros La. apply land_split in La as [La|(pre & ? & ? & El & [= <- <-] & _ & _ & F)]; [done|].
  destruct (above_suffix key) as (l0 & E & B). exists (l0 ++ pre). split; [by rewrite E, El, <- app_assoc|].
  intros x I K%beqb_true. rewrite Forall_forall in F, B. apply elem_of_app in I as [I|I].
  - exfalso. apply (B x I). rewrite K. apply above_in. rewrite El. set_solver.
  - specialize (F x I). by rewrite andb_true_r in F.
Qed.

Context (enough : (length P + 1 <= fuel)%nat) (forward : c_reverse c = false).

Definition poised_forward p (q : pos) (r : list pos) : Prop :=
  exists l, at_pos p l q r /\ sc p = cur_of db q /\ first_of l q /\ fn p = advanceKeyForwardFn /\ steady (so p).

(** Arriving at the next key. *)
Lemma arrive_forward p key o o' l' p' : steady o -> land c db None o (stack_at db key) (above db key) = Ok (o', l') ->
  so p' = o' -> fn p' = advanceKeyForwardFn ->
  match l' with [] => True | q :: t => sc p' = cur_of db q /\ exists l, at_pos p' l q t end ->
  match l' with [] => err o' = None -> no_reason (resumeReason o') = true | q :: t => poised_forward p' q t end.
Proof.
  intros S La So F Q. destruct l' as [|q t].
  - intros _. rewrite (land_reason c db _ _ _ _ _ _ La). by destruct S as [_ ->].
  - destruct Q as (Sc & l & Ap), (first_of_above _ _ _ _ _ _ La) as (l1 & E1 & F1).
    destruct (split_inj db ok _ _ _ _ _ E1 (ap_split _ _ _ _ _ _ Ap)) as [-> _]. exists l. split_and!; try done. rewrite So.
    by eapply land_steady.
Qed.

Definition advanced (x : @scanner L R It * bool) (y : @out L R * list pos) : Prop :=
  so x.1 = y.1 /\
  match y.2 with
  | [] => x.2 = false /\ (err y.1 = None -> no_reason (resumeReason y.1) = true)
  | q :: t => x.2 = true /\ poised_forward x.1 q t
  end.

Lemma next_forward p l q r : at_pos p l q r -> fn p = advanceKeyForwardFn -> steady (so p) ->
  sim advanced (nextKey c fuel p) (land c db None (so p) (stack_at db (q_user q)) (above db (q_user q))).
Proof.
  intros Ap Fn St. pose proof (nextKey_land c db ok fuel enough p l q r Ap forward) as S. fold (stack_at db (q_user q)) in S.
  change (the_stack db q) with (stack_at db (q_user q)) in S. destruct (nextKey c fuel p) as [[p1 b]| |], (land _ _ _ _ _ _) as [[o1 l1]| |] eqn:La; try done.
  assert (Pk : peeked p = false).
  { pose proof (ap_spot _ _ _ _ _ _ Ap) as Sp. unfold spot in Sp. destruct (peeked p); [destruct Sp; congruence|done]. }
  destruct (above_suffix (q_user q)) as (l0 & E0 & _). destruct l1 as [|y t].
  - destruct S as (K & So & -> & _). split; [done|]. split; [done|].
    exact (arrive_forward p (q_user q) _ _ _ p1 St La So ltac:(by rewrite (proj1 (proj2 (proj2 K)))) I).
  - destruct (landed_fwd c db p (p1, b) l0 (above db (q_user q)) (so p) (stack_at db (q_user q)) o1 y t) as (p' & l1 & [= <- ->] & K & So & Sc & Ap');
      [done|done|exact (ap_iters _ _ _ _ _ _ Ap)|done|done|]. split; [done|]. split; [done|].
    apply (arrive_forward p (q_user q) (so p) o1 (y :: t) p1); try done; [by rewrite (proj1 (proj2 (proj2 K)))|by eauto].
Qed.

Lemma landed_arrives reverse p x y : landed db true reverse p x y -> arrives x y.
Proof.
  destruct x as [p' b], y as [o' [|q t]]; intros (_ & So & Q); (split; [done|]); cbn; [by destruct Q|].
  destruct Q as (-> & _ & Sc). split; [done|]. unfold cur_key. by rewrite Sc.
Qed.

Lemma turns_forward p q r : poised_forward p q r -> sim (turned c db fuel poised_forward q r) (turn c fuel p) (walk_turn c db (so p) q r).
Proof.
  intros (l & Ap & Sc & F1 & Fn & St). unfold turn, walk_turn. pose proof (ap_split _ _ _ _ _ _ Ap) as E.
  pose proof (read_key_ends c db (so p) (so p) (q_user q)) as Rk. specialize (Rk ltac:(apply pos_key; rewrite E; set_solver) (grows_refl _) St).
  assert (Len : forall o o' y t, land c db None o (stack_at db (q_user q)) (above db (q_user q)) = Ok (o', y :: t) -> (length t < length r)%nat).
  { intros o o' y t La. destruct (split_around db ok l q r E) as (g1 & g2 & _ & -> & _).
    apply land_split in La as [La|(pre & ? & ? & -> & [= <- <-] & _)]; [done|]. rewrite !length_app. cbn. lia. }
  destruct (getOne_reads c db ok fuel enough p l q r Ap Sc F1) as [O|(o1 & Eo & O)].
  - destruct (getOne c fuel p) as [[p1 [k a]]| |], (read_key c db (so p) (q_user q)) as [[o1 [k' a']]| |] eqn:Eo; try done.
    destruct O as (Ek & So & F & l1 & q1 & r1 & Ap1 & U1). cbn in Ek, So, F. simplify_eq. cbn [mbind res_bind].
    pose proof (next_forward p1 l1 q1 r1 Ap1) as Nx. rewrite U1 in Nx. rewrite Fn in F. specialize (Nx F).
    destruct (Rk _ _ eq_refl) as [_ St1]. destruct k'; cbn [negb].
    + specialize (Nx (St1 eq_refl)). rewrite (land_above l q r) by done. unfold advance. rewrite F. unfold advanceKeyForward.
      destruct (nextKey c fuel p1) as [[p2 b]| |], (land _ _ _ _ _ _) as [[o2 l2]| |] eqn:La; try done. destruct Nx as [So2 Nx]. split; [done|].
      cbn in Nx |- *. destruct l2 as [|y t]; [done|]. split_and!; [by destruct Nx..|]. by eapply Len.
    + split; [done|]. split; [done|]. intros Er. rewrite forward, (land_above l q r) by done. unfold advanceKeyForward. rewrite <- U1.
      exact (sim_mono _ _ _ _ (landed_arrives false p1) (nextKey_land c db ok fuel enough p1 l1 q1 r1 Ap1 forward)).
  - rewrite Eo in *. destruct (Rk _ _ eq_refl) as [_ St1]. specialize (St1 eq_refl). cbn [mbind res_bind negb]. rewrite (land_above l q r) by done.
    destruct (getOne c fuel p) as [[p1 [k a]]| |], (land _ _ _ _ _ _) as [[o2 l2]| |] eqn:La; try done.
    destruct O as (Ek & So & Pk & Io & Q). cbn in Ek, So, Q. simplify_eq. cbn [mbind res_bind negb].
    unfold advance, end_fn, new_fn in *. rewrite forward in Q. destruct l2 as [|y t]; destruct Q as (-> & Q); cbn [mbind res_bind].
    + do 2 (split; [done|]). intros _. cbn [fst]. rewrite (land_reason c db _ _ _ _ _ _ La). by destruct St1 as [_ ->].
    + do 2 (split; [done|]). split; [|by eapply Len]. destruct Q as (_ & Sc1 & l1 & Ap1).
      refine (arrive_forward p (q_user q) o1 (so p1) (y :: t) (set_fn p1 advanceKeyForwardFn (origKey p1)) St1 La eq_refl eq_refl _). split; [done|]. exists l1. by destruct Ap1.
Qed.

(** ** The first seek *)

Context (bounded : Forall (fun q => ble (c_start c) (q_user q)) P).

Lemma from_start : from db (start_key c) = P.
Proof.
  apply filter_all. eapply Forall_impl; [exact bounded|]. cbn. intros q B. apply negb_true_iff, not_true_is_false.
  intros [C|[C V]]%Less_spec; unfold q_user in B; cbn in *; [border|]. destruct V as [[_ []]|(_ & [] & _)]; done.
Qed.

Lemma seek_start : seek_ge db (start_key c) = cursor_of false (itinerary c db).
Proof.
  unfold seek_ge, itinerary, starts_inside. rewrite forward, first_ge_from, from_start. by destruct (_ && _); [|destruct P].
Qed.

Lemma itinerary_path : path (first_gt db) (itinerary c db) /\ Forall (bare_ok db) (itinerary c db) /\
  Forall (fun q => has_point q = true -> q ∈ P) (itinerary c db) /\ (length (itinerary c db) <= length P + 1)%nat.
Proof.
  destruct (suffix_sub db ok [] P eq_refl) as (Pa & B & I & N). destruct (seek_path db ok (start_key c)) as (l & Pl & G & Sh).
  unfold itinerary. rewrite forward. 
  change (seek_ge db (start_key c)) with (if starts_inside c db then At (MkPos (start_key c) None) else or_hi (first_ge db (start_key c))) in G.
  destruct (starts_inside c db) eqn:Si; [|done].
  rewrite from_start in Sh. destruct Sh as [->|[-> E]].
  - exfalso. unfold starts_inside in Si. apply andb_true_iff in Si as [_ Si%negb_true_iff]. apply not_true_iff_false in Si. apply Si.
    apply existsb_exists. destruct (head P) as [y|] eqn:Hd; [|done]. cbn in G. injection G as <-. apply head_Some_elem_of in Hd.
    eexists. split; [by apply list_elem_of_In|].
    unfold MVCCKey_Equal, Key_Compare. cbn. by rewrite bytes_compare_refl.
  - split_and!; [done|by constructor; [intros _|]|by constructor|cbn; lia].
Qed.

Lemma iterSeek_first p : curRangeKeys (sc p) = EmptyStack -> peeked p = false ->
  sim (landed db true false p) (iterSeek c fuel p (start_key c)) (land c db None (so p) EmptyStack (itinerary c db)).
Proof.
  intros K Pk. unfold iterSeek. assert (clearPeeked c p = p) as -> by (unfold clearPeeked; by rewrite forward).
  set (p1 := set_parent _ _). destruct itinerary_path as (? & ? & ? & ?).
  eapply sim_mono; [|apply (settle_land c db ok fuel p1); try done; [|lia|]].
  - by intros [p2 b] [o l] Q.
  - unfold abs. cbn. rewrite it_SeekGE. unfold ref_SeekGE. cbn. apply seek_start.
  - intros q t _. by apply entry_first.
Qed.

Lemma first_of_start o o' y t : land c db None o EmptyStack (itinerary c db) = Ok (o', y :: t) ->
  exists l1, P = l1 ++ y :: t /\ first_of l1 y.
Proof.
  intros La. apply land_split in La as [La|(pre & ? & ? & El & [= <- <-] & H & _ & F)]; [done|].
  assert (G : forall pre', P = pre' ++ y :: t -> (forall x, x ∈ pre' -> x ∈ pre) -> exists l1, P = l1 ++ y :: t /\ first_of l1 y).
  { intros pre' E I. exists pre'. split; [done|]. intros x Ix _. rewrite Forall_forall in F. specialize (F x (I x Ix)). by rewrite andb_true_r in F. }
  unfold itinerary in El. rewrite forward in El. destruct (starts_inside c db); [|by eapply G].
  destruct pre as [|x pre]; cbn in El; injection El as Ex El; [by subst|]. eapply G; [exact El|]. set_solver.
Qed.

Lemma landed_start p x o' y t : peeked p = false -> iters_ok c p -> land c db None (so p) EmptyStack (itinerary c db) = Ok (o', y :: t) ->
  landed db true false p x (o', y :: t) ->
  exists p' l1, x = (p', true) /\ keeps p p' /\ so p' = o' /\ sc p' = cur_of db y /\ at_pos p' l1 y t /\ first_of l1 y.
Proof.
  intros Pk Io La. destruct x as [p1 b]. intros (Kp & So & -> & A & Sc). destruct (first_of_start _ _ _ _ La) as (l1 & E & F1).
  assert (H : has_point y = true) by (apply land_split in La as [?|(? & ? & ? & _ & [= <- <-] & ? & _)]; done).
  exists p1, l1. do 4 (split; [done|]). split; [|done]. constructor; try done.
  - unfold spot. by rewrite (keeps_peeked _ _ Kp Pk).
  - by rewrite Sc.
  - unfold cur_key. by rewrite Sc.
  - by apply (keeps_iters c p p1).
Qed.

Lemma scan_forward_walks p :
  (c_wholeRows c = true -> r_lastOffsetsEnabled (results (so p)) = true) ->
  curRangeKeys (sc p) = EmptyStack -> peeked p = false -> iters_ok c p -> steady (so p) ->
  sim (fun x y => (so x.1, x.2) = y) (scan c fuel p) (reference_scan c db (so p)).
Proof.
  intros W K Pk Io St. unfold reference_scan.
  apply (scan_walks c db fuel poised_forward turns_forward p (iterSeek c fuel p (start_key c))); [done| |by rewrite forward].
  pose proof (iterSeek_first p K Pk) as S. destruct (iterSeek c fuel p _) as [x| |], (land _ _ _ _ _ _) as [[o1 [|y t]]| |] eqn:La; try done.
  - destruct x as [p1 b], S as (_ & So & -> & _). split; [done|]. split; [done|]. intros _. cbn [fst]. rewrite (land_reason c db _ _ _ _ _ _ La). by destruct St as [_ ->].
  - destruct (landed_start p x o1 y t) as (p1 & l1 & -> & _ & So & Sc & Ap & F1); [done..|]. rewrite forward. split; [done|]. split; [done|].
    split; [|rewrite (ap_split _ _ _ _ _ _ Ap), length_app in enough; cbn in enough; lia]. exists l1. split; [by destruct Ap|]. do 3 (split; [done|]).
    cbn. rewrite So. by eapply land_steady.
Qed.
End Forward.
