(* ===== verification/ScanReverse.v ===== *)
(** Scans in reverse.

    The iterator goes backwards to the oldest version of the previous key and peeks its way to
    the newest, or seeks there; reading a key may take it forward again, past the key or off
    the end, and the next advance has to find its way back.  Range keys are met again on the
    way.  Meeting them a second time has no effect ([seen]), so a reverse scan is the walk of the
    reference scan over the positions in reverse. *)
From S2P Require Import Prelude Bytes GoLib Hlc KeyOps Spans MvccKey RangeKeys MvccValue MvccIter Scanner ScanSpec ScanNav ScanVersion ScanLoop.

(** * Range keys that were met before *)

Section Seen.
Context `{L : ScanLib} {R : Type} `{!Results R} (c : config) (db : snapshot).
Implicit Types o : @out L R.

(** None of the versions is uncertain. *)
Definition quiet (st : MVCCRangeKeyStack) : Prop :=
  forall o, err o = None -> range_uncertainty c o (Versions st) = Ok (o, true).
(** A conflict with the newest version has been recorded. *)
Definition noted o (st : MVCCRangeKeyStack) : Prop :=
  c_failOnMoreRecent c = true -> Timestamp_LessEq (c_ts c) (Versions_Newest (Versions st)) = true ->
  settled (mostRecentTS o) (Versions_Newest (Versions st)) /\ mostRecentKey o <> [].
Definition seen o (q : pos) : Prop :=
  Stack_IsEmpty (the_stack db q) = false -> (checkUncertainty c = true -> quiet (the_stack db q)) /\ noted o (the_stack db q).

Lemma set_err_None o : err o = None -> set_err o None = o.
Proof. destruct o; cbn. by intros ->. Qed.

Lemma uncertainty_quiet o vs o' : range_uncertainty c o vs = Ok (o', true) -> err o = None ->
  o' = o /\ forall o1, err o1 = None -> range_uncertainty c o1 vs = Ok (o1, true).
Proof.
  induction vs as [|v vs IH]; cbn; [by intros [= <-]|]. destruct (Timestamp_LessEq _ _); [by intros [= <-]|].
  destruct (DecodeMVCCValue _) as [x| |]; [|done|done]. destruct (IsUncertain _ _ _) as [[]| |]; cbn; [done| |done|done].
  intros E Er. rewrite set_err_None in E by done. destruct (IH E Er) as [-> Q]. split; [done|]. intros o1 E1. rewrite set_err_None by done. auto.
Qed.

Lemma record_same o t key : settled (mostRecentTS o) t -> mostRecentKey o <> [] -> record_recent o t key = o.
Proof.
  intros S K. unfold record_recent. rewrite settled_Forward by done. destruct o; cbn in *. by destruct mostRecentKey.
Qed.

Lemma check_seen o hp k st : err o = None -> (checkUncertainty c = true -> quiet st) -> noted o st -> check_range_keys c o hp k st = Ok (o, true).
Proof.
  intros E Q N. unfold check_range_keys.
  match goal with |- context [if ?b then record_recent ?a ?t ?k else _] => assert ((if b then record_recent a t k else a) = a) as -> end.
  { destruct (c_failOnMoreRecent c) eqn:F; [|done]. cbn. destruct (_ || _); [|done]. cbn. destruct (Timestamp_LessEq _ _) eqn:Le; [|done].
    destruct N as [S K]; [done..|]. by apply record_same. }
  destruct (checkUncertainty c); [|done]. by apply Q.
Qed.

Lemma check_notes o hp k st o' : check_range_keys c o hp k st = Ok (o', true) -> err o = None ->
  hp = false \/ k_Timestamp k <> EmptyTimestamp -> k_Key k <> [] ->
  (checkUncertainty c = true -> quiet st) /\ noted o' st.
Proof.
  intros C E H K. unfold check_range_keys in C.
  match type of C with context [if ?b then record_recent ?a ?t ?k else _] => set (o1 := if b then record_recent a t k else a) in C end.
  assert (E1 : err o1 = None) by (subst o1; by destruct (_ && _)). assert (o' = o1 /\ (checkUncertainty c = true -> quiet st)) as [-> Q].
  { destruct (checkUncertainty c); [|by injection C as <-]. by destruct (uncertainty_quiet _ _ _ C E1) as [-> Q]. }
  split; [done|]. intros F Le. subst o1. rewrite F, Le. assert (negb hp || negb (Timestamp_IsEmpty (k_Timestamp k)) = true) as ->.
  { destruct H as [->|H%IsEmpty_false]; [done|]. rewrite H. apply orb_true_r. }
  cbn. split; [apply Forward_settled|]. by destruct (mostRecentKey o).
Qed.

Lemma seen_grows o o' q : grows o o' -> seen o q -> seen o' q.
Proof. intros [G1 G2] S E. destruct (S E) as [Q N]. split; [done|]. intros F Le. destruct (N F Le). auto. Qed.

Lemma seen_stack o q q' : the_stack db q = the_stack db q' -> seen o q -> seen o q'.
Proof. unfold seen. by intros ->. Qed.

Lemma encounter_seen o st q : seen o q -> err o = None -> encounter c db o st q = Ok (o, true).
Proof.
  intros S E. unfold encounter. destruct (bool_decide _); [done|]. cbn. destruct (Stack_IsEmpty _) eqn:Em; [done|].
  destruct (S Em). by apply check_seen.
Qed.

(** The walk to the next point when everything on the way has been seen. *)
Fixpoint upto (l : list pos) : list pos :=
  match l with [] => [] | q :: t => if has_point q then l else upto t end.

Lemma upto_split l : exists pre, l = pre ++ upto l /\ Forall (fun q => has_point q = false) pre.
Proof.
  induction l as [|q l (pre & E & F)]; cbn; [by exists []|]. destruct (has_point q) eqn:H; [by exists []|].
  exists (q :: pre). split; [by rewrite E at 1|by constructor].
Qed.

Lemma upto_skip a b : Forall (fun q => has_point q = false) a -> upto (a ++ b) = upto b.
Proof. induction 1 as [|x a H F IH]; cbn; [done|]. by rewrite H. Qed.

Lemma upto_point l q t : upto l = q :: t -> has_point q = true.
Proof. induction l as [|x l IH]; cbn; [done|]. destruct (has_point x) eqn:H; [by intros [= <- _]|done]. Qed.

Lemma land_seen o st l l' q t : Forall (seen o) l -> err o = None -> upto l = q :: t ->
  land c db None o st (l ++ l') = Ok (o, (q :: t) ++ l').
Proof.
  intros F E. revert st. induction F as [|x l S F IH]; intros st; cbn; [done|]. rewrite encounter_seen by done. cbn. rewrite andb_true_r.
  destruct (has_point x); [by intros [= -> ->]|]. apply IH.
Qed.

Lemma land_seen_end o st l : Forall (seen o) l -> err o = None -> land c db None o st l = Ok (o, upto l).
Proof.
  intros F E. revert st. induction F as [|x l S F IH]; intros st; cbn; [done|]. rewrite encounter_seen by done. cbn. rewrite andb_true_r.
  destruct (has_point x); [done|apply IH].
Qed.

(** Where a walk starts from makes no difference if both stacks have been seen. *)
Lemma land_start o st st' l : err o = None ->
  (forall x, the_stack db x = st \/ the_stack db x = st' -> seen o x) -> land c db None o st l = land c db None o st' l.
Proof.
  intros E S. destruct l as [|x l]; [done|]. cbn. enough (encounter c db o st x = encounter c db o st' x) as -> by done.
  unfold encounter. destruct (bool_decide_reflect (st = the_stack db x)) as [Es|Es], (bool_decide_reflect (st' = the_stack db x)) as [Es'|Es']; try done; cbn;
    (destruct (Stack_IsEmpty _) eqn:Em; [done|]); [symmetry|]; (destruct (S x) as [Q N]; [auto|done|by apply check_seen]).
Qed.

(** The first position met in a stack is not a key's metadata. *)
Fixpoint meta_ok (st : MVCCRangeKeyStack) (l : list pos) : Prop :=
  match l with
  | [] => True
  | q :: t => (has_point q = true -> q_ts q = EmptyTimestamp -> Stack_IsEmpty (the_stack db q) = false -> st = the_stack db q) /\
              meta_ok (the_stack db q) t
  end.

Lemma land_notes o st l o' y t : land c db None o st l = Ok (o', y :: t) -> meta_ok st l -> Forall (fun q => q_user q <> []) l ->
  steady o -> (forall x, the_stack db x = st -> seen o x) ->
  exists pre, l = pre ++ y :: t /\ Forall (seen o') (pre ++ [y]).
Proof.
  revert o st. induction l as [|q l IH]; intros o st; cbn; [done|]. intros ([o1 b] & En & H)%res_bind_inv [Mq Ml] F St S.
  apply Forall_cons in F as [Kq F]. destruct b; cbn in H; [|done].
  destruct (encounter_ends c db o o st q Kq (grows_refl o) St _ _ En) as [G St1]. specialize (St1 eq_refl).
  assert (S1 : seen o1 q).
  { unfold encounter in En. destruct (bool_decide_reflect (st = the_stack db q)) as [Es|Es]; cbn in En; [injection En as <-; by apply S|].
    destruct (Stack_IsEmpty (the_stack db q)) eqn:Em; [intros ?; congruence|]. intros _. eapply check_notes; [exact En|apply St| |done].
    destruct (has_point q) eqn:Hp; [right|by left]. fold (q_ts q). intros Et. by apply Es, Mq. }
  destruct (has_point q) eqn:Hp; cbn in H.
  - injection H as <- <- <-. exists []. split; [done|]. by constructor.
  - destruct (IH o1 (the_stack db q) H Ml F St1) as (pre & -> & Fs); [intros x Ex; by apply (seen_stack _ q)|].
    exists (q :: pre). split; [done|]. cbn. constructor; [|done].
    destruct (land_ends c db o1 o1 None (the_stack db q) (pre ++ y :: t)) with (4 := H) as [G' _]; [done|apply grows_refl|done|]. by eapply seen_grows.
Qed.
End Seen.

(** * Going back *)

Section Back.
Context `{L : ScanLib} {R : Type} `{!Results R} (c : config) (db : snapshot) (ok : snapshot_ok db).
Context {It : Type} {M : MVCCIterator It} `{!IteratorLaws M db} (fuel : nat).
Implicit Types (o : @out L R) (p : @scanner L R It).

Abbreviation P := (positions db).
Abbreviation at_pos := (at_pos c db).

(** Every position from the key on has been seen. *)
Definition passed o (key : bytes) : Prop := forall x, x ∈ P -> ~ blt (q_user x) key -> seen c db o x.

Lemma in_key key g q : P = below db key ++ g ++ above db key -> q ∈ P -> q_user q = key -> q ∈ g.
Proof.
  intros E I U. rewrite E in I. apply elem_of_app in I as [I|[I|I]%elem_of_app]; [exfalso|done|exfalso].
  - apply list_elem_of_In, List.filter_In in I as [_ B]. rewrite U in B. bcases; [border|done].
  - apply above_in in I as [_ B]. rewrite U in B. border.
Qed.

Lemma upto_key key g q t : Forall (fun q => is_key key q = true) g -> upto g = q :: t -> q_user q = key.
Proof.
  intros F E. destruct (upto_split g) as (pre & Eg & _). rewrite E in Eg. rewrite Eg, Forall_app, Forall_cons in F. apply beqb_true, F.
Qed.

Lemma elem_of_rev {A} (x : A) l : x ∈ l -> x ∈ rev l.
Proof. rewrite !list_elem_of_In. apply in_rev. Qed.

Lemma meta_next l w r : P = l ++ w :: r -> has_point w = true -> q_ts w = EmptyTimestamp -> Stack_IsEmpty (the_stack db w) = false ->
  exists x r', r = x :: r' /\ q_user x = q_user w.
Proof.
  intros E H T N. destruct (ok_meta db ok w) as (x & I & U & V); [rewrite E; set_solver|done..|].
  pose proof (ok_sorted db ok) as S. rewrite E in I, S. apply sorted_app in S as [Fl Fr]. rewrite Forall_forall in Fl, Fr.
  apply elem_of_app in I as [I|[->|I]%elem_of_cons]; [exfalso|done|].
  - specialize (Fl x I). unfold q_lt in Fl. apply Less_spec in Fl as [B|[_ B]]; [unfold q_user in U; rewrite U in B; border|].
    unfold q_ts in *. rewrite T in B. destruct B as [[_ []]|(_ & [] & _)]; done.
  - destruct r as [|y r]; [set_solver|]. exists y, r. split; [done|]. pose proof (q_lt_user _ _ (Fr y ltac:(set_solver))) as B1.
    apply elem_of_cons in I as [->|I]; [done|]. pose proof (ok_sorted db ok) as S. rewrite E in S.
    assert (S' : StronglySorted q_lt ((l ++ [w]) ++ y :: r)) by (by rewrite <- app_assoc).
    apply sorted_app in S' as [_ Fy]. rewrite Forall_forall in Fy. pose proof (q_lt_user _ _ (Fy x I)) as B2. rewrite U in B2. border.
Qed.

Lemma meta_ok_rev l r st : P = l ++ r ->
  (forall l' w, l = l' ++ [w] -> has_point w = true -> q_ts w = EmptyTimestamp -> Stack_IsEmpty (the_stack db w) = false -> st = the_stack db w) ->
  meta_ok db st (rev l).
Proof.
  revert r st. induction l as [|w l IH] using rev_ind; intros r st E H; [done|]. rewrite rev_app_distr. cbn. split; [by apply (H l)|].
  rewrite <- app_assoc in E. cbn in E. apply (IH (w :: r)); [done|]. intros l' v -> Hv Tv Nv. rewrite <- app_assoc in E. cbn in E.
  destruct (meta_next l' v (w :: r) E Hv Tv Nv) as (x & r' & [= <- <-] & U). unfold the_stack. by rewrite U.
Qed.

Lemma meta_ok_below key st : meta_ok db st (rev (below db key)).
Proof.
  destruct (split_key db ok key) as (g & E & K). eapply meta_ok_rev; [exact E|]. intros l' w Eb Hw Tw Nw. exfalso. rewrite Eb, <- app_assoc in E. cbn in E.
  destruct (meta_next l' w _ E Hw Tw Nw) as (x & r' & Ex & U).
  assert (B : blt (q_user w) key).
  { assert (I : In w (below db key)) by (rewrite Eb; apply in_app_iff; right; by left). apply List.filter_In in I as [_ I]. by bcases. }
  destruct g as [|y g]; cbn in Ex.
  - pose proof (above_in db key x) as A. rewrite Ex in A. destruct A as [_ A]; [set_solver|]. rewrite U in A. border.
  - injection Ex as -> _. apply Forall_cons in K as [K%beqb_true _]. rewrite U in K. rewrite K in B. border.
Qed.

(** What is left to walk after a key, in reverse. *)
Lemma land_below pre q rest o : rev P = pre ++ q :: rest ->
  land c db (Some (q_user q)) o (the_stack db q) rest = land c db None o (stack_at db (q_user q)) (rev (below db (q_user q))).
Proof.
  intros E. apply (f_equal (@rev _)) in E. rewrite rev_involutive, rev_app_distr in E. cbn in E. rewrite <- app_assoc in E. cbn in E.
  destruct (split_around db ok _ _ _ E) as (g1 & g2 & El & _ & K & _). apply (f_equal (@rev _)) in El. rewrite rev_involutive, rev_app_distr in El. rewrite El.
  unfold the_stack. rewrite land_skip by (by apply Forall_rev). apply land_other, below_key.
Qed.

(** ** The newest version *)

Context (enough : (length P + 1 <= fuel)%nat) (reverse : c_reverse c = true).

(** At the first point of a key. *)
Definition at_newest p (key : bytes) : Prop :=
  exists l q r, at_pos p l q r /\ sc p = cur_of db q /\ first_of l q /\ q_user q = key.

Definition same_machine p p' : Prop := fn p' = fn p /\ origKey p' = origKey p.

Lemma same_machine_trans p1 p2 p3 : same_machine p1 p2 -> same_machine p2 p3 -> same_machine p1 p3.
Proof. unfold same_machine. intuition congruence. Qed.
Lemma keeps_machine p p' : keeps p p' -> same_machine p p'.
Proof. by intros (_ & _ & ?). Qed.

Lemma peek_prev p l q r : at_pos p l q r -> peeked p = false -> 1 <= itersBeforeSeek p ->
  exists p', iterPeekPrev p = Ok (p', match rev l with [] => None | y :: _ => Some (q_user y, has_point y) end) /\
    at_pos p' l q r /\ peeked p' = true /\ sc p' = sc p /\ so p' = so p /\ same_machine p p' /\ itersBeforeSeek p' = itersBeforeSeek p.
Proof.
  intros Ap Pk N. pose proof Ap as [E H Sp K Ck Io]. unfold spot in Sp. rewrite Pk in Sp. unfold iterPeekPrev. rewrite Pk. cbn [negb].
  set (p' := set_parent _ _). assert (A : abs db p' = move db (abs db p) (cursor_of true (rev l))).
  { apply (step_abs db p q (rev l) true); [done|]. by eapply last_lt_split. }
  assert (Ap' : at_pos p' l q r).
  { constructor; try done. unfold spot. cbn. split_and!; try done; [by rewrite A|]. rewrite A. unfold move. cbn. by rewrite Sp. }
  exists p'. split_and!; try done. unfold iterValid. rewrite it_Valid. fold (abs db p'). rewrite A. destruct (rev l) as [|y t] eqn:Er; [done|].
  cbn [cursor_of move is_at r_cur mbind res_bind negb]. assert (Ay : r_cur (abs db p') = At y) by (by rewrite A).
  rewrite (it_UnsafeKey _ y Ay), (it_HasPointAndRange _ y Ay). cbn [fst]. fold (q_user y) (q_ts y).
  destruct (Timestamp_IsEmpty (q_ts y)) eqn:T; [done|]. apply IsEmpty_false in T. unfold has_point. destruct (q_val y) eqn:V; [done|]. exfalso. apply T.
  apply (ok_bare db ok); [|done]. apply (prefix_in db ok l (q :: r)); [done|]. rewrite Er. set_solver.
Qed.

Lemma first_prev l y q r : P = (l ++ [y]) ++ q :: r -> is_key (q_user q) y = false \/ has_point y = false -> first_of (l ++ [y]) q.
Proof.
  intros E H x I K. assert (E' : P = l ++ y :: q :: r) by (by rewrite E, <- app_assoc).
  apply elem_of_app in I as [I|I]; [|apply list_elem_of_singleton in I as ->; destruct H; [congruence|done]].
  pose proof (ok_sorted db ok) as S. rewrite E' in S. apply sorted_app in S as [Fl Fr]. rewrite Forall_forall in Fl.
  apply Forall_cons in Fr as [Fq _]. specialize (Fl x I). apply beqb_true in K.
  assert (U : q_user y = q_user x) by (apply q_lt_user in Fl as B1; apply q_lt_user in Fq as B2; rewrite <- K in B2; border).
  destruct H as [H|H]; [unfold is_key in H; rewrite U, K in H; by rewrite (proj2 (beqb_true _ _) eq_refl) in H|].
  exfalso. unfold q_lt in Fl. apply Less_spec in Fl as [B|[_ B]]; [unfold q_user in U; rewrite U in B; border|].
  assert (T : q_ts y = EmptyTimestamp).
  { unfold has_point in H. destruct (q_val y) eqn:V; [done|]. apply (ok_bare db ok); [rewrite E'; set_solver|done]. }
  unfold q_ts in T. rewrite T in B. destruct B as [[_ []]|(_ & [] & _)]; done.
Qed.

Lemma step_back p l y q r : at_pos p (l ++ [y]) q r -> q_user y = q_user q -> has_point y = true ->
  exists p' r', iterPrev c fuel p = Ok (p', true) /\ at_pos p' l y r' /\ sc p' = cur_of db y /\ so p' = so p /\ peeked p' = false /\
    same_machine p p' /\ itersBeforeSeek p' = itersBeforeSeek p.
Proof.
  intros Ap U H. pose proof (iterPrev_land c db ok fuel enough p _ q r Ap) as S.
  assert (La : land c db None (so p) (the_stack db q) (rev (l ++ [y])) = Ok (so p, y :: rev l)).
  { rewrite rev_app_distr. cbn. rewrite encounter_same; [by rewrite H|]. unfold the_stack. by rewrite U. }
  rewrite La in S. destruct (iterPrev c fuel p) as [x| |]; try done. cbn in S.
  destruct (landed_rev c db (set_peeked p false) x (l ++ [y]) (q :: r) (so p) (the_stack db q) (so p) y (rev l))
    as (p' & r1 & -> & (K1 & K2 & K3) & So & Sc & Ap'); [exact (ap_split _ _ _ _ _ _ Ap)|done|exact (ap_iters _ _ _ _ _ _ Ap)|done|done|].
  rewrite rev_involutive in Ap'. exists p', r1. split_and!; try done; apply K3.
Qed.

Lemma backward_newest n p l q r i : at_pos p l q r -> sc p = cur_of db q -> peeked p = false -> 0 <= i -> (length l < n)%nat ->
  exists p' b, backward_loop c fuel n p (q_user q) i = Ok (p', b) /\ so p' = so p /\ same_machine p p' /\
    match b with
    | Some b => b = true /\ at_newest p' (q_user q)
    | None => peeked p' = false /\ exists l' y r', at_pos p' l' y r' /\ q_user y = q_user q
    end.
Proof.
  revert p l q r i. induction n as [|n IH]; intros p l q r i Ap Sc Pk Hi N; [lia|]. cbn [backward_loop].
  destruct (Z.ltb_spec i (itersBeforeSeek p)) as [Lt|Ge]; cbn [negb].
  2: { exists p, None. split_and!; try done. by exists l, q, r. }
  destruct (peek_prev p l q r Ap Pk) as (p1 & -> & Ap1 & Pk1 & Sc1 & So1 & M1 & I1); [lia|]. cbn [mbind res_bind]. destruct l as [|y l _] using rev_ind; cbn [rev].
  { exists p1, (Some true). split_and!; try done. exists [], q, r. split; [done|]. split; [congruence|]. split; [|done]. by intros x ?%elem_of_nil. }
  rewrite rev_app_distr. cbn [app rev]. destruct (beqb (q_user y) (q_user q)) eqn:U; [destruct (has_point y) eqn:H|]; cbn [negb orb].
  - apply beqb_true in U. destruct (step_back p1 l y q r Ap1 U H) as (p2 & r2 & -> & Ap2 & Sc2 & So2 & Pk2 & M2 & I2). cbn [mbind res_bind negb].
    rewrite length_app in N. cbn in N. destruct (IH p2 l y r2 (i + 1) Ap2 Sc2 Pk2) as (p3 & b & E & So3 & M3 & Q); [lia|lia|].
    rewrite U in E, Q. exists p3, b. split; [done|]. split; [congruence|]. split; [|done]. eapply same_machine_trans; [done|]. by eapply same_machine_trans.
  - exists (incrementItersBeforeSeek c p1), (Some true). split_and!; try done. exists (l ++ [y]), q, r. split; [by apply increment_at|]. split; [cbn; congruence|]. split; [|done].
    eapply first_prev; [exact (ap_split _ _ _ _ _ _ Ap)|by right].
  - exists (incrementItersBeforeSeek c p1), (Some true). split_and!; try done. exists (l ++ [y]), q, r. split; [by apply increment_at|]. split; [cbn; congruence|]. split; [|done].
    eapply first_prev; [exact (ap_split _ _ _ _ _ _ Ap)|by left].
Qed.

Lemma from_metadata key : exists g, from db (MkMVCCKey key EmptyTimestamp) = g ++ above db key /\ P = below db key ++ g ++ above db key /\
  Forall (fun q => is_key key q = true) g.
Proof.
  destruct (split_key db ok key) as (g & E & K). exists g. split; [|done]. unfold from. rewrite E at 1. rewrite !filter_app.
  rewrite (filter_none _ (below _ _)), (filter_all _ g), (filter_all _ (above _ _)); [done|..]; apply Forall_forall; intros x I.
  - apply above_in in I as [_ B]. apply negb_true_iff, not_true_is_false. intros [C|[C _]]%Less_spec; unfold q_user in B; cbn in C; [border|]. rewrite C in B. border.
  - rewrite Forall_forall in K. specialize (K x I). apply beqb_true in K. apply negb_true_iff, not_true_is_false.
    intros [C|[_ C]]%Less_spec; unfold q_user in K; cbn in C; [rewrite K in C; border|]. destruct C as [[_ []]|(_ & [] & _)]; done.
  - apply list_elem_of_In, List.filter_In in I as [_ B]. apply negb_false_iff, Less_spec. left. unfold q_user in B. cbn. by bcases.
Qed.

Lemma land_first o key g l' q t : Forall (fun q => is_key key q = true) g -> upto g = q :: t ->
  land c db None o (stack_at db key) (g ++ l') = Ok (o, (q :: t) ++ l').
Proof.
  induction 1 as [|x g K F IH]; cbn; [done|]. rewrite encounter_same by (symmetry; by apply same_stack). cbn. rewrite andb_true_r.
  destruct (has_point x); [by intros [= -> ->]|]. rewrite (same_stack db x key) by done. exact IH.
Qed.

Lemma upto_some g y : y ∈ g -> has_point y = true -> exists q t, upto g = q :: t.
Proof.
  induction g as [|x g IH]; [set_solver|]. intros [->|I]%elem_of_cons H; cbn; [rewrite H; eauto|]. destruct (has_point x); eauto.
Qed.

Lemma seek_newest p l q r : at_pos p l q r -> peeked p = false ->
  exists p', iterSeek c fuel p (MkMVCCKey (q_user q) EmptyTimestamp) = Ok (p', true) /\ so p' = so p /\ same_machine p p' /\ at_newest p' (q_user q).
Proof.
  intros Ap Pk. pose proof (iterSeek_land c db ok fuel enough p l q r EmptyTimestamp Ap Pk) as S. set (key := q_user q) in *.
  destruct (from_metadata key) as (g & Ef & E & K). rewrite Ef in S. change (the_stack db q) with (stack_at db key) in S.
  destruct (upto_some g q) as (z & t & Eu); [|exact (ap_point _ _ _ _ _ _ Ap)|].
  { apply (in_key key); [done| |done]. rewrite (ap_split _ _ _ _ _ _ Ap). set_solver. }
  pose proof (land_first (so p) key g (above db key) z t K Eu) as La. rewrite La in S. destruct (iterSeek c fuel p _) as [x| |]; try done. cbn in S.
  destruct (landed_fwd c db p x (below db key) (g ++ above db key) (so p) (stack_at db key) (so p) z (t ++ above db key))
    as (p' & l1 & -> & (K1 & K2 & K3) & So & Sc & Ap'); [done|done|exact (ap_iters _ _ _ _ _ _ Ap)|done|done|].
  exists p'. do 3 (split; [done|]). destruct (upto_split g) as (pre & Eg & Fp). rewrite Eu in Eg. exists l1, z, (t ++ above db key). split; [done|]. split; [done|].
  assert (Uz : q_user z = key) by (rewrite Eg, Forall_app, Forall_cons in K; apply beqb_true; apply K). split; [|done].
  assert (E' : P = (below db key ++ pre) ++ z :: t ++ above db key) by (rewrite E, Eg, <- !app_assoc; done).
  destruct (split_inj db ok _ _ _ _ _ E' (ap_split _ _ _ _ _ _ Ap')) as [<- _]. intros w I Kw. rewrite Uz in Kw.
  apply elem_of_app in I as [I|I]; [|rewrite Forall_forall in Fp; by apply Fp].
  apply list_elem_of_In, List.filter_In in I as [_ B]. apply beqb_true in Kw. rewrite Kw in B. bcases; [border|done].
Qed.

Lemma latest p l q r i : at_pos p l q r -> sc p = cur_of db q -> peeked p = false -> 0 <= i ->
  exists p', backwardLatestVersion c fuel p (q_user q) i = Ok (p', true) /\ so p' = so p /\ same_machine p p' /\ at_newest p' (q_user q).
Proof.
  intros Ap Sc Pk Hi. unfold backwardLatestVersion.
  destruct (backward_newest fuel p l q r i Ap Sc Pk Hi) as (p1 & b & -> & So1 & M1 & Q).
  { rewrite (ap_split _ _ _ _ _ _ Ap), length_app in enough. lia. }
  cbn [mbind res_bind]. destruct b as [b|]; [destruct Q as [-> Q]; by exists p1|]. destruct Q as (Pk1 & l1 & y & r1 & Ap1 & U).
  apply decrement_at in Ap1; [|done]. rewrite <- U. destruct (seek_newest _ _ _ _ Ap1 Pk1) as (p2 & -> & So2 & M2 & N). exists p2.
  split; [done|]. split; [by rewrite So2|]. split; [|done]. by eapply same_machine_trans.
Qed.

(** ** The previous key *)

(** Having gone back to the previous key with a point. *)
Definition goes_back p (x : @scanner L R It * bool) (y : @out L R * list pos) : Prop :=
  so x.1 = y.1 /\ same_machine p x.1 /\
  match y.2 with [] => x.2 = false | q :: _ => x.2 = true /\ at_newest x.1 (q_user q) end.

Lemma land_below_key o st key o' y t : land c db None o st (rev (below db key)) = Ok (o', y :: t) -> blt (q_user y) key.
Proof.
  intros [La|(pre & ? & ? & El & [= <- <-] & _)]%land_split; [done|].
  assert (I : In y (below db key)) by (apply in_rev; rewrite El; apply in_app_iff; right; by left). apply List.filter_In in I as [_ B]. by bcases.
Qed.

(** From a position that a step or a seek backwards settled at. *)
Lemma settled_back p key st o a : sim (landed db true true p) a (land c db None o st (rev (below db key))) -> peeked p = false -> iters_ok c p ->
  forall f, (forall p1 l q r, at_pos p1 l q r -> sc p1 = cur_of db q -> peeked p1 = false -> blt (q_user q) key ->
     exists p2, f p1 = Ok (p2, true) /\ so p2 = so p1 /\ same_machine p1 p2 /\ at_newest p2 (q_user q)) ->
  sim (goes_back p) ('(p1, b) ← a; if negb b then Ok (p1, false) else f p1) (land c db None o st (rev (below db key))).
Proof.
  intros S Pk Io f Hf. destruct (split_key db ok key) as (g & E & _).
  destruct a as [[p1 b]| |], (land _ _ _ _ _ _) as [[o1 l1]| |] eqn:La; try done. cbn [mbind res_bind]. destruct l1 as [|y t].
  - destruct S as (K & So & -> & _). cbn. split_and!; try done; apply K.
  - destruct (landed_rev c db p (p1, b) (below db key) (g ++ above db key) o st o1 y t) as (p' & r1 & [= <- ->] & K & So & Sc & Ap); [done..|].
    cbn [negb]. destruct (Hf p1 (rev t) y r1 Ap Sc) as (p2 & -> & So2 & M2 & N); [by eapply keeps_peeked|by eapply land_below_key|]. 
    split; [cbn; by rewrite So2|]. split; [|done]. eapply same_machine_trans; [by apply keeps_machine|done].
Qed.

Lemma first_meta l q r : P = l ++ q :: r -> q_ts q = EmptyTimestamp -> first_of l q.
Proof.
  intros E T x I K%beqb_true. exfalso. pose proof (ok_sorted db ok) as S. rewrite E in S. apply sorted_app in S as [F _]. rewrite Forall_forall in F.
  specialize (F x I). unfold q_lt in F. apply Less_spec in F as [B|[_ B]]; [unfold q_user in K; rewrite K in B; border|].
  unfold q_ts in T. rewrite T in B. destruct B as [[_ []]|(_ & [] & _)]; done.
Qed.

Lemma unpeeked p : peeked p = false -> clearPeeked c p = p.
Proof. intros E. unfold clearPeeked. rewrite reverse. destruct p; cbn in *. by subst. Qed.

Lemma seek_reverse_settles p1 l q r : at_pos p1 l q r -> sc p1 = cur_of db q -> peeked p1 = false ->
  exists p2, (if Timestamp_IsEmpty (k_Timestamp (curUnsafeKey (sc p1))) then Ok (p1, true) else backwardLatestVersion c fuel p1 (cur_key p1) 0) = Ok (p2, true) /\
    so p2 = so p1 /\ same_machine p1 p2 /\ at_newest p2 (q_user q).
Proof.
  intros Ap Sc Pk. rewrite Sc. cbn. fold (q_ts q). destruct (Timestamp_IsEmpty (q_ts q)) eqn:T.
  - exists p1. split_and!; try done. exists l, q, r. split_and!; try done. eapply first_meta; [exact (ap_split _ _ _ _ _ _ Ap)|by apply IsEmpty_spec].
  - rewrite (ap_key _ _ _ _ _ _ Ap). by eapply latest.
Qed.

Lemma iterSeekReverse_back p l q r key : at_pos p l q r -> peeked p = false ->
  sim (goes_back p) (iterSeekReverse c fuel p (MkMVCCKey key EmptyTimestamp)) (land c db None (so p) (the_stack db q) (rev (below db key))).
Proof.
  intros Ap Pk. unfold iterSeekReverse. rewrite unpeeked by done.
  apply settled_back; [by eapply seekLT_land|done|exact (ap_iters _ _ _ _ _ _ Ap)|]. intros. by eapply seek_reverse_settles.
Qed.

Lemma iterSeekReverse_first p key : curRangeKeys (sc p) = EmptyStack -> peeked p = false -> iters_ok c p ->
  sim (goes_back p) (iterSeekReverse c fuel p (MkMVCCKey key EmptyTimestamp)) (land c db None (so p) EmptyStack (rev (below db key))).
Proof.
  intros K Pk Io. unfold iterSeekReverse. rewrite unpeeked by done.
  apply settled_back; [by apply seekLT_first|done|done|]. intros. by eapply seek_reverse_settles.
Qed.

Lemma land_pass o key g l' : Forall (fun q => is_key key q = true) g -> upto g = [] ->
  land c db None o (stack_at db key) (g ++ l') = land c db None o (stack_at db key) l'.
Proof.
  induction 1 as [|x g K F IH]; cbn; [done|]. rewrite encounter_same by (symmetry; by apply same_stack). cbn. rewrite andb_true_r.
  destruct (has_point x); [done|]. rewrite (same_stack db x key) by done. exact IH.
Qed.

(** A step back from a position of a key: to another position of it, or to the previous key. *)
Lemma iterPrev_cases p l q r : at_pos p l q r ->
  (exists p' l' y r', iterPrev c fuel p = Ok (p', true) /\ at_pos p' l' y r' /\ q_user y = q_user q /\ so p' = so p /\ same_machine p p' /\
     peeked p' = false /\ (length l' < length l)%nat) \/
  sim (landed db true true (set_peeked p false)) (iterPrev c fuel p)
    (land c db None (so p) (stack_at db (q_user q)) (rev (below db (q_user q)))).
Proof.
  intros Ap. pose proof (iterPrev_land c db ok fuel enough p l q r Ap) as S. pose proof (ap_split _ _ _ _ _ _ Ap) as E.
  destruct (split_around db ok l q r E) as (g1 & g2 & -> & _ & K & _). rewrite rev_app_distr in S. apply Forall_rev in K. change (the_stack db q) with (stack_at db (q_user q)) in S.
  destruct (upto (rev g1)) as [|y t] eqn:Eu; [right; by rewrite land_pass in S|left].
  pose proof (land_first (so p) (q_user q) (rev g1) (rev (below db (q_user q))) y t K Eu) as La. rewrite La in S.
  destruct (iterPrev c fuel p) as [x| |]; try done. cbn in S. rewrite <- rev_app_distr in La.
  destruct (landed_rev c db (set_peeked p false) x (below db (q_user q) ++ g1) (q :: r) (so p) (stack_at db (q_user q)) (so p) y (t ++ rev (below db (q_user q))))
    as (p' & r1 & -> & Kp & So & Sc & Ap'); [done|done|exact (ap_iters _ _ _ _ _ _ Ap)|done|done|].
  eexists p', _, y, r1. split; [done|]. split; [done|]. destruct (upto_split (rev g1)) as (pre & Eg & _). rewrite Eu in Eg.
  split; [rewrite Eg, Forall_app, Forall_cons in K; apply beqb_true; apply K|]. split; [done|]. split; [by apply keeps_machine in Kp|].
  split; [by apply (keeps_peeked _ _ Kp)|]. apply (f_equal length) in Eg. rewrite length_rev, length_app in Eg. cbn in Eg.
  rewrite length_rev, !length_app, length_rev. lia.
Qed.

Lemma prev_back n p l q r i : at_pos p l q r -> 0 <= i -> (peeked p = true -> i = 0) -> (length l < n)%nat ->
  let a := prev_loop c fuel n p (q_user q) i in
  (exists a', a = some a' /\ sim (goes_back p) a' (land c db None (so p) (stack_at db (q_user q)) (rev (below db (q_user q))))) \/
  (exists p' l' q' r', a = Ok (p', None) /\ so p' = so p /\ same_machine p p' /\ peeked p' = false /\ at_pos p' l' q' r' /\ q_user q' = q_user q).
Proof.
  revert p l q r i. induction n as [|n IH]; intros p l q r i Ap Hi Pk N; [lia|]. cbn [prev_loop].
  destruct (Z.ltb_spec i (itersBeforeSeek p)) as [Lt|Ge]; cbn [negb].
  2: { right. exists p, l, q, r. split_and!; try done. destruct (peeked p) eqn:E; [|done]. exfalso.
       pose proof (ap_spot _ _ _ _ _ _ Ap) as Sp. unfold spot in Sp. rewrite E in Sp. destruct Sp as (_ & ? & _). specialize (Pk eq_refl). lia. }
  destruct (iterPrev_cases p l q r Ap) as [(p1 & l1 & y & r1 & -> & Ap1 & U & So & M1 & Pk1 & Len)|S].
  - cbn [mbind res_bind negb]. rewrite (ap_key _ _ _ _ _ _ Ap1), U, (proj2 (beqb_true _ _) eq_refl). cbn [negb].
    destruct (IH p1 l1 y r1 (i + 1) Ap1) as [(a' & E & S)|(p2 & l2 & q2 & r2 & E & So2 & M2 & Pk2 & Ap2 & U2)]; [lia|congruence|lia|..]; rewrite U in E; rewrite E.
    + left. exists a'. split; [done|]. rewrite U, So in S. eapply sim_mono; [|exact S]. intros x z (Sx & Mx & Q). split; [done|]. split; [|done].
      by eapply same_machine_trans.
    + right. exists p2, l2, q2, r2. split_and!; try done; [congruence| |congruence]; by eapply same_machine_trans.
  - left. exists ('(p1, b) ← iterPrev c fuel p; if negb b then Ok (p1, false) else backwardLatestVersion c fuel p1 (cur_key p1) (i + 1)). split.
    + destruct (land _ _ _ _ _ _) as [[o1 l1]| |] eqn:La, (iterPrev c fuel p) as [[p1 b]| |]; try done. cbn [mbind res_bind]. destruct l1 as [|y t].
      * destruct S as (_ & _ & -> & _). done.
      * destruct S as (_ & _ & -> & _ & Sc). cbn [negb]. apply land_below_key in La. unfold cur_key in *. rewrite Sc. cbn.
        fold (q_user y). destruct (beqb_spec (q_user y) (q_user q)) as [F|F]; [rewrite F in La; border|]. done.
    + apply (settled_back (set_peeked p false)); [done|done|exact (ap_iters _ _ _ _ _ _ Ap)|]. intros p1 l1 y r1 Ap1 Sc1 Pk1 _.
      rewrite (ap_key _ _ _ _ _ _ Ap1). eapply latest; try done. lia.
Qed.

Lemma goes_back_machine p p0 x y : same_machine p p0 -> goes_back p0 x y -> goes_back p x y.
Proof. intros Ma (S & Mb & Q). split; [done|]. split; [|done]. by eapply same_machine_trans. Qed.

Lemma length_before p l q r : at_pos p l q r -> (length l < fuel)%nat.
Proof. intros Ap. rewrite (ap_split _ _ _ _ _ _ Ap), length_app in enough. lia. Qed.

(** The rest of [prevKey] once the scanner is at the key. *)
Lemma prevKey_from p l q r i : at_pos p l q r -> 0 <= i -> (peeked p = true -> i = 0) -> forall n, (length l < n)%nat ->
  sim (goes_back p)
    ('(p, r) ← prev_loop c fuel n p (q_user q) i;
     match r with Some b => Ok (p, b) | None => iterSeekReverse c fuel (decrementItersBeforeSeek c p) (MkMVCCKey (q_user q) EmptyTimestamp) end)
    (land c db None (so p) (stack_at db (q_user q)) (rev (below db (q_user q)))).
Proof.
  intros Ap Hi Pk n N. destruct (prev_back n p l q r i Ap Hi Pk N) as [(a & Ea & S)|(p1 & l1 & q1 & r1 & -> & So1 & M1 & Pk1 & Ap1 & U1)].
  - rewrite Ea. unfold some. by destruct a as [[? ?]| |].
  - cbn [mbind res_bind]. apply decrement_at in Ap1; [|done]. rewrite <- So1, <- U1.
    eapply sim_mono; [|by apply (iterSeekReverse_back (decrementItersBeforeSeek c p1) l1 q1 r1)]. intros x y. by apply goes_back_machine.
Qed.

Lemma prevKey_at p l q r : at_pos p l q r ->
  sim (goes_back p) (prevKey c fuel p (q_user q)) (land c db None (so p) (stack_at db (q_user q)) (rev (below db (q_user q)))).
Proof. intros Ap. unfold prevKey. eapply prevKey_from; [exact Ap|done|done|by eapply length_before]. Qed.

(** ** Back from the next key *)

(** The scanner has gone past the key to the next point; what is between is bare. *)
Lemma between l y r key : P = l ++ y :: r -> upto (above db key) = y :: r -> (exists q, q ∈ P /\ q_user q = key /\ has_point q = true) ->
  exists g z t, rev l = g ++ rev (below db key) /\ Forall (fun x => x ∈ P /\ ~ blt (q_user x) key) g /\ upto g = z :: t /\ q_user z = key.
Proof.
  intros E Eu (q & Iq & Uq & Hq). destruct (split_key db ok key) as (k & Ek & Fk). destruct (upto_split (above db key)) as (pre & Ea & Fp). rewrite Eu in Ea.
  assert (El : l = (below db key ++ k) ++ pre).
  { rewrite Ea, !app_assoc in Ek. by destruct (split_inj db ok _ _ _ _ _ E Ek). }
  exists (rev pre ++ rev k). assert (Ip : forall x, x ∈ pre -> x ∈ above db key) by (rewrite Ea; set_solver).
  assert (Ik : q ∈ k) by (by apply (in_key key)).
  assert (Up : upto (rev pre ++ rev k) = upto (rev k)) by (by apply upto_skip, Forall_rev).
  destruct (upto_some (rev k) q) as (z & t & Ez); [by apply elem_of_rev|done|].
  exists z, t. rewrite Up. split_and!; [|apply Forall_app; split; apply Forall_rev, Forall_forall; intros x Hx| |].
  - rewrite El, !rev_app_distr. by rewrite app_assoc.
  - apply Ip, above_in in Hx as [? B]. split; [done|border].
  - split; [rewrite Ek; set_solver|]. rewrite Forall_forall in Fk. specialize (Fk x Hx). apply beqb_true in Fk. rewrite Fk. border.
  - done.
  - eapply upto_key; [by apply Forall_rev|done].
Qed.

Lemma prevKey_after p l y r key : at_pos p l y r -> peeked p = false -> upto (above db key) = y :: r ->
  (exists q, q ∈ P /\ q_user q = key /\ has_point q = true) -> passed (so p) key -> err (so p) = None ->
  sim (goes_back p) (prevKey c fuel p key) (land c db None (so p) (stack_at db key) (rev (below db key))).
Proof.
  intros Ap Pk Eu Q Pa Er. pose proof (ap_split _ _ _ _ _ _ Ap) as E. destruct (between l y r key E Eu Q) as (g & z & t & El & Fg & Ez & Uz).
  assert (Sg : Forall (seen c db (so p)) g) by (eapply Forall_impl; [exact Fg|]; intros x [? ?]; by apply Pa).
  pose proof (length_before _ _ _ _ Ap) as Lb. unfold prevKey. revert Lb. generalize fuel at 1 4. intros [|n] Lb; [lia|]. cbn [prev_loop]. destruct (Z.ltb_spec 0 (itersBeforeSeek p)) as [Lt|Ge]; cbn [negb].
  - pose proof (iterPrev_land c db ok fuel enough p l y r Ap) as S. rewrite El, (land_seen c db (so p) _ g _ z t) in S by done.
    destruct (iterPrev c fuel p) as [x| |]; try done. cbn [sim] in S.
    destruct (landed_rev c db (set_peeked p false) x l (y :: r) (so p) (the_stack db y) (so p) z (t ++ rev (below db key)))
      as (p1 & r1 & -> & Kp & So & Sc & Ap1); [done|done|exact (ap_iters _ _ _ _ _ _ Ap)|rewrite El; by apply land_seen|done|].
    cbn [mbind res_bind negb]. rewrite (ap_key _ _ _ _ _ _ Ap1), Uz, (proj2 (beqb_true _ _) eq_refl). cbn [negb]. rewrite <- So.
    eapply sim_mono; [intros ??; apply (goes_back_machine p p1); by apply keeps_machine in Kp|].
    rewrite <- Uz. apply (prevKey_from p1 _ z r1 1 Ap1); [lia| |].
    + intros F. by rewrite (keeps_peeked _ _ Kp eq_refl) in F.
    + rewrite length_rev. apply (f_equal length) in El. rewrite length_rev, length_app in El.
      destruct (upto_split g) as (pre & Eg & _). rewrite Ez in Eg. apply (f_equal length) in Eg. rewrite length_app in Eg. cbn in Eg. rewrite length_app. lia.
  - cbn [mbind res_bind]. apply decrement_at in Ap; [|done]. set (p1 := decrementItersBeforeSeek c p) in *.
    rewrite (land_start c db (so p) (stack_at db key) (the_stack db y)); [|done|].
    + eapply sim_mono; [|by apply (iterSeekReverse_back p1 l y r)]. intros ??. by apply goes_back_machine.
    + destruct Q as (q & Iq & Uq & _). intros x [Ex|Ex].
      * apply (seen_stack c db _ q); [unfold the_stack at 1; by rewrite Uq|]. apply Pa; [done|]. rewrite Uq. border.
      * apply (seen_stack c db _ y); [done|]. apply Pa; [rewrite E; set_solver|]. destruct (upto_split (above db key)) as (pre & Ea & _). rewrite Eu in Ea.
        assert (I : y ∈ above db key) by (rewrite Ea; set_solver). apply above_in in I as [_ B]. border.
Qed.

(** ** Back from the end *)

Context (bounded : Forall (fun q => blt (q_user q) (c_end c)) P).

Lemma below_end : below db (c_end c) = P.
Proof. apply filter_all. eapply Forall_impl; [exact bounded|]. cbn. intros x B. by bcases. Qed.

Lemma entry_end p p0 x : r_cur (abs db p0) = Hi -> abs db p = move db (abs db p0) (At x) -> entry c db p EmptyStack true true x.
Proof.
  intros A E. assert (Ch : r_changed (abs db p) = negb (bool_decide (EmptyStack = the_stack db x))) by (rewrite E; unfold move; by rewrite A).
  constructor; rewrite Ch; [|intros F _|done].
  - unfold encounter. destruct (Stack_IsEmpty (the_stack db x)) eqn:Em; [by rewrite orb_true_r|]. rewrite bool_decide_false; [done|]. intros F. by rewrite <- F in Em.
  - apply negb_false_iff, bool_decide_eq_true in F. intros [?|Em]; [done|]. by rewrite <- F in Em.
Qed.

Lemma prevKey_end p key : r_cur (abs db p) = Hi -> iters_ok c p -> upto (above db key) = [] ->
  (exists q, q ∈ P /\ q_user q = key /\ has_point q = true) -> passed (so p) key -> err (so p) = None ->
  sim (goes_back p) (advanceKeyAtEndReverse c fuel p) (land c db None (so p) (stack_at db key) (rev (below db key))).
Proof.
  intros A Io Eu (q & Iq & Uq & Hq) Pa Er. unfold advanceKeyAtEndReverse. cbv zeta. set (p0 := set_peeked p false). set (p1 := set_parent p0 _).
  assert (S : sim (landed db true true p0) (settle c fuel p1 true true) (land c db None (so p) EmptyStack (rev P))).
  { destruct (prefix_sub db ok P [] (eq_sym (app_nil_r _))) as (? & ? & ? & ?).
    assert (A1 : abs db p1 = move db (abs db p) (cursor_of true (rev P))).
    { unfold abs. cbn. rewrite it_SeekLT. unfold ref_SeekLT. rewrite last_lt_below, below_end by done. by destruct (rev P). }
    eapply sim_mono; [|apply (settle_land c db ok fuel p1); try done; [by rewrite A1|lia|]]; [by intros [p2 b] [o l] Q|].
    intros x t Ex. rewrite Ex in A1. by apply (entry_end p1 p). }
  destruct (split_key db ok key) as (k & Ek & Fk).
  assert (Up : upto (rev (above db key) ++ rev k) = upto (rev k)).
  { apply upto_skip, Forall_rev. destruct (upto_split (above db key)) as (pre & Ea & Fp). rewrite Eu, app_nil_r in Ea. by rewrite Ea. }
  destruct (upto_some (rev k) q) as (z & t & Ez); [by apply elem_of_rev, (in_key key)|done|]. rewrite <- Up in Ez.
  assert (Uz : q_user z = key) by (rewrite Up in Ez; eapply upto_key; [by apply Forall_rev|done]).
  assert (La : land c db None (so p) EmptyStack (rev P) = Ok (so p, (z :: t) ++ rev (below db key))).
  { rewrite Ek, !rev_app_distr. apply land_seen; [|done|done]. apply Forall_app. split; apply Forall_rev, Forall_forall; intros x Hx.
    - apply above_in in Hx as [? B]. apply Pa; [done|border].
    - apply Pa; [rewrite Ek; set_solver|]. rewrite Forall_forall in Fk. specialize (Fk x Hx). apply beqb_true in Fk. rewrite Fk. border. }
  rewrite La in S. destruct (settle c fuel p1 true true) as [x| |]; try done. cbn [sim] in S.
  destruct (landed_rev c db p0 x P [] (so p) EmptyStack (so p) z (t ++ rev (below db key)))
    as (p2 & r1 & -> & Kp & So & Sc & Ap); [by rewrite app_nil_r|done|done|done|done|].
  cbn [mbind res_bind negb]. unfold advanceKeyReverse. rewrite (ap_key _ _ _ _ _ _ Ap), <- So, <- Uz.
  eapply sim_mono; [|by eapply prevKey_at]. intros ??. apply goes_back_machine. by apply keeps_machine in Kp.
Qed.
End Back.

(** * Scans *)

Section Reverse.
Context `{L : ScanLib} {R : Type} `{!Results R} (c : config) (db : snapshot) (ok : snapshot_ok db).
Context {It : Type} {M : MVCCIterator It} `{!IteratorLaws M db} (fuel : nat).
Context (enough : (length (positions db) + 1 <= fuel)%nat) (reverse : c_reverse c = true).
Context (bounded : Forall (fun q => blt (q_user q) (c_end c)) (positions db)).
Implicit Types (o : @out L R) (p : @scanner L R It).

Abbreviation P := (positions db).
Abbreviation at_pos := (at_pos c db).

Definition poised_reverse p (q : pos) (rest : list pos) : Prop :=
  (exists pre, rev P = pre ++ q :: rest) /\ has_point q = true /\ at_newest c db p (q_user q) /\ fn p = advanceKeyReverseFn /\
  steady (so p) /\ passed c db (so p) (q_user q).

Lemma rev_split pre q rest : rev P = pre ++ q :: rest -> P = rev rest ++ q :: rev pre.
Proof. intros E. apply (f_equal (@rev _)) in E. rewrite rev_involutive, rev_app_distr in E. cbn in E. by rewrite <- app_assoc in E. Qed.

(** What was met on the way to the next key has been seen. *)
Lemma passed_next o st key o' y t : land c db None o st (rev (below db key)) = Ok (o', y :: t) -> passed c db o key -> steady o ->
  (forall x, the_stack db x = st -> seen c db o x) -> passed c db o' (q_user y).
Proof.
  intros La Pa St S. assert (Sub : forall x, x ∈ rev (below db key) -> x ∈ P).
  { intros x I. apply list_elem_of_In, in_rev, List.filter_In in I as [I _]. by apply list_elem_of_In. }
  pose proof (keys_nonempty db ok _ Sub) as Kn.
  destruct (land_ends c db o o None st _ Kn (grows_refl o) St _ _ La) as [G _].
  destruct (land_notes c db o st _ o' y t La (meta_ok_below db ok key st) Kn St S) as (pre & El & Fs).
  destruct (split_key db ok key) as (k & Ek & Fk). intros x I B. destruct (bltb_spec (q_user x) key) as [Bk|Bk].
  2: { eapply seen_grows; [exact G|]. by apply Pa. }
  assert (Ix : x ∈ pre ++ y :: t).
  { rewrite <- El. apply elem_of_rev, list_elem_of_In, List.filter_In. split; [by apply list_elem_of_In|]. by bcases. }
  rewrite Forall_app, Forall_singleton, Forall_forall in Fs. destruct Fs as [Fp Fy].
  apply elem_of_app in Ix as [Ix|[->|Ix]%elem_of_cons]; [by apply Fp|done|]. apply (seen_stack c db _ y); [|done].
  assert (Er : exists pre', rev P = pre' ++ y :: t) by (rewrite Ek, !rev_app_distr, El; eexists; by rewrite app_assoc).
  destruct Er as (pre' & Er). apply rev_split in Er. pose proof (ok_sorted db ok) as So. rewrite Er in So. apply sorted_app in So as [F _].
  rewrite Forall_forall in F. pose proof (q_lt_user _ _ (F x (elem_of_rev _ _ Ix))) as B2.
  assert (q_user x = q_user y) as U by border. unfold the_stack. by rewrite U.
Qed.

(** Having advanced to the previous key. *)
Definition retreated (q : pos) (rest : list pos) (x : @scanner L R It * bool) (y : @out L R * list pos) : Prop :=
  so x.1 = y.1 /\
  match y.2 with
  | [] => x.2 = false /\ (err y.1 = None -> no_reason (resumeReason y.1) = true)
  | q' :: rest' => x.2 = true /\ poised_reverse x.1 q' rest' /\ (length rest' < length rest)%nat
  end.

Lemma goes_back_retreats p q pre rest o a : rev P = pre ++ q :: rest -> steady o -> passed c db o (q_user q) -> fn p = advanceKeyReverseFn ->
  sim (goes_back c db p) a (land c db None o (stack_at db (q_user q)) (rev (below db (q_user q)))) ->
  sim (retreated q rest) a (land c db None o (stack_at db (q_user q)) (rev (below db (q_user q)))).
Proof.
  intros E St Pa Fn S. pose proof (rev_split _ _ _ E) as E'. destruct (split_around db ok _ _ _ E') as (g1 & g2 & El & _ & _).
  apply (f_equal (@rev _)) in El. rewrite rev_involutive, rev_app_distr in El.
  destruct a as [[p1 b]| |], (land _ _ _ _ _ _) as [[o1 l1]| |] eqn:La; try done. destruct S as (So & Ma & Q). split; [done|]. cbn in Q |- *. destruct l1 as [|y t].
  - split; [done|]. intros _. rewrite (land_reason c db _ _ _ _ _ _ La). by destruct St as [_ ->].
  - destruct Q as [-> N]. split; [done|]. pose proof La as La'. apply land_split in La' as [?|(pre2 & ? & ? & Eb & [= <- <-] & H & _)]; [done|].
    split; [|rewrite El, Eb, !length_app; cbn; lia]. cbn in So. rewrite Eb in El. split_and!; [|done|done| | |].
    + exists (pre ++ q :: rev g1 ++ pre2). rewrite E, El, <- app_assoc. cbn. by rewrite <- app_assoc.
    + destruct Ma as [Ma _]. cbn in Ma. by rewrite Ma.
    + rewrite So. by eapply land_steady.
    + rewrite So. eapply passed_next; [exact La|done|done|]. intros x Ex. apply (seen_stack c db _ q); [by rewrite Ex|].
      apply Pa; [rewrite E'; set_solver|border].
Qed.

Lemma goes_back_arrives p x y : goes_back c db p x y -> arrives x y.
Proof.
  destruct x as [p1 b], y as [o1 [|q t]]; intros (So & _ & Q); (split; [done|]); cbn in *; [done|]. destruct Q as (-> & l & q1 & r & Ap & _ & _ & U). split; [done|].
  by rewrite (ap_key _ _ _ _ _ _ Ap), U.
Qed.

Lemma turns_reverse p q rest : poised_reverse p q rest -> sim (turned c db fuel poised_reverse q rest) (turn c fuel p) (walk_turn c db (so p) q rest).
Proof.
  intros ((pre & E) & Hq & (l & q1 & r & Ap & Sc & F1 & U) & Fn & St & Pa). unfold turn, walk_turn. pose proof (rev_split _ _ _ E) as E'.
  assert (Iq : q ∈ P) by (rewrite E'; set_solver). pose proof (read_key_ends c db (so p) (so p) (q_user q) (pos_key db ok q Iq) (grows_refl _) St) as Rk.
  pose proof (getOne_reads c db ok fuel enough p l q1 r Ap Sc F1) as O. rewrite U, Fn in O.
  assert (Step : forall o p0 a, steady o -> passed c db o (q_user q) -> fn p0 = advanceKeyReverseFn ->
    sim (goes_back c db p0) a (land c db None o (stack_at db (q_user q)) (rev (below db (q_user q)))) ->
    sim (turned c db fuel poised_reverse q rest) ('(p, b) ← a; Ok (p, Some b))
      ('(o, l) ← land c db (Some (q_user q)) o (the_stack db q) rest; Ok (o, Some l))).
  { intros o p0 a So Po Fo S. rewrite (land_below c db ok pre) by done. eapply sim_bind; [by eapply goes_back_retreats|].
    intros [p2 b] [o2 l2] [So2 Q]. split; [done|]. cbn in *. by destruct l2. }
  destruct O as [O|(o1 & Eo & O)].
  - destruct (getOne c fuel p) as [[p1 [k a]]| |], (read_key c db (so p) (q_user q)) as [[o1 [k' a']]| |] eqn:Eo; try done.
    destruct O as (Ek & So & F & l1 & q2 & r1 & Ap1 & U1). cbn in Ek, So, F, Ap1. simplify_eq. cbn [mbind res_bind].
    destruct (Rk _ _ eq_refl) as [G St1]. pose proof (prevKey_at c db ok fuel enough reverse p1 l1 q2 r1 Ap1) as Pv. rewrite U1 in Pv.
    assert (Pa1 : passed c db (so p1) (q_user q)) by (intros x I B; eapply seen_grows; [exact G|by apply Pa]).
    assert (Ad : advanceKeyReverse c fuel p1 = prevKey c fuel p1 (q_user q)) by (unfold advanceKeyReverse; by rewrite (ap_key _ _ _ _ _ _ Ap1), U1).
    destruct k'; cbn [negb].
    + unfold advance. rewrite F, Ad. eapply Step; try done. by apply St1.
    + split; [done|]. split; [done|]. intros Er. cbn [fst snd]. rewrite reverse, Ad. rewrite (land_below c db ok pre) by done.
      eapply sim_mono; [|exact Pv]. apply goes_back_arrives.
  - rewrite Eo in *. destruct (Rk _ _ eq_refl) as [G St1]. specialize (St1 eq_refl). cbn [mbind res_bind negb].
    assert (Pa1 : passed c db o1 (q_user q)) by (intros x I B; eapply seen_grows; [exact G|by apply Pa]).
    rewrite land_seen_end in O; [|apply Forall_forall; intros x I; apply above_in in I as [? B]; apply Pa1; [done|border]|apply St1].
    destruct (getOne c fuel p) as [[p1 [k a]]| |]; try done. destruct O as (Ek & So & Pk & Io & Q). cbn in Ek, So, Pk, Io, Q. simplify_eq. cbn [mbind res_bind negb].
    unfold advance, end_fn, new_fn in *. rewrite reverse in Q. destruct (upto (above db (q_user q))) as [|y t] eqn:Eu; destruct Q as (-> & Q).
    + destruct Q as [Q|Q]; [unfold has_err in Q; destruct St1 as [E1 _]; by rewrite E1 in Q|].
      apply (Step (so p1) (set_fn p1 advanceKeyReverseFn (origKey p1))); try done.
      apply (prevKey_end c db ok fuel enough reverse bounded (set_fn p1 advanceKeyReverseFn (origKey p1))); try done; [by exists q|apply St1].
    + destruct Q as (Ok & Sc1 & l1 & Ap1). apply (Step (so p1) (set_fn p1 advanceKeyReverseFn (origKey p1))); try done.
      unfold advanceKeyAtNewKeyReverse. cbn [origKey set_fn]. rewrite Ok.
      apply (prevKey_after c db ok fuel enough reverse (set_fn p1 advanceKeyReverseFn (q_user q)) l1 y t); try done; [by destruct Ap1|by exists q|apply St1].
Qed.

Lemma scan_reverse_walks p :
  (c_wholeRows c = true -> r_lastOffsetsEnabled (results (so p)) = true) ->
  curRangeKeys (sc p) = EmptyStack -> peeked p = false -> iters_ok c p -> steady (so p) ->
  sim (fun x y => (so x.1, x.2) = y) (scan c fuel p) (reference_scan c db (so p)).
Proof.
  intros W K Pk Io St. unfold reference_scan, itinerary. rewrite reverse.
  apply (scan_walks c db fuel poised_reverse turns_reverse p (iterSeekReverse c fuel p (MkMVCCKey (c_end c) EmptyTimestamp))); [done| |by rewrite reverse].
  pose proof (iterSeekReverse_first c db ok fuel enough reverse p (c_end c) K Pk Io) as S. pose proof (below_end c db bounded) as Be.
  destruct (iterSeekReverse c fuel p _) as [[p1 b]| |], (land _ _ _ _ _ (rev (below db (c_end c)))) as [[o1 l1]| |] eqn:La; rewrite Be in La; rewrite La; try done.
  rewrite reverse. destruct S as (So & Ma & S). split; [done|]. cbn in So, S |- *. destruct l1 as [|y t].
  - subst b. split; [done|]. intros _. rewrite (land_reason c db _ _ _ _ _ _ La). by destruct St as [_ ->].
  - destruct S as [-> N]. split; [done|]. pose proof La as La'. apply land_split in La' as [?|(pre & ? & ? & Eb & [= <- <-] & H & _)]; [done|].
    split; [|apply (f_equal length) in Eb; rewrite length_rev, length_app in Eb; cbn in Eb; lia]. split_and!; [by exists pre|done| |done| |].
    + destruct N as (l1 & q1 & r1 & Ap & Sc & F1 & U). exists l1, q1, r1. split; [by destruct Ap|done].
    + cbn. rewrite So. by eapply land_steady.
    + cbn. rewrite So. rewrite <- Be in La. eapply passed_next; [exact La| |done|].
      * intros x I B. rewrite Forall_forall in bounded. exfalso. by apply B, bounded.
      * intros x Ex Em. by rewrite Ex in Em.
Qed.
End Reverse.
