(* ===== verification/ScanOk.v ===== *)
(** What scans and gets return.

    For a snapshot and any iterator over it, a scan of the scanner in either direction is the
    reference scan, and a get is the reference get: the results, intents, conflicts, errors and
    resume span are the same.  The number of steps before a seek and the implementation of the
    iterator make no difference. *)
From S2P Require Import Prelude Bytes GoLib Hlc KeyOps Spans MvccKey RangeKeys MvccValue MvccIter Scanner ScanSpec ScanNav ScanVersion ScanLoop ScanReverse.

Section Results.
Context `{L : ScanLib} {R : Type} `{!Results R}.

(** The span bounds the iterator. *)
Definition in_span (c : config) (db : snapshot) : Prop :=
  Forall (fun q => ble (c_start c) (q_user q) /\ blt (q_user q) (c_end c)) (positions db).

(** What is collected at the start. *)
Definition start_out (r : R) (a : account) : @out L R :=
  MkOut r batch_empty a EmptyValue EmptyTimestamp [] None RESUME_UNKNOWN [] 0.

(** The reference get: the key at which the iterator lands is read; with [tombstones], a range
    tombstone at the start key stands in for a key that has no value. *)
Definition get_saved (c : config) (db : snapshot) : option MVCCRangeKeyVersion :=
  if c_tombstones c then
    match itinerary c db with
    | q :: _ => Versions_FirstAtOrBelow (Versions (the_stack db q)) (c_ts c)
    | [] => None
    end
  else None.

Definition reference_get (c : config) (db : snapshot) (o : @out L R) : res (@out L R) :=
  match itinerary c db with
  | [] => Ok o
  | l =>
      '(o, l) ← land c db None o EmptyStack l;
      '(o, added) ← match l with
                    | [] => Ok (o, false)
                    | q :: _ => '(o, (_, added)) ← read_key c db o (q_user q); Ok (o, added)
                    end;
      o ← maybeFailOnMoreRecent c o;
      match get_saved c db with
      | Some rkv => if negb added && negb (has_err o) then '(o, _) ← addSynthetic c o (c_start c) rkv; Ok o else Ok o
      | None => Ok o
      end
  end.

Context {It : Type} {M : MVCCIterator It}.

Lemma init_iters c (it : It) (r : R) (a : account) : 0 <= c_maxItersBeforeSeek c -> iters_ok c (init c it r a).
Proof. intros H. unfold iters_ok. cbn. pose proof (Z.mul_div_le (c_maxItersBeforeSeek c) 2). pose proof (Z.div_pos (c_maxItersBeforeSeek c) 2). lia. Qed.

Lemma scan_reference c db `{!IteratorLaws M db} fuel (it : It) (r : R) (a : account) :
  snapshot_ok db -> in_span c db -> (length (positions db) + 1 <= fuel)%nat -> 0 <= c_maxItersBeforeSeek c ->
  (c_wholeRows c = true -> r_lastOffsetsEnabled r = true) ->
  ('(p, x) ← scan c fuel (init c it r a); Ok (so p, x)) = reference_scan c db (start_out r a).
Proof.
  intros ok In Fu Mx W. assert (S : sim (fun x y => (so x.1, x.2) = y) (scan c fuel (init c it r a)) (reference_scan c db (so (init c it r a)))).
  { destruct (c_reverse c) eqn:Rv.
    - apply scan_reverse_walks; try done; [|by apply init_iters]. eapply Forall_impl; [exact In|]. by intros x [].
    - apply scan_forward_walks; try done; [|by apply init_iters]. eapply Forall_impl; [exact In|]. by intros x []. }
  change (so (init c it r a)) with (start_out r a) in S. apply sim_map in S. rewrite <- S. by destruct (scan _ _ _) as [[? ?]| |].
Qed.

(** C2: a scan returns what the reference scan returns.  For every snapshot of well-formed
    versions, intents, inline values and range keys, every iterator that satisfies the documented
    behaviour, every starting state of it, every option (limits, whole rows, transaction,
    uncertainty interval, inconsistent, skip-locked, tombstones, fail-on-more-recent) and every
    number of steps before a seek, in both directions: the scanner's collected results, intents
    and errors and its resume span are those of one walk over the positions that reads each key
    from the list of its versions.  In particular the scan terminates. *)
Theorem scan_refines c db `{!IteratorLaws M db} fuel (it : It) (r : R) (a : account) :
  snapshot_ok db -> in_span c db -> (length (positions db) + 1 <= fuel)%nat -> 0 <= c_maxItersBeforeSeek c ->
  (c_wholeRows c = true -> r_lastOffsetsEnabled r = true) ->
  ('(p, x) ← scan c fuel (init c it r a); Ok (so p, x)) = reference_scan c db (start_out r a).
Proof. intros. by eapply scan_reference. Qed.

(** ** Gets *)

Lemma get_settles {A} c (p : @scanner L R It) fuel (rest : @scanner L R It -> res (@scanner L R It * (bool * bool))) (k : @scanner L R It -> bool -> res A) :
  ('(p, ok) ← processRangeKeys c fuel p true false;
   '(p, added) ← (if negb ok then Ok (p, false)
                  else '(p, ok) ← updateCurrent p; if negb ok then Ok (p, false) else '(p, (_, added)) ← rest p; Ok (p, added));
   k p added) =
  ('(p, added) ← ('(p, ok) ← ('(p, ok) ← processRangeKeys c fuel p true false; if negb ok then Ok (p, false) else updateCurrent p);
                  if negb ok then Ok (p, false) else '(p, (_, added)) ← rest p; Ok (p, added));
   k p added).
Proof. destruct (processRangeKeys _ _ _ _ _) as [[? []]| |]; cbn; [|done..]. by destruct (updateCurrent _) as [[? []]| |]. Qed.

Lemma single_above db key : Forall (fun q => q_user q = key) (positions db) -> above db key = [].
Proof. intros F. apply filter_none. eapply Forall_impl; [exact F|]. cbn. intros x ->. bcases; [border|done]. Qed.

(** A get returns what the reference get returns.  For an iterator confined to the key, the
    get's result, intents, conflict and error are those of reading the key from the list of its
    versions under the range keys at it, and of the range tombstone that stands in for a missing
    value when tombstones are requested. *)
Lemma get_reference c db `{!IteratorLaws M db} fuel (it : It) (r : R) (a : account) :
  snapshot_ok db -> Forall (fun q => q_user q = c_start c) (positions db) -> c_reverse c = false ->
  (length (positions db) + 1 <= fuel)%nat -> 0 <= c_maxItersBeforeSeek c ->
  (p ← get c fuel (init c it r a); Ok (so p)) = reference_get c db (start_out r a).
Proof.
  intros ok F Fw Fu Mx. assert (B : Forall (fun q => ble (c_start c) (q_user q)) (positions db)) by (eapply Forall_impl; [exact F|]; intros x ->; border).
  unfold get, reference_get. cbv zeta. set (p0 := init c it r a). set (p1 := set_parent p0 _).
  assert (A1 : r_cur (abs db p1) = cursor_of false (itinerary c db)).
  { unfold abs. cbn. rewrite it_SeekGE. unfold ref_SeekGE. cbn. apply (seek_start c db fuel Fu Fw B). }
  pose proof (iterSeek_first c db ok fuel Fu Fw B p0 eq_refl eq_refl) as S. unfold iterSeek, clearPeeked in S. rewrite Fw in S.
  change (start_key c) with (MkMVCCKey (c_start c) EmptyTimestamp) in S. fold p1 in S.
  unfold settle in S. unfold iterValid in *. rewrite it_Valid in *. fold (abs db p1) in *. change (so p0) with (start_out r a) in S.
  destruct (itinerary c db) as [|q0 l0] eqn:Ei; [unfold is_at; rewrite A1; by cbn|].
  replace (is_at (abs db p1)) with true in * by (unfold is_at; by rewrite A1). cbn [mbind res_bind negb] in *.
  rewrite (get_settles c p1 fuel (getOne c fuel)), (it_HasPointAndRange _ q0 A1), (it_RangeKeys_at _ q0 A1). cbn [snd]. fold (the_stack db q0).
  assert (Sv : (if c_tombstones c && negb (Stack_IsEmpty (the_stack db q0)) then Versions_FirstAtOrBelow (Versions (the_stack db q0)) (c_ts c) else None) = get_saved c db).
  { unfold get_saved. rewrite Ei. destruct (c_tombstones c); [|done]. cbn. unfold Stack_IsEmpty, Versions_IsEmpty. by destruct (Versions (the_stack db q0)). }
  rewrite Sv.
  assert (Rd : sim (fun x y => so x.1 = y.1 /\ x.2 = y.2)
    ('(p, ok) ← ('(p, ok) ← processRangeKeys c fuel p1 true false; if negb ok then Ok (p, false) else updateCurrent p);
     if negb ok then Ok (p, false) else '(p, (_, added)) ← getOne c fuel p; Ok (p, added))
    ('(o, l) ← land c db None (start_out r a) EmptyStack (q0 :: l0);
     match l with [] => Ok (o, false) | q :: _ => '(o, (_, added)) ← read_key c db o (q_user q); Ok (o, added) end)).
  { rewrite <- Ei in S |- *. apply sim_with in S. eapply sim_bind; [exact S|]. intros x [o2 [|q t]] [Q La].
    - destruct x as [p2 b], Q as (_ & So & -> & _). done.
    - destruct (landed_start c db ok fuel Fu Fw B p0 x o2 q t) as (p2 & l1 & -> & _ & So & Sc & Ap & F1); [done|by apply init_iters|done|done|].
      cbn [mbind res_bind negb]. rewrite <- So. destruct (getOne_reads c db ok fuel Fu p2 l1 q t Ap Sc F1) as [O|(o3 & Eo & O)].
      + eapply sim_bind; [exact O|]. by intros [p3 [? ?]] [o3 [? ?]] ([= -> ->] & ? & _).
      + rewrite Eo. assert (Uq : q_user q = c_start c) by (rewrite Forall_forall in F; apply F; rewrite (ap_split _ _ _ _ _ _ Ap); set_solver).
        rewrite Uq, single_above in O by done. cbn [land] in O. destruct (getOne c fuel p2) as [[p3 [? ?]]| |]; try done. by destruct O as ([= -> ->] & ? & _). }
  rewrite res_bind_assoc. transitivity
    ('(o, added) ← ('(o, l) ← land c db None (start_out r a) EmptyStack (q0 :: l0);
                    match l with [] => Ok (o, false) | q :: _ => '(o, (_, added)) ← read_key c db o (q_user q); Ok (o, added) end);
     o ← maybeFailOnMoreRecent c o;
     match get_saved c db with
     | Some rkv => if negb added && negb (has_err o) then '(o, _) ← addSynthetic c o (c_start c) rkv; Ok o else Ok o
     | None => Ok o
     end); [|by destruct (land _ _ _ _ _ _) as [[? ?]| |]].
  apply sim_eq. eapply sim_bind; [exact Rd|]. intros [p2 added] [o2 ?] [So [= <-]]. cbn in So. rewrite So.
  destruct (maybeFailOnMoreRecent c o2) as [o3| |]; cbn [mbind res_bind]; [|done..]. destruct (get_saved c db) as [rkv|] eqn:Gs; [|done].
  assert (c_tombstones c = true) as -> by (destruct (c_tombstones c) eqn:T; [done|]; unfold get_saved in Gs; by rewrite T in Gs). cbn [andb so set_out].
  destruct (negb added && negb (has_err o3)); [|done]. unfold lift. by destruct (addSynthetic c o3 (c_start c) rkv) as [[? ?]| |].
Qed.

End Results.
