(* ===== verification/LocalKeys.v ===== *)
(** Local keys, addressing and range metadata keys (src/pkg/keys/keys.go, constants.go,
    and the lock-table keys of src/pkg/storage/engine_key.go).

    Store-local, range-ID-local, range-local and lock-table keys with their decoders, the
    address of a key, the key range of a batch, and the meta1/meta2 index keys.  The file
    shows that range-local keys lie between the prefixes of a range's bounds exactly when
    their address lies in the range, that [Addr] terminates, that [Range] covers every
    request of a batch, that the lock table keeps the order of the keys it locks, and that
    the scan bounds of a metadata lookup find the first range ending above a key. *)
From S2P Require Import Prelude Bytes GoLib IntEnc BytesEnc Hlc KeyOps Spans MvccKey.

(** * Constants *)

Definition makeKey (keys : list bytes) : bytes := concat keys.

Abbreviation meta1PrefixByte := 0x02.
Abbreviation meta2PrefixByte := 0x03.
Abbreviation metaMaxByte := 0x04.
Abbreviation systemPrefixByte := 0x04.
Abbreviation localSuffixLength := 4%nat.

Definition LocalRangeIDPrefix : bytes := makeKey [LocalPrefix; str "i"].
Definition LocalRangeIDReplicatedInfix : bytes := str "r".
Definition localRangeIDUnreplicatedInfix : bytes := str "u".
Definition LocalAbortSpanSuffix : bytes := str "abc-".
Definition LocalRangePrefix : bytes := makeKey [LocalPrefix; str "k"].
Definition LocalStorePrefix : bytes := makeKey [LocalPrefix; str "s"].
Definition LocalRangeLockTablePrefix : bytes := makeKey [LocalPrefix; str "z"].
Definition LockTableSingleKeyInfix : bytes := str "k".
Definition localStoreNodeTombstoneSuffix : bytes := str "ntmb".
Definition localStoreCachedSettingsSuffix : bytes := str "stng".
Definition localStoreLossOfQuorumRecoveryInfix : bytes := str "loqr".

Definition Meta1Prefix : bytes := [meta1PrefixByte].
Definition Meta2Prefix : bytes := [meta2PrefixByte].
Definition Meta1KeyMax : bytes := makeKey [Meta1Prefix; KeyMax].
Definition Meta2KeyMax : bytes := makeKey [Meta2Prefix; KeyMax].
Definition SystemPrefix : bytes := [systemPrefixByte].
Definition NodeLivenessPrefix : bytes := makeKey [SystemPrefix; 0 :: str "liveness-"].
Definition StatusPrefix : bytes := makeKey [SystemPrefix; str "status-"].
Definition StatusNodePrefix : bytes := makeKey [StatusPrefix; str "node-"].

(** * UUIDs *)

Definition UUID_FromBytes (input : bytes) : res bytes :=
  if (length input =? 16)%nat then Ok input else Err "uuid: UUID must be exactly 16 bytes long".

(** * Store-local keys *)

Definition MakeStoreKey (suffix detail : bytes) : bytes := LocalStorePrefix ++ suffix ++ detail.

Definition DecodeStoreKey (key : bytes) : res (bytes * bytes) :=
  if negb (HasPrefix key LocalStorePrefix) then Err "key does not have the store prefix"
  else
    let key := cut key LocalStorePrefix in
    if (length key <? localSuffixLength)%nat then Err "malformed key does not contain local store suffix"
    else Ok (take localSuffixLength key, drop localSuffixLength key).

Definition StoreIdentKey : bytes := MakeStoreKey (str "iden") [].
Definition StoreGossipKey : bytes := MakeStoreKey (str "goss") [].
Definition DeprecatedStoreClusterVersionKey : bytes := MakeStoreKey (str "cver") [].
Definition StoreLastUpKey : bytes := MakeStoreKey (str "uptm") [].
Definition StoreHLCUpperBoundKey : bytes := MakeStoreKey (str "hlcu") [].
Definition StoreLossOfQuorumRecoveryStatusKey : bytes :=
  MakeStoreKey (makeKey [localStoreLossOfQuorumRecoveryInfix; str "status"]) [].
Definition StoreLossOfQuorumRecoveryCleanupActionsKey : bytes :=
  MakeStoreKey (makeKey [localStoreLossOfQuorumRecoveryInfix; str "cleanup"]) [].

Definition StoreNodeTombstoneKey (nodeID : Z) : bytes :=
  MakeStoreKey localStoreNodeTombstoneSuffix (EncodeUint32Ascending [] (u32 nodeID)).

Definition DecodeNodeTombstoneKey (key : bytes) : res Z :=
  '(suffix, detail) ← DecodeStoreKey key;
  if negb (beqb suffix localStoreNodeTombstoneSuffix) then Err "key with another suffix"
  else
    '(detail, nodeID) ← DecodeUint32Ascending detail;
    if negb (length detail =? 0)%nat then Err "invalid key has trailing garbage"
    else Ok (s32 nodeID).

Definition StoreCachedSettingsKey (settingKey : bytes) : bytes :=
  MakeStoreKey localStoreCachedSettingsSuffix (EncodeBytesAscending [] settingKey).

Definition DecodeStoreCachedSettingsKey (key : bytes) : res bytes :=
  '(suffix, detail) ← DecodeStoreKey key;
  if negb (beqb suffix localStoreCachedSettingsSuffix) then Err "key with another suffix"
  else
    '(detail, settingKey) ← DecodeBytesAscending detail [];
    if negb (length detail =? 0)%nat then Err "invalid key has trailing garbage"
    else Ok settingKey.

Definition LocalStoreUnsafeReplicaRecoveryKeyMin : bytes :=
  MakeStoreKey (makeKey [localStoreLossOfQuorumRecoveryInfix; str "applied"]) [].

Definition StoreUnsafeReplicaRecoveryKey (uuid : bytes) : bytes :=
  LocalStoreUnsafeReplicaRecoveryKeyMin ++ uuid.

Definition DecodeStoreUnsafeReplicaRecoveryKey (key : bytes) : res bytes :=
  if negb (HasPrefix key LocalStoreUnsafeReplicaRecoveryKeyMin) then Err "key does not have the prefix"
  else UUID_FromBytes (cut key LocalStoreUnsafeReplicaRecoveryKeyMin).

Definition NodeLivenessKey (nodeID : Z) : bytes := EncodeUvarintAscending NodeLivenessPrefix (u64 nodeID).
Definition NodeStatusKey (nodeID : Z) : bytes := EncodeUvarintAscending StatusNodePrefix (u64 nodeID).

(** * Range-ID-local keys *)

Definition makePrefixWithRangeID (prefix : bytes) (rangeID : Z) (infix : bytes) : bytes :=
  EncodeUvarintAscending prefix (u64 rangeID) ++ infix.

Definition MakeRangeIDPrefix (rangeID : Z) : bytes := makePrefixWithRangeID LocalRangeIDPrefix rangeID [].
Definition MakeRangeIDReplicatedPrefix (rangeID : Z) : bytes :=
  makePrefixWithRangeID LocalRangeIDPrefix rangeID LocalRangeIDReplicatedInfix.
Definition MakeRangeIDUnreplicatedPrefix (rangeID : Z) : bytes :=
  makePrefixWithRangeID LocalRangeIDPrefix rangeID localRangeIDUnreplicatedInfix.

Definition makeRangeIDReplicatedKey (rangeID : Z) (suffix detail : bytes) : res bytes :=
  if negb (length suffix =? localSuffixLength)%nat then Panic "suffix length"
  else Ok (MakeRangeIDReplicatedPrefix rangeID ++ suffix ++ detail).
Definition makeRangeIDUnreplicatedKey (rangeID : Z) (suffix detail : bytes) : res bytes :=
  if negb (length suffix =? localSuffixLength)%nat then Panic "suffix length"
  else Ok (MakeRangeIDUnreplicatedPrefix rangeID ++ suffix ++ detail).

Definition DecodeRangeIDKey (key : bytes) : res (Z * bytes * bytes * bytes) :=
  if negb (HasPrefix key LocalRangeIDPrefix) then Err "key does not have the range ID prefix"
  else
    '(b, rangeInt) ← DecodeUvarintAscending (cut key LocalRangeIDPrefix);
    if (length b <? localSuffixLength + 1)%nat
    then Err "malformed key does not contain range ID infix and suffix"
    else
      let infix := take 1 b in
      let b := drop 1 b in
      Ok (s64 rangeInt, infix, take localSuffixLength b, drop localSuffixLength b).

(** [RangeIDPrefixBuf]: the methods append to the prefix [b].  Two keys of one buffer share
    its spare capacity, so a key is only valid until the next call; the definitions give
    the key as it is returned. *)
Definition MakeRangeIDPrefixBuf (rangeID : Z) : bytes := MakeRangeIDPrefix rangeID.
Definition replicatedPrefix (b : bytes) : bytes := b ++ LocalRangeIDReplicatedInfix.
Definition unreplicatedPrefix (b : bytes) : bytes := b ++ localRangeIDUnreplicatedInfix.

Definition Buf_AbortSpanKey (b txnID : bytes) : bytes :=
  EncodeBytesAscending (replicatedPrefix b ++ LocalAbortSpanSuffix) txnID.
Definition Buf_RangeAppliedStateKey (b : bytes) : bytes := replicatedPrefix b ++ str "rask".
Definition Buf_RangeLeaseKey (b : bytes) : bytes := replicatedPrefix b ++ str "rll-".
Definition Buf_RangePriorReadSummaryKey (b : bytes) : bytes := replicatedPrefix b ++ str "rprs".
Definition Buf_RangeGCThresholdKey (b : bytes) : bytes := replicatedPrefix b ++ str "lgc-".
Definition Buf_RangeGCHintKey (b : bytes) : bytes := replicatedPrefix b ++ str "rgch".
Definition Buf_RangeVersionKey (b : bytes) : bytes := replicatedPrefix b ++ str "rver".
Definition Buf_RangeTombstoneKey (b : bytes) : bytes := unreplicatedPrefix b ++ str "rftb".
Definition Buf_RaftTruncatedStateKey (b : bytes) : bytes := unreplicatedPrefix b ++ str "rftt".
Definition Buf_RaftHardStateKey (b : bytes) : bytes := unreplicatedPrefix b ++ str "rfth".
Definition Buf_RaftLogPrefix (b : bytes) : bytes := unreplicatedPrefix b ++ str "rftl".
Definition RaftLogKeyFromPrefix (raftLogPrefix : bytes) (logIndex : Z) : bytes :=
  EncodeUint64Ascending raftLogPrefix logIndex.
Definition Buf_RaftLogKey (b : bytes) (logIndex : Z) : bytes :=
  RaftLogKeyFromPrefix (Buf_RaftLogPrefix b) logIndex.
Definition Buf_RaftReplicaIDKey (b : bytes) : bytes := unreplicatedPrefix b ++ str "rftr".
Definition Buf_RangeLastReplicaGCTimestampKey (b : bytes) : bytes := unreplicatedPrefix b ++ str "rlrt".
Definition Buf_MVCCRangeKeyGCKey (b : bytes) : bytes := unreplicatedPrefix b ++ str "rltu".

Definition AbortSpanKey (rangeID : Z) (txnID : bytes) : bytes :=
  Buf_AbortSpanKey (MakeRangeIDPrefixBuf rangeID) txnID.

Definition DecodeAbortSpanKey (key dest : bytes) : res bytes :=
  '(_, _, suffix, detail) ← DecodeRangeIDKey key;
  if negb (beqb suffix LocalAbortSpanSuffix) then Err "key does not contain the AbortSpan suffix"
  else
    '(detail, idBytes) ← DecodeBytesAscending detail dest;
    if (0 <? length detail)%nat then Err "key has leftover bytes after decode"
    else UUID_FromBytes idBytes.

Definition RangeAppliedStateKey (rangeID : Z) := Buf_RangeAppliedStateKey (MakeRangeIDPrefixBuf rangeID).
Definition RangeLeaseKey (rangeID : Z) := Buf_RangeLeaseKey (MakeRangeIDPrefixBuf rangeID).
Definition RangePriorReadSummaryKey (rangeID : Z) :=
  Buf_RangePriorReadSummaryKey (MakeRangeIDPrefixBuf rangeID).
Definition RangeGCThresholdKey (rangeID : Z) := Buf_RangeGCThresholdKey (MakeRangeIDPrefixBuf rangeID).
Definition RangeGCHintKey (rangeID : Z) := Buf_RangeGCHintKey (MakeRangeIDPrefixBuf rangeID).
Definition MVCCRangeKeyGCKey (rangeID : Z) := Buf_MVCCRangeKeyGCKey (MakeRangeIDPrefixBuf rangeID).
Definition RangeVersionKey (rangeID : Z) := Buf_RangeVersionKey (MakeRangeIDPrefixBuf rangeID).
Definition RangeTombstoneKey (rangeID : Z) := Buf_RangeTombstoneKey (MakeRangeIDPrefixBuf rangeID).
Definition RaftTruncatedStateKey (rangeID : Z) := Buf_RaftTruncatedStateKey (MakeRangeIDPrefixBuf rangeID).
Definition RaftHardStateKey (rangeID : Z) := Buf_RaftHardStateKey (MakeRangeIDPrefixBuf rangeID).
Definition RaftLogPrefix (rangeID : Z) := Buf_RaftLogPrefix (MakeRangeIDPrefixBuf rangeID).
Definition RaftLogKey (rangeID logIndex : Z) := Buf_RaftLogKey (MakeRangeIDPrefixBuf rangeID) logIndex.
Definition RaftReplicaIDKey (rangeID : Z) := Buf_RaftReplicaIDKey (MakeRangeIDPrefixBuf rangeID).
Definition RangeLastReplicaGCTimestampKey (rangeID : Z) :=
  Buf_RangeLastReplicaGCTimestampKey (MakeRangeIDPrefixBuf rangeID).

Definition DecodeRaftLogKeyFromSuffix (raftLogSuffix : bytes) : res Z :=
  '(_, logIndex) ← DecodeUint64Ascending raftLogSuffix; Ok logIndex.

(** * Range-local keys *)

Definition MakeRangeKeyPrefix (key : bytes) : bytes := EncodeBytesAscending LocalRangePrefix key.

Definition MakeRangeKey (key suffix detail : bytes) : res bytes :=
  if negb (length suffix =? localSuffixLength)%nat then Panic "suffix length"
  else Ok (MakeRangeKeyPrefix key ++ suffix ++ detail).

Definition DecodeRangeKey (key : bytes) : res (bytes * bytes * bytes) :=
  if negb (HasPrefix key LocalRangePrefix) then Err "key does not have the range prefix"
  else
    '(b, startKey) ← DecodeBytesAscending (cut key LocalRangePrefix) [];
    if (length b <? localSuffixLength)%nat then Err "key does not have suffix"
    else Ok (startKey, take localSuffixLength b, drop localSuffixLength b).

Definition RangeDescriptorKey (key : bytes) : res bytes := MakeRangeKey key (str "rdsc") [].
Definition QueueLastProcessedKey (key : bytes) (queue : string) : res bytes :=
  MakeRangeKey key (str "qlpt") (str queue).
Definition RangeProbeKey (key : bytes) : res bytes := MakeRangeKey key (str "prbe") [].

(** * Lock-table keys *)

(** The scratch buffer only avoids allocations; its contents are overwritten. *)
Definition LockTableSingleKey (key : bytes) : bytes :=
  EncodeBytesAscending (LocalRangeLockTablePrefix ++ LockTableSingleKeyInfix) key.
Definition LockTableSingleNextKey (key : bytes) : bytes :=
  EncodeNextBytesAscending (LocalRangeLockTablePrefix ++ LockTableSingleKeyInfix) key.

Definition DecodeLockTableSingleKey (key : bytes) : res bytes :=
  if negb (HasPrefix key LocalRangeLockTablePrefix) then Err "key does not have the lock table prefix"
  else
    let b := cut key LocalRangeLockTablePrefix in
    if negb (HasPrefix b LockTableSingleKeyInfix) then Err "key is not for a single-key lock"
    else
      '(b, lockedKey) ← DecodeBytesAscending (cut b LockTableSingleKeyInfix) [];
      if negb (length b =? 0)%nat then Err "key has left-over bytes after decoding"
      else Ok lockedKey.

Abbreviation lock_None := 0.
Abbreviation lock_Exclusive := 3.

Record LockTableKey := MkLockTableKey { lk_Key : bytes; lk_Strength : Z; lk_TxnUUID : bytes }.

Definition LockTableKey_ToEngineKey (lk : LockTableKey) : res EngineKey :=
  if negb (length (lk_TxnUUID lk) =? 16)%nat then Panic "invalid TxnUUID"
  else if negb (lk_Strength lk =? lock_Exclusive) then Panic "unsupported lock strength"
  else
    version ← put_at (make_bytes 17) 0 [u8 (lk_Strength lk)];
    Ok (MkEngineKey (LockTableSingleKey (lk_Key lk)) (copy_at version 1 (lk_TxnUUID lk))).

Definition EngineKey_ToLockTableKey (k : EngineKey) : res LockTableKey :=
  lockedKey ← DecodeLockTableSingleKey (e_Key k);
  if (length (e_Version k) =? 17)%nat then
    let strength := nth 0 (e_Version k) 0 in
    if (strength <? lock_None) || (lock_Exclusive <? strength) then Err "unknown strength"
    else Ok (MkLockTableKey lockedKey strength (drop 1 (e_Version k)))
  else Err "version is not valid for a LockTableKey".

Definition EngineKey_Validate (k : EngineKey) : res unit :=
  if negb (is_ok (EngineKey_ToMVCCKey k)) && negb (is_ok (EngineKey_ToLockTableKey k))
  then Err "key is neither an MVCCKey or LockTableKey" else Ok tt.

(** * Addressing *)

Definition IsLocal (k : bytes) : bool := HasPrefix k LocalPrefix.

Fixpoint addr_loop (fuel : nat) (k : bytes) : res bytes :=
  match fuel with
  | O => Panic "out of fuel"
  | S fuel =>
      if HasPrefix k LocalStorePrefix then Err "store-local key is not addressable"
      else if HasPrefix k LocalRangeIDPrefix then Err "local range ID key is not addressable"
      else if negb (HasPrefix k LocalRangePrefix) then Err "local key malformed"
      else
        '(_, k) ← DecodeBytesAscending (cut k LocalRangePrefix) [];
        if negb (IsLocal k) then Ok k else addr_loop fuel k
  end.

Definition Addr (k : bytes) : res bytes :=
  if negb (IsLocal k) then Ok k else addr_loop (S (length k)) k.

Definition MustAddr (k : bytes) : res bytes :=
  match Addr k with Err _ => Panic "could not take address" | r => r end.

Definition TransactionKey (key txnID : bytes) : res bytes :=
  rk ← MustAddr key; MakeRangeKey rk (str "txn-") txnID.

Definition AddrUpperBound (k : bytes) : res bytes :=
  rk ← Addr k;
  if IsLocal k && negb (Key_Equal k (MakeRangeKeyPrefix rk)) then Ok (Key_Next rk [])
  else Ok rk.

Definition SpanAddr (span : Span) : res RSpan :=
  rk ← Addr (Key span);
  if (0 <? length (ek span))%nat then
    rek ← Addr (ek span); Ok (MkRSpan rk rek)
  else Ok (MkRSpan rk []).

(** What [Range] reads of a request: its header span, and whether it may be a range
    request ([kvpb.IsRange]). *)
Record Request := MkRequest { r_IsRange : bool; r_Header : Span }.

Definition range_step (from to : bytes) (req : Request) : res (bytes * bytes) :=
  let h := r_Header req in
  if negb (r_IsRange req) && negb (length (ek h) =? 0)%nat
  then Err "end key specified for non-range operation"
  else
    key ← Addr (Key h);
    let from := if RKey_Less key from then key else from in
    to ← (if negb (RKey_Less key to) then
            if RKey_Less KeyMax key then Err "must be less than KeyMax" else Ok (Key_Next key [])
          else Ok to);
    if (length (ek h) =? 0)%nat then Ok (from, to)
    else
      endKey ← AddrUpperBound (ek h);
      if RKey_Less KeyMax endKey then Err "must be less than or equal to KeyMax"
      else Ok (from, if RKey_Less to endKey then endKey else to).

Fixpoint range_loop (from to : bytes) (reqs : list Request) : res RSpan :=
  match reqs with
  | [] => Ok (MkRSpan from to)
  | req :: reqs => '(from, to) ← range_step from to req; range_loop from to reqs
  end.

Definition Range (reqs : list Request) : res RSpan := range_loop KeyMax KeyMin reqs.

(** * Range metadata keys *)

Definition RangeMetaKey (key : bytes) : bytes :=
  match key with
  | [] => KeyMin
  | x :: _ =>
      if x =? meta1PrefixByte then KeyMin
      else if x =? meta2PrefixByte then Meta1Prefix ++ drop (length Meta2Prefix) key
      else Meta2Prefix ++ key
  end.

Definition UserKey (key : bytes) : bytes :=
  match key with
  | [] => Meta1Prefix
  | x :: _ =>
      if x =? meta1PrefixByte then Meta2Prefix ++ drop (length Meta1Prefix) key
      else if x =? meta2PrefixByte then drop (length Meta2Prefix) key
      else key
  end.

Definition InMeta1 (k : bytes) : res bool :=
  if Key_Equal k KeyMin then Ok true
  else p ← MustAddr Meta1Prefix; Ok (HasPrefix k p).

Definition validateRangeMetaKey (key : bytes) : res unit :=
  if Key_Equal key KeyMin then Ok tt
  else if (length key <? length Meta1Prefix)%nat then Err "too short"
  else
    let prefix := take (length Meta1Prefix) key in
    let body := drop (length Meta1Prefix) key in
    if negb (Key_Equal prefix Meta2Prefix) && negb (Key_Equal prefix Meta1Prefix)
    then Err "not a meta key"
    else if RKey_Less KeyMax body then Err "body of meta key range lookup is > KeyMax"
    else Ok tt.

Definition MetaScanBounds (key : bytes) : res RSpan :=
  _ ← validateRangeMetaKey key;
  if Key_Equal key Meta2KeyMax then Err "Meta2KeyMax can't be used as the key of scan"
  else if Key_Equal key KeyMin then Ok (MkRSpan Meta1Prefix (Key_PrefixEnd Meta1Prefix))
  else if Key_Equal key Meta1KeyMax then Ok (MkRSpan Meta1KeyMax (Key_PrefixEnd Meta1Prefix))
  else Ok (MkRSpan (Key_Next key []) (Key_PrefixEnd (take (length Meta1Prefix) key))).

Definition MetaReverseScanBounds (key : bytes) : res RSpan :=
  _ ← validateRangeMetaKey key;
  if Key_Equal key KeyMin || Key_Equal key Meta1Prefix
  then Err "KeyMin and Meta1Prefix can't be used as the key of reverse scan"
  else if Key_Equal key Meta2Prefix then Ok (MkRSpan Meta1Prefix (Key_Next key []))
  else Ok (MkRSpan (take (length Meta1Prefix) key) (Key_Next key [])).

(** * Encoded keys behind a prefix *)

Lemma enc_app p x : EncodeBytesAscending p x = p ++ EncodeBytesAscending [] x.
Proof. apply (oc_append (enc := EncodeBytesAscending)). Qed.

Lemma enc_compare p x y s t :
  bytes_ok x -> bytes_ok y ->
  bytes_compare (EncodeBytesAscending p x ++ s) (EncodeBytesAscending p y ++ t) =
  lexc (bytes_compare x y) (bytes_compare s t).
Proof.
  intros Hx Hy. rewrite (enc_app p x), (enc_app p y), <- !app_assoc, bytes_compare_app.
  by apply (oc_order (enc := EncodeBytesAscending)).
Qed.

Lemma enc_lt_bare p x y s :
  bytes_ok x -> bytes_ok y ->
  blt (EncodeBytesAscending p x ++ s) (EncodeBytesAscending p y) <-> blt x y.
Proof. apply (codec_lt_bare (enc := EncodeBytesAscending)). Qed.

Lemma enc_bare_le p x y s :
  bytes_ok x -> bytes_ok y ->
  ble (EncodeBytesAscending p x) (EncodeBytesAscending p y ++ s) <-> ble x y.
Proof. apply (codec_bare_le (enc := EncodeBytesAscending)). Qed.

Lemma enc_lt_le p x y s t :
  bytes_ok x -> bytes_ok y ->
  blt (EncodeBytesAscending p x ++ s) (EncodeBytesAscending p y ++ t) -> ble x y.
Proof. intros Hx Hy. unfold blt, ble. rewrite enc_compare by done. by destruct (bytes_compare x y). Qed.

Lemma dec_enc x s : bytes_ok x -> DecodeBytesAscending (EncodeBytesAscending [] x ++ s) [] = Ok (s, x).
Proof. apply (oc_roundtrip (enc := EncodeBytesAscending) (dec := fun b => DecodeBytesAscending b [])). Qed.

(** A decoded key is shorter than its encoding, and decoding does not run out of fuel. *)
Lemma dec_ref_length b r :
  match dec_ref b r ascendingBytesEscapes with
  | Ok (b', x) => (length b' + length x < length b + length r)%nat
  | Err _ => True
  | Panic _ => False
  end.
Proof.
  revert r. induction b as [[|x [|v b]] IH] using (induction_ltof1 _ (@length Z)); intros r; [done| |].
  - rewrite dec_ref_cons. destruct (x =? _); [done|]. by cbn.
  - rewrite dec_ref_cons. destruct (x =? _); [destruct (v =? _); [cbn; lia|destruct (negb _); [done|]]|].
    + specialize (IH b ltac:(unfold ltof; cbn; lia) (r ++ [e_escapedFF ascendingBytesEscapes])).
      destruct (dec_ref b _ _) as [[? ?]| |]; [|done..]. rewrite length_app in IH. cbn in *. lia.
    + specialize (IH (v :: b) ltac:(unfold ltof; cbn; lia) (r ++ [x])).
      destruct (dec_ref (v :: b) _ _) as [[? ?]| |]; [|done..]. rewrite length_app in IH. cbn in *. lia.
Qed.

Lemma DecodeBytesAscending_length b :
  match DecodeBytesAscending b [] with
  | Ok (b', x) => (length b' + length x < length b)%nat
  | Err _ => True
  | Panic _ => False
  end.
Proof.
  unfold DecodeBytesAscending. destruct b as [|m b]; [done|]. rewrite decodeBytesInternal_ref.
  destruct (m =? _); [|done]. pose proof (dec_ref_length b []) as H.
  destruct (dec_ref b [] _) as [[? ?]| |]; [|done..]. cbn in *. lia.
Qed.

(** * Addresses *)

Lemma addr_loop_total fuel k :
  (length k < fuel)%nat ->
  match addr_loop fuel k with Ok a => IsLocal a = false | Err _ => True | Panic _ => False end.
Proof.
  revert k. induction fuel as [|fuel IH]; intros k Hk; [lia|]. cbn [addr_loop].
  destruct (HasPrefix k LocalStorePrefix); [done|]. destruct (HasPrefix k LocalRangeIDPrefix); [done|].
  destruct (HasPrefix k LocalRangePrefix) eqn:E; [cbn [negb]|done].
  pose proof (DecodeBytesAscending_length (cut k LocalRangePrefix)) as H.
  destruct (DecodeBytesAscending _ _) as [[? x]| |]; [|done..]. cbn [mbind res_bind].
  destruct (IsLocal x) eqn:Ex; [cbn [negb]|done]. apply IH.
  apply HasPrefix_true in E. rewrite E, length_app in Hk. cbn [length LocalRangePrefix] in Hk.
  unfold LocalRangePrefix in *. cbn in *. lia.
Qed.

Lemma addr_loop_fuel n m k :
  (length k < n)%nat -> (length k < m)%nat -> addr_loop n k = addr_loop m k.
Proof.
  revert m k. induction n as [|n IH]; intros [|m] k Hn Hm; [lia..|]. cbn [addr_loop].
  destruct (HasPrefix k LocalStorePrefix); [done|]. destruct (HasPrefix k LocalRangeIDPrefix); [done|].
  destruct (HasPrefix k LocalRangePrefix) eqn:E; [cbn [negb]|done].
  pose proof (DecodeBytesAscending_length (cut k LocalRangePrefix)) as H.
  destruct (DecodeBytesAscending _ _) as [[? x]| |]; [|done..]. cbn [mbind res_bind].
  destruct (IsLocal x) eqn:Ex; [cbn [negb]|done].
  apply HasPrefix_true in E. rewrite E, length_app in Hn, Hm.
  change (length LocalRangePrefix) with 2%nat in *. apply IH; lia.
Qed.

Lemma range_prefix_app rk : MakeRangeKeyPrefix rk = LocalRangePrefix ++ EncodeBytesAscending [] rk.
Proof. apply enc_app. Qed.

(** The address of a range-local key is the address of the key inside. *)
Lemma Addr_range rk s : bytes_ok rk -> Addr (MakeRangeKeyPrefix rk ++ s) = Addr rk.
Proof.
  intros Hrk. rewrite range_prefix_app, <- app_assoc. set (e := EncodeBytesAscending [] rk ++ s).
  assert (length rk < length (LocalRangePrefix ++ e))%nat as L.
  { pose proof (DecodeBytesAscending_length e) as H. unfold e in H. rewrite dec_enc in H by done.
    rewrite length_app. fold e in H. lia. }
  unfold Addr at 1. change (IsLocal (LocalRangePrefix ++ e)) with true. cbn [negb].
  change (HasPrefix (LocalRangePrefix ++ e) LocalPrefix) with true.
  revert L. generalize (length (LocalRangePrefix ++ e)). intros n L. cbn [addr_loop].
  change (HasPrefix (LocalRangePrefix ++ e) LocalStorePrefix) with false.
  change (HasPrefix (LocalRangePrefix ++ e) LocalRangeIDPrefix) with false.
  rewrite HasPrefix_app, cut_app. cbn [negb]. unfold e. rewrite dec_enc by done. cbn [mbind res_bind].
  unfold Addr. destruct (IsLocal rk) eqn:E; [cbn [negb]|done]. apply addr_loop_fuel; lia.
Qed.

Lemma Addr_global k : IsLocal k = false -> Addr k = Ok k.
Proof. intros E. unfold Addr. by rewrite E. Qed.

Lemma IsLocal_range rk s : IsLocal (MakeRangeKeyPrefix rk ++ s) = true.
Proof. by rewrite range_prefix_app, <- app_assoc. Qed.

Lemma AddrUpperBound_range rk s :
  bytes_ok rk -> IsLocal rk = false ->
  AddrUpperBound (MakeRangeKeyPrefix rk ++ s) = Ok (if (length s =? 0)%nat then rk else rk ++ [0]).
Proof.
  intros Hrk El. unfold AddrUpperBound. rewrite Addr_range, Addr_global, IsLocal_range by done.
  cbn [mbind res_bind andb]. unfold Key_Equal, Key_Next. rewrite BytesNext_eq.
  destruct (beqb_spec (MakeRangeKeyPrefix rk ++ s) (MakeRangeKeyPrefix rk)) as [E|E]; destruct s; try done.
  - apply (f_equal length) in E. rewrite length_app in E. cbn in E. lia.
  - by rewrite app_nil_r in E.
Qed.

(** * The key range of a batch *)

(** What a span of addresses must satisfy to hold every request of a batch. *)
Definition request_covered (from to : bytes) (req : Request) : Prop :=
  (exists a, Addr (Key (r_Header req)) = Ok a /\ ble from a /\ blt a to) /\
  (is_point (r_Header req) = true \/
   exists e, AddrUpperBound (ek (r_Header req)) = Ok e /\ ble e to).

Lemma request_covered_mono from to from' to' req :
  ble from' from -> ble to to' -> request_covered from to req -> request_covered from' to' req.
Proof.
  intros Hf Ht [(a & E & H1 & H2) H3]. split; [exists a; repeat split; [done|border..]|].
  destruct H3 as [?|(e & E' & H3)]; [by left|]. right. exists e. split; [done|border].
Qed.

Lemma range_step_spec from to req f t :
  range_step from to req = Ok (f, t) ->
  ble f from /\ ble to t /\ request_covered f t req /\
  forall f' t', bytes_ok t' -> ble f' from -> ble to t' -> request_covered f' t' req -> ble f' f /\ ble t t'.
Proof.
  unfold range_step, request_covered, RKey_Less, is_point, Key_Next. rewrite ?BytesNext_eq.
  destruct (negb _ && _); [done|].
  intros (a & Ea & H)%res_bind_inv. rewrite Ea. apply res_bind_inv in H as (t1 & Et & H).
  assert (ble to t1 /\ blt a t1 /\ forall t', bytes_ok t' -> ble to t' -> blt a t' -> ble t1 t') as (A1 & A2 & A3).
  { pose proof (blt_next a). rewrite ?BytesNext_eq in Et.
    destruct (bltb_spec a to); cbn [negb] in Et; [injection Et as <-; repeat split; [border|done|border]|].
    destruct (bltb_spec KeyMax a); [done|]. injection Et as <-. repeat split; [border|done|].
    intros. by apply next_least. }
  assert (ble (if bltb a from then a else from) from /\ ble (if bltb a from then a else from) a /\
    forall f', ble f' from -> ble f' a -> ble f' (if bltb a from then a else from)) as (F1 & F2 & F3)
    by (destruct (bltb_spec a from); repeat split; border).
  clear Et. revert F1 F2 F3 H. generalize (if bltb a from then a else from) as f1. intros f1 F1 F2 F3 H.
  destruct (length (ek (r_Header req)) =? 0)%nat.
  { injection H as <- <-. split_and!; [done..|eauto|by left|].
    intros f' t' Ht' Hf' Hto [(a' & [= <-] & ? & ?) _]. auto. }
  apply res_bind_inv in H as (e & Ee & H). rewrite Ee.
  destruct (bltb_spec KeyMax e); [done|]. injection H as <- <-.
  assert (ble t1 (if bltb t1 e then e else t1) /\ ble e (if bltb t1 e then e else t1) /\
    forall t', ble t1 t' -> ble e t' -> ble (if bltb t1 e then e else t1) t') as (E1 & E2 & E3)
    by (destruct (bltb_spec t1 e); repeat split; border).
  revert E1 E2 E3. generalize (if bltb t1 e then e else t1) as t2. intros t2 E1 E2 E3.
  split_and!; [done|border| |right; eauto|].
  { exists a. repeat split; [done|border]. }
  intros f' t' Ht' Hf' Hto [(a' & [= <-] & ? & ?) [?|(e' & [= <-] & ?)]]; [done|]. auto.
Qed.

Lemma range_loop_spec reqs from to rs :
  range_loop from to reqs = Ok rs ->
  ble (RKey rs) from /\ ble to (REndKey rs) /\
  Forall (request_covered (RKey rs) (REndKey rs)) reqs /\
  forall f' t', bytes_ok t' -> ble f' from -> ble to t' -> Forall (request_covered f' t') reqs ->
    ble f' (RKey rs) /\ ble (REndKey rs) t'.
Proof.
  revert from to. induction reqs as [|req reqs IH]; intros from to H; cbn [range_loop] in H.
  { injection H as <-. cbn. split_and!; [border..|constructor|auto]. }
  apply res_bind_inv in H as ([f t] & S1 & H). apply range_step_spec in S1 as (A1 & A2 & A3 & A4).
  apply IH in H as (B1 & B2 & B3 & B4). split_and!; [border..| |].
  - constructor; [by eapply request_covered_mono|done].
  - intros f' t' Ht' Hf' Hto [Hr Hrs]%Forall_cons. destruct (A4 f' t') as [? ?]; [done..|]. by apply B4.
Qed.

(** * Range metadata keys *)

(** Keys that are indexed by meta2: not empty, and past the two metadata prefixes. *)
Definition ordinary (k : bytes) : Prop :=
  bytes_ok k /\ ble k KeyMax /\ exists x k', k = x :: k' /\ meta2PrefixByte < x.

Lemma RangeMetaKey_ordinary k : ordinary k -> RangeMetaKey k = Meta2Prefix ++ k.
Proof.
  intros (_ & _ & x & k' & -> & Hx). unfold RangeMetaKey.
  destruct (Z.eqb_spec x meta1PrefixByte), (Z.eqb_spec x meta2PrefixByte); (lia || done).
Qed.

Lemma meta_lt m x y : blt (m ++ x) (m ++ y) <-> blt x y.
Proof. unfold blt. by rewrite bytes_compare_app. Qed.

Lemma meta_validate m k :
  m = Meta1Prefix \/ m = Meta2Prefix -> ble k KeyMax -> validateRangeMetaKey (m ++ k) = Ok tt.
Proof.
  intros Hm Hk. unfold validateRangeMetaKey, Key_Equal, RKey_Less.
  assert (length m = length Meta1Prefix) as L by (by destruct Hm as [->| ->]).
  destruct (beqb_spec (m ++ k) KeyMin) as [E|_]; [done|]. rewrite length_app, <- L.
  destruct (Nat.ltb_spec (length m + length k) (length m)); [lia|].
  rewrite take_app_length, drop_app_length. destruct (bltb_spec KeyMax k); [border|].
  by destruct Hm as [->| ->].
Qed.

(** A record with key [m ++ e] lies in the scan for [m ++ k] when [e] is above [k]. *)
Lemma meta_scan m k e :
  m = Meta1Prefix \/ m = Meta2Prefix ->
  bytes_ok k -> bytes_ok e -> blt k KeyMax ->
  exists rs, MetaScanBounds (m ++ k) = Ok rs /\
    (RSpan_ContainsKey rs (m ++ e) = true <-> blt k e).
Proof.
  intros Hm Hk He Hlt. unfold MetaScanBounds. rewrite meta_validate by (done || border).
  cbn [mbind res_bind].
  assert (length m = length Meta1Prefix) as L by (by destruct Hm as [->| ->]).
  assert (forall p, beqb (m ++ k) (makeKey [p; KeyMax]) = true -> length p = length m -> False) as N.
  { intros p Hp Lp. destruct (beqb_spec (m ++ k) (makeKey [p; KeyMax])) as [E|]; [|done].
    unfold makeKey in E. cbn [concat] in E. rewrite app_nil_r in E.
    apply app_inj_1 in E as [_ ->]; [|done]. border. }
  unfold Key_Equal, Meta2KeyMax, Meta1KeyMax.
  destruct (beqb (m ++ k) (makeKey [Meta2Prefix; KeyMax])) eqn:E2; [by apply N in E2|].
  destruct (beqb_spec (m ++ k) KeyMin) as [E|_]; [by destruct Hm as [->| ->]|].
  destruct (beqb (m ++ k) (makeKey [Meta1Prefix; KeyMax])) eqn:E1; [by apply N in E1|].
  eexists. split; [done|]. unfold RSpan_ContainsKey. cbn [RKey REndKey]. unfold Key_Next.
  rewrite BytesNext_eq, <- L, take_app_length.
  assert (bytes_ok m /\ m <> [] /\ ~ Forall (eq 0xff) m) as (M1 & M2 & M3).
  { destruct Hm as [->| ->]; (split_and!; [repeat constructor; unfold byte_ok; lia|done|]);
      by inversion_clear 1. }
  assert (bytes_ok (m ++ e)) as Hme by (by apply bytes_ok_app).
  destruct (proj1 (PrefixEnd_spec m (m ++ e) M1 Hme M2 M3)) as [_ P]; [by exists e|].
  unfold Key_PrefixEnd. destruct (bltb_spec (m ++ e) (PrefixEnd m)); [|done]. rewrite andb_true_r.
  rewrite <- (meta_lt m), next_least by done.
  by destruct (bleb_spec ((m ++ k) ++ [0]) (m ++ e)).
Qed.

(** A record with key [m ++ e] lies in the reverse scan for [m ++ k] when [e] is not above [k]. *)
Lemma meta_reverse_scan m k e :
  m = Meta1Prefix \/ m = Meta2Prefix ->
  bytes_ok k -> bytes_ok e -> ble k KeyMax -> k <> [] ->
  exists rs, MetaReverseScanBounds (m ++ k) = Ok rs /\
    (RSpan_ContainsKey rs (m ++ e) = true <-> ble e k).
Proof.
  intros Hm Hk He Hle Hne. unfold MetaReverseScanBounds. rewrite meta_validate by done.
  cbn [mbind res_bind]. unfold Key_Equal.
  assert (length m = length Meta1Prefix) as L by (by destruct Hm as [->| ->]).
  assert (forall p, length p = length m -> beqb (m ++ k) p = false) as N.
  { intros p Lp. destruct (beqb_spec (m ++ k) p) as [<-|]; [|done]. rewrite length_app in Lp.
    destruct k; cbn in Lp; [done|lia]. }
  destruct (beqb_spec (m ++ k) KeyMin) as [E|_]; [by destruct Hm as [->| ->]|].
  rewrite !N by done. cbn [orb]. eexists. split; [done|]. unfold RSpan_ContainsKey. cbn [RKey REndKey].
  unfold Key_Next. rewrite BytesNext_eq, <- L, take_app_length.
  destruct (bleb_spec m (m ++ e)) as [_|N']; [|destruct N'; apply prefix_le; by exists e].
  cbn [andb]. assert (ble e k <-> ~ blt k e) as -> by (split; border).
  rewrite <- (meta_lt m k e), next_least by (destruct Hm as [->| ->]; apply bytes_ok_app; (split; [|done]);
    repeat constructor; unfold byte_ok; lia).
  destruct (bltb_spec (m ++ e) ((m ++ k) ++ [0])); split; [border|done|done|border].
Qed.

(** * Theorems *)

(** [Addr] returns for every byte string: unwrapping ends with a key that is not local or
    with an error, never by running out of steps, and the steps allowed do not matter. *)
Theorem Addr_terminates k :
  (exists a, Addr k = Ok a /\ IsLocal a = false) \/ (exists m, Addr k = Err m).
Proof.
  unfold Addr. destruct (IsLocal k) eqn:E; cbn [negb]; [|eauto].
  pose proof (addr_loop_total (S (length k)) k ltac:(lia)) as H.
  destruct (addr_loop (S (length k)) k); [eauto..|done].
Qed.

(** C29: Range-local keys follow the keys they belong to.  The keys of [rk] lie between the
    prefixes of a range's start and end exactly when [rk] lies in the range; they decode;
    their address is that of [rk], through any depth of local keys; and a span between
    range-local keys only holds keys addressed from the address of its start to, and not
    including, the upper bound taken of its end. *)
Theorem range_local_keys start end_ rk suffix detail k :
  bytes_ok start -> bytes_ok end_ -> bytes_ok rk -> MakeRangeKey rk suffix detail = Ok k ->
  (ble (MakeRangeKeyPrefix start) k /\ blt k (MakeRangeKeyPrefix end_) <-> ble start rk /\ blt rk end_) /\
  DecodeRangeKey k = Ok (rk, suffix, detail) /\ Addr k = Addr rk /\
  (IsLocal rk = false -> AddrUpperBound k = Ok (rk ++ [0]) /\ AddrUpperBound (MakeRangeKeyPrefix rk) = Ok rk) /\
  (IsLocal rk = false -> IsLocal start = false -> IsLocal end_ = false -> forall s t lo hi,
     Addr (MakeRangeKeyPrefix start ++ s) = Ok lo -> AddrUpperBound (MakeRangeKeyPrefix end_ ++ t) = Ok hi ->
     ble (MakeRangeKeyPrefix start ++ s) k -> blt k (MakeRangeKeyPrefix end_ ++ t) ->
     ble lo rk /\ blt rk hi).
Proof.
  intros Hs He Hr. unfold MakeRangeKey. destruct (Nat.eqb_spec (length suffix) localSuffixLength) as [L|]; [|done].
  intros [= <-]. split_and!.
  - unfold MakeRangeKeyPrefix. by rewrite enc_bare_le, enc_lt_bare.
  - unfold DecodeRangeKey. rewrite range_prefix_app, <- !app_assoc, HasPrefix_app, cut_app, dec_enc by done.
    cbn [negb mbind res_bind]. rewrite length_app.
    destruct (Nat.ltb_spec (length suffix + length detail) localSuffixLength); [lia|].
    by rewrite <- L, take_app_length, drop_app_length.
  - by apply Addr_range.
  - intros El. pose proof (AddrUpperBound_range rk [] Hr El) as U. rewrite app_nil_r in U. split; [|done].
    rewrite AddrUpperBound_range, length_app, L by done. done.
  - intros Er Es Ee s t lo hi. rewrite Addr_range, (Addr_global start) by done.
    rewrite AddrUpperBound_range by done. intros [= <-] [= <-] Hlo Hhi. split.
    + unfold MakeRangeKeyPrefix, ble in *. rewrite enc_compare in Hlo by done.
      by destruct (bytes_compare start rk).
    + destruct t as [|z t]; cbn [length Nat.eqb].
      * rewrite app_nil_r in Hhi. by apply enc_lt_bare in Hhi.
      * apply enc_lt_le in Hhi; [|done..]. pose proof (blt_next end_). border.
Qed.

Lemma range_local_keys_witness :
  MakeRangeKey (str "m") (str "txn-") (str "id") =
    Ok (MakeRangeKeyPrefix (str "m") ++ str "txn-" ++ str "id") /\
  AddrUpperBound (MakeRangeKeyPrefix (str "m") ++ str "txn-" ++ str "id") = Ok (str "m" ++ [0]).
Proof.
  split; [vm_compute; reflexivity|].
  pose proof (range_local_keys (str "a") (str "z") (str "m") (str "txn-") (str "id") _
    ltac:(by apply bytes_ok_b) ltac:(by apply bytes_ok_b)
    ltac:(by apply bytes_ok_b) eq_refl) as H.
  exact (proj1 (proj1 (proj2 (proj2 (proj2 H))) eq_refl)).
Defined.

(** [Range] returns the least span of addresses that holds every request of the batch:
    the address of each request's key, and up to the bound of its end key. *)
Theorem Range_least_cover reqs rs :
  Range reqs = Ok rs ->
  Forall (request_covered (RKey rs) (REndKey rs)) reqs /\
  forall from to, bytes_ok to -> ble from KeyMax -> Forall (request_covered from to) reqs ->
    ble from (RKey rs) /\ ble (REndKey rs) to.
Proof.
  intros H. apply range_loop_spec in H as (_ & _ & H1 & H2). split; [done|].
  intros from to Ht Hf. apply H2; [done..|apply ble_nil].
Qed.

Lemma Range_least_cover_witness :
  request_covered (str "b") (str "f")
    (MkRequest true (MkSpan (str "b") (Some (MakeRangeKeyPrefix (str "d") ++ str "rdsc")))).
Proof.
  pose proof (Range_least_cover
    [MkRequest false (MkSpan (str "c") None);
     MkRequest true (MkSpan (str "b") (Some (MakeRangeKeyPrefix (str "d") ++ str "rdsc")))]
    (MkRSpan (str "b") (str "d" ++ [0])) ltac:(vm_compute; reflexivity)) as [H _].
  apply Forall_cons_1 in H as [_ [H _]%Forall_cons_1].
  refine (request_covered_mono _ _ _ _ _ _ _ H); vm_compute; discriminate.
Defined.

(** The lock table keeps the order of the keys it locks, so that the locks of [start, end)
    are those between the two single-key lock keys; the shortcut for the next key is the key
    of the next key; and a lock's engine key decodes to it, and is valid. *)
Theorem lock_table_keys a b txn k :
  bytes_ok a -> bytes_ok b -> length txn = 16%nat ->
  LockTableKey_ToEngineKey (MkLockTableKey a lock_Exclusive txn) = Ok k ->
  bytes_compare (LockTableSingleKey a) (LockTableSingleKey b) = bytes_compare a b /\
  LockTableSingleNextKey a = LockTableSingleKey (Key_Next a []) /\
  DecodeLockTableSingleKey (LockTableSingleKey a) = Ok a /\
  EngineKey_ToLockTableKey k = Ok (MkLockTableKey a lock_Exclusive txn) /\
  EngineKey_IsLockTableKey k = true /\ EngineKey_Validate k = Ok tt /\
  is_ok (EngineKey_ToMVCCKey k) = false.
Proof.
  intros Ha Hb Ht. unfold LockTableKey_ToEngineKey. cbn [lk_TxnUUID lk_Strength lk_Key].
  rewrite Ht. cbn [Nat.eqb negb Z.eqb Pos.eqb].
  change (put_at (make_bytes 17) 0 [u8 lock_Exclusive]) with (Ok (3 :: make_bytes 16)).
  cbn [mbind res_bind]. intros [= <-].
  assert (copy_at (3 :: make_bytes 16) 1 txn = 3 :: txn) as V.
  { unfold copy_at. cbn [take app length]. change (length (make_bytes 16)) with 16%nat.
    rewrite Ht, (take_ge txn) by (rewrite Ht; cbn; lia). change (drop (1 + 16) (3 :: make_bytes 16)) with (@nil Z).
    by rewrite app_nil_r. }
  assert (DecodeLockTableSingleKey (LockTableSingleKey a) = Ok a) as D.
  { unfold DecodeLockTableSingleKey, LockTableSingleKey. rewrite enc_app, <- app_assoc, HasPrefix_app, cut_app.
    cbn [negb]. rewrite HasPrefix_app, cut_app. cbn [negb].
    rewrite <- (app_nil_r (EncodeBytesAscending [] a)), dec_enc by done. done. }
  assert (EngineKey_ToLockTableKey (MkEngineKey (LockTableSingleKey a) (3 :: txn)) =
    Ok (MkLockTableKey a lock_Exclusive txn)) as T.
  { unfold EngineKey_ToLockTableKey. cbn [e_Key e_Version]. rewrite D. cbn [mbind res_bind length].
    by rewrite Ht. }
  rewrite V. split_and!; [| |done|done| | |].
  - unfold LockTableSingleKey.
    rewrite <- (app_nil_r (EncodeBytesAscending _ a)), <- (app_nil_r (EncodeBytesAscending _ b)).
    rewrite enc_compare by done. by destruct (bytes_compare a b).
  - unfold LockTableSingleNextKey, LockTableSingleKey, Key_Next. by rewrite EncodeNextBytesAscending_eq, BytesNext_eq.
  - unfold EngineKey_IsLockTableKey. cbn [e_Version length]. by rewrite Ht.
  - unfold EngineKey_Validate. rewrite T. cbn [is_ok negb]. by rewrite andb_false_r.
  - unfold EngineKey_ToMVCCKey, decodeMVCCTimestamp. cbn [e_Version length]. by rewrite Ht.
Qed.

Lemma lock_table_keys_witness :
  DecodeLockTableSingleKey (LockTableSingleKey (str "k")) = Ok (str "k").
Proof.
  pose proof (lock_table_keys (str "k") (str "l") (replicate 16 7) _
    ltac:(by apply bytes_ok_b) ltac:(by apply bytes_ok_b)
    eq_refl eq_refl) as H.
  exact (proj1 (proj2 (proj2 H))).
Defined.

(** Range lookups.  For ordinary keys [k] and [e], the metadata keys invert; the records
    that the scan bounds of [k]'s metadata key hold are those of range ends above [k], in
    meta2 and in meta1; and a reverse scan holds those of range ends up to [k]. *)
Theorem meta_lookup k e :
  ordinary k -> ordinary e -> blt k KeyMax ->
  UserKey (RangeMetaKey k) = k /\ UserKey (RangeMetaKey (RangeMetaKey k)) = RangeMetaKey k /\
  RangeMetaKey (RangeMetaKey (RangeMetaKey k)) = KeyMin /\
  (exists rs, MetaScanBounds (RangeMetaKey k) = Ok rs /\
     (RSpan_ContainsKey rs (RangeMetaKey e) = true <-> blt k e)) /\
  (exists rs, MetaScanBounds (RangeMetaKey (RangeMetaKey k)) = Ok rs /\
     (RSpan_ContainsKey rs (RangeMetaKey (RangeMetaKey e)) = true <-> blt k e)) /\
  (exists rs, MetaReverseScanBounds (RangeMetaKey k) = Ok rs /\
     (RSpan_ContainsKey rs (RangeMetaKey e) = true <-> ble e k)).
Proof.
  intros Ok_ Oe Hlt. rewrite (RangeMetaKey_ordinary k), (RangeMetaKey_ordinary e) by done.
  assert (forall x, RangeMetaKey (Meta2Prefix ++ x) = Meta1Prefix ++ x) as R by done.
  rewrite !R. destruct Ok_ as (Bk & Lk & x & k' & Ek & _), Oe as (Be & Le & _).
  split_and!; [done..| | |].
  - apply meta_scan; auto.
  - apply meta_scan; auto.
  - apply meta_reverse_scan; auto. by rewrite Ek.
Qed.

Lemma ordinary_str k : 
  forallb (fun x => (0 <=? x) && (x <? 256)) k && bleb k KeyMax &&
    match k with x :: _ => meta2PrefixByte <? x | [] => false end = true -> ordinary k.
Proof.
  rewrite !andb_true_iff. intros [[H1 H2] H3]. split_and!.
  - by apply bytes_ok_b.
  - by destruct (bleb_spec k KeyMax).
  - destruct k as [|x k]; [done|]. exists x, k. split; [done|lia].
Qed.

Lemma meta_lookup_witness :
  exists rs, MetaScanBounds (RangeMetaKey (str "k")) = Ok rs /\
    RSpan_ContainsKey rs (RangeMetaKey (str "p")) = true.
Proof.
  destruct (meta_lookup (str "k") (str "p") ltac:(by apply ordinary_str) ltac:(by apply ordinary_str) eq_refl)
    as (_ & _ & _ & (rs & E & H) & _).
  exists rs. split; [exact E|apply (proj2 H); reflexivity].
Defined.

Lemma uv_app p v : EncodeUvarintAscending p v = p ++ EncodeUvarintAscending [] v.
Proof. apply (oc_append (enc := EncodeUvarintAscending)). Qed.

Lemma range_id_prefix i infix s :
  makePrefixWithRangeID LocalRangeIDPrefix i infix ++ s =
  LocalRangeIDPrefix ++ EncodeUvarintAscending [] (u64 i) ++ infix ++ s.
Proof. unfold makePrefixWithRangeID. rewrite uv_app. by rewrite <- !app_assoc. Qed.

Lemma DecodeRangeIDKey_make i infix suffix detail :
  isS 64 i -> length infix = 1%nat -> length suffix = localSuffixLength ->
  DecodeRangeIDKey (makePrefixWithRangeID LocalRangeIDPrefix i infix ++ suffix ++ detail) =
  Ok (i, infix, suffix, detail).
Proof.
  intros Hi Li Ls. rewrite range_id_prefix. unfold DecodeRangeIDKey.
  rewrite HasPrefix_app, cut_app. cbn [negb].
  rewrite (oc_roundtrip (enc := EncodeUvarintAscending)) by (by apply wrapU_range).
  cbn [mbind res_bind]. rewrite !length_app, Li, Ls.
  destruct (Nat.ltb_spec (1 + (localSuffixLength + length detail)) (localSuffixLength + 1)); [lia|].
  rewrite (take_app_length' infix), (drop_app_length' infix) by done.
  rewrite (take_app_length' suffix), (drop_app_length' suffix) by done. by rewrite s64_u64.
Qed.

(** Every key made from a range ID is the ID's prefix, an infix and a suffix. *)
Lemma Buf_key_eq i infix s :
  (MakeRangeIDPrefixBuf i ++ infix) ++ s = makePrefixWithRangeID LocalRangeIDPrefix i infix ++ s.
Proof.
  unfold MakeRangeIDPrefixBuf, MakeRangeIDPrefix, makePrefixWithRangeID. by rewrite app_nil_r.
Qed.

Lemma RaftLogKey_eq i a :
  RaftLogKey i a =
  makePrefixWithRangeID LocalRangeIDPrefix i localRangeIDUnreplicatedInfix ++
    str "rftl" ++ EncodeUint64Ascending [] a.
Proof.
  unfold RaftLogKey, Buf_RaftLogKey, RaftLogKeyFromPrefix, Buf_RaftLogPrefix, unreplicatedPrefix.
  rewrite (oc_append (enc := EncodeUint64Ascending)), Buf_key_eq. by rewrite <- app_assoc.
Qed.

Lemma raft_log_keys i j a b :
  isS 64 i -> isS 64 j -> isU 64 a -> isU 64 b ->
  bytes_compare (RaftLogKey i a) (RaftLogKey j b) = lexc (u64 i ?= u64 j) (a ?= b) /\
  DecodeRaftLogKeyFromSuffix (cut (RaftLogKey i a) (RaftLogPrefix i)) = Ok a /\
  DecodeRangeIDKey (RaftLogKey i a) =
    Ok (i, localRangeIDUnreplicatedInfix, str "rftl", EncodeUint64Ascending [] a).
Proof.
  intros Hi Hj Ha Hb. split_and!.
  - rewrite !RaftLogKey_eq, !range_id_prefix, bytes_compare_app.
    rewrite (oc_order (enc := EncodeUvarintAscending)) by (by apply wrapU_range).
    rewrite !bytes_compare_app. by rewrite (codec_compare (enc := EncodeUint64Ascending)).
  - unfold RaftLogKey, Buf_RaftLogKey, RaftLogKeyFromPrefix, RaftLogPrefix.
    rewrite (oc_append (enc := EncodeUint64Ascending)), cut_app. unfold DecodeRaftLogKeyFromSuffix.
    rewrite <- (app_nil_r (EncodeUint64Ascending [] a)).
    by rewrite (oc_roundtrip (enc := EncodeUint64Ascending)).
  - rewrite RaftLogKey_eq. by apply DecodeRangeIDKey_make.
Qed.

Lemma DecodeAbortSpanKey_make i txn :
  isS 64 i -> bytes_ok txn -> length txn = 16%nat -> DecodeAbortSpanKey (AbortSpanKey i txn) [] = Ok txn.
Proof.
  intros Hi Hb Ht. unfold AbortSpanKey, Buf_AbortSpanKey, replicatedPrefix, DecodeAbortSpanKey.
  rewrite enc_app, <- app_assoc, Buf_key_eq, DecodeRangeIDKey_make by done.
  cbn [mbind res_bind]. rewrite <- (app_nil_r (EncodeBytesAscending [] txn)), dec_enc by done.
  cbn. unfold UUID_FromBytes. by rewrite Ht.
Qed.

Lemma DecodeStoreKey_make suffix detail :
  length suffix = localSuffixLength -> DecodeStoreKey (MakeStoreKey suffix detail) = Ok (suffix, detail).
Proof.
  intros L. unfold DecodeStoreKey, MakeStoreKey. rewrite HasPrefix_app, cut_app. cbn [negb].
  rewrite length_app. destruct (Nat.ltb_spec (length suffix + length detail) localSuffixLength); [lia|].
  by rewrite <- L, take_app_length, drop_app_length.
Qed.

Lemma store_keys nodeID setting uuid :
  isS 32 nodeID -> bytes_ok setting -> length uuid = 16%nat ->
  DecodeNodeTombstoneKey (StoreNodeTombstoneKey nodeID) = Ok nodeID /\
  DecodeStoreCachedSettingsKey (StoreCachedSettingsKey setting) = Ok setting /\
  DecodeStoreUnsafeReplicaRecoveryKey (StoreUnsafeReplicaRecoveryKey uuid) = Ok uuid.
Proof.
  intros Hn Hs Hu. split_and!.
  - unfold DecodeNodeTombstoneKey, StoreNodeTombstoneKey. rewrite DecodeStoreKey_make by done.
    cbn [mbind res_bind]. change (beqb _ _) with true. cbn [negb].
    rewrite <- (app_nil_r (EncodeUint32Ascending [] (u32 nodeID))).
    rewrite (oc_roundtrip (enc := EncodeUint32Ascending)) by (by apply wrapU_range). cbn. by rewrite s32_u32.
  - unfold DecodeStoreCachedSettingsKey, StoreCachedSettingsKey. rewrite DecodeStoreKey_make by done.
    cbn [mbind res_bind]. change (beqb _ _) with true. cbn [negb].
    rewrite <- (app_nil_r (EncodeBytesAscending [] setting)), dec_enc by done. done.
  - unfold DecodeStoreUnsafeReplicaRecoveryKey, StoreUnsafeReplicaRecoveryKey.
    rewrite HasPrefix_app, cut_app. unfold UUID_FromBytes. by rewrite Hu.
Qed.

(** Keys of a range's and a store's local records decode to what they were made from, and
    the Raft log of a range lies in the order of its indexes, apart from every other
    range's; range IDs are ordered as unsigned numbers. *)
Theorem local_key_roundtrip i j a b txn nodeID setting :
  isS 64 i -> isS 64 j -> isU 64 a -> isU 64 b -> bytes_ok txn -> length txn = 16%nat ->
  isS 32 nodeID -> bytes_ok setting ->
  DecodeAbortSpanKey (AbortSpanKey i txn) [] = Ok txn /\
  (bytes_compare (RaftLogKey i a) (RaftLogKey j b) = lexc (u64 i ?= u64 j) (a ?= b) /\
   DecodeRaftLogKeyFromSuffix (cut (RaftLogKey i a) (RaftLogPrefix i)) = Ok a /\
   DecodeRangeIDKey (RaftLogKey i a) =
     Ok (i, localRangeIDUnreplicatedInfix, str "rftl", EncodeUint64Ascending [] a)) /\
  DecodeNodeTombstoneKey (StoreNodeTombstoneKey nodeID) = Ok nodeID /\
  DecodeStoreCachedSettingsKey (StoreCachedSettingsKey setting) = Ok setting /\
  DecodeStoreUnsafeReplicaRecoveryKey (StoreUnsafeReplicaRecoveryKey txn) = Ok txn.
Proof.
  intros Hi Hj Ha Hb Ht Lt Hn Hs.
  split; [by apply DecodeAbortSpanKey_make|]. split; [by apply raft_log_keys|by apply store_keys].
Qed.

Lemma local_key_roundtrip_witness :
  DecodeAbortSpanKey (AbortSpanKey 7 (replicate 16 0)) [] = Ok (replicate 16 0).
Proof.
  refine (proj1 (local_key_roundtrip 7 8 1 2 (replicate 16 0) 3 [] _ _ _ _ _ eq_refl _ _));
    first [by apply bytes_ok_b | unfold isS, isU; lia].
Defined.
