(* ===== verification/SqlKeys.v ===== *)
(** SQL table keys (src/pkg/keys/sql.go, subordinate.go, the row keys of keys.go, and
    src/pkg/roachpb/tenant.go).

    A table key is a tenant prefix, an optional actor prefix, a table and an index ID, the
    encoded columns and a suffix that names the column family or a value below the row.
    The file shows that tenants and actors own disjoint spans, that the codec's decoders
    invert its encoders, that every key of a row has the row's prefix as its safe split key,
    that subordinate keys sort as paths, and where the one-byte suffix length stops being
    enough. *)
From S2P Require Import Prelude Bytes GoLib IntEnc BytesEnc KeyOps Spans KeyEnc LocalKeys.

(** * Tenants *)

Abbreviation tenantPrefixByte := 0xfe.
Definition TenantPrefix : bytes := [tenantPrefixByte].

Abbreviation SystemTenantID := 1.
Abbreviation MinTenantID := 2.
Abbreviation MaxTenantID := (MaxUint64 - 1).

Definition MakeTenantID (id : Z) : res Z := if id =? 0 then Err "invalid tenant ID 0" else Ok id.
Definition MustMakeTenantID (id : Z) : res Z := if id =? 0 then Panic "invalid tenant ID 0" else Ok id.
Definition TenantID_ToUint64 (t : Z) : res Z := if t =? 0 then Panic "invalid tenant ID 0" else Ok t.

Definition MakeTenantPrefix (tenID : Z) : res bytes :=
  if tenID =? SystemTenantID then Ok []
  else id ← TenantID_ToUint64 tenID; Ok (EncodeUvarintAscending TenantPrefix id).

Definition MakeTenantSpan (tenID : Z) : res Span :=
  if tenID =? SystemTenantID then Ok (MkSpan KeyMin (Some KeyMax))
  else
    tenIDint ← TenantID_ToUint64 tenID;
    Ok (MkSpan (EncodeUvarintAscending TenantPrefix tenIDint)
               (Some (EncodeUvarintAscending TenantPrefix (u64 (tenIDint + 1))))).

Definition DecodeTenantPrefix (key : bytes) : res (bytes * Z) :=
  match key with
  | [] => Ok ([], SystemTenantID)
  | x :: rest =>
      if negb (x =? tenantPrefixByte) then Ok (key, SystemTenantID)
      else
        '(rem, tenID) ← DecodeUvarintAscending rest;
        id ← MakeTenantID tenID;
        Ok (rem, id)
  end.

Definition StripTenantPrefix (key : bytes) : res bytes :=
  match key with
  | [] => Ok []
  | x :: rest =>
      if negb (x =? tenantPrefixByte) then Ok key
      else '(key, _) ← DecodeUvarintAscending rest; Ok key
  end.

(** * Actors *)

Abbreviation ActorPrefixByte := 0xfb.
Abbreviation ActorHashLen := 16%nat.
Abbreviation actorPlacementLen := 12%nat.
Abbreviation DOKVTableID := 51.

Definition MakeActorPrefixFromHash (tenantPrefix hash : bytes) : bytes :=
  tenantPrefix ++ [ActorPrefixByte] ++ hash.

Definition MakeDOKVPrefix (tenantPrefix actorHash : bytes) : bytes :=
  let k := MakeActorPrefixFromHash tenantPrefix actorHash in
  let k := EncodeUvarintAscending k DOKVTableID in
  EncodeUvarintAscending k 1.

Definition MakeDOKVKey (tenantPrefix actorHash userKey : bytes) : bytes :=
  let k := MakeActorPrefixFromHash tenantPrefix actorHash in
  let k := EncodeUvarintAscending k DOKVTableID in
  let k := EncodeUvarintAscending k 1 in
  EncodeBytesAscending k userKey.

Definition DecodeActorPrefix (key : bytes) : res (bytes * bytes) :=
  match key with
  | [] => Ok (key, make_bytes ActorHashLen)
  | x :: _ =>
      if negb (x =? ActorPrefixByte) then Ok (key, make_bytes ActorHashLen)
      else if (length key <? 1 + ActorHashLen)%nat then Err "malformed actor prefix"
      else Ok (drop (1 + ActorHashLen) key, take ActorHashLen (drop 1 key))
  end.

Definition ActorPrefixFromKey (key : bytes) : res (option bytes) :=
  '(rem, tenID) ← DecodeTenantPrefix key;
  match rem with
  | [] => Ok None
  | x :: _ =>
      if negb (x =? ActorPrefixByte) then Ok None
      else if (length rem <? 1 + ActorHashLen)%nat then Err "malformed actor prefix"
      else
        prefix ← MakeTenantPrefix tenID;
        Ok (Some (prefix ++ take (1 + ActorHashLen) rem))
  end.

Definition ActorSpanFromKey (key : bytes) : res (option Span) :=
  p ← ActorPrefixFromKey key;
  match p with
  | None => Ok None
  | Some prefix => Ok (Some (MkSpan prefix (Some (Key_PrefixEnd prefix))))
  end.

Definition IsInteriorActorSplitKey (key : bytes) : res bool :=
  s ← ActorSpanFromKey key;
  match s with
  | None => Ok false
  | Some span => Ok (negb (Key_Equal key (Key span)) && negb (Key_Equal key (ek span)))
  end.

(** SHA-256 is the standard library's; only the length of its digest matters here. *)
Section ActorNames.
Context (sha256 : bytes -> bytes).

Definition ActorHash (name : bytes) : bytes :=
  copy_at (make_bytes ActorHashLen) 0 (take ActorHashLen (sha256 name)).

Definition ActorClassHash (class name : bytes) : bytes :=
  let placementSum := sha256 name in
  let identitySum := sha256 (class ++ str ":" ++ name) in
  let out := make_bytes ActorHashLen in
  let out := copy_at (take actorPlacementLen out) 0 (take actorPlacementLen placementSum) ++
             drop actorPlacementLen out in
  copy_at out actorPlacementLen (take (ActorHashLen - actorPlacementLen) identitySum).

Definition MakeActorPrefix (tenantPrefix actorName : bytes) : bytes :=
  MakeActorPrefixFromHash tenantPrefix (ActorHash actorName).
End ActorNames.

(** * Stripping prefixes *)

Definition StripTablePrefix (key : bytes) : res bytes :=
  key ← StripTenantPrefix key;
  '(key, _) ← DecodeActorPrefix key;
  match PeekType key with
  | Int => '(key, _) ← DecodeUvarintAscending key; Ok key
  | _ => Err "invalid table key prefix"
  end.

Definition StripIndexPrefix (key : bytes) : res bytes :=
  key ← StripTablePrefix key;
  match PeekType key with
  | Int => '(key, _) ← DecodeUvarintAscending key; Ok key
  | _ => Err "invalid index key prefix"
  end.

(** * Row keys *)

Definition MakeTableIDIndexID (key : bytes) (tableID indexID : Z) : bytes :=
  EncodeUvarintAscending (EncodeUvarintAscending key tableID) indexID.

Definition MakeFamilyKey (key : bytes) (famID : Z) : bytes :=
  if famID =? 0 then EncodeUvarintAscending key 0
  else
    let size := length key in
    let key := EncodeUvarintAscending key famID in
    EncodeUvarintAscending key (Z.of_nat (length key - size)).

Definition DecodeTableIDIndexID (key : bytes) : res (bytes * Z * Z) :=
  '(key, _) ← DecodeActorPrefix key;
  '(key, tableID) ← DecodeUvarintAscending key;
  '(key, indexID) ← DecodeUvarintAscending key;
  Ok (key, u32 tableID, u32 indexID).

Definition GetRowPrefixLength (key : bytes) : res Z :=
  let n := Z.of_nat (length key) in
  match DecodeTenantPrefix key with
  | Err _ => Err "not a valid table key"
  | Panic m => Panic m
  | Ok (sqlKey, _) =>
      match DecodeActorPrefix sqlKey with
      | Err _ => Err "not a valid table key"
      | Panic m => Panic m
      | Ok (sqlKey, _) =>
          let sqlN := Z.of_nat (length sqlKey) in
          match PeekType sqlKey with
          | Int =>
              tableIDLen ← GetUvarintLen sqlKey;
              match PeekType (drop (Z.to_nat tableIDLen) sqlKey) with
              | Int =>
                  indexIDLen ← GetUvarintLen (drop (Z.to_nat tableIDLen) sqlKey);
                  if tableIDLen + indexIDLen =? sqlN then Ok n
                  else
                    let colFamIDLenByte := drop (Z.to_nat (sqlN - 1)) sqlKey in
                    match PeekType colFamIDLenByte with
                    | Int =>
                        '(_, colFamIDLen) ← DecodeUvarintAscending colFamIDLenByte;
                        if sqlN - 1 <? colFamIDLen then Err "malformed table key"
                        else Ok (n - colFamIDLen - 1)
                    | _ => Err "not a valid table key"
                    end
              | _ => Ok n
              end
          | _ => Ok n
          end
      end
  end.

Definition EnsureSafeSplitKey (key : bytes) : res bytes :=
  idx ← GetRowPrefixLength key; Ok (take (Z.to_nat idx) key).

Definition DecodeFamilyKey (key : bytes) : res Z :=
  n ← GetRowPrefixLength key;
  if (n <=? 0) || (Z.of_nat (length key) <=? n) then Err "invalid row prefix"
  else
    '(_, colFamilyID) ← DecodeUvarintAscending (drop (Z.to_nat n) key);
    if MaxUint32 <? colFamilyID then Err "row-group ID overflow" else Ok (u32 colFamilyID).

(** * The codec *)

(** [endKey] is computed once for the codec; [buf] and [endKey] have no spare capacity, so
    that keys made by appending to them share nothing. *)
Record SQLCodec := MkSQLCodec { buf : bytes; endKey : bytes }.

Definition MakeSQLCodec (tenID : Z) : res SQLCodec :=
  sp ← MakeTenantSpan tenID; Ok (MkSQLCodec (Key sp) (ek sp)).

Definition MakeActorSQLCodec (sha256 : bytes -> bytes) (base : SQLCodec) (actorName : bytes) : SQLCodec :=
  match actorName with
  | [] => base
  | _ => let k := MakeActorPrefix sha256 (buf base) actorName in MkSQLCodec k (Key_PrefixEnd k)
  end.

Definition TenantSpan (e : SQLCodec) : Span := MkSpan (buf e) (Some (endKey e)).
Definition ForSystemTenant (e : SQLCodec) : bool := (length (buf e) =? 0)%nat.
Definition TenantID (e : SQLCodec) : res Z :=
  match DecodeTenantPrefix (buf e) with
  | Ok (_, tenID) => Ok tenID
  | Err m | Panic m => Panic m
  end.

Abbreviation DescriptorTableID := 3.
Abbreviation DescriptorTablePrimaryKeyIndexID := 1.
Abbreviation DescriptorTableDescriptorColFamID := 0.
Abbreviation ZonesTableID := 5.
Abbreviation ZonesTablePrimaryIndexID := 1.
Abbreviation TenantsTableID := 8.
Abbreviation TenantsTablePrimaryKeyIndexID := 1.
Abbreviation SequenceIndexID := 1.
Abbreviation SequenceColumnRowGroupID := 0.

Definition TablePrefix (e : SQLCodec) (tableID : Z) : bytes := EncodeUvarintAscending (buf e) tableID.
Definition IndexPrefix (e : SQLCodec) (tableID indexID : Z) : bytes :=
  EncodeUvarintAscending (TablePrefix e tableID) indexID.
Definition DescMetadataPrefix (e : SQLCodec) : bytes :=
  IndexPrefix e DescriptorTableID DescriptorTablePrimaryKeyIndexID.
Definition DescMetadataKey (e : SQLCodec) (descID : Z) : bytes :=
  MakeFamilyKey (EncodeUvarintAscending (DescMetadataPrefix e) descID) DescriptorTableDescriptorColFamID.
Definition TenantMetadataKey (e : SQLCodec) (tenID : Z) : res bytes :=
  id ← TenantID_ToUint64 tenID;
  Ok (MakeFamilyKey (EncodeUvarintAscending
        (IndexPrefix e TenantsTableID TenantsTablePrimaryKeyIndexID) id) 0).
Definition SequenceKey (e : SQLCodec) (tableID : Z) : bytes :=
  MakeFamilyKey (EncodeUvarintAscending (IndexPrefix e tableID SequenceIndexID) 0) SequenceColumnRowGroupID.

Definition sqlDecoder_StripTenantPrefix (d : SQLCodec) (key : bytes) : res bytes :=
  if negb (HasPrefix key (buf d)) then Err "invalid tenant id prefix" else Ok (cut key (buf d)).

Definition DecodeTablePrefix (d : SQLCodec) (key : bytes) : res (bytes * Z) :=
  key ← sqlDecoder_StripTenantPrefix d key;
  '(key, _) ← DecodeActorPrefix key;
  match PeekType key with
  | Int => '(key, tableID) ← DecodeUvarintAscending key; Ok (key, u32 tableID)
  | _ => Err "invalid key prefix"
  end.

Definition DecodeIndexPrefix (d : SQLCodec) (key : bytes) : res (bytes * Z * Z) :=
  '(key, tableID) ← DecodeTablePrefix d key;
  match PeekType key with
  | Int => '(key, indexID) ← DecodeUvarintAscending key; Ok (key, tableID, u32 indexID)
  | _ => Err "invalid key prefix"
  end.

Definition DecodeDescMetadataID (d : SQLCodec) (key : bytes) : res Z :=
  '(remaining, tableID, _) ← DecodeIndexPrefix d key;
  if negb (tableID =? DescriptorTableID) then Err "key is not a descriptor table entry"
  else
    '(_, id) ← DecodeUvarintAscending remaining;
    if MaxUint32 <? id then Err "descriptor ID exceeds uint32 bounds" else Ok (u32 id).

Definition DecodeTenantMetadataID (d : SQLCodec) (key : bytes) : res Z :=
  '(remaining, tableID, indexID) ← DecodeIndexPrefix d key;
  if negb (tableID =? TenantsTableID) || negb (indexID =? TenantsTablePrimaryKeyIndexID)
  then Err "key is not a tenant table entry"
  else '(_, id) ← DecodeUvarintAscending remaining; MustMakeTenantID id.

Definition DecodeZoneConfigMetadataID (d : SQLCodec) (key : bytes) : res (bytes * Z) :=
  '(remaining, tableID, indexID) ← DecodeIndexPrefix d key;
  if negb (tableID =? ZonesTableID) || negb (indexID =? ZonesTablePrimaryIndexID)
  then Err "key is not a zones table entry"
  else '(remaining, id) ← DecodeUvarintAscending remaining; Ok (remaining, u32 id).

(** * Rewriting the tenant of a key

    The function writes over the caller's key when the new key fits; the definition returns
    the new key and the bytes the caller's key holds afterwards. *)
Definition RewriteKeyToTenantPrefix (key prefix : bytes) : res (bytes * bytes) :=
  if (length prefix =? 0)%nat && HasPrefix key TenantPrefix || negb (HasPrefix key prefix) then
    '(suffix, _) ← DecodeTenantPrefix key;
    let extra := Z.of_nat (length key) - Z.of_nat (length prefix) - Z.of_nat (length suffix) in
    if 0 <=? extra then
      let key' := copy_at (drop (Z.to_nat extra) key) 0 prefix in
      Ok (key', take (Z.to_nat extra) key ++ key')
    else
      let key' := copy_at (make_bytes (length prefix + length suffix)) 0 prefix in
      Ok (copy_at key' (length prefix) suffix, key)
  else Ok (key, key).

(** The new span; its keys are taken to lie in separate memory. *)
Definition RewriteSpanToTenantPrefix (sp : Span) (prefix : bytes) : res Span :=
  '(key, _) ← RewriteKeyToTenantPrefix (Key sp) prefix;
  '(endKey, _) ← RewriteKeyToTenantPrefix (ek sp) prefix;
  Ok (MkSpan key (Some endKey)).

(** * Subordinate keys *)

Inductive SubordinatePathSegment :=
| PathHeader
| PathArrayIndex (ArrayIdx : Z)
| PathObjectKey (ObjectKey : bytes).

Definition seg_kind (seg : SubordinatePathSegment) : Z :=
  match seg with PathHeader => 0 | PathArrayIndex _ => 1 | PathObjectKey _ => 2 end.

Definition append_segment (key : bytes) (seg : SubordinatePathSegment) : bytes :=
  let key := EncodeUvarintAscending key (seg_kind seg) in
  match seg with
  | PathHeader => key
  | PathArrayIndex i => EncodeUvarintAscending key i
  | PathObjectKey k => EncodeBytesAscending key k
  end.

Definition MakeSubordinatePathPrefix (rowKey : bytes) (colID : Z) (path : list SubordinatePathSegment)
    : bytes :=
  foldl append_segment (EncodeUvarintAscending rowKey colID) path.

Definition MakeSubordinatePathKey (rowKey : bytes) (colID : Z) (path : list SubordinatePathSegment)
    : bytes :=
  let pkPrefixLen := Z.of_nat (length rowKey) - 1 in
  let key := EncodeUvarintAscending (MakeSubordinatePathPrefix rowKey colID path) 0 in
  EncodeUvarintAscending key (u64 (Z.of_nat (length key) - pkPrefixLen)).

Definition MakeSubordinateKey (rowKey : bytes) (colID elemIdx : Z) : bytes :=
  MakeSubordinatePathKey rowKey colID [PathArrayIndex elemIdx].

(** [path[:n-1]] when its last segment is a header. *)
Definition drop_header (path : list SubordinatePathSegment) : list SubordinatePathSegment :=
  match last path with
  | Some PathHeader => take (length path - 1) path
  | _ => path
  end.

Fixpoint path_loop (fuel : nat) (suffix : bytes) (path : list SubordinatePathSegment)
    : res (list SubordinatePathSegment) :=
  match fuel with
  | O => Panic "out of fuel"
  | S fuel =>
      match suffix with
      | [] => Ok (drop_header path)
      | _ =>
          '(rest, kind) ← DecodeUvarintAscending suffix;
          if kind =? 0 then path_loop fuel rest (path ++ [PathHeader])
          else if kind =? 1 then
            '(rest, idx) ← DecodeUvarintAscending rest;
            if MaxUint32 <? idx then Err "subordinate key element index overflow"
            else path_loop fuel rest (path ++ [PathArrayIndex (u32 idx)])
          else if kind =? 2 then
            '(rest, keyBytes) ← DecodeBytesAscending rest [];
            path_loop fuel rest (path ++ [PathObjectKey keyBytes])
          else if (length path =? 0)%nat then Err "unknown subordinate path segment kind"
          else Ok (drop_header path)
      end
  end.

Definition DecodeSubordinatePathKey (key : bytes) : res (bytes * Z * list SubordinatePathSegment) :=
  n ← GetRowPrefixLength key;
  let rowPrefix := take (Z.to_nat n) key in
  let suffix := drop (Z.to_nat n) key in
  '(suffix, famID) ← DecodeUvarintAscending suffix;
  if negb (famID =? 0) then Err "not a subordinate key"
  else
    '(suffix, col) ← DecodeUvarintAscending suffix;
    if MaxUint32 <? col then Err "subordinate key column ID overflow"
    else
      path ← path_loop (S (length suffix)) suffix [];
      Ok (rowPrefix, u32 col, path).

Definition DecodeSubordinateKey (key : bytes) : res (bytes * Z * Z) :=
  '(rowPrefix, colID, path) ← DecodeSubordinatePathKey key;
  match path with
  | [PathArrayIndex i] => Ok (rowPrefix, colID, i)
  | _ => Err "subordinate key is not an array element key"
  end.

Definition IsSubordinateKey (key rowPrefix : bytes) : bool :=
  if negb (HasPrefix key rowPrefix) then false
  else
    let suffix := cut key rowPrefix in
    if (length suffix <? 4)%nat then false
    else match DecodeUvarintAscending suffix with
         | Ok (_, famID) => famID =? 0
         | _ => false
         end.

(** * Prefixes of table keys *)

Definition tenant_ok (t : Z) : Prop := 0 < t <= MaxUint64.

(** The prefix of a tenant's keys, and of an actor's within it. *)
Definition tenant_bytes (t : Z) : bytes :=
  if t =? SystemTenantID then [] else EncodeUvarintAscending TenantPrefix t.
Definition actor_bytes (h : option bytes) : bytes :=
  match h with Some h => ActorPrefixByte :: h | None => [] end.
Definition actor_ok (h : option bytes) : Prop :=
  match h with Some h => length h = ActorHashLen /\ bytes_ok h | None => True end.

Abbreviation uv v := (EncodeUvarintAscending [] v).

Lemma tenant_isU t : tenant_ok t -> isU 64 t.
Proof. unfold tenant_ok, isU. lia. Qed.
#[export] Hint Resolve tenant_isU : core.

Lemma isU32_64 v : isU 32 v -> isU 64 v.
Proof. unfold isU. lia. Qed.
#[export] Hint Resolve isU32_64 : core.

Lemma tenant_bytes_eq t :
  tenant_bytes t = if t =? SystemTenantID then [] else tenantPrefixByte :: uv t.
Proof. unfold tenant_bytes. destruct (t =? _); [done|]. by rewrite uv_app. Qed.

Lemma MakeTenantPrefix_ok t : tenant_ok t -> MakeTenantPrefix t = Ok (tenant_bytes t).
Proof.
  unfold tenant_ok, MakeTenantPrefix, tenant_bytes, TenantID_ToUint64. intros Ht.
  destruct (t =? SystemTenantID); [done|]. by destruct (Z.eqb_spec t 0); [lia|].
Qed.

(** The first byte after a tenant's prefix is not another tenant prefix. *)
Definition starts_with (x : Z) (rest : bytes) : bool :=
  match rest with y :: _ => y =? x | [] => false end.

Lemma DecodeTenantPrefix_app t rest :
  tenant_ok t -> (t = SystemTenantID -> starts_with tenantPrefixByte rest = false) ->
  DecodeTenantPrefix (tenant_bytes t ++ rest) = Ok (rest, t).
Proof.
  intros Ht Hs. rewrite tenant_bytes_eq. destruct (Z.eqb_spec t SystemTenantID) as [->|Hn]; cbn [app].
  - specialize (Hs eq_refl). destruct rest as [|y rest]; [done|]. unfold DecodeTenantPrefix.
    cbn [starts_with] in Hs. by rewrite Hs.
  - unfold DecodeTenantPrefix. cbn [Z.eqb Pos.eqb negb].
    rewrite (oc_roundtrip (enc := EncodeUvarintAscending)) by auto. cbn [mbind res_bind].
    unfold MakeTenantID. destruct (Z.eqb_spec t 0); [unfold tenant_ok in Ht; lia|done].
Qed.

(** A table ID takes at most five bytes: its first byte is neither prefix. *)
Lemma uv32_first v :
  isU 32 v -> exists m l, uv v = m :: l /\ intZero <= m < ActorPrefixByte.
Proof.
  intros Hv. rewrite uvarint_view by auto. eexists _, _. split; [reflexivity|].
  destruct (uv_class v) as [(? & -> & _)|(? & -> & k & -> & ? & H1 & _)]; [auto|unfold isU in Hv; lia|].
  assert (k < 4)%nat; [|lia]. destruct Hv as [_ Hv]. assert (2 ^ (8 * Z.of_nat k) < 2 ^ 32) as Hk by lia.
  apply Z.pow_lt_mono_r_iff in Hk; lia.
Qed.

Lemma PeekType_int m r : IntMin <= m <= IntMax -> PeekType (m :: r) = Int.
Proof.
  intros H. cbn [PeekType].
  assert (forallb (fun i => match nth i typMap Unknown with Int => true | _ => false end) (seq 128 126) = true)
    as E by (vm_compute; reflexivity).
  rewrite forallb_forall in E. specialize (E (Z.to_nat m) ltac:(apply in_seq; lia)).
  by destruct (nth (Z.to_nat m) typMap Unknown).
Qed.

Lemma PeekType_uv v r : isU 64 v -> PeekType (uv v ++ r) = Int.
Proof. intros Hv. destruct (uvarint_first v Hv) as (m & l & -> & ?). apply PeekType_int. lia. Qed.

Lemma DecodeActorPrefix_app h T rest :
  actor_ok h -> isU 32 T ->
  exists hash, DecodeActorPrefix (actor_bytes h ++ uv T ++ rest) = Ok (uv T ++ rest, hash) /\
    (forall h', h = Some h' -> hash = h').
Proof.
  intros Hh HT. destruct h as [h|]; cbn [actor_bytes app].
  - destruct Hh as [L _]. exists h. split; [|by intros ? [= ->]]. unfold DecodeActorPrefix.
    cbn [Z.eqb Pos.eqb negb length]. rewrite length_app, L.
    destruct (Nat.ltb_spec (S (ActorHashLen + length (uv T ++ rest))) (1 + ActorHashLen)); [lia|].
    change (drop (1 + ActorHashLen) (ActorPrefixByte :: h ++ uv T ++ rest))
      with (drop ActorHashLen (h ++ uv T ++ rest)). cbn [drop]. rewrite drop_0.
    by rewrite (drop_app_length' h), (take_app_length' h) by done.
  - destruct (uv32_first T HT) as (m & l & -> & Hm). eexists. split; [|done]. cbn [app].
    unfold DecodeActorPrefix. destruct (Z.eqb_spec m ActorPrefixByte); [lia|done].
Qed.

Lemma starts_with_actor h T rest : isU 32 T -> starts_with tenantPrefixByte (actor_bytes h ++ uv T ++ rest) = false.
Proof.
  intros HT. destruct h; [done|]. destruct (uv32_first T HT) as (m & l & E & ?). cbn [actor_bytes app].
  rewrite E. cbn [app starts_with]. lia.
Qed.

(** ** Row prefixes *)

(** The prefix of an index's keys, for the codec of a tenant and possibly an actor. *)
Definition index_bytes (t : Z) (h : option bytes) (T I : Z) : bytes :=
  tenant_bytes t ++ actor_bytes h ++ uv T ++ uv I.

(** For a key with more than its index, the last byte decides. *)
Definition row_prefix_of (n sqlN x : Z) : res Z :=
  match PeekType [x] with
  | Int =>
      '(_, L) ← DecodeUvarintAscending [x];
      if sqlN - 1 <? L then Err "malformed table key" else Ok (n - L - 1)
  | _ => Err "not a valid table key"
  end.

Lemma GetRowPrefixLength_last t h T I body x :
  tenant_ok t -> actor_ok h -> isU 32 T -> isU 32 I ->
  GetRowPrefixLength (index_bytes t h T I ++ body ++ [x]) =
  row_prefix_of (Z.of_nat (length (index_bytes t h T I ++ body ++ [x])))
    (Z.of_nat (length (uv T ++ uv I ++ body ++ [x]))) x.
Proof.
  intros Ht Hh HT HI. unfold GetRowPrefixLength. set (n := Z.of_nat (length (index_bytes t h T I ++ _))).
  replace (index_bytes t h T I ++ body ++ [x])
    with (tenant_bytes t ++ actor_bytes h ++ uv T ++ uv I ++ body ++ [x])
    by (unfold index_bytes; by rewrite <- !app_assoc).
  rewrite DecodeTenantPrefix_app by (auto; intros; by apply starts_with_actor).
  destruct (DecodeActorPrefix_app h T (uv I ++ body ++ [x]) Hh HT) as (hash & -> & _).
  rewrite PeekType_uv, GetUvarintLen_enc by auto. cbn [mbind res_bind].
  rewrite Nat2Z.id, drop_app_length, PeekType_uv, GetUvarintLen_enc by auto. cbn [mbind res_bind].
  set (k := uv T ++ uv I ++ body ++ [x]).
  assert (length k = length (uv T) + length (uv I) + length body + 1)%nat as Lk
    by (unfold k; rewrite !length_app; cbn [length]; lia).
  destruct (Z.eqb_spec (Z.of_nat (length (uv T)) + Z.of_nat (length (uv I))) (Z.of_nat (length k))); [lia|].
  replace (drop (Z.to_nat (Z.of_nat (length k) - 1)) k) with [x]; [done|].
  unfold k. rewrite !app_assoc, drop_app_length'; [done|]. rewrite !length_app. cbn [length]. lia.
Qed.

(** A suffix length of at most 109 is one byte. *)
Lemma uv_small v : 0 <= v <= intSmall -> uv v = [intZero + v].
Proof.
  intros Hv. rewrite uvarint_view by (unfold isU; lia). unfold uv_tag, uv_width, EncodedLengthUvarintAscending.
  destruct (Z.leb_spec v intSmall); [|lia]. done.
Qed.

Lemma row_prefix_small n sqlN L :
  0 <= L <= intSmall -> L <= sqlN - 1 -> row_prefix_of n sqlN (intZero + L) = Ok (n - L - 1).
Proof.
  intros HL Hs. unfold row_prefix_of. rewrite PeekType_int by lia.
  assert (DecodeUvarintAscending [intZero + L] = Ok ([], L)) as ->.
  { rewrite <- uv_small, <- (app_nil_r (uv L)) by done.
    rewrite (oc_roundtrip (enc := EncodeUvarintAscending)) by (unfold isU; lia). done. }
  cbn [mbind res_bind]. destruct (Z.ltb_spec (sqlN - 1) L); [lia|done].
Qed.

Lemma uv_length v : isU 64 v -> (1 <= length (uv v) <= 9)%nat.
Proof.
  intros Hv. rewrite uvarint_view by done. cbn [app length]. rewrite be_length.
  destruct (uv_class v Hv) as [(_ & _ & ->)|(_ & _ & k & -> & ? & _)]; lia.
Qed.

(** A key whose last byte gives the length of its suffix. *)
Lemma GetRowPrefixLength_suffix t h T I cols s L :
  tenant_ok t -> actor_ok h -> isU 32 T -> isU 32 I ->
  L = Z.of_nat (length s) -> L <= intSmall ->
  GetRowPrefixLength ((index_bytes t h T I ++ cols) ++ s ++ [intZero + L]) =
  Ok (Z.of_nat (length (index_bytes t h T I ++ cols))).
Proof.
  intros Ht Hh HT HI -> HL.
  replace ((index_bytes t h T I ++ cols) ++ s ++ [intZero + Z.of_nat (length s)])
    with (index_bytes t h T I ++ (cols ++ s) ++ [intZero + Z.of_nat (length s)])
    by (by rewrite <- !app_assoc).
  rewrite GetRowPrefixLength_last by done. rewrite row_prefix_small; [|lia|].
  - f_equal. rewrite !length_app. cbn [length]. lia.
  - rewrite !length_app. cbn [length]. lia.
Qed.

Lemma MakeFamilyKey_eq key fam :
  isU 32 fam ->
  exists s, MakeFamilyKey key fam = key ++ s ++ [intZero + Z.of_nat (length s)] /\
    (length s <= 9)%nat /\ forall r, exists r', DecodeUvarintAscending (s ++ intZero + Z.of_nat (length s) :: r) = Ok (r', fam).
Proof.
  intros Hf. unfold MakeFamilyKey. destruct (Z.eqb_spec fam 0) as [->|].
  { exists []. split; [done|]. split; [cbn; lia|]. intros r. by exists r. }
  exists (uv fam). pose proof (uv_length fam ltac:(auto)). rewrite (uv_app key). split_and!; [|lia|].
  - rewrite length_app, uv_app, <- app_assoc. do 2 f_equal.
    replace (length key + length (uv fam) - length key)%nat with (length (uv fam)) by lia.
    apply uv_small. lia.
  - intros r. eexists. rewrite (oc_roundtrip (enc := EncodeUvarintAscending)) by auto. reflexivity.
Qed.

(** ** Subordinate paths *)

Definition enc_seg (seg : SubordinatePathSegment) : bytes := append_segment [] seg.
Definition enc_path (path : list SubordinatePathSegment) : bytes := path ≫= enc_seg.

Definition seg_ok (seg : SubordinatePathSegment) : Prop :=
  match seg with
  | PathHeader => False
  | PathArrayIndex i => isU 32 i
  | PathObjectKey k => bytes_ok k
  end.

(** The order of paths: an ancestor before its descendants, array elements by index, before
    object members by key. *)
Definition seg_compare (s t : SubordinatePathSegment) : comparison :=
  match s, t with
  | PathArrayIndex i, PathArrayIndex j => i ?= j
  | PathObjectKey a, PathObjectKey b => bytes_compare a b
  | _, _ => seg_kind s ?= seg_kind t
  end.
Fixpoint path_compare (p q : list SubordinatePathSegment) : comparison :=
  match p, q with
  | [], [] => Eq
  | [], _ => Lt
  | _, [] => Gt
  | s :: p, t :: q => lexc (seg_compare s t) (path_compare p q)
  end.

Lemma seg_view seg :
  enc_seg seg = (intZero + seg_kind seg) ::
    match seg with PathHeader => [] | PathArrayIndex i => uv i | PathObjectKey k => EncodeBytesAscending [] k end.
Proof.
  unfold enc_seg, append_segment. destruct seg; cbn [seg_kind]; [done| |].
  - by rewrite uv_app.
  - by rewrite enc_app.
Qed.

Lemma append_segment_app key seg : append_segment key seg = key ++ enc_seg seg.
Proof.
  unfold enc_seg, append_segment.
  destruct seg; cbn [seg_kind]; rewrite (uv_app key); [done| |].
  - rewrite (uv_app (key ++ _)), (uv_app (uv 1)). by rewrite <- app_assoc.
  - rewrite (enc_app (key ++ _)), (enc_app (uv 2)). by rewrite <- app_assoc.
Qed.

Lemma MakeSubordinatePathPrefix_eq rowKey col path :
  MakeSubordinatePathPrefix rowKey col path = rowKey ++ uv col ++ enc_path path.
Proof.
  unfold MakeSubordinatePathPrefix. rewrite uv_app, app_assoc. generalize (rowKey ++ uv col) as b.
  induction path as [|seg path IH]; intros b; cbn [foldl enc_path mbind list_bind].
  - by rewrite app_nil_r.
  - rewrite IH, append_segment_app, <- app_assoc. done.
Qed.

(** The bytes from the family sentinel through the end marker. *)
Definition sub_suffix (col : Z) (path : list SubordinatePathSegment) : bytes :=
  intZero :: uv col ++ enc_path path ++ [intZero].

Lemma MakeSubordinatePathKey_eq pk col path :
  MakeSubordinatePathKey (MakeFamilyKey pk 0) col path =
  pk ++ sub_suffix col path ++ uv (u64 (Z.of_nat (length (sub_suffix col path)))).
Proof.
  unfold MakeSubordinatePathKey. rewrite MakeSubordinatePathPrefix_eq.
  change (MakeFamilyKey pk 0) with (EncodeUvarintAscending pk 0). rewrite (uv_app pk), (uv_app _ 0).
  change (uv 0) with [intZero].
  replace (((pk ++ [intZero]) ++ uv col ++ enc_path path) ++ [intZero]) with (pk ++ sub_suffix col path)
    by (unfold sub_suffix; by rewrite <- !app_assoc).
  rewrite uv_app, <- app_assoc. do 3 f_equal. f_equal. rewrite !length_app. cbn [length]. lia.
Qed.

Lemma seg_first seg : seg_ok seg -> exists m l, enc_seg seg = m :: l /\ intZero < m.
Proof. intros H. rewrite seg_view. eexists _, _. split; [reflexivity|]. destruct seg; cbn; (done || lia). Qed.

Lemma seg_order s t a b :
  seg_ok s -> seg_ok t ->
  bytes_compare (enc_seg s ++ a) (enc_seg t ++ b) = lexc (seg_compare s t) (bytes_compare a b).
Proof.
  intros Hs Ht. rewrite !seg_view. cbn [app]. rewrite bytes_compare_cons.
  destruct s, t; cbn [seg_kind seg_compare] in *; try done; cbn [Z.compare Pos.compare Pos.compare_cont lexc].
  - rewrite (oc_order (enc := EncodeUvarintAscending)) by auto. done.
  - by rewrite (oc_order (enc := EncodeBytesAscending)).
Qed.

Lemma path_order p q a b :
  Forall seg_ok p -> Forall seg_ok q ->
  bytes_compare (enc_path p ++ intZero :: a) (enc_path q ++ intZero :: b) =
  lexc (path_compare p q) (bytes_compare a b).
Proof.
  intros Hp. revert q. induction Hp as [|s p Hs Hp IH]; intros [|t q] Hq.
  - cbn [enc_path mbind list_bind app path_compare lexc]. by rewrite bytes_compare_cons.
  - apply Forall_cons in Hq as [Ht _]. destruct (seg_first t Ht) as (m & l & E & Hm).
    cbn [enc_path mbind list_bind app path_compare lexc]. rewrite E. cbn [app]. rewrite bytes_compare_cons.
    by rewrite (proj2 (Z.compare_lt_iff intZero m)).
  - destruct (seg_first s Hs) as (m & l & E & Hm).
    cbn [enc_path mbind list_bind app path_compare lexc]. rewrite E. cbn [app]. rewrite bytes_compare_cons.
    by rewrite (proj2 (Z.compare_gt_iff m intZero)).
  - apply Forall_cons in Hq as [Ht Hq]. cbn [enc_path mbind list_bind path_compare].
    rewrite <- !app_assoc, seg_order, lexc_assoc by done. f_equal. by apply IH.
Qed.

Lemma path_compare_eq p q : Forall seg_ok p -> Forall seg_ok q -> path_compare p q = Eq -> p = q.
Proof.
  intros Hp. revert q. induction Hp as [|s p Hs Hp IH]; intros [|t q] Hq; [done..|].
  apply Forall_cons in Hq as [Ht Hq]. cbn [path_compare]. intros E.
  destruct (seg_compare s t) eqn:Es; [|done..]. f_equal; [|by apply IH].
  destruct s, t; cbn in *; try done; f_equal; [by apply Z.compare_eq|by apply bytes_compare_eq].
Qed.

(** A path's bytes begin another's exactly when the path does. *)
Lemma seg_inj s t a b : seg_ok s -> seg_ok t -> enc_seg s ++ a = enc_seg t ++ b -> s = t /\ a = b.
Proof.
  intros Hs Ht. rewrite !seg_view. cbn [app]. intros [= E1 E2].
  destruct s, t; cbn [seg_kind] in E1; try done.
  - apply (codec_prefix_free (enc := EncodeUvarintAscending)) in E2 as [-> ->]; auto.
  - apply (codec_prefix_free (enc := EncodeBytesAscending)) in E2 as [-> ->]; auto.
Qed.

Lemma path_prefix p q a r :
  Forall seg_ok p -> Forall seg_ok q -> enc_path p ++ a = enc_path q ++ intZero :: r -> p `prefix_of` q.
Proof.
  intros Hp. revert q. induction Hp as [|s p Hs Hp IH]; intros [|t q] Hq E; [by eexists..| |].
  - destruct (seg_first s Hs) as (m & l & E' & Hm). cbn [enc_path mbind list_bind] in E.
    rewrite E' in E. cbn in E. injection E as E _. lia.
  - apply Forall_cons in Hq as [Ht Hq]. cbn [enc_path mbind list_bind] in E. rewrite <- !app_assoc in E.
    apply seg_inj in E as [-> E]; [|done..]. apply prefix_cons. by apply IH.
Qed.

(** ** Decoding paths *)

Lemma drop_header_snoc path : drop_header (path ++ [PathHeader]) = path.
Proof.
  unfold drop_header. rewrite last_snoc, length_app. cbn [length].
  by rewrite Nat.add_sub, take_app_length.
Qed.

Lemma uv_small_cons v r : 0 <= v <= intSmall -> DecodeUvarintAscending (intZero + v :: r) = Ok (r, v).
Proof.
  intros Hv. change (intZero + v :: r) with ([intZero + v] ++ r). rewrite <- uv_small by done.
  apply (oc_roundtrip (enc := EncodeUvarintAscending)). unfold isU; lia.
Qed.

Lemma path_loop_segs fuel p L acc :
  Forall seg_ok p -> isU 64 L -> 2 < L -> (length (enc_path p ++ intZero :: uv L) < fuel)%nat ->
  path_loop fuel (enc_path p ++ intZero :: uv L) acc = Ok (acc ++ p).
Proof.
  intros Hp HL HL3. revert fuel acc. induction Hp as [|s p Hs Hp IH]; intros fuel acc Hf.
  - cbn [enc_path mbind list_bind app length] in *. destruct fuel as [|[|fuel]]; [lia|lia|]. cbn [path_loop].
    rewrite (uv_small_cons 0) by lia. cbn [mbind res_bind Z.eqb].
    destruct (uvarint_first L HL) as (m & l & E & _). rewrite E.
    rewrite <- E, <- (app_nil_r (uv L)), (oc_roundtrip (enc := EncodeUvarintAscending)) by done.
    cbn [mbind res_bind]. destruct (Z.eqb_spec L 0), (Z.eqb_spec L 1), (Z.eqb_spec L 2); try lia.
    rewrite length_app. cbn [length]. destruct (Nat.eqb_spec (length acc + 1) 0); [lia|].
    by rewrite drop_header_snoc, app_nil_r.
  - cbn [enc_path mbind list_bind] in *. rewrite <- !app_assoc in *. rewrite length_app in Hf.
    change (mbind enc_seg p) with (enc_path p) in *. set (r := enc_path p ++ intZero :: uv L) in *.
    destruct fuel as [|fuel]; [lia|]. rewrite seg_view. cbn [app path_loop].
    assert (length (enc_seg s) >= 1)%nat by (rewrite seg_view; cbn; lia).
    rewrite uv_small_cons by (destruct s; cbn; lia). cbn [mbind res_bind].
    replace (acc ++ s :: p) with ((acc ++ [s]) ++ p) by (by rewrite <- app_assoc).
    destruct s as [|i|k]; cbn [seg_kind Z.eqb Pos.eqb]; [done| |]; cbn [seg_ok] in Hs.
    + rewrite (oc_roundtrip (enc := EncodeUvarintAscending)) by auto. cbn [mbind res_bind].
      destruct (Z.ltb_spec MaxUint32 i); [unfold isU in Hs; lia|]. rewrite wrapU_id by done. apply IH. lia.
    + rewrite dec_enc by done. cbn [mbind res_bind]. apply IH. lia.
Qed.

(** * Tenants and actors own disjoint spans *)

Lemma tenant_split t t' r r' :
  tenant_ok t -> tenant_ok t' ->
  (t = SystemTenantID -> starts_with tenantPrefixByte r = false) ->
  (t' = SystemTenantID -> starts_with tenantPrefixByte r' = false) ->
  tenant_bytes t ++ r = tenant_bytes t' ++ r' -> t = t' /\ r = r'.
Proof.
  intros Ht Ht' Hr Hr' E. pose proof (DecodeTenantPrefix_app t r Ht Hr) as D.
  rewrite E, DecodeTenantPrefix_app in D by done. by injection D as -> ->.
Qed.

Lemma between_tag x a b k : ble (x :: a) k -> blt k (x :: b) -> starts_with x k = true.
Proof.
  destruct k as [|y k]; unfold ble, blt; [done|]. rewrite !bytes_compare_cons. cbn [starts_with].
  destruct (Z.compare_spec x y), (Z.compare_spec y x); cbn [lexc]; (lia || done).
Qed.

Lemma tenant_span_contains t t' rest sp :
  MinTenantID <= t <= MaxTenantID -> tenant_ok t' ->
  (t' = SystemTenantID -> starts_with tenantPrefixByte rest = false) ->
  MakeTenantSpan t = Ok sp ->
  Span_ContainsKey sp (tenant_bytes t' ++ rest) = true <-> t = t'.
Proof.
  intros Ht Ht' Hr. unfold MakeTenantSpan, TenantID_ToUint64.
  destruct (Z.eqb_spec t SystemTenantID), (Z.eqb_spec t 0); try lia. intros [= <-].
  rewrite wrapU_id by (unfold isU; lia). unfold Span_ContainsKey, ek. cbn [Key EndKey default id].
  rewrite tenant_bytes_eq. destruct (Z.eqb_spec t' SystemTenantID) as [->|Hn]; cbn [app].
  - rewrite (uv_app _ t), (uv_app _ (t + 1)). cbn [app TenantPrefix].
    split; [|lia]. intros [H1 H2]%andb_true_iff.
    destruct (bleb_spec (tenantPrefixByte :: uv t) rest) as [A|]; [|done].
    destruct (bltb_spec rest (tenantPrefixByte :: uv (t + 1))) as [B|]; [|done].
    specialize (Hr eq_refl). by rewrite (between_tag _ _ _ _ A B) in Hr.
  - change (tenantPrefixByte :: uv t' ++ rest) with ((TenantPrefix ++ uv t') ++ rest).
    rewrite <- uv_app.
    assert (isU 64 t /\ isU 64 t' /\ isU 64 (t + 1)) as (I1 & I2 & I3)
      by (unfold tenant_ok, isU in *; lia).
    pose proof (codec_bare_le (enc := EncodeUvarintAscending) TenantPrefix t t' rest I1 I2) as A.
    change ((t ?= t') <> Gt) with (t <= t') in A.
    pose proof (codec_lt_bare (enc := EncodeUvarintAscending) TenantPrefix t' (t + 1) rest I2 I3) as B.
    change ((t' ?= t + 1) = Lt) with (t' < t + 1) in B.
    rewrite andb_true_iff. destruct (bleb_spec (EncodeUvarintAscending TenantPrefix t)
      (EncodeUvarintAscending TenantPrefix t' ++ rest)) as [A'|A'];
    destruct (bltb_spec (EncodeUvarintAscending TenantPrefix t' ++ rest)
      (EncodeUvarintAscending TenantPrefix (t + 1))) as [B'|B']; rewrite A in A'; rewrite B in B'.
    all: split; [intros [? ?]; try done; lia|intros ->; lia].
Qed.

(** Tenants own disjoint spans.  The prefix of a tenant decodes to it and what follows;
    the span of a secondary tenant holds exactly the keys with its prefix, none of the
    system tenant's and none of another's.  For the largest 64-bit ID, which the ID
    constructors accept, the span's end wraps around and it holds no key. *)
Theorem tenant_spans t t' rest :
  MinTenantID <= t <= MaxTenantID -> tenant_ok t' ->
  (t' = SystemTenantID -> starts_with tenantPrefixByte rest = false) ->
  (exists p, MakeTenantPrefix t' = Ok p /\ DecodeTenantPrefix (p ++ rest) = Ok (rest, t') /\
   exists sp, MakeTenantSpan t = Ok sp /\ (Span_ContainsKey sp (p ++ rest) = true <-> t = t')) /\
  MakeTenantID MaxUint64 = Ok MaxUint64 /\
  exists sp, MakeTenantSpan MaxUint64 = Ok sp /\ Span_Valid sp = false /\
    forall k, Span_ContainsKey sp k = false.
Proof.
  intros Ht Ht' Hr. split_and!.
  - exists (tenant_bytes t'). split; [by apply MakeTenantPrefix_ok|].
    split; [by apply DecodeTenantPrefix_app|].
    destruct (MakeTenantSpan t) as [sp| |] eqn:E;
      [exists sp; split; [done|by apply tenant_span_contains]|..];
      unfold MakeTenantSpan, TenantID_ToUint64 in E;
      destruct (Z.eqb_spec t SystemTenantID), (Z.eqb_spec t 0); done || lia.
  - done.
  - eexists. split; [reflexivity|]. split; [reflexivity|]. intros k.
    destruct (Span_ContainsKey _ k) eqn:E; [|done]. unfold Span_ContainsKey in E. cbn [Key] in E.
    apply andb_true_iff in E as [E1 E2].
    destruct (bleb_spec (EncodeUvarintAscending TenantPrefix MaxUint64) k) as [A|]; [|done].
    destruct (bltb_spec k (ek (MkSpan (EncodeUvarintAscending TenantPrefix MaxUint64)
      (Some (EncodeUvarintAscending TenantPrefix (u64 (MaxUint64 + 1))))))) as [B|]; [|done].
    assert (blt (ek (MkSpan (EncodeUvarintAscending TenantPrefix MaxUint64)
      (Some (EncodeUvarintAscending TenantPrefix (u64 (MaxUint64 + 1))))))
      (EncodeUvarintAscending TenantPrefix MaxUint64)) by (vm_compute; reflexivity).
    border.
Qed.

Lemma tenant_spans_witness :
  DecodeTenantPrefix (EncodeUvarintAscending TenantPrefix 10 ++ str "x") = Ok (str "x", 10).
Proof.
  destruct (tenant_spans 7 10 (str "x") ltac:(lia) ltac:(unfold tenant_ok; lia) ltac:(lia))
    as [(p & [= <-] & D & _) _].
  exact D.
Defined.

Lemma actor_prefix_eq t h : MakeActorPrefixFromHash (tenant_bytes t) h = tenant_bytes t ++ ActorPrefixByte :: h.
Proof. done. Qed.

Lemma ActorPrefixFromKey_app t h rest :
  tenant_ok t -> length h = ActorHashLen ->
  ActorPrefixFromKey (MakeActorPrefixFromHash (tenant_bytes t) h ++ rest) =
  Ok (Some (MakeActorPrefixFromHash (tenant_bytes t) h)).
Proof.
  intros Ht L. unfold ActorPrefixFromKey. rewrite actor_prefix_eq, <- app_assoc. cbn [app].
  rewrite DecodeTenantPrefix_app by done. cbn [mbind res_bind Z.eqb Pos.eqb negb length].
  rewrite length_app, L.
  destruct (Nat.ltb_spec (S (ActorHashLen + length rest)) (1 + ActorHashLen)); [lia|].
  rewrite MakeTenantPrefix_ok by done. cbn [mbind res_bind].
  change (take (1 + ActorHashLen) (ActorPrefixByte :: h ++ rest))
    with (ActorPrefixByte :: take ActorHashLen (h ++ rest)).
  by rewrite (take_app_length' h).
Qed.

Lemma tenant_bytes_ok t : tenant_ok t -> bytes_ok (tenant_bytes t).
Proof.
  intros Ht. rewrite tenant_bytes_eq. destruct (t =? _); [constructor|].
  constructor; [unfold byte_ok; lia|]. rewrite uvarint_view by auto. cbn [app].
  constructor; [|apply be_ok]. destruct (uvarint_first t) as (m & l & E & ?); [auto|].
  rewrite uvarint_view in E by auto. injection E as -> _. unfold byte_ok. lia.
Qed.

Lemma actor_span_contains t h k :
  tenant_ok t -> bytes_ok h -> bytes_ok k ->
  let p := MakeActorPrefixFromHash (tenant_bytes t) h in
  Span_ContainsKey (MkSpan p (Some (Key_PrefixEnd p))) k = true <-> has_prefix p k.
Proof.
  intros Ht Hh Hk p. assert (bytes_ok p) as Hp.
  { apply bytes_ok_app. split; [by apply tenant_bytes_ok|]. constructor; [unfold byte_ok; lia|done]. }
  rewrite (PrefixEnd_spec p k Hp Hk).
  - unfold Span_ContainsKey, Key_PrefixEnd, ek. cbn [Key EndKey default id]. rewrite andb_true_iff.
    destruct (bleb_spec p k), (bltb_spec k (PrefixEnd p)); naive_solver.
  - unfold p. rewrite actor_prefix_eq. by destruct (tenant_bytes t).
  - unfold p. rewrite actor_prefix_eq. intros [_ [F _]%Forall_cons]%Forall_app. lia.
Qed.

Lemma actor_has_prefix t h t' h' rest :
  tenant_ok t -> tenant_ok t' -> length h = ActorHashLen -> length h' = ActorHashLen ->
  has_prefix (MakeActorPrefixFromHash (tenant_bytes t) h)
    (MakeActorPrefixFromHash (tenant_bytes t') h' ++ rest) <-> t = t' /\ h = h'.
Proof.
  intros Ht Ht' L L'. rewrite !actor_prefix_eq, <- app_assoc. split.
  - intros [s E]. rewrite <- app_assoc in E. apply tenant_split in E as [-> E]; [|done..].
    injection E as E. apply app_inj_1 in E as [-> _]; [done|lia].
  - intros [-> ->]. exists rest. by rewrite <- app_assoc.
Qed.

(** Actors own disjoint spans.  A key under an actor's prefix yields the actor's span,
    which holds exactly the keys of that actor of that tenant; a split inside it is
    detected, and one at its start is not; and the entries of a Durable Object sort by
    their user keys under the object's prefix. *)
Theorem actor_spans t h t' h' rest a b :
  tenant_ok t -> tenant_ok t' -> length h = ActorHashLen -> bytes_ok h ->
  length h' = ActorHashLen -> bytes_ok h' -> bytes_ok rest -> bytes_ok a -> bytes_ok b ->
  let p := MakeActorPrefixFromHash (tenant_bytes t) h in
  let k' := MakeActorPrefixFromHash (tenant_bytes t') h' ++ rest in
  (exists sp, ActorSpanFromKey (p ++ rest) = Ok (Some sp) /\
    (Span_ContainsKey sp k' = true <-> t = t' /\ h = h')) /\
  IsInteriorActorSplitKey (p ++ rest) = Ok (negb (length rest =? 0)%nat) /\
  bytes_compare (MakeDOKVKey (tenant_bytes t) h a) (MakeDOKVKey (tenant_bytes t) h b) = bytes_compare a b /\
  has_prefix p (MakeDOKVPrefix (tenant_bytes t) h) /\
  has_prefix (MakeDOKVPrefix (tenant_bytes t) h) (MakeDOKVKey (tenant_bytes t) h a).
Proof.
  intros Ht Ht' L Hh L' Hh' Hr Ha Hb p k'.
  assert (bytes_ok k') as Hk'.
  { apply bytes_ok_app. split; [|done]. apply bytes_ok_app. split; [by apply tenant_bytes_ok|].
    constructor; [unfold byte_ok; lia|done]. }
  assert (ActorSpanFromKey (p ++ rest) = Ok (Some (MkSpan p (Some (Key_PrefixEnd p))))) as S1.
  { unfold ActorSpanFromKey, p. by rewrite ActorPrefixFromKey_app. }
  assert (bytes_ok (p ++ rest)) as Hpr.
  { apply bytes_ok_app. split; [|done]. apply bytes_ok_app. split; [by apply tenant_bytes_ok|].
    constructor; [unfold byte_ok; lia|done]. }
  split_and!.
  - eexists. split; [exact S1|]. unfold p, k'.
    rewrite actor_span_contains by done. by apply actor_has_prefix.
  - unfold IsInteriorActorSplitKey. rewrite S1. cbn [mbind res_bind]. unfold Key_Equal, ek.
    cbn [Key EndKey default id]. f_equal.
    assert (Span_ContainsKey (MkSpan p (Some (Key_PrefixEnd p))) (p ++ rest) = true) as C
      by (apply actor_span_contains; [done..|by exists rest]).
    unfold Span_ContainsKey, ek in C. cbn [Key EndKey default id] in C. apply andb_true_iff in C as [_ C].
    destruct (bltb_spec (p ++ rest) (Key_PrefixEnd p)) as [C'|]; [|done].
    destruct (beqb_spec (p ++ rest) (Key_PrefixEnd p)) as [E|_]; [border|]. rewrite andb_true_r. f_equal.
    destruct (beqb_spec (p ++ rest) p) as [E|E]; destruct rest; [done| |by rewrite app_nil_r in E|done].
    apply (f_equal length) in E. rewrite length_app in E. cbn in E. lia.
  - unfold MakeDOKVKey. by apply (codec_compare (enc := EncodeBytesAscending)).
  - unfold MakeDOKVPrefix. rewrite uv_app, (uv_app (MakeActorPrefixFromHash _ _)).
    eexists. by rewrite <- app_assoc.
  - unfold MakeDOKVKey, MakeDOKVPrefix. rewrite enc_app. by eexists.
Qed.

Lemma actor_spans_witness :
  IsInteriorActorSplitKey (MakeActorPrefixFromHash [] (replicate 16 9) ++ str "x") = Ok true.
Proof.
  exact (proj1 (proj2 (actor_spans 1 (replicate 16 9) 1 (replicate 16 9) (str "x") [] []
    ltac:(unfold tenant_ok; lia) ltac:(unfold tenant_ok; lia) eq_refl ltac:(by apply bytes_ok_b)
    eq_refl ltac:(by apply bytes_ok_b) ltac:(by apply bytes_ok_b) ltac:(by apply bytes_ok_b)
    ltac:(by apply bytes_ok_b)))).
Defined.

(** * Rows *)

(** The codec of a tenant, or of an actor of it. *)
Definition codec_of (e : SQLCodec) (t : Z) (h : option bytes) : Prop :=
  tenant_ok t /\ actor_ok h /\ buf e = tenant_bytes t ++ actor_bytes h.

Lemma IndexPrefix_eq e t h T I : codec_of e t h -> IndexPrefix e T I = index_bytes t h T I.
Proof.
  intros (_ & _ & E). unfold IndexPrefix, TablePrefix, index_bytes.
  rewrite (uv_app _ I), (uv_app _ T), E. by rewrite <- !app_assoc.
Qed.

Lemma MakeSQLCodec_of t e : tenant_ok t -> MakeSQLCodec t = Ok e -> codec_of e t None.
Proof.
  intros Ht. unfold MakeSQLCodec, MakeTenantSpan, TenantID_ToUint64, codec_of, tenant_bytes, tenant_ok in *.
  destruct (t =? SystemTenantID); [intros [= <-]; done|]. destruct (Z.eqb_spec t 0); [lia|].
  intros [= <-]. cbn. by rewrite app_nil_r.
Qed.

Lemma ActorHash_eq sha256 name :
  length (sha256 name) = 32%nat -> ActorHash sha256 name = take ActorHashLen (sha256 name).
Proof.
  intros L. unfold ActorHash, copy_at. change (length (make_bytes ActorHashLen) - 0)%nat with ActorHashLen.
  rewrite length_take, L, take_take.
  change (drop (0 + Nat.min ActorHashLen 32) (make_bytes ActorHashLen)) with (@nil Z). by rewrite app_nil_r.
Qed.

Lemma MakeActorSQLCodec_of sha256 t base name :
  (forall b, length (sha256 b) = 32%nat /\ bytes_ok (sha256 b)) ->
  name <> [] -> codec_of base t None ->
  codec_of (MakeActorSQLCodec sha256 base name) t (Some (ActorHash sha256 name)).
Proof.
  intros Hsha Hn (Ht & _ & E). destruct (Hsha name) as [L B].
  pose proof (ActorHash_eq sha256 name L) as EH.
  split_and!; [done| |].
  - cbn [actor_ok]. rewrite EH. split; [rewrite length_take, L; done|]. by apply Forall_take.
  - unfold MakeActorSQLCodec. destruct name; [done|]. cbn [buf]. unfold MakeActorPrefix.
    rewrite E. cbn [actor_bytes]. by rewrite app_nil_r.
Qed.

Lemma EnsureSafeSplitKey_app key pk s :
  key = pk ++ s -> GetRowPrefixLength key = Ok (Z.of_nat (length pk)) -> EnsureSafeSplitKey key = Ok pk.
Proof.
  intros -> E. unfold EnsureSafeSplitKey. rewrite E. cbn [mbind res_bind].
  by rewrite Nat2Z.id, take_app_length.
Qed.

Lemma index_nonempty t h T I : isU 32 T -> (0 < length (index_bytes t h T I))%nat.
Proof.
  intros HT. unfold index_bytes. rewrite !length_app. pose proof (uv_length T ltac:(auto)). lia.
Qed.

(** Keys of a row.  Every column family's key of a row, in any index of any table of any
    tenant or actor, has the row's key as its prefix and as its safe split key, and decodes
    to the family. *)
Theorem family_keys e t h T I cols fam :
  codec_of e t h -> isU 32 T -> isU 32 I -> isU 32 fam ->
  let pk := IndexPrefix e T I ++ cols in
  GetRowPrefixLength (MakeFamilyKey pk fam) = Ok (Z.of_nat (length pk)) /\
  EnsureSafeSplitKey (MakeFamilyKey pk fam) = Ok pk /\
  DecodeFamilyKey (MakeFamilyKey pk fam) = Ok fam.
Proof.
  intros He HT HI Hf pk. destruct (MakeFamilyKey_eq pk fam Hf) as (s & E & Ls & D).
  assert (GetRowPrefixLength (MakeFamilyKey pk fam) = Ok (Z.of_nat (length pk))) as G.
  { rewrite E. unfold pk. rewrite (IndexPrefix_eq e t h) by done. destruct He as (Ht & Hh & _).
    apply GetRowPrefixLength_suffix; [done..|lia]. }
  split_and!; [done|by apply (EnsureSafeSplitKey_app _ _ _ E)|].
  unfold DecodeFamilyKey. rewrite G, E. cbn [mbind res_bind]. rewrite Nat2Z.id, drop_app_length.
  assert (0 < length pk)%nat as L0.
  { unfold pk. rewrite length_app, (IndexPrefix_eq e t h) by done. pose proof (index_nonempty t h T I HT). lia. }
  rewrite !length_app. cbn [length]. destruct (Z.leb_spec (Z.of_nat (length pk)) 0); [lia|].
  destruct (Z.leb_spec (Z.of_nat (length pk + (length s + 1))) (Z.of_nat (length pk))); [lia|]. cbn [orb].
  destruct (D []) as (r' & ->). cbn [mbind res_bind].
  destruct (Z.ltb_spec MaxUint32 fam); [unfold isU in Hf; lia|]. by rewrite wrapU_id.
Qed.

Definition system_codec : SQLCodec := MkSQLCodec KeyMin KeyMax.

Lemma system_codec_of : codec_of system_codec SystemTenantID None.
Proof. apply (MakeSQLCodec_of 1); [unfold tenant_ok; lia|reflexivity]. Qed.

Lemma family_keys_witness :
  EnsureSafeSplitKey (MakeFamilyKey (IndexPrefix system_codec 52 1 ++ str "col") 3) =
  Ok (IndexPrefix system_codec 52 1 ++ str "col").
Proof.
  exact (proj1 (proj2 (family_keys system_codec 1 None 52 1 (str "col") 3 system_codec_of
    ltac:(unfold isU; lia) ltac:(unfold isU; lia) ltac:(unfold isU; lia)))).
Defined.

(** ** The codec's decoders *)

Lemma DecodeIndexPrefix_app e t h T I rest :
  codec_of e t h -> isU 32 T -> isU 32 I -> DecodeIndexPrefix e (IndexPrefix e T I ++ rest) = Ok (rest, T, I).
Proof.
  intros (Ht & Hh & E) HT HI. unfold DecodeIndexPrefix, DecodeTablePrefix, sqlDecoder_StripTenantPrefix.
  unfold IndexPrefix, TablePrefix. rewrite (uv_app _ I), (uv_app _ T), <- !app_assoc.
  rewrite HasPrefix_app, cut_app. cbn [negb mbind res_bind].
  destruct (DecodeActorPrefix_app None T (uv I ++ rest) ltac:(done) HT) as (hash & D & _).
  cbn [actor_bytes app] in D. rewrite D. cbn [mbind res_bind].
  rewrite PeekType_uv, (oc_roundtrip (enc := EncodeUvarintAscending)) by auto. cbn [mbind res_bind].
  rewrite PeekType_uv, (oc_roundtrip (enc := EncodeUvarintAscending)) by auto. cbn [mbind res_bind].
  by rewrite !wrapU_id.
Qed.

Lemma StripIndexPrefix_app e t h T I rest :
  codec_of e t h -> isU 32 T -> isU 32 I -> StripIndexPrefix (IndexPrefix e T I ++ rest) = Ok rest.
Proof.
  intros He HT HI. rewrite (IndexPrefix_eq e t h) by done. destruct He as (Ht & Hh & _).
  unfold StripIndexPrefix, StripTablePrefix, index_bytes. rewrite <- !app_assoc.
  assert (StripTenantPrefix (tenant_bytes t ++ actor_bytes h ++ uv T ++ uv I ++ rest) =
    Ok (actor_bytes h ++ uv T ++ uv I ++ rest)) as ->.
  { rewrite tenant_bytes_eq. unfold StripTenantPrefix.
    destruct (Z.eqb_spec t SystemTenantID); cbn [app].
    - pose proof (starts_with_actor h T (uv I ++ rest) HT) as F.
      destruct (actor_bytes h ++ uv T ++ uv I ++ rest) as [|y r]; [done|]. cbn [starts_with] in F. by rewrite F.
    - cbn [Z.eqb Pos.eqb negb]. by rewrite (oc_roundtrip (enc := EncodeUvarintAscending)) by auto. }
  cbn [mbind res_bind].
  destruct (DecodeActorPrefix_app h T (uv I ++ rest) Hh HT) as (hash & -> & _). cbn [mbind res_bind].
  rewrite PeekType_uv, (oc_roundtrip (enc := EncodeUvarintAscending)) by auto. cbn [mbind res_bind].
  by rewrite PeekType_uv, (oc_roundtrip (enc := EncodeUvarintAscending)) by auto.
Qed.

(** The metadata keys end in a family-0 key. *)
Lemma MakeFamilyKey_0 key v : MakeFamilyKey (EncodeUvarintAscending key v) 0 = key ++ uv v ++ [intZero].
Proof.
  change (MakeFamilyKey ?k 0) with (EncodeUvarintAscending k 0). rewrite (uv_app _ 0), (uv_app key).
  by rewrite <- app_assoc.
Qed.

(** A codec's decoders invert its encoders, for the system tenant, secondary tenants and
    actors: tables and indexes, descriptor and tenant IDs, zone entries, and the tenant the
    codec is for. *)
Theorem codec_roundtrip e t h T I rest id :
  codec_of e t h -> isU 32 T -> isU 32 I -> isU 32 id ->
  DecodeIndexPrefix e (IndexPrefix e T I ++ rest) = Ok (rest, T, I) /\
  StripIndexPrefix (IndexPrefix e T I ++ rest) = Ok rest /\
  DecodeDescMetadataID e (DescMetadataKey e id) = Ok id /\
  (id <> 0 -> exists k, TenantMetadataKey e id = Ok k /\ DecodeTenantMetadataID e k = Ok id) /\
  DecodeZoneConfigMetadataID e (EncodeUvarintAscending (IndexPrefix e ZonesTableID ZonesTablePrimaryIndexID) id ++ rest)
    = Ok (rest, id) /\
  DecodeIndexPrefix e (SequenceKey e T) = Ok ([intZero; intZero], T, SequenceIndexID) /\
  TenantID e = Ok t.
Proof.
  intros He HT HI Hid.
  assert (forall v, 0 <= v < 100 -> isU 32 v) as C by (unfold isU; lia).
  split_and!.
  - by apply (DecodeIndexPrefix_app e t h).
  - by apply (StripIndexPrefix_app e t h).
  - unfold DecodeDescMetadataID, DescMetadataKey. rewrite MakeFamilyKey_0.
    unfold DescMetadataPrefix. rewrite (DecodeIndexPrefix_app e t h) by (done || apply C; lia).
    cbn [mbind res_bind Z.eqb Pos.eqb negb]. rewrite (oc_roundtrip (enc := EncodeUvarintAscending)) by auto.
    cbn [mbind res_bind]. destruct (Z.ltb_spec MaxUint32 id); [unfold isU in Hid; lia|]. by rewrite wrapU_id.
  - intros Hne. unfold TenantMetadataKey, TenantID_ToUint64. destruct (Z.eqb_spec id 0); [done|].
    eexists. split; [reflexivity|]. unfold DecodeTenantMetadataID. rewrite MakeFamilyKey_0.
    rewrite (DecodeIndexPrefix_app e t h) by (done || apply C; lia).
    cbn [mbind res_bind Z.eqb Pos.eqb negb orb]. rewrite (oc_roundtrip (enc := EncodeUvarintAscending)) by auto.
    cbn [mbind res_bind]. unfold MustMakeTenantID. by destruct (Z.eqb_spec id 0).
  - unfold DecodeZoneConfigMetadataID. rewrite uv_app, <- app_assoc.
    rewrite (DecodeIndexPrefix_app e t h) by (done || apply C; lia).
    cbn [mbind res_bind Z.eqb Pos.eqb negb orb]. rewrite (oc_roundtrip (enc := EncodeUvarintAscending)) by auto.
    cbn [mbind res_bind]. by rewrite wrapU_id.
  - unfold SequenceKey. rewrite MakeFamilyKey_0. by rewrite (DecodeIndexPrefix_app e t h) by (done || apply C; lia).
  - destruct He as (Ht & Hh & E). unfold TenantID. rewrite E.
    rewrite DecodeTenantPrefix_app; [done..|]. by destruct h.
Qed.

Lemma codec_roundtrip_witness : DecodeDescMetadataID system_codec (DescMetadataKey system_codec 104) = Ok 104.
Proof.
  exact (proj1 (proj2 (proj2 (codec_roundtrip system_codec 1 None 52 1 [] 104 system_codec_of
    ltac:(unfold isU; lia) ltac:(unfold isU; lia) ltac:(unfold isU; lia))))).
Defined.

(** ** Subordinate keys of a row *)

Lemma sub_suffix_length col path : isU 32 col -> (3 <= length (sub_suffix col path))%nat.
Proof.
  intros Hc. unfold sub_suffix. cbn [length]. rewrite !length_app. cbn [length].
  pose proof (uv_length col ltac:(auto)). lia.
Qed.

Lemma MakeSubordinatePathKey_small pk col path :
  Z.of_nat (length (sub_suffix col path)) <= intSmall ->
  MakeSubordinatePathKey (MakeFamilyKey pk 0) col path =
  pk ++ sub_suffix col path ++ [intZero + Z.of_nat (length (sub_suffix col path))].
Proof. intros H. rewrite MakeSubordinatePathKey_eq, wrapU_id by (unfold isU; lia). by rewrite uv_small by lia. Qed.

(** Subordinate keys, while the suffix of the key takes at most 109 bytes: they decode to
    the row, column and path; the row's key is their safe split key; and they are
    recognised as subordinate to the row. *)
Theorem subordinate_roundtrip e t h T I cols col path :
  codec_of e t h -> isU 32 T -> isU 32 I -> isU 32 col -> Forall seg_ok path ->
  Z.of_nat (length (sub_suffix col path)) <= intSmall ->
  let pk := IndexPrefix e T I ++ cols in
  let key := MakeSubordinatePathKey (MakeFamilyKey pk 0) col path in
  DecodeSubordinatePathKey key = Ok (pk, col, path) /\
  EnsureSafeSplitKey key = Ok pk /\ IsSubordinateKey key pk = true.
Proof.
  intros He HT HI Hc Hp HL pk key. pose proof (sub_suffix_length col path Hc) as L3.
  assert (key = pk ++ sub_suffix col path ++ [intZero + Z.of_nat (length (sub_suffix col path))]) as Ek
    by (by apply MakeSubordinatePathKey_small).
  assert (GetRowPrefixLength key = Ok (Z.of_nat (length pk))) as G.
  { rewrite Ek. unfold pk. rewrite (IndexPrefix_eq e t h) by done. destruct He as (Ht & Hh & _).
    by apply GetRowPrefixLength_suffix. }
  set (L := Z.of_nat (length (sub_suffix col path))) in *.
  split_and!; [|by apply (EnsureSafeSplitKey_app _ _ _ Ek)|].
  - unfold DecodeSubordinatePathKey. rewrite G. cbn [mbind res_bind].
    rewrite Ek, Nat2Z.id, take_app_length, drop_app_length. unfold sub_suffix. cbn [app].
    rewrite (uv_small_cons 0) by lia. cbn [mbind res_bind Z.eqb negb]. rewrite <- app_assoc.
    rewrite (oc_roundtrip (enc := EncodeUvarintAscending)) by auto. cbn [mbind res_bind].
    destruct (Z.ltb_spec MaxUint32 col); [unfold isU in Hc; lia|].
    replace ((enc_path path ++ [intZero]) ++ [intZero + L]) with (enc_path path ++ intZero :: uv L)
      by (rewrite uv_small by lia; by rewrite <- app_assoc).
    rewrite path_loop_segs by (done || unfold isU; lia). cbn [mbind res_bind app].
    by rewrite wrapU_id.
  - unfold IsSubordinateKey. rewrite Ek, HasPrefix_app, cut_app. cbn [negb]. rewrite length_app. cbn [length].
    destruct (Nat.ltb_spec (length (sub_suffix col path) + 1) 4); [lia|]. unfold sub_suffix. cbn [app].
    by rewrite (uv_small_cons 0) by lia.
Qed.

Lemma subordinate_roundtrip_witness :
  DecodeSubordinatePathKey (MakeSubordinatePathKey (MakeFamilyKey (IndexPrefix system_codec 52 1 ++ []) 0) 3
    [PathObjectKey (str "a"); PathArrayIndex 2]) =
  Ok (IndexPrefix system_codec 52 1 ++ [], 3, [PathObjectKey (str "a"); PathArrayIndex 2]).
Proof.
  refine (proj1 (subordinate_roundtrip system_codec 1 None 52 1 [] 3
    [PathObjectKey (str "a"); PathArrayIndex 2] system_codec_of _ _ _ _ _));
    [unfold isU; lia|unfold isU; lia|unfold isU; lia| |vm_compute; discriminate].
  constructor; [apply bytes_ok_b; reflexivity|constructor; [unfold seg_ok, isU; lia|constructor]].
Defined.

(** Subordinate keys of a row sort by column and then as paths, an ancestor before its
    descendants; the span of a path's prefix holds exactly the keys of the paths below it;
    and they lie between the row's sentinel and its other column families. *)
Theorem subordinate_order pk c d p q fam :
  isU 32 c -> isU 32 d -> Forall seg_ok p -> Forall seg_ok q -> isU 32 fam -> fam <> 0 ->
  let row := MakeFamilyKey pk 0 in
  bytes_compare (MakeSubordinatePathKey row c p) (MakeSubordinatePathKey row d q) =
    lexc (c ?= d) (path_compare p q) /\
  (has_prefix (MakeSubordinatePathPrefix row c p) (MakeSubordinatePathKey row d q) <->
    c = d /\ p `prefix_of` q) /\
  blt row (MakeSubordinatePathKey row c p) /\
  blt (MakeSubordinatePathKey row c p) (MakeFamilyKey pk fam).
Proof.
  intros Hc Hd Hp Hq Hf Hf0 row. unfold row.
  assert (MakeFamilyKey pk 0 = pk ++ [intZero]) as Er
    by (change (MakeFamilyKey pk 0) with (EncodeUvarintAscending pk 0); by rewrite uv_app).
  rewrite !MakeSubordinatePathKey_eq. split_and!.
  - rewrite bytes_compare_app. unfold sub_suffix. cbn [app]. rewrite bytes_compare_cons, Z.compare_refl.
    cbn [lexc]. rewrite <- !app_assoc. rewrite (oc_order (enc := EncodeUvarintAscending)) by auto. cbn [app].
    rewrite path_order by done. destruct (Z.compare_spec c d) as [->| |]; cbn [lexc]; [|done..].
    destruct (path_compare p q) eqn:E; cbn [lexc]; [|done..].
    apply path_compare_eq in E as ->; [|done..]. apply bytes_compare_refl.
  - rewrite MakeSubordinatePathPrefix_eq, Er. unfold sub_suffix. split.
    + intros [s E]. rewrite <- !app_assoc in E. apply app_inv_head in E. cbn [app] in E.
      injection E as E. rewrite <- !app_assoc in E.
      apply (codec_prefix_free (enc := EncodeUvarintAscending)) in E as [-> E]; [|auto..].
      split; [done|]. cbn [app] in E. symmetry in E. by apply path_prefix in E.
    + intros [-> [q' ->]]. unfold enc_path. rewrite bind_app. eexists. rewrite <- !app_assoc. cbn [app].
      by rewrite <- !app_assoc.
  - rewrite Er. unfold blt. generalize (uv (u64 (Z.of_nat (length (sub_suffix c p))))) as r. intros r.
    change (sub_suffix c p) with ([intZero] ++ (uv c ++ enc_path p ++ [intZero])).
    rewrite <- (app_assoc [intZero]), (app_assoc pk).
    rewrite bytes_compare_prefix. destruct (uvarint_first c ltac:(auto)) as (m & l & -> & _). done.
  - unfold MakeFamilyKey. destruct (Z.eqb_spec fam 0); [done|]. rewrite (uv_app (EncodeUvarintAscending pk fam)), (uv_app pk), <- app_assoc.
    unfold blt. rewrite bytes_compare_app. unfold sub_suffix. cbn [app].
    rewrite (uvarint_view [] fam) by auto. cbn [app]. rewrite bytes_compare_cons.
    assert (intZero < uv_tag fam) as Ht.
    { destruct (uv_class fam) as [(? & -> & _)|(? & -> & _)]; [auto|unfold isU in Hf; lia|lia]. }
    by rewrite (proj2 (Z.compare_lt_iff intZero (uv_tag fam))).
Qed.

Lemma subordinate_order_witness :
  has_prefix (MakeSubordinatePathPrefix (MakeFamilyKey [] 0) 3 [PathObjectKey (str "a")])
    (MakeSubordinatePathKey (MakeFamilyKey [] 0) 3 [PathObjectKey (str "a"); PathArrayIndex 2]).
Proof.
  refine (proj2 (proj1 (proj2 (subordinate_order [] 3 3 [PathObjectKey (str "a")]
    [PathObjectKey (str "a"); PathArrayIndex 2] 1 _ _ _ _ _ _))) _);
    [unfold isU; lia|unfold isU; lia| | |unfold isU; lia|lia|].
  - constructor; [apply bytes_ok_b; reflexivity|constructor].
  - constructor; [apply bytes_ok_b; reflexivity|constructor; [unfold seg_ok, isU; lia|constructor]].
  - split; [reflexivity|by eexists].
Defined.

(** A two-byte length: only the second byte is read back. *)
Lemma DecodeUvarintAscending_one x r L :
  110 <= x <= 255 -> DecodeUvarintAscending [x] = Ok (r, L) ->
  L = x - intZero /\ intZero <= x \/ MaxUint64 - 255 <= L.
Proof.
  intros Hx. unfold DecodeUvarintAscending. cbv zeta.
  destruct (Z.leb_spec (x - intZero) intSmall).
  - intros [= _ <-]. unfold wrapU. destruct (Z.leb_spec intZero x).
    + left. rewrite Z.mod_small; lia.
    + right. rewrite <- (Z.mod_add (x - intZero) 1 (2 ^ 64)), Z.mod_small; lia.
  - destruct (_ || _); [done|].
    destruct (Z.ltb_spec (Z.of_nat (length (@nil Z))) (x - intZero - intSmall)); [done|]. cbn in *. lia.
Qed.

(** C33: Beyond 109 bytes of suffix the length takes two bytes, and only the last is read
    back: the row's prefix is no longer found, and for lengths from 136 to 245 the safe
    split key lies inside the row. *)
Theorem subordinate_long_suffix e t h T I cols col path :
  codec_of e t h -> isU 32 T -> isU 32 I ->
  intSmall < Z.of_nat (length (sub_suffix col path)) <= 255 ->
  let pk := IndexPrefix e T I ++ cols in
  let key := MakeSubordinatePathKey (MakeFamilyKey pk 0) col path in
  GetRowPrefixLength key <> Ok (Z.of_nat (length pk)) /\
  (136 <= Z.of_nat (length (sub_suffix col path)) <= 245 ->
   exists s, s <> [] /\ EnsureSafeSplitKey key = Ok (pk ++ s)).
Proof.
  intros He HT HI HL pk key. set (L := Z.of_nat (length (sub_suffix col path))) in *.
  assert (uv (u64 L) = [246; L]) as EL.
  { rewrite wrapU_id by (unfold isU; lia). unfold EncodeUvarintAscending. zcases; try lia.
    cbn [app]. by rewrite wrapU_id by (unfold isU; lia). }
  assert (key = (pk ++ sub_suffix col path ++ [246]) ++ [L]) as Ek.
  { unfold key. rewrite MakeSubordinatePathKey_eq. fold L. rewrite EL. by rewrite <- !app_assoc. }
  assert (GetRowPrefixLength key = row_prefix_of (Z.of_nat (length key))
    (Z.of_nat (length (uv T ++ uv I ++ (cols ++ sub_suffix col path ++ [246]) ++ [L]))) L) as G.
  { rewrite Ek. unfold pk. rewrite (IndexPrefix_eq e t h) by done. destruct He as (Ht & Hh & _).
    rewrite <- !(app_assoc (index_bytes t h T I)). rewrite <- (app_assoc cols). 
    pose proof (GetRowPrefixLength_last t h T I (cols ++ sub_suffix col path ++ [246]) L Ht Hh HT HI) as G.
    by rewrite <- (app_assoc cols) in G. }
  assert (Z.of_nat (length key) = Z.of_nat (length pk) + L + 2) as Lk.
  { rewrite Ek, !length_app. cbn [length]. unfold L. lia. }
  rewrite Lk in G. split.
  - rewrite G. unfold row_prefix_of. destruct (PeekType [L]); try done.
    destruct (DecodeUvarintAscending [L]) as [[r M]| |] eqn:D; cbn [mbind res_bind]; [|done..].
    destruct (_ <? M); [done|]. intros [= E].
    apply DecodeUvarintAscending_one in D; lia.
  - intros HL'. pose proof (row_prefix_small (Z.of_nat (length pk) + L + 2)
      (Z.of_nat (length (uv T ++ uv I ++ (cols ++ sub_suffix col path ++ [246]) ++ [L]))) (L - intZero)
      ltac:(lia)) as R.
    replace (intZero + (L - intZero)) with L in R by lia. rewrite R in G.
    2:{ rewrite !length_app. cbn [length]. unfold L. lia. }
    exists (take 137 (sub_suffix col path ++ [246])). split.
    { intros E. apply (f_equal length) in E. rewrite length_take, length_app in E. cbn in E. lia. }
    unfold EnsureSafeSplitKey. rewrite G. cbn [mbind res_bind]. f_equal.
    replace (Z.to_nat _) with (length pk + 137)%nat by lia.
    rewrite Ek, <- !app_assoc, take_app_add. f_equal.
    rewrite (app_assoc (sub_suffix col path) [246] [L]), take_app_le; [done|].
    rewrite length_app. cbn [length]. lia.
Qed.

Lemma subordinate_long_suffix_witness :
  GetRowPrefixLength (MakeSubordinatePathKey (MakeFamilyKey (IndexPrefix system_codec 52 1 ++ []) 0) 3
    [PathObjectKey (replicate 140 97)]) <> Ok (Z.of_nat (length (IndexPrefix system_codec 52 1 ++ []))).
Proof.
  refine (proj1 (subordinate_long_suffix system_codec 1 None 52 1 [] 3 [PathObjectKey (replicate 140 97)]
    system_codec_of _ _ _)); [unfold isU; lia|unfold isU; lia|].
  vm_compute. split; [reflexivity|discriminate].
Defined.

(** * Rewriting tenants *)

Lemma copy_at_front old new rest : length old = length new -> copy_at (old ++ rest) 0 new = new ++ rest.
Proof.
  intros L. unfold copy_at. cbn [take app]. rewrite length_app, Nat.sub_0_r, (take_ge new) by lia.
  by rewrite (drop_app_length' old) by done.
Qed.

Lemma RewriteKey_changed t t' rest :
  tenant_ok t -> tenant_ok t' -> starts_with tenantPrefixByte rest = false ->
  (length (tenant_bytes t') =? 0)%nat && HasPrefix (tenant_bytes t ++ rest) TenantPrefix
    || negb (HasPrefix (tenant_bytes t ++ rest) (tenant_bytes t')) = negb (t =? t').
Proof.
  intros Ht Ht' Hr. destruct (Z.eqb_spec t t') as [<-|Hn]; cbn [negb].
  - rewrite HasPrefix_app, orb_false_r. rewrite tenant_bytes_eq.
    destruct (t =? SystemTenantID); cbn [length app]; [|done].
    destruct (HasPrefix rest TenantPrefix) eqn:E; [|done]. apply HasPrefix_true in E. by rewrite E in Hr.
  - destruct (HasPrefix (tenant_bytes t ++ rest) (tenant_bytes t')) eqn:E; [|by rewrite orb_true_r].
    rewrite orb_false_r. apply HasPrefix_true in E. rewrite (tenant_bytes_eq t').
    destruct (Z.eqb_spec t' SystemTenantID) as [Hs|Hs].
    + rewrite tenant_bytes_eq. destruct (Z.eqb_spec t SystemTenantID); [lia|]. done.
    + by apply tenant_split in E as [? _].
Qed.

Lemma RewriteKey_eq t t' rest :
  tenant_ok t -> tenant_ok t' -> starts_with tenantPrefixByte rest = false ->
  let key := tenant_bytes t ++ rest in
  exists caller, RewriteKeyToTenantPrefix key (tenant_bytes t') = Ok (tenant_bytes t' ++ rest, caller) /\
    length caller = length key /\
    (if (length (tenant_bytes t') <=? length (tenant_bytes t))%nat
     then exists d, caller = d ++ tenant_bytes t' ++ rest else caller = key).
Proof.
  intros Ht Ht' Hr key. unfold RewriteKeyToTenantPrefix, key. rewrite RewriteKey_changed by done.
  destruct (Z.eqb_spec t t') as [<-|Hn]; cbn [negb].
  { eexists. split; [done|]. split; [done|]. rewrite Nat.leb_refl. by exists []. }
  rewrite DecodeTenantPrefix_app by done. cbn [mbind res_bind]. rewrite length_app.
  set (p := tenant_bytes t). set (q := tenant_bytes t').
  destruct (Nat.leb_spec (length q) (length p)) as [Hl|Hl].
  - destruct (Z.leb_spec 0 (Z.of_nat (length p + length rest) - Z.of_nat (length q) - Z.of_nat (length rest))); [|lia].
    replace (Z.to_nat _) with (length p - length q)%nat by lia.
    rewrite drop_app_le, copy_at_front by (rewrite ?length_drop; lia).
    eexists. split; [done|]. split; [|by eexists].
    rewrite !length_app, length_take, length_app. lia.
  - destruct (Z.leb_spec 0 (Z.of_nat (length p + length rest) - Z.of_nat (length q) - Z.of_nat (length rest))); [lia|].
    exists (p ++ rest). split; [|split; [by rewrite length_app|done]]. do 2 f_equal. unfold make_bytes.
    rewrite replicate_add, copy_at_front by (by rewrite length_replicate).
    unfold copy_at. rewrite take_app_length, length_app, length_replicate.
    rewrite (Nat.add_comm (length q)), Nat.add_sub, take_ge, drop_ge by (rewrite ?length_app, ?length_replicate; lia).
    by rewrite app_nil_r.
Qed.

(** Rewriting a key to another tenant replaces its tenant prefix and nothing else, whichever
    of the two prefixes is longer.  When the new key is not longer it is written over the
    end of the caller's key, which then no longer holds the old key.  A span with both keys
    moves with them; a span of a single key, with no end key, gets the new prefix as its end
    and is not valid. *)
Theorem RewriteKey_correct t t' rest rest' :
  tenant_ok t -> tenant_ok t' ->
  starts_with tenantPrefixByte rest = false -> starts_with tenantPrefixByte rest' = false ->
  let key := tenant_bytes t ++ rest in
  (exists caller, RewriteKeyToTenantPrefix key (tenant_bytes t') = Ok (tenant_bytes t' ++ rest, caller) /\
    length caller = length key /\
    (if (length (tenant_bytes t') <=? length (tenant_bytes t))%nat
     then exists d, caller = d ++ tenant_bytes t' ++ rest else caller = key)) /\
  RewriteSpanToTenantPrefix (MkSpan key (Some (tenant_bytes t ++ rest'))) (tenant_bytes t') =
    Ok (MkSpan (tenant_bytes t' ++ rest) (Some (tenant_bytes t' ++ rest'))) /\
  (t' <> SystemTenantID -> exists sp,
    RewriteSpanToTenantPrefix (MkSpan key None) (tenant_bytes t') = Ok sp /\ Span_Valid sp = false).
Proof.
  intros Ht Ht' Hr Hr' key.
  destruct (RewriteKey_eq t t' rest Ht Ht' Hr) as (c1 & E1 & H1).
  destruct (RewriteKey_eq t t' rest' Ht Ht' Hr') as (c2 & E2 & _).
  destruct (RewriteKey_eq SystemTenantID t' [] ltac:(unfold tenant_ok; lia) Ht' eq_refl) as (c3 & E3 & _).
  rewrite !app_nil_r in E3. change (tenant_bytes SystemTenantID) with (@nil Z) in E3.
  split_and!; [by exists c1| |].
  - unfold RewriteSpanToTenantPrefix, ek. cbn [Key EndKey default id]. unfold key. rewrite E1. cbn [mbind res_bind].
    by rewrite E2.
  - intros Hn. unfold RewriteSpanToTenantPrefix, ek. cbn [Key EndKey default id]. unfold key. rewrite E1, E3.
    eexists. split; [reflexivity|]. rewrite tenant_bytes_eq. destruct (Z.eqb_spec t' SystemTenantID); [done|].
    unfold Span_Valid. cbn [Key EndKey].
    assert (ble (tenantPrefixByte :: uv t') (tenantPrefixByte :: uv t' ++ rest)) by (apply prefix_le; by exists rest).
    unfold is_point, ek. cbn. bcases; (done || border).
Qed.

Lemma RewriteKey_correct_witness :
  exists caller, RewriteKeyToTenantPrefix (tenant_bytes 10 ++ str "x") (tenant_bytes 1) = Ok (str "x", caller).
Proof.
  destruct (RewriteKey_correct 10 1 (str "x") [] ltac:(unfold tenant_ok; lia) ltac:(unfold tenant_ok; lia)
    eq_refl eq_refl) as ((caller & E & _) & _).
  exists caller. exact E.
Defined.

(** * Actor hashes *)

(** Classes of the same name share the part of the hash that places the actor. *)
Theorem ActorClassHash_placement sha256 c c' name :
  (forall b, length (sha256 b) = 32%nat) ->
  take actorPlacementLen (ActorClassHash sha256 c name) = take actorPlacementLen (ActorHash sha256 name) /\
  take actorPlacementLen (ActorClassHash sha256 c name) = take actorPlacementLen (ActorClassHash sha256 c' name) /\
  drop actorPlacementLen (ActorClassHash sha256 c name) = take 4 (sha256 (c ++ str ":" ++ name)) /\
  length (ActorClassHash sha256 c name) = ActorHashLen.
Proof.
  intros L.
  assert (forall c, ActorClassHash sha256 c name =
    take actorPlacementLen (sha256 name) ++ take 4 (sha256 (c ++ str ":" ++ name))) as E.
  { intros d. unfold ActorClassHash. set (m := take actorPlacementLen (sha256 name)).
    assert (length m = actorPlacementLen) as Lm by (unfold m; rewrite length_take, L; done).
    change (take actorPlacementLen (make_bytes ActorHashLen)) with (make_bytes 12).
    change (drop actorPlacementLen (make_bytes ActorHashLen)) with (make_bytes 4).
    rewrite <- (app_nil_r (make_bytes 12)), copy_at_front, app_nil_r by done.
    unfold copy_at. rewrite (take_app_length' m), length_app, length_take, L, Lm by done.
    change (12 + length (make_bytes 4) - actorPlacementLen)%nat with 4%nat.
    change (ActorHashLen - actorPlacementLen)%nat with 4%nat. rewrite take_take.
    rewrite drop_ge by (rewrite length_app, Lm; cbn; lia). by rewrite app_nil_r. }
  pose proof (ActorHash_eq sha256 name (L name)) as EH.
  assert (length (take actorPlacementLen (sha256 name)) = actorPlacementLen) as Lm
    by (rewrite length_take, L; done).
  rewrite !E, EH, !(take_app_length' (take actorPlacementLen (sha256 name))) by done.
  split_and!; [by rewrite take_take|done|by rewrite drop_app_length'|].
  rewrite length_app, Lm, length_take, L. done.
Qed.
