(* ===== verification/PebbleResults.v ===== *)
(** The result set of a scan (src/pkg/storage/pebble_mvcc_scanner.go: [pebbleResults]; and the
    decoder of its format, src/pkg/storage/enginepb/decode.go).

    Key-value pairs are appended to a list of byte buffers of growing capacity, and a ring of
    offsets remembers where the last pairs start, so that the pairs of an incomplete SQL row can
    be cut off the end again.  Every operation is one on the list of pairs, and the decoder
    returns that list. *)
From S2P Require Import Prelude Bytes GoLib IntEnc Hlc KeyOps Spans MvccKey RangeKeys MvccValue MvccIter Scanner ScanSpec SqlKeys.

(** A byte slice with its capacity. *)
Record buf := MkBuf { b_data : bytes; b_cap : Z }.
Definition nil_buf : buf := MkBuf [] 0.
Definition b_len (b : buf) : Z := Z.of_nat (length (b_data b)).

Record pebbleResults := MkPebbleResults {
  pr_count : Z;
  pr_bytes : Z;
  pr_repr : buf;
  pr_bufs : list buf;
  pr_lastOffsetsEnabled : bool;
  pr_lastOffsets : list Z;
  pr_lastOffsetIdx : Z
}.

(** [binary.LittleEndian]. *)
Definition le32 (n : Z) : bytes := rev (be 4 (u32 n)).
Definition le_uint (b : bytes) : Z := be_uint (rev b).

Abbreviation pebbleResultsKVLenSize := 8.

Definition pebbleResultsKVSizeOf (lenKey lenValue : Z) : Z := pebbleResultsKVLenSize + lenKey + lenValue.

Definition results_clear (p : pebbleResults) : pebbleResults := MkPebbleResults 0 0 nil_buf [] false [] 0.

Definition results_sizeInfo (p : pebbleResults) (lenKey lenValue : Z) : Z * Z * Z :=
  (pr_count p, pr_bytes p, pebbleResultsKVSizeOf lenKey lenValue).

(** ** Adding a pair *)

Fixpoint double_until (fuel : nat) (newSize lenToAdd : Z) : Z :=
  match fuel with
  | O => newSize
  | S fuel => if newSize <? lenToAdd then double_until fuel (newSize * 2) lenToAdd else newSize
  end.

Abbreviation minSize := 16.
Abbreviation maxSize := (Z.shiftl 128 20).

Definition new_size (cap lenToAdd maxNewSize : Z) : Z :=
  let n := 2 * cap in
  let n := if (n =? 0) || (maxSize <? n) then minSize else n in
  let n := double_until (Z.to_nat lenToAdd) n lenToAdd in
  let n := if maxSize <? n then maxSize else n in
  let n := if (0 <? maxNewSize) && (maxNewSize <? n) then maxNewSize else n in
  if n <? lenToAdd then lenToAdd else n.

(** The start of a pair goes into the ring. *)
Definition track (p : pebbleResults) (startIdx : Z) : res pebbleResults :=
  if pr_lastOffsetsEnabled p then
    if (0 <=? pr_lastOffsetIdx p) && (pr_lastOffsetIdx p <? Z.of_nat (length (pr_lastOffsets p))) then
      let offs := <[Z.to_nat (pr_lastOffsetIdx p) := startIdx]> (pr_lastOffsets p) in
      let idx := pr_lastOffsetIdx p + 1 in
      Ok (MkPebbleResults (pr_count p) (pr_bytes p) (pr_repr p) (pr_bufs p) true offs
            (if idx =? Z.of_nat (length offs) then 0 else idx))
    else Panic "index out of range"
  else Ok p.

Section Put.
Context `{L : ScanLib}.

Definition grow_results (p : pebbleResults) (a : account) (lenToAdd maxNewSize : Z) : res (pebbleResults * account) :=
  if b_cap (pr_repr p) <? b_len (pr_repr p) + lenToAdd then
    if (0 <? maxNewSize) && (maxNewSize <? lenToAdd) then Err "maxNewSize is not sufficient"
    else
      let newSize := new_size (b_cap (pr_repr p)) lenToAdd maxNewSize in
      let bufs := if 0 <? b_len (pr_repr p) then pr_bufs p ++ [pr_repr p] else pr_bufs p in
      a ← Grow a newSize;
      Ok (MkPebbleResults (pr_count p) (pr_bytes p) (MkBuf [] newSize) bufs
            (pr_lastOffsetsEnabled p) (pr_lastOffsets p) (pr_lastOffsetIdx p), a)
  else Ok (p, a).

Definition results_put (p : pebbleResults) (a : account) (key value : bytes) (maxNewSize : Z) : res (pebbleResults * account) :=
  let lenKey := Z.of_nat (length key) in
  let lenValue := Z.of_nat (length value) in
  let lenToAdd := pebbleResultsKVSizeOf lenKey lenValue in
  '(p, a) ← grow_results p a lenToAdd maxNewSize;
  let startIdx := b_len (pr_repr p) in
  if b_cap (pr_repr p) <? startIdx + lenToAdd then Panic "slice bounds out of range"
  else
    let repr := MkBuf (b_data (pr_repr p) ++ le32 lenValue ++ le32 lenKey ++ key ++ value) (b_cap (pr_repr p)) in
    p ← track (MkPebbleResults (pr_count p + 1) (pr_bytes p + lenToAdd) repr (pr_bufs p)
                 (pr_lastOffsetsEnabled p) (pr_lastOffsets p) (pr_lastOffsetIdx p)) startIdx;
    Ok (p, a).
End Put.

(** ** SQL rows *)

Definition getRowPrefix (key : bytes) : res (option bytes) :=
  if (length key =? 0)%nat then Ok None
  else
    match GetRowPrefixLength key with
    | Panic e => Panic e
    | Err _ => Ok None
    | Ok n => if (n <=? 0) || (Z.of_nat (length key) <=? n) then Ok None else Ok (Some (take (Z.to_nat n) key))
    end.

(** The key of the pair at the start of a buffer; [None] if it does not decode. *)
Definition extractResultKey (repr : bytes) : res (option bytes) :=
  if Z.of_nat (length repr) <? 8 then Panic "slice bounds out of range"
  else
    let hi := u32 (8 + le_uint (slice repr 4 8)) in
    if (hi <? 8) || (Z.of_nat (length repr) <? hi) then Panic "slice bounds out of range"
    else Ok (match DecodeEngineKey (slice repr 8 hi) with Some k => Some (e_Key k) | None => None end).

Definition results_continuesFirstRow (p : pebbleResults) (key : bytes) : res bool :=
  let repr := match pr_bufs p with b :: _ => b | [] => pr_repr p end in
  if b_len repr =? 0 then Ok true
  else
    rowPrefix ← getRowPrefix key;
    match rowPrefix with
    | None => Ok false
    | Some rowPrefix =>
        k ← extractResultKey (b_data repr);
        other ← getRowPrefix (default [] k);
        Ok (beqb rowPrefix (default [] other))
    end.

Definition keyHasFinalColumnFamily (key : bytes) (maxFamilyID : Z) (reverse : bool) : res bool :=
  match DecodeFamilyKey key with
  | Panic e => Panic e
  | Err _ => Ok false
  | Ok colFamilyID => Ok (if reverse then colFamilyID =? 0 else colFamilyID =? maxFamilyID)
  end.

(** Where the last offset is in the ring. *)
Definition last_offset_idx (p : pebbleResults) : Z :=
  let i := pr_lastOffsetIdx p - 1 in
  if i <? 0 then Z.of_nat (length (pr_lastOffsets p)) - 1 else i.

Definition offset_at (p : pebbleResults) (i : Z) : res Z :=
  if i <? 0 then Panic "index out of range"
  else match pr_lastOffsets p !! Z.to_nat i with Some x => Ok x | None => Panic "index out of range" end.

Definition results_lastRowHasFinalColumnFamily (p : pebbleResults) (reverse : bool) : res bool :=
  lastOffset ← offset_at p (last_offset_idx p);
  repr ← slice_from (b_data (pr_repr p)) lastOffset;
  key ← extractResultKey repr;
  keyHasFinalColumnFamily (default [] key) (u32 (Z.of_nat (length (pr_lastOffsets p)) - 1)) reverse.

(** [n] is the number of turns left. *)
Fixpoint trim_loop (n : nat) (p : pebbleResults) (trimRowPrefix : bytes) (firstTrimmedKey : option bytes)
    : res (pebbleResults * option bytes) :=
  match n with
  | O => Err "row exceeds expected max size"
  | S n =>
      let lastOffsetIdx := last_offset_idx p in
      lastOffset ← offset_at p lastOffsetIdx;
      repr ← slice_from (b_data (pr_repr p)) lastOffset;
      key ← extractResultKey repr;
      rowPrefix ← getRowPrefix (default [] key);
      if negb (beqb (default [] rowPrefix) trimRowPrefix) then Ok (p, firstTrimmedKey)
      else
        let data := take (Z.to_nat lastOffset) (b_data (pr_repr p)) in
        let offs := <[Z.to_nat lastOffsetIdx := 0]> (pr_lastOffsets p) in
        let p' repr' bufs' :=
          MkPebbleResults (pr_count p - 1) (pr_bytes p - Z.of_nat (length repr)) repr' bufs'
            (pr_lastOffsetsEnabled p) offs lastOffsetIdx in
        if (length data =? 0)%nat then
          match last (pr_bufs p) with
          | None => Ok (p' (MkBuf data (b_cap (pr_repr p))) (pr_bufs p), key)
          | Some b => trim_loop n (p' b (removelast (pr_bufs p))) trimRowPrefix key
          end
        else trim_loop n (p' (MkBuf data (b_cap (pr_repr p))) (pr_bufs p)) trimRowPrefix key
  end.

Definition results_maybeTrimPartialLastRow (p : pebbleResults) (nextKey : bytes) : res (pebbleResults * option bytes) :=
  if negb (pr_lastOffsetsEnabled p) || (b_len (pr_repr p) =? 0) then Ok (p, None)
  else
    trimRowPrefix ← getRowPrefix nextKey;
    match trimRowPrefix with
    | None => Ok (p, None)
    | Some trimRowPrefix => trim_loop (length (pr_lastOffsets p)) p trimRowPrefix None
    end.

Definition results_finish (p : pebbleResults) : list bytes :=
  b_data <$> (if 0 <? b_len (pr_repr p) then pr_bufs p ++ [pr_repr p] else pr_bufs p).

#[export] Instance pebble_Results `{ScanLib} : Results pebbleResults := {|
  r_clear := results_clear;
  r_sizeInfo := results_sizeInfo;
  r_put := results_put;
  r_continuesFirstRow := results_continuesFirstRow;
  r_maybeTrimPartialLastRow := results_maybeTrimPartialLastRow;
  r_lastRowHasFinalColumnFamily := results_lastRowHasFinalColumnFamily;
  r_lastOffsetsEnabled := pr_lastOffsetsEnabled
|}.

(** ** Decoding *)

Abbreviation kvLenSize := 8.

(** The key, the timestamp, the value and the rest. *)
Definition ScanDecodeKeyValue (repr : bytes) : res (bytes * Timestamp * bytes * bytes) :=
  if Z.of_nat (length repr) <? kvLenSize then Err "unexpected batch EOF"
  else
    let valSize := le_uint (slice repr 0 4) in
    let keyEnd := u32 (le_uint (slice repr 4 kvLenSize) + kvLenSize) in
    if u32 (Z.of_nat (length repr)) <? u32 (keyEnd + valSize) then Err "expected more bytes than remain"
    else if (keyEnd <? kvLenSize) || (u32 (keyEnd + valSize) <? keyEnd) then Panic "slice bounds out of range"
    else
      let rawKey := slice repr kvLenSize keyEnd in
      let value := slice repr keyEnd (u32 (keyEnd + valSize)) in
      '(key, ts) ← DecodeKey rawKey;
      Ok (key, ts, value, drop (Z.to_nat (u32 (keyEnd + valSize))) repr).

(** The same without the timestamp. *)
Definition ScanDecodeKeyValueNoTS (repr : bytes) : res (bytes * bytes * bytes) :=
  if Z.of_nat (length repr) <? kvLenSize then Err "unexpected batch EOF"
  else
    let valSize := le_uint (slice repr 0 4) in
    let keyEnd := u32 (le_uint (slice repr 4 kvLenSize) + kvLenSize) in
    if Z.of_nat (length repr) <? u32 (keyEnd + valSize) then Err "expected more bytes than remain"
    else if (keyEnd <? kvLenSize) || (u32 (keyEnd + valSize) <? keyEnd) then Panic "slice bounds out of range"
    else
      match SplitMVCCKey (slice repr kvLenSize keyEnd) with
      | None => Err "invalid encoded mvcc key"
      | Some (key, _) => Ok (key, slice repr keyEnd (u32 (keyEnd + valSize)), drop (Z.to_nat (u32 (keyEnd + valSize))) repr)
      end.

(** The loops call [fn] on each pair; it works on a state [A]. *)
Section Callback.
Context {A : Type} (fn : A -> bytes -> Timestamp -> bytes -> res A).

Fixpoint decode_batch (fuel : nat) (a : A) (data : bytes) : res A :=
  match data with
  | [] => Ok a
  | _ =>
      match fuel with
      | O => Panic "out of fuel"
      | S fuel =>
          '(k, ts, rawBytes, data) ← ScanDecodeKeyValue data;
          a ← fn a k ts rawBytes;
          decode_batch fuel a data
      end
  end.
Fixpoint ScanDecodeKeyValues (a : A) (repr : list bytes) : res A :=
  match repr with
  | [] => Ok a
  | data :: repr => a ← decode_batch (length data) a data; ScanDecodeKeyValues a repr
  end.

(** The calls on given pairs. *)
Fixpoint calls (a : A) (ds : list (bytes * Timestamp * bytes)) : res A :=
  match ds with
  | [] => Ok a
  | (k, ts, v) :: ds => a ← fn a k ts v; calls a ds
  end.
End Callback.

(** A callback that collects the pairs. *)
Definition collect (l : list (bytes * Timestamp * bytes)) (k : bytes) (ts : Timestamp) (v : bytes) :
  res (list (bytes * Timestamp * bytes)) := Ok (l ++ [(k, ts, v)]).

(** * The list of pairs *)

Abbreviation kv := (bytes * bytes)%type.

Definition kv_size (x : kv) : Z := pebbleResultsKVSizeOf (Z.of_nat (length x.1)) (Z.of_nat (length x.2)).
Definition kv_ok (x : kv) : Prop := kv_size x < 2 ^ 32.
Definition enc_kv (x : kv) : bytes := le32 (Z.of_nat (length x.2)) ++ le32 (Z.of_nat (length x.1)) ++ x.1 ++ x.2.
Fixpoint enc (g : list kv) : bytes := match g with [] => [] | x :: g => enc_kv x ++ enc g end.
Fixpoint total (g : list kv) : Z := match g with [] => 0 | x :: g => kv_size x + total g end.
(** Where the pairs of a buffer start. *)
Fixpoint offs (start : Z) (g : list kv) : list Z :=
  match g with [] => [] | x :: g => start :: offs (start + kv_size x) g end.
Fixpoint all_offs (groups : list (list kv)) (g : list kv) : list Z :=
  match groups with [] => offs 0 g | h :: groups => offs 0 h ++ all_offs groups g end.

(** The operations on rows, on the list. *)
Definition kv_user (x : kv) : bytes := match DecodeEngineKey x.1 with Some k => e_Key k | None => [] end.
Definition kv_key (x : kv) : option bytes := match DecodeEngineKey x.1 with Some k => Some (e_Key k) | None => None end.
Definition kv_row (x : kv) : res (option bytes) := getRowPrefix (kv_user x).

Definition list_continues (kvs : list kv) (key : bytes) : res bool :=
  match kvs with
  | [] => Ok true
  | x :: _ =>
      rowPrefix ← getRowPrefix key;
      match rowPrefix with
      | None => Ok false
      | Some rowPrefix => other ← kv_row x; Ok (beqb rowPrefix (default [] other))
      end
  end.

(** The list is reversed; at most [n] pairs are looked at. *)
Fixpoint list_trim (n : nat) (rkvs : list kv) (prefix : bytes) (first : option bytes) : res (list kv * option bytes) :=
  match n, rkvs with
  | O, _ => Err "row exceeds expected max size"
  | S n, [] => Ok ([], first)
  | S n, x :: rest =>
      row ← kv_row x;
      if negb (beqb (default [] row) prefix) then Ok (rkvs, first)
      else match rest with [] => Ok ([], kv_key x) | _ => list_trim n rest prefix (kv_key x) end
  end.

Definition list_trim_last (n : nat) (enabled : bool) (kvs : list kv) (nextKey : bytes) : res (list kv * option bytes) :=
  match enabled, kvs with
  | false, _ | _, [] => Ok (kvs, None)
  | true, _ =>
      row ← getRowPrefix nextKey;
      match row with
      | None => Ok (kvs, None)
      | Some prefix => '(r, k) ← list_trim n (rev kvs) prefix None; Ok (rev r, k)
      end
  end.

(** ** What the buffers represent *)

(** The ring has the starts [os] of the pairs, the last [m] of them at least. *)
Definition ring (m : nat) (p : pebbleResults) (os : list Z) : Prop :=
  let n := Z.of_nat (length (pr_lastOffsets p)) in
  0 <= pr_lastOffsetIdx p < n /\
  forall i x, (i < m)%nat -> rev os !! i = Some x ->
    pr_lastOffsets p !! Z.to_nat ((pr_lastOffsetIdx p - 1 - Z.of_nat i) mod n) = Some x.

(** The full buffers hold the pairs of [groups], the current one those of [g]. *)
Record rep_with (m : nat) (p : pebbleResults) (groups : list (list kv)) (g : list kv) : Prop := {
  rp_bufs : b_data <$> pr_bufs p = enc <$> groups;
  rp_groups : Forall (fun h => h <> []) groups;
  rp_repr : b_data (pr_repr p) = enc g;
  rp_caps : Forall (fun b => b_len b <= b_cap b < 2 ^ 32) (pr_repr p :: pr_bufs p);
  rp_kvs : Forall kv_ok (concat groups ++ g);
  rp_count : pr_count p = Z.of_nat (length (concat groups ++ g));
  rp_bytes : pr_bytes p = total (concat groups ++ g);
  rp_ring : pr_lastOffsetsEnabled p = true -> ring m p (all_offs groups g)
}.

Definition rep (m : nat) (p : pebbleResults) (kvs : list kv) : Prop :=
  exists groups g, kvs = concat groups ++ g /\ (g = [] -> groups = []) /\ rep_with m p groups g.

(** A result set that pairs can be added to, and one that only has to be returned. *)
Definition holds (p : pebbleResults) (kvs : list kv) : Prop := rep (length (pr_lastOffsets p)) p kvs.
Definition returns_kvs (p : pebbleResults) (kvs : list kv) : Prop := rep 0 p kvs.

#[local] Arguments kv_size : simpl never.
#[local] Arguments enc_kv : simpl never.

(** ** Lists and integers *)

Lemma le_uint_le32 n : isU 32 n -> le_uint (le32 n) = n.
Proof. intros H. unfold le_uint, le32. rewrite rev_involutive, be_uint_u32. by apply wrapU_id. Qed.
Lemma le32_length n : length (le32 n) = 4%nat.
Proof. unfold le32. by rewrite length_rev, be_length. Qed.

Lemma enc_kv_length x : Z.of_nat (length (enc_kv x)) = kv_size x.
Proof. unfold enc_kv, kv_size, pebbleResultsKVSizeOf. rewrite !length_app, !le32_length. lia. Qed.
Lemma enc_length g : Z.of_nat (length (enc g)) = total g.
Proof. induction g as [|x g IH]; cbn; [done|]. rewrite length_app. pose proof (enc_kv_length x). lia. Qed.
Lemma kv_size_pos x : 8 <= kv_size x.
Proof. unfold kv_size, pebbleResultsKVSizeOf. lia. Qed.
Lemma total_app g h : total (g ++ h) = total g + total h.
Proof. induction g as [|x g IH]; cbn; lia. Qed.
Lemma kvs_enc_app g h : enc (g ++ h) = enc g ++ enc h.
Proof. induction g as [|x g IH]; cbn; [done|]. by rewrite IH, app_assoc. Qed.
Lemma offs_app s g h : offs s (g ++ h) = offs s g ++ offs (s + total g) h.
Proof. revert s. induction g as [|x g IH]; intros s; cbn; [by rewrite Z.add_0_r|]. rewrite IH. do 3 f_equal. lia. Qed.
Lemma all_offs_app groups h g : all_offs (groups ++ [h]) g = all_offs groups h ++ offs 0 g.
Proof. induction groups as [|k groups IH]; cbn; [done|]. by rewrite IH, app_assoc. Qed.
Lemma all_offs_snoc groups g x : all_offs groups (g ++ [x]) = all_offs groups g ++ [total g].
Proof. induction groups as [|k groups IH]; cbn; [by rewrite offs_app, Z.add_0_l|]. by rewrite IH, app_assoc. Qed.

(** The key of the pair at the start of a buffer. *)
Lemma extract_enc x rest : kv_ok x -> extractResultKey (enc_kv x ++ rest) = Ok (kv_key x).
Proof.
  intros K. unfold kv_ok in K. pose proof (kv_size_pos x). unfold kv_size, pebbleResultsKVSizeOf in *. unfold extractResultKey.
  assert (Len : Z.of_nat (length (enc_kv x ++ rest)) = kv_size x + Z.of_nat (length rest)) by (rewrite length_app; pose proof (enc_kv_length x); lia).
  unfold kv_size, pebbleResultsKVSizeOf in Len. rewrite Len.
  replace (_ <? 8) with false by lia. unfold enc_kv. rewrite <- !app_assoc.
  rewrite (slice_app (le32 (Z.of_nat (length x.2))) (le32 (Z.of_nat (length x.1)))) by (rewrite ?le32_length; lia).
  rewrite le_uint_le32 by (unfold isU; lia). rewrite !wrapU_id by (unfold isU; lia).
  replace (_ || _) with false by lia. rewrite app_assoc.
  rewrite (slice_app (le32 (Z.of_nat (length x.2)) ++ le32 (Z.of_nat (length x.1))) x.1) by (rewrite ?length_app, ?le32_length; lia). done.
Qed.

(** ** Adding a pair *)

Lemma new_size_bounds cap lenToAdd maxNewSize :
  lenToAdd < 2 ^ 32 -> lenToAdd <= new_size cap lenToAdd maxNewSize < 2 ^ 32.
Proof.
  intros H. assert (maxSize < 2 ^ 32) by done. unfold new_size.
  generalize (double_until (Z.to_nat lenToAdd) (if (2 * cap =? 0) || (maxSize <? 2 * cap) then minSize else 2 * cap) lenToAdd). intros n.
  assert (B : (if maxSize <? n then maxSize else n) < 2 ^ 32) by (case_match; lia).
  revert B. generalize (if maxSize <? n then maxSize else n). intros k B.
  assert (C : (if (0 <? maxNewSize) && (maxNewSize <? k) then maxNewSize else k) < 2 ^ 32) by (case_match; lia).
  revert C. generalize (if (0 <? maxNewSize) && (maxNewSize <? k) then maxNewSize else k). intros l C. case_match; lia.
Qed.

(** The doubling loop of [put] reaches the size it aims at. *)
Lemma double_until_reaches fuel n k : 0 < n -> k <= n * 2 ^ Z.of_nat fuel -> k <= double_until fuel n k.
Proof.
  revert n. induction fuel as [|fuel IH]; intros n Hn H; cbn [double_until]; [lia|].
  destruct (Z.ltb_spec n k); [|lia]. apply IH; [lia|].
  rewrite Nat2Z.inj_succ, Z.pow_succ_r in H by lia. lia.
Qed.

Lemma ring_track m p os s p' :
  ring m p os -> (m <= length (pr_lastOffsets p))%nat -> pr_lastOffsetsEnabled p = true ->
  track p s = Ok p' -> ring m p' (os ++ [s]).
Proof.
  intros (I & R) Hm En. unfold track. rewrite En. replace (_ && _) with true by lia. intros [= <-].
  unfold ring. cbn. rewrite length_insert. set (n := Z.of_nat (length (pr_lastOffsets p))) in *.
  assert (Next : (if pr_lastOffsetIdx p + 1 =? n then 0 else pr_lastOffsetIdx p + 1) = (pr_lastOffsetIdx p + 1) mod n).
  { destruct (Z.eqb_spec (pr_lastOffsetIdx p + 1) n) as [->|]; [by rewrite Z_mod_same_full|]. by rewrite Z.mod_small by lia. }
  rewrite Next. split; [apply Z.mod_pos_bound; lia|]. intros i x Hi. rewrite rev_app_distr. cbn.
  rewrite <- Z.sub_add_distr, Zminus_mod_idemp_l.
  destruct i as [|i]; cbn.
  - intros [= ->]. replace (_ + 1 - (1 + 0)) with (pr_lastOffsetIdx p) by lia. rewrite Z.mod_small by lia.
    apply list_lookup_insert_eq. lia.
  - intros E. specialize (R i x ltac:(lia) E).
    replace (pr_lastOffsetIdx p + 1 - _) with (pr_lastOffsetIdx p - 1 - Z.of_nat i) by lia.
    rewrite list_lookup_insert_ne; [done|].
    intros X. pose proof (Z.mod_pos_bound (pr_lastOffsetIdx p - 1 - Z.of_nat i) n ltac:(lia)).
    apply Z2Nat.inj in X; [|lia..]. destruct (decide (0 <= pr_lastOffsetIdx p - 1 - Z.of_nat i)).
    + rewrite Z.mod_small in X by lia. lia.
    + rewrite <- (Z_mod_plus_full _ 1), Z.mod_small in X by lia. lia.
Qed.

Lemma b_len_enc b g : b_data b = enc g -> b_len b = total g.
Proof. intros E. unfold b_len. rewrite E. apply enc_length. Qed.

Lemma total_pos g : g <> [] -> 0 < total g.
Proof. destruct g as [|x g]; [done|]. intros _. cbn. pose proof (kv_size_pos x). pose proof (enc_length g). lia. Qed.

(** The current buffer with a pair more, and the ring with its start. *)
Lemma track_ok p groups g key value (p2 := MkPebbleResults (pr_count p + 1) (pr_bytes p + kv_size (key, value))
    (MkBuf (b_data (pr_repr p) ++ enc_kv (key, value)) (b_cap (pr_repr p))) (pr_bufs p)
    (pr_lastOffsetsEnabled p) (pr_lastOffsets p) (pr_lastOffsetIdx p)) :
  rep_with (length (pr_lastOffsets p)) p groups g -> kv_ok (key, value) ->
  b_len (pr_repr p) + kv_size (key, value) <= b_cap (pr_repr p) ->
  exists p', track p2 (b_len (pr_repr p)) = Ok p' /\
    rep_with (length (pr_lastOffsets p)) p' groups (g ++ [(key, value)]) /\
    pr_lastOffsetsEnabled p' = pr_lastOffsetsEnabled p /\ length (pr_lastOffsets p') = length (pr_lastOffsets p).
Proof.
  intros [B Gs Rp Cs Ks Cn By Ri] K Room. pose proof (b_len_enc _ _ Rp) as Bl.
  enough (exists p', track p2 (b_len (pr_repr p)) = Ok p' /\ pr_count p' = pr_count p2 /\ pr_bytes p' = pr_bytes p2 /\
    pr_repr p' = pr_repr p2 /\ pr_bufs p' = pr_bufs p2 /\ pr_lastOffsetsEnabled p' = pr_lastOffsetsEnabled p /\
    length (pr_lastOffsets p') = length (pr_lastOffsets p) /\
    (pr_lastOffsetsEnabled p = true -> ring (length (pr_lastOffsets p)) p' (all_offs groups g ++ [total g])))
    as (p' & T & E1 & E2 & E3 & E4 & E5 & E6 & E7).
  { exists p'. split; [done|]. split; [|done]. inversion Cs. split; rewrite ?E1, ?E2, ?E3, ?E4, ?E5, ?all_offs_snoc; cbn; try done.
    - by rewrite Rp, kvs_enc_app; cbn; rewrite app_nil_r.
    - constructor; [|done]. unfold b_len in *. cbn. rewrite length_app. pose proof (enc_kv_length (key, value)). lia.
    - rewrite app_assoc. apply Forall_app. split; [done|]. by repeat constructor.
    - rewrite Cn, app_assoc, (length_app (_ ++ _)). cbn. lia.
    - rewrite By, app_assoc, (total_app (_ ++ _)). cbn. lia. }
  destruct (pr_lastOffsetsEnabled p) eqn:En.
  - specialize (Ri eq_refl). rewrite Bl. destruct (track p2 (total g)) as [p'|e|e] eqn:T.
    2-3: exfalso; revert T; unfold track, p2; cbn; rewrite ?En; destruct Ri as (? & _); replace (_ && _) with true by lia; done.
    exists p'. split; [done|]. pose proof (ring_track _ p2 _ _ _ Ri ltac:(cbn; lia) eq_refl T) as R'.
    revert T. unfold track, p2. cbn. case_match; [|done]. intros [= <-]. cbn.
    repeat (split; [done || by rewrite length_insert|]). done.
  - exists p2. unfold track. cbn. by repeat split.
Qed.

Section PutOk.
Context `{L : ScanLib}.

Lemma grow_ok m p a lenToAdd maxNewSize groups g :
  rep_with m p groups g -> (g = [] -> groups = []) -> 0 < lenToAdd < 2 ^ 32 ->
  match grow_results p a lenToAdd maxNewSize with
  | Ok (p', _) => exists groups' g', concat groups' ++ g' = concat groups ++ g /\ rep_with m p' groups' g' /\
      b_len (pr_repr p') + lenToAdd <= b_cap (pr_repr p') /\ length (pr_lastOffsets p') = length (pr_lastOffsets p) /\
      pr_lastOffsetsEnabled p' = pr_lastOffsetsEnabled p
  | _ => 0 < maxNewSize < lenToAdd \/ (exists n, forall a', Grow a n <> Ok a')
  end.
Proof.
  intros [B Gs Rp Cs K Cn By Ri] Last Len. unfold grow_results. destruct (Z.ltb_spec (b_cap (pr_repr p)) (b_len (pr_repr p) + lenToAdd)) as [Lt|Ge].
  2: { exists groups, g. split; [done|]. split; [done|]. split; [lia|done]. }
  destruct ((0 <? maxNewSize) && (maxNewSize <? lenToAdd)) eqn:Mx; [left; lia|].
  set (n := new_size _ _ _). destruct (Grow a n) as [a'|e|e] eqn:Gr; cbn; [|right; exists n; congruence..].
  pose proof (new_size_bounds (b_cap (pr_repr p)) lenToAdd maxNewSize ltac:(lia)). fold n in H.
  pose proof (b_len_enc _ _ Rp) as Bl. destruct (decide (g = [])) as [->|Ne].
  - rewrite Last in * by done. rewrite Bl. cbn. exists [], []. split; [done|]. split; [|split; [unfold b_len; cbn; lia|done]].
    split; cbn; try done. constructor; [unfold b_len; cbn; lia|]. by inversion Cs.
  - pose proof (total_pos g Ne). replace (0 <? b_len (pr_repr p)) with true by lia.
    exists (groups ++ [g]), []. rewrite concat_app. cbn. rewrite !app_nil_r. split; [done|].
    split; [|split; [unfold b_len; cbn; lia|done]].
    inversion Cs. split; cbn; rewrite ?concat_app; cbn; rewrite ?app_nil_r; try done.
    + rewrite !fmap_app, B. cbn. by rewrite Rp.
    + apply Forall_app. split; [done|]. by repeat constructor.
    + constructor; [unfold b_len; cbn; lia|]. apply Forall_app. split; [done|]. by apply Forall_singleton.
    + intros En. rewrite all_offs_app, app_nil_r. by apply Ri.
Qed.

(** Adding a pair appends it to the list; it fails when the allowed size is too small for the
    pair, and when the memory account does not grow. *)
Lemma put_appends p a key value maxNewSize kvs :
  holds p kvs -> kv_ok (key, value) ->
  match results_put p a key value maxNewSize with
  | Ok (p', _) => holds p' (kvs ++ [(key, value)]) /\ pr_lastOffsetsEnabled p' = pr_lastOffsetsEnabled p /\
      length (pr_lastOffsets p') = length (pr_lastOffsets p)
  | _ => 0 < maxNewSize < kv_size (key, value) \/ (exists n, forall a', Grow a n <> Ok a')
  end.
Proof.
  intros (groups & g & -> & Last & Rp) K. unfold results_put. fold (kv_size (key, value)).
  pose proof (kv_size_pos (key, value)). unfold kv_ok in K.
  pose proof (grow_ok _ p a (kv_size (key, value)) maxNewSize groups g Rp Last ltac:(lia)) as Gr.
  change (pebbleResultsKVSizeOf _ _) with (kv_size (key, value)).
  destruct (grow_results _ _ _ _) as [[p1 a1]|e|e]; cbn; [|done..].
  destruct Gr as (groups1 & g1 & <- & Rp1 & Room & Len & En). replace (b_cap _ <? _) with false by lia.
  set (p2 := MkPebbleResults _ _ _ _ _ _ _).
  enough (exists p', track p2 (b_len (pr_repr p1)) = Ok p' /\ rep_with (length (pr_lastOffsets p)) p' groups1 (g1 ++ [(key, value)]) /\
    pr_lastOffsetsEnabled p' = pr_lastOffsetsEnabled p /\ length (pr_lastOffsets p') = length (pr_lastOffsets p)) as (p' & -> & R & E1 & E2).
  { cbn. split; [|done]. unfold holds. rewrite E2. exists groups1, (g1 ++ [(key, value)]). rewrite app_assoc. split; [done|].
    split; [by destruct g1|done]. }
  rewrite <- Len in Rp1 |- *. rewrite <- En. by apply track_ok.
Qed.
End PutOk.

(** ** Rows *)

Lemma kv_user_key x : default [] (kv_key x) = kv_user x.
Proof. unfold kv_key, kv_user. by destruct (DecodeEngineKey x.1). Qed.

Lemma rep_weaken m m' p groups g : rep_with m p groups g -> (m' <= m)%nat -> rep_with m' p groups g.
Proof.
  intros [B Gs Rp Cs Ks Cn By Ri] Le. split; try done. intros En. destruct (Ri En) as (I & R). split; [done|].
  intros i x Hi. apply R. lia.
Qed.

(** The first pair decides whether a key continues the first row. *)
Lemma continues_first m p kvs key : rep m p kvs -> results_continuesFirstRow p key = list_continues kvs key.
Proof.
  intros (groups & g & -> & Last & [B Gs Rp Cs Ks Cn By Ri]). unfold results_continuesFirstRow.
  assert (Go : forall b h rest, b_data b = enc h -> Forall kv_ok (h ++ rest) -> h <> [] ->
    (if b_len b =? 0 then Ok true
     else rowPrefix ← getRowPrefix key;
      match rowPrefix with
      | None => Ok false
      | Some rowPrefix => k ← extractResultKey (b_data b); other ← getRowPrefix (default [] k); Ok (beqb rowPrefix (default [] other))
      end) = list_continues (h ++ rest) key).
  { intros b h rest E F Ne. rewrite (b_len_enc _ _ E), E. pose proof (total_pos _ Ne). replace (_ =? 0) with false by lia.
    destruct h as [|x h]; [done|]. cbn. inversion F. destruct (getRowPrefix key) as [[r|]|e|e]; cbn; try done.
    rewrite extract_enc by done. cbn. by rewrite kv_user_key. }
  destruct groups as [|h groups], (pr_bufs p) as [|b bufs]; try discriminate B; cbn in *.
  - destruct g as [|x g]; [|by rewrite (Go _ (x :: g) []) by (rewrite ?app_nil_r; done); rewrite app_nil_r].
    by rewrite (b_len_enc _ _ Rp).
  - injection B as E _. inversion Gs. rewrite <- app_assoc in *. by apply Go.
Qed.

Lemma last_offset_mod p n : n = Z.of_nat (length (pr_lastOffsets p)) -> 0 <= pr_lastOffsetIdx p < n ->
  last_offset_idx p = (pr_lastOffsetIdx p - 1) mod n.
Proof.
  intros -> I. unfold last_offset_idx.
  destruct (Z.ltb_spec (pr_lastOffsetIdx p - 1) 0); [|by rewrite Z.mod_small by lia].
  rewrite <- (Z_mod_plus_full _ 1), Z.mod_small by lia. lia.
Qed.

(** The ring's last entry leads to the last pair. *)
Lemma last_pair m p groups g x :
  rep_with (S m) p groups (g ++ [x]) -> pr_lastOffsetsEnabled p = true ->
  offset_at p (last_offset_idx p) = Ok (total g) /\ slice_from (b_data (pr_repr p)) (total g) = Ok (enc_kv x).
Proof.
  intros [B Gs Rp Cs Ks Cn By Ri] En. destruct (Ri En) as (I & R). set (n := Z.of_nat (length (pr_lastOffsets p))) in *.
  rewrite all_offs_snoc, rev_app_distr in R. specialize (R 0%nat (total g) ltac:(lia) eq_refl).
  assert (Idx : last_offset_idx p = (pr_lastOffsetIdx p - 1 - Z.of_nat 0) mod n).
  { rewrite (last_offset_mod p n) by done. f_equal. lia. }
  split.
  - unfold offset_at. rewrite Idx, R. destruct (Z.ltb_spec ((pr_lastOffsetIdx p - 1 - Z.of_nat 0) mod n) 0) as [Neg|]; [|done].
    pose proof (Z.mod_pos_bound (pr_lastOffsetIdx p - 1 - Z.of_nat 0) n ltac:(lia)). lia.
  - rewrite Rp, kvs_enc_app. cbn. rewrite app_nil_r. apply slice_from_app. by rewrite enc_length.
Qed.

Lemma kv_ok_last groups g x : Forall kv_ok (concat groups ++ g ++ [x]) -> kv_ok x.
Proof. rewrite !Forall_app, Forall_singleton. naive_solver. Qed.

Lemma last_row m p groups g x reverse :
  rep_with (S m) p groups (g ++ [x]) -> pr_lastOffsetsEnabled p = true ->
  results_lastRowHasFinalColumnFamily p reverse
  = keyHasFinalColumnFamily (kv_user x) (u32 (Z.of_nat (length (pr_lastOffsets p)) - 1)) reverse.
Proof.
  intros Rp En. destruct (last_pair _ _ _ _ _ Rp En) as [E1 E2]. unfold results_lastRowHasFinalColumnFamily.
  rewrite E1. cbn. rewrite E2. cbn. rewrite <- (app_nil_r (enc_kv x)), extract_enc by (eapply kv_ok_last, rp_kvs, Rp).
  cbn. by rewrite kv_user_key.
Qed.

(** Cutting the last pair off. *)
Definition cut (p : pebbleResults) (n : Z) (x : kv) : pebbleResults :=
  MkPebbleResults (pr_count p - 1) (pr_bytes p - Z.of_nat (length (enc_kv x)))
    (MkBuf (take (Z.to_nat n) (b_data (pr_repr p))) (b_cap (pr_repr p))) (pr_bufs p) (pr_lastOffsetsEnabled p)
    (<[Z.to_nat (last_offset_idx p) := 0]> (pr_lastOffsets p)) (last_offset_idx p).

Lemma cut_ring m p os s x n : ring (S m) p (os ++ [s]) -> (S m <= length (pr_lastOffsets p))%nat -> ring m (cut p n x) os.
Proof.
  intros (I & R) Le. unfold ring. cbn. rewrite length_insert. set (k := Z.of_nat (length (pr_lastOffsets p))) in *.
  rewrite (last_offset_mod p k) by done. pose proof (Z.mod_pos_bound (pr_lastOffsetIdx p - 1) k ltac:(lia)) as Bd.
  split; [done|]. intros i y Hi E. rewrite rev_app_distr in R. specialize (R (S i) y ltac:(lia) E).
  replace (_ - 1 - Z.of_nat (S i)) with (pr_lastOffsetIdx p - 1 - (1 + Z.of_nat i)) in R by lia.
  rewrite <- Zminus_mod_idemp_l in R.
  revert R Bd. generalize ((pr_lastOffsetIdx p - 1) mod k). intros j R Bd. rewrite <- Z.sub_add_distr.
  rewrite list_lookup_insert_ne; [done|]. intros X.
  pose proof (Z.mod_pos_bound (j - (1 + Z.of_nat i)) k ltac:(lia)). apply Z2Nat.inj in X; [|lia..].
  destruct (decide (0 <= j - (1 + Z.of_nat i))).
  - rewrite Z.mod_small in X by lia. lia.
  - rewrite <- (Z_mod_plus_full _ 1), Z.mod_small in X by lia. lia.
Qed.

Lemma cut_rep m p groups g x :
  rep_with (S m) p groups (g ++ [x]) -> (S m <= length (pr_lastOffsets p))%nat -> rep_with m (cut p (total g) x) groups g.
Proof.
  intros [B Gs Rp Cs Ks Cn By Ri] Le. rewrite app_assoc in Ks, Cn, By. rewrite length_app in Cn. rewrite total_app in By. cbn in Cn, By.
  assert (Take : take (Z.to_nat (total g)) (b_data (pr_repr p)) = enc g).
  { rewrite Rp, kvs_enc_app, <- enc_length, Nat2Z.id. apply take_app_length. }
  inversion Cs. split; cbn; rewrite ?Take, ?enc_kv_length; try done; try lia.
  - constructor; [|done]. unfold b_len in *. cbn. rewrite Rp, kvs_enc_app, length_app in *. lia.
  - by apply Forall_app in Ks as [? _].
  - intros En. apply (cut_ring m p _ (total g) x (total g)); [|done]. rewrite <- (all_offs_snoc _ _ x). by apply Ri.
Qed.

(** The last full buffer becomes the current one. *)
Definition pop (p : pebbleResults) (b : buf) : pebbleResults :=
  MkPebbleResults (pr_count p) (pr_bytes p) b (removelast (pr_bufs p)) (pr_lastOffsetsEnabled p) (pr_lastOffsets p) (pr_lastOffsetIdx p).

Lemma pop_rep m p groups h :
  rep_with m p (groups ++ [h]) [] -> exists b, last (pr_bufs p) = Some b /\ rep_with m (pop p b) groups h /\ h <> [].
Proof.
  intros [B Gs Rp Cs Ks Cn By Ri]. rewrite concat_app in Ks, Cn, By. cbn in *. rewrite !app_nil_r in Ks, Cn, By.
  destruct (pr_bufs p) as [|b' bufs _] eqn:Ebufs using rev_ind; [by destruct groups|].
  rewrite !fmap_app in B. cbn in B. apply app_inj_tail in B as [B1 B2]. apply Forall_app in Gs as [G1 G2]. rewrite Forall_singleton in G2.
  inversion Cs as [|? ? C1 C2]. apply Forall_app in C2 as [C2 C3]. rewrite Forall_singleton in C3.
  exists b'. rewrite last_snoc. split; [done|]. split; [|done]. split; cbn; rewrite ?Ebufs, ?removelast_last; try done.
  - by constructor.
  - intros En. specialize (Ri En). by rewrite all_offs_app, app_nil_r in Ri.
Qed.

Lemma rep_returns m p groups g : rep_with m p groups g -> (g = [] -> groups = []) -> returns_kvs p (concat groups ++ g).
Proof. intros R Last. exists groups, g. split; [done|]. split; [done|]. eapply rep_weaken; [done|lia]. Qed.

(** The loop over the ring takes the pairs of the row off the list. *)
Lemma trim_ok m p groups g prefix first :
  rep_with m p groups g -> g <> [] -> pr_lastOffsetsEnabled p = true -> (m <= length (pr_lastOffsets p))%nat ->
  sim (fun a b => returns_kvs a.1 (rev b.1) /\ a.2 = b.2) (trim_loop m p prefix first) (list_trim m (rev (concat groups ++ g)) prefix first).
Proof.
  revert p groups g first. induction m as [|m IH]; intros p groups g first Rp Ne En Le; [done|].
  destruct g as [|x g _] using rev_ind; [done|]. rewrite app_assoc, rev_app_distr. cbn [trim_loop list_trim rev app].
  destruct (last_pair _ _ _ _ _ Rp En) as [-> E2]. cbn [mbind res_bind]. rewrite E2. cbn [mbind res_bind].
  rewrite <- (app_nil_r (enc_kv x)), extract_enc by (eapply kv_ok_last, rp_kvs, Rp). rewrite app_nil_r. cbn [mbind res_bind].
  rewrite kv_user_key. unfold kv_row. destruct (getRowPrefix (kv_user x)) as [row|e|e]; [|done..]. cbn [mbind res_bind].
  destruct (negb _).
  { cbn [sim fst snd]. split; [|done]. change (x :: rev (concat groups ++ g)) with (rev [x] ++ rev (concat groups ++ g)).
    rewrite <- rev_app_distr, rev_involutive, <- app_assoc. eapply rep_returns; [done|by destruct g]. }
  pose proof (cut_rep _ _ _ _ _ Rp Le) as Rc. pose proof (rp_repr _ _ _ _ Rc) as Rr. cbn in Rr. rewrite Rr.
  destruct (decide (g = [])) as [->|Ng].
  - cbn [enc length Nat.eqb]. rewrite app_nil_r. destruct groups as [|h groups _] using rev_ind.
    + pose proof (rp_bufs _ _ _ _ Rc) as Eb. cbn in Eb. apply fmap_nil_inv in Eb. rewrite Eb. cbn. split; [|done].
      exists [], []. split; [done|]. split; [done|]. eapply rep_weaken; [|apply Nat.le_0_l]. unfold cut in Rc. cbn in Rc. by rewrite Eb in Rc.
    + destruct (pop_rep _ _ _ _ Rc) as (b & Lb & Rb & Nh). cbn in Lb. rewrite Lb.
      rewrite concat_app. cbn [concat]. rewrite app_nil_r. case_match eqn:Rev.
      { apply (f_equal (@length _)) in Rev. rewrite length_rev, length_app in Rev. destruct h; [done|]. cbn in Rev. lia. }
      rewrite <- Rev. eapply (IH (pop (cut p (total []) x) b)); [exact Rb|done|done|]. cbn. rewrite length_insert. lia.
  - case_match eqn:Z0; [apply Nat.eqb_eq in Z0; pose proof (total_pos g Ng); pose proof (enc_length g); lia|].
    case_match eqn:Rev.
    { apply (f_equal (@length _)) in Rev. rewrite length_rev, length_app in Rev. destruct g; [done|]. cbn in Rev. lia. }
    rewrite <- Rev. rewrite <- Rr. eapply (IH (cut p (total g) x)); [exact Rc|done|done|]. cbn. rewrite length_insert. lia.
Qed.

(** [maybeTrimPartialLastRow] on the list. *)
Lemma maybeTrim_ok p kvs nextKey :
  holds p kvs ->
  sim (fun a b => returns_kvs a.1 b.1 /\ a.2 = b.2) (results_maybeTrimPartialLastRow p nextKey)
    (list_trim_last (length (pr_lastOffsets p)) (pr_lastOffsetsEnabled p) kvs nextKey).
Proof.
  intros (groups & g & -> & Last & Rp). unfold results_maybeTrimPartialLastRow, list_trim_last.
  pose proof (rep_returns _ _ _ _ Rp Last) as Ret. pose proof (b_len_enc _ _ (rp_repr _ _ _ _ Rp)) as Bl. rewrite Bl.
  destruct (pr_lastOffsetsEnabled p) eqn:En; [|done]. cbn [negb orb].
  destruct (decide (g = [])) as [->|Ne]; [by rewrite Last in * by done|].
  pose proof (total_pos _ Ne). replace (total g =? 0) with false by lia.
  destruct (concat groups ++ g) as [|x kvs] eqn:E; [by apply app_nil in E as [_ ->]|]. rewrite <- E.
  destruct (getRowPrefix nextKey) as [[prefix|]|e|e]; cbn [mbind res_bind]; try done; [|by rewrite E].
  pose proof (trim_ok _ _ _ _ prefix None Rp Ne En (le_n _)) as T.
  destruct (trim_loop _ _ _ _), (list_trim _ _ _ _) as [[r k]|e|e]; cbn in *; try done.
Qed.

(** What [list_trim] leaves: the pairs it takes are of the row, the pair before them is not, and
    the key it returns is the first one taken. *)
Lemma list_trim_row n rkvs prefix first r k :
  list_trim n rkvs prefix first = Ok (r, k) ->
  exists t, rkvs = t ++ r /\ k = match last t with Some x => kv_key x | None => first end /\
    Forall (fun x => exists row, kv_row x = Ok row /\ default [] row = prefix) t /\
    (forall x, head r = Some x -> exists row, kv_row x = Ok row /\ default [] row <> prefix).
Proof.
  revert rkvs first. induction n as [|n IH]; intros rkvs first; [done|]. cbn [list_trim].
  destruct rkvs as [|x rest]; [intros [= <- <-]; by exists []|].
  destruct (kv_row x) as [row|e|e] eqn:Row; [|done..]. cbn [mbind res_bind]. destruct (beqb_spec (default [] row) prefix) as [Eq|Ne]; cbn [negb].
  2: { intros [= <- <-]. exists []. repeat split; [by constructor|]. intros y [= <-]. eauto. }
  intros H. assert (exists t, rest = t ++ r /\ k = match last t with Some y => kv_key y | None => kv_key x end /\
    Forall (fun y => exists row, kv_row y = Ok row /\ default [] row = prefix) t /\
    (forall y, head r = Some y -> exists row, kv_row y = Ok row /\ default [] row <> prefix)) as (t & -> & -> & F & Hd).
  { destruct rest; [|by apply IH in H]. injection H as <- <-. exists []. by repeat split. }
  exists (x :: t). split; [done|]. split; [|split; [constructor; eauto|done]]. rewrite last_cons. by destruct (last t).
Qed.

(** ** Decoding *)

Definition kv_decodes (x : kv) (d : bytes * Timestamp * bytes) : Prop := DecodeKey x.1 = Ok d.1 /\ d.2 = x.2.

Lemma decode_one x d rest :
  kv_ok x -> kv_decodes x d -> Z.of_nat (length (enc_kv x ++ rest)) < 2 ^ 32 ->
  ScanDecodeKeyValue (enc_kv x ++ rest) = Ok (d.1.1, d.1.2, d.2, rest).
Proof.
  intros K (D & V) Len. rewrite length_app, Nat2Z.inj_add, enc_kv_length in Len. unfold kv_ok in K.
  unfold ScanDecodeKeyValue. rewrite length_app, Nat2Z.inj_add, enc_kv_length. pose proof (kv_size_pos x).
  replace (_ <? 8) with false by lia. unfold kv_size, pebbleResultsKVSizeOf in *.
  unfold enc_kv. revert K D V Len H. generalize x.1, x.2. intros k v K D V Len H. rewrite <- !app_assoc.
  rewrite (slice_0 (le32 (Z.of_nat (length v)))) by (rewrite le32_length; lia).
  rewrite (slice_app (le32 (Z.of_nat (length v))) (le32 (Z.of_nat (length k)))) by (rewrite ?le32_length; lia).
  rewrite !le_uint_le32 by (unfold isU; lia). rewrite !wrapU_id by (unfold isU; rewrite ?wrapU_id by (unfold isU; lia); lia).
  replace (_ <? _) with false by lia. replace (_ || _) with false by lia. rewrite app_assoc.
  set (pre := le32 _ ++ le32 _). assert (Pre : Z.of_nat (length pre) = 8) by (unfold pre; rewrite length_app, !le32_length; lia).
  clearbody pre. rewrite (slice_app pre k (v ++ rest) 8) by lia. rewrite D. cbn [mbind res_bind]. destruct d as [[dk dt] dv]. cbn in *. subst dv.
  rewrite (app_assoc pre), (slice_app (pre ++ k) v) by (rewrite length_app; lia).
  rewrite (app_assoc (pre ++ k)), drop_app_length' by (rewrite !length_app; lia). done.
Qed.

Lemma calls_app {A} fn (a : A) d1 d2 : calls fn a (d1 ++ d2) = (a ← calls fn a d1; calls fn a d2).
Proof. revert a. induction d1 as [|[[k ts] v] d1 IH]; intros a; cbn; [done|]. destruct (fn a k ts v); cbn; [apply IH|done..]. Qed.

Lemma calls_collect l ds : calls collect l ds = Ok (l ++ ds).
Proof. revert l. induction ds as [|[[k ts] v] ds IH]; intros l; cbn; [by rewrite app_nil_r|]. by rewrite IH, <- app_assoc. Qed.

Lemma decode_group {A} fn (a : A) fuel g ds :
  Forall kv_ok g -> Forall2 kv_decodes g ds -> Z.of_nat (length (enc g)) < 2 ^ 32 -> (length g <= fuel)%nat ->
  decode_batch fn fuel a (enc g) = calls fn a ds.
Proof.
  intros K D. revert fuel a. induction D as [|x d g ds Dx D IH]; intros fuel a Len Fu; [by destruct fuel|].
  inversion K. subst. cbn [enc] in *. cbn in Fu. destruct fuel as [|fuel]; [lia|]. cbn [decode_batch].
  pose proof (enc_kv_length x). pose proof (kv_size_pos x).
  destruct (enc_kv x ++ enc g) as [|b bs] eqn:E; [apply (f_equal (@length _)) in E; rewrite length_app in E; cbn in E; lia|].
  rewrite <- E in *. rewrite (decode_one x d) by done. cbn [mbind res_bind]. rewrite length_app in Len.
  destruct d as [[k ts] v]. cbn. destruct (fn a k ts v); cbn; [|done..]. apply IH; [done|lia..].
Qed.

Lemma length_enc g : (length g <= length (enc g))%nat.
Proof. induction g as [|x g IH]; cbn; [lia|]. rewrite length_app. pose proof (enc_kv_length x). pose proof (kv_size_pos x). lia. Qed.

Lemma decode_groups {A} fn (a : A) groups ds :
  Forall (Forall kv_ok) groups -> Forall2 kv_decodes (concat groups) ds ->
  Forall (fun b => Z.of_nat (length b) < 2 ^ 32) (enc <$> groups) -> ScanDecodeKeyValues fn a (enc <$> groups) = calls fn a ds.
Proof.
  intros K. revert ds a. induction K as [|g groups Kg K IH]; intros ds a D Len; cbn in *; [by inversion D|].
  apply Forall2_app_inv_l in D as (d1 & d2 & D1 & D2 & ->). inversion Len. subst.
  rewrite (decode_group fn a _ g d1) by (try done; apply length_enc). rewrite calls_app.
  destruct (calls fn a d1); cbn; [by apply IH|done..].
Qed.

Lemma finish_enc m p groups g : rep_with m p groups g -> (g = [] -> groups = []) ->
  results_finish p = enc <$> (if decide (g = []) then groups else groups ++ [g]).
Proof.
  intros Rp Last. unfold results_finish. rewrite (b_len_enc _ _ (rp_repr _ _ _ _ Rp)). case_decide as Hg.
  - subst g. cbn. apply Rp.
  - pose proof (total_pos _ Hg). replace (0 <? total g) with true by lia. rewrite !fmap_app, (rp_bufs _ _ _ _ Rp). cbn.
    by rewrite (rp_repr _ _ _ _ Rp).
Qed.

Lemma finish_decodes {A} fn (a : A) p kvs ds :
  returns_kvs p kvs -> Forall2 kv_decodes kvs ds -> ScanDecodeKeyValues fn a (results_finish p) = calls fn a ds.
Proof.
  intros (groups & g & -> & Last & Rp) D. rewrite (finish_enc _ _ _ _ Rp Last).
  assert (C : concat (if decide (g = []) then groups else groups ++ [g]) = concat groups ++ g).
  { case_decide as Hg; [subst; by rewrite app_nil_r|]. rewrite concat_app. cbn. by rewrite app_nil_r. }
  apply decode_groups; [|by rewrite C|].
  - apply Forall_concat. rewrite C. apply Rp.
  - rewrite <- (finish_enc _ _ _ _ Rp Last). unfold results_finish. apply Forall_fmap. pose proof (rp_caps _ _ _ _ Rp) as Cs.
    inversion Cs as [|? ? C1 C2]. apply (Forall_impl (fun b => b_len b <= b_cap b < 2 ^ 32)); [|intros b; unfold b_len; cbn; lia].
    destruct (0 <? b_len (pr_repr p)); [|done]. apply Forall_app. split; [done|]. by apply Forall_singleton.
Qed.

Lemma DecodeKey_enc k : ts_wf (k_Timestamp k) -> DecodeKey (mvcc_bytes k) = Ok (k_Key k, k_Timestamp k).
Proof.
  intros W. pose proof (DecodeMVCCKey_enc k W) as D. unfold DecodeMVCCKey in D.
  destruct (DecodeKey (mvcc_bytes k)) as [[??]| |]; [|done..]. cbn in D. by injection D as <-.
Qed.

(** * Claims *)

Section Claims.
Context `{L : ScanLib}.

(** C37: The buffers, the running totals and the ring of offsets of a result set are a list of
    pairs: [put] appends one, whatever buffer it goes to (and fails only if the pair exceeds the
    allowed size or memory is refused); [sizeInfo] gives the list's length and size;
    [continuesFirstRow] and [lastRowHasFinalColumnFamily] look at its first and last pair; and
    [maybeTrimPartialLastRow] takes the pairs of the given row off its end, across buffers, or
    fails if the row has more pairs than the ring. *)
Theorem results_refine p a kvs key value maxNewSize nextKey reverse :
  holds p kvs -> kv_ok (key, value) ->
  (match results_put p a key value maxNewSize with
   | Ok (p', _) => holds p' (kvs ++ [(key, value)])
   | _ => 0 < maxNewSize < kv_size (key, value) \/ (exists n, forall a', Grow a n <> Ok a')
   end) /\
  results_sizeInfo p (Z.of_nat (length key)) (Z.of_nat (length value))
    = (Z.of_nat (length kvs), total kvs, kv_size (key, value)) /\
  results_continuesFirstRow p nextKey = list_continues kvs nextKey /\
  (pr_lastOffsetsEnabled p = true -> forall init x, kvs = init ++ [x] ->
     results_lastRowHasFinalColumnFamily p reverse
     = keyHasFinalColumnFamily (kv_user x) (u32 (Z.of_nat (length (pr_lastOffsets p)) - 1)) reverse) /\
  sim (fun b c => returns_kvs b.1 c.1 /\ b.2 = c.2) (results_maybeTrimPartialLastRow p nextKey)
    (list_trim_last (length (pr_lastOffsets p)) (pr_lastOffsetsEnabled p) kvs nextKey).
Proof.
  intros H K. pose proof H as (groups & g & -> & Last & Rp).
  split; [|split; [|split; [|split]]]; [| |by eapply continues_first| |by apply maybeTrim_ok].
  - pose proof (put_appends p a key value maxNewSize _ H K) as P. destruct (results_put _ _ _ _ _) as [[p' a']| |]; [apply P|done..].
  - unfold results_sizeInfo. by rewrite (rp_count _ _ _ _ Rp), (rp_bytes _ _ _ _ Rp).
  - intros En init x E. destruct g as [|y g _] using rev_ind; [rewrite Last in E by done; by destruct init|].
    rewrite app_assoc in E. apply app_inj_tail in E as [_ ->]. destruct (rp_ring _ _ _ _ Rp En) as (I & _).
    destruct (length (pr_lastOffsets p)) as [|m] eqn:N; [cbn in I; lia|]. rewrite <- N. by eapply last_row.
Qed.
End Claims.

(** What a result set returns decodes to its pairs: decoding the finished buffers calls back
    with exactly the keys, timestamps and values that were put, in order. *)
Theorem results_roundtrip p l :
  returns_kvs p ((fun x => (mvcc_bytes x.1, x.2)) <$> l) -> Forall (fun x => ts_wf (k_Timestamp x.1)) l ->
  ScanDecodeKeyValues collect [] (results_finish p) = Ok ((fun x : MVCCKey * bytes => (k_Key x.1, k_Timestamp x.1, x.2)) <$> l).
Proof.
  intros R W. rewrite <- (app_nil_l (_ <$> l)), <- calls_collect. eapply finish_decodes; [done|]. clear R. induction W as [|x l Wx W IH]; cbn; [constructor|].
  constructor; [|done]. split; [|done]. by apply DecodeKey_enc.
Qed.
