(* ===== verification/ScanRead.v ===== *)
(** What a consistent read sees.

    For every key the value a reader at a timestamp sees is given from the key's versions, its
    intent and the range tombstones over it ([verdict_of]), without reference to how a scan goes
    about it.  The reference scan with pebble's results collects these values, key by key in the
    direction of the scan, up to the limit of keys; intents of other transactions at or below
    the timestamp are collected as conflicts. *)
From stdpp Require Import sorting.
From S2P Require Import Prelude Bytes GoLib Hlc KeyOps Spans MvccKey RangeKeys MvccValue MvccIter Scanner ScanSpec ScanNav ScanOk SqlKeys PebbleResults.

(** What is documented of Pebble's batches, and of an account that never refuses. *)
Class ScanLaws (L : ScanLib) := {
  batch_entries : batch -> list (bytes * bytes);
  entries_empty : batch_entries batch_empty = [];
  entries_Set b k v : exists b', batch_Set b k v = Ok b' /\ batch_entries b' = batch_entries b ++ [(k, v)];
  entries_Count b : batch_Count b = Z.of_nat (length (batch_entries b));
  Grow_ok a n : exists a', Grow a n = Ok a'
}.

(** * What a reader sees of a key *)

Inductive verdict :=
  | Sees (x : MVCCKey * bytes)
  | SeesNothing
  | Conflicts
  | Fails.

Section Verdict.
Context `{L : ScanLib} (c : config) (db : snapshot).

Definition raw_value (v : bytes) : bytes := match DecodeMVCCValue v with Ok x => RawBytes x | _ => [] end.

(** The newest range tombstone the reader sees at a key, if it covers the timestamp. *)
Definition cover (key : bytes) (t : Timestamp) : option MVCCRangeKeyVersion :=
  match head (List.filter (at_most (c_ts c)) (Versions (stack_at db key))) with
  | Some rkv => if Timestamp_LessEq t (v_Timestamp rkv) then Some rkv else None
  | None => None
  end.

Definition see (q : pos) : MVCCKey * bytes :=
  match cover (q_user q) (q_ts q) with
  | Some rkv => (MkMVCCKey (q_user q) (v_Timestamp rkv), raw_value (v_Value rkv))
  | None => (q_key q, raw_value (default [] (q_val q)))
  end.

(** The newest version at or below a timestamp. *)
Definition look (t : Timestamp) (vs : list pos) : verdict :=
  match head (List.filter (at_or_below t) vs) with
  | Some q => Sees (see q)
  | None => SeesNothing
  end.

(** At the reader's own intent. *)
Definition look_own (key : bytes) (meta : MVCCMetadata) (txn : TxnMeta) (metaTS prevTS : Timestamp) (vs : list pos) : verdict :=
  if txnEpoch c =? t_Epoch txn then
    if (t_Sequence txn <=? txnSequence c) && negb (TxnSeqIsIgnored (t_Sequence txn) (txnIgnoredSeqNums c))
    then look metaTS vs
    else
      match getFromIntentHistory c meta with
      | Some v => match DecodeMVCCValue v with Ok x => Sees (MkMVCCKey key metaTS, RawBytes x) | _ => Fails end
      | None => look prevTS vs
      end
  else if txnEpoch c <? t_Epoch txn then Fails else look prevTS vs.

Definition own_intent (txn : TxnMeta) : bool :=
  match c_txn c with Some t => beqb (t_ID txn) (t_ID (tx_Meta t)) | None => false end.

Definition look_meta (q : pos) (meta : MVCCMetadata) (vs : list pos) : verdict :=
  if negb (length (raw_bytes meta) =? 0)%nat then Sees (q_key q, raw_bytes meta)
  else
    match m_Txn meta with
    | None => Fails
    | Some txn =>
        let metaTS := LegacyTimestamp_ToTimestamp (m_Timestamp meta) in
        match (if Timestamp_LessEq metaTS (c_ts c) then Timestamp_Prev metaTS else Ok (c_ts c)) with
        | Ok prevTS =>
            if own_intent txn then look_own (q_user q) meta txn metaTS prevTS vs
            else if Timestamp_LessEq metaTS (c_ts c) then Conflicts else look (c_ts c) vs
        | _ => Fails
        end
    end.

Definition verdict_of (key : bytes) : verdict :=
  match points db key with
  | [] => SeesNothing
  | q :: vs =>
      if negb (Timestamp_IsEmpty (q_ts q)) then look (c_ts c) (q :: vs)
      else
        match default [] (q_val q) with
        | [] => Fails
        | v => match UnmarshalMeta v with Ok meta => look_meta q meta vs | _ => Fails end
        end
  end.

(** The pairs and the conflicts that a key contributes. *)
Definition emit (x : MVCCKey * bytes) : list (MVCCKey * bytes) :=
  if (length x.2 =? 0)%nat && negb (c_tombstones c) then [] else [x].
Definition shown (key : bytes) : list (MVCCKey * bytes) := match verdict_of key with Sees x => emit x | _ => [] end.
Definition conflict (key : bytes) : list (bytes * bytes) :=
  match verdict_of key, points db key with
  | Conflicts, q :: _ => [(mvcc_bytes (q_key q), default [] (q_val q))]
  | _, _ => []
  end.

(** Values decode. *)
Definition decodable : Prop :=
  Forall (fun q => q_ts q <> EmptyTimestamp -> exists x, DecodeMVCCValue (default [] (q_val q)) = Ok x) (positions db) /\
  Forall (fun s => Forall (fun v => exists x, DecodeMVCCValue (v_Value v) = Ok x) (Versions s)) (stacks db).

(** A consistent read without uncertainty, with at most a limit on keys. *)
Record plain : Prop := {
  pl_uncertainty : checkUncertainty c = false;
  pl_recent : c_failOnMoreRecent c = false;
  pl_skip : c_skipLocked c = false;
  pl_consistent : c_inconsistent c = false;
  pl_bytes : c_targetBytes c = 0;
  pl_intents : c_maxIntents c = 0;
  pl_rows : c_wholeRows c = false
}.

Definition full (n : nat) : bool := (0 <? c_maxKeys c) && (c_maxKeys c <=? Z.of_nat n).

(** The keys that have a point, in the order of a list of positions. *)
Fixpoint scan_keys (last : option bytes) (l : list pos) : list bytes :=
  match l with
  | [] => []
  | q :: l =>
      if has_point q && negb (is_last last q) then q_user q :: scan_keys (Some (q_user q)) l
      else scan_keys last l
  end.
End Verdict.

Definition kv_of (x : MVCCKey * bytes) : bytes * bytes := (mvcc_bytes x.1, x.2).

(** * Reading a key *)

Section Read.
Context `{L : ScanLib} `{!ScanLaws L} (c : config) (db : snapshot) (ok : snapshot_ok db) (dec : decodable db) (pl : plain c).
Implicit Types (o : @out L pebbleResults).

(** What has been collected: pairs and conflicts. *)
Record reading (r : ResumeReason) o (xs : list (MVCCKey * bytes)) (ints : list (bytes * bytes)) : Prop := {
  rd_err : err o = None;
  rd_reason : resumeReason o = r;
  rd_recent : mostRecentTS o = EmptyTimestamp;
  rd_key : resumeKey o = [];
  rd_next : resumeNextBytes o = 0;
  rd_holds : holds (results o) (kv_of <$> xs);
  rd_intents : batch_entries (intents o) = ints
}.

Lemma reading_value r o xs ints v : reading r o xs ints -> reading r (set_value o v None) xs ints.
Proof. intros []. by split. Qed.
Lemma reading_err r o xs ints : reading r o xs ints -> reading r (set_err o None) xs ints.
Proof. intros []. by split. Qed.

(** How reading a pair ends. *)
Definition reads (xs ys : list (MVCCKey * bytes)) (ints : list (bytes * bytes)) (a : res (@out L pebbleResults * (bool * bool))) : Prop :=
  exists o', a = Ok (o', (negb (full c (length (xs ++ ys))), negb (length ys =? 0)%nat)) /\
    reading (if full c (length (xs ++ ys)) then RESUME_KEY_LIMIT else RESUME_UNKNOWN) o' (xs ++ ys) ints.

Lemma reads_nothing o xs ints : reading RESUME_UNKNOWN o xs ints -> full c (length xs) = false -> reads xs [] ints (Ok (o, (true, false))).
Proof. intros R F. exists o. by rewrite app_nil_r, F. Qed.

Lemma add_reads o xs ints x key :
  reading RESUME_UNKNOWN o xs ints -> full c (length xs) = false -> Forall (fun y => kv_ok (kv_of y)) (emit c x) ->
  reads xs (emit c x) ints (add c o key (mvcc_bytes x.1) x.2).
Proof.
  intros R F K. unfold add, emit in *. destruct ((length x.2 =? 0)%nat && negb (c_tombstones c)); [by apply reads_nothing|].
  inversion K as [|? ? Kx _]. subst. rewrite (pl_skip c pl). cbn [mbind res_bind negb]. cbn [r_sizeInfo pebble_Results]. unfold results_sizeInfo.
  rewrite (pl_bytes c pl). replace (0 <? 0) with false by done. cbn [andb].
  pose proof (rd_holds _ _ _ _ R) as H. assert (Cn : pr_count (results o) = Z.of_nat (length xs)).
  { destruct H as (groups & g & E & _ & Rp). rewrite (rp_count _ _ _ _ Rp), <- E. by rewrite length_fmap. }
  unfold full in F. rewrite Cn, F, (rd_reason _ _ _ _ R). cbn [no_reason negb andb mbind res_bind].
  pose proof (put_appends (results o) (memAccount o) _ _ 0 _ H Kx) as P. cbn [r_put pebble_Results].
  destruct (results_put _ _ _ _ _) as [[r' a']|e|e]; cycle 1.
  1-2: exfalso; destruct P as [?|[n G]]; [lia|]; destruct (Grow_ok (memAccount o) n) as [a' E]; by eapply G.
  destruct P as [P _]. rewrite (pl_rows c pl). cbn [negb mbind res_bind].
  assert (Full : (0 <? c_maxKeys c) && (c_maxKeys c <=? Z.of_nat (length xs) + 1) = full c (length (xs ++ [x]))).
  { unfold full. rewrite length_app. cbn. repeat f_equal. lia. }
  rewrite Full. unfold reads. destruct R. destruct (full c (length (xs ++ [x]))); eexists; (split; [done|]); split; cbn; try done.
  all: by rewrite fmap_app.
Qed.

(** ** The version a read picks *)

Lemma stack_at_ok key : stack_at db key = EmptyStack \/ stack_ok (stack_at db key) /\ stack_at db key ∈ stacks db.
Proof.
  unfold stack_at. destruct (List.find _ _) as [st|] eqn:E; [|by left]. right. apply List.find_some in E as [I _].
  pose proof (ok_stacks db ok) as S. rewrite List.Forall_forall in S. split; [by apply S|by apply list_elem_of_In].
Qed.

Lemma newest_covers v t : newest_first v -> Timestamp_LessEq t (Versions_Newest v) = false ->
  forall x, In x v -> Timestamp_LessEq t (v_Timestamp x) = false.
Proof.
  intros S N x I. destruct v as [|y v]; [done|]. cbn in N. destruct I as [->|I]; [done|].
  inversion S as [|? ? _ F]. subst. rewrite List.Forall_forall in F. specialize (F x I). unfold newer in F.
  destruct (Timestamp_LessEq t (v_Timestamp x)) eqn:X; [|done]. rewrite <- N. symmetry.
  exact (le_ts_trans _ _ _ X (lt_le_ts _ _ F)).
Qed.

Lemma covered_spec q : coveredByRangeKey c (cur_of db q) (q_ts q) = cover c db (q_user q) (q_ts q).
Proof.
  unfold coveredByRangeKey, doCoveredByRangeKey, cover. cbn [curRangeKeys cur_of]. unfold the_stack.
  destruct (stack_at_ok (q_user q)) as [->|((Ne & S & _) & _)]; [done|].
  destruct (Versions (stack_at db (q_user q))) as [|x v] eqn:Ev; [done|]. rewrite <- Ev in *.
  replace (0 <? length _)%nat with true by (rewrite Ev; done). rewrite FirstAtOrBelow_head by done.
  destruct (c_tombstones c || _) eqn:N; [done|]. apply orb_false_iff in N as [_ N].
  destruct (head _) as [y|] eqn:Hd; [|done]. rewrite (newest_covers _ _ S N); [done|].
  apply head_Some_elem_of, list_elem_of_In, List.filter_In in Hd. by destruct Hd.
Qed.

(** A seen version is of a range tombstone or of the position itself. *)
Lemma synthetic_reads o xs ints key rkv :
  reading RESUME_UNKNOWN o xs ints -> full c (length xs) = false -> rkv ∈ Versions (stack_at db key) ->
  let x := (MkMVCCKey key (v_Timestamp rkv), raw_value (v_Value rkv)) in
  Forall (fun y => kv_ok (kv_of y)) (emit c x) -> reads xs (emit c x) ints (addSynthetic c o key rkv).
Proof.
  intros R F I x K. unfold addSynthetic. rewrite EncodeMVCCKeyToBuf_eq. cbn [mbind res_bind].
  assert (exists v, DecodeMVCCValue (v_Value rkv) = Ok v) as [v E].
  { destruct (stack_at_ok key) as [E|[_ In]]; [rewrite E in I; by inversion I|]. destruct dec as [_ D].
    rewrite List.Forall_forall in D. specialize (D _ (proj1 (list_elem_of_In _ _) In)). rewrite List.Forall_forall in D.
    apply D. by apply list_elem_of_In. }
  rewrite E. unfold x, raw_value in *. rewrite E in *. apply (add_reads _ xs ints (MkMVCCKey key (v_Timestamp rkv), RawBytes v)); [by apply reading_err|done|done].
Qed.

Lemma cover_in key t rkv : cover c db key t = Some rkv -> rkv ∈ Versions (stack_at db key).
Proof.
  unfold cover. destruct (head _) as [y|] eqn:Hd; [|done]. case_match; [|done]. intros [= <-].
  apply head_Some_elem_of, list_elem_of_In, List.filter_In in Hd. apply list_elem_of_In. by destruct Hd.
Qed.

Definition version_at (q : pos) : Prop := q ∈ positions db /\ q_ts q <> EmptyTimestamp.

Lemma version_value q : version_at q -> exists x, DecodeMVCCValue (default [] (q_val q)) = Ok x.
Proof.
  intros [I N]. destruct dec as [D _]. rewrite List.Forall_forall in D. apply D; [by apply list_elem_of_In|done].
Qed.

Lemma candidate_reads o xs ints q :
  reading RESUME_UNKNOWN o xs ints -> full c (length xs) = false -> version_at q ->
  Forall (fun y => kv_ok (kv_of y)) (emit c (see c db q)) ->
  exists a, seek_candidate c o (cur_of db q) false = ('(o, r) ← a; Ok (o, Some r)) /\ reads xs (emit c (see c db q)) ints a.
Proof.
  intros R F V K. destruct (version_value q V) as [x Ex]. unfold seek_candidate, getFromLazyValue. cbn [cur_of curRawValue mbind res_bind].
  unfold decodeCurrentValue. rewrite Ex. cbn [mbind res_bind negb orb]. change (k_Timestamp _) with (q_ts q).
  rewrite covered_spec. eexists. split; [done|]. pose proof (reading_value _ _ _ _ x R) as R'. unfold see in *.
  destruct (cover c db (q_user q) (q_ts q)) as [rkv|] eqn:Cv.
  - apply synthetic_reads; [done|done|by eapply cover_in|done].
  - unfold add_current. cbn [curUnsafeKey curRawKey curUnsafeValue set_value cur_of]. unfold raw_value in *. rewrite Ex in *.
    apply (add_reads _ xs ints (q_key q, RawBytes x)); done.
Qed.

Definition pairs (v : verdict) : list (MVCCKey * bytes) := match v with Sees x => emit c x | _ => [] end.
Definition pairs_ok (v : verdict) : Prop := Forall (fun y => kv_ok (kv_of y)) (pairs v).

Lemma empty_below q : q ∈ positions db -> q_ts q <> EmptyTimestamp -> Timestamp_IsEmpty (q_ts q) = false.
Proof.
  intros I N. pose proof (ok_pos db ok) as P. rewrite List.Forall_forall in P. destruct (P q (proj1 (list_elem_of_In _ _) I)) as [_ [?|(_ & Lt & _)]]; [done|].
  unfold Timestamp_IsEmpty. destruct (q_ts q) as [w l sy]. ts.
Qed.

Lemma none_below t vs : Forall version_at vs -> Timestamp_IsEmpty t = true -> List.filter (at_or_below t) vs = [].
Proof.
  intros V E. apply filter_none. eapply Forall_impl; [exact V|]. intros q [I N]. unfold at_or_below.
  pose proof (ok_pos db ok) as P. rewrite List.Forall_forall in P.
  destruct (P q (proj1 (list_elem_of_In _ _) I)) as [_ [?|(_ & Lt & _)]]; [done|].
  destruct (Timestamp_LessEq (q_ts q) t) eqn:X; [|done]. assert (Y : lt_ts EmptyTimestamp t).
  { revert Lt X. generalize EmptyTimestamp. intros e Lt X. ts. }
  unfold Timestamp_IsEmpty in E. destruct t as [w l sy]. cbn in E.
  apply andb_true_iff in E as [[E1%Z.eqb_eq E2%Z.eqb_eq]%andb_true_iff _]. subst. ts.
Qed.

Lemma look_reads o xs ints t vs :
  reading RESUME_UNKNOWN o xs ints -> full c (length xs) = false -> Forall version_at vs -> pairs_ok (look c db t vs) ->
  reads xs (pairs (look c db t vs)) ints (read_at c db o vs t false).
Proof.
  intros R F V. unfold read_at, look. destruct (Timestamp_IsEmpty t) eqn:Et.
  { rewrite none_below by done. cbn. intros _. by apply reads_nothing. }
  destruct (List.filter _ vs) as [|q l] eqn:Ef; cbn; [intros _; by apply reads_nothing|]. intros K.
  assert (Vq : version_at q).
  { rewrite List.Forall_forall in V. apply V. assert (I : In q (List.filter (at_or_below t) vs)) by (rewrite Ef; by left). apply List.filter_In in I. by destruct I. }
  destruct (candidate_reads o xs ints q R F Vq K) as (a & -> & (o' & -> & Rd)). cbn. by exists o'.
Qed.

(** ** The points of a key *)

(** The points after the first are versions; without metadata, all are. *)
Lemma points_versions key q vs : points db key = q :: vs ->
  q_user q = key /\ q ∈ positions db /\ has_point q = true /\ Forall version_at vs.
Proof.
  intros E. assert (I : In q (points db key)) by (rewrite E; by left). unfold points in *. apply List.filter_In in I as [I K].
  apply andb_true_iff in K as [K H]. apply beqb_true in K. rewrite list_elem_of_In. split; [done|]. split; [done|]. split; [done|].
  assert (exists l r, positions db = l ++ q :: r /\ vs = List.filter (fun x => is_key key x && has_point x) r) as (l & r & Es & ->).
  { clear I K H. revert E. induction (positions db) as [|x l IH]; [done|]. cbn. destruct (is_key key x && has_point x) eqn:X.
    - intros [= -> <-]. by exists [], l.
    - intros E. destruct (IH E) as (l' & r & -> & ->). by exists (x :: l'), r. }
  pose proof (later_version db ok _ _ _ Es) as V. apply List.Forall_forall. intros x Ix. apply List.filter_In in Ix as [Ix Kx].
  apply andb_true_iff in Kx as [Kx _]. rewrite List.Forall_forall in V. destruct (V x Ix) as [N _]; [by rewrite K|].
  split; [|done]. apply list_elem_of_In. rewrite Es. apply in_or_app. right. by right.
Qed.

(** What [read_key] does after the cases. *)
Definition finish_key (vs : list pos) (a : res (@out L pebbleResults * action)) : res (@out L pebbleResults * (bool * bool)) :=
  '(o, a) ← a;
  match a with
  | Return _ r => Ok (o, r)
  | SeekVersion t unc => read_at c db o vs t unc
  end.

Lemma finish_returns xs ys ints vs a : reads xs ys ints a -> reads xs ys ints (finish_key vs (returns a)).
Proof. intros (o' & -> & R). by exists o'. Qed.

Lemma LessEq_or t s : Timestamp_LessEq t s = Timestamp_Less t s || Timestamp_EqOrdering t s.
Proof. ts. Qed.

Lemma version_reads o xs ints q vs :
  reading RESUME_UNKNOWN o xs ints -> full c (length xs) = false -> version_at q -> Forall version_at vs ->
  pairs_ok (look c db (c_ts c) (q :: vs)) ->
  reads xs (pairs (look c db (c_ts c) (q :: vs))) ints (finish_key vs (getOne_version c o (cur_of db q))).
Proof.
  intros R F V Vs K. unfold getOne_version. cbn [curUnsafeKey cur_of]. change (k_Timestamp (q_key q)) with (q_ts q). rewrite covered_spec.
  destruct (version_value q V) as [x Ex]. unfold look in *. cbn [List.filter] in *. change (at_or_below (c_ts c) q) with (Timestamp_LessEq (q_ts q) (c_ts c)) in *.
  destruct (Timestamp_LessEq (q_ts q) (c_ts c)) eqn:Le.
  - cbn [head] in *. unfold see in *. cbn [pairs pairs_ok] in *. destruct (cover c db (q_user q) (q_ts q)) as [rkv|] eqn:Cv.
    + apply finish_returns, synthetic_reads; [done|done|by eapply cover_in|done].
    + unfold getFromLazyValue, decodeCurrentValue. cbn [cur_of curRawValue mbind res_bind]. rewrite Ex. cbn [mbind res_bind negb].
      assert (A : reads xs (emit c (q_key q, RawBytes x)) ints (add_current c (set_value o x None) (cur_of db q))).
      { unfold add_current. cbn. unfold raw_value in K. rewrite Ex in K. apply (add_reads _ xs ints (q_key q, RawBytes x)); [by apply reading_value|done|done]. }
      unfold raw_value. rewrite Ex. rewrite LessEq_or in Le. destruct (Timestamp_Less _ _); [by apply finish_returns|].
      cbn in Le. rewrite Le, (pl_recent c pl). by apply finish_returns.
  - assert (cover c db (q_user q) (q_ts q) = None) as ->.
    { unfold cover. clear K. destruct (head _) as [y|] eqn:Hd; [|done]. destruct (Timestamp_LessEq (q_ts q) (v_Timestamp y)) eqn:Y; [|done].
      apply head_Some_elem_of, list_elem_of_In, List.filter_In in Hd as [_ Hd]. unfold at_most in Hd.
      pose proof (le_ts_trans _ _ _ Y Hd) as X. unfold le_ts in X. congruence. }
    unfold getFromLazyValue, decodeCurrentValue. cbn [cur_of curRawValue mbind res_bind]. rewrite Ex. cbn [mbind res_bind negb].
    rewrite LessEq_or in Le. apply orb_false_iff in Le as [-> ->]. rewrite (pl_recent c pl), (pl_uncertainty c pl). cbn [finish_key mbind res_bind].
    apply look_reads; [by apply reading_value|done|done|done].
Qed.

Lemma seek_reads o xs ints t vs :
  reading RESUME_UNKNOWN o xs ints -> full c (length xs) = false -> Forall version_at vs -> pairs_ok (look c db t vs) ->
  reads xs (pairs (look c db t vs)) ints (finish_key vs (Ok (o, SeekVersion t false))).
Proof. apply look_reads. Qed.

Lemma own_reads o xs ints q meta txn metaTS prevTS vs :
  reading RESUME_UNKNOWN o xs ints -> full c (length xs) = false -> Forall version_at vs ->
  let v := look_own c db (q_user q) meta txn metaTS prevTS vs in
  v <> Fails -> pairs_ok v -> reads xs (pairs v) ints (finish_key vs (getOne_own c o (cur_of db q) meta txn metaTS prevTS)).
Proof.
  intros R F Vs v Nf K. unfold v, look_own, getOne_own in *. clear v. destruct (txnEpoch c =? t_Epoch txn).
  - destruct ((_ <=? _) && _); [by apply seek_reads|]. destruct (getFromIntentHistory c meta) as [h|]; [|by apply seek_reads].
    rewrite EncodeMVCCKeyToBuf_eq. cbn [mbind res_bind]. unfold decodeCurrentValue.
    destruct (DecodeMVCCValue h) as [x| |]; [|done..]. cbn [mbind res_bind negb].
    destruct (add_reads (set_value o x None) xs ints (MkMVCCKey (q_user q) metaTS, RawBytes x) (q_user q)) as (o' & E & R'); [by apply reading_value|done|done|].
    change (k_Key (curUnsafeKey (cur_of db q))) with (q_user q). cbn [curUnsafeValue set_value fst snd] in *. rewrite E. by exists o'.
  - destruct (txnEpoch c <? t_Epoch txn); [done|]. by apply seek_reads.
Qed.

(** Another transaction's intent is collected if it is at or below the read timestamp. *)
Lemma foreign_reads o xs ints q metaTS prevTS vs :
  reading RESUME_UNKNOWN o xs ints -> full c (length xs) = false -> Forall version_at vs ->
  let v := if Timestamp_LessEq metaTS (c_ts c) then Conflicts else look c db (c_ts c) vs in
  pairs_ok v ->
  reads xs (pairs v) (ints ++ match v with Conflicts => [(mvcc_bytes (q_key q), default [] (q_val q))] | _ => [] end)
    (finish_key vs (getOne_foreign c o (cur_of db q) metaTS prevTS)).
Proof.
  intros R F Vs v K. unfold getOne_foreign, v in *. clear v. rewrite (pl_recent c pl), orb_false_r, (pl_uncertainty c pl), (pl_consistent c pl), (pl_skip c pl), (pl_intents c pl).
  destruct (Timestamp_LessEq metaTS (c_ts c)); cbn [negb].
  - unfold addCurIntent, getFromLazyValue. cbn [cur_of curRawValue curRawKey mbind res_bind]. unfold addRawIntent.
    destruct (Grow_ok (memAccount o) (Z.of_nat (length (mvcc_bytes (q_key q)) + length (default [] (q_val q))))) as [a ->].
    destruct (entries_Set (intents o) (mvcc_bytes (q_key q)) (default [] (q_val q))) as (b & -> & Eb). cbn [mbind res_bind negb andb].
    replace (0 <? 0) with false by done. cbn [andb finish_key mbind res_bind]. apply reads_nothing; [|done].
    destruct R. split; cbn; try done. by rewrite Eb, rd_intents0.
  - assert (match look c db (c_ts c) vs with Conflicts => [(mvcc_bytes (q_key q), default [] (q_val q))] | _ => [] end = []) as ->.
    { unfold look. by destruct (head _). }
    rewrite app_nil_r. by apply seek_reads.
Qed.

(** Reading a key collects what the reader sees of it. *)
Lemma key_reads o xs ints key :
  reading RESUME_UNKNOWN o xs ints -> full c (length xs) = false -> verdict_of c db key <> Fails ->
  Forall (fun y => kv_ok (kv_of y)) (shown c db key) ->
  reads xs (shown c db key) (ints ++ conflict c db key) (read_key c db o key).
Proof.
  intros R F. unfold shown, conflict, read_key, verdict_of. destruct (points db key) as [|q vs] eqn:E.
  { intros _ _. rewrite app_nil_r. by apply reads_nothing. }
  destruct (points_versions key q vs E) as (U & I & H & Vs). change (mbind _ (getOne_cases c o (cur_of db q))) with (finish_key vs (getOne_cases c o (cur_of db q))).
  unfold getOne_cases. cbn [curUnsafeKey cur_of]. change (k_Timestamp (q_key q)) with (q_ts q). change (k_Key (q_key q)) with (q_user q).
  destruct (Timestamp_IsEmpty (q_ts q)) eqn:Em; cbn [negb].
  - unfold decodeCurrentMetadata, getFromLazyValue. cbn [cur_of curRawValue mbind res_bind].
    destruct (default [] (q_val q)) as [|b bs] eqn:Ev; [done|]. rewrite <- Ev. destruct (UnmarshalMeta _) as [meta| |]; [|done..]. cbn [mbind res_bind].
    unfold look_meta. destruct (negb (length (raw_bytes meta) =? 0)%nat).
    { intros _ K. rewrite app_nil_r. apply finish_returns, (add_reads _ xs ints (q_key q, raw_bytes meta)); done. }
    destruct (m_Txn meta) as [txn|]; [|done]. fold (own_intent c txn).
    destruct (if Timestamp_LessEq _ _ then Timestamp_Prev _ else Ok _) as [prevTS| |]; [|done..]. cbn [mbind res_bind].
    destruct (own_intent c txn); cbn [negb]; intros Nf K.
    + pose proof (own_reads o xs ints q meta txn (LegacyTimestamp_ToTimestamp (m_Timestamp meta)) prevTS vs R F Vs Nf K) as G.
      cbv zeta in G. assert (NC : look_own c db (q_user q) meta txn (LegacyTimestamp_ToTimestamp (m_Timestamp meta)) prevTS vs <> Conflicts).
      { unfold look_own, look. repeat case_match; done. }
      destruct (look_own _ _ _ _ _ _ _ _); try done; by rewrite app_nil_r.
    + rewrite Ev. rewrite <- Ev. exact (foreign_reads o xs ints q _ prevTS vs R F Vs K).
  - intros _ K. assert (Vq : version_at q) by (split; [done|]; intros X; by rewrite X in Em).
    assert (match look c db (c_ts c) (q :: vs) with Conflicts => [(mvcc_bytes (q_key q), default [] (q_val q))] | _ => [] end = []) as ->.
    { unfold look. by destruct (head _). }
    rewrite app_nil_r. by apply version_reads.
Qed.

(** ** The walk *)

Lemma encounter_plain o st q : encounter c db o st q = Ok (o, true).
Proof.
  unfold encounter. case_match; [done|]. unfold check_range_keys. by rewrite (pl_recent c pl), (pl_uncertainty c pl).
Qed.

Lemma land_plain last o st l :
  exists l', land c db last o st l = Ok (o, l') /\ head (scan_keys last l) = q_user <$> head l'.
Proof.
  revert st. induction l as [|q l IH]; intros st; cbn; [by exists []|]. rewrite encounter_plain. cbn.
  destruct (has_point q && negb (is_last last q)); [by exists (q :: l)|]. apply IH.
Qed.

(** The keys a walk has read, and what is left. *)
Lemma walk_reads last o st l xs ints :
  reading RESUME_UNKNOWN o xs ints -> full c (length xs) = false ->
  Forall (fun key => verdict_of c db key <> Fails /\ Forall (fun y => kv_ok (kv_of y)) (shown c db key)) (scan_keys last l) ->
  exists ks1 ks2 o' l' (stop : bool), walk c db last o st l = Ok (o', l') /\ scan_keys last l = ks1 ++ ks2 /\
    let ys := xs ++ (ks1 ≫= shown c db) in
    full c (length ys) = stop /\ (forall ks k, ks1 = ks ++ [k] -> full c (length (xs ++ (ks ≫= shown c db))) = false) /\
    reading (if stop then RESUME_KEY_LIMIT else RESUME_UNKNOWN) o' ys (ints ++ (ks1 ≫= conflict c db)) /\
    if stop then exists q l2, l' = q :: l2 /\ ks2 = scan_keys (Some (q_user q)) l2 else l' = [] /\ ks2 = [].
Proof.
  revert last o st xs ints. induction l as [|q l IH]; intros last o st xs ints R F K; cbn [walk scan_keys] in *.
  { exists [], [], o, [], false. cbn. rewrite !app_nil_r. split_and!; try done. intros ks k E. by destruct ks. }
  rewrite encounter_plain. cbn [mbind res_bind negb]. destruct (has_point q && negb (is_last last q)); [|by apply IH].
  inversion K as [|? ? [Nf Kq] K']. subst. destruct (key_reads o xs ints (q_user q) R F Nf Kq) as (o1 & E & R1). rewrite E. cbn [mbind res_bind].
  destruct (full c (length (xs ++ shown c db (q_user q)))) eqn:F1; cbn [negb].
  - exists [q_user q], (scan_keys (Some (q_user q)) l), o1, (q :: l), true. cbn. rewrite !app_nil_r. split_and!; try done; [|eauto].
    intros ks k Ek. destruct ks as [|? ks]; [cbn; by rewrite app_nil_r|]. injection Ek as _ Ek. by destruct ks.
  - destruct (IH (Some (q_user q)) o1 (the_stack db q) _ _ R1 F1 K') as (ks1 & ks2 & o2 & l2 & stop & -> & -> & F2 & P2 & R2 & Q).
    exists (q_user q :: ks1), ks2, o2, l2, stop. cbn. rewrite !app_assoc. split_and!; try done.
    intros ks k Ek. destruct ks as [|k0 ks]; [cbn; by rewrite app_nil_r|]. injection Ek as <- ->. rewrite bind_cons, app_assoc. by apply (P2 ks k).
Qed.

Lemma start_reading r a : holds r [] -> reading RESUME_UNKNOWN (MkOut r batch_empty a EmptyValue EmptyTimestamp [] None RESUME_UNKNOWN [] 0) [] [].
Proof. intros H. split; cbn; try done. apply entries_empty. Qed.

(** The scan reads the keys in order up to the limit, and resumes at the next key. *)
Lemma reference_reads o :
  0 <= c_maxKeys c -> reading RESUME_UNKNOWN o [] [] ->
  let keys := scan_keys None (itinerary c db) in
  Forall (fun key => verdict_of c db key <> Fails /\ Forall (fun y => kv_ok (kv_of y)) (shown c db key)) keys ->
  exists ks1 ks2 o', keys = ks1 ++ ks2 /\
    let xs := ks1 ≫= shown c db in
    (c_maxKeys c = 0 -> ks2 = []) /\ (ks2 <> [] -> full c (length xs) = true) /\
    (forall ks k, ks1 = ks ++ [k] -> full c (length (ks ≫= shown c db)) = false) /\
    reference_scan c db o = Ok (o', inl (match ks2 with
                                         | [] => (None, RESUME_UNKNOWN, 0)
                                         | k :: _ => (Some (resume_span c k), RESUME_KEY_LIMIT, 0)
                                         end)) /\
    holds (results o') (kv_of <$> xs) /\ batch_entries (intents o') = (ks1 ≫= conflict c db).
Proof.
  intros Mx R keys K. assert (F : full c (length (@nil (MVCCKey * bytes))) = false) by (unfold full; cbn [length]; destruct (Z.ltb_spec 0 (c_maxKeys c)), (Z.leb_spec (c_maxKeys c) (Z.of_nat 0)); cbn; lia || done).
  destruct (walk_reads None o EmptyStack (itinerary c db) [] [] R F K) as (ks1 & ks2 & o' & l' & stop & W & Ek & Fs & Ps & R' & Q).
  cbn [app] in *. exists ks1, ks2, o'. split; [done|]. cbv zeta. unfold reference_scan. rewrite W. cbn [mbind res_bind]. unfold after_walk, maybeFailOnMoreRecent.
  unfold has_err. rewrite (rd_err _ _ _ _ R'), (rd_recent _ _ _ _ R'). cbn [orb Timestamp_IsEmpty mbind res_bind]. change (Timestamp_IsEmpty EmptyTimestamp) with true. cbn [mbind res_bind]. rewrite ?(rd_err _ _ _ _ R').
  destruct stop.
  - split; [intros M0; unfold full in Fs; rewrite M0 in Fs; done|]. split; [done|]. split; [exact Ps|]. split; [|split; apply R'].
    destruct Q as (q & l2 & -> & ->). rewrite (rd_reason _ _ _ _ R'), (rd_key _ _ _ _ R'). cbn [no_reason length Nat.eqb].
    destruct (land_plain (Some (q_user q)) o' (the_stack db q) l2) as (l3 & -> & Hd). cbn [mbind res_bind].
    destruct (scan_keys _ l2), l3; try done. injection Hd as ->. by rewrite (rd_reason _ _ _ _ R'), (rd_next _ _ _ _ R').
  - destruct Q as [-> ->]. split; [done|]. split; [done|]. split; [exact Ps|]. split; [done|]. split; apply R'.
Qed.
End Read.

(** * The order of the keys *)

Section Order.
Context (lt : bytes -> bytes -> Prop) `{!Transitive lt}.

Definition leq (a b : bytes) : Prop := a = b \/ lt a b.

Lemma scan_keys_sorted last l : StronglySorted (fun x y => leq (q_user x) (q_user y)) l ->
  (forall k, last = Some k -> Forall (fun q => leq k (q_user q)) l) ->
  StronglySorted lt (scan_keys last l) /\ (forall k, last = Some k -> Forall (lt k) (scan_keys last l)).
Proof.
  intros S. revert last. induction S as [|q l S IH F]; intros last Lk; cbn; [by repeat constructor|].
  destruct (has_point q && negb (is_last last q)) eqn:H.
  - destruct (IH (Some (q_user q))) as [S1 F1]; [by intros k [= <-]|]. specialize (F1 _ eq_refl). split; [by constructor|].
    intros k ->. specialize (Lk k eq_refl). inversion Lk as [|? ? [->|Lt] _]. subst.
    + apply andb_true_iff in H as [_ H]. cbn in H. unfold is_key in H. by destruct (beqb_spec (q_user q) (q_user q)).
    + constructor; [done|]. eapply Forall_impl; [exact F1|]. intros y. by apply transitivity.
  - apply IH. intros k ->. specialize (Lk k eq_refl). by inversion Lk.
Qed.

Lemma scan_keys_elem last l k : In k (scan_keys last l) -> exists q, In q l /\ has_point q = true /\ q_user q = k.
Proof.
  revert last. induction l as [|q l IH]; intros last; cbn; [done|]. destruct (has_point q && negb (is_last last q)) eqn:H.
  - intros [<-|I]; [exists q; apply andb_true_iff in H as [H _]; eauto|]. destruct (IH _ I) as (x & ? & ? & ?). eauto.
  - intros I. destruct (IH _ I) as (x & ? & ? & ?). eauto.
Qed.

Lemma scan_keys_all last l q : In q l -> has_point q = true -> last = Some (q_user q) \/ In (q_user q) (scan_keys last l).
Proof.
  revert last. induction l as [|x l IH]; intros last; [done|]. intros [->|I] H; cbn.
  - rewrite H. cbn. destruct last as [k|]; cbn; [|by right; left]. unfold is_key. destruct (beqb_spec (q_user q) k) as [->|]; cbn; [by left|by right; left].
  - destruct (has_point x && negb (is_last last x)).
    + destruct (IH (Some (q_user x)) I H) as [[= ->]|?]; right; cbn; eauto.
    + by apply IH.
Qed.
End Order.

Lemma sorted_impl {A} (R R' : A -> A -> Prop) l : StronglySorted R l -> (forall x y, R x y -> R' x y) -> StronglySorted R' l.
Proof. intros S I. induction S as [|x l S IH F]; constructor; [done|]. eapply Forall_impl; [exact F|]. apply I. Qed.

(** The keys of a scan are those that have a point, in the direction of the scan. *)
Lemma itinerary_keys c db : snapshot_ok db ->
  (forall k, In k (scan_keys None (itinerary c db)) <-> exists q, In q (positions db) /\ has_point q = true /\ q_user q = k) /\
  StronglySorted (if c_reverse c then flip blt else blt) (scan_keys None (itinerary c db)).
Proof.
  intros ok. pose proof (ok_sorted db ok) as S. assert (S1 : StronglySorted (fun x y => leq blt (q_user x) (q_user y)) (positions db)).
  { eapply sorted_impl; [exact S|]. intros x y [Lt|[E _]]%Less_spec; [by right|by left]. }
  assert (T : Transitive blt) by (intros x y z; apply blt_trans).
  unfold itinerary. destruct (c_reverse c).
  - split.
    + intros k. split; [intros I; destruct (scan_keys_elem _ _ _ I) as (q & Iq & ?); exists q; by rewrite in_rev|].
      intros (q & Iq & H & <-). destruct (scan_keys_all None (rev (positions db)) q) as [?|?]; [by rewrite <- in_rev|done|done|done].
    + assert (T' : Transitive (flip blt)) by (intros x y z A B; by eapply blt_trans).
      destruct (scan_keys_sorted (flip blt) None (rev (positions db))) as [S2 _]; [|done|done].
      apply StronglySorted_rev in S1. eapply sorted_impl; [exact S1|]. intros x y [E|Lt]; [by left|by right].
  - assert (E : scan_keys None (if starts_inside c db then MkPos (start_key c) None :: positions db else positions db) = scan_keys None (positions db)) by (by case_match).
    rewrite E. split.
    + intros k. split; [apply scan_keys_elem|]. intros (q & Iq & H & <-). by destruct (scan_keys_all None (positions db) q) as [?|?].
    + by destruct (scan_keys_sorted blt None (positions db)) as [S2 _].
Qed.

(** * Gets *)

Section Get.
Context `{L : ScanLib} `{!ScanLaws L} (c : config) (db : snapshot) (ok : snapshot_ok db) (dec : decodable db) (pl : plain c).
Context (single : Forall (fun q => q_user q = c_start c) (positions db)) (forward : c_reverse c = false) (one : c_maxKeys c = 1).
Implicit Types (o : @out L pebbleResults).

(** With tombstones, a range tombstone stands in for a key of which nothing is seen. *)
Definition stand_in : list (MVCCKey * bytes) :=
  if c_tombstones c then
    match head (List.filter (at_most (c_ts c)) (Versions (stack_at db (c_start c)))) with
    | Some rkv => [(MkMVCCKey (c_start c) (v_Timestamp rkv), raw_value (v_Value rkv))]
    | None => []
    end
  else [].
Definition got : list (MVCCKey * bytes) := match shown c db (c_start c) with [] => stand_in | xs => xs end.

Lemma itinerary_users : Forall (fun q => q_user q = c_start c) (itinerary c db).
Proof. unfold itinerary. rewrite forward. case_match; [|done]. by constructor. Qed.

Lemma FirstAtOrBelow_at key : Versions_FirstAtOrBelow (Versions (stack_at db key)) (c_ts c) = head (List.filter (at_most (c_ts c)) (Versions (stack_at db key))).
Proof. destruct (stack_at_ok db ok key) as [->|((_ & S & _) & _)]; [done|]. by apply FirstAtOrBelow_head. Qed.

Lemma saved_spec : get_saved c db = if c_tombstones c then head (List.filter (at_most (c_ts c)) (Versions (stack_at db (c_start c)))) else None.
Proof.
  unfold get_saved. destruct (c_tombstones c); [|done]. pose proof itinerary_users as U. destruct (itinerary c db) as [|q l] eqn:E.
  - unfold itinerary, starts_inside in E. rewrite forward in E. destruct (positions db); [|by case_match]. cbn in E. rewrite andb_true_r in E.
    unfold Stack_IsEmpty, Versions_IsEmpty in E. destruct (Versions (stack_at db (c_start c))); [done|]. done.
  - inversion U as [|? ? Uq _]. unfold the_stack. rewrite Uq. apply FirstAtOrBelow_at.
Qed.

Lemma maybeFail_reading r o xs ints : reading r o xs ints -> maybeFailOnMoreRecent c o = Ok o.
Proof. intros []. unfold maybeFailOnMoreRecent, has_err. by rewrite rd_err0, rd_recent0. Qed.

(** The value of the key is read where the iterator lands. *)
Lemma landed_get o xs ints :
  reading RESUME_UNKNOWN o xs ints -> full c (length xs) = false -> verdict_of c db (c_start c) <> Fails ->
  Forall (fun y => kv_ok (kv_of y)) (shown c db (c_start c)) ->
  exists o', ('(o, l) ← land c db None o EmptyStack (itinerary c db);
              match l with
              | [] => Ok (o, false)
              | q :: _ => '(o, (_, added)) ← read_key c db o (q_user q); Ok (o, added)
              end) = Ok (o', negb (length (shown c db (c_start c)) =? 0)%nat) /\
    reading (if full c (length (xs ++ shown c db (c_start c))) then RESUME_KEY_LIMIT else RESUME_UNKNOWN) o'
      (xs ++ shown c db (c_start c)) (ints ++ conflict c db (c_start c)).
Proof.
  intros R F Nf K. destruct (land_plain c db pl None o EmptyStack (itinerary c db)) as (l' & -> & Hd). cbn [mbind res_bind].
  destruct (itinerary_keys c db ok) as [El _]. destruct l' as [|q l'].
  - assert (Pt : points db (c_start c) = []).
    { destruct (points db (c_start c)) as [|q vs] eqn:E; [done|]. destruct (points_versions db ok _ q vs E) as (U & I & H & _).
      destruct (scan_keys None (itinerary c db)) eqn:Ek; [|done]. exfalso. apply (proj2 (El (q_user q))). exists q. by rewrite <- list_elem_of_In. }
    unfold shown, conflict, verdict_of. rewrite Pt. cbn. rewrite !app_nil_r, F. by exists o.
  - destruct (scan_keys None (itinerary c db)) as [|k ks] eqn:Ek; [done|]. injection Hd as ->.
    destruct (proj1 (El (q_user q))) as (x & Ix & _ & Ux); [by left|]. rewrite List.Forall_forall in single. rewrite <- Ux, (single x Ix).
    destruct (key_reads c db ok dec pl o xs ints (c_start c) R F Nf K) as (o' & -> & R'). by exists o'.
Qed.

Lemma get_reads o :
  reading RESUME_UNKNOWN o [] [] -> verdict_of c db (c_start c) <> Fails -> Forall (fun y => kv_ok (kv_of y)) got ->
  exists o', reference_get c db o = Ok o' /\ err o' = None /\ holds (results o') (kv_of <$> got) /\
    batch_entries (intents o') = conflict c db (c_start c).
Proof.
  intros R Nf K. assert (F : full c (length (@nil (MVCCKey * bytes))) = false) by (unfold full; by rewrite one).
  assert (Ks : Forall (fun y => kv_ok (kv_of y)) (shown c db (c_start c))) by (unfold got in K; by destruct (shown c db (c_start c))).
  destruct (landed_get o [] [] R F Nf Ks) as (o1 & E1 & R1). cbn [app] in *.
  assert (E : reference_get c db o =
    ('(o, added) ← Ok (o1, negb (length (shown c db (c_start c)) =? 0)%nat);
     o ← maybeFailOnMoreRecent c o;
     match get_saved c db with
     | Some rkv => if negb added && negb (has_err o) then '(o, _) ← addSynthetic c o (c_start c) rkv; Ok o else Ok o
     | None => Ok o
     end)).
  { rewrite <- E1. unfold reference_get. pose proof saved_spec as Sv. unfold get_saved in *. destruct (itinerary c db) eqn:Ei.
    - cbn in E1 |- *. rewrite (maybeFail_reading _ _ _ _ R). cbn. by destruct (c_tombstones c).
    - rewrite res_bind_assoc. by destruct (land _ _ _ _ _ _) as [[? ?]| |]. }
  rewrite E. cbn [mbind res_bind]. rewrite (maybeFail_reading _ _ _ _ R1), saved_spec. cbn [mbind res_bind]. unfold has_err, got in *. rewrite (rd_err _ _ _ _ R1), negb_involutive, andb_true_r.
  destruct (shown c db (c_start c)) as [|x ys]; cbn [length Nat.eqb].
  - unfold stand_in in *. destruct (c_tombstones c) eqn:T; [|exists o1; split; [done|]; by destruct R1].
    destruct (head _) as [rkv|] eqn:Hd; [|exists o1; split; [done|]; by destruct R1].
    assert (Em : forall x, emit c x = [x]) by (intros x; unfold emit; by rewrite T, andb_false_r).
    rewrite F in R1. destruct (synthetic_reads c db ok dec pl o1 [] (conflict c db (c_start c)) (c_start c) rkv R1 F) as (o2 & -> & R2).
    + apply head_Some_elem_of, list_elem_of_In, List.filter_In in Hd. apply list_elem_of_In. by destruct Hd.
    + by rewrite Em.
    + rewrite Em in R2. exists o2. split; [done|]. by destruct R2.
  - exists o1. split; [by destruct (if c_tombstones c then _ else _)|]. by destruct R1.
Qed.
End Get.
