(* ===== verification/MvccRead.v ===== *)
(** Reads of the MVCC store (src/pkg/storage/mvcc.go: [MVCCGet], [MVCCScan] and their kin).

    A read checks its options, sets up an iterator and the scanner, runs it, and turns the
    collected buffers into values and intents.  A Go error without structure is [Err]; the
    errors a caller inspects are values of [read_error].  The reader, which creates iterators,
    and Pebble's batch reader are parameters. *)
From S2P Require Import Prelude Bytes GoLib Hlc KeyOps Spans MvccKey RangeKeys MvccValue MvccIter Scanner ScanSpec SqlKeys PebbleResults.

(** ** Options *)

Inductive IterKind := MVCCKeyAndIntentsIterKind | MVCCKeyIterKind.
Inductive IterKeyType := IterKeyTypePointsOnly | IterKeyTypePointsAndRanges | IterKeyTypeRangesOnly.

Record IterOptions := MkIterOptions {
  io_Prefix : bool;
  io_LowerBound : bytes;
  io_UpperBound : bytes;
  io_KeyTypes : IterKeyType;
  io_RangeKeyMaskingBelow : Timestamp
}.

Record Value := MkValue { val_RawBytes : bytes; val_Timestamp : Timestamp }.
Record KeyValue := MkKeyValue { kv_Key : bytes; kv_Value : Value }.
Record Intent := MkIntent { i_Key : bytes; i_Txn : TxnMeta }.

Inductive read_error := FromScan (e : scan_error) | WriteIntentError (intents : list Intent).

Section Read.
Context `{L : ScanLib}.

Record MVCCGetOptions := MkGetOptions {
  g_Inconsistent : bool;
  g_SkipLocked : bool;
  g_Tombstones : bool;
  g_FailOnMoreRecent : bool;
  g_Txn : option Transaction;
  g_Uncertainty : Interval;
  g_MemoryAccount : account;
  g_DontInterleaveIntents : bool;
  g_MaxKeys : Z;
  g_TargetBytes : Z;
  g_AllowEmpty : bool
}.

Definition GetOptions_validate (opts : MVCCGetOptions) : res unit :=
  if g_Inconsistent opts && bool_decide (is_Some (g_Txn opts)) then Err "cannot allow inconsistent reads within a transaction"
  else if g_Inconsistent opts && g_SkipLocked opts then Err "cannot allow inconsistent reads with skip locked option"
  else if g_Inconsistent opts && g_FailOnMoreRecent opts then Err "cannot allow inconsistent reads with fail on more recent option"
  else if g_DontInterleaveIntents opts && g_SkipLocked opts then Err "cannot disable interleaved intents with skip locked option"
  else Ok tt.
Definition GetOptions_errOnIntents (opts : MVCCGetOptions) : bool := negb (g_Inconsistent opts) && negb (g_SkipLocked opts).

Record MVCCScanOptions := MkScanOptions {
  s_Inconsistent : bool;
  s_SkipLocked : bool;
  s_Tombstones : bool;
  s_Reverse : bool;
  s_FailOnMoreRecent : bool;
  s_Txn : option Transaction;
  s_Uncertainty : Interval;
  s_MaxKeys : Z;
  s_TargetBytes : Z;
  s_AllowEmpty : bool;
  s_WholeRowsOfSize : Z;
  s_MaxIntents : Z;
  s_MemoryAccount : account;
  s_DontInterleaveIntents : bool
}.

Definition ScanOptions_validate (opts : MVCCScanOptions) : res unit :=
  if s_Inconsistent opts && bool_decide (is_Some (s_Txn opts)) then Err "cannot allow inconsistent reads within a transaction"
  else if s_Inconsistent opts && s_SkipLocked opts then Err "cannot allow inconsistent reads with skip locked option"
  else if s_Inconsistent opts && s_FailOnMoreRecent opts then Err "cannot allow inconsistent reads with fail on more recent option"
  else if s_DontInterleaveIntents opts && s_SkipLocked opts then Err "cannot disable interleaved intents with skip locked option"
  else Ok tt.
Definition ScanOptions_errOnIntents (opts : MVCCScanOptions) : bool := negb (s_Inconsistent opts) && negb (s_SkipLocked opts).

(** ** Results *)

Record MVCCGetResult := MkGetResult {
  gr_Value : option Value;
  gr_Intent : option Intent;
  gr_ResumeSpan : option Span;
  gr_ResumeReason : ResumeReason;
  gr_ResumeNextBytes : Z;
  gr_NumKeys : Z;
  gr_NumBytes : Z
}.
Definition empty_get : MVCCGetResult := MkGetResult None None None RESUME_UNKNOWN 0 0 0.

Record MVCCScanResult := MkScanResult {
  sr_KVData : list bytes;
  sr_KVs : list KeyValue;
  sr_NumKeys : Z;
  sr_NumBytes : Z;
  sr_ResumeSpan : option Span;
  sr_ResumeReason : ResumeReason;
  sr_ResumeNextBytes : Z;
  sr_Intents : list Intent
}.
Definition empty_scan : MVCCScanResult := MkScanResult [] [] 0 0 None RESUME_UNKNOWN 0 [].

(** ** The intents of a scan

    [batch_reader] is what [PebbleBatchReader] yields of a batch: an error of its header, or the
    entries up to its end or to an error. *)
Context (batch_reader : batch -> res (list (bytes * bytes) * option string)).

Fixpoint build_intents (entries : list (bytes * bytes)) : res (list Intent) :=
  match entries with
  | [] => Ok []
  | (k, v) :: entries =>
      key ← DecodeMVCCKey k;
      meta ← UnmarshalMeta v;
      match m_Txn meta with
      | None => Err "unexpected nil MVCCMetadata.Txn"
      | Some txn => rest ← build_intents entries; Ok (MkIntent (k_Key key) txn :: rest)
      end
  end.

(** [intentsRepr] gives no data if there are no intents. *)
Definition buildScanIntents (b : batch) : res (list Intent) :=
  if batch_Count b =? 0 then Ok []
  else
    '(entries, e) ← batch_reader b;
    intents ← build_intents entries;
    match e with Some e => Err e | None => Ok intents end.

(** ** Scans *)

Context {It : Type} {M : MVCCIterator It} (maxItersBeforeSeek : Z) (fuel : nat).

Definition scan_config (key endKey : bytes) (timestamp : Timestamp) (opts : MVCCScanOptions) : config :=
  MkConfig (s_Reverse opts) key endKey timestamp (s_MaxKeys opts) (s_TargetBytes opts) (s_AllowEmpty opts)
    (1 <? s_WholeRowsOfSize opts) (s_MaxIntents opts) (s_Txn opts) (s_Uncertainty opts) (s_Inconsistent opts)
    (s_SkipLocked opts) (s_Tombstones opts) (s_FailOnMoreRecent opts) maxItersBeforeSeek.

Definition new_results : pebbleResults := MkPebbleResults 0 0 nil_buf [] false [] 0.
Definition scan_results (opts : MVCCScanOptions) : pebbleResults :=
  if 1 <? s_WholeRowsOfSize opts
  then MkPebbleResults 0 0 nil_buf [] true (replicate (Z.to_nat (s_WholeRowsOfSize opts)) 0) 0
  else new_results.

(** The result of the scan if it has one already, or the scanner. *)
Definition mvccScanInit (it : It) (key endKey : bytes) (timestamp : Timestamp) (opts : MVCCScanOptions) (r : pebbleResults)
    : res (MVCCScanResult + (config * @scanner L pebbleResults It)) :=
  if (length endKey =? 0)%nat then Err "attempted access to empty key"
  else
    _ ← ScanOptions_validate opts;
    if s_MaxKeys opts <? 0 then
      Ok (inl (MkScanResult [] [] 0 0 (Some (MkSpan key (Some endKey))) RESUME_KEY_LIMIT 0 []))
    else if s_TargetBytes opts <? 0 then
      Ok (inl (MkScanResult [] [] 0 0 (Some (MkSpan key (Some endKey))) RESUME_BYTE_LIMIT 0 []))
    else
      let c := scan_config key endKey timestamp opts in
      Ok (inr (c, init c it r (s_MemoryAccount opts))).

Definition finalizeScanResult (p : @scanner L pebbleResults It) (r : MVCCScanResult) (opts : MVCCScanOptions)
    : res (MVCCScanResult + read_error) :=
  let '(numKeys, numBytes, _) := results_sizeInfo (results (so p)) 0 0 in
  ints ← buildScanIntents (intents (so p));
  if ScanOptions_errOnIntents opts && (0 <? length ints)%nat then Ok (inr (WriteIntentError ints))
  else
    Ok (inl (MkScanResult (sr_KVData r) (sr_KVs r) numKeys numBytes (sr_ResumeSpan r) (sr_ResumeReason r)
               (sr_ResumeNextBytes r) ints)).

Definition mvccScanToBytes (it : It) (key endKey : bytes) (timestamp : Timestamp) (opts : MVCCScanOptions)
    : res (MVCCScanResult + read_error) :=
  i ← mvccScanInit it key endKey timestamp opts (scan_results opts);
  match i with
  | inl r => Ok (inl r)
  | inr (c, p) =>
      '(p, x) ← scan c fuel p;
      match x with
      | inr e => Ok (inr (FromScan e))
      | inl (resumeSpan, resumeReason, resumeNextBytes) =>
          finalizeScanResult p
            (MkScanResult (results_finish (results (so p))) [] 0 0 resumeSpan resumeReason resumeNextBytes []) opts
      end
  end.

Definition zero_kv : KeyValue := MkKeyValue [] (MkValue [] EmptyTimestamp).

(** The callback of [mvccScanToKvs] fills the slice from the front. *)
Definition fill_kv (a : list KeyValue * nat) (key : bytes) (ts : Timestamp) (rawBytes : bytes) : res (list KeyValue * nat) :=
  let '(kvs, i) := a in
  if (i <? length kvs)%nat then Ok (<[i := MkKeyValue key (MkValue rawBytes ts)]> kvs, S i) else Panic "index out of range".

Definition mvccScanToKvs (it : It) (key endKey : bytes) (timestamp : Timestamp) (opts : MVCCScanOptions)
    : res (MVCCScanResult + read_error) :=
  x ← mvccScanToBytes it key endKey timestamp opts;
  match x with
  | inr e => Ok (inr e)
  | inl r =>
      '(kvs, _) ← ScanDecodeKeyValues fill_kv (replicate (Z.to_nat (sr_NumKeys r)) zero_kv, O) (sr_KVData r);
      Ok (inl (MkScanResult [] kvs (sr_NumKeys r) (sr_NumBytes r) (sr_ResumeSpan r) (sr_ResumeReason r)
                 (sr_ResumeNextBytes r) (sr_Intents r)))
  end.

(** [NewMVCCIterator] is the reader's. *)
Context (NewMVCCIterator : IterKind -> IterOptions -> It).

Definition newMVCCIterator (timestamp : Timestamp) (rangeKeyMasking noInterleavedIntents : bool) (opts : IterOptions) : It :=
  if Timestamp_IsEmpty timestamp then NewMVCCIterator MVCCKeyIterKind opts
  else
    let opts :=
      if rangeKeyMasking && negb (match io_KeyTypes opts with IterKeyTypePointsOnly => true | _ => false end) &&
         Timestamp_IsEmpty (io_RangeKeyMaskingBelow opts)
      then MkIterOptions (io_Prefix opts) (io_LowerBound opts) (io_UpperBound opts) (io_KeyTypes opts) timestamp
      else opts in
    NewMVCCIterator (if noInterleavedIntents then MVCCKeyIterKind else MVCCKeyAndIntentsIterKind) opts.

Definition scan_iterator (key endKey : bytes) (timestamp : Timestamp) (opts : MVCCScanOptions) : It :=
  newMVCCIterator timestamp (negb (s_Tombstones opts)) (s_DontInterleaveIntents opts)
    (MkIterOptions false key endKey IterKeyTypePointsAndRanges EmptyTimestamp).

Definition MVCCScan (key endKey : bytes) (timestamp : Timestamp) (opts : MVCCScanOptions) : res (MVCCScanResult + read_error) :=
  mvccScanToKvs (scan_iterator key endKey timestamp opts) key endKey timestamp opts.
Definition MVCCScanToBytes (key endKey : bytes) (timestamp : Timestamp) (opts : MVCCScanOptions) : res (MVCCScanResult + read_error) :=
  mvccScanToBytes (scan_iterator key endKey timestamp opts) key endKey timestamp opts.

(** [noUncertainty] and [unlimited] are the zero interval and the nil account. *)
Context (unlimited : account).
Abbreviation noUncertainty := (MkInterval EmptyTimestamp EmptyTimestamp).

Definition MVCCScanAsTxn (key endKey : bytes) (timestamp : Timestamp) (txnMeta : TxnMeta) : res (MVCCScanResult + read_error) :=
  MVCCScan key endKey timestamp
    (MkScanOptions false false false false false (Some (MkTransaction txnMeta (t_WriteTimestamp txnMeta) [])) noUncertainty 0 0 false 0 0 unlimited false).

(** ** Gets *)

Definition get_config (key : bytes) (timestamp : Timestamp) (opts : MVCCGetOptions) : config :=
  MkConfig false key [] timestamp 1 0 false false 0 (g_Txn opts) (g_Uncertainty opts) (g_Inconsistent opts)
    (g_SkipLocked opts) (g_Tombstones opts) (g_FailOnMoreRecent opts) maxItersBeforeSeek.

(** What [mvccGetWithValueHeader] does with the scanner after the get. *)
Definition finish_get (o : @out L pebbleResults) (opts : MVCCGetOptions)
    : res ((option Value * option Intent * MVCCValueHeader) + read_error) :=
  match err o with
  | Some e => Ok (inr (FromScan e))
  | None =>
      ints ← buildScanIntents (intents o);
      if GetOptions_errOnIntents opts && (0 <? length ints)%nat then Ok (inr (WriteIntentError ints))
      else if (1 <? length ints)%nat then Err "expected 0 or 1 intents"
      else
        let intent := head ints in
        if b_len (pr_repr (results o)) =? 0 then Ok (inl (None, intent, EmptyHeader))
        else
          '(_, ts, rawValue, _) ← ScanDecodeKeyValue (b_data (pr_repr (results o)));
          Ok (inl (Some (MkValue rawValue ts), intent, vHeader (curUnsafeValue o)))
  end.

Definition mvccGetWithValueHeader (it : It) (key : bytes) (timestamp : Timestamp) (opts : MVCCGetOptions)
    : res ((option Value * option Intent * MVCCValueHeader) + read_error) :=
  if (length key =? 0)%nat then Err "attempted access to empty key"
  else if WallTime timestamp <? 0 then Err "cannot write at timestamp"
  else
    _ ← GetOptions_validate opts;
    let c := get_config key timestamp opts in
    p ← get c fuel (init c it new_results (g_MemoryAccount opts));
    finish_get (so p) opts.

Definition MVCCGetWithValueHeader (key : bytes) (timestamp : Timestamp) (opts : MVCCGetOptions)
    : res ((MVCCGetResult * MVCCValueHeader) + read_error) :=
  if (g_MaxKeys opts <? 0) || (g_TargetBytes opts <? 0) then
    Ok (inl (MkGetResult None None (Some (MkSpan key None))
               (if g_MaxKeys opts <? 0 then RESUME_KEY_LIMIT else RESUME_BYTE_LIMIT) 0 0 0, EmptyHeader))
  else
    x ← mvccGetWithValueHeader
          (newMVCCIterator timestamp false (g_DontInterleaveIntents opts)
             (MkIterOptions true [] [] IterKeyTypePointsAndRanges EmptyTimestamp))
          key timestamp opts;
    match x with
    | inr e => Ok (inr e)
    | inl (val, intent, vh) =>
        match val with
        | Some v =>
            let numBytes := Z.of_nat (length (val_RawBytes v)) in
            if (0 <? g_TargetBytes opts) && g_AllowEmpty opts && (g_TargetBytes opts <? numBytes)
            then Ok (inl (MkGetResult None None (Some (MkSpan key None)) RESUME_BYTE_LIMIT numBytes 0 0, EmptyHeader))
            else Ok (inl (MkGetResult val intent None RESUME_UNKNOWN 0 1 numBytes, vh))
        | None => Ok (inl (MkGetResult None intent None RESUME_UNKNOWN 0 0 0, vh))
        end
    end.

Definition MVCCGet (key : bytes) (timestamp : Timestamp) (opts : MVCCGetOptions) : res (MVCCGetResult + read_error) :=
  x ← MVCCGetWithValueHeader key timestamp opts;
  Ok (match x with inl (r, _) => inl r | inr e => inr e end).

Definition mvccGet (it : It) (key : bytes) (timestamp : Timestamp) (opts : MVCCGetOptions)
    : res ((option Value * option Intent) + read_error) :=
  x ← mvccGetWithValueHeader it key timestamp opts;
  Ok (match x with inl (v, i, _) => inl (v, i) | inr e => inr e end).

Definition MVCCGetAsTxn (key : bytes) (timestamp : Timestamp) (txnMeta : TxnMeta) : res (MVCCGetResult + read_error) :=
  MVCCGet key timestamp
    (MkGetOptions false false false false (Some (MkTransaction txnMeta (t_WriteTimestamp txnMeta) [])) noUncertainty unlimited false 0 0 false).
End Read.
