(* ===== verification/MvccReadOk.v ===== *)
(** What the reads of the MVCC store return.

    The scanner's refinement, the result set's representation and the reader's view of a key
    compose to statements about [MVCCScan] and [MVCCGet] themselves. *)
From stdpp Require Import sorting.
From S2P Require Import Prelude Bytes GoLib Hlc KeyOps Spans MvccKey RangeKeys MvccValue MvccIter Scanner ScanSpec ScanNav ScanOk SqlKeys PebbleResults ScanRead MvccRead.

Section ReadOk.
Context `{L : ScanLib} `{!ScanLaws L} {It : Type} {M : MVCCIterator It}.
Context (batch_reader : batch -> res (list (bytes * bytes) * option string)).
Context (batch_reads : forall b, batch_reader b = Ok (batch_entries b, None)).

(** ** Decoding what was collected *)

Definition key_value (x : MVCCKey * bytes) : KeyValue := MkKeyValue (k_Key x.1) (MkValue x.2 (k_Timestamp x.1)).

Lemma fill_step l z rest k ts v (x := MkKeyValue k (MkValue v ts)) :
  fill_kv (l ++ z :: rest, length l) k ts v = Ok ((l ++ [x]) ++ rest, length (l ++ [x])).
Proof.
  unfold fill_kv. rewrite !length_app. cbn [length]. replace (_ <? _)%nat with true by (symmetry; apply Nat.ltb_lt; lia).
  rewrite insert_app_r_alt, Nat.sub_diag, <- app_assoc, Nat.add_1_r by lia. done.
Qed.

Lemma fill_calls l ds :
  calls fill_kv (l ++ replicate (length ds) zero_kv, length l) ds
  = Ok (l ++ ((fun d => MkKeyValue d.1.1 (MkValue d.2 d.1.2)) <$> ds), (length l + length ds)%nat).
Proof.
  revert l. induction ds as [|[[k ts] v] ds IH]; intros l; cbn [calls length fmap list_fmap replicate].
  - by rewrite app_nil_r, Nat.add_0_r.
  - rewrite fill_step. cbn [mbind res_bind]. rewrite IH, <- app_assoc, length_app. cbn. do 2 f_equal. lia.
Qed.

Lemma holds_returns p kvs : holds p kvs -> returns_kvs p kvs.
Proof. intros (groups & g & -> & Last & Rp). by eapply rep_returns. Qed.

Lemma kvs_decode p xs : holds p (kv_of <$> xs) -> Forall (fun x => ts_wf (k_Timestamp x.1)) xs ->
  ScanDecodeKeyValues fill_kv (replicate (length xs) zero_kv, O) (results_finish p) = Ok (key_value <$> xs, length xs).
Proof.
  intros H W. rewrite (finish_decodes _ _ p (kv_of <$> xs) ((fun x => (k_Key x.1, k_Timestamp x.1, x.2)) <$> xs)); [|by apply holds_returns|].
  - pose proof (fill_calls [] ((fun x => (k_Key x.1, k_Timestamp x.1, x.2)) <$> xs)) as E. rewrite length_fmap in E. cbn [app length] in E. rewrite E, <- list_fmap_compose. done.
  - clear H. induction W as [|x xs Wx W IH]; constructor; [|done]. split; [|done]. by apply DecodeKey_enc.
Qed.

(** ** Conflicts *)

(** The intent that a read conflicts with at a key. *)
Definition conflicting (c : config) (db : snapshot) (key : bytes) : list Intent :=
  match conflict c db key with
  | (_, v) :: _ =>
      match UnmarshalMeta v with
      | Ok meta => match m_Txn meta with Some txn => [MkIntent key txn] | None => [] end
      | _ => []
      end
  | [] => []
  end.

Lemma conflict_cases c db key : snapshot_ok db ->
  conflict c db key = [] /\ conflicting c db key = [] \/
  exists v meta txn, conflict c db key = [(mvcc_bytes (MkMVCCKey key EmptyTimestamp), v)] /\ UnmarshalMeta v = Ok meta /\ m_Txn meta = Some txn /\
    conflicting c db key = [MkIntent key txn].
Proof.
  intros ok. unfold conflicting. destruct (conflict c db key) as [|e l] eqn:E; [by left|]. right. unfold conflict, verdict_of in E.
  destruct (points db key) as [|q vs] eqn:Pt; [by destruct (verdict_of c db key)|].
  destruct (points_versions db ok key q vs Pt) as (U & I & _).
  destruct (negb (Timestamp_IsEmpty (q_ts q))) eqn:Em; [unfold look in E; by destruct (head _)|].
  destruct (default [] (q_val q)) as [|b bs] eqn:Ev; [done|]. rewrite <- Ev in *. destruct (UnmarshalMeta _) as [meta| |] eqn:Um; [|done..].
  assert (look_meta c db q meta vs = Conflicts /\ e = (mvcc_bytes (q_key q), default [] (q_val q)) /\ l = []) as (Lm & -> & ->).
  { destruct (look_meta c db q meta vs); try done. by injection E as <- <-. }
  assert (exists txn, m_Txn meta = Some txn) as [txn Et].
  { unfold look_meta in Lm. destruct (m_Txn meta); [by eexists|]. by destruct (negb (length (raw_bytes meta) =? 0)%nat). }
  rewrite Um, Et. exists (default [] (q_val q)), meta, txn. repeat split; try done.
  apply negb_false_iff in Em. do 3 f_equal. destruct (q_key q) as [k ts] eqn:Ek. unfold q_user in U. rewrite Ek in U. cbn in U. subst k. f_equal.
  destruct (decide (q_ts q = EmptyTimestamp)) as [D|N]; [unfold q_ts in D; by rewrite Ek in D|].
  by rewrite (empty_below db ok q I N) in Em.
Qed.

Lemma build_conflicts c db ks : snapshot_ok db -> build_intents (ks ≫= conflict c db) = Ok (ks ≫= conflicting c db).
Proof.
  intros ok. induction ks as [|k ks IH]; [done|]. rewrite !bind_cons.
  destruct (conflict_cases c db k ok) as [[-> ->]|(v & meta & txn & -> & Um & Et & ->)]; [done|].
  cbn [app build_intents]. rewrite DecodeMVCCKey_enc by done. cbn [mbind res_bind]. rewrite Um. cbn [mbind res_bind]. rewrite Et, IH. done.
Qed.

Lemma conflicts_nil c db ks : snapshot_ok db -> (ks ≫= conflicting c db) = [] <-> (ks ≫= conflict c db) = [].
Proof.
  intros ok. induction ks as [|k ks IH]; [done|]. cbn. rewrite !app_nil.
  destruct (conflict_cases c db k ok) as [[-> ->]|(v & meta & txn & -> & _ & _ & ->)]; naive_solver.
Qed.

Lemma scan_intents c db ks b : snapshot_ok db -> batch_entries b = (ks ≫= conflict c db) ->
  buildScanIntents batch_reader b = Ok (ks ≫= conflicting c db).
Proof.
  intros ok E. unfold buildScanIntents. rewrite entries_Count, batch_reads, E. cbn [mbind res_bind]. rewrite build_conflicts by done.
  destruct (Z.eqb_spec (Z.of_nat (length (ks ≫= conflict c db))) 0) as [Z0|]; [|done].
  assert (N : (ks ≫= conflict c db) = []) by (apply nil_length_inv; lia). apply (conflicts_nil c db ks ok) in N. by rewrite N.
Qed.

(** ** Scans *)

Context (maxItersBeforeSeek : Z) (nonneg : 0 <= maxItersBeforeSeek).

(** The options of a consistent scan, with a limit on keys at most. *)
Record plain_scan (timestamp : Timestamp) (opts : MVCCScanOptions) : Prop := {
  ps_consistent : s_Inconsistent opts = false;
  ps_skip : s_SkipLocked opts = false;
  ps_recent : s_FailOnMoreRecent opts = false;
  ps_uncertainty : Timestamp_Less timestamp (GlobalLimit (s_Uncertainty opts)) = false;
  ps_keys : 0 <= s_MaxKeys opts;
  ps_bytes : s_TargetBytes opts = 0;
  ps_rows : s_WholeRowsOfSize opts <= 1;
  ps_intents : s_MaxIntents opts = 0
}.

Lemma plain_config key endKey timestamp opts : plain_scan timestamp opts -> plain (scan_config maxItersBeforeSeek key endKey timestamp opts).
Proof. intros []. split; cbn; try done. lia. Qed.

(** Metadata decodes and is of no later epoch, and pairs fit their length fields. *)
Definition readable (c : config) (db : snapshot) (key : bytes) : Prop :=
  verdict_of c db key <> Fails /\ Forall (fun x => kv_ok (kv_of x) /\ ts_wf (k_Timestamp x.1)) (shown c db key).

(** A store that a scan can read: well-formed, confined to the span, with values that decode. *)
Record scannable (c : config) (db : snapshot) (fuel : nat) : Prop := {
  sb_ok : snapshot_ok db;
  sb_span : in_span c db;
  sb_fuel : (length (positions db) + 1 <= fuel)%nat;
  sb_values : decodable db;
  sb_keys q : q ∈ positions db -> has_point q = true -> readable c db (q_user q)
}.

Lemma empty_holds : holds new_results [].
Proof. exists [], []. split; [done|]. split; [done|]. split; cbn; try done. by repeat constructor. Qed.

Lemma holds_size p kvs : holds p kvs -> results_sizeInfo p 0 0 = (Z.of_nat (length kvs), total kvs, 8).
Proof. intros (groups & g & -> & _ & Rp). unfold results_sizeInfo. by rewrite (rp_count _ _ _ _ Rp), (rp_bytes _ _ _ _ Rp). Qed.

(** A key has one result at most, so a limit that was not reached before the last key is not exceeded. *)
Lemma limit_holds (c : config) db ks1 : 0 < c_maxKeys c -> (forall ks k, ks1 = ks ++ [k] -> full c (length (ks ≫= shown c db)) = false) ->
  Z.of_nat (length (ks1 ≫= shown c db)) <= c_maxKeys c /\ forall ks k, ks1 = ks ++ [k] -> Z.of_nat (length (ks ≫= shown c db)) < c_maxKeys c.
Proof.
  intros Pos Pr. assert (Lt : forall ks k, ks1 = ks ++ [k] -> Z.of_nat (length (ks ≫= shown c db)) < c_maxKeys c).
  { intros ks k E. specialize (Pr ks k E). unfold full in Pr. lia. }
  split; [|exact Lt]. destruct ks1 as [|k ks _] using rev_ind; [cbn; lia|]. specialize (Lt ks k eq_refl). rewrite bind_app, length_app. cbn [mbind list_bind].
  assert (length (shown c db k) <= 1)%nat; [|rewrite app_nil_r; lia].
  unfold shown. destruct (verdict_of c db k); cbn; try lia. unfold emit. destruct (_ && _); cbn; lia.
Qed.

Lemma scan_reads NewMVCCIterator db `{!IteratorLaws M db} fuel key endKey timestamp opts
    (c := scan_config maxItersBeforeSeek key endKey timestamp opts) :
  scannable c db fuel -> endKey <> [] -> plain_scan timestamp opts ->
  exists ks1 ks2,
    (forall k, k ∈ ks1 ++ ks2 <-> exists q, q ∈ positions db /\ has_point q = true /\ q_user q = k) /\
    StronglySorted (if s_Reverse opts then flip blt else blt) (ks1 ++ ks2) /\
    let xs := ks1 ≫= shown c db in
    (s_MaxKeys opts = 0 -> ks2 = []) /\ (ks2 <> [] -> Z.of_nat (length xs) = s_MaxKeys opts) /\
    (0 < s_MaxKeys opts -> Z.of_nat (length xs) <= s_MaxKeys opts /\
       forall ks k, ks1 = ks ++ [k] -> Z.of_nat (length (ks ≫= shown c db)) < s_MaxKeys opts) /\
    MVCCScan batch_reader maxItersBeforeSeek fuel NewMVCCIterator key endKey timestamp opts =
      Ok (match ks1 ≫= conflicting c db with
          | [] =>
              inl (MkScanResult [] (key_value <$> xs) (Z.of_nat (length xs)) (total (kv_of <$> xs))
                     (match ks2 with [] => None | k :: _ => Some (resume_span c k) end)
                     (match ks2 with [] => RESUME_UNKNOWN | _ => RESUME_KEY_LIMIT end) 0 [])
          | ints => inr (WriteIntentError ints)
          end).
Proof.
  intros [ok In Fu De Rd] Ne Ps. pose proof (plain_config key endKey timestamp opts Ps) as Pl. fold c in Pl.
  destruct (itinerary_keys c db ok) as [El So].
  assert (Keys : Forall (fun k => verdict_of c db k <> Fails /\ Forall (fun y => kv_ok (kv_of y)) (shown c db k)) (scan_keys None (itinerary c db))).
  { apply List.Forall_forall. intros k (q & Iq & H & <-)%El. destruct (Rd q) as [Nf F]; [by apply list_elem_of_In|done|]. split; [done|].
    eapply Forall_impl; [exact F|]. by intros x []. }
  destruct (reference_reads c db ok De Pl (start_out new_results (s_MemoryAccount opts))) as (ks1 & ks2 & o & Ek & M0 & Fl & Pr & Rf & Ho & In'); [apply Ps|apply start_reading, empty_holds|done|].
  rewrite Ek in El, So. exists ks1, ks2. split; [intros k; rewrite list_elem_of_In, El; by setoid_rewrite list_elem_of_In|].
  split; [exact So|]. cbv zeta in *. split; [exact M0|].
  assert (Cap : 0 < s_MaxKeys opts -> Z.of_nat (length (ks1 ≫= shown c db)) <= s_MaxKeys opts /\
    forall ks k, ks1 = ks ++ [k] -> Z.of_nat (length (ks ≫= shown c db)) < s_MaxKeys opts) by (intros Pos; exact (limit_holds c db ks1 Pos Pr)).
  split; [intros N; specialize (Fl N); unfold full in Fl; cbn in Fl; lia|]. split; [exact Cap|].
  unfold MVCCScan, mvccScanToKvs, mvccScanToBytes, mvccScanInit, ScanOptions_validate. fold c.
  replace (length endKey =? 0)%nat with false by (by destruct endKey). destruct Ps as [Ci Cs Cr Cu Ck Cb Cw Ct]. rewrite Ci, Cs, Cb. cbn [andb mbind res_bind].
  rewrite andb_false_r. cbn [mbind res_bind]. replace (s_MaxKeys opts <? 0) with false by lia. replace (0 <? 0) with false by done.
  unfold scan_results. replace (1 <? s_WholeRowsOfSize opts) with false by lia.
  set (it := scan_iterator _ _ _ _ _). pose proof (scan_reference c db fuel it new_results (s_MemoryAccount opts) ok In Fu nonneg) as S.
  rewrite Rf in S. specialize (S ltac:(cbn; lia)). cbn [mbind res_bind].
  destruct (scan c fuel _) as [[p x]| |]; cbn [mbind res_bind] in S |- *; [|done..]. injection S as Sp ->.
  replace (match ks2 with [] => _ | k :: _ => _ end) with
    (match ks2 with [] => None | k :: _ => Some (resume_span c k) end, match ks2 with [] => RESUME_UNKNOWN | _ => RESUME_KEY_LIMIT end, 0) by (by destruct ks2).
  unfold finalizeScanResult. rewrite Sp, (holds_size _ _ Ho), (scan_intents c db ks1) by done. rewrite length_fmap. cbn [mbind res_bind].
  unfold ScanOptions_errOnIntents. rewrite Ci, Cs. cbn [negb andb].
  destruct (ks1 ≫= conflicting c db); cbn [length]; [|done]. replace (0 <? 0)%nat with false by done. cbn [mbind res_bind sr_NumKeys sr_KVData]. rewrite Nat2Z.id.
  rewrite kvs_decode; [done|done|]. apply List.Forall_forall. intros x Ix. apply list_elem_of_In, list_elem_of_bind in Ix as (k & Ix & Ik).
  destruct (proj1 (El k)) as (q & Iq & H & <-); [apply in_or_app; left; by apply list_elem_of_In|].
  destruct (Rd q) as [_ F]; [by apply list_elem_of_In|done|]. rewrite List.Forall_forall in F. apply F. by apply list_elem_of_In.
Qed.

(** ** Gets *)

Record plain_get (timestamp : Timestamp) (opts : MVCCGetOptions) : Prop := {
  pg_consistent : g_Inconsistent opts = false;
  pg_skip : g_SkipLocked opts = false;
  pg_recent : g_FailOnMoreRecent opts = false;
  pg_uncertainty : Timestamp_Less timestamp (GlobalLimit (g_Uncertainty opts)) = false;
  pg_keys : 0 <= g_MaxKeys opts;
  pg_bytes : 0 <= g_TargetBytes opts
}.

Lemma plain_get_config key timestamp opts : plain_get timestamp opts -> plain (get_config maxItersBeforeSeek key timestamp opts).
Proof. intros []. by split. Qed.

(** The buffer of a result set with at most one pair. *)
Lemma holds_nil p : holds p [] -> b_len (pr_repr p) = 0.
Proof.
  intros (groups & g & E & _ & Rp). symmetry in E. apply app_nil in E as [_ ->]. by rewrite (b_len_enc _ _ (rp_repr _ _ _ _ Rp)).
Qed.

Lemma holds_one p x : holds p [x] -> b_data (pr_repr p) = enc_kv x /\ kv_ok x.
Proof.
  intros (groups & g & E & Last & Rp). assert (G : groups = [] /\ g = [x]).
  { destruct groups as [|h groups]; [done|]. pose proof (rp_groups _ _ _ _ Rp) as Ne. inversion Ne. subst. destruct h as [|y h]; [done|].
    cbn in E. injection E as <- E. symmetry in E. apply app_nil in E as [_ ->]. by specialize (Last eq_refl). }
  destruct G as [-> ->]. pose proof (rp_repr _ _ _ _ Rp) as Er. pose proof (rp_kvs _ _ _ _ Rp) as K. cbn in Er, K. rewrite app_nil_r in Er.
  split; [done|]. by inversion K.
Qed.

(** At most one value is got. *)
Lemma got_one c db : got c db = [] \/ exists x, got c db = [x].
Proof.
  unfold got, stand_in, shown. destruct (verdict_of c db (c_start c)) as [x| | |]; [unfold emit; destruct (_ && _)|..]; eauto.
  all: destruct (c_tombstones c); eauto; destruct (head _); eauto.
Qed.

Lemma get_value o opts c db :
  snapshot_ok db -> err o = None -> holds (results o) (kv_of <$> got c db) ->
  batch_entries (intents o) = conflict c db (c_start c) -> Forall (fun x => ts_wf (k_Timestamp x.1)) (got c db) ->
  g_Inconsistent opts = false -> g_SkipLocked opts = false ->
  exists vh, finish_get batch_reader o opts =
    Ok (match conflicting c db (c_start c) with
        | [] => inl ((fun x => MkValue x.2 (k_Timestamp x.1)) <$> head (got c db), None, vh)
        | ints => inr (WriteIntentError ints)
        end).
Proof.
  intros ok Ee Ho En W Gi Gs. unfold finish_get. rewrite Ee, (scan_intents c db [c_start c]) by (try done; by rewrite bind_cons, app_nil_r).
  rewrite bind_cons, app_nil_r. cbn [mbind res_bind]. unfold GetOptions_errOnIntents. rewrite Gi, Gs. cbn [negb andb].
  destruct (conflicting c db (c_start c)) as [|i l]; [|by exists EmptyHeader]. cbn [length]. replace (0 <? 0)%nat with false by done. replace (1 <? 0)%nat with false by done.
  destruct (got_one c db) as [G|[x G]]; rewrite G in *; cbn [head fmap option_fmap option_map] in *.
  - exists EmptyHeader. rewrite holds_nil by done. done.
  - destruct (holds_one _ _ Ho) as [Er K]. exists (vHeader (curUnsafeValue o)). unfold b_len. rewrite Er.
    pose proof (enc_kv_length (kv_of x)) as Len. pose proof (kv_size_pos (kv_of x)). unfold kv_ok in K. replace (_ =? 0) with false by lia.
    rewrite <- (app_nil_r (enc_kv _)), (decode_one (kv_of x) (k_Key x.1, k_Timestamp x.1, x.2)); [done|done| |rewrite app_nil_r; lia].
    split; [|done]. apply DecodeKey_enc. by inversion W.
Qed.

(** A get with an iterator. *)
Lemma header_reads (it : It) db `{!IteratorLaws M db} fuel key timestamp opts
    (c := get_config maxItersBeforeSeek key timestamp opts) :
  snapshot_ok db -> Forall (fun q => q_user q = key) (positions db) -> (length (positions db) + 1 <= fuel)%nat ->
  key <> [] -> 0 <= WallTime timestamp -> plain_get timestamp opts -> decodable db ->
  verdict_of c db key <> Fails -> Forall (fun x => kv_ok (kv_of x) /\ ts_wf (k_Timestamp x.1)) (got c db) ->
  exists vh, mvccGetWithValueHeader batch_reader maxItersBeforeSeek fuel it key timestamp opts =
    Ok (match conflicting c db key with
        | [] => inl ((fun x => MkValue x.2 (k_Timestamp x.1)) <$> head (got c db), None, vh)
        | ints => inr (WriteIntentError ints)
        end).
Proof.
  intros ok Sg Fu Ne Wt Pg De Nf Rd. pose proof (plain_get_config key timestamp opts Pg) as Pl. fold c in Pl.
  assert (Rd1 : Forall (fun x => kv_ok (kv_of x)) (got c db)) by (eapply Forall_impl; [exact Rd|]; by intros x []).
  assert (Rd2 : Forall (fun x => ts_wf (k_Timestamp x.1)) (got c db)) by (eapply Forall_impl; [exact Rd|]; by intros x []).
  destruct (get_reads c db ok De Pl Sg eq_refl eq_refl (start_out new_results (g_MemoryAccount opts))) as (o & Rf & Ee & Ho & En); [apply start_reading, empty_holds|done|done|].
  destruct Pg as [Gi Gs Gr Gu Gk Gb]. destruct (get_value o opts c db ok Ee Ho En Rd2 Gi Gs) as [vh Fg]. exists vh.
  unfold mvccGetWithValueHeader, GetOptions_validate. fold c. replace (length key =? 0)%nat with false by (by destruct key).
  replace (WallTime timestamp <? 0) with false by lia. rewrite Gi, Gs. cbn [andb mbind res_bind]. rewrite andb_false_r. cbn [mbind res_bind].
  pose proof (get_reference c db fuel it new_results (g_MemoryAccount opts) ok Sg eq_refl Fu nonneg) as G.
  rewrite Rf in G. destruct (get c fuel _) as [p| |]; cbn [mbind res_bind] in G |- *; [|done..]. injection G as ->. exact Fg.
Qed.

Lemma get_reads_value NewMVCCIterator db `{!IteratorLaws M db} fuel key timestamp opts
    (c := get_config maxItersBeforeSeek key timestamp opts) :
  snapshot_ok db -> Forall (fun q => q_user q = key) (positions db) -> (length (positions db) + 1 <= fuel)%nat ->
  key <> [] -> 0 <= WallTime timestamp -> plain_get timestamp opts -> decodable db ->
  verdict_of c db key <> Fails -> Forall (fun x => kv_ok (kv_of x) /\ ts_wf (k_Timestamp x.1)) (got c db) ->
  MVCCGet batch_reader maxItersBeforeSeek fuel NewMVCCIterator key timestamp opts =
    Ok (match conflicting c db key with
        | [] =>
            inl (match got c db with
                 | [] => empty_get
                 | x :: _ =>
                     let n := Z.of_nat (length x.2) in
                     if (0 <? g_TargetBytes opts) && g_AllowEmpty opts && (g_TargetBytes opts <? n)
                     then MkGetResult None None (Some (MkSpan key None)) RESUME_BYTE_LIMIT n 0 0
                     else MkGetResult (Some (MkValue x.2 (k_Timestamp x.1))) None None RESUME_UNKNOWN 0 1 n
                 end)
        | ints => inr (WriteIntentError ints)
        end).
Proof.
  intros ok Sg Fu Ne Wt Pg De Nf Rd. unfold MVCCGet, MVCCGetWithValueHeader. set (it := newMVCCIterator _ _ _ _ _).
  destruct (header_reads it db fuel key timestamp opts ok Sg Fu Ne Wt Pg De Nf Rd) as [vh Eq]. destruct Pg as [_ _ _ _ Gk Gb].
  replace ((g_MaxKeys opts <? 0) || _) with false by lia. rewrite Eq. cbn [mbind res_bind]. fold c.
  destruct (conflicting c db key); [|done]. destruct (got c db) as [|x xs]; [done|]. cbn [head fmap option_fmap option_map val_RawBytes].
  cbv zeta. by destruct (_ && _).
Qed.

(** The same without the header. *)
Lemma mvccGet_reads (it : It) db `{!IteratorLaws M db} fuel key timestamp opts
    (c := get_config maxItersBeforeSeek key timestamp opts) :
  snapshot_ok db -> Forall (fun q => q_user q = key) (positions db) -> (length (positions db) + 1 <= fuel)%nat ->
  key <> [] -> 0 <= WallTime timestamp -> plain_get timestamp opts -> decodable db ->
  verdict_of c db key <> Fails -> Forall (fun x => kv_ok (kv_of x) /\ ts_wf (k_Timestamp x.1)) (got c db) ->
  mvccGet batch_reader maxItersBeforeSeek fuel it key timestamp opts =
    Ok (match conflicting c db key with
        | [] => inl ((fun x => MkValue x.2 (k_Timestamp x.1)) <$> head (got c db), None)
        | ints => inr (WriteIntentError ints)
        end).
Proof.
  intros ok Sg Fu Ne Wt Pg De Nf Rd. unfold mvccGet. destruct (header_reads it db fuel key timestamp opts ok Sg Fu Ne Wt Pg De Nf Rd) as [vh ->].
  cbn [mbind res_bind]. fold c. by destruct (conflicting c db key).
Qed.
End ReadOk.

(** * Two stores that agree up to a timestamp *)

Section Agree.
Context `{L : ScanLib} (c : config).

(** Without metadata there are only committed versions. *)
Definition committed (db : snapshot) : Prop := Forall (fun q => has_point q = true -> q_ts q <> EmptyTimestamp) (positions db).

Definition agree (db db' : snapshot) : Prop :=
  forall key, List.filter (at_or_below (c_ts c)) (points db key) = List.filter (at_or_below (c_ts c)) (points db' key) /\
    List.filter (at_most (c_ts c)) (Versions (stack_at db key)) = List.filter (at_most (c_ts c)) (Versions (stack_at db' key)).

Lemma committed_verdict db key : snapshot_ok db -> committed db -> verdict_of c db key = look c db (c_ts c) (points db key).
Proof.
  intros ok Co. unfold verdict_of. destruct (points db key) as [|q vs] eqn:E; [done|].
  destruct (points_versions db ok key q vs E) as (_ & I & H & _). unfold committed in Co. rewrite List.Forall_forall in Co.
  rewrite (empty_below db ok q I); [done|]. apply Co; [by apply list_elem_of_In|done].
Qed.

Lemma agree_see db db' q : agree db db' -> see c db q = see c db' q.
Proof. intros A. unfold see, cover. by rewrite (proj2 (A (q_user q))). Qed.

Lemma agree_verdict db db' key : snapshot_ok db -> snapshot_ok db' -> committed db -> committed db' -> agree db db' ->
  verdict_of c db key = verdict_of c db' key.
Proof.
  intros ok ok' Co Co' A. rewrite !committed_verdict by done. unfold look. rewrite (proj1 (A key)). destruct (head _); [|done]. by rewrite (agree_see db db').
Qed.

Lemma committed_conflict db key : snapshot_ok db -> committed db -> conflicting c db key = [].
Proof. intros ok Co. unfold conflicting, conflict. rewrite committed_verdict by done. unfold look. by destruct (head _). Qed.

Lemma shown_point db key : snapshot_ok db -> shown c db key <> [] -> exists q, q ∈ positions db /\ has_point q = true /\ q_user q = key.
Proof.
  intros ok N. unfold shown, verdict_of in N. destruct (points db key) as [|q vs] eqn:E; [done|].
  destruct (points_versions db ok key q vs E) as (U & I & H & _). by exists q.
Qed.
End Agree.

(** Strictly sorted lists that agree where a function is not empty. *)
Lemma bind_filter {A} (f : bytes -> list A) ks : (ks ≫= f) = (List.filter (fun k => negb (length (f k) =? 0)%nat) ks ≫= f).
Proof. induction ks as [|k ks IH]; [done|]. cbn [List.filter]. rewrite bind_cons, IH. by destruct (f k) eqn:E; cbn; rewrite ?E. Qed.

Lemma filter_sorted {A} (R : A -> A -> Prop) p l : StronglySorted R l -> StronglySorted R (List.filter p l).
Proof.
  induction 1 as [|x l S IH F]; cbn; [constructor|]. destruct (p x); [|done]. constructor; [done|]. apply List.Forall_forall. intros y [I _]%List.filter_In.
  rewrite List.Forall_forall in F. by apply F.
Qed.

Lemma bind_sorted {A} (R : relation bytes) `{!Transitive R, !Irreflexive R} (f : bytes -> list A) ks ks' :
  StronglySorted R ks -> StronglySorted R ks' -> (forall k, f k <> [] -> k ∈ ks <-> k ∈ ks') -> (ks ≫= f) = (ks' ≫= f).
Proof.
  intros S S' E. rewrite (bind_filter f ks), (bind_filter f ks'). f_equal.
  apply (filter_sorted _ (fun k => negb (length (f k) =? 0)%nat)) in S, S'.
  assert (ND : forall l, StronglySorted R l -> NoDup l).
  { intros l. induction 1 as [|x l Sl IH F]; constructor; [|done]. intros I%list_elem_of_In. rewrite List.Forall_forall in F. by eapply irreflexivity, F. }
  eapply (StronglySorted_unique_strong R); [|exact S|exact S'|].
  - intros x y _ _ A1 A2. exfalso. eapply (irreflexivity R x). by transitivity y.
  - apply NoDup_Permutation; [by apply ND|by apply ND|]. intros k. rewrite !list_elem_of_In, !List.filter_In, <- !list_elem_of_In.
    destruct (f k) eqn:Ef; [naive_solver|]. rewrite E by (by rewrite Ef). done.
Qed.

#[local] Instance direction_trans (b : bool) : Transitive (if b then flip blt else blt).
Proof. destruct b; intros x y z A B; by eapply blt_trans. Qed.
#[local] Instance direction_irrefl (b : bool) : Irreflexive (if b then flip blt else blt).
Proof. destruct b; intros x; apply blt_irrefl. Qed.

(** * Claims *)

Section Claims.
Context `{L : ScanLib} `{!ScanLaws L} (maxItersBeforeSeek : Z).
Context (batch_reader : batch -> res (list (bytes * bytes) * option string)).

(** C1: What a consistent scan returns.  With any iterator over a store of versions, intents,
    inline values and range tombstones, [MVCCScan] in either direction goes over the keys that
    have a point, in order, and returns for each the newest version at or below the timestamp,
    unless that is deleted or covered by a range tombstone the reader sees: with the transaction's
    own intents read at its sequence number, and deletions included if asked for.  If an intent
    of another transaction at or below the timestamp is met, the intents are returned as a
    [WriteIntentError].  Without a limit on keys the scan covers all of them; with one it
    returns at most that many pairs, stops at the key that brings their number to the limit and
    not before, and the resume span starts at the next key, if there is one.  The scan has no
    uncertainty interval above its timestamp, does not fail on more recent versions or skip locked
    keys, and has no limits on bytes, intents or columns of a row ([plain_scan]). *)
Theorem MVCCScan_reads {It} {M : MVCCIterator It} NewMVCCIterator db `{!IteratorLaws M db} fuel key endKey timestamp opts
    (c := scan_config maxItersBeforeSeek key endKey timestamp opts) :
  0 <= maxItersBeforeSeek -> (forall b, batch_reader b = Ok (batch_entries b, None)) ->
  scannable c db fuel -> endKey <> [] -> plain_scan timestamp opts ->
  exists ks1 ks2,
    (forall k, k ∈ ks1 ++ ks2 <-> exists q, q ∈ positions db /\ has_point q = true /\ q_user q = k) /\
    StronglySorted (if s_Reverse opts then flip blt else blt) (ks1 ++ ks2) /\
    let xs := ks1 ≫= shown c db in
    (s_MaxKeys opts = 0 -> ks2 = []) /\ (ks2 <> [] -> Z.of_nat (length xs) = s_MaxKeys opts) /\
    (0 < s_MaxKeys opts -> Z.of_nat (length xs) <= s_MaxKeys opts /\
       forall ks k, ks1 = ks ++ [k] -> Z.of_nat (length (ks ≫= shown c db)) < s_MaxKeys opts) /\
    MVCCScan batch_reader maxItersBeforeSeek fuel NewMVCCIterator key endKey timestamp opts =
      Ok (match ks1 ≫= conflicting c db with
          | [] =>
              inl (MkScanResult [] (key_value <$> xs) (Z.of_nat (length xs)) (total (kv_of <$> xs))
                     (match ks2 with [] => None | k :: _ => Some (resume_span c k) end)
                     (match ks2 with [] => RESUME_UNKNOWN | _ => RESUME_KEY_LIMIT end) 0 [])
          | ints => inr (WriteIntentError ints)
          end).
Proof. intros. by apply scan_reads. Qed.

(** C30: What a consistent get returns: the value the reader sees of the key, or nothing; with
    tombstones requested, a deletion also for a key that only a range tombstone covers; the
    intent of another transaction as an error; and a resume span if the value exceeds the byte
    limit of a request that may be empty.  The get has no uncertainty interval above its
    timestamp, and does not fail on more recent versions or skip locked keys ([plain_get]). *)
Theorem MVCCGet_reads {It} {M : MVCCIterator It} NewMVCCIterator db `{!IteratorLaws M db} fuel key timestamp opts
    (c := get_config maxItersBeforeSeek key timestamp opts) :
  0 <= maxItersBeforeSeek -> (forall b, batch_reader b = Ok (batch_entries b, None)) ->
  snapshot_ok db -> Forall (fun q => q_user q = key) (positions db) -> (length (positions db) + 1 <= fuel)%nat ->
  key <> [] -> 0 <= WallTime timestamp -> plain_get timestamp opts -> decodable db ->
  verdict_of c db key <> Fails -> Forall (fun x => kv_ok (kv_of x) /\ ts_wf (k_Timestamp x.1)) (got c db) ->
  MVCCGet batch_reader maxItersBeforeSeek fuel NewMVCCIterator key timestamp opts =
    Ok (match conflicting c db key with
        | [] =>
            inl (match got c db with
                 | [] => empty_get
                 | x :: _ =>
                     let n := Z.of_nat (length x.2) in
                     if (0 <? g_TargetBytes opts) && g_AllowEmpty opts && (g_TargetBytes opts <? n)
                     then MkGetResult None None (Some (MkSpan key None)) RESUME_BYTE_LIMIT n 0 0
                     else MkGetResult (Some (MkValue x.2 (k_Timestamp x.1))) None None RESUME_UNKNOWN 0 1 n
                 end)
        | ints => inr (WriteIntentError ints)
        end).
Proof. intros. by apply get_reads_value. Qed.

(** C34: A read is of the past: two stores of committed versions that agree on everything at or
    below the timestamp give the same scan, whatever was written above it, and whatever
    iterators they have.  The scan is consistent, has no limit on keys, bytes, rows or intents,
    no uncertainty interval above its timestamp, and does not fail on more recent versions or
    skip locked keys ([plain_scan]): the options under which what lies above the timestamp may
    show are off. *)
Theorem snapshot_reads {It It'} {M : MVCCIterator It} {M' : MVCCIterator It'}
    (new : IterKind -> IterOptions -> It) (new' : IterKind -> IterOptions -> It') db db'
    `{!IteratorLaws M db} `{!IteratorLaws M' db'} fuel fuel' key endKey timestamp opts
    (c := scan_config maxItersBeforeSeek key endKey timestamp opts) :
  0 <= maxItersBeforeSeek -> (forall b, batch_reader b = Ok (batch_entries b, None)) ->
  scannable c db fuel -> scannable c db' fuel' -> endKey <> [] -> plain_scan timestamp opts -> s_MaxKeys opts = 0 ->
  committed db -> committed db' -> agree c db db' ->
  MVCCScan batch_reader maxItersBeforeSeek fuel new key endKey timestamp opts =
  MVCCScan batch_reader maxItersBeforeSeek fuel' new' key endKey timestamp opts.
Proof.
  intros Mx Br Sb Sb' Ne Ps M0 Co Co' A.
  destruct (scan_reads batch_reader Br maxItersBeforeSeek Mx new db fuel key endKey timestamp opts Sb Ne Ps) as (ks & ? & El & So & N & _ & _ & ->).
  destruct (scan_reads batch_reader Br maxItersBeforeSeek Mx new' db' fuel' key endKey timestamp opts Sb' Ne Ps) as (ks' & ? & El' & So' & N' & _ & _ & ->).
  rewrite N, N' in * by done. rewrite app_nil_r in *. fold c. destruct Sb as [ok _ _ _ _], Sb' as [ok' _ _ _ _].
  assert (Sh : forall k, shown c db k = shown c db' k) by (intros k; unfold shown; by rewrite (agree_verdict c db db')).
  assert (Nc : forall d l, snapshot_ok d -> committed d -> (l ≫= conflicting c d) = []).
  { intros d l okd Cd. induction l as [|k l IH]; [done|]. rewrite bind_cons, IH, committed_conflict by done. done. }
  rewrite (Nc db), (Nc db') by done.
  assert (E : (ks ≫= shown c db) = (ks' ≫= shown c db')).
  { transitivity (ks' ≫= shown c db); [|by apply list_bind_ext].
    eapply (bind_sorted (if s_Reverse opts then flip blt else blt)); [exact So|exact So'|].
    intros k Nk. rewrite El, El'. split; intros _; (eapply shown_point; [done|]); [by rewrite <- Sh|done]. }
  by rewrite E.
Qed.
End Claims.
