(* ===== verification/ReadExamples.v ===== *)
(** Reads of concrete stores.

    An instance of the code the scanner calls, with its laws; a store with versions, a deletion,
    a range tombstone and an intent, on which the theorems about reads are applied; and two
    stores on which reads do not do what their documentation says. *)
From stdpp Require Import sorting.
From S2P Require Import Prelude Bytes GoLib Hlc KeyOps Spans MvccKey RangeKeys MvccValue MvccIter Scanner ScanSpec ScanNav ScanOk SqlKeys PebbleResults ScanRead MvccRead MvccReadOk.

(** * Libraries *)

#[local] Instance example_HeaderLib : HeaderLib := {|
  hdr_Marshal h := ts_body (LocalTimestamp h);
  hdr_Unmarshal b := t ← decodeMVCCTimestamp b; Ok (MkHeader t)
|}.

Definition ts_at (n : Z) : Timestamp := MkTimestamp n 0 false.
Definition txn_of (id : Z) : TxnMeta := MkTxnMeta [id] [] 0 (ts_at 6) EmptyTimestamp 0 0.
Definition intent_meta (id n : Z) : MVCCMetadata :=
  MkMetadata (Some (txn_of id)) (MkLegacyTimestamp n 0 None) false 0 0 None [] None None.

(** Metadata is its transaction's identifier and the intent's timestamp. *)
#[local] Instance example_lib : ScanLib := {|
  scan_HeaderLib := example_HeaderLib;
  account := unit;
  Grow a _ := Ok a;
  batch := list (bytes * bytes);
  batch_empty := [];
  batch_Set b k v := Ok (b ++ [(k, v)]);
  batch_Count b := Z.of_nat (length b);
  UnmarshalMeta b := match b with [id; n] => Ok (intent_meta id n) | _ => Err "bad metadata" end;
  MarshalMeta m := Ok [];
  IsKeyLockedByConflictingTxn _ _ := (false, None)
|}.

#[local] Instance example_laws : ScanLaws example_lib.
Proof.
  refine {| batch_entries := fun b : @batch example_lib => b |}; cbn; try done; eauto.
Defined.

Definition example_reader (b : @batch example_lib) : res (list (bytes * bytes) * option string) := Ok (b, None).

(** Checks a concrete store. *)
Ltac concrete_ok :=
  split;
  [repeat constructor
  |repeat (apply List.Forall_cons; [split; [done|first [by left|right; by repeat split]]|]); apply List.Forall_nil
  |repeat (apply List.Forall_cons;
      [split; [done|]; split; [by repeat constructor|]; repeat (apply List.Forall_cons; [by repeat split|]); apply List.Forall_nil|]);
   apply List.Forall_nil
  |let q := fresh in let I := fresh in intros q I%list_elem_of_In; cbn in I; repeat destruct I as [<-|I]; done
  |let s := fresh in let I := fresh in
   intros s I%list_elem_of_In; cbn in I; repeat destruct I as [<-|I]; try done;
   setoid_rewrite list_elem_of_In; cbn; eauto 12
  |let w := fresh in let I := fresh in
   intros w I%list_elem_of_In; cbn in I; repeat destruct I as [<-|I]; try done;
   intros _ _ _; setoid_rewrite list_elem_of_In; cbn; eauto 12].

(** * A store *)

Definition value_of (n : Z) : bytes := [0; 0; 0; 0; 3; n].
Definition version (key : bytes) (n : Z) (v : bytes) : pos := MkPos (MkMVCCKey key (ts_at n)) (Some v).
Definition tombstone (n : Z) : MVCCRangeKeyVersion := MkVersion (ts_at n) [].

Definition store : snapshot :=
  MkSnapshot
    [version [97] 5 (value_of 15); version [97] 3 (value_of 13);
     version [98] 4 [];
     MkPos (MkMVCCKey [99] EmptyTimestamp) None; version [99] 2 (value_of 22);
     MkPos (MkMVCCKey [100] EmptyTimestamp) (Some [9; 6]); version [100] 6 (value_of 66); version [100] 4 (value_of 64)]
    [MkStack (MkSpan [99] (Some [101])) [tombstone 3]].

Lemma sample_store_ok : snapshot_ok store.
Proof. concrete_ok. Qed.

(** * Reads of the store *)

Definition read_options (maxKeys : Z) (reverse failOnMoreRecent : bool) (txn : option Transaction) (limit : Timestamp) : MVCCScanOptions :=
  MkScanOptions false false false reverse failOnMoreRecent txn (MkInterval limit EmptyTimestamp) maxKeys 0 false 0 0 tt false.
Definition get_options : MVCCGetOptions :=
  MkGetOptions false false true false None (MkInterval EmptyTimestamp EmptyTimestamp) tt false 0 0 false.

Definition scan_store (db : snapshot) := MVCCScan (M := ref_iterator db) example_reader 10 30 (fun _ _ => MkRef Lo false).

(** Values of the versions of a store decode. *)
Lemma store_decodable : decodable store.
Proof.
  split.
  - repeat (apply List.Forall_cons; [intros N; first [by destruct N|eexists; vm_compute; reflexivity]|]). apply List.Forall_nil.
  - apply Forall_singleton, Forall_singleton. eexists. vm_compute. reflexivity.
Qed.

Lemma small_pair x : (length (mvcc_bytes x.1) + length x.2 <= 100)%nat -> kv_ok (kv_of x).
Proof. intros H. unfold kv_ok, kv_size, kv_of, pebbleResultsKVSizeOf. cbn [fst snd]. lia. Qed.

Lemma small_time n : 0 <= n < 100 -> ts_wf (ts_at n).
Proof. intros H. split; unfold isS; cbn; lia. Qed.

(** Pairs of a concrete list are small. *)
Ltac small_pairs :=
  match goal with |- Forall _ ?l => let v := eval vm_compute in l in change l with v end;
  repeat (apply List.Forall_cons; [split; [apply small_pair; vm_compute; lia|apply small_time; lia]|]); apply List.Forall_nil.
Ltac readable_key := split; [vm_compute; discriminate|small_pairs].

Definition options5 : MVCCScanOptions := read_options 0 false false None EmptyTimestamp.
Abbreviation config5 := (scan_config 10 [97] [101] (ts_at 5) options5).

Lemma store_span : in_span config5 store.
Proof. repeat (apply List.Forall_cons; [split; by vm_compute|]). apply List.Forall_nil. Qed.

Lemma store_scannable : scannable config5 store 30.
Proof.
  split; [apply sample_store_ok|apply store_span|cbn; lia|apply store_decodable|].
  intros q I%list_elem_of_In _. cbn in I. repeat (destruct I as [<-|I]; [readable_key|]). done.
Qed.

Lemma MVCCScan_reads_witness :
  exists ks r, scan_store store [97] [101] (ts_at 5) options5 = Ok (inl r) /\
    sr_KVs r = key_value <$> (ks ≫= shown config5 store) /\ StronglySorted blt ks /\ sr_ResumeSpan r = None.
Proof.
  destruct (MVCCScan_reads (M := ref_iterator store) 10 example_reader (fun _ _ => MkRef Lo false) store 30 [97] [101] (ts_at 5) options5)
    as (ks1 & ks2 & _ & So & M0 & _ & _ & E).
  - lia.
  - done.
  - apply store_scannable.
  - done.
  - by split.
  - specialize (M0 eq_refl). subst ks2. rewrite app_nil_r in So.
    assert (exists r, scan_store store [97] [101] (ts_at 5) options5 = Ok (inl r)) as [r V] by (vm_compute; eauto).
    exists ks1, r. split; [exact V|]. unfold scan_store in V. rewrite E in V. destruct (ks1 ≫= conflicting config5 store); [|discriminate V].
    injection V as <-. split; [reflexivity|]. split; [exact So|reflexivity].
Defined.

(** The store under one key. *)
Definition deleted : snapshot :=
  MkSnapshot [MkPos (MkMVCCKey [99] EmptyTimestamp) None; version [99] 2 (value_of 22)] [MkStack (MkSpan [99] (Some [101])) [tombstone 3]].

Lemma deleted_ok : snapshot_ok deleted.
Proof. concrete_ok. Qed.

Lemma MVCCGet_reads_witness :
  MVCCGet (M := ref_iterator deleted) example_reader 10 30 (fun _ _ => MkRef Lo false) [99] (ts_at 5) get_options
  = Ok (inl (MkGetResult (Some (MkValue [] (ts_at 3))) None None RESUME_UNKNOWN 0 1 0)).
Proof.
  rewrite (MVCCGet_reads (M := ref_iterator deleted) 10 example_reader (fun _ _ => MkRef Lo false) deleted 30 [99] (ts_at 5) get_options).
  - vm_compute. reflexivity.
  - lia.
  - done.
  - apply deleted_ok.
  - by repeat constructor.
  - cbn. lia.
  - done.
  - cbn. lia.
  - by split.
  - split.
    + repeat (apply List.Forall_cons; [intros N; first [by destruct N|eexists; vm_compute; reflexivity]|]). apply List.Forall_nil.
    + apply Forall_singleton, Forall_singleton. eexists. vm_compute. reflexivity.
  - vm_compute. discriminate.
  - small_pairs.
Defined.

Definition locking_options : MVCCScanOptions := read_options 2 true true None EmptyTimestamp.
Abbreviation locking_config := (scan_config 10 [97] [101] (ts_at 5) locking_options).

(** What a scan returns. *)
Definition returned {A} (a : res (A * scan_result)) : res scan_result := '(_, x) ← a; Ok x.

Lemma scan_refines_witness :
  returned (reference_scan locking_config store (start_out (L := example_lib) new_results tt))
  = Ok (inr (WriteTooOldError (ts_at 5) (MkTimestamp 5 1 false) [97])).
Proof.
  refine (eq_trans (f_equal returned (eq_sym (scan_refines (L := example_lib) (M := ref_iterator store) locking_config store 30 (MkRef Lo false) new_results tt _ _ _ _ _))) _).
  - apply sample_store_ok.
  - apply store_span.
  - cbn. lia.
  - cbn. lia.
  - done.
  - vm_compute. reflexivity.
Defined.

(** ** Stores of versions only *)

Lemma versions_ok l : StronglySorted q_lt l -> Forall (fun q => q_user q <> [] /\ has_point q = true /\ ts_pos (q_ts q)) l -> snapshot_ok (MkSnapshot l []).
Proof.
  intros S F. rewrite List.Forall_forall in F. split; cbn; try done.
  - apply List.Forall_forall. intros q I. destruct (F q I) as (? & _ & ?). split; [done|by right].
  - intros q I%list_elem_of_In N. destruct (F q I) as (_ & H & _). unfold has_point in H. by rewrite N in H.
  - intros s I. by apply not_elem_of_nil in I.
Qed.

Definition before : snapshot := MkSnapshot [version [97] 3 (value_of 13); version [98] 2 (value_of 22)] [].
Definition after : snapshot :=
  MkSnapshot [version [97] 9 []; version [97] 3 (value_of 13); version [98] 2 (value_of 22); version [99] 8 (value_of 38)] [].

Ltac versions_store :=
  split;
  [apply versions_ok; [repeat constructor|repeat (apply List.Forall_cons; [by repeat split|]); apply List.Forall_nil]
  |repeat (apply List.Forall_cons; [split; by vm_compute|]); apply List.Forall_nil
  |cbn; lia
  |split; [repeat (apply List.Forall_cons; [intros _; eexists; vm_compute; reflexivity|]); apply List.Forall_nil|apply List.Forall_nil]
  |let q := fresh "q" in let I := fresh "I" in
   intros q I%list_elem_of_In _; cbn in I; repeat (destruct I as [<-|I]; [readable_key|]); done].

Lemma before_scannable : scannable config5 before 30.
Proof. versions_store. Qed.
Lemma after_scannable : scannable config5 after 30.
Proof. versions_store. Qed.

Lemma snapshot_reads_witness :
  scan_store before [97] [101] (ts_at 5) options5 = scan_store after [97] [101] (ts_at 5) options5.
Proof.
  apply (snapshot_reads (M := ref_iterator before) (M' := ref_iterator after) 10 example_reader (fun _ _ => MkRef Lo false) (fun _ _ => MkRef Lo false)
    before after 30 30 [97] [101] (ts_at 5) options5).
  - lia.
  - done.
  - apply before_scannable.
  - apply after_scannable.
  - done.
  - by split.
  - done.
  - by repeat constructor.
  - by repeat constructor.
  - intros key. cbn. unfold points. cbn. rewrite !andb_true_r. destruct (is_key key (version [97] 9 [])) eqn:E; cbn.
    + change (is_key key (version [97] 3 (value_of 13))) with (is_key key (version [97] 9 [])). rewrite E. by destruct (is_key key (version [98] 2 (value_of 22))), (is_key key (version [99] 8 (value_of 38))).
    + by destruct (is_key key (version [97] 3 (value_of 13))), (is_key key (version [98] 2 (value_of 22))), (is_key key (version [99] 8 (value_of 38))).
Defined.

(** * Result sets *)

Definition rowless : pebbleResults :=
  MkPebbleResults 2 50 (MkBuf (enc_kv (kv_of (MkMVCCKey [98] (ts_at 2), value_of 22))) 64)
    [MkBuf (enc_kv (kv_of (MkMVCCKey [97] (ts_at 3), value_of 13))) 32] true [0; 0] 0.

Lemma rowless_holds : holds rowless (kv_of <$> [(MkMVCCKey [97] (ts_at 3), value_of 13); (MkMVCCKey [98] (ts_at 2), value_of 22)]).
Proof.
  exists [[kv_of (MkMVCCKey [97] (ts_at 3), value_of 13)]], [kv_of (MkMVCCKey [98] (ts_at 2), value_of 22)].
  split; [done|]. split; [done|]. split; try done.
  - by repeat constructor.
  - repeat (apply List.Forall_cons; [split; by vm_compute|]). apply List.Forall_nil.
  - repeat (apply List.Forall_cons; [apply small_pair; vm_compute; lia|]). apply List.Forall_nil.
  - intros _. split; [cbn; lia|]. intros [|[|i]] x H; cbn; [by intros [= <-]..|cbn in H; lia].
Qed.

Lemma results_refine_witness :
  results_sizeInfo rowless 1 1 = (2, 50, 10) /\
  sim (fun b c => returns_kvs b.1 c.1 /\ b.2 = c.2) (results_maybeTrimPartialLastRow rowless [99])
    (list_trim_last 2 true (kv_of <$> [(MkMVCCKey [97] (ts_at 3), value_of 13); (MkMVCCKey [98] (ts_at 2), value_of 22)]) [99]).
Proof.
  destruct (results_refine (L := example_lib) rowless tt _ [99] [1] 0 [99] false rowless_holds) as (_ & Sz & _ & _ & T); [reflexivity|].
  split; [exact Sz|exact T].
Defined.

Lemma results_roundtrip_witness :
  ScanDecodeKeyValues collect [] (results_finish rowless) = Ok [([97], ts_at 3, value_of 13); ([98], ts_at 2, value_of 22)].
Proof.
  apply (results_roundtrip rowless [(MkMVCCKey [97] (ts_at 3), value_of 13); (MkMVCCKey [98] (ts_at 2), value_of 22)]).
  - apply holds_returns, rowless_holds.
  - repeat constructor; cbn; lia.
Defined.

(** * Reads that do not do what is documented *)

Definition swallowing : snapshot :=
  MkSnapshot [version [97] 2 (value_of 12); MkPos (MkMVCCKey [98] EmptyTimestamp) None; version [98] 1 (value_of 21)]
    [MkStack (MkSpan [98] (Some [99])) [tombstone 4]].

(** A scan that reaches its limit of keys in front of a range tombstone in its uncertainty
    interval loses what it has read: stepping to the next key for the resume span hits the
    uncertainty error, which clears the results, and [afterScan] takes the failed step for the
    end.  The caller gets an empty result, no error and nothing to resume, where the scan without
    the limit reports the uncertainty. *)
Theorem limit_loses_results :
  snapshot_ok swallowing /\
  scan_store swallowing [97] [101] (ts_at 3) (read_options 1 false false None (ts_at 5)) = Ok (inl empty_scan) /\
  scan_store swallowing [97] [101] (ts_at 3) (read_options 0 false false None (ts_at 5))
    = Ok (inr (FromScan (ReadWithinUncertaintyIntervalError (ts_at 3) EmptyTimestamp (ts_at 4) (ts_at 4)))) /\
  scan_store swallowing [97] [101] (ts_at 3) (read_options 1 false false None EmptyTimestamp)
    = Ok (inl (MkScanResult [] [MkKeyValue [97] (MkValue (value_of 12) (ts_at 2))] 1 25
                 (Some (MkSpan [98] (Some [101]))) RESUME_KEY_LIMIT 0 [])).
Proof. split; [concrete_ok|]. split; [|split]; vm_compute; reflexivity. Qed.

Definition shadowed (intent : bool) : snapshot :=
  MkSnapshot
    ((if intent then [MkPos (MkMVCCKey [97] EmptyTimestamp) (Some [9; 8]); version [97] 8 (value_of 18)]
      else [MkPos (MkMVCCKey [97] EmptyTimestamp) None]) ++ [version [98] 1 (value_of 21)])
    [MkStack (MkSpan [97] (Some [99])) [tombstone 6]].

(** A locking scan misses a newer range tombstone that starts at the transaction's own intent:
    the conflict check is skipped at an intent and not made again, so the old value of the next
    key is returned, where a scan of the same store without the intent fails with a
    [WriteTooOldError]. *)
Theorem locking_scan_misses_tombstone :
  (forall intent, snapshot_ok (shadowed intent)) /\
  (exists r, scan_store (shadowed true) [97] [101] (ts_at 5) (read_options 0 false true (Some (MkTransaction (txn_of 9) (ts_at 6) [])) EmptyTimestamp) = Ok (inl r) /\
    MkKeyValue [98] (MkValue (value_of 21) (ts_at 1)) ∈ sr_KVs r) /\
  scan_store (shadowed false) [97] [101] (ts_at 5) (read_options 0 false true (Some (MkTransaction (txn_of 9) (ts_at 6) [])) EmptyTimestamp)
    = Ok (inr (FromScan (WriteTooOldError (ts_at 5) (MkTimestamp 6 1 false) [97]))).
Proof.
  split; [intros []; concrete_ok|]. split; [|vm_compute; reflexivity]. eexists. split; [vm_compute; reflexivity|]. right. left.
Qed.
