(* ===== verification/StoreOps.v ===== *)
(** Changes to a store.

    What a write does to the positions of a store: a point is set or cleared.  A set of a point
    keeps the store well-formed, touches no other key, and on the points of its key is an
    insertion into the sorted list.  [prefix_view] is what an iterator confined to one key
    sees. *)
From stdpp Require Import sorting.
From S2P Require Import Prelude Bytes GoLib Hlc KeyOps Spans MvccKey RangeKeys MvccIter Scanner ScanSpec ScanNav ScanRead.

#[export] Instance MVCCKey_eq_dec : EqDecision MVCCKey.
Proof. solve_decision. Defined.

(** * Setting and clearing points *)

Definition before (k : MVCCKey) (l : list pos) : list pos := List.filter (fun q => MVCCKey_Less (q_key q) k) l.
Definition after (k : MVCCKey) (l : list pos) : list pos := List.filter (fun q => MVCCKey_Less k (q_key q)) l.

Definition put_pos (k : MVCCKey) (v : bytes) (l : list pos) : list pos := before k l ++ MkPos k (Some v) :: after k l.
Definition clear_pos (k : MVCCKey) (l : list pos) : list pos := before k l ++ after k l.

Definition put_point (db : snapshot) (k : MVCCKey) (v : bytes) : snapshot := MkSnapshot (put_pos k v (positions db)) (stacks db).
Definition clear_point (db : snapshot) (k : MVCCKey) : snapshot := MkSnapshot (clear_pos k (positions db)) (stacks db).

(** Clearing the metadata of a key: where a stack of range keys starts, a bare position stays. *)
Definition bare_pos (k : MVCCKey) (l : list pos) : list pos := before k l ++ MkPos k None :: after k l.
Definition starts_at (db : snapshot) (key : bytes) : bool := existsb (fun s => beqb (Key (Bounds s)) key) (stacks db).
Definition clear_meta (db : snapshot) (key : bytes) : snapshot :=
  let k := MkMVCCKey key EmptyTimestamp in
  MkSnapshot (if starts_at db key then bare_pos k (positions db) else clear_pos k (positions db)) (stacks db).

(** Every key of a stack's span is under that stack, its start among them. *)
Record fragmented (db : snapshot) : Prop := {
  fr_stack s key : s ∈ stacks db -> Span_ContainsKey (Bounds s) key = true -> stack_at db key = s;
  fr_start s : s ∈ stacks db -> Span_ContainsKey (Bounds s) (Key (Bounds s)) = true
}.

(** Keys one of which comes first. *)
Definition apart (k l : MVCCKey) : Prop := MVCCKey_Less k l = true \/ MVCCKey_Less l k = true.

#[export] Instance apart_dec k l : Decision (apart k l).
Proof. unfold apart. apply _. Defined.

Lemma apart_user k l : k_Key k <> k_Key l -> apart k l.
Proof.
  unfold apart. rewrite !Less_spec. intros N. destruct (bytes_compare_spec (k_Key k) (k_Key l)) as [E|B|B]; [done|by left; left|by right; left].
Qed.

(** ** Filters *)

Lemma filter_comm {A} (p q : A -> bool) l : List.filter p (List.filter q l) = List.filter q (List.filter p l).
Proof. induction l as [|x l IH]; [done|]. cbn. destruct (q x) eqn:Q, (p x) eqn:Pp; cbn; rewrite ?Q, ?Pp, IH; done. Qed.

Lemma filter_put (p : pos -> bool) k v l : p (MkPos k (Some v)) = true -> List.filter p (put_pos k v l) = put_pos k v (List.filter p l).
Proof. intros E. unfold put_pos, before, after. rewrite filter_app. cbn. rewrite E. f_equal; [apply filter_comm|]. f_equal. apply filter_comm. Qed.

Lemma filter_other (p : pos -> bool) k l : Forall (fun q => p q = true -> apart (q_key q) k) l -> StronglySorted q_lt l ->
  List.filter p (before k l) ++ List.filter p (after k l) = List.filter p l.
Proof.
  intros F S. unfold before, after. induction S as [|x l S IH Fx]; [done|]. apply Forall_cons in F as [Nx F]. cbn.
  destruct (MVCCKey_Less (q_key x) k) eqn:B.
  - rewrite (Less_asym _ _ B). cbn. destruct (p x); cbn; by rewrite IH.
  - assert (Fb : List.filter (fun q => MVCCKey_Less (q_key q) k) l = []).
    { apply filter_none. eapply Forall_impl; [done|]. intros y Ly. apply not_true_is_false. intros C. by rewrite (Less_trans _ _ _ Ly C) in B. }
    rewrite Fb in IH |- *. cbn in IH |- *. destruct (p x) eqn:Px.
    + destruct (Nx eq_refl) as [C|C]; [by rewrite C in B|]. rewrite C. cbn. rewrite Px. f_equal. by apply IH.
    + destruct (MVCCKey_Less k (q_key x)); cbn; rewrite ?Px; by apply IH.
Qed.

Lemma before_Forall k l : Forall (fun q => MVCCKey_Less (q_key q) k = true) (before k l).
Proof. apply filter_Forall. Qed.
Lemma after_Forall k l : Forall (fun q => MVCCKey_Less k (q_key q) = true) (after k l).
Proof. apply filter_Forall. Qed.

Lemma sorted_kept (p : pos -> bool) l : StronglySorted q_lt l -> StronglySorted q_lt (List.filter p l).
Proof. induction 1 as [|x l S IH F]; cbn; [constructor|]. destruct (p x); [|done]. constructor; [done|by apply Forall_filter]. Qed.

Lemma sorted_join l1 l2 : StronglySorted q_lt l1 -> StronglySorted q_lt l2 -> (forall x y, x ∈ l1 -> y ∈ l2 -> q_lt x y) ->
  StronglySorted q_lt (l1 ++ l2).
Proof.
  intros S1 S2 J. induction S1 as [|x l S IH F]; [done|]. cbn. constructor.
  - apply IH. intros a b Ia Ib. apply J; [by right|done].
  - apply Forall_app. split; [done|]. apply Forall_forall. intros y Iy. apply J; [left|done].
Qed.

Lemma set_sorted k o l : StronglySorted q_lt l -> StronglySorted q_lt (before k l ++ MkPos k o :: after k l).
Proof.
  intros S. apply sorted_join; [by apply sorted_kept|constructor; [by apply sorted_kept|apply after_Forall]|].
  intros x y Ix Iy. pose proof (before_Forall k l) as B. pose proof (after_Forall k l) as Af. rewrite Forall_forall in B, Af. specialize (B x Ix).
  apply elem_of_cons in Iy as [->|Iy]; [done|]. unfold q_lt. by eapply Less_trans; [|apply Af].
Qed.
Lemma put_sorted k v l : StronglySorted q_lt l -> StronglySorted q_lt (put_pos k v l).
Proof. apply set_sorted. Qed.
Lemma clear_sorted k l : StronglySorted q_lt l -> StronglySorted q_lt (clear_pos k l).
Proof.
  intros S. apply sorted_join; [by apply sorted_kept..|]. intros x y Ix Iy.
  pose proof (before_Forall k l) as B. pose proof (after_Forall k l) as Af. rewrite Forall_forall in B, Af.
  unfold q_lt. eapply Less_trans; [by apply B|by apply Af].
Qed.

Lemma elem_before x k l : x ∈ before k l <-> x ∈ l /\ MVCCKey_Less (q_key x) k = true.
Proof. unfold before. rewrite !list_elem_of_In. apply List.filter_In. Qed.
Lemma elem_after x k l : x ∈ after k l <-> x ∈ l /\ MVCCKey_Less k (q_key x) = true.
Proof. unfold after. rewrite !list_elem_of_In. apply List.filter_In. Qed.

(** What is in a store after a put: the point, and what was not at its key. *)
Lemma elem_put x k v l : x ∈ put_pos k v l <-> x = MkPos k (Some v) \/ (x ∈ l /\ apart (q_key x) k).
Proof. unfold put_pos, apart. rewrite elem_of_app, elem_of_cons, elem_before, elem_after. naive_solver. Qed.
Lemma elem_clear x k l : x ∈ clear_pos k l <-> x ∈ l /\ apart (q_key x) k.
Proof. unfold clear_pos, apart. rewrite elem_of_app, elem_before, elem_after. naive_solver. Qed.

Lemma elem_bare x k l : x ∈ bare_pos k l <-> x = MkPos k None \/ (x ∈ l /\ apart (q_key x) k).
Proof. unfold bare_pos, apart. rewrite elem_of_app, elem_of_cons, elem_before, elem_after. naive_solver. Qed.

(** * The store after a put *)

(** A store that is well-formed but perhaps for the metadata of one key, as between the writes of
    an intent and its version. *)
Record ok_but (key : bytes) (db : snapshot) : Prop := {
  ob_sorted : StronglySorted q_lt (positions db);
  ob_pos : Forall q_ok (positions db);
  ob_stacks : Forall stack_ok (stacks db);
  ob_bare q : q ∈ positions db -> q_val q = None ->
    q_ts q = EmptyTimestamp /\ Key (Bounds (stack_at db (q_user q))) = q_user q /\ Stack_IsEmpty (stack_at db (q_user q)) = false;
  ob_start s : s ∈ stacks db -> exists q, q ∈ positions db /\ q_key q = MkMVCCKey (Key (Bounds s)) EmptyTimestamp;
  ob_meta w : w ∈ positions db -> q_user w <> key -> has_point w = true -> q_ts w = EmptyTimestamp ->
    Stack_IsEmpty (stack_at db (q_user w)) = false ->
    exists x, x ∈ positions db /\ q_user x = q_user w /\ q_ts x <> EmptyTimestamp
}.

Lemma ok_ok_but key db : snapshot_ok db -> ok_but key db.
Proof. intros []. split; eauto. Qed.

Lemma ok_but_ok key db x : ok_but key db -> x ∈ positions db -> q_user x = key -> q_ts x <> EmptyTimestamp -> snapshot_ok db.
Proof.
  intros [] I U N. split; try done. intros w Iw Hw Tw Sw. destruct (decide (q_user w = key)) as [E|D]; [|by eauto].
  exists x. split; [done|]. split; [congruence|done].
Qed.

Lemma key_apart x k : q_ts x = EmptyTimestamp -> k_Timestamp k <> EmptyTimestamp -> apart (q_key x) k.
Proof.
  intros T N. destruct (decide (q_user x = k_Key k)) as [E|D]; [|by apply apart_user]. left. apply Less_spec. right. split; [done|]. by left.
Qed.

Section Put.
Context (db : snapshot) (k : MVCCKey) (v : bytes) (ok : ok_but (k_Key k) db).

Lemma put_but : q_ok (MkPos k (Some v)) -> ok_but (k_Key k) (put_point db k v).
Proof.
  intros Qk. destruct ok as [So Po St Ba Sr Me]. split; cbn [put_point positions stacks].
  - by apply put_sorted.
  - apply Forall_forall. intros x [->|[I _]]%elem_put; [done|]. rewrite Forall_forall in Po. by apply Po.
  - done.
  - intros q [->|[I _]]%elem_put V; [done|]. by apply Ba.
  - intros s I. destruct (Sr s I) as (q & Iq & Eq). destruct (decide (k = q_key q)) as [E|N].
    + exists (MkPos k (Some v)). split; [|by rewrite <- Eq, <- E]. apply elem_put. by left.
    + exists q. split; [|done]. apply elem_put. right. split; [done|].
      destruct (decide (k_Key k = Key (Bounds s))) as [E|D]; [|apply apart_user; by rewrite Eq].
      apply key_apart; [unfold q_ts; by rewrite Eq|]. intros T. apply N. rewrite Eq. destruct k; cbn in *; congruence.
  - intros w [->|[I A]]%elem_put Nw Hp Tw Ew; [done|]. destruct (Me w I Nw Hp Tw Ew) as (x & Ix & Ux & Nx). exists x.
    split; [|done]. apply elem_put. right. split; [done|]. apply apart_user. unfold q_user in *. congruence.
Qed.

Lemma clear_but : k_Timestamp k <> EmptyTimestamp -> ok_but (k_Key k) (clear_point db k).
Proof.
  intros Nk. destruct ok as [So Po St Ba Sr Me]. split; cbn [clear_point positions stacks].
  - by apply clear_sorted.
  - apply Forall_forall. intros x [I _]%elem_clear. rewrite Forall_forall in Po. by apply Po.
  - done.
  - intros q [I _]%elem_clear V. by apply Ba.
  - intros s I. destruct (Sr s I) as (q & Iq & Eq). exists q. split; [|done]. apply elem_clear. split; [done|].
    apply key_apart; [unfold q_ts; by rewrite Eq|done].
  - intros w [I A]%elem_clear Nw Hp Tw Ew. destruct (Me w I Nw Hp Tw Ew) as (x & Ix & Ux & Nx). exists x.
    split; [|done]. apply elem_clear. split; [done|]. apply apart_user. unfold q_user in *. congruence.
Qed.
End Put.

(** A put of a version leaves the store well-formed. *)
Lemma put_version_ok db key t v : ok_but key db -> key <> [] -> ts_pos t -> snapshot_ok (put_point db (MkMVCCKey key t) v).
Proof.
  intros Ob Nk Tp. assert (Nt : t <> EmptyTimestamp) by (intros ->; destruct Tp as (_ & B & _); by apply lt_ts_irrefl in B).
  apply (ok_but_ok key _ (MkPos (MkMVCCKey key t) (Some v))); [|apply elem_put; by left|done|done].
  apply (put_but db (MkMVCCKey key t) v Ob). split; [done|]. by right.
Qed.

(** Clearing the metadata of a key leaves the store well-formed. *)
Lemma elem_clear_meta x db key : x ∈ positions (clear_meta db key) <->
  (x = MkPos (MkMVCCKey key EmptyTimestamp) None /\ starts_at db key = true) \/ (x ∈ positions db /\ apart (q_key x) (MkMVCCKey key EmptyTimestamp)).
Proof. unfold clear_meta. cbn [positions]. destruct (starts_at db key); [rewrite elem_bare|rewrite elem_clear]; naive_solver. Qed.

Lemma starts_stack db key : fragmented db -> starts_at db key = true -> exists s, s ∈ stacks db /\ Key (Bounds s) = key /\ stack_at db key = s.
Proof.
  intros Fr (s & I%list_elem_of_In & E%beqb_true)%existsb_exists. exists s. split; [done|]. split; [done|].
  apply (fr_stack db Fr); [done|]. rewrite <- E. by apply (fr_start db Fr).
Qed.

Lemma meta_not_apart x key : q_user x = key -> q_ts x = EmptyTimestamp -> ~ apart (q_key x) (MkMVCCKey key EmptyTimestamp).
Proof.
  unfold q_user, q_ts, apart. destruct (q_key x) as [k t]. cbn. intros -> -> [E|E]; by rewrite Less_irrefl in E.
Qed.

Lemma clear_meta_ok db key : fragmented db -> ok_but key db -> key <> [] -> snapshot_ok (clear_meta db key).
Proof.
  intros Fr [So Po St Ba Sr Me] Nk. split.
  - unfold clear_meta. cbn [positions]. destruct (starts_at db key); [by apply set_sorted|by apply clear_sorted].
  - apply Forall_forall. intros x [[-> _]|[I _]]%elem_clear_meta; [split; [done|by left]|]. rewrite Forall_forall in Po. by apply Po.
  - done.
  - intros q [[-> Sa]|[I _]]%elem_clear_meta V; [|by apply Ba]. destruct (starts_stack db key Fr Sa) as (s & I & Es & Ea).
    change (stack_at (clear_meta db key) (q_user (MkPos (MkMVCCKey key EmptyTimestamp) None))) with (stack_at db key). rewrite Ea. split; [done|]. split; [done|].
    rewrite Forall_forall in St. destruct (St s I) as [N _]. unfold Stack_IsEmpty, Versions_IsEmpty. by destruct (Versions s).
  - intros s I. cbn [clear_meta stacks] in I. destruct (decide (Key (Bounds s) = key)) as [E|N].
    + exists (MkPos (MkMVCCKey key EmptyTimestamp) None). split; [|by rewrite <- E]. apply elem_clear_meta. left. split; [done|].
      apply existsb_exists. exists s. split; [by apply list_elem_of_In|by apply beqb_true].
    + destruct (Sr s I) as (q & Iq & Eq). exists q. split; [|done]. apply elem_clear_meta. right. split; [done|]. apply apart_user. by rewrite Eq.
  - intros w [[-> _]|[I A]]%elem_clear_meta Hp Tw Ew; [done|]. destruct (decide (q_user w = key)) as [E|N]; [by destruct (meta_not_apart w key E Tw)|].
    destruct (Me w I N Hp Tw Ew) as (x & Ix & Ux & Nx). exists x. split; [|done]. apply elem_clear_meta. right. split; [done|].
    apply apart_user. unfold q_user in *. cbn. congruence.
Qed.

(** ** Other keys *)

Section Others.
Context (db : snapshot) (sorted : StronglySorted q_lt (positions db)) (k : MVCCKey) (v : bytes).
Implicit Types p : pos -> bool.

(** A set of positions without those of the key. *)
Definition elsewhere p : Prop := forall q, p q = true -> q_user q <> k_Key k.

Lemma put_elsewhere p : elsewhere p -> List.filter p (put_pos k v (positions db)) = List.filter p (positions db).
Proof.
  intros E. unfold put_pos. rewrite filter_app. cbn. destruct (p (MkPos k (Some v))) eqn:X; [by destruct (E _ X)|].
  apply filter_other; [|exact sorted]. apply Forall_forall. intros q _ Pq. apply apart_user. by apply E.
Qed.
Lemma clear_elsewhere p : elsewhere p -> List.filter p (clear_pos k (positions db)) = List.filter p (positions db).
Proof.
  intros E. unfold clear_pos. rewrite filter_app.
  apply filter_other; [|exact sorted]. apply Forall_forall. intros q _ Pq. apply apart_user. by apply E.
Qed.

Lemma elsewhere_below : elsewhere (fun q => bltb (q_user q) (k_Key k)).
Proof. intros q B E. rewrite E in B. bcases; [border|done]. Qed.
Lemma elsewhere_above : elsewhere (fun q => bltb (k_Key k) (q_user q)).
Proof. intros q B E. rewrite E in B. bcases; [border|done]. Qed.
Lemma elsewhere_points key : key <> k_Key k -> elsewhere (fun q => is_key key q && has_point q).
Proof. intros N q [K%beqb_true _]%andb_true_iff. by rewrite K. Qed.

Lemma points_put : points (put_point db k v) (k_Key k) = put_pos k v (points db (k_Key k)).
Proof. apply filter_put. unfold is_key, q_user. cbn. bcases; done. Qed.
Lemma points_clear key : points (clear_point db k) key = clear_pos k (points db key).
Proof. unfold points, clear_point, clear_pos, before, after. cbn. rewrite filter_app. f_equal; apply filter_comm. Qed.
Lemma points_put_other key : key <> k_Key k -> points (put_point db k v) key = points db key.
Proof. intros N. by apply put_elsewhere, elsewhere_points. Qed.
Lemma points_clear_other key : key <> k_Key k -> points (clear_point db k) key = points db key.
Proof. intros N. by apply clear_elsewhere, elsewhere_points. Qed.
End Others.

Lemma points_put_at db key t v : points (put_point db (MkMVCCKey key t) v) key = put_pos (MkMVCCKey key t) v (points db key).
Proof. exact (points_put db (MkMVCCKey key t) v). Qed.

Lemma clear_meta_elsewhere db key p : StronglySorted q_lt (positions db) -> elsewhere (MkMVCCKey key EmptyTimestamp) p ->
  List.filter p (positions (clear_meta db key)) = List.filter p (positions db).
Proof.
  intros sorted E. unfold clear_meta. cbn [positions]. destruct (starts_at db key); [|by apply clear_elsewhere].
  unfold bare_pos. rewrite filter_app. cbn. destruct (p (MkPos (MkMVCCKey key EmptyTimestamp) None)) eqn:X; [by destruct (E _ X)|].
  apply filter_other; [|exact sorted]. apply Forall_forall. intros q _ Pq. apply apart_user. by apply E.
Qed.
Lemma points_clear_meta db key : points (clear_meta db key) key = clear_pos (MkMVCCKey key EmptyTimestamp) (points db key).
Proof.
  unfold points, clear_meta. cbn [positions]. destruct (starts_at db key); [|exact (points_clear db (MkMVCCKey key EmptyTimestamp) key)].
  unfold bare_pos, clear_pos, before, after. rewrite filter_app. cbn. rewrite andb_false_r. f_equal; apply filter_comm.
Qed.

(** ** The points of a key *)

Section Shape.
Context (key : bytes) (t : Timestamp) (v : bytes) (Nt : t <> EmptyTimestamp).

Definition version_of (q : pos) : Prop := q_user q = key /\ q_ts q <> EmptyTimestamp.
Definition older (q : pos) : Prop := version_of q /\ lt_ts (q_ts q) t.
Definition meta_of (m : pos) : Prop := q_user m = key /\ q_ts m = EmptyTimestamp.

Lemma older_after q : older q -> MVCCKey_Less (q_key q) (MkMVCCKey key t) = false /\ MVCCKey_Less (MkMVCCKey key t) (q_key q) = true.
Proof.
  intros [[U N] Lt]. assert (Less : MVCCKey_Less (MkMVCCKey key t) (q_key q) = true); [|split; [by apply Less_asym|done]].
  apply Less_spec. right. split; [done|]. by right.
Qed.
Lemma meta_before m : meta_of m -> MVCCKey_Less (q_key m) (MkMVCCKey key t) = true.
Proof. intros [U E]. apply Less_spec. right. split; [done|]. by left. Qed.
Lemma version_after q : version_of q ->
  MVCCKey_Less (q_key q) (MkMVCCKey key EmptyTimestamp) = false /\ MVCCKey_Less (MkMVCCKey key EmptyTimestamp) (q_key q) = true.
Proof.
  intros [U N]. assert (Less : MVCCKey_Less (MkMVCCKey key EmptyTimestamp) (q_key q) = true); [|split; [by apply Less_asym|done]].
  apply Less_spec. right. split; [done|]. by left.
Qed.

Lemma split_all k vs : Forall (fun q => MVCCKey_Less (q_key q) k = false /\ MVCCKey_Less k (q_key q) = true) vs ->
  before k vs = [] /\ after k vs = vs.
Proof.
  intros F. split; [apply filter_none|apply filter_all]; (eapply Forall_impl; [done|]); by intros q [].
Qed.

Lemma split_older vs : Forall older vs -> before (MkMVCCKey key t) vs = [] /\ after (MkMVCCKey key t) vs = vs.
Proof. intros F. apply split_all. eapply Forall_impl; [done|]. apply older_after. Qed.
Lemma split_versions vs : Forall version_of vs -> before (MkMVCCKey key EmptyTimestamp) vs = [] /\ after (MkMVCCKey key EmptyTimestamp) vs = vs.
Proof. intros F. apply split_all. eapply Forall_impl; [done|]. apply version_after. Qed.

(** The same key in the order. *)
Definition same_key (q : pos) (k : MVCCKey) : Prop := MVCCKey_Less (q_key q) k = false /\ MVCCKey_Less k (q_key q) = false.

Lemma same_version q : q_user q = key -> q_ts q <> EmptyTimestamp -> Timestamp_EqOrdering (q_ts q) t = true -> same_key q (MkMVCCKey key t).
Proof.
  intros U N E. assert (A : forall a b, Timestamp_EqOrdering a b = true -> ~ lt_ts a b /\ ~ lt_ts b a) by (intros a b; ts).
  destruct (A _ _ E) as [A1 A2]. unfold q_user, q_ts in *.
  split; apply not_true_is_false; intros [B|[_ [[T _]|(_ & _ & B)]]]%Less_spec; cbn in *; try done; rewrite U in B; border.
Qed.

Lemma skip_same k q vs : same_key q k -> before k (q :: vs) = before k vs /\ after k (q :: vs) = after k vs.
Proof. intros [E1 E2]. unfold before, after. cbn. by rewrite E1, E2. Qed.

Lemma put_newest vs : Forall older vs -> put_pos (MkMVCCKey key t) v vs = MkPos (MkMVCCKey key t) (Some v) :: vs.
Proof. intros F. unfold put_pos. by destruct (split_older vs F) as [-> ->]. Qed.

Lemma keep_meta m vs : meta_of m ->
  before (MkMVCCKey key t) (m :: vs) = m :: before (MkMVCCKey key t) vs /\ after (MkMVCCKey key t) (m :: vs) = after (MkMVCCKey key t) vs.
Proof. intros M. pose proof (meta_before m M) as B. unfold before, after. cbn. rewrite B, (Less_asym _ _ B). done. Qed.

Lemma put_under_meta m vs : meta_of m -> put_pos (MkMVCCKey key t) v (m :: vs) = m :: put_pos (MkMVCCKey key t) v vs.
Proof. intros M. unfold put_pos. by destruct (keep_meta m vs M) as [-> ->]. Qed.
Lemma clear_under_meta m vs : meta_of m -> clear_pos (MkMVCCKey key t) (m :: vs) = m :: clear_pos (MkMVCCKey key t) vs.
Proof. intros M. unfold clear_pos. by destruct (keep_meta m vs M) as [-> ->]. Qed.

Lemma put_replaces q vs : same_key q (MkMVCCKey key t) -> Forall older vs ->
  put_pos (MkMVCCKey key t) v (q :: vs) = MkPos (MkMVCCKey key t) (Some v) :: vs.
Proof. intros E F. unfold put_pos. destruct (skip_same _ q vs E) as [-> ->]. by destruct (split_older vs F) as [-> ->]. Qed.
Lemma clear_newest q vs : same_key q (MkMVCCKey key t) -> Forall older vs -> clear_pos (MkMVCCKey key t) (q :: vs) = vs.
Proof. intros E F. unfold clear_pos. destruct (skip_same _ q vs E) as [-> ->]. by destruct (split_older vs F) as [-> ->]. Qed.

Lemma put_meta vs : Forall version_of vs ->
  put_pos (MkMVCCKey key EmptyTimestamp) v vs = MkPos (MkMVCCKey key EmptyTimestamp) (Some v) :: vs.
Proof. intros F. unfold put_pos. by destruct (split_versions vs F) as [-> ->]. Qed.
Lemma put_meta_again m vs : meta_of m -> Forall version_of vs ->
  put_pos (MkMVCCKey key EmptyTimestamp) v (m :: vs) = MkPos (MkMVCCKey key EmptyTimestamp) (Some v) :: vs.
Proof.
  intros [U T] F. assert (E : same_key m (MkMVCCKey key EmptyTimestamp)).
  { unfold same_key, q_user, q_ts in *. destruct (q_key m); cbn in *. subst. by rewrite Less_irrefl. }
  unfold put_pos. destruct (skip_same _ m vs E) as [-> ->]. by destruct (split_versions vs F) as [-> ->].
Qed.

Lemma clear_the_meta m vs : meta_of m -> Forall version_of vs -> clear_pos (MkMVCCKey key EmptyTimestamp) (m :: vs) = vs.
Proof.
  intros [U T] F. assert (E : same_key m (MkMVCCKey key EmptyTimestamp)).
  { unfold same_key, q_user, q_ts in *. destruct (q_key m); cbn in *. subst. by rewrite Less_irrefl. }
  unfold clear_pos. destruct (skip_same _ m vs E) as [-> ->]. by destruct (split_versions vs F) as [-> ->].
Qed.
End Shape.

(** * What an iterator over one key sees *)

(** The range keys of a prefix iterator span its key only; without metadata, a bare position
    shows them ahead of the versions. *)
Definition key_view (key : bytes) (pts : list pos) (vs : MVCCRangeKeyVersions) : snapshot :=
  let bare := MkPos (MkMVCCKey key EmptyTimestamp) None in
  match vs with
  | [] => MkSnapshot pts []
  | _ =>
      MkSnapshot (match pts with
                  | q :: _ => if Timestamp_IsEmpty (q_ts q) then pts else bare :: pts
                  | [] => [bare]
                  end) [MkStack (MkSpan key (Some (key ++ [0]))) vs]
  end.
Definition prefix_view (db : snapshot) (key : bytes) : snapshot := key_view key (points db key) (Versions (stack_at db key)).

(** The points of a key: metadata first, then versions; the metadata of an intent under range
    keys has its version. *)
Record points_ok (key : bytes) (pts : list pos) (rks : MVCCRangeKeyVersions) : Prop := {
  po_sorted : StronglySorted q_lt pts;
  po_points : Forall (fun q => q_user q = key /\ has_point q = true /\ q_ok q) pts;
  po_versions q vs : pts = q :: vs -> Forall (fun x => q_ts x <> EmptyTimestamp) vs;
  po_intent q : pts = [q] -> q_ts q = EmptyTimestamp -> rks = [];
  po_stack : newest_first rks /\ Forall (fun v => ts_pos (v_Timestamp v)) rks
}.

Lemma elem_points db key q : q ∈ points db key <-> q ∈ positions db /\ q_user q = key /\ has_point q = true.
Proof.
  rewrite !list_elem_of_In. unfold points. rewrite List.filter_In, andb_true_iff. unfold is_key. bcases; naive_solver.
Qed.

Lemma points_points_ok db key : snapshot_ok db -> points_ok key (points db key) (Versions (stack_at db key)).
Proof.
  intros ok. split.
  - apply sorted_kept, (ok_sorted db ok).
  - apply Forall_forall. intros q (I & U & H)%elem_points. split; [done|]. split; [done|].
    pose proof (ok_pos db ok) as Po. rewrite Forall_forall in Po. by apply Po.
  - intros q vs E. destruct (points_versions db ok key q vs E) as (_ & _ & _ & F). eapply Forall_impl; [done|]. by intros x [].
  - intros q E T. assert (I : q ∈ points db key) by (rewrite E; left). apply elem_points in I as (I & U & H).
    destruct (Stack_IsEmpty (stack_at db key)) eqn:Es; [by rewrite (stack_at_empty db ok _ Es)|]. exfalso.
    destruct (ok_meta db ok q I H T) as (x & Ix & Ux & Nx); [by rewrite U|].
    assert (Hx : has_point x = true).
    { unfold has_point. destruct (q_val x) eqn:V; [done|]. by destruct (ok_bare db ok x Ix V) as [Tx _]. }
    assert (Px : x ∈ points db key) by (apply elem_points; by rewrite Ux). rewrite E in Px. apply list_elem_of_singleton in Px. congruence.
  - destruct (Stack_IsEmpty (stack_at db key)) eqn:Es; [rewrite (stack_at_empty db ok _ Es); split; constructor|].
    destruct (stack_at_in db key Es) as [I _]. pose proof (ok_stacks db ok) as K. rewrite Forall_forall in K. by destruct (K _ I).
Qed.

Section View.
Context (key : bytes) (Nk : key <> []) (pts : list pos) (rks : MVCCRangeKeyVersions) (ok : points_ok key pts rks).
Abbreviation view := (key_view key pts rks).

Lemma view_positions q : q ∈ positions view -> q ∈ pts \/ (q = MkPos (MkMVCCKey key EmptyTimestamp) None /\ rks <> []).
Proof.
  unfold key_view. destruct rks as [|r rs]; [by left|]. cbn. destruct pts as [|p l]; [intros ->%list_elem_of_singleton; by right|].
  destruct (Timestamp_IsEmpty (q_ts p)); [by left|]. intros [->|I]%elem_of_cons; [by right|by left].
Qed.
Lemma view_in q : q ∈ pts -> q ∈ positions view.
Proof.
  unfold key_view. destruct rks as [|r rs]; [done|]. cbn. destruct pts as [|p l]; [by intros ?%elem_of_nil|].
  destruct (Timestamp_IsEmpty (q_ts p)); [done|]. intros I. by right.
Qed.
Lemma view_users : Forall (fun q => q_user q = key) (positions view).
Proof.
  apply Forall_forall. intros q [I|[-> _]]%view_positions; [|done]. pose proof (po_points _ _ _ ok) as F. rewrite Forall_forall in F. by apply F.
Qed.
Lemma view_points : points view key = pts.
Proof.
  assert (F : List.filter (fun q => is_key key q && has_point q) pts = pts).
  { apply filter_all. eapply Forall_impl; [apply (po_points _ _ _ ok)|]. cbn. intros q (U & -> & _). unfold is_key. bcases; done. }
  unfold points, key_view. destruct rks as [|r rs]; [done|]. cbn [positions]. destruct pts as [|p l]; cbn [List.filter]; [by rewrite andb_false_r|].
  destruct (Timestamp_IsEmpty (q_ts p)); [done|]. cbn [List.filter has_point q_val]. rewrite andb_false_r. done.
Qed.

Lemma view_stack : Versions (stack_at view key) = rks /\ (rks <> [] -> Bounds (stack_at view key) = MkSpan key (Some (key ++ [0]))).
Proof.
  assert (E : Span_ContainsKey (MkSpan key (Some (key ++ [0]))) key = true).
  { unfold Span_ContainsKey, ek. cbn. pose proof (blt_next key) as B. bcases; try done; border. }
  unfold key_view. destruct rks as [|r rs]; [done|]. unfold stack_at. cbn [stacks List.find Bounds]. by rewrite E.
Qed.
Lemma view_empty : Stack_IsEmpty (stack_at view key) = match rks with [] => true | _ => false end.
Proof. unfold Stack_IsEmpty, Versions_IsEmpty. destruct view_stack as [-> _]. by destruct rks. Qed.

Lemma view_ok : snapshot_ok view.
Proof.
  pose proof ok as [So Po Ve In St]. pose proof view_in as Vin. split.
  - unfold key_view. destruct rks as [|r rs]; [done|]. cbn. destruct pts as [|p l]; [repeat constructor|].
    destruct (Timestamp_IsEmpty (q_ts p)) eqn:Tp; [done|]. apply IsEmpty_false in Tp. constructor; [done|]. apply Forall_forall. intros x Ix.
    apply Less_spec. right. rewrite Forall_forall in Po. destruct (Po x Ix) as (U & _). split; [done|]. left. split; [done|].
    apply elem_of_cons in Ix as [->|Ix]; [done|]. specialize (Ve p l eq_refl). rewrite Forall_forall in Ve. by apply Ve.
  - apply Forall_forall. intros q [I|[-> _]]%view_positions; [|split; [done|by left]]. rewrite Forall_forall in Po. by destruct (Po q I) as (_ & _ & ?).
  - unfold key_view. destruct rks as [|r rs]; [constructor|]. apply Forall_singleton. by split.
  - intros q [I|[-> Nr]]%view_positions V.
    + rewrite Forall_forall in Po. destruct (Po q I) as (_ & H & _). unfold has_point in H. by rewrite V in H.
    + cbn. rewrite view_empty. destruct view_stack as [_ B]. rewrite (B Nr). by destruct rks.
  - intros s I. unfold key_view in *. destruct rks as [|r rs]; [by apply elem_of_nil in I|]. cbn in I |- *. apply list_elem_of_singleton in I as ->. cbn.
    destruct pts as [|p l]; [eexists; split; [left|done]|]. destruct (Timestamp_IsEmpty (q_ts p)) eqn:Tp; [|eexists; split; [left|done]].
    exists p. split; [left|]. apply Forall_cons in Po as [(U & _) _]. apply IsEmpty_spec in Tp. unfold q_user, q_ts in *. destruct (q_key p); cbn in *; congruence.
  - intros w [I|[-> _]]%view_positions H T Sw; [|done]. rewrite Forall_forall in Po. destruct (Po w I) as (U & _). rewrite U in *.
    rewrite view_empty in Sw. destruct pts as [|p l]; [by apply elem_of_nil in I|]. specialize (Ve p l eq_refl). rewrite Forall_forall in Ve.
    apply elem_of_cons in I as [->|I]; [|by destruct (Ve w I)]. destruct l as [|x l]; [by rewrite (In p eq_refl T) in Sw|].
    exists x. split; [apply Vin; right; left|]. split; [|apply Ve; left]. destruct (Po x) as (Ux & _); [right; left|done].
Qed.
End View.
