(* ===== verification/MvccStats.v ===== *)
(** Statistics of the MVCC store (src/pkg/storage/enginepb/mvcc.go: [MVCCStats];
    src/pkg/storage/mvcc.go: [updateStatsOn*] and [ComputeStats]).

    A range keeps counts and ages of what it stores.  Every write adds the difference it makes,
    and a scan over the range computes the same numbers from the data.  This file has the
    statistics, the differences of the single operations and the scan; the numbers only go
    through additions and multiplications, so the [int64] of the source are integers here. *)
From stdpp Require Import sorting.
From S2P Require Import Prelude Bytes GoLib Hlc KeyOps Spans MvccKey RangeKeys MvccValue MvccIter Scanner LocalKeys MvccRead.

(** * The statistics *)

Record MVCCStats := MkStats {
  ContainsEstimates : Z;
  LastUpdateNanos : Z;
  IntentAge : Z;
  GCBytesAge : Z;
  LiveBytes : Z;
  LiveCount : Z;
  KeyBytes : Z;
  KeyCount : Z;
  ValBytes : Z;
  ValCount : Z;
  IntentBytes : Z;
  IntentCount : Z;
  SeparatedIntentCount : Z;
  RangeKeyCount : Z;
  RangeKeyBytes : Z;
  RangeValCount : Z;
  RangeValBytes : Z;
  SysBytes : Z;
  SysCount : Z;
  AbortSpanBytes : Z
}.

Definition NoStats : MVCCStats := MkStats 0 0 0 0 0 0 0 0 0 0 0 0 0 0 0 0 0 0 0 0.

(** The counters, to write [ms.LiveBytes += n] as [ms +[CLiveBytes] n]. *)
Inductive counter :=
  | CContainsEstimates | CIntentAge | CGCBytesAge | CLiveBytes | CLiveCount | CKeyBytes | CKeyCount | CValBytes | CValCount
  | CIntentBytes | CIntentCount | CSeparatedIntentCount | CRangeKeyCount | CRangeKeyBytes | CRangeValCount | CRangeValBytes
  | CSysBytes | CSysCount | CAbortSpanBytes.

Definition inc (m : MVCCStats) (c : counter) (n : Z) : MVCCStats :=
  let d k := match k with true => n | false => 0 end in
  MkStats
    (ContainsEstimates m + d (match c with CContainsEstimates => true | _ => false end))
    (LastUpdateNanos m)
    (IntentAge m + d (match c with CIntentAge => true | _ => false end))
    (GCBytesAge m + d (match c with CGCBytesAge => true | _ => false end))
    (LiveBytes m + d (match c with CLiveBytes => true | _ => false end))
    (LiveCount m + d (match c with CLiveCount => true | _ => false end))
    (KeyBytes m + d (match c with CKeyBytes => true | _ => false end))
    (KeyCount m + d (match c with CKeyCount => true | _ => false end))
    (ValBytes m + d (match c with CValBytes => true | _ => false end))
    (ValCount m + d (match c with CValCount => true | _ => false end))
    (IntentBytes m + d (match c with CIntentBytes => true | _ => false end))
    (IntentCount m + d (match c with CIntentCount => true | _ => false end))
    (SeparatedIntentCount m + d (match c with CSeparatedIntentCount => true | _ => false end))
    (RangeKeyCount m + d (match c with CRangeKeyCount => true | _ => false end))
    (RangeKeyBytes m + d (match c with CRangeKeyBytes => true | _ => false end))
    (RangeValCount m + d (match c with CRangeValCount => true | _ => false end))
    (RangeValBytes m + d (match c with CRangeValBytes => true | _ => false end))
    (SysBytes m + d (match c with CSysBytes => true | _ => false end))
    (SysCount m + d (match c with CSysCount => true | _ => false end))
    (AbortSpanBytes m + d (match c with CAbortSpanBytes => true | _ => false end)).

Declare Scope stats_scope.
Delimit Scope stats_scope with stats.
Notation "m +[ c ] n" := (inc m c n) (at level 50, left associativity, n at level 40) : stats_scope.
Notation "m -[ c ] n" := (inc m c (- n)) (at level 50, left associativity, n at level 40) : stats_scope.
Open Scope stats_scope.

Definition Total (ms : MVCCStats) : Z := KeyBytes ms + ValBytes ms + RangeKeyBytes ms + RangeValBytes ms.
Definition GCBytes (ms : MVCCStats) : Z := Total ms - LiveBytes ms.

Definition HasNoUserData (ms : MVCCStats) : bool :=
  (ContainsEstimates ms =? 0) && (RangeKeyCount ms =? 0) && (KeyCount ms =? 0) && (IntentCount ms =? 0).

(** [nanos/1e9]. *)
Definition seconds (nanos : Z) : Z := Z.quot nanos 1000000000.

Definition at_time (ms : MVCCStats) (t : Z) : MVCCStats :=
  MkStats (ContainsEstimates ms) t (IntentAge ms) (GCBytesAge ms) (LiveBytes ms) (LiveCount ms) (KeyBytes ms) (KeyCount ms)
    (ValBytes ms) (ValCount ms) (IntentBytes ms) (IntentCount ms) (SeparatedIntentCount ms) (RangeKeyCount ms) (RangeKeyBytes ms)
    (RangeValCount ms) (RangeValBytes ms) (SysBytes ms) (SysCount ms) (AbortSpanBytes ms).

Definition AgeTo (ms : MVCCStats) (nowNanos : Z) : MVCCStats :=
  let diffSeconds := seconds nowNanos - seconds (LastUpdateNanos ms) in
  let ms := ms +[CGCBytesAge] (GCBytes ms * diffSeconds) in
  let ms := ms +[CIntentAge] (IntentCount ms * diffSeconds) in
  at_time ms nowNanos.

Definition Forward (ms : MVCCStats) (nowNanos : Z) : MVCCStats :=
  if nowNanos <=? LastUpdateNanos ms then ms else AgeTo ms nowNanos.

Definition GCByteAge (ms : MVCCStats) (nowNanos : Z) : Z := GCBytesAge (AgeTo ms nowNanos).

(** The fields of [a] and [s] times those of [b], at the time of [a]. *)
Definition fields (s : Z) (a b : MVCCStats) : MVCCStats :=
  MkStats (ContainsEstimates a + s * ContainsEstimates b) (LastUpdateNanos a) (IntentAge a + s * IntentAge b)
    (GCBytesAge a + s * GCBytesAge b) (LiveBytes a + s * LiveBytes b) (LiveCount a + s * LiveCount b)
    (KeyBytes a + s * KeyBytes b) (KeyCount a + s * KeyCount b) (ValBytes a + s * ValBytes b) (ValCount a + s * ValCount b)
    (IntentBytes a + s * IntentBytes b) (IntentCount a + s * IntentCount b)
    (SeparatedIntentCount a + s * SeparatedIntentCount b) (RangeKeyCount a + s * RangeKeyCount b)
    (RangeKeyBytes a + s * RangeKeyBytes b) (RangeValCount a + s * RangeValCount b) (RangeValBytes a + s * RangeValBytes b)
    (SysBytes a + s * SysBytes b) (SysCount a + s * SysCount b) (AbortSpanBytes a + s * AbortSpanBytes b).

Definition Add (ms oms : MVCCStats) : MVCCStats :=
  let ms := Forward ms (LastUpdateNanos oms) in
  let oms := Forward oms (LastUpdateNanos ms) in
  fields 1 ms oms.
Definition Subtract (ms oms : MVCCStats) : MVCCStats :=
  let ms := Forward ms (LastUpdateNanos oms) in
  let oms := Forward oms (LastUpdateNanos ms) in
  fields (-1) ms oms.

(** * The differences of the operations *)

Definition isSysLocal (key : bytes) : bool := bltb key LocalMax.

Definition isAbortSpanKey (key : bytes) : bool :=
  if negb (HasPrefix key LocalRangeIDPrefix) then false
  else
    match DecodeRangeIDKey key with
    | Ok (_, infix, suffix, _) => beqb infix LocalRangeIDReplicatedInfix && beqb suffix LocalAbortSpanSuffix
    | _ => false
    end.

Definition updateStatsForInline (ms : MVCCStats) (key : bytes)
    (origMetaKeySize origMetaValSize metaKeySize metaValSize : Z) : MVCCStats :=
  let sys := isSysLocal key in
  let ms :=
    if negb (origMetaKeySize =? 0) then
      if sys then
        let ms := ms -[CSysBytes] (origMetaKeySize + origMetaValSize) -[CSysCount] 1 in
        if isAbortSpanKey key then ms -[CAbortSpanBytes] (origMetaKeySize + origMetaValSize) else ms
      else
        ms -[CLiveBytes] (origMetaKeySize + origMetaValSize) -[CLiveCount] 1 -[CKeyBytes] origMetaKeySize
           -[CValBytes] origMetaValSize -[CKeyCount] 1 -[CValCount] 1
    else ms in
  if negb (metaKeySize =? 0) then
    if sys then
      let ms := ms +[CSysBytes] (metaKeySize + metaValSize) +[CSysCount] 1 in
      if isAbortSpanKey key then ms +[CAbortSpanBytes] (metaKeySize + metaValSize) else ms
    else
      ms +[CLiveBytes] (metaKeySize + metaValSize) +[CLiveCount] 1 +[CKeyBytes] metaKeySize
         +[CValBytes] metaValSize +[CKeyCount] 1 +[CValCount] 1
  else ms.

Definition updateStatsOnMerge (key : bytes) (valSize nowNanos : Z) : MVCCStats :=
  let ms := AgeTo NoStats nowNanos in
  let ms := ms +[CContainsEstimates] (1 - ContainsEstimates ms) in
  if isSysLocal key then ms +[CSysBytes] valSize else ms +[CLiveBytes] valSize +[CValBytes] valSize.

Definition m_Wall (m : MVCCMetadata) : Z := l_WallTime (m_Timestamp m).
Definition has_txn (m : MVCCMetadata) : bool := match m_Txn m with Some _ => true | None => false end.

Definition updateStatsOnPut (key : bytes) (prevIsValue : bool) (prevValSize : Z)
    (origMetaKeySize origMetaValSize metaKeySize metaValSize : Z) (orig : option MVCCMetadata) (meta : MVCCMetadata) : MVCCStats :=
  let ms := NoStats in
  if isSysLocal key then
    let ms :=
      match orig with
      | Some orig =>
          let ms := ms -[CSysBytes] (origMetaKeySize + origMetaValSize) in
          let ms := if has_txn orig then ms -[CSysBytes] (m_KeyBytes orig + m_ValBytes orig) else ms in
          ms -[CSysCount] 1
      | None => ms
      end in
    ms +[CSysBytes] (m_KeyBytes meta + m_ValBytes meta + metaKeySize + metaValSize) +[CSysCount] 1
  else
    let ms :=
      match orig with
      | Some orig =>
          let ms := ms -[CKeyCount] 1 in
          let ms := AgeTo ms (m_Wall orig) in
          let ms :=
            if has_txn orig then
              ms -[CValCount] 1 -[CIntentBytes] (m_KeyBytes orig + m_ValBytes orig) -[CIntentCount] 1
                 -[CSeparatedIntentCount] 1
            else ms in
          let ms :=
            if m_Deleted orig then
              let ms := ms -[CKeyBytes] origMetaKeySize -[CValBytes] origMetaValSize in
              if has_txn orig then ms -[CKeyBytes] (m_KeyBytes orig) -[CValBytes] (m_ValBytes orig) else ms
            else ms in
          let ms := if prevIsValue then ms +[CLiveBytes] (MVCCVersionTimestampSize + prevValSize) else ms in
          let ms := AgeTo ms (m_Wall meta) in
          let ms := if prevIsValue then ms -[CLiveBytes] (MVCCVersionTimestampSize + prevValSize) else ms in
          if negb (m_Deleted orig) then
            let ms :=
              ms -[CLiveBytes] (m_KeyBytes orig + m_ValBytes orig) -[CLiveBytes] (origMetaKeySize + origMetaValSize)
                 -[CLiveCount] 1 -[CKeyBytes] origMetaKeySize -[CValBytes] origMetaValSize in
            if has_txn orig then ms -[CKeyBytes] (m_KeyBytes orig) -[CValBytes] (m_ValBytes orig) else ms
          else ms
      | None => AgeTo ms (m_Wall meta)
      end in
    let ms :=
      if negb (m_Deleted meta)
      then ms +[CLiveBytes] (m_KeyBytes meta + m_ValBytes meta + metaKeySize + metaValSize) +[CLiveCount] 1
      else ms in
    let ms :=
      ms +[CKeyBytes] (m_KeyBytes meta + metaKeySize) +[CValBytes] (m_ValBytes meta + metaValSize) +[CKeyCount] 1
         +[CValCount] 1 in
    if has_txn meta then
      ms +[CIntentBytes] (m_KeyBytes meta + m_ValBytes meta) +[CIntentCount] 1 +[CSeparatedIntentCount] 1
    else ms.

Definition updateStatsOnResolve (key : bytes) (prevIsValue : bool) (prevValSize : Z)
    (origMetaKeySize origMetaValSize metaKeySize metaValSize : Z) (orig meta : MVCCMetadata) (commit : bool) : MVCCStats :=
  let ms := NoStats in
  if isSysLocal key then
    ms -[CSysBytes] (origMetaKeySize + origMetaValSize + m_KeyBytes orig + m_ValBytes orig)
       +[CSysBytes] (metaKeySize + metaValSize + m_KeyBytes meta + m_ValBytes meta)
  else
    let ms := AgeTo ms (m_Wall orig) in
    let ms := ms -[CKeyBytes] (origMetaKeySize + m_KeyBytes orig) -[CValBytes] (origMetaValSize + m_ValBytes orig) in
    let ms :=
      if negb (m_Deleted orig)
      then ms -[CLiveBytes] (origMetaKeySize + origMetaValSize) -[CLiveBytes] (m_KeyBytes orig + m_ValBytes orig) -[CLiveCount] 1
      else ms in
    let ms := ms -[CIntentBytes] (m_KeyBytes orig + m_ValBytes orig) -[CIntentCount] 1 -[CSeparatedIntentCount] 1 in
    let ms := if prevIsValue then ms +[CLiveBytes] (MVCCVersionTimestampSize + prevValSize) else ms in
    let ms := AgeTo ms (m_Wall meta) in
    let ms := if prevIsValue then ms -[CLiveBytes] (MVCCVersionTimestampSize + prevValSize) else ms in
    let ms := ms +[CKeyBytes] (metaKeySize + m_KeyBytes meta) +[CValBytes] (metaValSize + m_ValBytes meta) in
    let ms :=
      if negb (m_Deleted meta)
      then ms +[CLiveBytes] (metaKeySize + metaValSize + (m_KeyBytes meta + m_ValBytes meta)) +[CLiveCount] 1
      else ms in
    if negb commit
    then ms +[CIntentBytes] (m_KeyBytes meta + m_ValBytes meta) +[CIntentCount] 1 +[CSeparatedIntentCount] 1
    else ms.

Definition updateStatsOnClear (key : bytes) (origMetaKeySize origMetaValSize restoredMetaKeySize restoredMetaValSize : Z)
    (orig : MVCCMetadata) (restored : option MVCCMetadata) (restoredNanos : Z) : res MVCCStats :=
  let ms := NoStats in
  if isSysLocal key then
    let ms :=
      match restored with
      | Some _ => ms +[CSysBytes] (restoredMetaKeySize + restoredMetaValSize) +[CSysCount] 1
      | None => ms
      end in
    Ok (ms -[CSysBytes] (m_KeyBytes orig + m_ValBytes orig + (origMetaKeySize + origMetaValSize)) -[CSysCount] 1)
  else
    ms ←
      match restored with
      | Some restored =>
          if has_txn restored then Panic "restored version should never be an intent"
          else
            let ms := AgeTo ms restoredNanos in
            let ms :=
              if m_Deleted restored
              then ms +[CKeyBytes] restoredMetaKeySize +[CValBytes] restoredMetaValSize
              else ms in
            let ms := AgeTo ms (m_Wall orig) in
            let ms := ms +[CKeyCount] 1 in
            Ok (if negb (m_Deleted restored) then
                  ms +[CKeyBytes] restoredMetaKeySize +[CValBytes] restoredMetaValSize
                     +[CLiveBytes] (m_KeyBytes restored + m_ValBytes restored) +[CLiveCount] 1
                     +[CLiveBytes] (restoredMetaKeySize + restoredMetaValSize)
                else ms)
      | None => Ok (AgeTo ms (m_Wall orig))
      end;
    let ms :=
      if negb (m_Deleted orig)
      then ms -[CLiveBytes] (m_KeyBytes orig + m_ValBytes orig + (origMetaKeySize + origMetaValSize)) -[CLiveCount] 1
      else ms in
    let ms :=
      ms -[CKeyBytes] (m_KeyBytes orig + origMetaKeySize) -[CValBytes] (m_ValBytes orig + origMetaValSize)
         -[CKeyCount] 1 -[CValCount] 1 in
    Ok (if has_txn orig then
          ms -[CIntentBytes] (m_KeyBytes orig + m_ValBytes orig) -[CIntentCount] 1 -[CSeparatedIntentCount] 1
        else ms).

Definition updateStatsOnGC (key : bytes) (keySize valSize : Z) (metaKey : bool) (nonLiveMS : Z) : MVCCStats :=
  let ms := NoStats in
  if isSysLocal key then
    let ms := ms -[CSysBytes] (keySize + valSize) in
    if metaKey then ms -[CSysCount] 1 else ms
  else
    let ms := AgeTo ms nonLiveMS in
    let ms := ms -[CKeyBytes] keySize -[CValBytes] valSize in
    if metaKey then ms -[CKeyCount] 1 else ms -[CValCount] 1.

(** ** Range keys *)

Definition prefix_len (key : bytes) : Z := Z.of_nat (EncodedMVCCKeyPrefixLength key).
Definition suffix_len (ts : Timestamp) : Z := Z.of_nat (EncodedMVCCTimestampSuffixLength ts).
Definition blen (b : bytes) : Z := Z.of_nat (length b).

(** The loop over the versions of a new stack. *)
Fixpoint put_versions (ms : MVCCStats) (vs : MVCCRangeKeyVersions) : MVCCStats :=
  match vs with
  | [] => ms
  | v :: vs =>
      let ms := AgeTo ms (WallTime (v_Timestamp v)) in
      put_versions (ms +[CRangeKeyBytes] (suffix_len (v_Timestamp v)) +[CRangeValCount] 1 +[CRangeValBytes] (blen (v_Value v))) vs
  end.

Definition updateStatsOnRangeKeyPut (rangeKeys : MVCCRangeKeyStack) : MVCCStats :=
  let ms := AgeTo NoStats (WallTime (Versions_Newest (Versions rangeKeys))) in
  let ms := ms +[CRangeKeyCount] 1 +[CRangeKeyBytes] (prefix_len (Key (Bounds rangeKeys)) + prefix_len (ek (Bounds rangeKeys))) in
  put_versions ms (Versions rangeKeys).

Definition updateStatsOnRangeKeyClear (rangeKeys : MVCCRangeKeyStack) : MVCCStats :=
  Subtract NoStats (updateStatsOnRangeKeyPut rangeKeys).

Definition updateStatsOnRangeKeyPutVersion (rangeKeys : MVCCRangeKeyStack) (version : MVCCRangeKeyVersion) : MVCCStats :=
  let ms := NoStats in
  let newest := Versions_Newest (Versions rangeKeys) in
  let ms :=
    if Timestamp_Less newest (v_Timestamp version) then
      let keyBytes := prefix_len (Key (Bounds rangeKeys)) + prefix_len (ek (Bounds rangeKeys)) in
      let ms := AgeTo ms (WallTime newest) in
      let ms := ms -[CRangeKeyBytes] keyBytes in
      let ms := AgeTo ms (WallTime (v_Timestamp version)) in
      ms +[CRangeKeyBytes] keyBytes
    else ms in
  let ms := AgeTo ms (WallTime (v_Timestamp version)) in
  ms +[CRangeKeyBytes] (suffix_len (v_Timestamp version)) +[CRangeValCount] 1 +[CRangeValBytes] (blen (v_Value version)).

Definition updateStatsOnRangeKeyClearVersion (rangeKeys : MVCCRangeKeyStack) (version : MVCCRangeKeyVersion) : MVCCStats :=
  let ms := NoStats in
  if Timestamp_Equal (v_Timestamp version) (Versions_Newest (Versions rangeKeys)) then
    if (length (Versions rangeKeys) =? 1)%nat then Add ms (updateStatsOnRangeKeyClear rangeKeys)
    else Subtract ms (updateStatsOnRangeKeyPutVersion (MkStack (Bounds rangeKeys) (drop 1 (Versions rangeKeys))) version)
  else Subtract ms (updateStatsOnRangeKeyPutVersion rangeKeys version).

Definition updateStatsOnRangeKeyCover (ts : Timestamp) (key : MVCCKey) (valueLen : Z) (isTombstone : bool) : MVCCStats :=
  let ms := AgeTo NoStats (WallTime ts) in
  if negb isTombstone then ms -[CLiveCount] 1 -[CLiveBytes] (MVCCKey_EncodedSize key + valueLen) else ms.

Definition updateStatsOnRangeKeyCoverStats (ts : Timestamp) (cur : MVCCStats) : MVCCStats :=
  let ms := AgeTo NoStats (WallTime ts) in
  ms +[CContainsEstimates] (ContainsEstimates cur) -[CLiveCount] (LiveCount cur) -[CLiveBytes] (LiveBytes cur).

Definition UpdateStatsOnRangeKeySplit (splitKey : bytes) (versions : MVCCRangeKeyVersions) : res MVCCStats :=
  match versions with
  | [] => Panic "index out of range"
  | v0 :: _ =>
      let ms := AgeTo NoStats (WallTime (v_Timestamp v0)) in
      let ms := ms +[CRangeKeyCount] 1 +[CRangeKeyBytes] (2 * prefix_len splitKey) in
      Ok (put_versions ms versions)
  end.

Definition updateStatsOnRangeKeyMerge (mergeKey : bytes) (versions : MVCCRangeKeyVersions) : res MVCCStats :=
  split ← UpdateStatsOnRangeKeySplit mergeKey versions;
  Ok (Subtract NoStats split).

(** * Computing the statistics of a range *)

Definition LocalRangeAppliedStateSuffix : bytes := str "rask".
Definition EmptyMetadata : MVCCMetadata :=
  MkMetadata None (MkLegacyTimestamp 0 0 None) false 0 0 None [] None None.

(** The variables of the loop. *)
Record tally := MkTally {
  y_ms : MVCCStats;
  y_meta : MVCCMetadata;
  y_prevKey : bytes;
  y_first : bool;
  y_accrue : Z;
  y_tombstones : MVCCRangeKeyVersions
}.

Section Compute.
Context `{L : ScanLib} (nowNanos : Z).

Definition since (t : Z) : Z := seconds nowNanos - seconds t.

(** The versions of a stack; [Some] bounds count with the first. *)
Fixpoint tally_versions (ms : MVCCStats) (bounds : option Span) (vs : MVCCRangeKeyVersions) : MVCCStats :=
  match vs with
  | [] => ms
  | v :: vs =>
      let keyBytes := suffix_len (v_Timestamp v) in
      let valBytes := blen (v_Value v) in
      let '(ms, keyBytes) :=
        match bounds with
        | Some b => (ms +[CRangeKeyCount] 1, keyBytes + (prefix_len (Key b) + prefix_len (ek b)))
        | None => (ms, keyBytes)
        end in
      let ms :=
        ms +[CRangeKeyBytes] keyBytes +[CRangeValCount] 1 +[CRangeValBytes] valBytes
           +[CGCBytesAge] ((keyBytes + valBytes) * since (WallTime (v_Timestamp v))) in
      tally_versions ms None vs
  end.

(** Where the range keys change; whether there is a point to go on with. *)
Definition tally_ranges (y : tally) (changed hasPoint hasRange : bool) (rangeKeys : MVCCRangeKeyStack) : tally * bool :=
  if changed then
    if hasRange then
      (MkTally (tally_versions (y_ms y) (Some (Bounds rangeKeys)) (Versions rangeKeys)) (y_meta y) (y_prevKey y) (y_first y)
         (y_accrue y) (Versions rangeKeys), hasPoint)
    else (MkTally (y_ms y) (y_meta y) (y_prevKey y) (y_first y) (y_accrue y) (Versions_Clear (y_tombstones y)), true)
  else (y, true).

(** Whether the key is the applied state of a range, which is not counted. *)
Definition ignored_key (key : bytes) : res bool :=
  if HasPrefix key LocalRangeIDPrefix then
    match DecodeRangeIDKey key with
    | Ok (_, infix, suffix, _) => Ok (beqb infix LocalRangeIDReplicatedInfix && beqb suffix LocalRangeAppliedStateSuffix)
    | Err _ => Err "unable to decode rangeID key"
    | Panic e => Panic e
    end
  else Ok false.

Definition next_tombstone (key : MVCCKey) (rangeTombstones : MVCCRangeKeyVersions) : Timestamp :=
  if MVCCKey_IsValue key then
    if negb (Versions_IsEmpty rangeTombstones) && Timestamp_LessEq (k_Timestamp key) (Versions_Newest rangeTombstones) then
      match Versions_FirstAtOrAbove rangeTombstones (k_Timestamp key) with
      | Some v => v_Timestamp v
      | None => EmptyTimestamp
      end
    else EmptyTimestamp
  else EmptyTimestamp.

(** Bytes that are live, or dead from some time on. *)
Definition tally_bytes (ms : MVCCStats) (meta : MVCCMetadata) (nextRangeTombstone : Timestamp) (totalBytes live : Z) : MVCCStats :=
  if m_Deleted meta then ms +[CGCBytesAge] (totalBytes * since (m_Wall meta))
  else if Timestamp_IsSet nextRangeTombstone then ms +[CGCBytesAge] (totalBytes * since (WallTime nextRangeTombstone))
  else ms +[CLiveBytes] totalBytes +[CLiveCount] live.

(** The metadata of a key, which a version without metadata stands in for. *)
Definition tally_meta (ms : MVCCStats) (key : bytes) (meta : MVCCMetadata) (nextRangeTombstone : Timestamp) (metaValSize : Z)
    : MVCCStats :=
  let metaKeySize := blen key + 1 in
  let totalBytes := metaKeySize + metaValSize in
  if isSysLocal key then
    let ms := ms +[CSysBytes] totalBytes +[CSysCount] 1 in
    if isAbortSpanKey key then ms +[CAbortSpanBytes] totalBytes else ms
  else
    let ms := tally_bytes ms meta nextRangeTombstone totalBytes 1 in
    let ms := ms +[CKeyBytes] metaKeySize +[CValBytes] metaValSize +[CKeyCount] 1 in
    if IsInline meta then ms +[CValCount] 1 else ms.

Definition tally_version (y : tally) (key : MVCCKey) (nextRangeTombstone : Timestamp) (valueLen : Z) (isTombstone : bool)
    : res tally :=
  let '(MkTally ms meta prevKey first accrueGCAgeNanos rangeTombstones) := y in
  let totalBytes := valueLen + MVCCVersionTimestampSize in
  if isSysLocal (k_Key key) then
    Ok (MkTally (ms +[CSysBytes] totalBytes) meta prevKey first accrueGCAgeNanos rangeTombstones)
  else
    '(ms, accrueGCAgeNanos) ←
      (if first then
         let ms := tally_bytes ms meta nextRangeTombstone totalBytes 0 in
         let ms :=
           if has_txn meta then
             ms +[CIntentBytes] totalBytes +[CIntentCount] 1 +[CSeparatedIntentCount] 1 +[CIntentAge] (since (m_Wall meta))
           else ms in
         if negb (m_KeyBytes meta =? MVCCVersionTimestampSize) then Err "expected mvcc metadata key bytes"
         else if negb (m_ValBytes meta =? valueLen) then Err "expected mvcc metadata val bytes"
         else Ok (ms, m_Wall meta)
       else
         let ms :=
           if isTombstone then ms +[CGCBytesAge] (totalBytes * since (WallTime (k_Timestamp key)))
           else if Timestamp_IsSet nextRangeTombstone && (WallTime nextRangeTombstone <? accrueGCAgeNanos)
           then ms +[CGCBytesAge] (totalBytes * since (WallTime nextRangeTombstone))
           else ms +[CGCBytesAge] (totalBytes * since accrueGCAgeNanos) in
         Ok (ms, WallTime (k_Timestamp key)));
    let ms := ms +[CKeyBytes] MVCCVersionTimestampSize +[CValBytes] valueLen +[CValCount] 1 in
    Ok (MkTally ms meta prevKey false accrueGCAgeNanos rangeTombstones).

Definition tally_point (y : tally) (key : MVCCKey) (val : res bytes) : res tally :=
  ignored ← ignored_key (k_Key key);
  if (ignored : bool) then Ok y
  else
    let isValue := MVCCKey_IsValue key in
    let implicitMeta := isValue && negb (beqb (k_Key key) (y_prevKey y)) in
    let nextRangeTombstone := next_tombstone key (y_tombstones y) in
    v ← val;
    let valueLen := blen v in
    isTombstone ←
      (if isValue then
         match EncodedMVCCValueIsTombstone v with
         | Err _ => Err "unable to decode MVCCValue"
         | r => r
         end
       else Ok false);
    if implicitMeta then
      let meta :=
        MkMetadata None (MkLegacyTimestamp (WallTime (k_Timestamp key)) 0 None) isTombstone MVCCVersionTimestampSize valueLen
          None [] None None in
      let ms := tally_meta (y_ms y) (k_Key key) meta nextRangeTombstone 0 in
      tally_version (MkTally ms meta (k_Key key) true (y_accrue y) (y_tombstones y)) key nextRangeTombstone valueLen isTombstone
    else if negb isValue then
      meta ← match UnmarshalMeta v with Err _ => Err "unable to decode MVCCMetadata" | r => r end;
      let ms := tally_meta (y_ms y) (k_Key key) meta nextRangeTombstone valueLen in
      Ok (MkTally ms meta (k_Key key) true (y_accrue y) (y_tombstones y))
    else
      tally_version (MkTally (y_ms y) (y_meta y) (k_Key key) (y_first y) (y_accrue y) (y_tombstones y)) key nextRangeTombstone
        valueLen isTombstone.

Context {It : Type} {M : MVCCIterator It}.

Definition tally_at (it : It) (y : tally) : res tally :=
  let '(hasPoint, hasRange) := HasPointAndRange it in
  let '(y, goOn) := tally_ranges y (RangeKeyChanged it) hasPoint hasRange (it_RangeKeys it) in
  if goOn then tally_point y (UnsafeKey it) (UnsafeLazyValue it) else Ok y.

Fixpoint compute_loop (fuel : nat) (it : It) (y : tally) : res MVCCStats :=
  match fuel with
  | O => Panic "out of fuel"
  | S fuel =>
      valid ← Valid it;
      if negb valid then Ok (at_time (y_ms y) nowNanos)
      else
        y ← tally_at it y;
        compute_loop fuel (Next it) y
  end.

Definition first_tally : tally := MkTally NoStats EmptyMetadata [] false 0 [].

(** Without visitors. *)
Definition ComputeStatsForIter (fuel : nat) (it : It) : res MVCCStats := compute_loop fuel it first_tally.

Definition ComputeStats (NewMVCCIterator : IterKind -> IterOptions -> It) (fuel : nat) (start end_ : bytes) : res MVCCStats :=
  let it := NewMVCCIterator MVCCKeyAndIntentsIterKind (MkIterOptions false start end_ IterKeyTypePointsAndRanges EmptyTimestamp) in
  ComputeStatsForIter fuel (SeekGE it (MakeMVCCMetadataKey start)).
End Compute.
