(* ===== verification/StatsOk.v ===== *)
(** The statistics as a function of the data.

    Statistics at different times are compared at the epoch: [norm] ages them back to it, and
    [Add] is then the sum of the fields.  [ComputeStats] is a fold over the positions of the
    store, and what it computes at one time is what it computes at another, aged. *)
From stdpp Require Import sorting.
From S2P Require Import Prelude Bytes GoLib Hlc KeyOps Spans MvccKey RangeKeys MvccValue MvccIter Scanner ScanSpec ScanNav LocalKeys MvccStats.

(** * Statistics at the epoch *)

Definition norm (ms : MVCCStats) : MVCCStats := AgeTo ms 0.
Definition plus (a b : MVCCStats) : MVCCStats := fields 1 a b.

(** Equal when aged to the same time. *)
Definition same_stats (a b : MVCCStats) : Prop := norm a = norm b.

(** Fieldwise reasoning. *)
Lemma stats_eq a b :
  ContainsEstimates a = ContainsEstimates b ->
  LastUpdateNanos a = LastUpdateNanos b ->
  IntentAge a = IntentAge b ->
  GCBytesAge a = GCBytesAge b ->
  LiveBytes a = LiveBytes b ->
  LiveCount a = LiveCount b ->
  KeyBytes a = KeyBytes b ->
  KeyCount a = KeyCount b ->
  ValBytes a = ValBytes b ->
  ValCount a = ValCount b ->
  IntentBytes a = IntentBytes b ->
  IntentCount a = IntentCount b ->
  SeparatedIntentCount a = SeparatedIntentCount b ->
  RangeKeyCount a = RangeKeyCount b ->
  RangeKeyBytes a = RangeKeyBytes b ->
  RangeValCount a = RangeValCount b ->
  RangeValBytes a = RangeValBytes b ->
  SysBytes a = SysBytes b ->
  SysCount a = SysCount b ->
  AbortSpanBytes a = AbortSpanBytes b ->
  a = b.
Proof. destruct a, b. cbn. intros. subst. reflexivity. Qed.

Ltac stats_cbn :=
  cbn [inc fields at_time AgeTo norm plus NoStats Total GCBytes ContainsEstimates LastUpdateNanos IntentAge GCBytesAge LiveBytes LiveCount KeyBytes KeyCount ValBytes ValCount IntentBytes IntentCount SeparatedIntentCount RangeKeyCount RangeKeyBytes RangeValCount RangeValBytes SysBytes SysCount AbortSpanBytes].
Ltac stats := apply stats_eq; stats_cbn; unfold GCBytes, Total; stats_cbn; try ring.

Lemma seconds_0 : seconds 0 = 0.
Proof. reflexivity. Qed.

Lemma AgeTo_AgeTo ms t n : AgeTo (AgeTo ms t) n = AgeTo ms n.
Proof. stats. Qed.

Lemma norm_AgeTo ms t : norm (AgeTo ms t) = norm ms.
Proof. apply AgeTo_AgeTo. Qed.
Lemma AgeTo_norm ms t : AgeTo (norm ms) t = AgeTo ms t.
Proof. apply AgeTo_AgeTo. Qed.

Lemma same_stats_AgeTo a b : same_stats a b <-> forall n, AgeTo a n = AgeTo b n.
Proof.
  split; [|by intros H; apply H]. unfold same_stats. intros E n. by rewrite <- (AgeTo_norm a), E, AgeTo_norm.
Qed.

Lemma norm_Forward ms t : norm (Forward ms t) = norm ms.
Proof. unfold Forward. destruct (_ <=? _); [done|apply norm_AgeTo]. Qed.

Lemma norm_fields s a b : LastUpdateNanos a = LastUpdateNanos b -> norm (fields s a b) = fields s (norm a) (norm b).
Proof. intros E. stats; rewrite E; ring. Qed.

Lemma Forward_time ms t : LastUpdateNanos (Forward ms t) = Z.max (LastUpdateNanos ms) t.
Proof. unfold Forward. destruct (Z.leb_spec t (LastUpdateNanos ms)); cbn; lia. Qed.

(** Sums at the epoch, whatever the times of the summands. *)
Lemma norm_Add a b : norm (Add a b) = plus (norm a) (norm b).
Proof.
  unfold Add. cbv zeta. rewrite norm_fields.
  - by rewrite !norm_Forward.
  - rewrite !Forward_time. lia.
Qed.

Lemma norm_Subtract a b : norm (Subtract a b) = fields (-1) (norm a) (norm b).
Proof.
  unfold Subtract. cbv zeta. rewrite norm_fields.
  - by rewrite !norm_Forward.
  - rewrite !Forward_time. lia.
Qed.

#[export] Instance same_stats_equiv : Equivalence same_stats.
Proof. unfold same_stats. split; [by intros ?|by intros ??|by intros ??? -> ->]. Qed.
#[export] Instance Add_proper : Proper (same_stats ==> same_stats ==> same_stats) Add.
Proof. intros a a' E b b' E'. unfold same_stats in *. by rewrite !norm_Add, E, E'. Qed.
#[export] Instance Subtract_proper : Proper (same_stats ==> same_stats ==> same_stats) Subtract.
Proof. intros a a' E b b' E'. unfold same_stats in *. by rewrite !norm_Subtract, E, E'. Qed.

Lemma Subtract_Add a b : same_stats (Subtract (Add a b) b) a.
Proof.
  unfold same_stats. rewrite norm_Subtract, norm_Add. generalize (norm b). intros b'. unfold norm. stats.
Qed.

(** * Computing at another time *)

(** What [n] nanoseconds add to the ages of statistics from the epoch. *)
Definition aged (n : Z) (ms : MVCCStats) : MVCCStats :=
  ms +[CGCBytesAge] (GCBytes ms * seconds n) +[CIntentAge] (IntentCount ms * seconds n).
Definition with_ms (y : tally) (ms : MVCCStats) : tally :=
  MkTally ms (y_meta y) (y_prevKey y) (y_first y) (y_accrue y) (y_tombstones y).

Lemma AgeTo_aged ms n : LastUpdateNanos ms = 0 -> at_time (aged n ms) n = AgeTo ms n.
Proof. intros E. unfold aged. stats; rewrite E, seconds_0; ring. Qed.

Ltac tally_cbn := cbn [with_ms y_ms y_meta y_prevKey y_first y_accrue y_tombstones].
Ltac aged_stats := unfold aged, since; rewrite ?seconds_0; stats.

Lemma tally_versions_aged n ms b vs : tally_versions n (aged n ms) b vs = aged n (tally_versions 0 ms b vs).
Proof.
  revert ms b. induction vs as [|v vs IH]; intros ms b; [done|]. cbn [tally_versions]. destruct b; rewrite <- IH; f_equal; aged_stats.
Qed.

Lemma tally_meta_aged n ms key meta t mv : tally_meta n (aged n ms) key meta t mv = aged n (tally_meta 0 ms key meta t mv).
Proof.
  unfold tally_meta, tally_bytes. destruct (isSysLocal key); [destruct (isAbortSpanKey key); aged_stats|].
  destruct (m_Deleted meta), (Timestamp_IsSet t), (IsInline meta); aged_stats.
Qed.

Lemma tally_version_aged n y key t len tomb :
  tally_version n (with_ms y (aged n (y_ms y))) key t len tomb =
  (fun y => with_ms y (aged n (y_ms y))) <$> tally_version 0 y key t len tomb.
Proof.
  destruct y as [ms meta prevKey first accrue tombs]. unfold tally_version, with_ms, tally_bytes. cbn [y_ms y_meta y_prevKey y_first y_accrue y_tombstones].
  destruct (isSysLocal (k_Key key)); [cbn; do 2 f_equal; aged_stats|].
  destruct first.
  - destruct (negb (m_KeyBytes meta =? _)); [done|]. destruct (negb (m_ValBytes meta =? len)); [done|].
    cbn [mbind res_bind fmap res_fmap y_ms y_meta y_prevKey y_first y_accrue y_tombstones]. do 2 f_equal.
    destruct (m_Deleted meta), (Timestamp_IsSet t), (has_txn meta); aged_stats.
  - cbn [mbind res_bind fmap res_fmap y_ms y_meta y_prevKey y_first y_accrue y_tombstones]. do 2 f_equal.
    destruct tomb; [aged_stats|]. destruct (Timestamp_IsSet t && _); aged_stats.
Qed.

(** A map on statistics that commutes with the tallies of an entry. *)
Record commutes (f : MVCCStats -> MVCCStats) (n m : Z) : Prop := {
  co_meta ms key meta t mv : tally_meta n (f ms) key meta t mv = f (tally_meta m ms key meta t mv);
  co_version y key t len tomb :
    tally_version n (with_ms y (f (y_ms y))) key t len tomb = (fun y => with_ms y (f (y_ms y))) <$> tally_version m y key t len tomb
}.

Lemma aged_commutes n : commutes (aged n) n 0.
Proof. split; intros; [apply tally_meta_aged|apply tally_version_aged]. Qed.

Lemma plus_inc d ms c k : plus d (ms +[c] k) = plus d ms +[c] k.
Proof. destruct c; stats. Qed.

Lemma plus_commutes d n : commutes (plus d) n n.
Proof.
  split.
  - intros. unfold tally_meta, tally_bytes. destruct (isSysLocal key); [destruct (isAbortSpanKey key); by rewrite !plus_inc|].
    destruct (m_Deleted meta), (Timestamp_IsSet t), (IsInline meta); by rewrite !plus_inc.
  - intros [ms meta prevKey first accrue tombs] key t len tomb. unfold tally_version, with_ms, tally_bytes.
    cbn [y_ms y_meta y_prevKey y_first y_accrue y_tombstones].
    destruct (isSysLocal (k_Key key)); [cbn [fmap res_fmap y_ms y_meta y_prevKey y_first y_accrue y_tombstones]; by rewrite plus_inc|].
    destruct first.
    + destruct (negb (m_KeyBytes meta =? _)); [done|]. destruct (negb (m_ValBytes meta =? len)); [done|].
      cbn [mbind res_bind fmap res_fmap y_ms y_meta y_prevKey y_first y_accrue y_tombstones].
      destruct (m_Deleted meta), (Timestamp_IsSet t), (has_txn meta); by rewrite !plus_inc.
    + cbn [mbind res_bind fmap res_fmap y_ms y_meta y_prevKey y_first y_accrue y_tombstones].
      destruct tomb; [by rewrite !plus_inc|]. destruct (Timestamp_IsSet t && _); by rewrite !plus_inc.
Qed.

Lemma tally_versions_plus d n ms b vs : tally_versions n (plus d ms) b vs = plus d (tally_versions n ms b vs).
Proof.
  revert ms b. induction vs as [|v vs IH]; intros ms b; [done|]. cbn [tally_versions]. destruct b; by rewrite <- IH, !plus_inc.
Qed.

Section Compute.
Context `{L : ScanLib} (f : MVCCStats -> MVCCStats) (n m : Z) (co : commutes f n m).

Lemma tally_point_map y key v :
  tally_point n (with_ms y (f (y_ms y))) key v = (fun y => with_ms y (f (y_ms y))) <$> tally_point m y key v.
Proof.
  unfold tally_point. destruct (ignored_key (k_Key key)) as [[]| |]; try done. cbn [mbind res_bind]. destruct v as [v| |]; [|done..]. cbn [mbind res_bind].
  set (dec := if MVCCKey_IsValue key then _ else _). destruct dec as [tomb| |]; [|done..]. cbn [mbind res_bind with_ms y_prevKey y_ms y_tombstones y_accrue y_first y_meta].
  destruct (MVCCKey_IsValue key && _).
  - rewrite (co_meta f n m co). match goal with |- context [tally_meta m ?a ?b ?c ?d ?e] => set (ms := tally_meta m a b c d e) end.
    match goal with |- tally_version n (MkTally _ ?b ?c ?d ?e ?g) _ _ _ _ = _ => apply (co_version f n m co (MkTally ms b c d e g)) end.
  - destruct (negb (MVCCKey_IsValue key)).
    + set (dm := match UnmarshalMeta v with Err _ => _ | _ => _ end). destruct dm as [meta| |]; [|done..].
      cbn [mbind res_bind fmap res_fmap]. by rewrite (co_meta f n m co).
    + match goal with |- _ = _ <$> tally_version m ?y0 _ _ _ _ => apply (co_version f n m co y0) end.
Qed.
End Compute.

(** * The walk over a store *)

Section Walk.
Context `{L : ScanLib} (db : snapshot).

(** The points of a list of positions, each under the range keys over it. *)
Definition point_at (n : Z) (y : tally) (q : pos) : res tally :=
  if has_point q
  then
    tally_point n (MkTally (y_ms y) (y_meta y) (y_prevKey y) (y_first y) (y_accrue y) (Versions (the_stack db q)))
      (q_key q) (Ok (default [] (q_val q)))
  else Ok y.
Fixpoint points_tally (n : Z) (l : list pos) (y : tally) : res tally :=
  match l with [] => Ok y | q :: l => y ← point_at n y q; points_tally n l y end.

(** The stacks where they begin. *)
Fixpoint stacks_tally (n : Z) (prev : MVCCRangeKeyStack) (l : list pos) : MVCCStats :=
  match l with
  | [] => NoStats
  | q :: l =>
      let s := the_stack db q in
      let rest := stacks_tally n s l in
      if bool_decide (prev = s) then rest else plus (tally_versions n NoStats (Some (Bounds s)) (Versions s)) rest
  end.

Definition store_stats (n : Z) : res MVCCStats :=
  y ← points_tally n (positions db) first_tally;
  Ok (plus (stacks_tally n EmptyStack (positions db)) (y_ms y)).

(** The statistics of a store at the epoch. *)
Definition epoch_stats : res MVCCStats := store_stats 0.
End Walk.

Lemma plus_NoStats ms : plus ms NoStats = ms.
Proof. stats. Qed.

Section WalkOk.
Context `{L : ScanLib} (db : snapshot) (ok : snapshot_ok db).

Lemma points_tally_map (f : MVCCStats -> MVCCStats) n m (co : commutes f n m) l y :
  points_tally db n l (with_ms y (f (y_ms y))) = (fun y => with_ms y (f (y_ms y))) <$> points_tally db m l y.
Proof.
  revert y. induction l as [|q l IH]; intros y; [done|]. cbn [points_tally]. unfold point_at. destruct (has_point q); [|apply IH].
  pose proof (tally_point_map f n m co (MkTally (y_ms y) (y_meta y) (y_prevKey y) (y_first y) (y_accrue y) (Versions (the_stack db q)))
    (q_key q) (Ok (default [] (q_val q)))) as E. unfold with_ms in E at 1. cbn [y_ms y_meta y_prevKey y_first y_accrue y_tombstones] in E.
  cbn [with_ms y_ms y_meta y_prevKey y_first y_accrue]. rewrite E. destruct (tally_point m _ _ _) as [y'| |]; [|done..]. apply IH.
Qed.

Lemma points_tally_plus n l y :
  points_tally db n l y = (fun y' => with_ms y' (plus (y_ms y) (y_ms y'))) <$> points_tally db n l (with_ms y NoStats).
Proof.
  rewrite <- (points_tally_map (plus (y_ms y)) n n (plus_commutes _ n)). f_equal. destruct y as [a b c d e g]. unfold with_ms.
  tally_cbn. by rewrite plus_NoStats.
Qed.

Lemma points_ms n l y :
  y_ms <$> points_tally db n l y = plus (y_ms y) <$> (y_ms <$> points_tally db n l (with_ms y NoStats)).
Proof. rewrite points_tally_plus. by destruct (points_tally db n l (with_ms y NoStats)). Qed.

(** Bare range keys are met where the range keys change. *)
Fixpoint bare_changes (prev : MVCCRangeKeyStack) (l : list pos) : Prop :=
  match l with
  | [] => True
  | q :: l => (has_point q = false -> prev <> the_stack db q) /\ bare_changes (the_stack db q) l
  end.

Lemma bare_changes_path q l : path (first_gt db) (q :: l) -> bare_changes (the_stack db q) l.
Proof.
  revert q. induction l as [|y l IH]; intros q [E Pa]; [done|]. cbn in E. apply first_gt_some in E as [I Ls]. split; [|by apply IH].
  intros Hb Es. by rewrite (bare_starts db ok q y I Ls Es) in Hb.
Qed.

Lemma bare_changes_all : bare_changes EmptyStack (positions db).
Proof.
  pose proof (path_suffix db ok [] (positions db) eq_refl) as Pa. destruct (positions db) as [|q l] eqn:E; [done|]. split; [|by apply bare_changes_path].
  intros Hb Es. assert (I : q ∈ positions db) by (rewrite E; left). unfold has_point in Hb. destruct (q_val q) eqn:V; [done|].
  destruct (ok_bare db ok q I V) as (_ & _ & N). unfold the_stack in Es. by rewrite <- Es in N.
Qed.

(** ** The loop is the walk *)

Context {It : Type} {M : MVCCIterator It} `{!IteratorLaws M db}.

(** The iterator stands at the first of [l], coming from a position under [prev]. *)
Definition stands (it : It) (prev : MVCCRangeKeyStack) (l : list pos) : Prop :=
  match l with
  | [] => r_cur (it_abs it) = Hi
  | q :: _ => it_abs it = MkRef (At q) (negb (bool_decide (prev = the_stack db q)))
  end.

Lemma stands_next it prev q l : stands it prev (q :: l) -> path (first_gt db) (q :: l) -> stands (Next it) (the_stack db q) l.
Proof.
  cbn. intros A [S _]. assert (E : it_abs (Next it) = move db (it_abs it) (or_hi (head l))).
  { rewrite it_Next by (by rewrite A). unfold ref_Next. rewrite A. cbn [r_cur]. by rewrite S. }
  rewrite A in E. destruct l as [|y l]; cbn; rewrite E; done.
Qed.

(** What an entry adds: the range keys that begin at it, and the point. *)
Definition begins (n : Z) (prev : MVCCRangeKeyStack) (q : pos) : MVCCStats :=
  if bool_decide (prev = the_stack db q) then NoStats
  else tally_versions n NoStats (Some (Bounds (the_stack db q))) (Versions (the_stack db q)).
Definition under (y : tally) (ms : MVCCStats) (vs : MVCCRangeKeyVersions) : tally :=
  MkTally ms (y_meta y) (y_prevKey y) (y_first y) (y_accrue y) vs.

Lemma tally_point_under n y key v y' : tally_point n y key v = Ok y' -> y_tombstones y' = y_tombstones y.
Proof.
  assert (V : forall y key t len tomb y', tally_version n y key t len tomb = Ok y' -> y_tombstones y' = y_tombstones y).
  { clear. intros [ms meta prevKey first accrue tombs] key t len tomb y'. unfold tally_version.
    destruct (isSysLocal _); [by intros [= <-]|]. intros ([ms' ac] & _ & [= <-])%res_bind_inv. done. }
  unfold tally_point. intros ([] & _ & H)%res_bind_inv; [by injection H as <-|].
  apply res_bind_inv in H as (w & _ & H). apply res_bind_inv in H as (tomb & _ & H).
  destruct (MVCCKey_IsValue key && _); [by apply V in H|]. destruct (negb _); [|by apply V in H].
  by apply res_bind_inv in H as (meta & _ & [= <-]).
Qed.

Lemma tally_ranges_walk n prev q y (s := the_stack db q) :
  q ∈ positions db -> (has_point q = false -> prev <> s) -> y_tombstones y = Versions prev ->
  tally_ranges n y (negb (bool_decide (prev = s))) (has_point q) (negb (Stack_IsEmpty s)) s =
    (under y (plus (y_ms y) (begins n prev q)) (Versions s), has_point q).
Proof.
  intros I Bc T. unfold tally_ranges, begins. fold s. destruct (bool_decide_reflect (prev = s)) as [E|N]; cbn [negb].
  - rewrite plus_NoStats. assert (has_point q = true) as -> by (destruct (has_point q); naive_solver). destruct y. cbn in *. by rewrite T, E.
  - rewrite <- tally_versions_plus, plus_NoStats. destruct (Stack_IsEmpty s) eqn:Es; cbn [negb]; [|done].
    pose proof (stack_at_empty db ok _ Es) as E0. fold (the_stack db q) in E0. fold s in E0. rewrite E0. f_equal.
    destruct (has_point q) eqn:Hp; [done|]. exfalso. apply (bare_pos db ok q I) in Hp.
    fold s in Hp. by rewrite Es in Hp.
Qed.

Lemma tally_at_walk n it prev q l y :
  stands it prev (q :: l) -> q ∈ positions db -> (has_point q = false -> prev <> the_stack db q) -> y_tombstones y = Versions prev ->
  tally_at n it y =
    (fun y' => under y' (plus (plus (y_ms y) (begins n prev q)) (y_ms y')) (Versions (the_stack db q))) <$>
      point_at db n (with_ms y NoStats) q.
Proof.
  cbn [stands]. intros A I Bc T. assert (Cq : r_cur (it_abs it) = At q) by (by rewrite A). unfold tally_at.
  rewrite (it_HasPointAndRange it q Cq), it_RangeKeyChanged, (it_RangeKeys_at it q Cq), A by (unfold is_at; by rewrite A). cbn [r_changed].
  fold (the_stack db q). rewrite tally_ranges_walk by done. unfold point_at. destruct (has_point q) eqn:Hp.
  - unfold has_point in Hp. destruct (q_val q) as [v|] eqn:V; [|done]. rewrite (it_UnsafeLazyValue it q v Cq V), (it_UnsafeKey it q Cq).
    set (d := plus (y_ms y) (begins n prev q)). tally_cbn. 
    pose proof (tally_point_map (plus d) n n (plus_commutes d n) (under y NoStats (Versions (the_stack db q))) (q_key q) (Ok v)) as E.
    unfold under, with_ms in E |- *. tally_cbn. cbn [y_ms y_meta y_prevKey y_first y_accrue y_tombstones] in E. rewrite plus_NoStats in E. rewrite E.
    clear E. change (default [] (Some v)) with v. destruct (tally_point n _ (q_key q) (Ok v)) as [y'| |] eqn:Ey; [|reflexivity..]. cbn [fmap res_fmap]. do 2 f_equal. by apply tally_point_under in Ey.
  - cbn [fmap res_fmap]. unfold under. tally_cbn. by rewrite plus_NoStats.
Qed.

(** Only the statistics of a tally are returned, for which the buffered range keys do not matter. *)
Lemma points_tally_under n l y vs : y_ms <$> points_tally db n l (under y (y_ms y) vs) = y_ms <$> points_tally db n l y.
Proof.
  revert y. induction l as [|q l IH]; intros y; [done|]. cbn [points_tally]. unfold point_at. destruct (has_point q); [done|]. apply IH.
Qed.

Lemma tally_versions_time n ms b vs : LastUpdateNanos (tally_versions n ms b vs) = LastUpdateNanos ms.
Proof. revert ms b. induction vs as [|v vs IH]; intros ms b; [done|]. cbn [tally_versions]. destruct b; by rewrite IH. Qed.

Lemma stacks_tally_time n prev l : LastUpdateNanos (stacks_tally db n prev l) = 0.
Proof.
  revert prev. induction l as [|x l IH]; intros prev; [done|]. cbn [stacks_tally]. destruct (bool_decide _); [apply IH|].
  apply (tally_versions_time n NoStats).
Qed.

Lemma stacks_tally_cons n prev q l : stacks_tally db n prev (q :: l) = plus (begins n prev q) (stacks_tally db n (the_stack db q) l).
Proof.
  cbn [stacks_tally]. unfold begins. destruct (bool_decide _); [|done]. pose proof (stacks_tally_time n (the_stack db q) l). by stats.
Qed.

Lemma compute_loop_walk n l : forall fuel it prev y,
  stands it prev l -> path (first_gt db) l -> bare_changes prev l -> (forall q, q ∈ l -> q ∈ positions db) ->
  y_tombstones y = Versions prev -> (length l < fuel)%nat ->
  compute_loop n fuel it y =
    (ms ← y_ms <$> points_tally db n l (with_ms y NoStats);
     Ok (at_time (plus (plus (y_ms y) (stacks_tally db n prev l)) ms) n)).
Proof.
  induction l as [|q l IH]; intros [|fuel] it prev y St Pa Bc I T Fu; cbn [length] in Fu; try lia; cbn [compute_loop]; rewrite it_Valid; unfold is_at.
  - cbn in St. rewrite St. cbn [mbind res_bind negb points_tally fmap res_fmap with_ms y_ms stacks_tally]. by rewrite !plus_NoStats.
  - pose proof St as A. cbn [stands] in A. rewrite A. cbn [mbind res_bind negb r_cur]. destruct Bc as [Bq Bc].
    rewrite (tally_at_walk n it prev q l y) by (try done; apply I; left). cbn [points_tally].
    destruct (point_at db n (with_ms y NoStats) q) as [y1| |]; [|reflexivity..]. cbn [fmap res_fmap mbind res_bind].
    erewrite IH; [|by eapply stands_next|by destruct Pa|done|intros x Hx; apply I; by right|done|lia].
    rewrite stacks_tally_cons, (points_ms n l y1).
    rewrite <- (points_tally_under n l (with_ms y1 NoStats) (Versions (the_stack db q))).
    change (with_ms (under y1 _ _) NoStats) with (under (with_ms y1 NoStats) NoStats (Versions (the_stack db q))). tally_cbn.
    destruct (y_ms <$> points_tally db n l _) as [ms| |]; [|reflexivity..]. cbn [fmap res_fmap mbind res_bind under y_ms].
    do 2 f_equal. stats.
Qed.

(** [ComputeStats] on an iterator that has been seeked to the beginning. *)
Lemma compute_store n fuel it : stands it EmptyStack (positions db) -> (length (positions db) < fuel)%nat ->
  ComputeStatsForIter n fuel it = (ms ← store_stats db n; Ok (at_time ms n)).
Proof.
  intros St Fu. unfold ComputeStatsForIter. rewrite (compute_loop_walk n (positions db) fuel it EmptyStack); try done.
  - unfold store_stats. change (with_ms first_tally NoStats) with first_tally. destruct (points_tally _ _ _ _) as [y| |]; [|reflexivity..].
    cbn [fmap res_fmap mbind res_bind]. do 2 f_equal. cbn [first_tally y_ms].
    assert (E : LastUpdateNanos (stacks_tally db n EmptyStack (positions db)) = 0) by apply stacks_tally_time. by stats.
  - by apply (path_suffix db ok [] (positions db)).
  - apply bare_changes_all.
Qed.

(** Aging: the statistics of a store at a time are those at the epoch, aged. *)
Lemma stacks_tally_aged n prev l : stacks_tally db n prev l = aged n (stacks_tally db 0 prev l).
Proof.
  revert prev. induction l as [|q l IH]; intros prev; cbn [stacks_tally]; [by aged_stats|]. rewrite IH. destruct (bool_decide _); [done|].
  assert (E : aged n NoStats = NoStats) by aged_stats. rewrite <- E at 1. rewrite tally_versions_aged. by aged_stats.
Qed.

Lemma store_stats_aged n : store_stats db n = aged n <$> epoch_stats db.
Proof.
  unfold epoch_stats, store_stats. rewrite stacks_tally_aged. assert (E : aged n NoStats = NoStats) by aged_stats.
  pose proof (points_tally_map (aged n) n 0 (aged_commutes n) (positions db) first_tally) as Ep.
  change (y_ms first_tally) with NoStats in Ep. rewrite E in Ep. change (with_ms first_tally NoStats) with first_tally in Ep. rewrite Ep.
  destruct (points_tally db 0 _ _) as [y| |]; [|reflexivity..]. cbn [fmap res_fmap mbind res_bind with_ms y_ms]. f_equal. by aged_stats.
Qed.

Lemma epoch_stats_time ms : epoch_stats db = Ok ms -> LastUpdateNanos ms = 0.
Proof. unfold epoch_stats, store_stats. intros (y & _ & [= <-])%res_bind_inv. apply stacks_tally_time. Qed.

Lemma compute_epoch n fuel it : stands it EmptyStack (positions db) -> (length (positions db) < fuel)%nat ->
  ComputeStatsForIter n fuel it = (fun ms => AgeTo ms n) <$> epoch_stats db.
Proof.
  intros St Fu. rewrite compute_store, store_stats_aged by done. destruct (epoch_stats db) as [ms| |] eqn:E; [|reflexivity..].
  cbn [fmap res_fmap mbind res_bind]. f_equal. by apply AgeTo_aged, epoch_stats_time.
Qed.

(** A new iterator that seeks to the beginning of its span. *)
Lemma seek_stands it start : r_cur (it_abs it) = Lo -> Forall (fun q => ble start (q_user q)) (positions db) ->
  stands (SeekGE it (MakeMVCCMetadataKey start)) EmptyStack (positions db).
Proof.
  intros Lo0 F. assert (A : it_abs (SeekGE it (MakeMVCCMetadataKey start)) = move db (it_abs it) (or_hi (head (positions db)))).
  { rewrite it_SeekGE. unfold ref_SeekGE. f_equal. unfold seek_ge. change (MakeMVCCMetadataKey start) with (MkMVCCKey start EmptyTimestamp). cbn [k_Key]. rewrite Forall_forall in F.
    assert (E : first_ge db (MkMVCCKey start EmptyTimestamp) = head (positions db)).
    { apply find_head. intros x Hx. assert (I : x ∈ positions db) by (destruct (positions db); [done|]; injection Hx as ->; left).
      apply negb_true_iff, not_true_is_false. intros [B|[_ [[_ N]|(_ & N & _)]]]%Less_spec; try done. cbn in B. specialize (F x I). unfold q_user in F. border. }
    rewrite E. destruct (Stack_IsEmpty (stack_at db start)) eqn:Es; [done|]. cbn [negb andb]. destruct (stack_at_in db start Es) as [Is C].
    destruct (ok_start db ok _ Is) as (q & I & Eq). assert (Key (Bounds (stack_at db start)) = start) as Ek.
    { specialize (F q I). unfold q_user in F. rewrite Eq in F. cbn in F. unfold Span_ContainsKey in C. clear - F C. bcases; try done; border. }
    rewrite Ek in Eq. assert (existsb (fun q => MVCCKey_Equal (q_key q) (MkMVCCKey start EmptyTimestamp)) (positions db) = true) as ->; [|done].
    apply existsb_exists. exists q. split; [by apply list_elem_of_In|]. rewrite Eq. unfold MVCCKey_Equal, Key_Compare. cbn. by rewrite bytes_compare_refl. }
  unfold move in A. rewrite Lo0 in A. unfold stands. destruct (positions db) as [|q l]; rewrite A; done.
Qed.

Lemma ComputeStats_epoch NewMVCCIterator n fuel start end_ : (forall kind opts, r_cur (it_abs (NewMVCCIterator kind opts)) = Lo) ->
  Forall (fun q => ble start (q_user q)) (positions db) -> (length (positions db) < fuel)%nat ->
  ComputeStats n NewMVCCIterator fuel start end_ = (fun ms => AgeTo ms n) <$> epoch_stats db.
Proof. intros New F Fu. unfold ComputeStats. apply compute_epoch; [|done]. by apply seek_stands. Qed.
End WalkOk.

(** C35: Statistics age exactly.  On a well-formed store, [ComputeStats] at one time gives what it
    gives at any other time, aged by [AgeTo]; it fails at both or at none. *)
Theorem ComputeStats_ages `{L : ScanLib} db {It} {M : MVCCIterator It} `{!IteratorLaws M db} NewMVCCIterator n n' fuel start end_ :
  snapshot_ok db -> (forall kind opts, r_cur (it_abs (NewMVCCIterator kind opts)) = Lo) ->
  Forall (fun q => ble start (q_user q)) (positions db) -> (length (positions db) < fuel)%nat ->
  ComputeStats n' NewMVCCIterator fuel start end_ = (fun ms => AgeTo ms n') <$> ComputeStats n NewMVCCIterator fuel start end_.
Proof.
  intros ok New F Fu. rewrite !(ComputeStats_epoch db ok) by done. destruct (epoch_stats db); [|done..]. cbn [fmap res_fmap]. by rewrite AgeTo_AgeTo.
Qed.
