(* ===== verification/StatsKeys.v ===== *)
(** The statistics of a store, key by key.

    What the points of a key contribute to the statistics does not depend on the rest of the
    store, but for the range keys over it; so a change to one key changes the statistics by the
    difference of the key's contributions. *)
From stdpp Require Import sorting.
From S2P Require Import Prelude Bytes GoLib Hlc KeyOps Spans MvccKey RangeKeys MvccValue MvccIter Scanner ScanSpec ScanNav StoreOps LocalKeys MvccStats StatsOk.

(** Tallies that go on alike: when the next version is the first of its key, it does not matter
    where the last one stopped. *)
Record alike (y y' : tally) : Prop := {
  al_ms : y_ms y = y_ms y';
  al_meta : y_meta y = y_meta y';
  al_prev : y_prevKey y = y_prevKey y';
  al_first : y_first y = y_first y';
  al_accrue : y_first y = false -> y_accrue y = y_accrue y'
}.

Section Keys.
Context `{L : ScanLib} (n : Z).

Lemma alike_version y y' key t len tomb : alike y y' -> sim alike (tally_version n y key t len tomb) (tally_version n y' key t len tomb).
Proof.
  intros [E1 E2 E3 E4 E5]. destruct y as [ms meta prev first ac vs], y' as [ms' meta' prev' first' ac' vs']. cbn in *. subst ms' meta' prev' first'.
  unfold tally_version. destruct (isSysLocal _); [by split|]. destruct first.
  - destruct (negb (_ =? MVCCVersionTimestampSize)); [done|]. by destruct (negb (_ =? len)).
  - rewrite (E5 eq_refl). by split.
Qed.

(** A point of another key. *)
Lemma fresh_point y y' key v : k_Key key <> y_prevKey y -> k_Key key <> y_prevKey y' -> y_ms y = y_ms y' ->
  y_tombstones y = y_tombstones y' ->
  sim (fun z z' => alike z z' \/ (z = y /\ z' = y')) (tally_point n y key v) (tally_point n y' key v).
Proof.
  intros N N' E T. unfold tally_point. destruct (ignored_key (k_Key key)) as [[]| |]; [by right|..|done|done].
  cbn [mbind res_bind]. destruct v as [v| |]; [|done..]. cbn [mbind res_bind].
  set (dec := if MVCCKey_IsValue key then _ else _). destruct dec as [tomb| |]; [|done..]. cbn [mbind res_bind].
  assert (Kb : forall p, k_Key key <> p -> beqb (k_Key key) p = false) by (intros p Np; bcases; done).
  rewrite (Kb _ N), (Kb _ N'). cbn [negb]. rewrite andb_true_r, E, T. destruct (MVCCKey_IsValue key); cbn [negb].
  - eapply sim_mono; [|by apply alike_version]. by left.
  - set (dm := match UnmarshalMeta v with Err _ => _ | _ => _ end). destruct dm; [|done..]. by left.
Qed.

Lemma alike_point y y' key v : alike y y' -> y_tombstones y = y_tombstones y' -> sim alike (tally_point n y key v) (tally_point n y' key v).
Proof.
  intros Al T. pose proof Al as [E1 E2 E3 E4 E5]. unfold tally_point. destruct (ignored_key (k_Key key)) as [[]| |]; try done.
  cbn [mbind res_bind]. destruct v as [v| |]; [|done..]. cbn [mbind res_bind].
  set (dec := if MVCCKey_IsValue key then _ else _). destruct dec as [tomb| |]; [|done..]. cbn [mbind res_bind].
  rewrite E1, E2, E3, E4, T. destruct (_ && _); [by apply alike_version|]. destruct (negb _).
  - set (dm := match UnmarshalMeta v with Err _ => _ | _ => _ end). by destruct dm.
  - apply alike_version. split; try done. cbn. rewrite <- E4. exact E5.
Qed.

Context (db : snapshot).

Lemma alike_points l y y' : alike y y' -> y_ms <$> points_tally db n l y = y_ms <$> points_tally db n l y'.
Proof.
  revert y y'. induction l as [|q l IH]; intros y y' Al; [cbn; by rewrite (al_ms _ _ Al)|]. cbn [points_tally]. unfold point_at.
  destruct (has_point q); [|by apply IH]. set (a := tally_point n _ _ _). set (b := tally_point n (MkTally (y_ms y') _ _ _ _ _) _ _).
  assert (S : sim alike a b) by (destruct Al; by apply alike_point).
  destruct a, b; cbn in S |- *; try done; [by apply IH|by rewrite S..].
Qed.

Lemma fresh_points l y y' : Forall (fun q => q_user q <> y_prevKey y /\ q_user q <> y_prevKey y') l -> y_ms y = y_ms y' ->
  y_ms <$> points_tally db n l y = y_ms <$> points_tally db n l y'.
Proof.
  intros F. revert y y' F. induction l as [|q l IH]; intros y y' F E; [cbn; by rewrite E|]. apply Forall_cons in F as [[N N'] F].
  cbn [points_tally]. unfold point_at. destruct (has_point q); [|by apply IH].
  set (z := MkTally (y_ms y) _ _ _ _ _). set (z' := MkTally (y_ms y') _ _ _ _ _).
  pose proof (fresh_point z z' (q_key q) (Ok (default [] (q_val q))) N N' E eq_refl) as S.
  destruct (tally_point n z _ _), (tally_point n z' _ _); cbn in S |- *; try done; [|by rewrite S..].
  destruct S as [S|[-> ->]]; [by apply alike_points|by apply IH].
Qed.

(** The key the tally is at was in the list. *)
Lemma points_prev l y y' : points_tally db n l y = Ok y' -> y_prevKey y' = y_prevKey y \/ exists q, q ∈ l /\ y_prevKey y' = q_user q.
Proof.
  revert y. induction l as [|q l IH]; intros y; [intros [= ->]; by left|]. cbn [points_tally]. intros (z & Ez & H)%res_bind_inv.
  assert (Pz : y_prevKey z = y_prevKey y \/ y_prevKey z = q_user q).
  { unfold point_at in Ez. destruct (has_point q); [|injection Ez as <-; by left]. clear H IH. revert Ez. unfold tally_point.
    assert (V : forall y k t len tomb z, tally_version n y k t len tomb = Ok z -> y_prevKey z = y_prevKey y).
    { clear. intros [ms meta prev first ac vs] k t len tomb z. unfold tally_version. destruct (isSysLocal _); [by intros [= <-]|].
      by intros ([] & _ & [= <-])%res_bind_inv. }
    intros ([] & _ & H)%res_bind_inv; [injection H as <-; by left|]. right. apply res_bind_inv in H as (w & _ & H). apply res_bind_inv in H as (tomb & _ & H).
    destruct (_ && _); [by apply V in H|]. destruct (negb _); [|by apply V in H]. by apply res_bind_inv in H as (meta & _ & [= <-]). }
  destruct (IH z H) as [E|(x & I & E)]; rewrite E.
  - destruct Pz as [Pz|Pz]; rewrite Pz; [by left|]. right. exists q. split; [left|done].
  - right. exists x. split; [by right|done].
Qed.

(** What a list of positions contributes. *)
Definition share (l : list pos) : res MVCCStats := y_ms <$> points_tally db n l first_tally.

Lemma points_tally_app l1 l2 y : points_tally db n (l1 ++ l2) y = (y ← points_tally db n l1 y; points_tally db n l2 y).
Proof. revert y. induction l1 as [|q l1 IH]; intros y; [done|]. cbn. destruct (point_at db n y q); cbn; try done. Qed.

Lemma share_app l1 l2 : Forall (fun q => q_user q <> []) l2 -> (forall q q', q ∈ l1 -> q' ∈ l2 -> q_user q' <> q_user q) ->
  share (l1 ++ l2) = (a ← share l1; b ← share l2; Ok (plus a b)).
Proof.
  intros Ne D. unfold share. rewrite points_tally_app. destruct (points_tally db n l1 first_tally) as [y| |] eqn:E; [|done..]. cbn [mbind res_bind fmap res_fmap].
  rewrite points_ms, (fresh_points l2 (with_ms y NoStats) first_tally); [by destruct (y_ms <$> _)| |done].
  cbn [with_ms y_prevKey first_tally]. apply Forall_forall. intros q I. rewrite Forall_forall in Ne. split; [|by apply Ne].
  destruct (points_prev _ _ _ E) as [->|(x & Ix & ->)]; [by apply Ne|by apply D].
Qed.

Lemma share_points l : share (List.filter has_point l) = share l.
Proof.
  unfold share. f_equal. generalize first_tally. induction l as [|q l IH]; intros y; [done|]. cbn [List.filter points_tally].
  destruct (has_point q) eqn:H.
  - cbn [points_tally]. destruct (point_at db n y q); [|done..]. apply IH.
  - unfold point_at. rewrite H. apply IH.
Qed.
End Keys.

(** * A change to one key *)

Section Change.
Context `{L : ScanLib} (n : Z) (db : snapshot) (ok : snapshot_ok db) (frag : fragmented db).

Definition last_stack (prev : MVCCRangeKeyStack) (l : list pos) : MVCCRangeKeyStack :=
  match last l with Some q => the_stack db q | None => prev end.

Lemma last_stack_cons prev q l : last_stack prev (q :: l) = last_stack (the_stack db q) l.
Proof. unfold last_stack. rewrite last_cons. by destruct (last l). Qed.

Lemma plus_assoc a b c : plus a (plus b c) = plus (plus a b) c.
Proof. stats. Qed.
Lemma NoStats_plus a : LastUpdateNanos a = 0 -> plus NoStats a = a.
Proof. intros E. by stats. Qed.

Lemma stacks_app prev l1 l2 :
  stacks_tally db n prev (l1 ++ l2) = plus (stacks_tally db n prev l1) (stacks_tally db n (last_stack prev l1) l2).
Proof.
  revert prev. induction l1 as [|q l1 IH]; intros prev.
  - cbn [app stacks_tally]. by rewrite NoStats_plus by apply stacks_tally_time.
  - cbn [app]. by rewrite !stacks_tally_cons, IH, last_stack_cons, plus_assoc.
Qed.

(** Between two positions under one stack, everything is under it. *)
Lemma stack_between a b key : Stack_IsEmpty (stack_at db a) = false -> stack_at db a = stack_at db b -> ble a key -> ble key b ->
  stack_at db key = stack_at db a.
Proof.
  intros N E A B. destruct (stack_at_in db a N) as [I C]. rewrite E in N. destruct (stack_at_in db b N) as [_ C']. rewrite <- E in C'.
  apply (fr_stack _ frag); [done|]. unfold Span_ContainsKey in *. bcases; try done; border.
Qed.

Lemma begins_empty prev q : the_stack db q = EmptyStack -> begins db n prev q = NoStats.
Proof. unfold begins. intros ->. by destruct (bool_decide _). Qed.

(** Positions of one key. *)
Lemma stacks_key prev key g : g <> [] -> Forall (fun q => q_user q = key) g ->
  stacks_tally db n prev g = begins db n prev (MkPos (MkMVCCKey key EmptyTimestamp) None) /\ last_stack prev g = stack_at db key.
Proof.
  intros Ng F. assert (Fs : Forall (fun q => the_stack db q = stack_at db key) g) by (eapply Forall_impl; [done|]; by intros q <-).
  assert (Same : forall l, Forall (fun q => the_stack db q = stack_at db key) l ->
    stacks_tally db n (stack_at db key) l = NoStats /\ last_stack (stack_at db key) l = stack_at db key).
  { induction 1 as [|q l E _ [IH1 IH2]]; [done|]. rewrite last_stack_cons, stacks_tally_cons, E. split; [|done]. rewrite IH1, plus_NoStats.
    unfold begins. rewrite E. by rewrite bool_decide_eq_true_2. }
  destruct g as [|q g]; [done|]. apply Forall_cons in Fs as [E Fs]. destruct (Same g Fs) as [S1 S2].
  rewrite last_stack_cons, stacks_tally_cons, E, S1, plus_NoStats. split; [|done]. unfold begins. by rewrite E.
Qed.

(** A new key does not split or extend a stack. *)
Lemma stacks_gap key (p := last_stack EmptyStack (below db key)) (q0 := MkPos (MkMVCCKey key EmptyTimestamp) None) :
  List.filter (is_key key) (positions db) = [] ->
  plus (begins db n p q0) (stacks_tally db n (stack_at db key) (above db key)) = stacks_tally db n p (above db key).
Proof.
  intros G. destruct (Stack_IsEmpty (stack_at db key)) eqn:Es.
  - apply (stack_at_empty db ok) in Es. rewrite begins_empty by done. rewrite NoStats_plus by apply stacks_tally_time.
    rewrite Es. destruct (above db key) as [|z l] eqn:Ea; [done|]. rewrite !stacks_tally_cons. f_equal.
    destruct (decide (the_stack db z = EmptyStack)) as [Ez|Nz]; [by rewrite !begins_empty|]. unfold begins.
    rewrite !bool_decide_eq_false_2; [done| |congruence]. subst p. unfold last_stack. destruct (last (below db key)) as [x|] eqn:El; [|congruence].
    intros Ex. assert (Ix : x ∈ below db key) by (apply last_Some in El as [l' ->]; set_solver).
    assert (Iz : z ∈ above db key) by (rewrite Ea; left). unfold below in Ix. unfold above in Iz.
    apply list_elem_of_In, List.filter_In in Ix as [_ Bx]. apply list_elem_of_In, List.filter_In in Iz as [_ Bz].
    assert (stack_at db key = stack_at db (q_user x)) as Ek.
    { apply (stack_between _ (q_user z)); [| done |clear - Bx; bcases; try done; border|clear - Bz; bcases; try done; border]. unfold the_stack in *. rewrite Ex.
      destruct (Stack_IsEmpty (stack_at db (q_user z))) eqn:Ee; [|done]. by apply (stack_at_empty db ok) in Ee. }
    rewrite Es in Ek. apply Nz. by rewrite <- Ex, Ek.
  - assert (p = stack_at db key) as ->; [|unfold begins, the_stack; cbn; rewrite bool_decide_eq_true_2 by done; by rewrite NoStats_plus by apply stacks_tally_time].
    destruct (stack_at_in db key Es) as [Is C]. destruct (ok_start db ok _ Is) as (q & Iq & Eq).
    assert (Uq : q_user q = Key (Bounds (stack_at db key))) by (unfold q_user; by rewrite Eq).
    assert (Bq : blt (q_user q) key).
    { unfold Span_ContainsKey in C. rewrite <- Uq in C. destruct (beqb_spec (q_user q) key) as [Eu|Nq]; [|clear - C Nq; bcases; try done; border].
      exfalso. assert (In q []) as []. rewrite <- G. apply List.filter_In. split; [by apply list_elem_of_In|]. unfold is_key. by destruct (beqb_spec (q_user q) key). }
    assert (Ib : q ∈ below db key).
    { apply list_elem_of_In, List.filter_In. split; [by apply list_elem_of_In|]. bcases; done. }
    subst p. unfold last_stack. destruct (last (below db key)) as [x|] eqn:El; [|apply last_None in El; rewrite El in Ib; by apply elem_of_nil in Ib].
    apply last_Some in El as [l' El]. assert (Ix : x ∈ below db key) by (rewrite El; set_solver).
    apply list_elem_of_In, List.filter_In in Ix as [_ Bx]. apply (fr_stack _ frag); [done|]. unfold Span_ContainsKey in *. rewrite <- Uq in *.
    assert (ble (q_user q) (q_user x)) as Bqx; [|bcases; try done; border].
    rewrite El in Ib. apply elem_of_app in Ib as [Ib|Ib]; [|apply list_elem_of_singleton in Ib as ->; border].
    pose proof (ok_sorted db ok) as So. destruct (split_key db ok key) as (g & E & _). rewrite E, El in So. rewrite <- app_assoc in So. cbn in So.
    apply sorted_app in So as [Fl _]. rewrite Forall_forall in Fl. apply q_lt_user, Fl, Ib.
Qed.
End Change.

(** ** The statistics after a change *)

Section Stacks.
Context `{L : ScanLib} (n : Z) (db db' : snapshot) (Es : stacks db' = stacks db).

Lemma stack_unchanged key : stack_at db' key = stack_at db key.
Proof. unfold stack_at. by rewrite Es. Qed.
Lemma same_points l y : points_tally db' n l y = points_tally db n l y.
Proof.
  revert y. induction l as [|q l IH]; intros y; [done|]. cbn [points_tally]. unfold point_at, the_stack. rewrite stack_unchanged. destruct (has_point q); [|apply IH].
  destruct (tally_point _ _ _ _); [|done..]. apply IH.
Qed.
Lemma same_share l : share n db' l = share n db l.
Proof. unfold share. by rewrite same_points. Qed.
Lemma same_stacks prev l : stacks_tally db' n prev l = stacks_tally db n prev l.
Proof. revert prev. induction l as [|q l IH]; intros prev; [done|]. cbn [stacks_tally]. unfold the_stack. by rewrite stack_unchanged, IH. Qed.
End Stacks.

Section Epoch.
Context `{L : ScanLib} (n : Z) (db : snapshot) (ok : snapshot_ok db) (frag : fragmented db) (key : bytes).
Abbreviation group := (List.filter (is_key key) (positions db)).

Lemma split_group : positions db = below db key ++ group ++ above db key.
Proof.
  destruct (split_key db ok key) as (g & E & F). enough (g = group) as -> by done. rewrite E at 1. rewrite !filter_app.
  rewrite (filter_all (is_key key) g F), !(filter_none (is_key key)), app_nil_r; [done|..];
    apply List.Forall_forall; intros q [_ B]%List.filter_In; unfold is_key; clear - B; bcases; try done; border.
Qed.

Lemma group_users : Forall (fun q => q_user q = key) group.
Proof. apply List.Forall_forall. intros q [_ K]%List.filter_In. by apply beqb_true. Qed.

Lemma users_set l : (forall q, q ∈ l -> q ∈ positions db) -> Forall (fun q => q_user q <> []) l.
Proof. intros I. apply Forall_forall. intros q Iq. pose proof (ok_pos db ok) as P. rewrite Forall_forall in P. by apply P, I. Qed.

(** The contributions of a key and of the rest. *)
Lemma share_split : share n db (positions db) =
  (a ← share n db (below db key); b ← share n db (points db key); c ← share n db (above db key); Ok (plus a (plus b c))).
Proof.
  assert (Ip : forall q, q ∈ group ++ above db key -> q ∈ positions db).
  { intros q I. rewrite split_group. apply elem_of_app. by right. }
  rewrite split_group at 1. rewrite share_app.
  - destruct (share n db (below db key)); [|done..]. cbn [mbind res_bind]. rewrite share_app.
    + assert (share n db (points db key) = share n db group) as ->.
      { rewrite <- (share_points n db group). f_equal. by rewrite filter_filter. }
      destruct (share n db group); [|done..]. cbn [mbind res_bind]. by destruct (share n db (above db key)).
    + apply users_set. intros q I. apply Ip, elem_of_app. by right.
    + intros q q' I I'. pose proof group_users as F. rewrite Forall_forall in F. rewrite (F q I). apply list_elem_of_In, List.filter_In in I' as [_ B]. intros E.
      rewrite E in B. clear - B. bcases; try done. border.
  - by apply users_set.
  - intros q q' I I'. apply list_elem_of_In, List.filter_In in I as [_ B]. apply elem_of_app in I' as [I'|I'].
    + pose proof group_users as F. rewrite Forall_forall in F. rewrite (F q' I'). intros E. rewrite E in B. clear - B. bcases; try done. border.
    + apply list_elem_of_In, List.filter_In in I' as [_ B']. intros E. rewrite E in B'. clear - B B'. bcases; try done. border.
Qed.

Lemma stacks_split : stacks_tally db n EmptyStack (positions db) =
  plus (stacks_tally db n EmptyStack (below db key))
    (plus (begins db n (last_stack db EmptyStack (below db key)) (MkPos (MkMVCCKey key EmptyTimestamp) None)) (stacks_tally db n (stack_at db key) (above db key))).
Proof.
  rewrite split_group at 1. rewrite stacks_app. f_equal. destruct (decide (group = [])) as [E|N].
  - rewrite E. cbn [app]. symmetry. by apply stacks_gap.
  - rewrite stacks_app. by destruct (stacks_key n db (last_stack db EmptyStack (below db key)) key group N group_users) as [-> ->].
Qed.
End Epoch.

(** If the contribution of one key changes by [d], so do the statistics. *)
Lemma epoch_change `{L : ScanLib} db db' key m s s' d :
  snapshot_ok db -> snapshot_ok db' -> fragmented db -> stacks db' = stacks db -> below db' key = below db key -> above db' key = above db key ->
  epoch_stats db = Ok m -> share 0 db (points db key) = Ok s -> share 0 db (points db' key) = Ok s' -> s' = plus s d ->
  epoch_stats db' = Ok (plus m d).
Proof.
  intros ok ok' fr Es Eb Ea Em S S' ->. assert (fr' : fragmented db').
  { split; [intros t k I C; rewrite (stack_unchanged db db' Es); rewrite Es in I; by apply fr|]. rewrite Es. apply fr. }
  pose proof (share_split 0 db ok key) as P. pose proof (share_split 0 db' ok' key) as P'. rewrite !(same_share 0 db db' Es), Eb, Ea, S' in P'. rewrite S in P.
  pose proof (stacks_split 0 db ok fr key) as T. pose proof (stacks_split 0 db' ok' fr' key) as T'.
  rewrite !(same_stacks 0 db db' Es), Eb, Ea, (stack_unchanged db db' Es) in T'.
  assert (Eq : stacks_tally db' 0 EmptyStack (positions db') = stacks_tally db 0 EmptyStack (positions db)).
  { rewrite (same_stacks 0 db db' Es), T, T'. unfold begins, last_stack, the_stack. destruct (last (below db key)); by rewrite ?(stack_unchanged db db' Es). }
  unfold epoch_stats, store_stats in *. rewrite Eq. apply res_bind_inv in Em as (y & Ey & [= <-]).
  assert (share 0 db (positions db) = Ok (y_ms y)) as Py by (unfold share; by rewrite Ey). rewrite Py in P. clear Py.
  destruct (share 0 db (below db key)) as [a| |]; [|done..]. cbn [mbind res_bind] in P, P'.
  destruct (share 0 db (above db key)) as [c| |]; [|done..]. cbn [mbind res_bind] in P, P'. injection P as Py.
  rewrite (same_points 0 db db' Es). unfold share in P'.
  destruct (points_tally db 0 (positions db') first_tally) as [y'| |]; [|done..]. cbn [fmap res_fmap mbind res_bind] in P' |- *. injection P' as Py'.
  f_equal. rewrite Py, Py'. stats.
Qed.
