(* ===== verification/MvccWrite.v ===== *)
(** Writes to the MVCC store (src/pkg/storage/mvcc.go: [mvccPutInternal] and its callers).

    A write finds the metadata of the key, checks that it may write, determines the value and
    the timestamp, writes the version and, in a transaction, the intent, and keeps the
    statistics.  The writer is Pebble's and a parameter: the part of the interface [Writer] that
    a put uses.  A Go error without structure is [Err]; the errors a caller inspects are values
    of [write_error] and come with the writer as it is when the call fails; the error of a write
    that is too old, after which the write goes on, is part of the result. *)
From S2P Require Import Prelude Bytes GoLib Hlc KeyOps Spans MvccKey RangeKeys MvccValue MvccIter Scanner ScanSpec PebbleResults MvccRead MvccStats.

(** * The writer *)

Inductive MVCCLogicalOpType :=
  | MVCCWriteValueOpType | MVCCWriteIntentOpType | MVCCUpdateIntentOpType
  | MVCCCommitIntentOpType | MVCCAbortIntentOpType | MVCCDeleteRangeOpType.
Record MVCCLogicalOpDetails := MkOpDetails { lo_Txn : option TxnMeta; lo_Key : bytes; lo_Timestamp : Timestamp }.

Class Writer (W : Type) := {
  PutMVCC : W -> MVCCKey -> MVCCValue -> res W;
  PutIntent : W -> bytes -> bytes -> bytes -> res W;
  PutUnversioned : W -> bytes -> bytes -> res W;
  ClearUnversioned : W -> bytes -> res W;
  ClearMVCC : W -> MVCCKey -> res W;
  ClearIntent : W -> bytes -> bool -> bytes -> res W;
  BufferedSize : W -> Z;
  ShouldWriteLocalTimestamps : W -> bool;
  LogLogicalOp : W -> MVCCLogicalOpType -> MVCCLogicalOpDetails -> W
}.

Inductive write_error :=
  | OfRead (e : read_error)
  | ConditionFailedError (actual : option Value).

(** Results that may be an error of the second kind. *)
Definition try_bind {A B E} (e : res (A + E)) (k : A -> res (B + E)) : res (B + E) :=
  x ← e;
  match x with inl a => k a | inr e => Ok (inr e) end.
Notation "'try' x ← e ; k" := (try_bind e (fun x => k)) (at level 20, x binder, e at level 100, k at level 200).
Notation "'try' ' x ← e ; k" := (try_bind e (fun 'x => k)) (at level 20, x strict pattern, e at level 100, k at level 200).

(** The error of a part that does not write, with the writer. *)
Definition stop_at {W A E} (writer : W) (e : res (A + E)) : res (A + E * W) :=
  x ← e;
  Ok (match x with inl a => inl a | inr e => inr (e, writer) end).

(** * Values *)

Definition Value_IsPresent (v : Value) : bool := negb (length (val_RawBytes v) =? 0)%nat.
Definition optional_IsPresent (v : option Value) : bool := match v with Some v => Value_IsPresent v | None => false end.
Definition optional_IsTombstone (v : option Value) : bool := match v with Some v => negb (Value_IsPresent v) | None => false end.
Definition noValue : Value := MkValue [] EmptyTimestamp.

Definition TagAndDataBytes (v : Value) : res bytes := slice_from (val_RawBytes v) 4.
Definition EqualTagAndData (v o : Value) : res bool := a ← TagAndDataBytes v; b ← TagAndDataBytes o; Ok (beqb a b).

Definition stored_value (v : MVCCValue) : Value := MkValue (RawBytes v) EmptyTimestamp.

Record MVCCWriteOptions := MkWriteOptions {
  w_Txn : option Transaction;
  w_LocalTimestamp : ClockTimestamp;
  w_Stats : option MVCCStats;
  w_ReplayWriteTimestampProtection : bool
}.
Definition WriteOptions_validate (opts : MVCCWriteOptions) : res unit :=
  if w_ReplayWriteTimestampProtection opts && negb (bool_decide (is_Some (w_Txn opts)))
  then Err "cannot enable replay protection without a transaction" else Ok tt.

(** * The metadata of a key *)

Record found := MkFound { f_meta : MVCCMetadata; f_keyBytes : Z; f_valBytes : Z; f_realKeyChanged : Timestamp }.

(** Metadata that stands for a version. *)
Definition version_meta (deleted : bool) (valBytes : Z) (ts : Timestamp) : MVCCMetadata :=
  MkMetadata None (Timestamp_ToLegacyTimestamp ts) deleted MVCCVersionTimestampSize valBytes None [] None None.

Section Write.
Context `{L : ScanLib} {It : Type} {M : MVCCIterator It}.

Definition MVCCValueLenAndIsTombstone (it : It) : res (Z * bool) :=
  v ← UnsafeLazyValue it;
  isTombstone ← EncodedMVCCValueIsTombstone v;
  Ok (blen v, isTombstone).
Definition ValueLen (it : It) : Z := match UnsafeLazyValue it with Ok v => blen v | _ => 0 end.

(** The iterator is at a version of the key. *)
Definition found_point (it : It) (hasRange : bool) (metaKey : MVCCKey) : res found :=
  '(valueLen, isTombstone) ← MVCCValueLenAndIsTombstone it;
  let unsafeKey := UnsafeKey it in
  let keyBytes := prefix_len (k_Key metaKey) in
  let rangeKeys := it_RangeKeys it in
  let above := if hasRange then Versions_FirstAtOrAbove (Versions rangeKeys) (k_Timestamp unsafeKey) else None in
  Ok (match above with
      | Some v =>
          MkFound (version_meta true 0 (Versions_Newest (Versions rangeKeys))) keyBytes 0
            (if (isTombstone : bool) then k_Timestamp unsafeKey else v_Timestamp v)
      | None => MkFound (version_meta isTombstone valueLen (k_Timestamp unsafeKey)) keyBytes 0 (k_Timestamp unsafeKey)
      end).

(** The moved iterator, and the metadata if there is any. *)
Definition mvccGetMetadata (iter : option It) (metaKey : MVCCKey) : res (option (It * found)) :=
  match iter with
  | None => Ok None
  | Some it =>
      let it := SeekGE it metaKey in
      valid ← Valid it;
      if negb valid then Ok None
      else
        let unsafeKey := UnsafeKey it in
        if negb (beqb (k_Key unsafeKey) (k_Key metaKey)) then Ok None
        else
          let '(hasPoint, hasRange) := HasPointAndRange it in
          if hasPoint && negb (MVCCKey_IsValue unsafeKey) then
            v ← UnsafeLazyValue it;
            meta ← UnmarshalMeta v;
            Ok (Some (it, MkFound meta (MVCCKey_EncodedSize unsafeKey) (ValueLen it)
                            (LegacyTimestamp_ToTimestamp (m_Timestamp meta))))
          else if hasRange && negb hasPoint then
            match Versions (it_RangeKeys it) with
            | [] => Panic "index out of range"
            | rk :: _ =>
                let it := Next it in
                valid ← Valid it;
                let '(hasPoint, hasRange) := if (valid : bool) then HasPointAndRange it else (hasPoint, hasRange) in
                let unsafeKey := if (valid : bool) then UnsafeKey it else unsafeKey in
                if negb hasPoint || negb (beqb (k_Key unsafeKey) (k_Key metaKey))
                then Ok (Some (it, MkFound (version_meta true 0 (v_Timestamp rk)) 0 0 EmptyTimestamp))
                else f ← found_point it hasRange metaKey; Ok (Some (it, f))
            end
          else f ← found_point it hasRange metaKey; Ok (Some (it, f))
  end.

(** * Puts *)

Context (batch_reader : batch -> res (list (bytes * bytes) * option string)).
Context (maxItersBeforeSeek : Z) (fuel : nat) (unlimited : account) (disableSimpleValueEncoding : bool).

(** [mvccGet] with these options.  It seeks first and leaves the iterator somewhere: what uses
    the iterator after it seeks again. *)
Definition get_value (it : It) (key : bytes) (ts : Timestamp) (inconsistent : bool) (txn : option Transaction)
    : res (option Value + write_error) :=
  x ← mvccGet batch_reader maxItersBeforeSeek fuel it key ts
        (MkGetOptions inconsistent false true false txn (MkInterval EmptyTimestamp EmptyTimestamp) unlimited false 0 0 false);
  Ok (match x with inl (v, _) => inl v | inr e => inr (OfRead e) end).

Abbreviation value_fn := (option Value -> res (Value + write_error)).

Definition maybeGetValue (it : It) (key : bytes) (value : Value) (exists_ : bool) (readTimestamp : Timestamp) (valueFn : option value_fn)
    : res (Value + write_error) :=
  match valueFn with
  | None => Ok (inl value)
  | Some f =>
      try exVal ← (if exists_ then get_value it key readTimestamp false None else Ok (inl None));
      f exVal
  end.

(** ** Replays of a write in a transaction *)

(** The value that was written at the sequence. *)
Definition written_value (it : It) (meta : MVCCMetadata) (metaTxn : TxnMeta) (key : bytes) (timestamp : Timestamp) (txn : Transaction)
    : res (option Value + write_error) :=
  if t_Sequence (tx_Meta txn) =? t_Sequence metaTxn then get_value it key timestamp false (Some txn)
  else
    match GetIntentValue meta (t_Sequence (tx_Meta txn)) with
    | Some raw => v ← DecodeMVCCValue raw; Ok (inl (Some (stored_value v)))
    | None => Ok (inl None)
    end.

(** The value before the write: that of an earlier sequence, or the committed one. *)
Definition would_be_value (it : It) (meta : MVCCMetadata) (key : bytes) (timestamp : Timestamp) (txn : Transaction)
    : res (option Value + write_error) :=
  prev ← GetPrevIntentSeq meta (t_Sequence (tx_Meta txn)) (tx_IgnoredSeqNums txn);
  match prev with
  | Some p => v ← DecodeMVCCValue (h_Value p); Ok (inl (Some (stored_value v)))
  | None => get_value it key timestamp true None
  end.

Definition replayTransactionalWrite (it : It) (meta : MVCCMetadata) (metaTxn : TxnMeta) (key : bytes) (timestamp : Timestamp)
    (value : Value) (txn : Transaction) (valueFn : option value_fn) (replayWriteTimestampProtection : bool)
    : res (unit + write_error) :=
  try writtenValue ← written_value it meta metaTxn key timestamp txn;
  match writtenValue with
  | None => Err "transaction missing an intent with lower sequence"
  | Some written =>
      try value ← (match valueFn with
                   | None => Ok (inl value)
                   | Some f => try exVal ← would_be_value it meta key timestamp txn; f exVal
                   end);
      if negb (beqb (val_RawBytes value) (val_RawBytes written))
      then Err "transaction has a different value after recomputing from what was written"
      else if replayWriteTimestampProtection && negb (Timestamp_Equal (t_WriteTimestamp (tx_Meta txn)) (t_WriteTimestamp metaTxn))
      then Err "transaction prevented from changing write timestamp due to ambiguous replay protection"
      else Ok (inl tt)
  end.

(** ** The parts of a put *)

Context {W : Type} {Wr : Writer W}.

Definition putInlineMeta (writer : W) (key : MVCCKey) (meta : MVCCMetadata) : res (W * Z * Z) :=
  b ← MarshalMeta meta;
  writer ← PutUnversioned writer (k_Key key) b;
  Ok (writer, MVCCKey_EncodedSize key, blen b).

Definition putIntentMeta (writer : W) (key : MVCCKey) (meta : MVCCMetadata) (txn : TxnMeta) (alreadyExists : bool) : res (W * Z * Z) :=
  if negb (Timestamp_Equal (LegacyTimestamp_ToTimestamp (m_Timestamp meta)) (t_WriteTimestamp txn))
  then Err "meta.Timestamp != meta.Txn.WriteTimestamp"
  else
    b ← MarshalMeta (MkMetadata (m_Txn meta) (m_Timestamp meta) (m_Deleted meta) (m_KeyBytes meta) (m_ValBytes meta) (m_RawBytes meta)
                       (m_IntentHistory meta) (m_MergeTimestamp meta) (if alreadyExists then None else Some true));
    writer ← PutIntent writer (k_Key key) b (t_ID txn);
    Ok (writer, MVCCKey_EncodedSize key, blen b).

Record put_result := MkPut {
  p_writer : W;
  p_stats : option MVCCStats;
  p_exReplaced : bool;
  p_tooOld : option scan_error
}.

Definition put_inline (writer : W) (key : bytes) (timestamp : Timestamp) (value : Value) (valueFn : option value_fn)
    (opts : MVCCWriteOptions) (ex : option (It * found)) : res (put_result + write_error * W) :=
  let metaKey := MakeMVCCMetadataKey key in
  if bool_decide (is_Some (w_Txn opts)) then Err "inline writes not allowed within transactions"
  else
    try value ← stop_at writer (match ex with
                 | Some (it, _) => maybeGetValue it key value true timestamp valueFn
                 | None => match valueFn with None => Ok (inl value) | Some f => f None end
                 end);
    '(writer, metaKeySize, metaValSize, deleted) ←
      (if negb (Value_IsPresent value) then
         writer ← ClearUnversioned writer (k_Key metaKey);
         Ok (writer, 0, 0, match ex with Some (_, f) => m_Deleted (f_meta f) | None => false end)
       else
         '(writer, k, v) ← putInlineMeta writer metaKey
                             (MkMetadata None (MkLegacyTimestamp 0 0 None) false 0 0 (Some (val_RawBytes value)) [] None None);
         Ok (writer, k, v, false));
    let '(origMetaKeySize, origMetaValSize) := match ex with Some (_, f) => (f_keyBytes f, f_valBytes f) | None => (0, 0) end in
    Ok (inl (MkPut writer
               ((fun ms => updateStatsForInline ms key origMetaKeySize origMetaValSize metaKeySize metaValSize) <$> w_Stats opts)
               (bool_decide (is_Some ex) && negb deleted) None)).

(** The value an intent of the transaction holds, with the provisional encoding if its sequence
    is not ignored. *)
Definition replaced_value (it : It) (meta : MVCCMetadata) (metaTxn : TxnMeta) (key : bytes) (readTimestamp : Timestamp) (txn : Transaction)
    : res ((It * option Value * option bytes) + write_error) :=
  let oldVersionKey := MkMVCCKey key (LegacyTimestamp_ToTimestamp (m_Timestamp meta)) in
  '(it, exVal, curProvValRaw) ←
    (if t_Epoch (tx_Meta txn) =? t_Epoch metaTxn then
       if negb (TxnSeqIsIgnored (t_Sequence metaTxn) (tx_IgnoredSeqNums txn)) then
         let it := SeekGE it oldVersionKey in
         valid ← Valid it;
         let hasPoint := if (valid : bool) then (HasPointAndRange it).1 else false in
         if negb hasPoint || negb (MVCCKey_Equal (UnsafeKey it) oldVersionKey) then Err "existing intent value missing"
         else
           raw ← UnsafeLazyValue it;
           v ← DecodeMVCCValue raw;
           Ok (it, Some (stored_value v), Some raw)
       else
         prev ← GetPrevIntentSeq meta (t_Sequence (tx_Meta txn)) (tx_IgnoredSeqNums txn);
         match prev with
         | Some p => v ← DecodeMVCCValue (h_Value p); Ok (it, Some (stored_value v), None)
         | None => Ok (it, None, None)
         end
     else Ok (it, None, None));
  match exVal with
  | Some _ => Ok (inl (it, exVal, curProvValRaw))
  | None => try exVal ← get_value it key readTimestamp true None; Ok (inl (it, exVal, curProvValRaw))
  end.

(** The size of the version below an intent, if it is a value that no range tombstone covers. *)
Definition version_below (it : It) (oldVersionKey : MVCCKey) : res (bool * Z) :=
  prevKey ← MVCCKey_Next oldVersionKey [];
  let it := SeekGE it prevKey in
  valid ← Valid it;
  '(it, valid) ←
    (if valid : bool then
       let '(hasPoint, hasRange) := HasPointAndRange it in
       if hasRange && negb hasPoint then
         let it := Next it in
         valid ← Valid it;
         Ok (it, valid)
       else Ok (it, true)
     else Ok (it, false));
  if (valid : bool) && beqb (k_Key (UnsafeKey it)) (k_Key prevKey) then
    let prevUnsafeKey := UnsafeKey it in
    if negb (MVCCKey_IsValue prevUnsafeKey) then Err "expected an MVCC value key"
    else
      let '(_, hasRange) := HasPointAndRange it in
      uncovered ←
        (if negb hasRange then Ok true
         else
           match Versions (it_RangeKeys it) with
           | [] => Panic "index out of range"
           | v :: _ => Ok (Timestamp_Less (v_Timestamp v) (k_Timestamp prevUnsafeKey))
           end);
      if (uncovered : bool) then
        '(prevValLen, prevValIsTombstone) ← MVCCValueLenAndIsTombstone it;
        Ok (if negb prevValIsTombstone then (true, prevValLen) else (false, 0))
      else Ok (false, 0)
  else Ok (false, 0).

(** What a put has determined before it writes. *)
Record put_plan := MkPlan {
  pp_writer : W;
  pp_value : Value;
  pp_writeTimestamp : Timestamp;
  pp_exReplaced : bool;
  pp_prevIsValue : bool;
  pp_prevValSize : Z;
  pp_history : list SequencedIntent;
  pp_tooOld : option scan_error;
  pp_op : MVCCLogicalOpType
}.

(** The key has an intent: [None] if the write is a replay. *)
Definition plan_over_intent (writer : W) (it : It) (key : bytes) (value : Value) (valueFn : option value_fn) (opts : MVCCWriteOptions)
    (readTimestamp writeTimestamp : Timestamp) (meta : MVCCMetadata) (metaTxn : TxnMeta) : res (option put_plan + write_error * W) :=
  let conflict := Ok (inr (OfRead (WriteIntentError [MkIntent key metaTxn]), writer)) in
  match w_Txn opts with
  | None => conflict
  | Some txn =>
      if negb (beqb (t_ID metaTxn) (t_ID (tx_Meta txn))) then conflict
      else if t_Epoch (tx_Meta txn) <? t_Epoch metaTxn then Err "put with epoch came after put with later epoch"
      else if (t_Epoch (tx_Meta txn) =? t_Epoch metaTxn) && (t_Sequence (tx_Meta txn) <=? t_Sequence metaTxn) then
        try _ ← stop_at writer (replayTransactionalWrite it meta metaTxn key readTimestamp value txn valueFn (w_ReplayWriteTimestampProtection opts));
        Ok (inl None)
      else
        let metaTimestamp := LegacyTimestamp_ToTimestamp (m_Timestamp meta) in
        let oldVersionKey := MkMVCCKey key metaTimestamp in
        try '(it, exVal, curProvValRaw) ← stop_at writer (replaced_value it meta metaTxn key readTimestamp txn);
        try value ← stop_at writer (match valueFn with Some f => f exVal | None => Ok (inl value) end);
        '(writer, writeTimestamp, prevIsValue, prevValSize) ←
          (if Timestamp_Less metaTimestamp writeTimestamp then
             '(prevIsValue, prevValSize) ← version_below it oldVersionKey;
             writer ← ClearMVCC writer oldVersionKey;
             Ok (writer, writeTimestamp, prevIsValue, prevValSize)
           else if Timestamp_Less writeTimestamp metaTimestamp then Ok (writer, metaTimestamp, false, 0)
           else Ok (writer, writeTimestamp, false, 0));
        let history :=
          if (t_Epoch (tx_Meta txn) =? t_Epoch metaTxn) && bool_decide (is_Some exVal) then
            match curProvValRaw with
            | Some raw => m_IntentHistory (AddToIntentHistory meta (t_Sequence metaTxn) raw)
            | None => m_IntentHistory meta
            end
          else [] in
        Ok (inl (Some (MkPlan writer value writeTimestamp (optional_IsPresent exVal) prevIsValue prevValSize history None
                         MVCCUpdateIntentOpType)))
  end.

(** The function that stands in for [valueFn] to find out what is replaced. *)
Definition exReplacedFn (value : Value) (valueFn : option value_fn) (exVal : option Value) : res ((Value * bool) + write_error) :=
  try v ← (match valueFn with Some f => f exVal | None => Ok (inl value) end);
  Ok (inl (v, optional_IsPresent exVal)).

(** The key has versions or range tombstones only. *)
Definition plan_over_version (writer : W) (it : It) (key : bytes) (value : Value) (valueFn : option value_fn) (opts : MVCCWriteOptions)
    (readTimestamp writeTimestamp : Timestamp) (meta : MVCCMetadata) (op : MVCCLogicalOpType) : res (put_plan + write_error * W) :=
  let metaTimestamp := LegacyTimestamp_ToTimestamp (m_Timestamp meta) in
  if Timestamp_LessEq readTimestamp metaTimestamp then
    next ← Timestamp_Next metaTimestamp;
    let writeTimestamp := (Timestamp_Forward writeTimestamp next).1 in
    let tooOld := WriteTooOldError readTimestamp writeTimestamp key in
    let readTimestamp := match w_Txn opts with None => writeTimestamp | Some _ => readTimestamp end in
    try exVal ← stop_at writer (get_value it key readTimestamp false None);
    try '(value, exReplaced) ← stop_at writer (exReplacedFn value valueFn exVal);
    Ok (inl (MkPlan writer value writeTimestamp exReplaced false 0 (m_IntentHistory meta) (Some tooOld) op))
  else
    try value ← stop_at writer (maybeGetValue it key value true readTimestamp valueFn);
    Ok (inl (MkPlan writer value writeTimestamp (negb (m_Deleted meta)) false 0 (m_IntentHistory meta) None op)).

(** The value to write: the local timestamp is kept if it is needed. *)
Definition version_value (opts : MVCCWriteOptions) (writer : W) (value : Value) (ts : Timestamp) : res MVCCValue :=
  let versionValue := MkMVCCValue (MkHeader (w_LocalTimestamp opts)) (val_RawBytes value) in
  needed ← LocalTimestampNeeded versionValue ts;
  Ok (if negb needed || negb (ShouldWriteLocalTimestamps writer)
      then MkMVCCValue EmptyHeader (RawBytes versionValue) else versionValue).

(** The transaction of an intent at a timestamp. *)
Definition txn_at (txn : Transaction) (ts : Timestamp) : TxnMeta :=
  let m := tx_Meta txn in
  if Timestamp_Equal (t_WriteTimestamp m) ts then m
  else
    MkTxnMeta (t_ID m) (t_Key m) (t_Epoch m) (Timestamp_Forward (t_WriteTimestamp m) ts).1 (t_MinTimestamp m) (t_Priority m)
      (t_Sequence m).

Definition new_meta (txn : option TxnMeta) (ts : Timestamp) (v : MVCCValue) (history : list SequencedIntent) : MVCCMetadata :=
  MkMetadata txn (Timestamp_ToLegacyTimestamp ts) (MVCCValue_IsTombstone v) MVCCVersionTimestampSize
    (encodedMVCCValueSize disableSimpleValueEncoding v) None history None None.

(** What was there, for the statistics: only real points count, from when they changed. *)
Definition orig_meta (ex : option found) : option MVCCMetadata :=
  match ex with
  | Some f =>
      if Timestamp_IsEmpty (f_realKeyChanged f) then None
      else
        let m := f_meta f in
        Some (MkMetadata (m_Txn m) (Timestamp_ToLegacyTimestamp (f_realKeyChanged f)) (m_Deleted m) (m_KeyBytes m) (m_ValBytes m)
                (m_RawBytes m) (m_IntentHistory m) (m_MergeTimestamp m) (m_TxnDidNotUpdateMeta m))
  | None => None
  end.

(** Writes the intent and the version, and keeps the statistics. *)
Definition put_version (key : bytes) (opts : MVCCWriteOptions) (ex : option found) (p : put_plan) : res put_result :=
  let metaKey := MakeMVCCMetadataKey key in
  let versionKey := MkMVCCKey key (pp_writeTimestamp p) in
  versionValue ← version_value opts (pp_writer p) (pp_value p) (k_Timestamp versionKey);
  let txnMeta := (fun txn => txn_at txn (k_Timestamp versionKey)) <$> w_Txn opts in
  let newMeta := new_meta txnMeta (k_Timestamp versionKey) versionValue (pp_history p) in
  '(writer, metaKeySize, metaValSize) ←
    (match txnMeta with
     | Some txn =>
         let alreadyExists := match ex with Some f => has_txn (f_meta f) | None => false end in
         putIntentMeta (pp_writer p) metaKey newMeta txn alreadyExists
     | None => Ok (pp_writer p, MVCCKey_EncodedSize metaKey, 0)
     end);
  writer ← PutMVCC writer versionKey versionValue;
  let '(origMetaKeySize, origMetaValSize) := match ex with Some f => (f_keyBytes f, f_valBytes f) | None => (0, 0) end in
  let stats :=
    (fun ms =>
       Add ms (updateStatsOnPut key (pp_prevIsValue p) (pp_prevValSize p) origMetaKeySize origMetaValSize metaKeySize metaValSize
                 (orig_meta ex) newMeta)) <$> w_Stats opts in
  let writer := LogLogicalOp writer (pp_op p) (MkOpDetails txnMeta key (pp_writeTimestamp p)) in
  Ok (MkPut writer stats (pp_exReplaced p) (pp_tooOld p)).

Definition mvccPutInternal (writer : W) (iter : option It) (key : bytes) (timestamp : Timestamp) (value : Value)
    (valueFn : option value_fn) (opts : MVCCWriteOptions) : res (put_result + write_error * W) :=
  if (length key =? 0)%nat then Err "attempted access to empty key"
  else if WallTime timestamp <? 0 then Err "cannot write at timestamp"
  else if negb (Timestamp_IsEmpty (val_Timestamp value)) then Err "cannot have timestamp set in value"
  else
    _ ← WriteOptions_validate opts;
    ex ← mvccGetMetadata iter (MakeMVCCMetadataKey key);
    let putIsInline := Timestamp_IsEmpty timestamp in
    if match ex with Some (_, f) => negb (Bool.eqb putIsInline (IsInline (f_meta f))) | None => false end
    then Err "put is inline, but existing value is not, or conversely"
    else if putIsInline then put_inline writer key timestamp value valueFn opts ex
    else
      '(readTimestamp, writeTimestamp) ←
        (match w_Txn opts with
         | Some txn =>
             if negb (Timestamp_Equal (tx_ReadTimestamp txn) timestamp) then Err "txn's read timestamp does not match timestamp"
             else Ok (tx_ReadTimestamp txn, t_WriteTimestamp (tx_Meta txn))
         | None => Ok (timestamp, timestamp)
         end);
      let op := match w_Txn opts with Some _ => MVCCWriteIntentOpType | None => MVCCWriteValueOpType end in
      match ex with
      | Some (it, f) =>
          let meta := f_meta f in
          match m_Txn meta with
          | Some metaTxn =>
              try plan ← plan_over_intent writer it key value valueFn opts readTimestamp writeTimestamp meta metaTxn;
              match plan with
              | None => Ok (inl (MkPut writer (w_Stats opts) false None))
              | Some p => r ← put_version key opts (Some f) p; Ok (inl r)
              end
          | None =>
              try p ← plan_over_version writer it key value valueFn opts readTimestamp writeTimestamp meta op;
              r ← put_version key opts (Some f) p; Ok (inl r)
          end
      | None =>
          try value ← stop_at writer (match valueFn with Some f => f None | None => Ok (inl value) end);
          r ← put_version key opts None (MkPlan writer value writeTimestamp false false 0 [] None op);
          Ok (inl r)
      end.

(** ** The callers *)

Context (NewMVCCIterator : W -> IterKind -> IterOptions -> It).

Definition write_iterator (rw : W) (timestamp : Timestamp) : It :=
  newMVCCIterator (NewMVCCIterator rw) timestamp false false (MkIterOptions true [] [] IterKeyTypePointsAndRanges EmptyTimestamp).

Definition mvccPutUsingIter (writer : W) (iter : option It) (key : bytes) (timestamp : Timestamp) (value : Value)
    (valueFn : option value_fn) (opts : MVCCWriteOptions) : res (put_result + write_error * W) :=
  mvccPutInternal writer iter key timestamp value valueFn opts.

Definition MVCCPut (rw : W) (key : bytes) (timestamp : Timestamp) (value : Value) (opts : MVCCWriteOptions) : res (put_result + write_error * W) :=
  let blind := negb (bool_decide (is_Some (w_Stats opts))) && Timestamp_IsEmpty timestamp in
  let iter := if negb blind then Some (write_iterator rw timestamp) else None in
  mvccPutUsingIter rw iter key timestamp value None opts.

Definition MVCCBlindPut (writer : W) (key : bytes) (timestamp : Timestamp) (value : Value) (opts : MVCCWriteOptions)
    : res (put_result + write_error * W) :=
  mvccPutUsingIter writer None key timestamp value None opts.

(** The result's [p_exReplaced] is [foundKey]. *)
Definition MVCCDelete (rw : W) (key : bytes) (timestamp : Timestamp) (opts : MVCCWriteOptions) : res (put_result + write_error * W) :=
  mvccPutInternal rw (Some (write_iterator rw timestamp)) key timestamp noValue None opts.

Definition conditional_value (value : Value) (expBytes : bytes) (allowNoExisting : bool) : value_fn := fun existVal =>
  let expValPresent := negb (length expBytes =? 0)%nat in
  let existValPresent := optional_IsPresent existVal in
  let failed := Ok (inr (ConditionFailedError existVal)) in
  match existVal with
  | Some v =>
      if expValPresent && existValPresent then
        actual ← TagAndDataBytes v;
        if negb (beqb expBytes actual) then failed else Ok (inl value)
      else if negb (Bool.eqb expValPresent existValPresent) && (existValPresent || negb allowNoExisting) then failed
      else Ok (inl value)
  | None => if expValPresent && negb allowNoExisting then failed else Ok (inl value)
  end.

Definition mvccConditionalPutUsingIter (writer : W) (iter : option It) (key : bytes) (timestamp : Timestamp) (value : Value)
    (expBytes : bytes) (allowNoExisting : bool) (opts : MVCCWriteOptions) : res (put_result + write_error * W) :=
  mvccPutUsingIter writer iter key timestamp noValue (Some (conditional_value value expBytes allowNoExisting)) opts.

Definition MVCCConditionalPut (rw : W) (key : bytes) (timestamp : Timestamp) (value : Value) (expVal : bytes) (allowIfDoesNotExist : bool)
    (opts : MVCCWriteOptions) : res (put_result + write_error * W) :=
  mvccConditionalPutUsingIter rw (Some (write_iterator rw timestamp)) key timestamp value expVal allowIfDoesNotExist opts.
Definition MVCCBlindConditionalPut (writer : W) (key : bytes) (timestamp : Timestamp) (value : Value) (expVal : bytes)
    (allowIfDoesNotExist : bool) (opts : MVCCWriteOptions) : res (put_result + write_error * W) :=
  mvccConditionalPutUsingIter writer None key timestamp value expVal allowIfDoesNotExist opts.

Definition init_value (value : Value) (failOnTombstones : bool) : value_fn := fun existVal =>
  if failOnTombstones && optional_IsTombstone existVal then Ok (inr (ConditionFailedError existVal))
  else
    match existVal with
    | Some v =>
        if Value_IsPresent v then
          same ← EqualTagAndData v value;
          if negb same then Ok (inr (ConditionFailedError existVal)) else Ok (inl value)
        else Ok (inl value)
    | None => Ok (inl value)
    end.

Definition mvccInitPutUsingIter (rw : W) (iter : option It) (key : bytes) (timestamp : Timestamp) (value : Value)
    (failOnTombstones : bool) (opts : MVCCWriteOptions) : res (put_result + write_error * W) :=
  mvccPutUsingIter rw iter key timestamp noValue (Some (init_value value failOnTombstones)) opts.

Definition MVCCInitPut (rw : W) (key : bytes) (timestamp : Timestamp) (value : Value) (failOnTombstones : bool) (opts : MVCCWriteOptions)
    : res (put_result + write_error * W) :=
  mvccInitPutUsingIter rw (Some (write_iterator rw timestamp)) key timestamp value failOnTombstones opts.
Definition MVCCBlindInitPut (rw : W) (key : bytes) (timestamp : Timestamp) (value : Value) (failOnTombstones : bool) (opts : MVCCWriteOptions)
    : res (put_result + write_error * W) :=
  mvccInitPutUsingIter rw None key timestamp value failOnTombstones opts.
End Write.
