(* ===== verification/MvccResolve.v ===== *)
(** Resolving intents (src/pkg/storage/mvcc.go, src/pkg/roachpb).

    An intent is committed, aborted, or pushed to a higher timestamp; writes that were rolled
    back are taken out of it.  The iterator was opened before the resolution writes, so it does
    not see what is written.  Go's [buf.newMeta] is a shallow copy of the metadata found: the two
    share their [Txn], of which only the [ID] is read again after it has been changed. *)
From S2P Require Import Prelude Bytes GoLib Hlc KeyOps Spans MvccKey RangeKeys MvccValue MvccIter Scanner MvccRead MvccStats MvccWrite.

Inductive TransactionStatus := PENDING | COMMITTED | ABORTED | STAGING.
Definition IsFinalized (s : TransactionStatus) : bool := match s with COMMITTED | ABORTED => true | _ => false end.

Record ObservedTimestamp := MkObserved { o_NodeID : Z; o_Timestamp : ClockTimestamp }.
Record LockUpdate := MkLockUpdate {
  u_Span : Span;
  u_Txn : TxnMeta;
  u_Status : TransactionStatus;
  u_IgnoredSeqNums : list IgnoredSeqNumRange;
  u_ClockWhilePending : ObservedTimestamp
}.

(** [SingleDel] may take the place of a deletion. *)
Record singleDelOptimizationHelper := MkSingleDel { sd_didNotUpdateMeta : option bool; sd_hasIgnoredSeqs : bool; sd_epoch : Z }.
Definition sd_v (h : singleDelOptimizationHelper) : bool := match sd_didNotUpdateMeta h with Some b => b | None => false end.
Definition onCommitIntent (h : singleDelOptimizationHelper) : bool := sd_v h && negb (sd_hasIgnoredSeqs h) && (sd_epoch h =? 0).
Definition onAbortIntent (h : singleDelOptimizationHelper) : bool := false.

Definition set_WriteTimestamp (t : TxnMeta) (ts : Timestamp) : TxnMeta :=
  MkTxnMeta (t_ID t) (t_Key t) (t_Epoch t) ts (t_MinTimestamp t) (t_Priority t) (t_Sequence t).
Definition set_Sequence (t : TxnMeta) (seq : Z) : TxnMeta :=
  MkTxnMeta (t_ID t) (t_Key t) (t_Epoch t) (t_WriteTimestamp t) (t_MinTimestamp t) (t_Priority t) seq.
Definition forward_update (u : LockUpdate) (ts : Timestamp) : LockUpdate :=
  MkLockUpdate (u_Span u) (set_WriteTimestamp (u_Txn u) (Timestamp_Forward (t_WriteTimestamp (u_Txn u)) ts).1) (u_Status u) (u_IgnoredSeqNums u)
    (u_ClockWhilePending u).

(** The last entry of a history that was not rolled back, with its index. *)
Fixpoint last_kept (i : nat) (h : list SequencedIntent) (ignored : list IgnoredSeqNumRange) : option (nat * SequencedIntent) :=
  match i with
  | O => None
  | S i =>
      match h !! i with
      | Some e => if negb (TxnSeqIsIgnored (h_Sequence e) ignored) then Some (i, e) else last_kept i h ignored
      | None => None
      end
  end.

Section Resolve.
Context `{L : ScanLib} {It : Type} {M : MVCCIterator It} {W : Type} {Wr : Writer W} (disableSimpleValueEncoding : bool).

(** The metadata, and the sizes of its key and value. *)
Definition mvccGetIntent (it : It) (metaKey : MVCCKey) : res (option (MVCCMetadata * Z * Z)) :=
  valid ← Valid it;
  if negb valid then Ok None
  else
    let '(hasPoint, _) := HasPointAndRange it in
    if negb hasPoint then Ok None
    else
      let unsafeKey := UnsafeKey it in
      if negb (beqb (k_Key unsafeKey) (k_Key metaKey)) then Ok None
      else if MVCCKey_IsValue unsafeKey then Ok None
      else
        v ← UnsafeLazyValue it;
        meta ← UnmarshalMeta v;
        Ok (Some (meta, MVCCKey_EncodedSize unsafeKey, blen v)).

(** Whether the intent is to be removed, and the value placed back into it. *)
Definition mvccMaybeRewriteIntentHistory (engine : W) (ignoredSeqNums : list IgnoredSeqNumRange) (meta : MVCCMetadata) (metaTxn : TxnMeta)
    (latestKey : MVCCKey) : res (W * MVCCMetadata * TxnMeta * bool * option MVCCValue) :=
  if negb (TxnSeqIsIgnored (t_Sequence metaTxn) ignoredSeqNums) then Ok (engine, meta, metaTxn, false, None)
  else
    match last_kept (length (m_IntentHistory meta)) (m_IntentHistory meta) ignoredSeqNums with
    | None => Ok (engine, meta, metaTxn, true, None)
    | Some (i, e) =>
        let restoredValRaw := h_Value e in
        restoredVal ← DecodeMVCCValue restoredValRaw;
        let metaTxn := set_Sequence metaTxn (h_Sequence e) in
        let meta :=
          MkMetadata (Some metaTxn) (m_Timestamp meta) (MVCCValue_IsTombstone restoredVal) (m_KeyBytes meta) (blen restoredValRaw)
            (m_RawBytes meta) (take i (m_IntentHistory meta)) (m_MergeTimestamp meta) (m_TxnDidNotUpdateMeta meta) in
        engine ← PutMVCC engine latestKey restoredVal;
        Ok (engine, meta, metaTxn, false, Some restoredVal)
    end.

(** The value of the intent, at its new timestamp. *)
Definition moved_value (rw : W) (update : LockUpdate) (oldValue : MVCCValue) (oldTimestamp newTimestamp : Timestamp) : res MVCCValue :=
  let local := GetLocalTimestamp oldValue oldTimestamp in
  let local := (Timestamp_Forward local (o_Timestamp (u_ClockWhilePending update))).1 in
  let newValue := MkMVCCValue (MkHeader local) (RawBytes oldValue) in
  needed ← LocalTimestampNeeded newValue newTimestamp;
  Ok (if negb needed || negb (ShouldWriteLocalTimestamps rw) then MkMVCCValue EmptyHeader (RawBytes newValue) else newValue).

(** The version below the one an iterator stands at, if it is a value that no range tombstone covers. *)
Definition next_below (it : It) (oldKey : MVCCKey) : res (bool * Z) :=
  let it := Next it in
  valid ← Valid it;
  if valid : bool then
    let '(hasPoint, hasRange) := HasPointAndRange it in
    let unsafeKey := UnsafeKey it in
    if hasPoint && beqb (k_Key unsafeKey) (k_Key oldKey) then
      uncovered ←
        (if negb hasRange then Ok true
         else
           match Versions (it_RangeKeys it) with
           | [] => Panic "index out of range"
           | v :: _ => Ok (Timestamp_Less (v_Timestamp v) (k_Timestamp unsafeKey))
           end);
      if (uncovered : bool) then
        '(prevValLen, prevValIsTombstone) ← MVCCValueLenAndIsTombstone it;
        Ok (negb prevValIsTombstone, prevValLen)
      else Ok (false, 0)
    else Ok (false, 0)
  else Ok (false, 0).

(** Writes the version of the intent at the new timestamp and clears the old one. *)
Definition move_version (rw : W) (it : It) (update : LockUpdate) (rolledBackVal : option MVCCValue) (oldKey : MVCCKey) (newTimestamp : Timestamp)
    (newMeta : MVCCMetadata) (newTxn : TxnMeta) : res (W * MVCCMetadata * TxnMeta * bool * Z) :=
  let newKey := MkMVCCKey (k_Key oldKey) newTimestamp in
  let it := SeekGE it oldKey in
  valid ← Valid it;
  '(it, valid) ←
    (if valid : bool then
       let '(hasPoint, hasRange) := HasPointAndRange it in
       if hasRange && negb hasPoint then
         let it := Next it in
         valid ← Valid it;
         Ok (it, if (valid : bool) then (HasPointAndRange it).1 else false)
       else Ok (it, true)
     else Ok (it, false));
  if negb valid || negb (MVCCKey_Equal (UnsafeKey it) oldKey) then Err "existing intent value missing"
  else
    v ← UnsafeLazyValue it;
    oldValue ← DecodeMVCCValue v;
    let oldValue := default oldValue rolledBackVal in
    newValue ← moved_value rw update oldValue (k_Timestamp oldKey) newTimestamp;
    let newTxn := set_WriteTimestamp newTxn newTimestamp in
    let newMeta :=
      MkMetadata (Some newTxn) (Timestamp_ToLegacyTimestamp newTimestamp) (MVCCValue_IsTombstone newValue) MVCCVersionTimestampSize
        (encodedMVCCValueSize disableSimpleValueEncoding newValue) (m_RawBytes newMeta) (m_IntentHistory newMeta) (m_MergeTimestamp newMeta)
        (m_TxnDidNotUpdateMeta newMeta) in
    rw ← PutMVCC rw newKey newValue;
    rw ← ClearMVCC rw oldKey;
    '(prevIsValue, prevValSize) ← next_below it oldKey;
    Ok (rw, newMeta, newTxn, prevIsValue, prevValSize).

(** The version that an aborted intent reveals: its length, whether it is deleted, and since when. *)
Definition revealed (it : It) (latestKey : MVCCKey) : res (option (Z * bool * Timestamp)) :=
  nextKey ← MVCCKey_Next latestKey [];
  if MVCCKey_IsValue nextKey then
    let it := SeekGE it nextKey in
    valid ← Valid it;
    '(it, ok, hasRange) ←
      (if valid : bool then
         let '(hasPoint, hasRange) := HasPointAndRange it in
         if hasRange && negb hasPoint then
           let it := Next it in
           valid ← Valid it;
           Ok (if (valid : bool) then let '(hasPoint, hasRange) := HasPointAndRange it in (it, hasPoint, hasRange) else (it, false, hasRange))
         else Ok (it, true, hasRange)
       else Ok (it, false, false));
    if ok && beqb (k_Key (UnsafeKey it)) (k_Key latestKey) then
      let unsafeNextKey := UnsafeKey it in
      if negb (MVCCKey_IsValue unsafeNextKey) then Err "expected an MVCC value key"
      else
        '(nextValueLen, nextValueIsTombstone) ← MVCCValueLenAndIsTombstone it;
        let above := Versions_FirstAtOrAbove (Versions (it_RangeKeys it)) (k_Timestamp unsafeNextKey) in
        Ok (Some (match (if negb nextValueIsTombstone && hasRange then above else None) with
                  | Some v => (0, true, v_Timestamp v)
                  | None => (nextValueLen, nextValueIsTombstone, k_Timestamp unsafeNextKey)
                  end))
    else Ok None
  else Ok None.

Record resolve_result := MkResolved { rr_writer : W; rr_stats : option MVCCStats; rr_ok : bool }.

(** Commits the intent, or keeps it at its new timestamp or with its restored value. *)
Definition resolve_update (rw : W) (it : It) (ms : option MVCCStats) (update : LockUpdate) (meta newMeta : MVCCMetadata) (metaTxn newTxn : TxnMeta)
    (origMetaKeySize origMetaValSize : Z) (commit timestampChanged : bool) (rolledBackVal : option MVCCValue) (helper : singleDelOptimizationHelper)
    : res resolve_result :=
  let key := Key (u_Span update) in
  let metaKey := MakeMVCCMetadataKey key in
  let metaTimestamp := LegacyTimestamp_ToTimestamp (m_Timestamp meta) in
  let newTimestamp := t_WriteTimestamp (u_Txn update) in
  if Timestamp_Less newTimestamp metaTimestamp then Err "timestamp regression during intent resolution"
  else
    '(rw, newMeta, newTxn, prevIsValue, prevValSize) ←
      (if timestampChanged : bool then move_version rw it update rolledBackVal (MkMVCCKey key metaTimestamp) newTimestamp newMeta newTxn
       else Ok (rw, newMeta, newTxn, false, 0));
    '(rw, metaKeySize, metaValSize, logicalOp) ←
      (if negb commit then
         '(rw, k, v) ← putIntentMeta rw metaKey newMeta newTxn true;
         Ok (rw, k, v, MVCCUpdateIntentOpType)
       else
         rw ← ClearIntent rw key (onCommitIntent helper) (t_ID metaTxn);
         Ok (rw, MVCCKey_EncodedSize metaKey, 0, MVCCCommitIntentOpType));
    let ms :=
      (fun ms =>
         Add ms (updateStatsOnResolve key prevIsValue prevValSize origMetaKeySize origMetaValSize metaKeySize metaValSize meta newMeta commit))
      <$> ms in
    let rw := LogLogicalOp rw logicalOp (MkOpDetails (Some (u_Txn update)) key newTimestamp) in
    Ok (MkResolved rw ms true).

(** Removes the intent and its version. *)
Definition resolve_remove (rw : W) (it : It) (ms : option MVCCStats) (update : LockUpdate) (meta : MVCCMetadata) (metaTxn : TxnMeta)
    (origMetaKeySize origMetaValSize : Z) (helper : singleDelOptimizationHelper) : res resolve_result :=
  let key := Key (u_Span update) in
  let metaKey := MakeMVCCMetadataKey key in
  let latestKey := MkMVCCKey key (LegacyTimestamp_ToTimestamp (m_Timestamp meta)) in
  rw ← ClearMVCC rw latestKey;
  let rw := LogLogicalOp rw MVCCAbortIntentOpType (MkOpDetails (Some (u_Txn update)) key EmptyTimestamp) in
  next ← revealed it latestKey;
  rw ← ClearIntent rw key (onAbortIntent helper) (t_ID metaTxn);
  match ms with
  | None => Ok (MkResolved rw None true)
  | Some ms =>
      change ←
        match next with
        | None => updateStatsOnClear key origMetaKeySize origMetaValSize 0 0 meta None 0
        | Some (nextValueLen, nextValueIsTombstone, nextTimestamp) =>
            let restored :=
              MkMetadata None (Timestamp_ToLegacyTimestamp EmptyTimestamp) nextValueIsTombstone MVCCVersionTimestampSize nextValueLen None [] None
                None in
            updateStatsOnClear key origMetaKeySize origMetaValSize (MVCCKey_EncodedSize metaKey) 0 meta (Some restored) (WallTime nextTimestamp)
        end;
      Ok (MkResolved rw (Some (Add ms change)) true)
  end.

Definition mvccResolveWriteIntent (rw : W) (it : It) (ms : option MVCCStats) (update : LockUpdate) : res resolve_result :=
  let key := Key (u_Span update) in
  let metaKey := MakeMVCCMetadataKey key in
  let unchanged rw := Ok (MkResolved rw ms false) in
  found ← mvccGetIntent it metaKey;
  match found with
  | None => unchanged rw
  | Some (meta, origMetaKeySize, origMetaValSize) =>
      match m_Txn meta with
      | None => unchanged rw
      | Some metaTxn =>
          if negb (beqb (t_ID (u_Txn update)) (t_ID metaTxn)) then unchanged rw
          else
            let metaTimestamp := LegacyTimestamp_ToTimestamp (m_Timestamp meta) in
            let helper :=
              MkSingleDel (m_TxnDidNotUpdateMeta meta) (negb (length (u_IgnoredSeqNums update) =? 0)%nat) (t_Epoch (u_Txn update)) in
            let epochsMatch := t_Epoch metaTxn =? t_Epoch (u_Txn update) in
            let timestampsValid := Timestamp_LessEq metaTimestamp (t_WriteTimestamp (u_Txn update)) in
            let timestampChanged := Timestamp_Less metaTimestamp (t_WriteTimestamp (u_Txn update)) in
            let commit := match u_Status update with COMMITTED => true | _ => false end && epochsMatch && timestampsValid in
            let inProgress := negb (IsFinalized (u_Status update)) && (t_Epoch (u_Txn update) <=? t_Epoch metaTxn) in
            let pushed := inProgress && timestampChanged in
            let latestKey := MkMVCCKey key metaTimestamp in
            '(rw, newMeta, newTxn, removeIntent, rolledBackVal) ←
              (if negb (length (u_IgnoredSeqNums update) =? 0)%nat && (commit || inProgress) && epochsMatch
               then mvccMaybeRewriteIntentHistory rw (u_IgnoredSeqNums update) meta metaTxn latestKey
               else Ok (rw, meta, metaTxn, false, None));
            let commit := commit && negb removeIntent in
            let pushed := pushed && negb removeIntent in
            let inProgress := inProgress && negb removeIntent in
            let update := match rolledBackVal with Some _ => forward_update update metaTimestamp | None => update end in
            let rolledBack := match rolledBackVal with Some _ => true | None => false end in
            if inProgress && negb pushed && negb rolledBack then unchanged rw
            else if commit || pushed || rolledBack then
              resolve_update rw it ms update meta newMeta metaTxn newTxn origMetaKeySize origMetaValSize commit timestampChanged rolledBackVal helper
            else resolve_remove rw it ms update meta metaTxn origMetaKeySize origMetaValSize helper
      end
  end.

(** The result, the bytes that were written, and where to resume. *)
Definition MVCCResolveWriteIntent (NewMVCCIterator : W -> IterKind -> IterOptions -> It) (SeekIntentGE : It -> bytes -> bytes -> It) (rw : W)
    (ms : option MVCCStats) (update : LockUpdate) (TargetBytes : Z) : res (resolve_result * Z * option Span) :=
  let key := Key (u_Span update) in
  if (length key =? 0)%nat then Err "attempted access to empty key"
  else if match EndKey (u_Span update) with Some e => negb (length e =? 0)%nat | None => false end
  then Err "can't resolve range intent as point intent"
  else if TargetBytes <? 0 then Ok (MkResolved rw ms false, 0, Some (MkSpan key None))
  else
    let it := NewMVCCIterator rw MVCCKeyAndIntentsIterKind (MkIterOptions true [] [] IterKeyTypePointsAndRanges EmptyTimestamp) in
    let it := SeekIntentGE it key (t_ID (u_Txn update)) in
    let beforeBytes := BufferedSize rw in
    r ← mvccResolveWriteIntent rw it ms update;
    Ok (r, BufferedSize (rr_writer r) - beforeBytes, None).
End Resolve.
