(* ===== verification/WriteSpec.v ===== *)
(** What a write finds at a key.

    The metadata that [mvccGetMetadata] reconstructs, from the points of the key and the range
    tombstones over it, without an iterator; the laws of a writer; and the properties of stores
    that writes rely on and keep. *)
From stdpp Require Import sorting.
From S2P Require Import Prelude Bytes GoLib Hlc KeyOps Spans MvccKey RangeKeys MvccValue MvccIter Scanner ScanSpec ScanNav ScanRead StoreOps MvccRead MvccStats MvccWrite.

(** * Writers *)

Section Laws.
Context `{L : ScanLib}.

(** What is documented of a writer: the point is set, or cleared, in what later iterators show.
    An intent is cleared for its transaction, and as one that was written once only if its
    metadata says so. *)
Class WriterLaws {W} (Wr : Writer W) (disableSimpleValueEncoding : bool) := {
  w_db : W -> snapshot;
  w_PutMVCC w k v e : k_Timestamp k <> EmptyTimestamp -> EncodeMVCCValue disableSimpleValueEncoding v = Ok e ->
    exists w', PutMVCC w k v = Ok w' /\ w_db w' = put_point (w_db w) k e;
  w_PutIntent w key v id : exists w', PutIntent w key v id = Ok w' /\ w_db w' = put_point (w_db w) (MkMVCCKey key EmptyTimestamp) v;
  w_ClearMVCC w k : k_Timestamp k <> EmptyTimestamp -> exists w', ClearMVCC w k = Ok w' /\ w_db w' = clear_point (w_db w) k;
  w_ClearIntent w key didNotUpdate id v meta txn : MkPos (MkMVCCKey key EmptyTimestamp) (Some v) ∈ positions (w_db w) ->
    UnmarshalMeta v = Ok meta -> m_Txn meta = Some txn -> t_ID txn = id -> (didNotUpdate = true -> m_TxnDidNotUpdateMeta meta = Some true) ->
    exists w', ClearIntent w key didNotUpdate id = Ok w' /\ w_db w' = clear_meta (w_db w) key;
  w_LogLogicalOp w op d : w_db (LogLogicalOp w op d) = w_db w
}.

(** Metadata that is written is read back. *)
Class MetaLaws := {
  meta_marshals m : exists b, MarshalMeta m = Ok b /\ b <> [] /\ UnmarshalMeta b = Ok m
}.
End Laws.
Arguments MetaLaws : clear implicits.

(** * The metadata of a key *)

Section Found.
Context `{L : ScanLib}.

Definition found_version (key : bytes) (rks : MVCCRangeKeyVersions) (q : pos) : res found :=
  let v := default [] (q_val q) in
  isTombstone ← EncodedMVCCValueIsTombstone v;
  Ok (match Versions_FirstAtOrAbove rks (q_ts q) with
      | Some r => MkFound (version_meta true 0 (Versions_Newest rks)) (prefix_len key) 0 (if (isTombstone : bool) then q_ts q else v_Timestamp r)
      | None => MkFound (version_meta isTombstone (blen v) (q_ts q)) (prefix_len key) 0 (q_ts q)
      end).

Definition metadata_of (key : bytes) (pts : list pos) (rks : MVCCRangeKeyVersions) : res (option found) :=
  match pts with
  | [] =>
      match rks with
      | [] => Ok None
      | r :: _ => Ok (Some (MkFound (version_meta true 0 (v_Timestamp r)) 0 0 EmptyTimestamp))
      end
  | q :: _ =>
      if Timestamp_IsEmpty (q_ts q) then
        let v := default [] (q_val q) in
        meta ← UnmarshalMeta v;
        Ok (Some (MkFound meta (MVCCKey_EncodedSize (q_key q)) (blen v) (LegacyTimestamp_ToTimestamp (m_Timestamp meta))))
      else f ← found_version key rks q; Ok (Some f)
  end.

(** Seeking to the metadata key goes to the first position of the key. *)
Lemma view_seek key pts rks : key <> [] -> points_ok key pts rks ->
  seek_ge (key_view key pts rks) (MakeMVCCMetadataKey key) = or_hi (head (positions (key_view key pts rks))).
Proof.
  intros Nk ok. set (view := key_view key pts rks). assert (F : first_ge view (MakeMVCCMetadataKey key) = head (positions view)).
  { unfold first_ge. apply find_head. intros x Hx. assert (I : x ∈ positions view) by (destruct (positions view); [done|]; injection Hx as ->; left).
    apply negb_true_iff. pose proof (view_users key pts rks ok) as Us. rewrite Forall_forall in Us. apply not_true_is_false.
    intros [B|[_ [[_ N]|(_ & N & _)]]]%Less_spec; [|done|done]. cbn in B. fold (q_user x) in B. rewrite (Us x I) in B. border. }
  unfold seek_ge. rewrite F. change (k_Key (MakeMVCCMetadataKey key)) with key.
  destruct (Stack_IsEmpty (stack_at view key)) eqn:Es; [done|]. destruct (stack_at_in view key Es) as [Is _].
  destruct (ok_start view (view_ok key Nk pts rks ok) _ Is) as (q & I & Eq).
  assert (E : existsb (fun q => MVCCKey_Equal (q_key q) (MakeMVCCMetadataKey key)) (positions view) = true); [|by rewrite E].
  apply existsb_exists. exists q. split; [by apply list_elem_of_In|]. rewrite Eq. destruct (view_stack key pts rks ok) as [Vs B]. fold view in Vs, B.
  unfold Stack_IsEmpty, Versions_IsEmpty in Es. rewrite B by (intros E0; by rewrite Vs, E0 in Es).
  unfold MVCCKey_Equal, Key_Compare. cbn. by rewrite bytes_compare_refl.
Qed.

Section View.
Context (key : bytes) (Nk : key <> []) (pts : list pos) (rks : MVCCRangeKeyVersions) (ok : points_ok key pts rks).
Abbreviation view := (key_view key pts rks).
Context {It : Type} {M : MVCCIterator It} `{!IteratorLaws M view}.

Lemma at_key q : q ∈ pts -> k_Key (q_key q) = key.
Proof. intros I. pose proof (po_points _ _ _ ok) as F. rewrite Forall_forall in F. by apply F. Qed.

Lemma at_value q : q ∈ pts -> q_val q = Some (default [] (q_val q)).
Proof.
  intros I. pose proof (po_points _ _ _ ok) as F. rewrite Forall_forall in F. destruct (F q I) as (_ & H & _). unfold has_point in H. by destruct (q_val q).
Qed.

Lemma meta_pos m : m ∈ pts -> q_ts m = EmptyTimestamp -> m = MkPos (MkMVCCKey key EmptyTimestamp) (Some (default [] (q_val m))).
Proof.
  intros I T. pose proof (at_value m I) as V. pose proof (at_key m I) as U. unfold q_ts in T. destruct m as [[k t] v]; cbn in *. subst. by rewrite <- V.
Qed.

Lemma FirstAtOrAbove_nil t : Versions_FirstAtOrAbove [] t = None.
Proof. done. Qed.

Lemma found_point_at it q : r_cur (it_abs it) = At q -> q ∈ pts ->
  found_point it (negb (Stack_IsEmpty (stack_at view key))) (MakeMVCCMetadataKey key) = found_version key rks q.
Proof.
  intros A I. pose proof (at_value q I) as V. unfold found_point, found_version, MVCCValueLenAndIsTombstone.
  rewrite (it_UnsafeLazyValue it q _ A V), (it_UnsafeKey it q A), (it_RangeKeys_at it q A). cbn [mbind res_bind].
  destruct (EncodedMVCCValueIsTombstone _) as [t| |]; [|done..]. cbn [mbind res_bind]. rewrite (view_empty key pts rks ok).
  replace (q_user q) with key by (symmetry; apply at_key, I). destruct (view_stack key pts rks ok) as [-> _]. fold (q_ts q). by destruct rks.
Qed.

Lemma seek_abs it : it_abs (SeekGE it (MakeMVCCMetadataKey key)) = move view (it_abs it) (or_hi (head (positions view))).
Proof. rewrite it_SeekGE. unfold ref_SeekGE. by rewrite view_seek. Qed.


(** A step from the bare position that shows the range keys. *)
Lemma step_bare it c : r_cur (it_abs it) = At (MkPos (MkMVCCKey key EmptyTimestamp) None) ->
  positions view = MkPos (MkMVCCKey key EmptyTimestamp) None :: pts -> c = or_hi (head pts) -> r_cur (it_abs (Next it)) = c.
Proof.
  intros A E ->. rewrite it_Next by (by rewrite A). unfold ref_Next. rewrite A. cbn [r_cur move].
  by rewrite (first_gt_split view (view_ok key Nk pts rks ok) [] (MkPos (MkMVCCKey key EmptyTimestamp) None) pts E).
Qed.
End View.

Lemma metadata_view key pts rks {It} {M : MVCCIterator It} `{!IteratorLaws M (key_view key pts rks)} it : key <> [] -> points_ok key pts rks ->
  exists it', mvccGetMetadata (Some it) (MakeMVCCMetadataKey key) = (f ← metadata_of key pts rks; Ok (option_map (pair it') f)).
Proof.
  intros Nk ok. set (it1 := SeekGE it (MakeMVCCMetadataKey key)).
  pose proof (seek_abs key Nk pts rks ok it) as A1. fold it1 in A1. unfold mvccGetMetadata. fold it1. rewrite (it_Valid it1). unfold is_at.
  pose proof (view_users key pts rks ok) as Us. rewrite Forall_forall in Us. 
  assert (Sk : beqb key key = true) by (bcases; done).
  destruct (positions (key_view key pts rks)) as [|q0 l0] eqn:Ep; cbn [head or_hi] in A1.
  { exists it1. rewrite A1. cbn [move r_cur mbind res_bind negb]. unfold key_view in Ep.
    destruct rks as [|r rs]; [cbn in Ep; by rewrite Ep|]. destruct pts as [|p l]; [done|]. cbn in Ep. by destruct (Timestamp_IsEmpty (q_ts p)). }
  assert (Cq : r_cur (it_abs it1) = At q0) by (by rewrite A1). rewrite Cq. cbn [mbind res_bind negb].
  rewrite (it_UnsafeKey it1 q0 Cq), (it_HasPointAndRange it1 q0 Cq). assert (Uq : q_user q0 = key) by (apply Us; left).
  change (k_Key (q_key q0)) with (q_user q0). change (k_Key (MakeMVCCMetadataKey key)) with key. rewrite Uq, Sk. cbn [negb].
  assert (Cases : q0 ∈ pts /\ head pts = Some q0 /\ (q_ts q0 = EmptyTimestamp \/ rks = []) \/
    (q0 = MkPos (MkMVCCKey key EmptyTimestamp) None /\ l0 = pts /\ rks <> [] /\ (forall p, head pts = Some p -> q_ts p <> EmptyTimestamp))).
  { unfold key_view in Ep. destruct rks as [|r rs]; [cbn in Ep; rewrite Ep; left; split; [left|]; split; [done|by right]|].
    destruct pts as [|p l]; cbn in Ep; [injection Ep as <- <-; by right|]. destruct (Timestamp_IsEmpty (q_ts p)) eqn:Tp; injection Ep as <- <-.
    - left. split; [left|]. split; [done|]. left. by apply IsEmpty_spec.
    - right. split_and!; try done. intros p' [= <-]. by apply IsEmpty_false. }
  destruct Cases as [(I & Hd & _)|(-> & -> & Nr & Hv)].
  - exists it1. pose proof (at_value key pts rks ok q0 I) as Va. assert (Hp : has_point q0 = true) by (unfold has_point; by rewrite Va).
    rewrite Hp. cbn [andb negb]. rewrite andb_false_r. unfold MVCCKey_IsValue. fold (q_ts q0). rewrite negb_involutive. destruct pts as [|p l]; [done|].
    injection Hd as ->. unfold metadata_of. destruct (Timestamp_IsEmpty (q_ts q0)).
    + unfold ValueLen. rewrite (it_UnsafeLazyValue it1 q0 _ Cq Va). cbn [mbind res_bind]. by destruct (UnmarshalMeta _).
    + rewrite (found_point_at key (q0 :: l) rks ok it1 q0 Cq I). by destruct (found_version _ _ _).
  - exists (Next it1). cbn [has_point q_val q_key andb negb]. destruct (view_stack key pts rks ok) as [Vs _]. pose proof (view_empty key pts rks ok) as Ve.
    rewrite (it_RangeKeys_at it1 _ Cq). change (q_user (MkPos (MkMVCCKey key EmptyTimestamp) None)) with key.
    assert (Stack_IsEmpty (stack_at (key_view key pts rks) key) = false) as -> by (rewrite Ve; by destruct rks). cbn [negb andb].
    destruct (Versions (stack_at (key_view key pts rks) key)) as [|r rs]; [by destruct Nr|].
    rewrite (it_Valid (Next it1)). unfold is_at. pose proof (step_bare key Nk pts rks ok it1 (or_hi (head pts)) Cq Ep eq_refl) as C2. rewrite C2.
    destruct (head pts) as [p|] eqn:Hd; cbn [or_hi mbind res_bind].
    + assert (Ip : p ∈ pts) by (destruct pts; [done|]; injection Hd as ->; left). cbn [or_hi] in C2.
      rewrite (it_HasPointAndRange _ p C2), (it_UnsafeKey _ p C2), (at_key key pts rks ok p Ip), Sk.
      pose proof (at_value key pts rks ok p Ip) as Va. assert (Hp : has_point p = true) by (unfold has_point; by rewrite Va). rewrite Hp. cbn [negb orb].
      replace (q_user p) with key by (symmetry; by apply (at_key key pts rks ok)).
      rewrite (found_point_at key pts rks ok _ p C2 Ip). unfold metadata_of. destruct pts as [|p' l]; [done|]. injection Hd as ->.
      assert (Timestamp_IsEmpty (q_ts p) = false) as -> by (apply IsEmpty_false, Hv; done). by destruct (found_version _ _ _).
    + assert (pts = []) as -> by (by destruct pts). cbn [negb orb]. unfold metadata_of. by rewrite <- Vs.
Qed.
End Found.

(** * The version below an intent *)

Lemma ts_pos_wall t : ts_pos t -> 0 <= WallTime t.
Proof.
  intros (_ & B & _). unfold lt_ts, Timestamp_Less, EmptyTimestamp in B. cbn [WallTime Logical] in B.
  apply orb_true_iff in B as [B%Z.ltb_lt|[B%Z.eqb_eq _]%andb_true_iff]; lia.
Qed.


Section Below.
Context `{L : ScanLib}.

(** Whether the newest of some versions is a value that no range tombstone covers, and its size. *)
Definition below_info (rks : MVCCRangeKeyVersions) (vs : list pos) : res (bool * Z) :=
  match vs with
  | [] => Ok (false, 0)
  | q :: _ =>
      let v := default [] (q_val q) in
      if match rks with [] => true | r :: _ => Timestamp_Less (v_Timestamp r) (q_ts q) end then
        isTombstone ← EncodedMVCCValueIsTombstone v;
        Ok (if negb isTombstone then (true, blen v) else (false, 0))
      else Ok (false, 0)
  end.

Context (key : bytes) (Nk : key <> []) (m p : pos) (vs : list pos) (rks : MVCCRangeKeyVersions) (ok : points_ok key (m :: p :: vs) rks) (Tm : q_ts m = EmptyTimestamp).
Abbreviation view := (key_view key (m :: p :: vs) rks).
Context {It : Type} {M : MVCCIterator It} `{!IteratorLaws M view}.

Lemma intent_positions : positions view = m :: p :: vs.
Proof. unfold key_view. destruct rks; [done|]. cbn [positions]. assert (Timestamp_IsEmpty (q_ts m) = true) as -> by (by apply IsEmpty_spec). done. Qed.

Lemma intent_point q : q ∈ m :: p :: vs -> q_user q = key /\ has_point q = true /\ q_ok q.
Proof. pose proof (po_points _ _ _ ok) as F. rewrite Forall_forall in F. apply F. Qed.
Lemma intent_version q : q ∈ p :: vs -> q_ts q <> EmptyTimestamp /\ ts_pos (q_ts q).
Proof.
  intros I. pose proof (po_versions _ _ _ ok m (p :: vs) eq_refl) as F. rewrite Forall_forall in F. specialize (F q I). split; [done|].
  destruct (intent_point q) as (_ & _ & _ & [T|T]); [by right|done|done].
Qed.
Lemma intent_below q : q ∈ vs -> lt_ts (q_ts q) (q_ts p).
Proof.
  intros I. pose proof (po_sorted _ _ _ ok) as So. apply StronglySorted_inv in So as [So _]. apply StronglySorted_inv in So as [_ F].
  rewrite Forall_forall in F. specialize (F q I). unfold q_lt in F. apply Less_spec in F as [B|[_ [[T _]|(_ & _ & B)]]]; [| |done].
  - destruct (intent_point p) as (Up & _); [right; left|]. destruct (intent_point q) as (Uq & _); [by right; right|]. unfold q_user in *. rewrite Up, Uq in B. border.
  - destruct (intent_version p) as [N _]; [left|]. done.
Qed.

(** The positions from the successor of the intent's version on. *)
Lemma below_from k : MVCCKey_Next (MkMVCCKey key (q_ts p)) [] = Ok k ->
  from view k = vs /\ (k_Key k = key \/ (vs = [] /\ k_Key k = key ++ [0])).
Proof.
  destruct (intent_version p) as (Np & Pp); [left|]. pose proof Pp as (Wp & Lp & Ln). assert (Wl : 0 <= WallTime (q_ts p)) by (by apply ts_pos_wall).
  pose proof (Prev_spec (q_ts p) Wp Wl Ln) as P. unfold MVCCKey_Next. cbn [k_Timestamp k_Key]. destruct (Timestamp_Prev (q_ts p)) as [t| |]; [|done..].
  destruct P as (Wt & Lt & _ & Least). cbn [mbind res_bind]. unfold from. rewrite intent_positions.
  assert (Le : forall q, q ∈ vs -> le_ts (q_ts q) t).
  { intros q I. destruct (intent_version q) as (_ & Wq & _ & Lq); [by right|]. apply Least; [done|done|by apply intent_below]. }
  destruct (Timestamp_IsEmpty t) eqn:Et; intros [= <-]; cbn [k_Key].
  - assert (vs = []) as Ev.
    { apply elem_of_nil_inv. intros q I. apply IsEmpty_spec in Et as ->. destruct (intent_version q) as (_ & _ & Lq & _); [by right|].
      specialize (Le q I). unfold le_ts, lt_ts in *. by rewrite LessEq_negb, Lq in Le. }
    split; [|right; split; [done|]; done].
    assert (Lk : forall q, q ∈ m :: p :: vs -> MVCCKey_Less (q_key q) (MkMVCCKey (Key_Next key []) EmptyTimestamp) = true).
    { intros q I. destruct (intent_point q I) as (U & _). apply Less_spec. left. cbn. fold (q_user q). rewrite U. apply blt_next. }
    rewrite Ev in *. cbn. rewrite !Lk by set_solver. done.
  - split; [|by left]. apply IsEmpty_false in Et. cbn [List.filter].
    assert (Lm : MVCCKey_Less (q_key m) (MkMVCCKey key t) = true).
    { apply Less_spec. right. destruct (intent_point m) as (U & _); [left|]. split; [done|]. by left. }
    assert (Lq : MVCCKey_Less (q_key p) (MkMVCCKey key t) = true).
    { apply Less_spec. right. destruct (intent_point p) as (U & _); [right; left|]. split; [done|]. by right. }
    rewrite Lm, Lq. cbn [negb]. apply filter_all. apply Forall_forall. intros q I. apply negb_true_iff, not_true_is_false. intros B.
    destruct (intent_point q) as (U & _); [by right; right|]. destruct (intent_version q) as [Nq _]; [by right|].
    apply Less_spec in B as [B|[_ [[T _]|(_ & _ & B)]]]; [cbn in B; fold (q_user q) in B; rewrite U in B; border|done|].
    cbn in B. specialize (Le q I). unfold le_ts, lt_ts in *. rewrite LessEq_negb in Le. fold (q_ts q) in B. by rewrite B in Le.
Qed.

Lemma next_exists : exists k, MVCCKey_Next (MkMVCCKey key (q_ts p)) [] = Ok k.
Proof.
  destruct (intent_version p) as (_ & Pp); [left|]. pose proof Pp as (Wp & Lp & Ln).
  pose proof (Prev_spec (q_ts p) Wp (ts_pos_wall _ Pp) Ln) as P. unfold MVCCKey_Next. cbn [k_Timestamp k_Key].
  destruct (Timestamp_Prev (q_ts p)) as [t| |]; [cbn; destruct (Timestamp_IsEmpty t); eauto| |]; exfalso;
    destruct P as [P1 P2]; unfold lt_ts, Timestamp_Less in Lp; rewrite P1, P2 in Lp; done.
Qed.

(** No range key of the view is above the key. *)
Lemma view_next : stack_at view (key ++ [0]) = EmptyStack.
Proof.
  unfold key_view. destruct rks; [done|]. unfold stack_at. cbn [stacks List.find Bounds].
  assert (Span_ContainsKey (MkSpan key (Some (key ++ [0]))) (key ++ [0]) = false) as ->; [|done].
  unfold Span_ContainsKey, ek. cbn. bcases; try done. border.
Qed.

(** The step of [version_below] at the first version below, if there is one. *)
Lemma version_below_end it : r_cur (it_abs it) = or_hi (head vs) ->
  (if is_at (it_abs it) && beqb (k_Key (UnsafeKey it)) key then
     if negb (MVCCKey_IsValue (UnsafeKey it)) then Err "expected an MVCC value key"
     else
       let '(_, hasRange) := HasPointAndRange it in
       uncovered ←
         (if negb hasRange then Ok true
          else
            match Versions (it_RangeKeys it) with
            | [] => Panic "index out of range"
            | v :: _ => Ok (Timestamp_Less (v_Timestamp v) (k_Timestamp (UnsafeKey it)))
            end);
       if (uncovered : bool) then
         '(prevValLen, prevValIsTombstone) ← MVCCValueLenAndIsTombstone it;
         Ok (if negb prevValIsTombstone then (true, prevValLen) else (false, 0))
       else Ok (false, 0)
   else Ok (false, 0)) = below_info rks vs.
Proof.
  intros C. unfold is_at. rewrite C. pose proof (view_stack key (m :: p :: vs) rks ok) as [Vs _]. pose proof (view_empty key (m :: p :: vs) rks ok) as Ve.
  destruct (head vs) as [q|] eqn:Hd; cbn [or_hi andb]; [|by destruct vs]. cbn [or_hi] in C.
  assert (I : q ∈ vs) by (destruct vs; [done|]; injection Hd as ->; left).
  destruct (intent_point q) as (U & Hp & _); [by right; right|]. destruct (intent_version q) as [Nq _]; [by right|].
  rewrite (it_UnsafeKey it q C), (it_HasPointAndRange it q C), (it_RangeKeys_at it q C). fold (q_user q) (q_ts q).
  assert (beqb (q_user q) key = true) as -> by (rewrite U; bcases; done). unfold MVCCKey_IsValue. fold (q_ts q).
  assert (Timestamp_IsEmpty (q_ts q) = false) as -> by (by apply IsEmpty_false). cbn [negb]. rewrite U, Ve, Vs.
  unfold MVCCValueLenAndIsTombstone. assert (Va : q_val q = Some (default [] (q_val q))) by (unfold has_point in Hp; by destruct (q_val q)).
  rewrite (it_UnsafeLazyValue it q _ C Va). cbn [mbind res_bind]. clear - Hd. unfold below_info. destruct vs as [|q' l]; [done|]. injection Hd as ->.
  destruct rks as [|r rs]; cbn [negb mbind res_bind]; [by destruct (EncodedMVCCValueIsTombstone _)|].
  destruct (Timestamp_Less _ _); [|done]. by destruct (EncodedMVCCValueIsTombstone _).
Qed.

(** Seeking to the successor goes to the first version below, or to a bare position ahead of it. *)
Lemma seek_below it k (it1 := SeekGE it k) : MVCCKey_Next (MkMVCCKey key (q_ts p)) [] = Ok k ->
  (r_cur (it_abs it1) = or_hi (head vs) /\ (vs <> [] -> k_Key k = key)) \/
  (k_Key k = key /\ r_cur (it_abs it1) = At (MkPos k None) /\ Stack_IsEmpty (stack_at view key) = false /\ r_cur (it_abs (Next it1)) = or_hi (head vs)).
Proof.
  intros Ek. destruct (below_from k Ek) as [Fr Kk]. pose proof (view_ok key Nk _ rks ok) as Vo. destruct (seek_path view Vo k) as (l & Pa & Sk & Cl).
  assert (C1 : r_cur (it_abs it1) = or_hi (head l)) by (unfold it1; rewrite it_SeekGE; unfold ref_SeekGE, move; cbn; by rewrite Sk).
  rewrite Fr in Cl. destruct Cl as [->|[-> Es]].
  - left. split; [done|]. intros N. by destruct Kk as [->|[Ev _]].
  - right. assert (k_Key k = key) as Ekk by (destruct Kk as [E|[_ E]]; [done|]; rewrite E, view_next in Es; done). cbn [head or_hi] in C1. rewrite Ekk in Es.
    split_and!; try done. rewrite it_Next by (by rewrite C1). unfold ref_Next. rewrite C1. cbn [r_cur move]. destruct Pa as [-> _]. done.
Qed.

Lemma head_point q : head vs = Some q -> q ∈ vs /\ q_user q = key /\ has_point q = true /\ q_ts q <> EmptyTimestamp.
Proof.
  intros Hd. assert (I : q ∈ vs) by (destruct vs; [done|]; injection Hd as ->; left). destruct (intent_point q) as (U & Hp & _); [by right; right|].
  destruct (intent_version q) as [Nq _]; [by right|]. done.
Qed.

Lemma version_below_view it : version_below it (MkMVCCKey key (q_ts p)) = below_info rks vs.
Proof.
  destruct next_exists as [k Ek]. unfold version_below. rewrite Ek. cbn [mbind res_bind]. set (it1 := SeekGE it k). rewrite (it_Valid it1).
  destruct (seek_below it k Ek) as [[C1 Kk]|(Ekk & C1 & Es & C2)]; fold it1 in C1.
  - pose proof (version_below_end it1 C1) as Be. unfold is_at in Be |- *. destruct (head vs) as [q|] eqn:Hd; rewrite C1 in Be |- *; cbn [or_hi] in *.
    + destruct (head_point q Hd) as (I & _ & Hp & _). rewrite (it_HasPointAndRange it1 q C1). rewrite Hp. rewrite andb_false_r. cbn [mbind res_bind].
      rewrite Kk; [exact Be|]. intros E. rewrite E in I. by apply elem_of_nil in I.
    + exact Be.
  - fold it1 in C2. unfold is_at at 1. rewrite C1. cbn [mbind res_bind]. rewrite (it_HasPointAndRange it1 _ C1).
    change (q_user (MkPos k None)) with (k_Key k). rewrite Ekk, Es. cbn [has_point q_val negb andb]. rewrite (it_Valid (Next it1)). cbn [mbind res_bind].
    by apply version_below_end.
Qed.

(** The provisional version. *)
Lemma seek_version it : r_cur (it_abs (SeekGE it (MkMVCCKey key (q_ts p)))) = At p.
Proof.
  destruct (intent_version p) as [Np _]; [left|]. destruct (intent_point m) as (Um & _); [left|].
  destruct (intent_point p) as (Up & _); [right; left|].
  assert (Ep : q_key p = MkMVCCKey key (q_ts p)) by (unfold q_user, q_ts in *; destruct (q_key p); cbn in *; by subst).
  assert (F : first_ge view (MkMVCCKey key (q_ts p)) = Some p).
  { unfold first_ge. rewrite intent_positions. cbn [List.find].
    rewrite (meta_before key (q_ts p) Np) by done. cbn [negb]. by rewrite Ep, Less_irrefl. }
  rewrite it_SeekGE. unfold ref_SeekGE, move, seek_ge. cbn [r_cur]. rewrite F. cbn [k_Key].
  assert (E : existsb (fun q => MVCCKey_Equal (q_key q) (MkMVCCKey key (q_ts p))) (positions view) = true); [|rewrite E; by destruct (Stack_IsEmpty _)].
  apply existsb_exists. exists p. split; [rewrite intent_positions; right; by left|]. rewrite Ep.
  unfold MVCCKey_Equal, Key_Compare. cbn. rewrite bytes_compare_refl. unfold Timestamp_EqOrdering; rewrite !Z.eqb_refl; done.
Qed.
End Below.
