(* ===== verification/WriteOk.v ===== *)
(** What a put does to the store.

    A put that returns without an error has planned a timestamp above everything committed at
    the key, and has written the version there, with the intent in a transaction; it has not
    touched other keys. *)
From stdpp Require Import sorting.
From S2P Require Import Prelude Bytes GoLib Hlc KeyOps Spans MvccKey RangeKeys MvccValue MvccIter Scanner ScanSpec ScanNav ScanRead StoreOps MvccRead MvccStats MvccWrite WriteSpec.

Lemma lt_le_ts_trans a b c : lt_ts a b -> le_ts b c -> lt_ts a c.
Proof. intros. ts. Qed.
Lemma not_le_lt a b : Timestamp_LessEq a b = false -> lt_ts b a.
Proof. unfold lt_ts. rewrite LessEq_negb. by intros ?%negb_false_iff. Qed.
Lemma not_lt_eq a b : Timestamp_Less a b = false -> Timestamp_Less b a = false -> Timestamp_EqOrdering a b = true.
Proof. ts. Qed.

(** * Range tombstones over a timestamp *)

Lemma above_none rks t : newest_first rks -> Versions_FirstAtOrAbove rks t = None -> Forall (fun v => lt_ts (v_Timestamp v) t) rks.
Proof.
  intros S. rewrite FirstAtOrAbove_last by done. intros E%last_None. apply List.Forall_forall. intros v I.
  destruct (RangeKeys.below t v) eqn:B; [done|]. assert (In v []) as []. rewrite <- E. apply List.filter_In. by rewrite B.
Qed.

Lemma newest_max rks : newest_first rks -> Forall (fun v => le_ts (v_Timestamp v) (Versions_Newest rks)) rks.
Proof.
  intros S. destruct S as [|v l S F]; [constructor|]. cbn. constructor; [apply le_ts_refl|]. eapply Forall_impl; [done|]. intros x Hx. by apply lt_le_ts.
Qed.

Lemma above_some rks t r : newest_first rks -> Versions_FirstAtOrAbove rks t = Some r ->
  r ∈ rks /\ le_ts t (v_Timestamp r) /\ le_ts (v_Timestamp r) (Versions_Newest rks).
Proof.
  intros S. rewrite FirstAtOrAbove_last by done. intros E. apply last_Some in E as [l E].
  assert (I : In r (List.filter (fun x => negb (RangeKeys.below t x)) rks)) by (rewrite E; apply in_or_app; right; by left).
  apply List.filter_In in I as [I B%negb_true_iff]. apply list_elem_of_In in I. split; [done|]. split.
  - unfold le_ts. rewrite LessEq_negb. unfold RangeKeys.below in B. by rewrite B.
  - pose proof (newest_max rks S) as F. rewrite Forall_forall in F. by apply F.
Qed.

(** * What a write relies on *)

Section Keys.
Context `{L : ScanLib}.

(** Metadata is that of an inline value, or of an intent: then its version is the newest, and
    range tombstones are below it. *)
Definition intents_ok (pts : list pos) (rks : MVCCRangeKeyVersions) : Prop :=
  forall m vs, pts = m :: vs -> q_ts m = EmptyTimestamp ->
  exists meta, UnmarshalMeta (default [] (q_val m)) = Ok meta /\
    ((IsInline meta = true /\ vs = []) \/
     (IsInline meta = false /\ is_Some (m_Txn meta) /\
      exists p rest, vs = p :: rest /\ q_ts p = LegacyTimestamp_ToTimestamp (m_Timestamp meta) /\
        Forall (fun v => lt_ts (v_Timestamp v) (q_ts p)) rks)).

(** The committed versions of a key. *)
Definition committed_of (pts : list pos) : list pos :=
  match pts with q :: vs => if Timestamp_IsEmpty (q_ts q) then drop 1 vs else pts | [] => [] end.

(** A timestamp above what is committed. *)
Definition above_all (pts : list pos) (rks : MVCCRangeKeyVersions) (t : Timestamp) : Prop :=
  Forall (fun q => lt_ts (q_ts q) t) (committed_of pts) /\ Forall (fun v => lt_ts (v_Timestamp v) t) rks.

(** The newest change of a key without an intent. *)
Lemma found_newest key pts rks q vs f : points_ok key pts rks -> pts = q :: vs -> q_ts q <> EmptyTimestamp -> found_version key rks q = Ok f ->
  m_Txn (f_meta f) = None /\ m_IntentHistory (f_meta f) = [] /\ IsInline (f_meta f) = false /\
  let t := LegacyTimestamp_ToTimestamp (m_Timestamp (f_meta f)) in
  ts_pos t /\ Forall (fun x => le_ts (q_ts x) t) pts /\ Forall (fun v => le_ts (v_Timestamp v) t) rks.
Proof.
  intros Po E Nq (tomb & _ & [= <-])%res_bind_inv. pose proof (po_stack _ _ _ Po) as [Sr Fr].
  assert (Fq : Forall (fun x => le_ts (q_ts x) (q_ts q)) pts).
  { pose proof (po_sorted _ _ _ Po) as So. pose proof (po_points _ _ _ Po) as Pp. rewrite E in *. apply StronglySorted_inv in So as [_ F].
    constructor; [apply le_ts_refl|]. apply Forall_forall. intros x Ix. rewrite Forall_forall in F, Pp. specialize (F x Ix). unfold q_lt in F.
    apply Less_spec in F as [B|[_ [[T _]|(_ & _ & B)]]]; [|done|by apply lt_le_ts].
    destruct (Pp q) as (Uq & _); [left|]. destruct (Pp x) as (Ux & _); [by right|]. unfold q_user in *. rewrite Uq, Ux in B. border. }
  destruct (Versions_FirstAtOrAbove rks (q_ts q)) as [r|] eqn:A; cbn [f_meta version_meta m_Txn m_IntentHistory m_Timestamp IsInline m_RawBytes]; cbv zeta;
    rewrite legacy_roundtrip; (split; [done|]; split; [done|]; split; [done|]).
  - destruct (above_some _ _ _ Sr A) as (Ir & Lr & Ln). split_and!.
    + destruct rks as [|v l]; [by apply elem_of_nil in Ir|]. by apply Forall_cons in Fr as [Fv _].
    + eapply Forall_impl; [exact Fq|]. cbn. intros x Hx. eapply le_ts_trans; [exact Hx|]. by eapply le_ts_trans.
    + by apply newest_max.
  - split_and!; [|done|].
    + pose proof (po_points _ _ _ Po) as Pp. rewrite E in Pp. apply Forall_cons in Pp as [(_ & _ & _ & [T|T]) _]; done.
    + eapply Forall_impl; [by apply above_none|]. cbn. intros v Hv. by apply lt_le_ts.
Qed.
End Keys.

(** * Intents *)

Section Values.
Context `{L : ScanLib} {HL : HeaderLaws} (disableSimple : bool).

(** The bytes that a value is stored as. *)
Record encodes (v : MVCCValue) (raw : bytes) : Prop := {
  en_encode : EncodeMVCCValue disableSimple v = Ok raw;
  en_bytes : value_bytes (RawBytes v);
  en_local : ts_wf (LocalTimestamp (vHeader v));
  en_clock : Synthetic (LocalTimestamp (vHeader v)) = false
}.

Lemma encodes_spec v raw : encodes v raw ->
  DecodeMVCCValue raw = Ok v /\ blen raw = encodedMVCCValueSize disableSimple v /\ EncodedMVCCValueIsTombstone raw = Ok (MVCCValue_IsTombstone v).
Proof. intros [En Vb Wf _]. destruct (DecodeMVCCValue_enc disableSimple v Wf Vb) as (e & Ee & De & Se & Te). rewrite En in Ee. by injection Ee as <-. Qed.

Lemma encodes_exists v : value_bytes (RawBytes v) -> ts_wf (LocalTimestamp (vHeader v)) -> Synthetic (LocalTimestamp (vHeader v)) = false -> exists raw, encodes v raw.
Proof. intros Vb Wf Sy. destruct (DecodeMVCCValue_enc disableSimple v Wf Vb) as (e & Ee & _). by exists e. Qed.

(** Metadata that describes the provisional version of an intent. *)
Record described (meta : MVCCMetadata) (txn : TxnMeta) (ts : Timestamp) (raw : bytes) : Prop := {
  de_txn : m_Txn meta = Some txn;
  de_inline : IsInline meta = false;
  de_time : LegacyTimestamp_ToTimestamp (m_Timestamp meta) = ts;
  de_write : t_WriteTimestamp txn = ts;
  de_key : m_KeyBytes meta = MVCCVersionTimestampSize;
  de_val : m_ValBytes meta = blen raw;
  de_value : exists v, encodes v raw /\ m_Deleted meta = MVCCValue_IsTombstone v;
  de_history : Forall (fun h => exists v, encodes v (h_Value h)) (m_IntentHistory meta)
}.

(** Metadata alone is that of an inline value. *)
Definition intents_described (db : snapshot) : Prop :=
  forall key m l, points db key = m :: l -> q_ts m = EmptyTimestamp ->
  exists meta, UnmarshalMeta (default [] (q_val m)) = Ok meta /\
    match l with [] => m_Txn meta = None | q :: _ => exists txn, described meta txn (q_ts q) (default [] (q_val q)) end.
End Values.

(** * The parts of a put *)

Section Put.
Context `{L : ScanLib} {HL : HeaderLaws} {ML : MetaLaws L} {It : Type} {M : MVCCIterator It} {W : Type} {Wr : Writer W}.
Context (batch_reader : batch -> res (list (bytes * bytes) * option string)).
Context (maxItersBeforeSeek : Z) (fuel : nat) (unlimited : account) (disableSimple : bool) `{!WriterLaws Wr disableSimple}.

(** A well-formed value for a write. *)
Definition value_ok (opts : MVCCWriteOptions) (value : Value) : Prop :=
  value_bytes (val_RawBytes value) /\ ts_wf (w_LocalTimestamp opts).

Lemma version_value_ok opts w value ts v : value_ok opts value -> version_value opts w value ts = Ok v ->
  RawBytes v = val_RawBytes value /\ ts_wf (LocalTimestamp (vHeader v)) /\ value_bytes (RawBytes v) /\ Synthetic (LocalTimestamp (vHeader v)) = false.
Proof.
  intros [Vb Wf] (needed & En & [= <-])%res_bind_inv. destruct (negb needed || _); cbn.
  - split; [done|]. split; [|done]. unfold ts_wf, isS. cbn. lia.
  - split_and!; try done. unfold LocalTimestampNeeded in En. cbn [vHeader LocalTimestamp] in En.
    destruct (Timestamp_IsEmpty (w_LocalTimestamp opts)) eqn:E; [by apply IsEmpty_spec in E as ->|]. cbn [negb] in En. apply res_bind_inv in En as (l & El & _).
    unfold ClockTimestamp_ToTimestamp in El. by destruct (Synthetic (w_LocalTimestamp opts)).
Qed.

(** What is stored of the new metadata of an intent. *)
Definition stored_meta (m : MVCCMetadata) (existed : bool) : MVCCMetadata :=
  MkMetadata (m_Txn m) (m_Timestamp m) (m_Deleted m) (m_KeyBytes m) (m_ValBytes m) (m_RawBytes m) (m_IntentHistory m) (m_MergeTimestamp m)
    (if existed then None else Some true).

(** What [put_version] wrote for a plan: the encoded value [e] at [ts], and in a transaction the
    metadata [b]. *)
Record wrote (key : bytes) (opts : MVCCWriteOptions) (ex : option found) (p : @put_plan W) (r : put_result) (v : MVCCValue) (e : bytes) (b : option bytes)
    : Prop := {
  wr_raw : RawBytes v = val_RawBytes (pp_value p);
  wr_encodes : encodes disableSimple v e;
  wr_decodes : DecodeMVCCValue e = Ok v;
  wr_size : blen e = encodedMVCCValueSize disableSimple v;
  wr_tombstone : EncodedMVCCValueIsTombstone e = Ok (MVCCValue_IsTombstone v);
  wr_meta :
    match b with
    | Some b =>
        exists txn existed, w_Txn opts = Some txn /\ b <> [] /\ t_WriteTimestamp (txn_at txn (pp_writeTimestamp p)) = pp_writeTimestamp p /\
          UnmarshalMeta b = Ok (stored_meta (new_meta disableSimple (Some (txn_at txn (pp_writeTimestamp p))) (pp_writeTimestamp p) v (pp_history p)) existed)
    | None => w_Txn opts = None
    end;
  wr_db :
    w_db (p_writer r) =
      put_point (match b with Some b => put_point (w_db (pp_writer p)) (MkMVCCKey key EmptyTimestamp) b | None => w_db (pp_writer p) end)
        (MkMVCCKey key (pp_writeTimestamp p)) e;
  wr_stats :
    p_stats r =
      (fun ms =>
         Add ms (updateStatsOnPut key (pp_prevIsValue p) (pp_prevValSize p) (match ex with Some f => f_keyBytes f | None => 0 end)
                   (match ex with Some f => f_valBytes f | None => 0 end) (blen key + 1) (match b with Some b => blen b | None => 0 end)
                   (orig_meta ex)
                   (new_meta disableSimple ((fun txn => txn_at txn (pp_writeTimestamp p)) <$> w_Txn opts) (pp_writeTimestamp p) v (pp_history p))))
      <$> w_Stats opts;
  wr_replaced : p_exReplaced r = pp_exReplaced p;
  wr_tooOld : p_tooOld r = pp_tooOld p
}.

Lemma put_version_wrote key opts ex p r : pp_writeTimestamp p <> EmptyTimestamp -> value_ok opts (pp_value p) ->
  put_version disableSimple key opts ex p = Ok r -> exists v e b, wrote key opts ex p r v e b.
Proof.
  intros Nt Vo (v & Ev & H)%res_bind_inv. cbn [k_Timestamp] in H, Ev. destruct (version_value_ok _ _ _ _ _ Vo Ev) as (Rv & Wv & Vv & Sv).
  destruct (DecodeMVCCValue_enc disableSimple v Wv Vv) as (e & Ee & De & Se & Te).
  apply res_bind_inv in H as ([[w1 mk] mv] & Hm & H). apply res_bind_inv in H as (w2 & Hp & H).
  destruct (w_PutMVCC w1 (MkMVCCKey key (pp_writeTimestamp p)) v e Nt Ee) as (w2' & Ep & Ed). rewrite Ep in Hp. injection Hp as <-.
  assert (B : exists b, mk = blen key + 1 /\ mv = (match b with Some b => blen b | None => 0 end) /\
    w_db w1 = (match b with Some b => put_point (w_db (pp_writer p)) (MkMVCCKey key EmptyTimestamp) b | None => w_db (pp_writer p) end) /\
    match b with
    | Some b =>
        exists txn existed, w_Txn opts = Some txn /\ b <> [] /\ t_WriteTimestamp (txn_at txn (pp_writeTimestamp p)) = pp_writeTimestamp p /\
          UnmarshalMeta b = Ok (stored_meta (new_meta disableSimple (Some (txn_at txn (pp_writeTimestamp p))) (pp_writeTimestamp p) v (pp_history p)) existed)
    | None => w_Txn opts = None
    end).
  { clear H Ep Ed w2'. destruct (w_Txn opts) as [txn|]; cbn [fmap option_fmap option_map] in Hm.
    - unfold putIntentMeta in Hm. destruct (negb _) eqn:Eq; [done|]. apply negb_false_iff, Timestamp_Equal_spec in Eq.
      cbn [new_meta m_Timestamp] in Eq. rewrite legacy_roundtrip in Eq.
      apply res_bind_inv in Hm as (b & Hb & Hm). apply res_bind_inv in Hm as (w & Hw & [= -> <- <-]).
      match type of Hb with MarshalMeta ?m = _ => destruct (meta_marshals m) as (b' & Mb & Nb & Ub) end. rewrite Mb in Hb. injection Hb as <-.
      destruct (w_PutIntent (pp_writer p) key b' (t_ID (txn_at txn (pp_writeTimestamp p)))) as (w' & Hw' & Dw).
      cbn [MakeMVCCMetadataKey k_Key] in Hw. rewrite Hw' in Hw. injection Hw as ->.
      exists (Some b'). split; [unfold MVCCKey_EncodedSize, blen; cbn; lia|]. split; [done|]. split; [done|]. exists txn. eexists. split; [done|]. split; [done|]. split; [done|]. exact Ub.
    - injection Hm as <- <- <-. exists None. split; [unfold MVCCKey_EncodedSize, blen; cbn; lia|]. done. }
  destruct B as (b & -> & -> & Dw & Mb). exists v, e, b.
  destruct ex as [f|]; injection H as <-; split; try done; cbn [p_writer]; by rewrite w_LogLogicalOp, Ed, Dw.
Qed.

(** ** Plans *)

(** The values that a put may write are well-formed. *)
Definition values_ok (opts : MVCCWriteOptions) (value : Value) (valueFn : option (option Value -> res (Value + write_error))) : Prop :=
  match valueFn with
  | None => value_ok opts value
  | Some f => forall ex v, f ex = Ok (inl v) -> value_ok opts v
  end.

Lemma try_inv {A B E} (e : res (A + E)) (k : A -> res (B + E)) b : try_bind e k = Ok (inl b) -> exists a, e = Ok (inl a) /\ k a = Ok (inl b).
Proof. unfold try_bind. intros ([a|x] & -> & H)%res_bind_inv; [by exists a|done]. Qed.
Lemma stop_inv {V A B E} (w : V) (e : res (A + E)) (k : A -> res (B + E * V)) b : try_bind (stop_at w e) k = Ok (inl b) -> exists a, e = Ok (inl a) /\ k a = Ok (inl b).
Proof. unfold stop_at. intros (a & ([x|x] & -> & [= ->])%res_bind_inv & H)%try_inv. by exists a. Qed.

Lemma next_pos t n : ts_pos t -> Timestamp_Next t = Ok n -> ts_pos n /\ lt_ts t n.
Proof.
  intros (Wf & Lt & Lo) E. pose proof (Next_spec t Wf) as S. rewrite E in S. destruct S as (Wn & Ln & _ & _). split; [|done]. split; [done|].
  split; [by eapply lt_ts_trans|]. unfold Timestamp_Next in E. unfold ts_wf, isS in *.
  destruct (Logical t =? MaxInt32) eqn:Em; [destruct (WallTime t =? MaxInt64); [done|]|]; injection E as <-; cbn; [lia|].
  apply Z.eqb_neq in Em. rewrite wrapS_id; unfold isS; lia.
Qed.

Lemma forward_pos a b : ts_pos a -> ts_pos b -> ts_pos (Timestamp_Forward a b).1.
Proof. intros A B. unfold Timestamp_Forward. destruct (Timestamp_Less a b); [done|]. destruct (Timestamp_EqOrdering a b); [|done]. by destruct a. Qed.

Lemma valueFn_ok opts value valueFn ex v : values_ok opts value valueFn ->
  (match valueFn with Some f => f ex | None => Ok (inl value) end) = Ok (inl v) -> value_ok opts v.
Proof. destruct valueFn as [f|]; cbn; [intros Vo E; by eapply Vo|by intros Vo [= <-]]. Qed.

(** The value that is written is the given one, or the function's. *)
Definition value_from (value : Value) (valueFn : option (option Value -> res (Value + write_error))) (v : Value) : Prop :=
  match valueFn with None => v = value | Some f => exists ex, f ex = Ok (inl v) end.

Lemma value_from_ok value valueFn ex v : (match valueFn with Some f => f ex | None => Ok (inl value) end) = Ok (inl v) -> value_from value valueFn v.
Proof. destruct valueFn as [f|]; cbn; [by exists ex|by intros [= <-]]. Qed.

Lemma over_version_plan (w : W) (it : It) key value valueFn opts rt wt meta op (p : @put_plan W) (mts := LegacyTimestamp_ToTimestamp (m_Timestamp meta)) :
  ts_pos mts -> ts_pos wt -> le_ts rt wt -> values_ok opts value valueFn ->
  plan_over_version batch_reader maxItersBeforeSeek fuel unlimited w it key value valueFn opts rt wt meta op = Ok (inl p) ->
  pp_writer p = w /\ pp_prevIsValue p = false /\ pp_history p = m_IntentHistory meta /\ value_ok opts (pp_value p) /\
  ts_pos (pp_writeTimestamp p) /\ lt_ts mts (pp_writeTimestamp p) /\ le_ts wt (pp_writeTimestamp p) /\
  value_from value valueFn (pp_value p) /\
  (if Timestamp_LessEq rt mts
   then (exists n, Timestamp_Next mts = Ok n /\ pp_writeTimestamp p = (Timestamp_Forward wt n).1) /\ pp_tooOld p = Some (WriteTooOldError rt (pp_writeTimestamp p) key)
   else pp_writeTimestamp p = wt /\ pp_tooOld p = None).
Proof.
  intros Pm Pw Le Vo. unfold plan_over_version. fold mts. destruct (Timestamp_LessEq rt mts) eqn:C.
  - intros (n & En & H)%res_bind_inv. apply stop_inv in H as (ex & _ & H). apply stop_inv in H as ([v ro] & Ev & [= <-]).
    apply try_inv in Ev as (v' & Ev & [= -> _]). destruct (next_pos mts n Pm En) as [Pn Ln]. cbn [pp_writer pp_prevIsValue pp_history pp_value pp_writeTimestamp pp_tooOld].
    pose proof (Forward_spec wt n) as Fs. destruct (Timestamp_Forward wt n) as [r mv] eqn:Ef. destruct Fs as (F1 & F2 & _). cbn [fst].
    split_and!; try done.
    + by eapply valueFn_ok.
    + replace r with (Timestamp_Forward wt n).1 by (by rewrite Ef). by apply forward_pos.
    + by eapply lt_le_ts_trans.
    + by eapply value_from_ok.
    + exists n. by rewrite Ef.
  - intros (v & Ev & [= <-])%stop_inv. cbn [pp_writer pp_prevIsValue pp_history pp_value pp_writeTimestamp pp_tooOld]. split_and!; try done.
    + unfold maybeGetValue in Ev. destruct valueFn as [f|]; [|by injection Ev as <-]. apply try_inv in Ev as (ex & _ & Ev). by eapply Vo.
    + eapply lt_le_ts_trans; [by apply not_le_lt|done].
    + apply le_ts_refl.
    + unfold maybeGetValue in Ev. destruct valueFn as [f|]; [apply try_inv in Ev as (ex & _ & Ev); by exists ex|by injection Ev as <-].
Qed.

(** The raw value that goes into the history is that of the intent. *)
Lemma replaced_raw (it it1 : It) meta metaTxn key rt txn ex raw : replaced_value batch_reader maxItersBeforeSeek fuel unlimited it meta metaTxn key rt txn = Ok (inl (it1, ex, Some raw)) ->
  UnsafeLazyValue (SeekGE it (MkMVCCKey key (LegacyTimestamp_ToTimestamp (m_Timestamp meta)))) = Ok raw.
Proof.
  unfold replaced_value. intros ([[it2 ex2] raw2] & H1 & H2)%res_bind_inv. assert (raw2 = Some raw) as ->.
  { destruct ex2; [by injection H2|]. apply try_inv in H2 as (? & _ & [=]). done. }
  clear H2. destruct (_ =? _); [|done]. destruct (negb (TxnSeqIsIgnored _ _)).
  - apply res_bind_inv in H1 as (valid & _ & H1). destruct (_ || _); [done|]. apply res_bind_inv in H1 as (raw' & E & H1). apply res_bind_inv in H1 as (v & _ & [= _ _ ->]). done.
  - apply res_bind_inv in H1 as ([x|] & _ & H1); [|done]. by apply res_bind_inv in H1 as (v & _ & [=]).
Qed.

Lemma over_intent_plan (w : W) (it : It) key value valueFn opts rt wt meta metaTxn (p : @put_plan W) (mts := LegacyTimestamp_ToTimestamp (m_Timestamp meta)) info :
  mts <> EmptyTimestamp -> values_ok opts value valueFn -> (forall it, version_below it (MkMVCCKey key mts) = info) ->
  plan_over_intent batch_reader maxItersBeforeSeek fuel unlimited w it key value valueFn opts rt wt meta metaTxn = Ok (inl (Some p)) ->
  (exists txn, w_Txn opts = Some txn /\ t_ID metaTxn = t_ID (tx_Meta txn)) /\ value_ok opts (pp_value p) /\
  pp_tooOld p = None /\ value_from value valueFn (pp_value p) /\
  (forall h, h ∈ pp_history p -> h ∈ m_IntentHistory meta \/ exists it0 : It, UnsafeLazyValue (SeekGE it0 (MkMVCCKey key mts)) = Ok (h_Value h)) /\
  (if Timestamp_Less mts wt
   then pp_writeTimestamp p = wt /\ w_db (pp_writer p) = clear_point (w_db w) (MkMVCCKey key mts) /\ info = Ok (pp_prevIsValue p, pp_prevValSize p)
   else pp_writeTimestamp p = (if Timestamp_Less wt mts then mts else wt) /\ pp_writer p = w /\ pp_prevIsValue p = false).
Proof.
  intros Nm Vo Vb. unfold plan_over_intent. fold mts. destruct (w_Txn opts) as [txn|]; [|done].
  destruct (negb (beqb (t_ID metaTxn) (t_ID (tx_Meta txn)))) eqn:Ei; [done|]. destruct (t_Epoch (tx_Meta txn) <? t_Epoch metaTxn); [done|].
  destruct (_ && _); [intros (? & _ & [=])%stop_inv|]. intros ([[it1 ex] raw] & Er & H)%stop_inv. apply stop_inv in H as (v & Ev & H).
  apply res_bind_inv in H as ([[[w1 ts1] pv] ps] & Hw & [= <-]). cbn [pp_writer pp_prevIsValue pp_prevValSize pp_value pp_writeTimestamp pp_tooOld pp_history].
  split; [exists txn; split; [done|]; apply negb_false_iff in Ei; by apply beqb_true|]. split; [by eapply valueFn_ok|]. split; [done|].
  split; [by eapply value_from_ok|]. split.
  { intros h. destruct (_ && _); [|by intros ?%elem_of_nil]. destruct raw as [raw|]; [|by left]. cbn [AddToIntentHistory m_IntentHistory].
    intros [I|I]%elem_of_app; [by left|]. apply list_elem_of_singleton in I as ->. right. exists it. by apply replaced_raw in Er. }
  destruct (Timestamp_Less mts wt).
  - apply res_bind_inv in Hw as ([pv' ps'] & Eb & Hw). apply res_bind_inv in Hw as (w' & Ec & [= -> -> -> ->]).
    destruct (w_ClearMVCC w (MkMVCCKey key mts) Nm) as (w'' & Ec' & Ed). rewrite Ec' in Ec. injection Ec as ->. split_and!; try done. by rewrite <- (Vb it1).
  - by destruct (Timestamp_Less wt mts); injection Hw as <- <- <- <-.
Qed.
End Put.

(** * The store after a put *)

Lemma ts_pos_set t : ts_pos t -> t <> EmptyTimestamp.
Proof. intros (_ & B & _) ->. by apply lt_ts_irrefl in B. Qed.

(** The writes of a version with or without its intent. *)
Definition put_both (db : snapshot) (key : bytes) (ts : Timestamp) (e : bytes) (b : option bytes) : snapshot :=
  put_point (match b with Some b => put_point db (MkMVCCKey key EmptyTimestamp) b | None => db end) (MkMVCCKey key ts) e.

Lemma put_both_ok db key ts e b : ok_but key db -> key <> [] -> ts_pos ts -> snapshot_ok (put_both db key ts e b).
Proof.
  intros Ob Nk Pt. unfold put_both. destruct b as [b|]; apply put_version_ok; try done.
  apply (put_but db (MkMVCCKey key EmptyTimestamp) b Ob). split; [done|by left].
Qed.

Lemma put_both_stack db key ts e b k : stack_at (put_both db key ts e b) k = stack_at db k.
Proof. by destruct b. Qed.

Lemma put_both_elsewhere db key ts e b pr : StronglySorted q_lt (positions db) -> elsewhere (MkMVCCKey key EmptyTimestamp) pr ->
  List.filter pr (positions (put_both db key ts e b)) = List.filter pr (positions db).
Proof.
  intros So El. unfold put_both. destruct b as [b|]; cbn [put_point positions].
  - rewrite (put_elsewhere (put_point db (MkMVCCKey key EmptyTimestamp) b)) by (try done; by apply put_sorted). by apply put_elsewhere.
  - by apply put_elsewhere.
Qed.

Lemma put_both_points db key ts e b :
  points (put_both db key ts e b) key =
    put_pos (MkMVCCKey key ts) e (match b with Some b => put_pos (MkMVCCKey key EmptyTimestamp) b (points db key) | None => points db key end).
Proof.
  unfold put_both. destruct b as [b|].
  - etrans; [exact (points_put (put_point db (MkMVCCKey key EmptyTimestamp) b) (MkMVCCKey key ts) e)|]. cbn [k_Key]. f_equal. exact (points_put db (MkMVCCKey key EmptyTimestamp) b).
  - apply (points_put db (MkMVCCKey key ts) e).
Qed.

(** The points of the key after a put: the intent, the version, and what was committed. *)
Definition changed_points (key : bytes) (pts : list pos) (ts : Timestamp) (e : bytes) (b : option bytes) : list pos :=
  match b with Some b => [MkPos (MkMVCCKey key EmptyTimestamp) (Some b)] | None => [] end ++ MkPos (MkMVCCKey key ts) (Some e) :: committed_of pts.

Section Shapes.
Context (key : bytes) (ts : Timestamp) (Nt : ts <> EmptyTimestamp) (e : bytes).

Lemma older_versions vs : Forall (fun q => q_user q = key /\ q_ts q <> EmptyTimestamp) vs -> Forall (fun q => lt_ts (q_ts q) ts) vs -> Forall (older key ts) vs.
Proof. intros F1 F2. apply Forall_forall. intros q I. rewrite Forall_forall in F1, F2. split; [by apply F1|by apply F2]. Qed.

(** Over versions only. *)
Lemma put_over_versions vs b : Forall (fun q => q_user q = key /\ q_ts q <> EmptyTimestamp) vs -> Forall (fun q => lt_ts (q_ts q) ts) vs ->
  put_pos (MkMVCCKey key ts) e (match b with Some b => put_pos (MkMVCCKey key EmptyTimestamp) b vs | None => vs end) =
  match b with Some b => [MkPos (MkMVCCKey key EmptyTimestamp) (Some b)] | None => [] end ++ MkPos (MkMVCCKey key ts) (Some e) :: vs.
Proof.
  intros F1 F2. pose proof (older_versions vs F1 F2) as Fo. destruct b as [b|]; [|by apply put_newest].
  rewrite put_meta by done. rewrite put_under_meta by done. cbn [app]. f_equal. by apply put_newest.
Qed.

(** Over the intent whose version is at the same timestamp. *)
Lemma put_over_same m p vs b : q_user m = key -> q_ts m = EmptyTimestamp -> q_user p = key -> q_ts p <> EmptyTimestamp ->
  Timestamp_EqOrdering (q_ts p) ts = true -> Forall (fun q => q_user q = key /\ q_ts q <> EmptyTimestamp) vs -> Forall (fun q => lt_ts (q_ts q) ts) vs ->
  put_pos (MkMVCCKey key ts) e (put_pos (MkMVCCKey key EmptyTimestamp) b (m :: p :: vs)) =
  MkPos (MkMVCCKey key EmptyTimestamp) (Some b) :: MkPos (MkMVCCKey key ts) (Some e) :: vs.
Proof.
  intros Um Tm Up Np Eq F1 F2. rewrite put_meta_again by (try done; by constructor). rewrite put_under_meta by done. f_equal.
  apply put_replaces; [done|by apply same_version|by apply older_versions].
Qed.

(** Over the intent whose version has been cleared. *)
Lemma put_over_cleared m p vs b : q_user m = key -> q_ts m = EmptyTimestamp -> q_user p = key -> q_ts p <> EmptyTimestamp ->
  lt_ts (q_ts p) ts -> Forall (fun q => q_user q = key /\ q_ts q <> EmptyTimestamp) vs -> Forall (fun q => lt_ts (q_ts q) (q_ts p)) vs ->
  put_pos (MkMVCCKey key ts) e (put_pos (MkMVCCKey key EmptyTimestamp) b (clear_pos (MkMVCCKey key (q_ts p)) (m :: p :: vs))) =
  MkPos (MkMVCCKey key EmptyTimestamp) (Some b) :: MkPos (MkMVCCKey key ts) (Some e) :: vs.
Proof.
  intros Um Tm Up Np Lt F1 F2. assert (F3 : Forall (fun q => lt_ts (q_ts q) ts) vs) by (eapply Forall_impl; [exact F2|]; cbn; intros q Hq; exact (lt_ts_trans _ _ _ Hq Lt)).
  rewrite (clear_under_meta key (q_ts p) Np m) by done. rewrite (clear_newest key (q_ts p) Np p).
  - rewrite put_meta_again by done. rewrite put_under_meta by done. f_equal. apply put_newest; [done|by apply older_versions].
  - apply same_version; try done. clear. ts.
  - apply Forall_forall. intros q I. rewrite Forall_forall in F1, F2. split; [by apply F1|by apply F2].
Qed.
End Shapes.


(** * What a put changes *)

Definition write_times (opts : MVCCWriteOptions) (timestamp : Timestamp) : Timestamp * Timestamp :=
  match w_Txn opts with Some txn => (tx_ReadTimestamp txn, t_WriteTimestamp (tx_Meta txn)) | None => (timestamp, timestamp) end.
Definition times_ok (opts : MVCCWriteOptions) (timestamp : Timestamp) : Prop :=
  ts_pos (write_times opts timestamp).2 /\ le_ts (write_times opts timestamp).1 (write_times opts timestamp).2.

Section Changes.
Context `{L : ScanLib} {HL : HeaderLaws} {ML : MetaLaws L} {W : Type} {Wr : Writer W}.
Context (batch_reader : batch -> res (list (bytes * bytes) * option string)).
Context (maxItersBeforeSeek : Z) (fuel : nat) (unlimited : account) (disableSimple : bool) `{!WriterLaws Wr disableSimple}.
Context (key : bytes) (Nk : key <> []) (w : W) (ok : snapshot_ok (w_db w)).
Abbreviation pts := (points (w_db w) key).
Abbreviation rks := (Versions (stack_at (w_db w) key)).
Context {It : Type} {M : MVCCIterator It} `{!IteratorLaws M (prefix_view (w_db w) key)} (intents : intents_ok pts rks).
Context (timestamp : Timestamp) (Nt : timestamp <> EmptyTimestamp) (value : Value) (valueFn : option (option Value -> res (Value + write_error)))
  (opts : MVCCWriteOptions) (Times : times_ok opts timestamp) (Values : values_ok opts value valueFn).
Abbreviation put it := (mvccPutInternal batch_reader maxItersBeforeSeek fuel unlimited disableSimple w (Some it) key timestamp value valueFn opts).
Abbreviation rt := (write_times opts timestamp).1.
Abbreviation wt := (write_times opts timestamp).2.

Definition op_type : MVCCLogicalOpType := match w_Txn opts with Some _ => MVCCWriteIntentOpType | None => MVCCWriteValueOpType end.

(** What a put does once it has found the metadata. *)
Definition put_over (it' : It) (ex : option found) : res (put_result + write_error * W) :=
  match ex with
  | Some f =>
      match m_Txn (f_meta f) with
      | Some metaTxn =>
          try plan ← plan_over_intent batch_reader maxItersBeforeSeek fuel unlimited w it' key value valueFn opts rt wt (f_meta f) metaTxn;
          match plan with
          | None => Ok (inl (MkPut w (w_Stats opts) false None))
          | Some p => r ← put_version disableSimple key opts (Some f) p; Ok (inl r)
          end
      | None =>
          try p ← plan_over_version batch_reader maxItersBeforeSeek fuel unlimited w it' key value valueFn opts rt wt (f_meta f) op_type;
          r ← put_version disableSimple key opts (Some f) p; Ok (inl r)
      end
  | None =>
      try value ← stop_at w (match valueFn with Some f => f None | None => Ok (inl value) end);
      r ← put_version disableSimple key opts None (MkPlan w value wt false false 0 [] None op_type);
      Ok (inl r)
  end.

(** A request that is not refused at once. *)
Record request : Prop := {
  rq_wall : 0 <= WallTime timestamp;
  rq_value : val_Timestamp value = EmptyTimestamp;
  rq_local : Synthetic (w_LocalTimestamp opts) = false;
  rq_txn : match w_Txn opts with Some txn => tx_ReadTimestamp txn = timestamp | None => w_ReplayWriteTimestampProtection opts = false end
}.

Lemma put_runs (it : It) ex : request -> metadata_of key pts rks = Ok ex -> match ex with Some f => IsInline (f_meta f) = false | None => True end ->
  exists it', put it = put_over it' ex.
Proof.
  intros [Wl Vt _ Tx] Em In. destruct (metadata_view key pts rks it Nk (points_points_ok _ key ok)) as [it' Mv]. exists it'. unfold mvccPutInternal.
  assert ((length key =? 0)%nat = false) as -> by (apply Nat.eqb_neq; by intros E%nil_length_inv). assert ((WallTime timestamp <? 0) = false) as -> by lia. rewrite Vt. cbn [Timestamp_IsEmpty negb].
  assert (WriteOptions_validate opts = Ok tt) as ->.
  { unfold WriteOptions_validate. destruct (w_Txn opts); [|by rewrite Tx]. by rewrite bool_decide_true, andb_false_r by done. }
  rewrite Mv, Em. cbn [mbind res_bind]. assert (Timestamp_IsEmpty timestamp = false) as -> by (by apply IsEmpty_false).
  unfold put_over, write_times, op_type.
  assert (match option_map (pair it') ex with Some (_, f) => negb (Bool.eqb false (IsInline (f_meta f))) | None => false end = false) as ->.
  { destruct ex as [f|]; [|done]. cbn. by rewrite In. }
  destruct (w_Txn opts) as [txn|]; [rewrite Tx; assert (Timestamp_Equal timestamp timestamp = true) as -> by (by apply Timestamp_Equal_spec)|]; by destruct ex.
Qed.

(** A put that is not refused at once goes on with what it found. *)
Lemma put_found (it : It) x : put it = Ok x ->
  exists it' ex, metadata_of key pts rks = Ok ex /\ match ex with Some f => IsInline (f_meta f) = false | None => True end /\ put_over it' ex = Ok x.
Proof.
  unfold mvccPutInternal. destruct (length key =? 0)%nat; [done|]. destruct (WallTime timestamp <? 0); [done|]. destruct (negb _); [done|].
  intros ([] & _ & H)%res_bind_inv. apply res_bind_inv in H as (ex & Em & H). destruct (metadata_view key pts rks it Nk (points_points_ok _ key ok)) as [it' Mv].
  rewrite Em in Mv. symmetry in Mv. apply res_bind_inv in Mv as (fo & Ef & Eo). injection Eo as <-.
  assert (Timestamp_IsEmpty timestamp = false) as Te by (by apply IsEmpty_false). rewrite Te in H. exists it', fo. split; [done|].
  assert (In : match fo with Some f => IsInline (f_meta f) = false | None => True end).
  { destruct fo as [f|]; [|done]. cbn [option_map] in H. destruct (IsInline (f_meta f)); done. }
  split; [done|]. assert (G : match option_map (pair it') fo with Some (_, f) => negb (Bool.eqb false (IsInline (f_meta f))) | None => false end = false).
  { destruct fo as [f|]; [|done]. cbn. by rewrite In. }
  rewrite G in H. apply res_bind_inv in H as ([rt' wt'] & Et & H). unfold put_over, write_times, op_type.
  destruct (w_Txn opts) as [txn|]; [destruct (negb (Timestamp_Equal _ _)); [done|]|]; injection Et as <- <-; cbn [fst snd]; destruct fo as [f|]; exact H.
Qed.

(** The effect of a put that is not a replay. *)
Record put_effect (ex : option found) (p : @put_plan W) (r : put_result) (v : MVCCValue) (e : bytes) (b : option bytes) : Prop := {
  pe_found : metadata_of key pts rks = Ok ex;
  pe_inline : match ex with Some f => IsInline (f_meta f) = false | None => True end;
  pe_wrote : wrote disableSimple key opts ex p r v e b;
  pe_ts : ts_pos (pp_writeTimestamp p);
  pe_above : above_all pts rks (pp_writeTimestamp p);
  pe_at_least : le_ts wt (pp_writeTimestamp p);
  pe_ok : snapshot_ok (w_db (p_writer r));
  pe_points : points (w_db (p_writer r)) key = changed_points key pts (pp_writeTimestamp p) e b;
  pe_stacks : stacks (w_db (p_writer r)) = stacks (w_db w);
  pe_elsewhere pr : elsewhere (MkMVCCKey key EmptyTimestamp) pr -> List.filter pr (positions (w_db (p_writer r))) = List.filter pr (positions (w_db w));
  pe_value : value_from value valueFn (pp_value p);
  pe_outcome :
    match ex with
    | Some f =>
        let mts := LegacyTimestamp_ToTimestamp (m_Timestamp (f_meta f)) in
        if has_txn (f_meta f) then pp_tooOld p = None
        else if Timestamp_LessEq rt mts then
          (exists n, Timestamp_Next mts = Ok n /\ pp_writeTimestamp p = (Timestamp_Forward wt n).1) /\
          pp_tooOld p = Some (WriteTooOldError rt (pp_writeTimestamp p) key)
        else pp_writeTimestamp p = wt /\ pp_tooOld p = None
    | None => pp_writeTimestamp p = wt /\ pp_tooOld p = None
    end;
  pe_history :
    match pts with
    | m :: q :: _ =>
        if Timestamp_IsEmpty (q_ts m)
        then forall meta h, UnmarshalMeta (default [] (q_val m)) = Ok meta -> h ∈ pp_history p -> h ∈ m_IntentHistory meta \/ h_Value h = default [] (q_val q)
        else pp_history p = []
    | _ => pp_history p = []
    end;
  pe_prev :
    match pts with
    | m :: q :: vs =>
        if Timestamp_IsEmpty (q_ts m) then
          if Timestamp_Less (q_ts q) (pp_writeTimestamp p) then below_info rks vs = Ok (pp_prevIsValue p, pp_prevValSize p)
          else Timestamp_EqOrdering (q_ts q) (pp_writeTimestamp p) = true /\ pp_prevIsValue p = false
        else pp_prevIsValue p = false
    | _ => pp_prevIsValue p = false
    end
}.

Lemma key_versions : match pts with q :: _ => q_ts q <> EmptyTimestamp | [] => True end ->
  Forall (fun q => q_user q = key /\ q_ts q <> EmptyTimestamp) pts /\ committed_of pts = pts.
Proof.
  intros Nq. pose proof (points_points_ok _ key ok) as Po. pose proof (po_points _ _ _ Po) as Pp. pose proof (po_versions _ _ _ Po) as Pv.
  unfold committed_of. destruct pts as [|q vs]; [done|]. assert (Timestamp_IsEmpty (q_ts q) = false) as -> by (by apply IsEmpty_false). split; [|done].
  specialize (Pv q vs eq_refl). apply Forall_forall. intros x I. rewrite Forall_forall in Pp, Pv. split; [by apply Pp|].
  apply elem_of_cons in I as [->|I]; [done|by apply Pv].
Qed.

(** A put where there is no intent. *)
Lemma effect_fresh ex p r v e b (ts := pp_writeTimestamp p) : match pts with q :: _ => q_ts q <> EmptyTimestamp | [] => True end ->
  metadata_of key pts rks = Ok ex -> match ex with Some f => IsInline (f_meta f) = false | None => True end ->
  wrote disableSimple key opts ex p r v e b -> ts_pos ts -> le_ts wt ts ->
  Forall (fun q => lt_ts (q_ts q) ts) pts -> Forall (fun v => lt_ts (v_Timestamp v) ts) rks ->
  pp_writer p = w -> pp_prevIsValue p = false -> pp_history p = [] -> value_from value valueFn (pp_value p) ->
  match ex with
  | Some f =>
      let mts := LegacyTimestamp_ToTimestamp (m_Timestamp (f_meta f)) in
      has_txn (f_meta f) = false /\
      if Timestamp_LessEq rt mts then
        (exists n, Timestamp_Next mts = Ok n /\ ts = (Timestamp_Forward wt n).1) /\ pp_tooOld p = Some (WriteTooOldError rt ts key)
      else ts = wt /\ pp_tooOld p = None
  | None => ts = wt /\ pp_tooOld p = None
  end ->
  put_effect ex p r v e b.
Proof.
  intros Nq Em In Wrote Pt Le A1 A2 Ew Pv Hh Ev Out. destruct (key_versions Nq) as [Fv Ec].
  pose proof (wr_db _ _ _ _ _ _ _ _ _ Wrote) as Db. rewrite Ew in Db. change (w_db (p_writer r) = put_both (w_db w) key ts e b) in Db. split; try done.
  - split; [by rewrite Ec|done].
  - rewrite Db. apply put_both_ok; [by apply ok_ok_but|done..].
  - rewrite Db, put_both_points. unfold changed_points. rewrite Ec. apply put_over_versions; [by apply ts_pos_set|done..].
  - rewrite Db. by destruct b.
  - intros pr El. rewrite Db. apply put_both_elsewhere; [by apply ok_sorted|done].
  - destruct ex as [f|]; [|done]. cbv zeta in *. by destruct Out as [-> Out].
  - destruct pts as [|m [|q vs]]; try done. assert (Timestamp_IsEmpty (q_ts m) = false) as -> by (by apply IsEmpty_false). done.
  - destruct pts as [|m [|q vs]]; try done. assert (Timestamp_IsEmpty (q_ts m) = false) as -> by (by apply IsEmpty_false). done.
Qed.

(** A put where the transaction has an intent. *)
Section Over.
Context (m q : pos) (vs : list pos) (Ep : pts = m :: q :: vs) (Tm : q_ts m = EmptyTimestamp) (Rk : Forall (fun v => lt_ts (v_Timestamp v) (q_ts q)) rks).

Lemma intent_shape : q_user m = key /\ q_user q = key /\ q_ts q <> EmptyTimestamp /\ ts_pos (q_ts q) /\
  Forall (fun x => q_user x = key /\ q_ts x <> EmptyTimestamp) vs /\ Forall (fun x => lt_ts (q_ts x) (q_ts q)) vs.
Proof.
  pose proof (points_points_ok _ key ok) as Po. rewrite Ep in Po. destruct (intent_point key m q vs rks Po m) as (Um & _); [left|].
  destruct (intent_point key m q vs rks Po q) as (Uq & _); [right; left|]. destruct (intent_version key m q vs rks Po q) as (Nq & Pq); [left|].
  split_and!; try done; apply Forall_forall; intros x I.
  - destruct (intent_point key m q vs rks Po x) as (Ux & _); [by right; right|]. destruct (intent_version key m q vs rks Po x) as (Nx & _); [by right|]. done.
  - by apply (intent_below key m q vs rks Po).
Qed.

(** The store after the writes of an intent at [ts]. *)
Lemma intent_store ts e b db1 : ts_pos ts -> 
  (if Timestamp_Less (q_ts q) ts then db1 = clear_point (w_db w) (MkMVCCKey key (q_ts q)) else Timestamp_EqOrdering (q_ts q) ts = true /\ db1 = w_db w) ->
  let db' := put_both db1 key ts e (Some b) in
  snapshot_ok db' /\ points db' key = changed_points key pts ts e (Some b) /\ stacks db' = stacks (w_db w) /\
  forall pr, elsewhere (MkMVCCKey key EmptyTimestamp) pr -> List.filter pr (positions db') = List.filter pr (positions (w_db w)).
Proof.
  intros Pt D. destruct intent_shape as (Um & Uq & Nq & Pq & F1 & F2). cbv zeta. rewrite put_both_points. unfold changed_points. rewrite Ep. cbn [committed_of].
  assert (Timestamp_IsEmpty (q_ts m) = true) as -> by (by apply IsEmpty_spec). cbn [drop app]. pose proof (ok_sorted _ ok) as So.
  destruct (Timestamp_Less (q_ts q) ts) eqn:Lt; [subst db1|destruct D as [Eq ->]]; split_and!; try done.
  - apply put_both_ok; try done. apply (clear_but (w_db w) (MkMVCCKey key (q_ts q))); [by apply ok_ok_but|done].
  - rewrite points_clear, Ep. by apply put_over_cleared; try apply ts_pos_set.
  - intros pr El. rewrite put_both_elsewhere by (try done; by apply clear_sorted). by apply clear_elsewhere.
  - apply put_both_ok; try done. by apply ok_ok_but.
  - rewrite Ep. apply put_over_same; try done; [by apply ts_pos_set|]. eapply Forall_impl; [exact F2|]. cbn. intros x Hx. eapply lt_le_ts_trans; [exact Hx|]. clear - Eq. ts.
  - intros pr El. by apply put_both_elsewhere.
Qed.

Lemma effect_intent f p r v e b (ts := pp_writeTimestamp p) : metadata_of key pts rks = Ok (Some f) -> IsInline (f_meta f) = false -> has_txn (f_meta f) = true -> is_Some (w_Txn opts) ->
  wrote disableSimple key opts (Some f) p r v e b -> value_from value valueFn (pp_value p) -> pp_tooOld p = None ->
  (forall h, h ∈ pp_history p -> h ∈ m_IntentHistory (f_meta f) \/ h_Value h = default [] (q_val q)) ->
  (if Timestamp_Less (q_ts q) wt
   then ts = wt /\ w_db (pp_writer p) = clear_point (w_db w) (MkMVCCKey key (q_ts q)) /\ below_info rks vs = Ok (pp_prevIsValue p, pp_prevValSize p)
   else ts = (if Timestamp_Less wt (q_ts q) then q_ts q else wt) /\ pp_writer p = w /\ pp_prevIsValue p = false) ->
  put_effect (Some f) p r v e b.
Proof.
  intros Em In Hx Ht Wrote Ev Old Hi D. destruct intent_shape as (Um & Uq & Nq & Pq & F1 & F2). destruct Times as [Pw _].
  assert (exists b', b = Some b') as [b' ->].
  { pose proof (wr_meta _ _ _ _ _ _ _ _ _ Wrote) as Wm. destruct b as [b|]; [by exists b|]. rewrite Wm in Ht. by destruct Ht. }
  assert (T : ts_pos ts /\ le_ts (q_ts q) ts /\ le_ts wt ts /\ if Timestamp_Less (q_ts q) ts
    then w_db (pp_writer p) = clear_point (w_db w) (MkMVCCKey key (q_ts q)) /\ below_info rks vs = Ok (pp_prevIsValue p, pp_prevValSize p)
    else Timestamp_EqOrdering (q_ts q) ts = true /\ pp_writer p = w /\ pp_prevIsValue p = false).
  { destruct (Timestamp_Less (q_ts q) wt) eqn:Lt; destruct D as (Et & D).
    - rewrite Et, Lt. split_and!; try done; [by apply lt_le_ts|apply le_ts_refl|by destruct D|by destruct D].
    - destruct (Timestamp_Less wt (q_ts q)) eqn:Lt2; rewrite Et.
      + assert (Timestamp_Less (q_ts q) (q_ts q) = false) as -> by (apply not_true_is_false, lt_ts_irrefl).
        split_and!; try done; [apply le_ts_refl|by apply lt_le_ts|clear; ts|apply D|apply D].
      + rewrite Lt. pose proof (not_lt_eq _ _ Lt Lt2) as Eq. split_and!; try done; [clear - Eq; ts|apply le_ts_refl|apply D|apply D]. }
  destruct T as (Pt & Leq & Lew & T). pose proof (wr_db _ _ _ _ _ _ _ _ _ Wrote) as Db.
  change (w_db (p_writer r) = put_both (w_db (pp_writer p)) key ts e (Some b')) in Db.
  destruct (intent_store ts e b' (w_db (pp_writer p)) Pt) as (S1 & S2 & S3 & S4).
  { destruct (Timestamp_Less (q_ts q) ts); [by destruct T|]. destruct T as (? & -> & _). done. }
  assert (Ie : Timestamp_IsEmpty (q_ts m) = true) by (by apply IsEmpty_spec).
  split; try done.
  - split; [rewrite Ep; cbn [committed_of]; rewrite Ie; cbn [drop]|]; (eapply Forall_impl; [first [exact F2|exact Rk]|]; cbn; intros x Hlt; by eapply lt_le_ts_trans).
  - by rewrite Db.
  - by rewrite Db.
  - by rewrite Db.
  - intros pr El. rewrite Db. by apply S4.
  - cbv zeta. by rewrite Hx.
  - rewrite Ep, Ie. intros meta h Ume Ih. rewrite Ep in Em. unfold metadata_of in Em. rewrite Ie, Ume in Em. injection Em as <-. by apply Hi.
  - rewrite Ep, Ie. fold ts. destruct (Timestamp_Less (q_ts q) ts); [apply T|]. destruct T as (? & _ & ?). done.
Qed.
End Over.

(** A write in the transaction of the intent that has been there before. *)
Definition replayed : Prop :=
  exists f metaTxn txn, metadata_of key pts rks = Ok (Some f) /\ m_Txn (f_meta f) = Some metaTxn /\ w_Txn opts = Some txn /\
    t_ID metaTxn = t_ID (tx_Meta txn) /\ t_Epoch metaTxn = t_Epoch (tx_Meta txn) /\ t_Sequence (tx_Meta txn) <= t_Sequence metaTxn.

Lemma plan_replay (it : It) meta metaTxn : 
  plan_over_intent batch_reader maxItersBeforeSeek fuel unlimited w it key value valueFn opts rt wt meta metaTxn = Ok (inl (@None (@put_plan W))) ->
  exists txn, w_Txn opts = Some txn /\ t_ID metaTxn = t_ID (tx_Meta txn) /\ t_Epoch metaTxn = t_Epoch (tx_Meta txn) /\ t_Sequence (tx_Meta txn) <= t_Sequence metaTxn.
Proof.
  unfold plan_over_intent. destruct (w_Txn opts) as [txn|]; [|done].
  destruct (negb (beqb (t_ID metaTxn) (t_ID (tx_Meta txn)))) eqn:Ei; [done|]. destruct (t_Epoch (tx_Meta txn) <? t_Epoch metaTxn); [done|].
  destruct (_ && _) eqn:Ee; [|intros ([[it1 ex] raw] & _ & H)%stop_inv; apply stop_inv in H as (v & Ev & H); by apply res_bind_inv in H as ([[[w1 ts1] pv] ps] & Hw & [=])].
  intros _. exists txn. apply negb_false_iff, beqb_true in Ei. apply andb_true_iff in Ee as [Ee%Z.eqb_eq Es%Z.leb_le]. split_and!; try done; lia.
Qed.

(** What was found says where it comes from. *)
Lemma found_fresh f (mts := LegacyTimestamp_ToTimestamp (m_Timestamp (f_meta f))) : metadata_of key pts rks = Ok (Some f) -> m_Txn (f_meta f) = None -> IsInline (f_meta f) = false ->
  match pts with q :: _ => q_ts q <> EmptyTimestamp | [] => True end /\ m_IntentHistory (f_meta f) = [] /\
  ts_pos mts /\ Forall (fun x => le_ts (q_ts x) mts) pts /\ Forall (fun v => le_ts (v_Timestamp v) mts) rks.
Proof.
  intros Em Mt In. pose proof (points_points_ok _ key ok) as Po. pose proof (po_stack _ _ _ Po) as [Sr Fr]. unfold metadata_of in Em. unfold intents_ok in intents.
  destruct pts as [|q vs] eqn:Ep.
  - pose proof (newest_max _ Sr) as Nm. destruct rks as [|r rs]; [done|]. injection Em as <-. subst mts. cbn [f_meta version_meta m_Timestamp m_IntentHistory]. rewrite legacy_roundtrip.
    split_and!; try done. by apply Forall_cons in Fr as [? _].
  - destruct (Timestamp_IsEmpty (q_ts q)) eqn:Tq.
    + exfalso. apply IsEmpty_spec in Tq. destruct (intents q vs eq_refl Tq) as (meta & Eu & Hm). rewrite Eu in Em. injection Em as <-. cbn in Mt, In.
      destruct Hm as [[I _]|(_ & [t T] & _)]; congruence.
    + apply IsEmpty_false in Tq. apply res_bind_inv in Em as (f' & Ef & [= ->]). destruct (found_newest key _ _ q vs f Po eq_refl Tq Ef) as (_ & Hh & _ & P1 & P2 & P3). done.
Qed.

Lemma found_intent f metaTxn : metadata_of key pts rks = Ok (Some f) -> m_Txn (f_meta f) = Some metaTxn -> IsInline (f_meta f) = false ->
  exists m q vs, pts = m :: q :: vs /\ q_ts m = EmptyTimestamp /\ q_ts q = LegacyTimestamp_ToTimestamp (m_Timestamp (f_meta f)) /\
    Forall (fun v => lt_ts (v_Timestamp v) (q_ts q)) rks.
Proof.
  intros Em Mt In. pose proof (points_points_ok _ key ok) as Po. unfold metadata_of in Em. unfold intents_ok in intents.
  destruct pts as [|m vs] eqn:Ep.
  - destruct rks as [|r rs]; [done|]. by injection Em as <-.
  - destruct (Timestamp_IsEmpty (q_ts m)) eqn:Tq.
    + apply IsEmpty_spec in Tq. destruct (intents m vs eq_refl Tq) as (meta & Eu & Hm). rewrite Eu in Em. injection Em as <-. cbn in Mt, In |- *.
      destruct Hm as [[I _]|(_ & _ & q & rest & -> & Eq & F)]; [congruence|]. by exists m, q, rest.
    + apply IsEmpty_false in Tq. apply res_bind_inv in Em as (f' & Ef & [= ->]). destruct (found_newest key _ _ m vs f Po eq_refl Tq Ef) as (Mt' & _). congruence.
Qed.

Lemma put_changes (it : It) r : put it = Ok (inl r) ->
  (r = MkPut w (w_Stats opts) false None /\ replayed) \/ exists ex p v e b, put_effect ex p r v e b.
Proof.
  intros (it' & ex & Em & In & H)%put_found. unfold put_over in H. pose proof (points_points_ok _ key ok) as Po. destruct Times as [Pw Le]. destruct ex as [f|].
  2:{ right. assert (pts = [] /\ rks = []) as [Ep Er].
    { unfold metadata_of in Em. destruct pts as [|q vs]; [by destruct rks|].
      destruct (Timestamp_IsEmpty _); [by apply res_bind_inv in Em as (? & _ & [=])|by apply res_bind_inv in Em as (? & _ & [=])]. }
    apply stop_inv in H as (v & Ev & H). apply res_bind_inv in H as (r' & Hp & [= ->]).
    destruct (put_version_wrote disableSimple key opts None (MkPlan w v wt false false 0 [] None op_type) r) as (v' & e & b & Wrote);
      [by apply ts_pos_set|exact (valueFn_ok _ _ _ _ _ Values Ev)|exact Hp|].
    exists None. eexists _, v', e, b. apply effect_fresh; [|done|done|exact Wrote|done|..]; cbn [pp_writeTimestamp pp_writer pp_prevIsValue pp_value pp_tooOld];
      rewrite ?Ep, ?Er; try done; [apply le_ts_refl|]. exact (value_from_ok _ _ _ _ Ev). }
  destruct (m_Txn (f_meta f)) as [metaTxn|] eqn:Mt.
  - apply try_inv in H as ([p|] & Hp & H).
    2:{ left. injection H as <-. split; [done|]. destruct (plan_replay _ _ _ Hp) as (txn & ?). by exists f, metaTxn, txn. }
    right. apply res_bind_inv in H as (r' & Hr & [= ->]). destruct (found_intent f metaTxn Em Mt In) as (m & q & vs & Ep & Tm & Tq & Rk).
    destruct (intent_shape m q vs Ep) as (_ & _ & Nq & Pq & _).
    assert (Vb : forall it : It, version_below it (MkMVCCKey key (q_ts q)) = below_info rks vs).
    { intros it0. rewrite Ep in Po. pose proof _ : IteratorLaws M (prefix_view (w_db w) key) as IL. unfold prefix_view in IL. rewrite Ep in IL.
      by apply (version_below_view key Nk m q vs rks Po). }
    rewrite Tq in Vb, Nq. destruct (over_intent_plan _ _ _ _ disableSimple w it' key value valueFn opts rt wt (f_meta f) metaTxn p _ Nq Values Vb Hp)
      as ((txn & Et & _) & Vo & Old & Ev & Hi & D). rewrite <- Tq in D, Nq, Hi.
    assert (Ntp : pp_writeTimestamp p <> EmptyTimestamp).
    { apply ts_pos_set. destruct (Timestamp_Less (q_ts q) wt); destruct D as (-> & _); [done|by destruct (Timestamp_Less wt (q_ts q))]. }
    destruct (put_version_wrote disableSimple key opts (Some f) p r Ntp Vo Hr) as (v & e & b & Wrote). exists (Some f), p, v, e, b.
    apply (effect_intent m q vs); try done; [unfold has_txn; by rewrite Mt|].
    intros h Ih. destruct (Hi h Ih) as [?|[it0 E]]; [by left|right]. revert E. generalize IteratorLaws0. unfold prefix_view. rewrite Ep in Po |- *. intros IL E.
    rewrite (it_UnsafeLazyValue _ q _ (seek_version key Nk m q vs rks Po Tm it0) (at_value key _ rks Po q ltac:(right; left))) in E. by injection E as ->.
  - right. apply try_inv in H as (p & Hp & H). apply res_bind_inv in H as (r' & Hr & [= ->]). destruct (found_fresh f Em Mt In) as (Nq & Hh & Pm & Lp & Lr).
    destruct (over_version_plan _ _ _ _ w it' key value valueFn opts rt wt (f_meta f) op_type p Pm Pw Le Values Hp) as (Ew & Pv & Ph & Vo & Pt & Lt & Lw & Ev & Out). rewrite Hh in Ph.
    destruct (put_version_wrote disableSimple key opts (Some f) p r (ts_pos_set _ Pt) Vo Hr) as (v & e & b & Wrote). exists (Some f), p, v, e, b.
    apply effect_fresh; try done.
    + eapply Forall_impl; [exact Lp|]. cbn. intros x Hx. by eapply le_lt_ts_trans.
    + eapply Forall_impl; [exact Lr|]. cbn. intros x Hx. by eapply le_lt_ts_trans.
    + split; [|exact Out]. unfold has_txn. by rewrite Mt.
Qed.
End Changes.
