(* ===== verification/ResolveSpec.v ===== *)
(** What the resolution of an intent finds.

    The metadata, the provisional version and the version below it, from the points of the key
    and the range tombstones over it, without an iterator. *)
From stdpp Require Import sorting.
From S2P Require Import Prelude Bytes GoLib Hlc KeyOps Spans MvccKey RangeKeys MvccValue MvccIter Scanner ScanSpec ScanNav ScanRead StoreOps MvccRead MvccStats MvccWrite MvccResolve WriteSpec WriteOk.

Section Found.
Context `{L : ScanLib}.

(** Whether the newest of some versions is a value that no range tombstone covers, and its size. *)
Definition next_info (rks : MVCCRangeKeyVersions) (vs : list pos) : res (bool * Z) :=
  match vs with
  | [] => Ok (false, 0)
  | q :: _ =>
      let v := default [] (q_val q) in
      if match rks with [] => true | r :: _ => Timestamp_Less (v_Timestamp r) (q_ts q) end then
        isTombstone ← EncodedMVCCValueIsTombstone v;
        Ok (negb isTombstone, blen v)
      else Ok (false, 0)
  end.

Lemma next_below_info rks vs b n : next_info rks vs = Ok (b, n) -> below_info rks vs = Ok (b, if b then n else 0).
Proof.
  unfold next_info, below_info. destruct vs as [|q l]; [by intros [= <- <-]|]. destruct (match rks with [] => true | _ => _ end); [|by intros [= <- <-]].
  intros (t & -> & [= <- <-])%res_bind_inv. cbn [mbind res_bind]. by destruct t.
Qed.

(** The version that is revealed: its length, whether it is deleted, and since when. *)
Definition reveal_info (rks : MVCCRangeKeyVersions) (vs : list pos) : res (option (Z * bool * Timestamp)) :=
  match vs with
  | [] => Ok None
  | q :: _ =>
      let v := default [] (q_val q) in
      isTombstone ← EncodedMVCCValueIsTombstone v;
      Ok (Some (match (if negb isTombstone then Versions_FirstAtOrAbove rks (q_ts q) else None) with
                | Some r => (0, true, v_Timestamp r)
                | None => (blen v, isTombstone, q_ts q)
                end))
  end.

(** ** At the metadata *)

(** Seeking for the intent of a transaction: like a seek to the metadata; an iterator may pass by
    the metadata of another transaction. *)
Class IntentSeeks {It} (M : MVCCIterator It) (db : snapshot) (IL : IteratorLaws M db) (SeekIntentGE : It -> bytes -> bytes -> It) : Prop :=
  seek_intent it key id :
    r_cur (it_abs (SeekIntentGE it key id)) = r_cur (it_abs (SeekGE it (MakeMVCCMetadataKey key))) \/
    (forall v meta txn, MkPos (MkMVCCKey key EmptyTimestamp) (Some v) ∈ positions db -> UnmarshalMeta v = Ok meta -> m_Txn meta = Some txn -> t_ID txn <> id) /\
    (forall q, r_cur (it_abs (SeekIntentGE it key id)) = At q -> has_point q = true -> q_ts q <> EmptyTimestamp).

Section Metadata.
Context (key : bytes) (Nk : key <> []) (pts : list pos) (rks : MVCCRangeKeyVersions) (ok : points_ok key pts rks).
Abbreviation view := (key_view key pts rks).
Context {It : Type} {M : MVCCIterator It} `{!IteratorLaws M view}.

(** No metadata is at the position. *)
Lemma get_nothing it : (forall q, r_cur (it_abs it) = At q -> has_point q = true -> q_ts q <> EmptyTimestamp) -> mvccGetIntent it (MakeMVCCMetadataKey key) = Ok None.
Proof.
  intros N. unfold mvccGetIntent. rewrite (it_Valid it). unfold is_at. destruct (r_cur (it_abs it)) as [| |q] eqn:C; [done..|]. cbn [mbind res_bind negb].
  rewrite (it_HasPointAndRange it q C), (it_UnsafeKey it q C). destruct (has_point q) eqn:Hp; cbn [negb]; [|done]. destruct (negb _); [done|].
  unfold MVCCKey_IsValue. fold (q_ts q). by rewrite (proj2 (IsEmpty_false _) (N q eq_refl Hp)).
Qed.

Lemma get_meta it m l : pts = m :: l -> q_ts m = EmptyTimestamp -> r_cur (it_abs it) = At m ->
  mvccGetIntent it (MakeMVCCMetadataKey key) =
    (meta ← UnmarshalMeta (default [] (q_val m)); Ok (Some (meta, blen key + 1, blen (default [] (q_val m))))).
Proof.
  intros Ep Tm A. assert (I : m ∈ pts) by (rewrite Ep; left). pose proof (at_value key _ rks ok m I) as Va. pose proof (at_key key _ rks ok m I) as U.
  assert (Hp : has_point m = true) by (unfold has_point; by rewrite Va). unfold mvccGetIntent. rewrite (it_Valid it). unfold is_at. rewrite A. cbn [mbind res_bind negb].
  rewrite (it_HasPointAndRange it m A), Hp, (it_UnsafeKey it m A). cbn [negb MakeMVCCMetadataKey k_Key]. rewrite U.
  assert (beqb key key = true) as -> by (by apply beqb_true). unfold MVCCKey_IsValue. fold (q_ts m). rewrite (proj2 (IsEmpty_spec _) Tm). cbn [negb].
  rewrite (it_UnsafeLazyValue it m _ A Va). cbn [mbind res_bind]. destruct (UnmarshalMeta _); [|done..]. cbn [mbind res_bind]. repeat f_equal.
  unfold MVCCKey_EncodedSize, MVCCKey_IsValue, blen. fold (q_ts m). rewrite (proj2 (IsEmpty_spec _) Tm), U. cbn [negb]. lia.
Qed.

(** Where a seek to the metadata ends. *)
Lemma seek_meta it m l : pts = m :: l -> q_ts m = EmptyTimestamp -> r_cur (it_abs (SeekGE it (MakeMVCCMetadataKey key))) = At m.
Proof.
  intros Ep Tm. rewrite (seek_abs key Nk pts rks ok it). cbn [move r_cur]. unfold key_view. rewrite Ep. destruct rks; cbn [positions]; [done|].
  by rewrite (proj2 (IsEmpty_spec _) Tm).
Qed.
Lemma seek_no_meta it : match pts with q :: _ => q_ts q <> EmptyTimestamp | [] => True end ->
  forall q, r_cur (it_abs (SeekGE it (MakeMVCCMetadataKey key))) = At q -> has_point q = true -> q_ts q <> EmptyTimestamp.
Proof.
  intros N q. rewrite (seek_abs key Nk pts rks ok it). cbn [move r_cur]. unfold key_view. destruct pts as [|p l].
  - destruct rks; cbn [positions head or_hi]; [done|]. by intros [= <-].
  - destruct rks; cbn [positions head or_hi]; [by intros [= <-]|]. rewrite (proj2 (IsEmpty_false _) N). by intros [= <-].
Qed.
End Metadata.

(** ** At an intent *)

Section Intent.
Context (key : bytes) (Nk : key <> []) (m p : pos) (vs : list pos) (rks : MVCCRangeKeyVersions) (ok : points_ok key (m :: p :: vs) rks) (Tm : q_ts m = EmptyTimestamp).
Abbreviation view := (key_view key (m :: p :: vs) rks).
Context {It : Type} {M : MVCCIterator It} `{!IteratorLaws M view}.

Lemma step_version it : r_cur (it_abs it) = At p -> r_cur (it_abs (Next it)) = or_hi (head vs).
Proof.
  intros A. rewrite it_Next by (by rewrite A). unfold ref_Next. rewrite A. cbn [r_cur move].
  rewrite (first_gt_split view (view_ok key Nk _ rks ok) [m] p vs); [done|]. apply (intent_positions key m p vs rks ok Tm).
Qed.

Lemma next_below_view it : r_cur (it_abs it) = At p -> next_below it (MkMVCCKey key (q_ts p)) = next_info rks vs.
Proof.
  intros A. pose proof (step_version it A) as C. unfold next_below. rewrite (it_Valid (Next it)). unfold is_at. rewrite C. cbn [mbind res_bind].
  pose proof (view_stack key _ rks ok) as [Vs _]. pose proof (view_empty key _ rks ok) as Ve.
  destruct (head vs) as [q|] eqn:Hd; cbn [or_hi] in C |- *; [|by destruct vs]. destruct (head_point key m p vs rks ok q Hd) as (I & U & Hp & Nq).
  rewrite (it_HasPointAndRange _ q C), (it_UnsafeKey _ q C), (it_RangeKeys_at _ q C), Hp. fold (q_user q) (q_ts q). rewrite U. cbn [k_Key].
  assert (beqb key key = true) as -> by (by apply beqb_true). cbn [andb k_Key]. rewrite Ve, Vs.
  unfold MVCCValueLenAndIsTombstone. rewrite (it_UnsafeLazyValue _ q _ C (at_value key _ rks ok q ltac:(by right; right))). cbn [mbind res_bind].
  clear - Hd. unfold next_info. destruct vs as [|q' l]; [done|]. injection Hd as ->.
  destruct rks as [|r rs]; cbn [negb mbind res_bind]; [by destruct (EncodedMVCCValueIsTombstone _)|].
  destruct (Timestamp_Less _ _); [|done]. by destruct (EncodedMVCCValueIsTombstone _).
Qed.

(** The version that is revealed. *)
Lemma revealed_end it ok' hasRange : r_cur (it_abs it) = or_hi (head vs) -> ok' = is_at (it_abs it) ->
  (is_at (it_abs it) = true -> hasRange = negb (Stack_IsEmpty (stack_at view key))) ->
  (if ok' && beqb (k_Key (UnsafeKey it)) key then
     if negb (MVCCKey_IsValue (UnsafeKey it)) then Err "expected an MVCC value key"
     else
       '(nextValueLen, nextValueIsTombstone) ← MVCCValueLenAndIsTombstone it;
       Ok (Some (match (if negb nextValueIsTombstone && hasRange
                        then Versions_FirstAtOrAbove (Versions (it_RangeKeys it)) (k_Timestamp (UnsafeKey it)) else None) with
                 | Some v => (0, true, v_Timestamp v)
                 | None => (nextValueLen, nextValueIsTombstone, k_Timestamp (UnsafeKey it))
                 end))
   else Ok None) = reveal_info rks vs.
Proof.
  intros C -> Hr. unfold is_at in *. rewrite C in *. pose proof (view_stack key _ rks ok) as [Vs _]. pose proof (view_empty key _ rks ok) as Ve.
  destruct (head vs) as [q|] eqn:Hd; cbn [or_hi andb] in *; [|by destruct vs]. destruct (head_point key m p vs rks ok q Hd) as (I & U & Hp & Nq).
  rewrite (it_UnsafeKey _ q C), (it_RangeKeys_at _ q C), (Hr eq_refl). fold (q_user q) (q_ts q). rewrite U.
  assert (beqb key key = true) as -> by (by apply beqb_true). unfold MVCCKey_IsValue. fold (q_ts q). rewrite (proj2 (IsEmpty_false _) Nq), Ve, Vs. cbn [negb].
  unfold MVCCValueLenAndIsTombstone. rewrite (it_UnsafeLazyValue _ q _ C (at_value key _ rks ok q ltac:(by right; right))). cbn [mbind res_bind].
  clear - Hd. unfold reveal_info. destruct vs as [|q' l]; [done|]. injection Hd as ->.
  destruct (EncodedMVCCValueIsTombstone _) as [t| |]; [|done..]. cbn [mbind res_bind]. destruct t, rks; done.
Qed.

Lemma next_value k : MVCCKey_Next (MkMVCCKey key (q_ts p)) [] = Ok k -> MVCCKey_IsValue k = true \/ (MVCCKey_IsValue k = false /\ vs = []).
Proof.
  intros E. destruct (MVCCKey_IsValue k) eqn:V; [by left|]. right. split; [done|]. destruct (below_from key Nk m p vs rks ok Tm k E) as [_ [Ek|[? _]]]; [|done].
  exfalso. unfold MVCCKey_Next in E. cbn [k_Timestamp k_Key] in E. apply res_bind_inv in E as (t & _ & E). unfold MVCCKey_IsValue in V.
  destruct (Timestamp_IsEmpty t) eqn:Et; injection E as <-; cbn in *; [|by rewrite Et in V].
  apply (f_equal length) in Ek. revert Ek. clear. unfold Key_Next, BytesNext. rewrite length_app. cbn. lia.
Qed.

Lemma revealed_view it : revealed it (MkMVCCKey key (q_ts p)) = reveal_info rks vs.
Proof.
  destruct (next_exists key m p vs rks ok) as [k Ek]. unfold revealed. rewrite Ek. cbn [mbind res_bind].
  destruct (next_value k Ek) as [->|[-> ->]]; [|done]. set (it1 := SeekGE it k). rewrite (it_Valid it1). cbn [k_Key].
  destruct (seek_below key Nk m p vs rks ok Tm it k Ek) as [[C1 Kk]|(Ekk & C1 & Es & C2)]; fold it1 in C1.
  - pose proof (fun hr => revealed_end it1 _ hr C1 eq_refl) as Be. unfold is_at in Be |- *. rewrite C1 in Be |- *.
    destruct (head vs) as [q|] eqn:Hd; cbn [or_hi mbind res_bind] in *; [|exact (Be false ltac:(done))].
    destruct (head_point key m p vs rks ok q Hd) as (_ & U & Hp & _). rewrite (it_HasPointAndRange it1 q C1), Hp, U, andb_false_r. cbn [mbind res_bind]. by apply Be.
  - fold it1 in C2. unfold is_at. rewrite C1. cbn [mbind res_bind]. rewrite (it_HasPointAndRange it1 _ C1).
    change (q_user (MkPos k None)) with (k_Key k). rewrite Ekk, Es. cbn [has_point q_val negb andb]. rewrite (it_Valid (Next it1)). cbn [mbind res_bind].
    pose proof (fun hr => revealed_end (Next it1) _ hr C2 eq_refl) as Be. unfold is_at in Be |- *. rewrite C2 in Be |- *.
    destruct (head vs) as [q|] eqn:Hd; cbn [or_hi mbind res_bind] in *; [|exact (Be true ltac:(done))].
    destruct (head_point key m p vs rks ok q Hd) as (_ & U & Hp & _). rewrite (it_HasPointAndRange _ q C2), Hp, U. cbn [mbind res_bind]. by apply Be.
Qed.
End Intent.
End Found.
