(* ===== verification/PutOk.v ===== *)
(** Puts and the store.

    A put keeps the store well-formed and does not touch other keys; above everything at the key
    it writes the value, below something it writes above it and says so, and an intent of another
    transaction stops it. *)
From stdpp Require Import sorting.
From S2P Require Import Prelude Bytes GoLib Hlc KeyOps Spans MvccKey RangeKeys MvccValue MvccIter Scanner ScanSpec ScanNav ScanOk PebbleResults ScanRead StoreOps MvccRead MvccReadOk MvccStats MvccWrite WriteSpec WriteOk.

(** * Well-formed stores *)

Lemma stack_at_eq db db' k : stacks db = stacks db' -> stack_at db k = stack_at db' k.
Proof. unfold stack_at. by intros ->. Qed.

Section Stores.
Context `{L : ScanLib}.

Lemma decodes_tombstone b x : DecodeMVCCValue b = Ok x -> EncodedMVCCValueIsTombstone b = Ok (MVCCValue_IsTombstone x).
Proof.
  unfold DecodeMVCCValue, tryDecodeSimpleMVCCValue, EncodedMVCCValueIsTombstone. destruct (length b =? 0)%nat eqn:E0; [by intros [= <-]|].
  destruct (length b <=? 4)%nat; [done|]. destruct (negb _); cbn [mbind res_bind]; [intros [= <-]; unfold MVCCValue_IsTombstone; cbn; by rewrite E0|].
  unfold decodeExtendedMVCCValue. set (n := u32 _). destruct (Z.of_nat (length b) <? n) eqn:E1; [done|]. destruct (n <? 5) eqn:E2; [done|].
  destruct (hdr_Unmarshal _); [|done..]. intros [= <-]. unfold MVCCValue_IsTombstone. cbn [RawBytes]. rewrite length_drop. f_equal. clearbody n. destruct (Z.eqb_spec (Z.of_nat (length b)) n), (Nat.eqb_spec (length b - Z.to_nat n) 0); try done; lia.
Qed.

(** Well-formed: metadata is that of inline values or intents, and versions decode. *)
Record store_ok (db : snapshot) : Prop := {
  so_snapshot : snapshot_ok db;
  so_intents key : intents_ok (points db key) (Versions (stack_at db key));
  so_values : decodable db
}.

Lemma store_metadata db key : store_ok db -> exists ex, metadata_of key (points db key) (Versions (stack_at db key)) = Ok ex.
Proof.
  intros [ok In [De _]]. unfold metadata_of. specialize (In key). destruct (points db key) as [|q vs] eqn:E; [destruct (Versions _); eauto|].
  destruct (Timestamp_IsEmpty (q_ts q)) eqn:Tq.
  - apply IsEmpty_spec in Tq. destruct (In q vs eq_refl Tq) as (meta & -> & _). eauto.
  - apply IsEmpty_false in Tq. destruct (points_versions db ok key q vs E) as (_ & I & _). rewrite Forall_forall in De. destruct (De q I Tq) as [x Dx].
    unfold found_version. rewrite (decodes_tombstone _ x Dx). cbn [mbind res_bind]. eauto.
Qed.

(** The views of one key. *)
Lemma view_eq db db' k : points db k = points db' k -> stack_at db k = stack_at db' k -> prefix_view db k = prefix_view db' k.
Proof. unfold prefix_view. by intros -> ->. Qed.

Lemma view_decodable db key : store_ok db -> decodable (prefix_view db key).
Proof.
  intros [ok _ [D1 D2]]. unfold prefix_view. split.
  - apply Forall_forall. intros q I N. apply view_positions in I as [I|[-> _]]; [|done|by apply points_points_ok]. apply elem_points in I as (I & _). rewrite Forall_forall in D1. by apply D1.
  - unfold key_view. destruct (Versions (stack_at db key)) as [|r rs] eqn:E; [constructor|]. apply Forall_singleton. cbn [Versions]. rewrite <- E.
    destruct (Stack_IsEmpty (stack_at db key)) eqn:Es; [rewrite (stack_at_empty db ok _ Es); constructor|].
    destruct (stack_at_in db key Es) as [I _]. rewrite Forall_forall in D2. by apply D2.
Qed.
End Stores.

(** The newest change of a key without an intent. *)
Definition newest_change (pts : list pos) (rks : MVCCRangeKeyVersions) : Timestamp :=
  match pts with
  | q :: _ => match Versions_FirstAtOrAbove rks (q_ts q) with Some _ => Versions_Newest rks | None => q_ts q end
  | [] => Versions_Newest rks
  end.

Lemma newest_pos key pts rks : points_ok key pts rks -> Forall (fun q => q_ts q <> EmptyTimestamp) pts -> pts <> [] \/ rks <> [] -> ts_pos (newest_change pts rks).
Proof.
  intros Po Fr Ne. destruct (po_stack _ _ _ Po) as [_ Fs]. pose proof (po_points _ _ _ Po) as Pp. unfold newest_change. destruct pts as [|q vs].
  - destruct rks as [|r rs]; [by destruct Ne|]. by apply Forall_cons in Fs as [? _].
  - apply Forall_cons in Pp as [(_ & _ & _ & [T|T]) _], Fr as [N _]; [done|]. destruct (Versions_FirstAtOrAbove rks (q_ts q)) eqn:E; [|done].
    destruct rks as [|r rs]; [|by apply Forall_cons in Fs as [? _]]. done.
Qed.

Lemma newest_below pts rks t : pts <> [] \/ rks <> [] -> Forall (fun q => lt_ts (q_ts q) t) pts -> Forall (fun v => lt_ts (v_Timestamp v) t) rks ->
  lt_ts (newest_change pts rks) t.
Proof.
  intros Ne A1 A2. unfold newest_change. destruct pts as [|q vs].
  - destruct rks as [|r rs]; [by destruct Ne|]. by apply Forall_cons in A2 as [? _].
  - apply Forall_cons in A1 as [? _]. destruct (Versions_FirstAtOrAbove rks (q_ts q)) eqn:E; [|done]. destruct rks as [|r rs]; [done|]. by apply Forall_cons in A2 as [? _].
Qed.

(** * The store after a put *)

Section Puts.
Context `{L : ScanLib} {HL : HeaderLaws} {ML : MetaLaws L} {W : Type} {Wr : Writer W}.
Context (batch_reader : batch -> res (list (bytes * bytes) * option string)).
Context (maxItersBeforeSeek : Z) (fuel : nat) (unlimited : account) (disableSimple : bool) `{!WriterLaws Wr disableSimple}.
Context (key : bytes) (Nk : key <> []) (w : W) (ok : store_ok (w_db w)).
Abbreviation pts := (points (w_db w) key).
Abbreviation rks := (Versions (stack_at (w_db w) key)).

Section Effect.
Context (timestamp : Timestamp) (value : Value) (valueFn : option (option Value -> res (Value + write_error))) (opts : MVCCWriteOptions).
Context (ex : option found) (p : @put_plan W) (r : @put_result W) (v : MVCCValue) (e : bytes) (b : option bytes).
Context (Pe : put_effect disableSimple key w timestamp value valueFn opts ex p r v e b).
Abbreviation db' := (w_db (p_writer r)).

Lemma effect_points k : k <> key -> points db' k = points (w_db w) k.
Proof. intros N. apply (pe_elsewhere _ _ _ _ _ _ _ _ _ _ _ _ _ Pe). by apply elsewhere_points. Qed.
Lemma effect_stack k : stack_at db' k = stack_at (w_db w) k.
Proof. apply stack_at_eq, (pe_stacks _ _ _ _ _ _ _ _ _ _ _ _ _ Pe). Qed.

Lemma effect_intents k : intents_ok (points db' k) (Versions (stack_at db' k)).
Proof.
  rewrite effect_stack. destruct (decide (k = key)) as [->|N]; [|rewrite effect_points by done; apply so_intents, ok].
  rewrite (pe_points _ _ _ _ _ _ _ _ _ _ _ _ _ Pe). intros m vs E T. pose proof (wr_meta _ _ _ _ _ _ _ _ _ (pe_wrote _ _ _ _ _ _ _ _ _ _ _ _ _ Pe)) as Wm.
  unfold changed_points in E. destruct b as [b'|]; cbn [app] in E.
  - destruct Wm as (txn & existed & _ & _ & Et & Um). injection E as <- <-. eexists. split; [exact Um|]. right. split; [done|]. split; [by eexists|].
    eexists _, _. split; [reflexivity|]. cbn [stored_meta new_meta m_Timestamp]. rewrite legacy_roundtrip. split; [done|]. apply (pe_above _ _ _ _ _ _ _ _ _ _ _ _ _ Pe).
  - injection E as <- <-. cbn in T. by destruct (ts_pos_set _ (pe_ts _ _ _ _ _ _ _ _ _ _ _ _ _ Pe)).
Qed.

Lemma committed_in q l : q ∈ committed_of l -> q ∈ l.
Proof. unfold committed_of. destruct l as [|x l]; [done|]. destruct (Timestamp_IsEmpty _); [|done]. intros I%list_elem_of_In. right. destruct l; [done|]. right. by apply list_elem_of_In. Qed.

Lemma effect_decodable : decodable db'.
Proof.
  pose proof (pe_ok _ _ _ _ _ _ _ _ _ _ _ _ _ Pe) as ok'. destruct (so_values _ ok) as [D1 D2]. split.
  2:{ by rewrite (pe_stacks _ _ _ _ _ _ _ _ _ _ _ _ _ Pe). }
  rewrite Forall_forall in D1. apply Forall_forall. intros q I N. assert (Hp : has_point q = true).
  { unfold has_point. destruct (q_val q) eqn:V; [done|]. by destruct (ok_bare _ ok' q I V) as [Tx _]. }
  assert (Iq : q ∈ points db' (q_user q)) by (by apply elem_points). destruct (decide (q_user q = key)) as [E|E].
  - rewrite E, (pe_points _ _ _ _ _ _ _ _ _ _ _ _ _ Pe) in Iq. unfold changed_points in Iq. apply elem_of_app in Iq as [Iq|Iq].
    + destruct b; [|by apply elem_of_nil in Iq]. apply list_elem_of_singleton in Iq as ->. done.
    + apply elem_of_cons in Iq as [->|Iq]; [exists v; apply (wr_decodes _ _ _ _ _ _ _ _ _ (pe_wrote _ _ _ _ _ _ _ _ _ _ _ _ _ Pe))|].
      apply committed_in, elem_points in Iq as (Iq & _). by apply D1.
  - rewrite effect_points in Iq by done. apply elem_points in Iq as (Iq & _). by apply D1.
Qed.

Lemma effect_store : store_ok db'.
Proof. split; [apply (pe_ok _ _ _ _ _ _ _ _ _ _ _ _ _ Pe)|apply effect_intents|apply effect_decodable]. Qed.

(** The history of the intent holds values that were stored. *)
Lemma effect_history : intents_described disableSimple (w_db w) -> Forall (fun h => exists v, encodes disableSimple v (h_Value h)) (pp_history p).
Proof.
  intros Id. pose proof (pe_history _ _ _ _ _ _ _ _ _ _ _ _ _ Pe) as Ph. specialize (Id key). destruct pts as [|m [|q vs]]; [rewrite Ph; constructor..|].
  destruct (Timestamp_IsEmpty (q_ts m)) eqn:Tm; [|rewrite Ph; constructor]. apply IsEmpty_spec in Tm. destruct (Id m (q :: vs) eq_refl Tm) as (meta & Um & txn & De).
  apply Forall_forall. intros h Ih. destruct (Ph meta h Um Ih) as [I| ->]; [|destruct (de_value _ _ _ _ _ De) as (x & Ex & _); by exists x].
  pose proof (de_history _ _ _ _ _ De) as F. rewrite Forall_forall in F. by apply F.
Qed.

Lemma effect_described : intents_described disableSimple (w_db w) -> intents_described disableSimple db'.
Proof.
  intros Id k m l E T. pose proof (effect_history Id) as Eh. destruct (decide (k = key)) as [->|N]; [|rewrite effect_points in E by done; by apply (Id k)].
  rewrite (pe_points _ _ _ _ _ _ _ _ _ _ _ _ _ Pe) in E. pose proof (pe_wrote _ _ _ _ _ _ _ _ _ _ _ _ _ Pe) as Wr0.
  pose proof (wr_meta _ _ _ _ _ _ _ _ _ Wr0) as Wm. unfold changed_points in E. destruct b as [b'|]; cbn [app] in E.
  - destruct Wm as (txn & existed & _ & _ & Et & Um). injection E as <- <-. eexists. split; [exact Um|]. eexists.
    split; cbn [stored_meta new_meta m_Txn m_Timestamp m_KeyBytes m_ValBytes m_Deleted m_IntentHistory]; try done.
    + apply legacy_roundtrip.
    + symmetry. apply (wr_size _ _ _ _ _ _ _ _ _ Wr0).
    + exists v. split; [apply (wr_encodes _ _ _ _ _ _ _ _ _ Wr0)|done].
  - injection E as <- <-. cbn in T. by destruct (ts_pos_set _ (pe_ts _ _ _ _ _ _ _ _ _ _ _ _ _ Pe)).
Qed.
End Effect.

(** ** Puts that succeed *)

Lemma txn_at_forward txn n (wt := t_WriteTimestamp (tx_Meta txn)) :
  t_WriteTimestamp (txn_at txn (Timestamp_Forward wt n).1) = (Timestamp_Forward wt n).1.
Proof.
  unfold txn_at. fold wt. destruct (Timestamp_Equal wt _) eqn:E; [by apply Timestamp_Equal_spec in E|]. cbn [t_WriteTimestamp].
  revert E. unfold Timestamp_Forward. destruct (Timestamp_Less wt n) eqn:L1; cbn [fst]; [by rewrite L1|]. clear.
  destruct (Timestamp_EqOrdering wt n) eqn:Eo; cbn [fst]; [|by rewrite (proj2 (Timestamp_Equal_spec wt wt))]. intros _.
  unfold Timestamp_Less, Timestamp_EqOrdering. destruct wt as [a b0 c]; cbn. rewrite !Z.ltb_irrefl, !Z.eqb_refl. cbn. by destruct c, (Synthetic n).
Qed.
Lemma txn_at_same txn (wt := t_WriteTimestamp (tx_Meta txn)) : t_WriteTimestamp (txn_at txn wt) = wt.
Proof. unfold txn_at. fold wt. by rewrite (proj2 (Timestamp_Equal_spec wt wt)). Qed.

Lemma put_version_total opts ex (p : @put_plan W) (ts := pp_writeTimestamp p) : ts <> EmptyTimestamp -> value_ok opts (pp_value p) -> Synthetic (w_LocalTimestamp opts) = false ->
  match w_Txn opts with Some txn => t_WriteTimestamp (txn_at txn ts) = ts | None => True end -> exists r, put_version disableSimple key opts ex p = Ok r.
Proof.
  intros Nt Vo Sy Tx. unfold put_version. cbn [k_Timestamp]. fold ts.
  assert (exists v, version_value opts (pp_writer p) (pp_value p) ts = Ok v) as [v Ev].
  { unfold version_value, LocalTimestampNeeded. cbn [vHeader LocalTimestamp]. destruct (Timestamp_IsEmpty _); cbn [negb mbind res_bind]; [by eexists|].
    unfold ClockTimestamp_ToTimestamp. rewrite Sy. cbn [mbind res_bind]. by eexists. }
  rewrite Ev. cbn [mbind res_bind]. destruct (version_value_ok _ _ _ _ _ Vo Ev) as (Rv & Wv & Vv & _). destruct (DecodeMVCCValue_enc disableSimple v Wv Vv) as (e & Ee & _).
  assert (Pm : forall w1, exists w2, PutMVCC w1 (MkMVCCKey key ts) v = Ok w2) by (intros w1; destruct (w_PutMVCC w1 (MkMVCCKey key ts) v e Nt Ee) as (w2 & ? & _); eauto).
  destruct (w_Txn opts) as [txn|]; cbn [fmap option_fmap option_map mbind res_bind].
  - unfold putIntentMeta. cbn [new_meta m_Timestamp]. rewrite legacy_roundtrip, Tx, (proj2 (Timestamp_Equal_spec ts ts)) by done. cbn [negb].
    match goal with |- context [MarshalMeta ?m] => destruct (meta_marshals m) as (mb & -> & _) end. cbn [mbind res_bind].
    destruct (w_PutIntent (pp_writer p) (k_Key (MakeMVCCMetadataKey key)) mb (t_ID (txn_at txn ts))) as (w1 & -> & _). cbn [mbind res_bind].
    destruct (Pm w1) as [w2 ->]. cbn [mbind res_bind]. destruct ex; by eexists.
  - destruct (Pm (pp_writer p)) as [w2 ->]. cbn [mbind res_bind]. destruct ex; by eexists.
Qed.

(** ** Keys without an intent *)

Section Fresh.
Context `{!ScanLaws L} (batch_reads : forall b, batch_reader b = Ok (batch_entries b, None)) (nonneg : 0 <= maxItersBeforeSeek).
Context {It : Type} {M : MVCCIterator It} `{!IteratorLaws M (prefix_view (w_db w) key)}.
Context (fresh : Forall (fun q => q_ts q <> EmptyTimestamp) pts).

Lemma fresh_head : match pts with q :: _ => q_ts q <> EmptyTimestamp | [] => True end.
Proof. destruct pts; [done|]. by apply Forall_cons in fresh as [? _]. Qed.

Lemma fresh_found ex : metadata_of key pts rks = Ok ex ->
  match ex with
  | Some f =>
      m_Txn (f_meta f) = None /\ IsInline (f_meta f) = false /\ m_IntentHistory (f_meta f) = [] /\
      LegacyTimestamp_ToTimestamp (m_Timestamp (f_meta f)) = newest_change pts rks /\ (pts <> [] \/ rks <> [])
  | None => pts = [] /\ rks = []
  end.
Proof.
  pose proof fresh_head as Fh. unfold metadata_of, newest_change. destruct pts as [|q vs].
  - destruct rks as [|v vs]; intros [= <-]; [done|]. cbn. rewrite legacy_roundtrip. split_and!; try done. by right.
  - rewrite (proj2 (IsEmpty_false (q_ts q)) Fh). intros (f & Ef & [= <-])%res_bind_inv. apply res_bind_inv in Ef as (tomb & _ & [= <-]).
    destruct (Versions_FirstAtOrAbove rks (q_ts q)); cbn; rewrite legacy_roundtrip; (split_and!; try done; by left).
Qed.

(** A read at the key: what it returns, deletions included. *)
Definition existing_options : MVCCGetOptions := MkGetOptions false false true false None (MkInterval EmptyTimestamp EmptyTimestamp) unlimited false 0 0 false.
Definition existing (t : Timestamp) : option Value :=
  (fun x => MkValue x.2 (k_Timestamp x.1)) <$> head (got (get_config maxItersBeforeSeek key t existing_options) (prefix_view (w_db w) key)).

(** What is at the key fits the buffers of a read, which goes over it with the fuel. *)
Record reads_ok (t : Timestamp) : Prop := {
  ro_time : ts_pos t;
  ro_fuel : (length pts + 2 <= fuel)%nat;
  ro_sizes : Forall (fun x => kv_ok (kv_of x) /\ ts_wf (k_Timestamp x.1)) (got (get_config maxItersBeforeSeek key t existing_options) (prefix_view (w_db w) key))
}.

Lemma view_length : (length (positions (prefix_view (w_db w) key)) <= length pts + 1)%nat.
Proof. unfold prefix_view, key_view. destruct rks; [cbn; lia|]. cbn [positions]. destruct pts as [|p0 l0]; [cbn; lia|]. destruct (Timestamp_IsEmpty _); cbn; lia. Qed.

Lemma fresh_view t (view := prefix_view (w_db w) key) (c := get_config maxItersBeforeSeek key t existing_options) : reads_ok t ->
  snapshot_ok view /\ Forall (fun q => q_user q = key) (positions view) /\ (length (positions view) + 1 <= fuel)%nat /\ 0 <= WallTime t /\
  plain_get t existing_options /\ decodable view /\ verdict_of c view key <> Fails /\ conflicting c view key = [].
Proof.
  intros [Pt Fu Sz]. pose proof (points_points_ok _ key (so_snapshot _ ok)) as Po. pose proof (view_ok key Nk pts rks Po) as Vo. pose proof view_length as Vl. fold view in Vl.
  assert (Co : committed view).
  { apply Forall_forall. intros q I H. apply view_positions in I as [I|[-> _]]; [|done|done]. rewrite Forall_forall in fresh. by apply fresh. }
  split_and!; try done.
  - apply (view_users key pts rks Po).
  - lia.
  - by apply ts_pos_wall.
  - split; try done. apply not_true_is_false. intros B. destruct Pt as (_ & B2 & _). by apply (lt_ts_irrefl t), (lt_ts_trans _ EmptyTimestamp).
  - by apply view_decodable.
  - rewrite committed_verdict by done. unfold look. by destruct (head _).
  - by apply committed_conflict.
Qed.

Lemma get_existing (it : It) t : reads_ok t -> get_value batch_reader maxItersBeforeSeek fuel unlimited it key t false None = Ok (inl (existing t)).
Proof.
  intros Ro. destruct (fresh_view t Ro) as (V1 & V2 & V3 & V4 & V5 & V6 & V7 & V8). unfold get_value. fold existing_options.
  rewrite (mvccGet_reads batch_reader batch_reads maxItersBeforeSeek nonneg it _ fuel key t existing_options V1 V2 V3 Nk V4 V5 V6 V7 (ro_sizes t Ro)).
  cbn [mbind res_bind]. by rewrite V8.
Qed.

(** The same as a get would return it. *)
Lemma MVCCGet_existing NewMVCCIterator t : reads_ok t ->
  exists g, MVCCGet batch_reader maxItersBeforeSeek fuel NewMVCCIterator key t existing_options = Ok (inl g) /\ gr_Value g = existing t.
Proof.
  intros Ro. destruct (fresh_view t Ro) as (V1 & V2 & V3 & V4 & V5 & V6 & V7 & V8).
  rewrite (get_reads_value batch_reader batch_reads maxItersBeforeSeek nonneg NewMVCCIterator _ fuel key t existing_options V1 V2 V3 Nk V4 V5 V6 V7 (ro_sizes t Ro)), V8.
  eexists. split; [reflexivity|]. unfold existing. by destruct (got _ _).
Qed.

(** The puts. *)
Section Put.
Context (timestamp : Timestamp) (Nt : timestamp <> EmptyTimestamp) (value : Value) (valueFn : option (option Value -> res (Value + write_error)))
  (opts : MVCCWriteOptions) (Times : times_ok opts timestamp) (Values : values_ok opts value valueFn) (Rq : request timestamp value opts).
Abbreviation put it := (mvccPutInternal batch_reader maxItersBeforeSeek fuel unlimited disableSimple w (Some it) key timestamp value valueFn opts).
Abbreviation rt := (write_times opts timestamp).1.
Abbreviation wt := (write_times opts timestamp).2.

Lemma fresh_inline ex : metadata_of key pts rks = Ok ex -> match ex with Some f => IsInline (f_meta f) = false | None => True end.
Proof. intros F%fresh_found. destruct ex; [|done]. apply F. Qed.

(** Nothing is at or above the read timestamp. *)
Lemma fresh_above (it : It) : Forall (fun q => lt_ts (q_ts q) rt) pts -> Forall (fun v => lt_ts (v_Timestamp v) rt) rks -> (is_Some valueFn -> reads_ok rt) ->
  exists ex er, put it =
    (try v ← stop_at w (match valueFn with Some f => f (existing rt) | None => Ok (inl value) end);
     r ← put_version disableSimple key opts ex (MkPlan w v wt er false 0 [] None (op_type opts)); Ok (inl r)).
Proof.
  intros A1 A2 Ro. destruct (store_metadata _ key ok) as [ex Em]. pose proof (fresh_found ex Em) as Fo.
  destruct (put_runs batch_reader maxItersBeforeSeek fuel unlimited disableSimple key Nk w (so_snapshot _ ok) timestamp Nt value valueFn opts it ex Rq Em (fresh_inline ex Em))
    as [it' ->]. unfold put_over. exists ex. destruct ex as [f|].
  - destruct Fo as (-> & _ & Hh & Em' & Ne). exists (negb (m_Deleted (f_meta f))). unfold plan_over_version. rewrite Em', Hh.
    assert (Timestamp_LessEq rt (newest_change pts rks) = false) as ->.
    { rewrite LessEq_negb. apply negb_false_iff. by apply newest_below. }
    unfold maybeGetValue. destruct valueFn as [fn|]; [|done]. rewrite get_existing by (by apply Ro). cbn [stop_at try_bind mbind res_bind]. by destruct (fn _) as [[]| |].
  - exists false. destruct Fo as [Ep Er]. destruct valueFn as [fn|]; [|done]. enough (existing rt = None) as -> by done.
    unfold existing, prefix_view. by rewrite Ep, Er.
Qed.

(** Something is. *)
Lemma fresh_below (it : It) n (ts := (Timestamp_Forward wt n).1) (t := match w_Txn opts with None => ts | Some _ => rt end) :
  pts <> [] \/ rks <> [] -> le_ts rt (newest_change pts rks) -> Timestamp_Next (newest_change pts rks) = Ok n -> reads_ok t ->
  exists f, put it =
    (try '(v, er) ← stop_at w (exReplacedFn value valueFn (existing t));
     r ← put_version disableSimple key opts (Some f) (MkPlan w v ts er false 0 [] (Some (WriteTooOldError rt ts key)) (op_type opts)); Ok (inl r)).
Proof.
  intros Ne Le En Ro. destruct (store_metadata _ key ok) as [ex Em]. pose proof (fresh_found ex Em) as Fo.
  destruct (put_runs batch_reader maxItersBeforeSeek fuel unlimited disableSimple key Nk w (so_snapshot _ ok) timestamp Nt value valueFn opts it ex Rq Em (fresh_inline ex Em))
    as [it' ->]. unfold put_over. destruct ex as [f|]; [|by destruct Fo as [E1 E2], Ne as [N|N]]. exists f. destruct Fo as (-> & _ & Hh & Em' & _). unfold plan_over_version.
  rewrite Em', Hh. unfold le_ts in Le. rewrite Le, En. cbn [mbind res_bind]. fold ts t. rewrite get_existing by done. cbn [stop_at try_bind mbind res_bind].
  by destruct (exReplacedFn _ _ _) as [[[]|]| |].
Qed.
End Put.
End Fresh.

(** ** What a put leaves *)

(** [db'] is [db] with a version of the value at the timestamp above what was committed at the
    key, and with the intent in a transaction; stacks and other keys are as they were. *)
Definition put_at (db db' : snapshot) (txn : option Transaction) (ts : Timestamp) (raw : bytes) : Prop :=
  exists v e b, DecodeMVCCValue e = Ok v /\ RawBytes v = raw /\ points db' key = changed_points key (points db key) ts e b /\
    above_all (points db key) (Versions (stack_at db key)) ts /\ stacks db' = stacks db /\ (forall k, k <> key -> points db' k = points db k) /\
    match txn, b with
    | Some t, Some b =>
        exists m mt, b <> [] /\ UnmarshalMeta b = Ok m /\ IsInline m = false /\ LegacyTimestamp_ToTimestamp (m_Timestamp m) = ts /\ m_Txn m = Some mt /\
          t_ID mt = t_ID (tx_Meta t) /\ t_Epoch mt = t_Epoch (tx_Meta t) /\ t_Sequence mt = t_Sequence (tx_Meta t) /\ t_WriteTimestamp mt = ts
    | None, None => True
    | _, _ => False
    end.

Lemma effect_put_at timestamp value valueFn opts ex p r v e b : put_effect disableSimple key w timestamp value valueFn opts ex p r v e b ->
  put_at (w_db w) (w_db (p_writer r)) (w_Txn opts) (pp_writeTimestamp p) (val_RawBytes (pp_value p)).
Proof.
  intros Pe. pose proof (pe_wrote _ _ _ _ _ _ _ _ _ _ _ _ _ Pe) as Wr0. exists v, e, b. split_and!.
  - apply Wr0.
  - apply (wr_raw _ _ _ _ _ _ _ _ _ Wr0).
  - apply (pe_points _ _ _ _ _ _ _ _ _ _ _ _ _ Pe).
  - apply (pe_above _ _ _ _ _ _ _ _ _ _ _ _ _ Pe).
  - apply (pe_stacks _ _ _ _ _ _ _ _ _ _ _ _ _ Pe).
  - intros k N. by eapply effect_points.
  - pose proof (wr_meta _ _ _ _ _ _ _ _ _ Wr0) as Wm. destruct b as [b'|]; [|by rewrite Wm]. destruct Wm as (txn & existed & -> & Nb & Et & Um).
    eexists _, _. split; [done|]. split; [exact Um|]. split; [done|]. cbn [stored_meta new_meta m_Timestamp m_Txn]. rewrite legacy_roundtrip.
    split; [done|]. split; [done|]. unfold txn_at in *. by destruct (Timestamp_Equal _ _).
Qed.

Lemma fresh_done {It} {M : MVCCIterator It} `{!IteratorLaws M (prefix_view (w_db w) key)} timestamp value valueFn opts (it : It) r
    (rt := (write_times opts timestamp).1) (wt := (write_times opts timestamp).2) :
  Forall (fun q => q_ts q <> EmptyTimestamp) pts -> timestamp <> EmptyTimestamp -> times_ok opts timestamp -> values_ok opts value valueFn ->
  mvccPutInternal batch_reader maxItersBeforeSeek fuel unlimited disableSimple w (Some it) key timestamp value valueFn opts = Ok (inl r) ->
  exists ts v, put_at (w_db w) (w_db (p_writer r)) (w_Txn opts) ts (val_RawBytes v) /\ value_from value valueFn v /\
    ((pts <> [] \/ rks <> []) /\ le_ts rt (newest_change pts rks) /\ (exists n, Timestamp_Next (newest_change pts rks) = Ok n /\ ts = (Timestamp_Forward wt n).1) /\
     p_tooOld r = Some (WriteTooOldError rt ts key) \/
     (lt_ts (newest_change pts rks) rt \/ pts = [] /\ rks = []) /\ ts = wt /\ p_tooOld r = None).
Proof.
  intros Fr Nt Times Values H.
  destruct (put_changes batch_reader maxItersBeforeSeek fuel unlimited disableSimple key Nk w (so_snapshot _ ok) (so_intents _ ok key) timestamp Nt value valueFn opts
    Times Values it r H) as [[-> (f & mt & txn & Em & Et & _)]|(ex & p & v & e & b & Pe)].
  { destruct (fresh_found Fr _ Em) as (N & _). congruence. }
  exists (pp_writeTimestamp p), (pp_value p). split; [by eapply effect_put_at|]. split; [apply (pe_value _ _ _ _ _ _ _ _ _ _ _ _ _ Pe)|].
  pose proof (fresh_found Fr _ (pe_found _ _ _ _ _ _ _ _ _ _ _ _ _ Pe)) as Ff. pose proof (pe_outcome _ _ _ _ _ _ _ _ _ _ _ _ _ Pe) as Out.
  rewrite (wr_tooOld _ _ _ _ _ _ _ _ _ (pe_wrote _ _ _ _ _ _ _ _ _ _ _ _ _ Pe)). destruct ex as [f|].
  - destruct Ff as (N & _ & _ & Em & Ne). cbv zeta in Out. unfold has_txn in Out. rewrite N, Em in Out. fold rt wt in Out.
    destruct (Timestamp_LessEq rt _) eqn:Le; [by left; destruct Out|]. right. split; [left; by apply not_le_lt|]. done.
  - right. split; [by right|]. done.
Qed.
End Puts.

(** * The properties *)

Section Claims.
Context `{L : ScanLib} {HL : HeaderLaws} {ML : MetaLaws L} {W : Type} {Wr : Writer W}.
Context (batch_reader : batch -> res (list (bytes * bytes) * option string)).
Context (maxItersBeforeSeek : Z) (fuel : nat) (unlimited : account) (disableSimple : bool) `{!WriterLaws Wr disableSimple}.
Context (w : W) (key : bytes) {It : Type} {M : MVCCIterator It} `{!IteratorLaws M (prefix_view (w_db w) key)}.
Context (timestamp : Timestamp) (value : Value) (opts : MVCCWriteOptions).
Abbreviation pts := (points (w_db w) key).
Abbreviation rks := (Versions (stack_at (w_db w) key)).
Abbreviation rt := (write_times opts timestamp).1.
Abbreviation wt := (write_times opts timestamp).2.

(** C3: Puts keep the store well-formed.  After a put, a deletion, a conditional put or an initial
    put at a timestamp, keys are sorted, the metadata of a key is that of an intent on its newest
    version above all range tombstones, with its timestamp, sizes and history, and all versions
    decode; and every other key is as it was, its range tombstones included. *)
Theorem put_keeps_store valueFn (it : It) r :
  store_ok (w_db w) -> intents_described disableSimple (w_db w) -> key <> [] -> timestamp <> EmptyTimestamp -> times_ok opts timestamp -> values_ok opts value valueFn ->
  mvccPutInternal batch_reader maxItersBeforeSeek fuel unlimited disableSimple w (Some it) key timestamp value valueFn opts = Ok (inl r) ->
  store_ok (w_db (p_writer r)) /\ intents_described disableSimple (w_db (p_writer r)) /\
  forall k, k <> key -> prefix_view (w_db (p_writer r)) k = prefix_view (w_db w) k.
Proof.
  intros ok Id Nk Nt Times Values H.
  destruct (put_changes batch_reader maxItersBeforeSeek fuel unlimited disableSimple key Nk w (so_snapshot _ ok) (so_intents _ ok key) timestamp Nt value valueFn opts
    Times Values it r H) as [[-> _]|(ex & p & v & e & b & Pe)]; [done|].
  split; [by eapply effect_store|]. split; [by eapply effect_described|]. intros k N. apply view_eq; [by eapply effect_points|by eapply effect_stack].
Qed.

(** C13: A put above everything at its key.  If the key has no intent and nothing committed, range
    tombstones included, at or above the read timestamp, [MVCCPut] succeeds and writes the value
    at the write timestamp, with the intent in a transaction, and nothing else. *)
Theorem MVCCPut_writes `{!ScanLaws L} NewMVCCIterator :
  (forall b, batch_reader b = Ok (batch_entries b, None)) -> 0 <= maxItersBeforeSeek ->
  store_ok (w_db w) -> key <> [] -> timestamp <> EmptyTimestamp -> times_ok opts timestamp -> value_ok opts value -> request timestamp value opts ->
  Forall (fun q => q_ts q <> EmptyTimestamp) pts -> Forall (fun q => lt_ts (q_ts q) rt) pts -> Forall (fun v => lt_ts (v_Timestamp v) rt) rks ->
  exists r, MVCCPut batch_reader maxItersBeforeSeek fuel unlimited disableSimple NewMVCCIterator w key timestamp value opts = Ok (inl r) /\
    p_tooOld r = None /\ put_at key (w_db w) (w_db (p_writer r)) (w_Txn opts) wt (val_RawBytes value).
Proof.
  intros Br Nn ok Nk Nt Times Vo Rq Fr A1 A2. unfold MVCCPut, mvccPutUsingIter. rewrite (proj2 (IsEmpty_false timestamp) Nt), andb_false_r. cbn [negb].
  set (it := write_iterator _ _ _).
  destruct (fresh_above batch_reader maxItersBeforeSeek fuel unlimited disableSimple key Nk w ok Br Nn Fr timestamp Nt value None opts Vo Rq it A1 A2)
    as (ex & er & E); [by intros []|]. cbn [stop_at try_bind mbind res_bind] in E.
  destruct (put_version_total disableSimple key opts ex (MkPlan w value wt er false 0 [] None (op_type opts))) as [r Er]; cbn; try done.
  { apply ts_pos_set, Times. }
  { apply Rq. }
  { unfold write_times. destruct (w_Txn opts); [|done]. apply txn_at_same. }
  rewrite Er in E. cbn [mbind res_bind] in E. exists r. split; [exact E|].
  destruct (fresh_done batch_reader maxItersBeforeSeek fuel unlimited disableSimple key Nk w ok timestamp value None opts it r Fr Nt Times Vo E) as (ts & v & At & Ev & Out).
  cbn in Ev. rewrite Ev in At. destruct Out as [(Ne & Le & _)|(_ & -> & To)]; [|done].
  pose proof (newest_below _ _ _ Ne A1 A2) as Lt. unfold le_ts, lt_ts in *. by rewrite LessEq_negb, Lt in Le.
Qed.

(** C18: A put that is too old.  If the key has no intent but a version or a range tombstone at or
    above the read timestamp, [MVCCPut] writes the value just above the newest of them, or at the
    write timestamp if that is higher, and reports the timestamp in a [WriteTooOldError]. *)
Theorem MVCCPut_too_old `{!ScanLaws L} NewMVCCIterator n (ts := (Timestamp_Forward wt n).1) :
  (forall b, batch_reader b = Ok (batch_entries b, None)) -> 0 <= maxItersBeforeSeek ->
  store_ok (w_db w) -> key <> [] -> timestamp <> EmptyTimestamp -> times_ok opts timestamp -> value_ok opts value -> request timestamp value opts ->
  Forall (fun q => q_ts q <> EmptyTimestamp) pts -> pts <> [] \/ rks <> [] -> le_ts rt (newest_change pts rks) ->
  Timestamp_Next (newest_change pts rks) = Ok n -> reads_ok maxItersBeforeSeek fuel unlimited disableSimple key w (match w_Txn opts with None => ts | Some _ => rt end) ->
  exists r, MVCCPut batch_reader maxItersBeforeSeek fuel unlimited disableSimple NewMVCCIterator w key timestamp value opts = Ok (inl r) /\
    p_tooOld r = Some (WriteTooOldError rt ts key) /\ lt_ts (newest_change pts rks) ts /\ le_ts wt ts /\
    put_at key (w_db w) (w_db (p_writer r)) (w_Txn opts) ts (val_RawBytes value).
Proof.
  intros Br Nn ok Nk Nt Times Vo Rq Fr Ne Le En Ro. unfold MVCCPut, mvccPutUsingIter. rewrite (proj2 (IsEmpty_false timestamp) Nt), andb_false_r. cbn [negb].
  set (it := write_iterator _ _ _).
  destruct (fresh_below batch_reader maxItersBeforeSeek fuel unlimited disableSimple key Nk w ok Br Nn Fr timestamp Nt value None opts Rq it n Ne Le En Ro) as (f & E).
  cbn [stop_at exReplacedFn try_bind mbind res_bind] in E. fold ts in E.
  destruct (next_pos _ n (newest_pos key _ _ (points_points_ok _ key (so_snapshot _ ok)) Fr Ne) En) as [Pn Ln].
  assert (Pt : ts_pos ts) by (apply forward_pos; [apply Times|done]).
  match type of E with context [put_version _ _ _ ?ex ?p] => destruct (put_version_total disableSimple key opts ex p) as [r Er] end; cbn; try done.
  { by apply ts_pos_set. }
  { apply Rq. }
  { subst ts. unfold write_times. destruct (w_Txn opts); [|done]. apply txn_at_forward. }
  rewrite Er in E. cbn [mbind res_bind] in E. exists r. split; [exact E|].
  destruct (fresh_done batch_reader maxItersBeforeSeek fuel unlimited disableSimple key Nk w ok timestamp value None opts it r Fr Nt Times Vo E) as (ts' & v & At & Ev & Out).
  cbn in Ev. rewrite Ev in At. destruct Out as [(_ & _ & (n' & En' & ->) & To)|([Lt|[E1 E2]] & _)].
  - rewrite En in En'. injection En' as <-. fold ts in At, To. split; [done|].
    pose proof (Forward_spec wt n) as Fs. unfold ts in *. destruct (Timestamp_Forward wt n) as [t0 mv]. destruct Fs as (F1 & F2 & _). cbn [fst] in *.
    split_and!; try done. by eapply lt_le_ts_trans.
  - unfold le_ts, lt_ts in *. by rewrite LessEq_negb, Lt in Le.
  - by destruct Ne as [N|N].
Qed.

(** C15: An intent of another transaction stops every write.  A put, a deletion, a conditional put
    or an initial put on a key with an intent that is not of the writing transaction returns a
    [WriteIntentError] that names the intent, with the writer as it was: nothing has been
    written. *)
Theorem put_stops_at_intent valueFn (it : It) m vs meta metaTxn :
  store_ok (w_db w) -> key <> [] -> timestamp <> EmptyTimestamp -> request timestamp value opts ->
  pts = m :: vs -> q_ts m = EmptyTimestamp -> UnmarshalMeta (default [] (q_val m)) = Ok meta -> IsInline meta = false -> m_Txn meta = Some metaTxn ->
  match w_Txn opts with Some txn => t_ID metaTxn <> t_ID (tx_Meta txn) | None => True end ->
  mvccPutInternal batch_reader maxItersBeforeSeek fuel unlimited disableSimple w (Some it) key timestamp value valueFn opts =
    Ok (inr (OfRead (WriteIntentError [MkIntent key metaTxn]), w)).
Proof.
  intros ok Nk Nt Rq Ep Tm Um In Mt Tx.
  set (f := MkFound meta (MVCCKey_EncodedSize (q_key m)) (blen (default [] (q_val m))) (LegacyTimestamp_ToTimestamp (m_Timestamp meta))).
  assert (Em : metadata_of key pts rks = Ok (Some f)). { rewrite Ep. unfold metadata_of. rewrite (proj2 (IsEmpty_spec _) Tm), Um. done. }
  destruct (put_runs batch_reader maxItersBeforeSeek fuel unlimited disableSimple key Nk w (so_snapshot _ ok) timestamp Nt value valueFn opts it (Some f) Rq Em In) as [it' ->].
  unfold put_over, plan_over_intent. cbn [f f_meta]. rewrite Mt. destruct (w_Txn opts) as [txn|]; [|done].
  assert (beqb (t_ID metaTxn) (t_ID (tx_Meta txn)) = false) as ->; [|done]. apply not_true_is_false. by intros ?%beqb_true.
Qed.
End Claims.
