(* ===== verification/ResolveOk.v ===== *)
(** What the resolution of an intent does to the store.

    A committed intent leaves its version, at the timestamp of the commit; a pushed one is moved;
    an aborted one leaves what was committed below it; and writes that were rolled back give way
    to the last one that was not. *)
From stdpp Require Import sorting.
From S2P Require Import Prelude Bytes GoLib Hlc KeyOps Spans MvccKey RangeKeys MvccValue MvccIter Scanner ScanSpec ScanNav ScanRead StoreOps MvccRead MvccStats MvccWrite MvccResolve WriteSpec WriteOk ResolveSpec PutOk.

(** * Changes to the points of an intent *)

Lemma fragmented_stacks db db' : stacks db' = stacks db -> fragmented db -> fragmented db'.
Proof.
  intros E [F1 F2]. assert (Es : forall k, stack_at db' k = stack_at db k) by (intros k; unfold stack_at; by rewrite E).
  split; rewrite E; [intros s k I C; rewrite Es; by apply F1|done].
Qed.

Section Store.
Context (db : snapshot) (ok : snapshot_ok db) (frag : fragmented db) (key : bytes) (Nk : key <> []) (m q : pos) (vs : list pos).
Context (Ep : points db key = m :: q :: vs) (Tm : q_ts m = EmptyTimestamp).
Abbreviation metaKey := (MkMVCCKey key EmptyTimestamp).
Abbreviation oldKey := (MkMVCCKey key (q_ts q)).

Lemma shape : q_user m = key /\ q_user q = key /\ q_ts q <> EmptyTimestamp /\ ts_pos (q_ts q) /\
  Forall (fun x => q_user x = key /\ q_ts x <> EmptyTimestamp) vs /\ Forall (fun x => lt_ts (q_ts x) (q_ts q)) vs.
Proof.
  pose proof (points_points_ok _ key ok) as Po. rewrite Ep in Po. set (rks := Versions (stack_at db key)) in *. destruct (intent_point key m q vs rks Po m) as (Um & _); [left|].
  destruct (intent_point key m q vs rks Po q) as (Uq & _); [right; left|]. destruct (intent_version key m q vs rks Po q) as (Nq & Pq); [left|].
  split_and!; try done; apply Forall_forall; intros x I.
  - destruct (intent_point key m q vs rks Po x) as (Ux & _); [by right; right|]. destruct (intent_version key m q vs rks Po x) as (Nx & _); [by right|]. done.
  - by apply (intent_below key m q vs rks Po).
Qed.

(** The version as it is, or with another value. *)
Definition version_at (v : bytes) : pos := MkPos oldKey (Some v).
Definition rolled (raw : option bytes) : snapshot := match raw with Some v => put_point db oldKey v | None => db end.
Definition rolled_value (raw : option bytes) : bytes := match raw with Some v => v | None => default [] (q_val q) end.

Lemma q_version : q = version_at (default [] (q_val q)).
Proof.
  destruct shape as (_ & Uq & _). pose proof (points_points_ok _ key ok) as Po. rewrite Ep in Po.
  pose proof (at_value key _ _ Po q ltac:(right; left)) as V. unfold version_at, q_user, q_ts in *. destruct q as [[k t] v]; cbn in *. subst k. by rewrite <- V.
Qed.

Lemma rolled_points raw : points (rolled raw) key = m :: version_at (rolled_value raw) :: vs.
Proof.
  destruct shape as (Um & Uq & Nq & _ & F1 & F2). destruct raw as [v|]; cbn [rolled rolled_value]; [|by rewrite Ep, <- q_version].
  rewrite points_put_at, Ep, (put_under_meta key (q_ts q) v Nq m) by done. f_equal.
  apply put_replaces; [done|apply same_version; try done; unfold Timestamp_EqOrdering; by rewrite !Z.eqb_refl|by apply older_versions].
Qed.

Lemma rolled_but raw : ok_but key (rolled raw) /\ stacks (rolled raw) = stacks db.
Proof.
  destruct shape as (_ & _ & _ & Pq & _). destruct raw as [v|]; cbn [rolled]; [|split; [by apply ok_ok_but|done]]. split; [|done].
  apply (put_but db oldKey v (ok_ok_but key db ok)). split; [done|by right].
Qed.

Lemma rolled_elsewhere raw pr : elsewhere metaKey pr -> List.filter pr (positions (rolled raw)) = List.filter pr (positions db).
Proof. intros El. destruct raw as [v|]; [|done]. by apply put_elsewhere; [apply ok|]. Qed.

(** The version moved to a higher timestamp. *)
Section Move.
Context (raw : option bytes) (ts : Timestamp) (Pt : ts_pos ts) (Lt : lt_ts (q_ts q) ts) (e : bytes).
Definition moved : snapshot := clear_point (put_point (rolled raw) (MkMVCCKey key ts) e) oldKey.

Lemma above_version : MVCCKey_Less (MkMVCCKey key ts) oldKey = true.
Proof. apply Less_spec. right. split; [done|]. right. destruct shape as (_ & _ & Nq & _). split; [by apply ts_pos_set|done]. Qed.

Lemma moved_points : points moved key = m :: MkPos (MkMVCCKey key ts) (Some e) :: vs.
Proof.
  destruct shape as (Um & Uq & Nq & Pq & F1 & F2). pose proof (ts_pos_set _ Pt) as Nt. unfold moved.
  rewrite points_clear, points_put_at.
  assert (F3 : Forall (fun x => lt_ts (q_ts x) ts) vs) by (eapply Forall_impl; [exact F2|]; cbn; intros x Hx; exact (lt_ts_trans _ _ _ Hx Lt)).
  rewrite rolled_points, (put_under_meta key ts e Nt m) by done. rewrite (put_newest key ts e Nt) by (constructor; [split; done|by apply older_versions]).
  rewrite (clear_under_meta key (q_ts q) Nq m) by done. f_equal.
  pose proof above_version as Av. unfold clear_pos, before, after. cbn [List.filter q_key]. rewrite Av, (Less_asym _ _ Av).
  pose proof (clear_newest key (q_ts q) Nq (version_at (rolled_value raw)) vs) as Cn. unfold clear_pos, before, after in Cn. cbn [app]. f_equal. apply Cn.
  - apply same_version; try done. unfold Timestamp_EqOrdering. by rewrite !Z.eqb_refl.
  - by apply older_versions.
Qed.

Lemma moved_but : ok_but key moved /\ stacks moved = stacks db.
Proof.
  destruct (rolled_but raw) as [Ob Es]. destruct shape as (_ & _ & Nq & _). split; [|done].
  apply (clear_but (put_point (rolled raw) (MkMVCCKey key ts) e) oldKey); [|done]. apply (put_but (rolled raw) (MkMVCCKey key ts) e Ob). split; [done|by right].
Qed.

Lemma moved_elsewhere pr : elsewhere metaKey pr -> List.filter pr (positions moved) = List.filter pr (positions db).
Proof.
  intros El. destruct (rolled_but raw) as [[So] _]. unfold moved. cbn [clear_point positions].
  rewrite (clear_elsewhere (put_point (rolled raw) (MkMVCCKey key ts) e)) by (try done; by apply put_sorted). cbn [put_point positions].
  rewrite (put_elsewhere (rolled raw) So) by done. by apply rolled_elsewhere.
Qed.
End Move.

(** The metadata written again, or cleared. *)
Definition settle (db1 : snapshot) (b : option bytes) : snapshot := match b with Some b => put_point db1 metaKey b | None => clear_meta db1 key end.

Lemma settled db1 n b : ok_but key db1 -> stacks db1 = stacks db -> points db1 key = m :: n :: vs -> q_user n = key -> q_ts n <> EmptyTimestamp ->
  snapshot_ok (settle db1 b) /\ stacks (settle db1 b) = stacks db /\
  points (settle db1 b) key = match b with Some b => [MkPos metaKey (Some b)] | None => [] end ++ n :: vs.
Proof.
  intros Ob Es En Un Nn. destruct shape as (Um & _ & _ & _ & F1 & _). assert (Fv : Forall (version_of key) (n :: vs)) by (by constructor). destruct b as [b|]; cbn [settle app].
  - assert (P : points (put_point db1 metaKey b) key = MkPos metaKey (Some b) :: n :: vs).
    { rewrite points_put_at, En. by apply put_meta_again. }
    split_and!; try done. assert (I : n ∈ points (put_point db1 metaKey b) key) by (rewrite P; right; left). apply elem_points in I as (I & _).
    apply (ok_but_ok key _ n); try done. apply (put_but db1 metaKey b Ob). split; [done|by left].
  - split_and!; [|done|].
    + apply clear_meta_ok; try done. by eapply fragmented_stacks.
    + rewrite points_clear_meta, En. by apply clear_the_meta.
Qed.

Lemma settled_elsewhere db1 b pr : ok_but key db1 -> elsewhere metaKey pr -> List.filter pr (positions (settle db1 b)) = List.filter pr (positions db1).
Proof. intros [So] El. destruct b as [b|]; cbn [settle]; [by apply put_elsewhere|by apply clear_meta_elsewhere]. Qed.

(** The metadata and the version cleared. *)
Lemma removed (db1 := clear_point db oldKey) : snapshot_ok (clear_meta db1 key) /\ points (clear_meta db1 key) key = vs /\ points db1 key = m :: vs.
Proof.
  destruct shape as (Um & Uq & Nq & Pq & F1 & F2). assert (P : points db1 key = m :: vs).
  { unfold db1. rewrite points_clear, Ep, (clear_under_meta key (q_ts q) Nq m) by done. f_equal. apply clear_newest; [done| |by apply older_versions].
    rewrite q_version at 1. apply same_version; try done. unfold Timestamp_EqOrdering. by rewrite !Z.eqb_refl. }
  split_and!; [| |done].
  - apply clear_meta_ok; try done; [by apply (fragmented_stacks db)|]. apply (clear_but db oldKey); [by apply ok_ok_but|done].
  - rewrite points_clear_meta, P. by apply clear_the_meta.
Qed.
Lemma removed_elsewhere pr : elsewhere metaKey pr -> List.filter pr (positions (clear_meta (clear_point db oldKey) key)) = List.filter pr (positions db).
Proof.
  intros El. pose proof (ok_sorted _ ok) as So. rewrite clear_meta_elsewhere by (try done; by apply clear_sorted). by apply clear_elsewhere.
Qed.
End Store.

(** * Values that move *)

Section Values.
Context `{L : ScanLib} {HL : HeaderLaws} (disableSimple : bool).

Lemma forward_clock a b : ts_wf a -> ts_wf b -> Synthetic a = false -> Synthetic b = false ->
  ts_wf (Timestamp_Forward a b).1 /\ Synthetic (Timestamp_Forward a b).1 = false.
Proof.
  intros Wa Wb Sa Sb. unfold Timestamp_Forward. destruct (Timestamp_Less a b); [done|]. destruct (Timestamp_EqOrdering a b); [|done].
  cbn [fst]. split; [exact Wa|]. unfold Timestamp_WithSynthetic, bothSynthetic. by rewrite Sa.
Qed.

Lemma local_clock v t : ts_wf t -> ts_wf (LocalTimestamp (vHeader v)) -> Synthetic (LocalTimestamp (vHeader v)) = false ->
  ts_wf (GetLocalTimestamp v t) /\ Synthetic (GetLocalTimestamp v t) = false.
Proof.
  intros Wt Wl Sl. unfold GetLocalTimestamp. destruct (Timestamp_IsEmpty _); [|done]. destruct (Synthetic t) eqn:S; [|done].
  split; [|done]. unfold ts_wf, isS. cbn. lia.
Qed.

Lemma moved_value_ok {W} {Wr : Writer W} (w : W) u v raw t newTs : encodes disableSimple v raw -> ts_wf t ->
  ts_wf (o_Timestamp (u_ClockWhilePending u)) -> Synthetic (o_Timestamp (u_ClockWhilePending u)) = false ->
  exists v' raw', moved_value w u v t newTs = Ok v' /\ RawBytes v' = RawBytes v /\ encodes disableSimple v' raw'.
Proof.
  intros [_ Vb Wl Sl] Wt Wc Sc. destruct (local_clock v t Wt Wl Sl) as [W1 S1]. destruct (forward_clock _ _ W1 Wc S1 Sc) as [W2 S2].
  unfold moved_value, LocalTimestampNeeded. cbn [vHeader LocalTimestamp RawBytes]. set (l := (Timestamp_Forward _ _).1) in *.
  assert (exists n, (if negb (Timestamp_IsEmpty l) then l ← ClockTimestamp_ToTimestamp l; Ok (Timestamp_Less l newTs) else Ok false) = Ok n) as [n ->].
  { destruct (Timestamp_IsEmpty l); cbn [negb]; [by eexists|]. unfold ClockTimestamp_ToTimestamp. rewrite S2. by eexists. }
  cbn [mbind res_bind]. destruct (negb n || _).
  - destruct (encodes_exists disableSimple (MkMVCCValue EmptyHeader (RawBytes v))) as [e En]; [done|unfold ts_wf, isS; cbn; lia|done|]. by eexists _, e.
  - destruct (encodes_exists disableSimple (MkMVCCValue (MkHeader l) (RawBytes v))) as [e En]; [done..|]. by eexists _, e.
Qed.
End Values.

(** * The parts of a resolution *)

(** A request to resolve: times are well-formed. *)
Record update_ok (u : LockUpdate) : Prop := {
  uo_key : Key (u_Span u) <> [];
  uo_ts : ts_pos (t_WriteTimestamp (u_Txn u));
  uo_clock : ts_wf (o_Timestamp (u_ClockWhilePending u)) /\ Synthetic (o_Timestamp (u_ClockWhilePending u)) = false
}.

Section Resolve.
Context `{L : ScanLib} {HL : HeaderLaws} {ML : MetaLaws L} {W : Type} {Wr : Writer W} (disableSimple : bool) `{!WriterLaws Wr disableSimple}.
Context (w : W) (ok : store_ok (w_db w)) (frag : fragmented (w_db w)) (u : LockUpdate) (Uo : update_ok u).
Abbreviation key := (Key (u_Span u)).
Abbreviation rks := (Versions (stack_at (w_db w) key)).
Context {It : Type} {M : MVCCIterator It} `{!IteratorLaws M (prefix_view (w_db w) key)}.
Context (m q : pos) (vs : list pos) (Ep : points (w_db w) key = m :: q :: vs) (Tm : q_ts m = EmptyTimestamp).
Context (meta : MVCCMetadata) (txn : TxnMeta) (Um : UnmarshalMeta (default [] (q_val m)) = Ok meta).
Context (De : described disableSimple meta txn (q_ts q) (default [] (q_val q))).
Abbreviation latestKey := (MkMVCCKey key (q_ts q)).
Abbreviation metaKey := (MkMVCCKey key EmptyTimestamp).
Abbreviation newTs := (t_WriteTimestamp (u_Txn u)).

Lemma intent_view : points_ok key (m :: q :: vs) rks /\ prefix_view (w_db w) key = key_view key (m :: q :: vs) rks.
Proof. unfold prefix_view. rewrite <- Ep. split; [|done]. apply points_points_ok, ok. Qed.

Lemma resolve_shape : q_user m = key /\ q_user q = key /\ q_ts q <> EmptyTimestamp /\ ts_pos (q_ts q) /\
  Forall (fun x => q_user x = key /\ q_ts x <> EmptyTimestamp) vs /\ Forall (fun x => lt_ts (q_ts x) (q_ts q)) vs.
Proof. exact (shape (w_db w) (so_snapshot _ ok) key m q vs Ep). Qed.

Lemma below_decodes x : x ∈ vs -> exists t, EncodedMVCCValueIsTombstone (default [] (q_val x)) = Ok t.
Proof.
  intros Ix. destruct resolve_shape as (_ & _ & _ & _ & F & _). rewrite Forall_forall in F. destruct (F x Ix) as [_ Nx].
  assert (I : x ∈ points (w_db w) key) by (rewrite Ep; by right; right). apply elem_points in I as (I & _). destruct (so_values _ ok) as [D _].
  rewrite Forall_forall in D. destruct (D x I Nx) as [y Dy]. eexists. by apply decodes_tombstone.
Qed.

Lemma next_info_ok : exists b n, next_info rks vs = Ok (b, n).
Proof.
  pose proof below_decodes as Bd. unfold next_info. destruct vs as [|x l]; [by eexists _, _|]. destruct (match rks with [] => true | _ => _ end); [|by eexists _, _].
  destruct (Bd x) as [t ->]; [left|]. by eexists _, _.
Qed.

(** The metadata and the value that go into an update: those found, or those restored. *)
Record restored (raw : option bytes) (back : option MVCCValue) (meta1 : MVCCMetadata) (txn1 : TxnMeta) (v1 : MVCCValue) : Prop := {
  rs_value : encodes disableSimple v1 (rolled_value q raw);
  rs_back : back = match raw with Some _ => Some v1 | None => None end;
  rs_described : described disableSimple meta1 txn1 (q_ts q) (rolled_value q raw);
  rs_id : t_ID txn1 = t_ID txn
}.

(** The version after it was moved. *)
Lemma move_version_ok w1 (it : It) back raw meta1 txn1 v1 : restored raw back meta1 txn1 v1 ->
  w_db w1 = rolled (w_db w) key q raw -> lt_ts (q_ts q) newTs ->
  exists w2 v2 e2 pv ps,
    move_version disableSimple w1 it u back latestKey newTs meta1 txn1 =
      Ok (w2, MkMetadata (Some (set_WriteTimestamp txn1 newTs)) (Timestamp_ToLegacyTimestamp newTs) (MVCCValue_IsTombstone v2) MVCCVersionTimestampSize
                (encodedMVCCValueSize disableSimple v2) (m_RawBytes meta1) (m_IntentHistory meta1) (m_MergeTimestamp meta1) (m_TxnDidNotUpdateMeta meta1),
          set_WriteTimestamp txn1 newTs, pv, ps) /\
    w_db w2 = moved (w_db w) key q raw newTs e2 /\ encodes disableSimple v2 e2 /\ RawBytes v2 = RawBytes v1 /\ next_info rks vs = Ok (pv, ps).
Proof.
  intros Rs Dw Lt. destruct intent_view as [Po Ev]. pose proof (uo_key u Uo) as Nk. pose proof resolve_shape as (_ & Uq & Nq & Pq & _).
  pose proof _ : IteratorLaws M (prefix_view (w_db w) key) as IL. rewrite Ev in IL. set (it1 := SeekGE it latestKey).
  pose proof (seek_version key Nk m q vs rks Po Tm it) as C1. fold it1 in C1. unfold move_version. cbn [k_Key k_Timestamp]. fold it1.
  rewrite (it_Valid it1). unfold is_at. rewrite C1. cbn [mbind res_bind].
  destruct (intent_point key m q vs rks Po q) as (_ & Hp & _); [right; left|]. rewrite (it_HasPointAndRange it1 q C1), Hp, andb_false_r. cbn [mbind res_bind negb orb].
  rewrite (it_UnsafeKey it1 q C1). assert (MVCCKey_Equal (q_key q) latestKey = true) as ->.
  { unfold MVCCKey_Equal, Key_Compare. cbn. fold (q_user q) (q_ts q). rewrite Uq, bytes_compare_refl. unfold Timestamp_EqOrdering. by rewrite !Z.eqb_refl. }
  cbn [negb]. rewrite (it_UnsafeLazyValue it1 q _ C1 (at_value key _ rks Po q ltac:(right; left))). cbn [mbind res_bind].
  destruct (de_value _ _ _ _ _ De) as (v0 & En0 & _). destruct (encodes_spec _ _ _ En0) as (D0 & _). rewrite D0. cbn [mbind res_bind].
  assert (default v0 back = v1) as ->.
  { rewrite (rs_back _ _ _ _ _ Rs). destruct raw as [b|]; [done|]. cbn. destruct (encodes_spec _ _ _ (rs_value _ _ _ _ _ Rs)) as (D1 & _). cbn [rolled_value] in D1. congruence. }
  destruct (moved_value_ok disableSimple w1 u v1 _ (q_ts q) newTs (rs_value _ _ _ _ _ Rs)) as (v2 & e2 & -> & R2 & En2); [apply Pq|apply Uo|apply Uo|]. cbn [mbind res_bind].
  pose proof (ts_pos_set _ (uo_ts u Uo)) as Nt.
  destruct (w_PutMVCC w1 (MkMVCCKey key newTs) v2 e2 Nt (en_encode _ _ _ En2)) as (w2 & -> & D2). cbn [mbind res_bind].
  destruct (w_ClearMVCC w2 latestKey Nq) as (w3 & -> & D3). cbn [mbind res_bind]. rewrite (next_below_view key Nk m q vs rks Po Tm it1 C1).
  destruct next_info_ok as (pv & ps & En). rewrite En. cbn [mbind res_bind]. exists w3, v2, e2, pv, ps. split; [done|]. split; [|done].
  unfold moved. by rewrite D3, D2, Dw.
Qed.
(** What an update leaves: the version [e] at [ts], and the metadata [b] unless it commits. *)
Record updated (raw : option bytes) (txn1 : TxnMeta) (meta1 : MVCCMetadata) (v1 : MVCCValue) (commit : bool) (ms : option MVCCStats) (r : resolve_result)
    (ts : Timestamp) (e : bytes) (v : MVCCValue) (b : option bytes) (meta2 : MVCCMetadata) (pv : bool) (ps : Z) : Prop := {
  ud_done : rr_ok r = true;
  ud_ts : ts = if Timestamp_Less (q_ts q) newTs then newTs else q_ts q;
  ud_encodes : encodes disableSimple v e;
  ud_raw : RawBytes v = RawBytes v1;
  ud_described : described disableSimple meta2 (set_WriteTimestamp txn1 ts) ts e;
  ud_history : m_IntentHistory meta2 = m_IntentHistory meta1;
  ud_meta :
    match b with
    | Some b => commit = false /\ b <> [] /\ UnmarshalMeta b = Ok (stored_meta meta2 true)
    | None => commit = true
    end;
  ud_ok : snapshot_ok (w_db (rr_writer r));
  ud_points : points (w_db (rr_writer r)) key = changed_points key (points (w_db w) key) ts e b;
  ud_stacks : stacks (w_db (rr_writer r)) = stacks (w_db w);
  ud_elsewhere pr : elsewhere metaKey pr -> List.filter pr (positions (w_db (rr_writer r))) = List.filter pr (positions (w_db w));
  ud_prev : if Timestamp_Less (q_ts q) newTs then next_info rks vs = Ok (pv, ps) else pv = false;
  ud_stats :
    rr_stats r =
      (fun ms =>
         Add ms (updateStatsOnResolve key pv ps (blen key + 1) (blen (default [] (q_val m))) (blen key + 1)
                   (match b with Some b => blen b | None => 0 end) meta meta2 commit)) <$> ms
}.

(** The metadata is written again, or cleared. *)
Lemma settle_writes w2 n commit helper meta2 txn2 : points (w_db w2) key = m :: n -> t_ID txn2 = t_ID txn ->
  LegacyTimestamp_ToTimestamp (m_Timestamp meta2) = t_WriteTimestamp txn2 -> (onCommitIntent helper = true -> m_TxnDidNotUpdateMeta meta = Some true) ->
  exists w3 b op,
    (if negb commit then
       '(rw, k, v) ← putIntentMeta w2 (MakeMVCCMetadataKey key) meta2 txn2 true;
       Ok (rw, k, v, MVCCUpdateIntentOpType)
     else
       rw ← ClearIntent w2 key (onCommitIntent helper) (t_ID txn);
       Ok (rw, MVCCKey_EncodedSize (MakeMVCCMetadataKey key), 0, MVCCCommitIntentOpType)) =
    Ok (w3, blen key + 1, match b with Some b => blen b | None => 0 end, op) /\ w_db w3 = settle key (w_db w2) b /\
    match b with
    | Some b => commit = false /\ b <> [] /\ UnmarshalMeta b = Ok (stored_meta meta2 true)
    | None => commit = true
    end.
Proof.
  intros P2 Id Eq Sd. assert (Ks : MVCCKey_EncodedSize (MakeMVCCMetadataKey key) = blen key + 1) by (unfold MVCCKey_EncodedSize, blen; cbn; lia). destruct commit; cbn [negb].
  - destruct resolve_shape as (Uq & _). assert (Im : m ∈ points (w_db w2) key) by (rewrite P2; left). apply elem_points in Im as (Im & Ux & Hp).
    destruct intent_view as [Po _]. rewrite (meta_pos key _ rks Po m ltac:(left) Tm) in Im. destruct (w_ClearIntent w2 key (onCommitIntent helper) (t_ID txn) _ meta txn Im Um (de_txn _ _ _ _ _ De) eq_refl Sd) as (w3 & -> & D3).
    cbn [mbind res_bind]. rewrite Ks. by exists w3, None, MVCCCommitIntentOpType.
  - unfold putIntentMeta. rewrite Eq, (proj2 (Timestamp_Equal_spec _ _)) by done. cbn [negb].
    match goal with |- context [MarshalMeta ?m] => destruct (meta_marshals m) as (mb & -> & Nb & Ub) end. cbn [mbind res_bind MakeMVCCMetadataKey k_Key].
    destruct (w_PutIntent w2 key mb (t_ID txn2)) as (w3 & -> & D3). cbn [mbind res_bind]. rewrite <- Ks. by exists w3, (Some mb), MVCCUpdateIntentOpType.
Qed.

Lemma update_runs w1 (it : It) ms raw back meta1 txn1 v1 commit helper : restored raw back meta1 txn1 v1 ->
  w_db w1 = rolled (w_db w) key q raw -> le_ts (q_ts q) newTs -> (onCommitIntent helper = true -> m_TxnDidNotUpdateMeta meta = Some true) ->
  exists r ts e v b meta2 pv ps,
    resolve_update disableSimple w1 it ms u meta meta1 txn txn1 (blen key + 1) (blen (default [] (q_val m))) commit (Timestamp_Less (q_ts q) newTs) back helper = Ok r /\
    updated raw txn1 meta1 v1 commit ms r ts e v b meta2 pv ps.
Proof.
  intros Rs Dw Le Sd. pose proof (uo_key u Uo) as Nk. pose proof resolve_shape as (_ & Uq & Nq & Pq & F1 & F2). pose proof (so_snapshot _ ok) as ok0.
  unfold resolve_update. rewrite (de_time _ _ _ _ _ De). assert (Timestamp_Less newTs (q_ts q) = false) as ->.
  { unfold le_ts in Le. rewrite LessEq_negb in Le. by apply negb_true_iff in Le. }
  assert (Ec : committed_of (points (w_db w) key) = vs) by (rewrite Ep; cbn [committed_of]; by rewrite (proj2 (IsEmpty_spec _) Tm)).
  destruct (Timestamp_Less (q_ts q) newTs) eqn:Lt.
  - destruct (move_version_ok w1 it back raw meta1 txn1 v1 Rs Dw Lt) as (w2 & v2 & e2 & pv & ps & -> & D2 & En2 & R2 & Ni). cbn [mbind res_bind].
    pose proof (moved_points (w_db w) ok0 key m q vs Ep Tm raw newTs (uo_ts u Uo) Lt e2) as P2. rewrite <- D2 in P2. set (meta2 := MkMetadata _ _ _ _ _ _ _ _ _).
    destruct (settle_writes w2 _ commit helper meta2 (set_WriteTimestamp txn1 newTs) P2 (rs_id _ _ _ _ _ Rs) (legacy_roundtrip _) Sd) as (w3 & b & op & -> & D3 & Mb).
    cbn [mbind res_bind]. destruct (moved_but (w_db w) ok0 key Nk m q vs Ep raw newTs (uo_ts u Uo) e2) as [Ob Es].
    destruct (settled (w_db w) ok0 frag key Nk m q vs Ep Tm (w_db w2) (MkPos (MkMVCCKey key newTs) (Some e2)) b) as (S1 & S2 & S3); [by rewrite D2|by rewrite D2|exact P2|done|by apply ts_pos_set, Uo|].
    destruct (encodes_spec _ _ _ En2) as (_ & Sz & _).
    eexists _, newTs, e2, v2, b, meta2, pv, ps. split; [reflexivity|]. split; cbn [rr_writer rr_ok rr_stats]; rewrite ?w_LogLogicalOp, ?D3; try done.
    + by rewrite Lt.
    + pose proof (rs_described _ _ _ _ _ Rs) as D1. split; try done; [apply (de_inline _ _ _ _ _ D1)|apply legacy_roundtrip|by exists v2|apply (de_history _ _ _ _ _ D1)].
    + rewrite S3. unfold changed_points. by rewrite Ec.
    + intros pr El. rewrite (settled_elsewhere key) by (try done; by rewrite D2). rewrite D2. by eapply (moved_elsewhere (w_db w) ok0 key Nk m q vs Ep).
    + by rewrite Lt.
  - cbn [mbind res_bind]. assert (P2 : points (w_db w1) key = m :: version_at key q (rolled_value q raw) :: vs).
    { rewrite Dw. by apply rolled_points. }
    pose proof (rs_described _ _ _ _ _ Rs) as D1.
    destruct (settle_writes w1 _ commit helper meta1 txn1 P2 (rs_id _ _ _ _ _ Rs)) as (w3 & b & op & -> & D3 & Mb);
      [by rewrite (de_time _ _ _ _ _ D1), (de_write _ _ _ _ _ D1)|done|].
    cbn [mbind res_bind]. destruct (rolled_but (w_db w) ok0 key Nk m q vs Ep raw) as [Ob Es].
    destruct (settled (w_db w) ok0 frag key Nk m q vs Ep Tm (w_db w1) (version_at key q (rolled_value q raw)) b) as (S1 & S2 & S3); [by rewrite Dw|by rewrite Dw|exact P2|done|done|].
    eexists _, (q_ts q), (rolled_value q raw), v1, b, meta1, false, 0. split; [reflexivity|]. split; cbn [rr_writer rr_ok rr_stats]; rewrite ?w_LogLogicalOp, ?D3; try done.
    + by rewrite Lt.
    + apply Rs.
    + replace (set_WriteTimestamp txn1 (q_ts q)) with txn1; [done|]. rewrite <- (de_write _ _ _ _ _ D1). by destruct txn1.
    + rewrite S3. unfold changed_points. by rewrite Ec.
    + intros pr El. rewrite (settled_elsewhere key) by (try done; by rewrite Dw). rewrite Dw. by apply rolled_elsewhere.
    + by rewrite Lt.
Qed.
(** The metadata, where the iterator stands. *)
Lemma get_intent_at (it : It) : r_cur (it_abs it) = At m ->
  mvccGetIntent it (MakeMVCCMetadataKey key) = Ok (Some (meta, blen key + 1, blen (default [] (q_val m)))).
Proof.
  destruct intent_view as [Po Ev]. generalize IteratorLaws0. rewrite Ev. intros IL A. by rewrite (get_meta key _ _ Po it m (q :: vs) eq_refl Tm A), Um.
Qed.

(** ** Removals *)

(** The change to the statistics. *)
Definition clear_change (info : option (Z * bool * Timestamp)) : res MVCCStats :=
  match info with
  | None => updateStatsOnClear key (blen key + 1) (blen (default [] (q_val m))) 0 0 meta None 0
  | Some (len, deleted, t) =>
      updateStatsOnClear key (blen key + 1) (blen (default [] (q_val m))) (blen key + 1) 0 meta
        (Some (MkMetadata None (Timestamp_ToLegacyTimestamp EmptyTimestamp) deleted MVCCVersionTimestampSize len None [] None None)) (WallTime t)
  end.

Record removal (ms : option MVCCStats) (r : resolve_result) (info : option (Z * bool * Timestamp)) (change : MVCCStats) : Prop := {
  rm_done : rr_ok r = true;
  rm_ok : snapshot_ok (w_db (rr_writer r));
  rm_points : points (w_db (rr_writer r)) key = vs;
  rm_stacks : stacks (w_db (rr_writer r)) = stacks (w_db w);
  rm_elsewhere pr : elsewhere metaKey pr -> List.filter pr (positions (w_db (rr_writer r))) = List.filter pr (positions (w_db w));
  rm_info : reveal_info rks vs = Ok info;
  rm_change : clear_change info = Ok change;
  rm_stats : rr_stats r = (fun ms => Add ms change) <$> ms
}.

Lemma reveal_info_ok : exists info, reveal_info rks vs = Ok info.
Proof.
  pose proof below_decodes as Bd. unfold reveal_info. destruct vs as [|x l]; [by eexists|]. destruct (Bd x) as [t ->]; [left|]. by eexists.
Qed.

Lemma clear_change_ok info : exists change, clear_change info = Ok change.
Proof.
  unfold clear_change, updateStatsOnClear. destruct info as [[[len d] t]|]; destruct (isSysLocal key); cbn [has_txn m_Txn mbind res_bind]; by eexists.
Qed.

Lemma remove_runs (it : It) ms helper : exists r info change,
  resolve_remove w it ms u meta txn (blen key + 1) (blen (default [] (q_val m))) helper = Ok r /\ removal ms r info change.
Proof.
  pose proof (uo_key u Uo) as Nk. pose proof resolve_shape as (Uq & _ & Nq & _). pose proof (so_snapshot _ ok) as ok0. destruct intent_view as [Po Ev].
  pose proof _ : IteratorLaws M (prefix_view (w_db w) key) as IL. rewrite Ev in IL.
  destruct (removed (w_db w) ok0 frag key Nk m q vs Ep Tm) as (R1 & R2 & R3). destruct reveal_info_ok as [info Ei]. destruct (clear_change_ok info) as [change Ec].
  unfold resolve_remove. rewrite (de_time _ _ _ _ _ De). destruct (w_ClearMVCC w latestKey Nq) as (w1 & -> & D1). cbn [mbind res_bind].
  rewrite (revealed_view key Nk m q vs rks Po Tm it), Ei. cbn [mbind res_bind]. set (w2 := LogLogicalOp w1 _ _).
  assert (D2 : w_db w2 = clear_point (w_db w) latestKey) by (unfold w2; by rewrite w_LogLogicalOp).
  assert (Im : m ∈ points (w_db w2) key) by (rewrite D2, R3; left). apply elem_points in Im as (Im & _).
  rewrite (meta_pos key _ rks Po m ltac:(left) Tm) in Im. destruct (w_ClearIntent w2 key (onAbortIntent helper) (t_ID txn) _ meta txn Im Um (de_txn _ _ _ _ _ De) eq_refl ltac:(done)) as (w3 & -> & D3).
  cbn [mbind res_bind]. rewrite D2 in D3.
  assert (Ks : MVCCKey_EncodedSize (MakeMVCCMetadataKey key) = blen key + 1) by (unfold MVCCKey_EncodedSize, blen; cbn; lia). rewrite Ks. destruct ms as [ms|].
  - unfold clear_change in Ec. exists (MkResolved w3 (Some (Add ms change)) true), info, change. split; [destruct info as [[[len d] t]|]; by rewrite Ec|].
    split; cbn [rr_writer rr_ok rr_stats]; rewrite ?D3; try done. intros pr El. by apply removed_elsewhere.
  - exists (MkResolved w3 None true), info, change. split; [done|].
    split; cbn [rr_writer rr_ok rr_stats]; rewrite ?D3; try done. intros pr El. by apply removed_elsewhere.
Qed.

(** ** Rollbacks *)

Definition restored_meta (i : nat) (h : SequencedIntent) (v : MVCCValue) : MVCCMetadata :=
  MkMetadata (Some (set_Sequence txn (h_Sequence h))) (m_Timestamp meta) (MVCCValue_IsTombstone v) (m_KeyBytes meta) (blen (h_Value h)) (m_RawBytes meta)
    (take i (m_IntentHistory meta)) (m_MergeTimestamp meta) (m_TxnDidNotUpdateMeta meta).

Lemma last_kept_in n h ignored i e : last_kept n h ignored = Some (i, e) -> h !! i = Some e /\ TxnSeqIsIgnored (h_Sequence e) ignored = false.
Proof.
  induction n as [|n IH]; [done|]. cbn. destruct (h !! n) as [x|] eqn:E; [|done]. destruct (TxnSeqIsIgnored (h_Sequence x) ignored) eqn:Ig; cbn; [done|].
  by intros [= <- <-].
Qed.

Lemma rewrite_none ignored : TxnSeqIsIgnored (t_Sequence txn) ignored = false ->
  mvccMaybeRewriteIntentHistory w ignored meta txn latestKey = Ok (w, meta, txn, false, None).
Proof. intros Ig. unfold mvccMaybeRewriteIntentHistory. by rewrite Ig. Qed.
Lemma rewrite_all ignored : TxnSeqIsIgnored (t_Sequence txn) ignored = true -> last_kept (length (m_IntentHistory meta)) (m_IntentHistory meta) ignored = None ->
  mvccMaybeRewriteIntentHistory w ignored meta txn latestKey = Ok (w, meta, txn, true, None).
Proof. intros Ig E. unfold mvccMaybeRewriteIntentHistory. by rewrite Ig, E. Qed.
Lemma rewrite_some ignored i h : TxnSeqIsIgnored (t_Sequence txn) ignored = true ->
  last_kept (length (m_IntentHistory meta)) (m_IntentHistory meta) ignored = Some (i, h) ->
  exists w1 v, mvccMaybeRewriteIntentHistory w ignored meta txn latestKey =
      Ok (w1, restored_meta i h v, set_Sequence txn (h_Sequence h), false, Some v) /\
    w_db w1 = rolled (w_db w) key q (Some (h_Value h)) /\ restored (Some (h_Value h)) (Some v) (restored_meta i h v) (set_Sequence txn (h_Sequence h)) v.
Proof.
  intros Ig E. destruct (last_kept_in _ _ _ _ _ E) as [Eh _]. pose proof (de_history _ _ _ _ _ De) as Fh.
  assert (In1 : h ∈ m_IntentHistory meta) by (by eapply list_elem_of_lookup_2). rewrite Forall_forall in Fh. destruct (Fh h In1) as [v En].
  destruct (encodes_spec _ _ _ En) as (Dv & Sz & Tv). pose proof resolve_shape as (_ & _ & Nq & _).
  destruct (w_PutMVCC w latestKey v (h_Value h) Nq (en_encode _ _ _ En)) as (w1 & Ew & D1). exists w1, v.
  split; [|split; [done|]]. { unfold mvccMaybeRewriteIntentHistory. rewrite Ig, E. cbn [negb]. rewrite Dv. cbn [mbind res_bind]. by rewrite Ew. }
  split; try done. destruct De as [D1' D2 D3 D4 D5 D6 D7 D8]. split; try done; [by exists v|].
  apply Forall_forall. intros x Ix. rewrite Forall_forall in D8. apply D8. apply list_elem_of_In in Ix. apply list_elem_of_In. rewrite <- (take_drop i (m_IntentHistory meta)). apply in_or_app. by left.
Qed.
End Resolve.

(** * Resolutions *)

(** What a resolution decides on, from the request and the intent. *)
Inductive decision := Keep | Update (commit : bool) (kept : option (nat * SequencedIntent)) | Remove.

Definition commits (u : LockUpdate) (txn : TxnMeta) (ts : Timestamp) : bool :=
  match u_Status u with COMMITTED => true | _ => false end && (t_Epoch txn =? t_Epoch (u_Txn u)) && Timestamp_LessEq ts (t_WriteTimestamp (u_Txn u)).
Definition in_progress (u : LockUpdate) (txn : TxnMeta) : bool := negb (IsFinalized (u_Status u)) && (t_Epoch (u_Txn u) <=? t_Epoch txn).

(** The last write that was not rolled back, if the newest was. *)
Definition kept_of (u : LockUpdate) (meta : MVCCMetadata) (txn : TxnMeta) (ts : Timestamp) : option (option (nat * SequencedIntent)) :=
  if negb (length (u_IgnoredSeqNums u) =? 0)%nat && (commits u txn ts || in_progress u txn) && (t_Epoch txn =? t_Epoch (u_Txn u)) &&
     TxnSeqIsIgnored (t_Sequence txn) (u_IgnoredSeqNums u)
  then Some (last_kept (length (m_IntentHistory meta)) (m_IntentHistory meta) (u_IgnoredSeqNums u)) else None.

Definition decision_of (u : LockUpdate) (meta : MVCCMetadata) (txn : TxnMeta) (ts : Timestamp) : decision :=
  match kept_of u meta txn ts with
  | Some None => Remove
  | Some kept => Update (commits u txn ts) kept
  | None =>
      if commits u txn ts then Update true None
      else if in_progress u txn then if Timestamp_Less ts (t_WriteTimestamp (u_Txn u)) then Update false None else Keep
      else Remove
  end.

Lemma commit_or_progress u txn ts : commits u txn ts = true -> in_progress u txn = false.
Proof. unfold commits, in_progress. by destruct (u_Status u). Qed.

Lemma less_forward a b : Timestamp_Less a (Timestamp_Forward b a).1 = Timestamp_Less a b.
Proof.
  unfold Timestamp_Forward. destruct (Timestamp_Less b a) eqn:L1; cbn [fst].
  - assert (Timestamp_Less a a = false) as -> by (apply not_true_is_false, lt_ts_irrefl). symmetry. apply not_true_is_false. intros L2. by apply (lt_ts_irrefl a), (lt_ts_trans _ b).
  - by destruct (Timestamp_EqOrdering b a).
Qed.
Lemma forward_least a b : le_ts a (Timestamp_Forward b a).1.
Proof. pose proof (Forward_spec b a) as F. destruct (Timestamp_Forward b a). apply F. Qed.

Section Resolutions.
Context `{L : ScanLib} {HL : HeaderLaws} {ML : MetaLaws L} {W : Type} {Wr : Writer W} (disableSimple : bool) `{!WriterLaws Wr disableSimple}.
Context (w : W) (ok : store_ok (w_db w)) (frag : fragmented (w_db w)) (u : LockUpdate) (Uo : update_ok u).
Abbreviation key := (Key (u_Span u)).
Context {It : Type} {M : MVCCIterator It} `{!IteratorLaws M (prefix_view (w_db w) key)}.
Context (m q : pos) (vs : list pos) (Ep : points (w_db w) key = m :: q :: vs) (Tm : q_ts m = EmptyTimestamp).
Context (meta : MVCCMetadata) (txn : TxnMeta) (Um : UnmarshalMeta (default [] (q_val m)) = Ok meta).
Context (De : described disableSimple meta txn (q_ts q) (default [] (q_val q))) (Id : t_ID (u_Txn u) = t_ID txn).

(** The request as it is applied: a rollback does not move the intent down. *)
Definition applied (kept : option (nat * SequencedIntent)) : LockUpdate := match kept with Some _ => forward_update u (q_ts q) | None => u end.

Lemma applied_ok kept : update_ok (applied kept).
Proof.
  destruct kept; [|done]. destruct Uo as [K T C]. split; try done. cbn. apply forward_pos; [done|].
  destruct (resolve_shape disableSimple w ok u m q vs Ep) as (_ & _ & _ & Pq & _). done.
Qed.

Definition outcome (ms : option MVCCStats) (d : decision) (r : resolve_result) : Prop :=
  match d with
  | Keep => r = MkResolved w ms false
  | Update commit None =>
      exists v1 ts e v b meta2 pv ps, encodes disableSimple v1 (default [] (q_val q)) /\
        updated disableSimple w u m q vs meta None txn meta v1 commit ms r ts e v b meta2 pv ps
  | Update commit (Some (i, h)) =>
      exists v1 ts e v b meta2 pv ps, encodes disableSimple v1 (h_Value h) /\
        updated disableSimple w (applied (Some (i, h))) m q vs meta (Some (h_Value h)) (set_Sequence txn (h_Sequence h))
          (restored_meta meta txn i h v1) v1 commit ms r ts e v b meta2 pv ps
  | Remove => exists info change, removal disableSimple w u m vs meta ms r info change
  end.

Lemma single_del commit ignored : onCommitIntent (MkSingleDel (m_TxnDidNotUpdateMeta meta) ignored commit) = true -> m_TxnDidNotUpdateMeta meta = Some true.
Proof. unfold onCommitIntent, sd_v. cbn. by destruct (m_TxnDidNotUpdateMeta meta) as [[]|]. Qed.

Lemma found_restored : exists v1, restored disableSimple q txn None None meta txn v1.
Proof. destruct (de_value _ _ _ _ _ De) as (v & En & _). exists v. by split. Qed.

(** Without a rollback. *)
Lemma plain_changes (it : It) ms helper (changed := Timestamp_Less (q_ts q) (t_WriteTimestamp (u_Txn u))) :
  (onCommitIntent helper = true -> m_TxnDidNotUpdateMeta meta = Some true) ->
  exists r,
    (if in_progress u txn && negb (in_progress u txn && changed) then Ok (MkResolved w ms false)
     else if commits u txn (q_ts q) || in_progress u txn && changed
     then resolve_update disableSimple w it ms u meta meta txn txn (blen key + 1) (blen (default [] (q_val m))) (commits u txn (q_ts q)) changed None helper
     else resolve_remove w it ms u meta txn (blen key + 1) (blen (default [] (q_val m))) helper) = Ok r /\
    outcome ms (if commits u txn (q_ts q) then Update true None
      else if in_progress u txn then if changed then Update false None else Keep else Remove) r.
Proof.
  intros Sd. destruct found_restored as [v1 Rs]. pose proof (rs_value _ _ _ _ _ _ _ _ Rs) as En1. cbn [rolled_value] in En1.
  assert (Up : forall commit, le_ts (q_ts q) (t_WriteTimestamp (u_Txn u)) -> exists r,
    resolve_update disableSimple w it ms u meta meta txn txn (blen key + 1) (blen (default [] (q_val m))) commit changed None helper = Ok r /\ outcome ms (Update commit None) r).
  { intros commit Le. destruct (update_runs disableSimple w ok frag u Uo m q vs Ep Tm meta txn Um De w it ms _ _ _ _ _ commit helper Rs eq_refl Le Sd) as
      (r & ts & e & v & b & meta2 & pv & ps & Er & Ud). exists r. split; [exact Er|]. by exists v1, ts, e, v, b, meta2, pv, ps. }
  destruct (commits u txn (q_ts q)) eqn:Co.
  - rewrite (commit_or_progress u txn _ Co). cbn [andb orb]. apply Up. unfold commits in Co. by apply andb_true_iff in Co as [_ ?].
  - destruct (in_progress u txn); cbn [andb orb].
    + destruct changed eqn:Ch; cbn [negb]; [|by eexists]. apply Up. by apply lt_le_ts.
    + destruct (remove_runs disableSimple w ok frag u Uo m q vs Ep Tm meta txn Um De it ms helper) as (r & info & change & Er & Rm). exists r. split; [exact Er|]. by exists info, change.
Qed.

Lemma resolve_changes (it : It) ms : r_cur (it_abs it) = At m ->
  exists r, mvccResolveWriteIntent disableSimple w it ms u = Ok r /\ outcome ms (decision_of u meta txn (q_ts q)) r.
Proof.
  intros A. unfold mvccResolveWriteIntent. rewrite (get_intent_at disableSimple w ok u m q vs Ep Tm meta Um it A). cbn [mbind res_bind]. rewrite (de_txn _ _ _ _ _ De), Id.
  assert (beqb (t_ID txn) (t_ID txn) = true) as -> by (by apply beqb_true). cbn [negb]. rewrite (de_time _ _ _ _ _ De).
  fold (commits u txn (q_ts q)) (in_progress u txn). set (helper := MkSingleDel _ _ _).
  assert (Sd : onCommitIntent helper = true -> m_TxnDidNotUpdateMeta meta = Some true) by apply single_del.
  unfold decision_of, kept_of. set (g := negb (length (u_IgnoredSeqNums u) =? 0)%nat && _ && _).
  destruct (g && TxnSeqIsIgnored (t_Sequence txn) (u_IgnoredSeqNums u)) eqn:G.
  - apply andb_true_iff in G as [-> Ig]. destruct (last_kept _ _ _) as [[i h]|] eqn:Ek.
    + destruct (rewrite_some disableSimple w ok u m q vs Ep meta txn De (u_IgnoredSeqNums u) i h Ig Ek) as (w1 & v1 & -> & D1 & Rs). cbn [mbind res_bind negb].
      rewrite !andb_false_r, !andb_true_r, orb_true_r. pose proof (applied_ok (Some (i, h))) as Ua. rewrite <- less_forward.
      destruct (update_runs disableSimple w ok frag (applied (Some (i, h))) Ua m q vs Ep Tm meta txn Um De w1 it ms _ _ _ _ _ (commits u txn (q_ts q)) helper Rs D1) as
        (r & ts & e & v & b & meta2 & pv & ps & Er & Ud); [apply forward_least|done|]. exists r. split; [exact Er|]. exists v1, ts, e, v, b, meta2, pv, ps.
      split; [apply (rs_value _ _ _ _ _ _ _ _ Rs)|exact Ud].
    + rewrite (rewrite_all w u q meta txn (u_IgnoredSeqNums u) Ig Ek). cbn [mbind res_bind negb]. rewrite !andb_false_r. cbn [andb orb].
      destruct (remove_runs disableSimple w ok frag u Uo m q vs Ep Tm meta txn Um De it ms helper) as (r & info & change & Er & Rm). exists r. split; [exact Er|]. by exists info, change.
  - assert ((if g then mvccMaybeRewriteIntentHistory w (u_IgnoredSeqNums u) meta txn (MkMVCCKey key (q_ts q)) else Ok (w, meta, txn, false, None)) = Ok (w, meta, txn, false, None)) as ->.
    { destruct g; [|done]. by apply rewrite_none. }
    cbn [mbind res_bind negb]. rewrite !andb_true_r, !orb_false_r. by apply plain_changes.
Qed.
End Resolutions.
