(* ===== verification/PutReads.v ===== *)
(** Puts and reads.

    A get after a put returns what was put, and a conditional put writes exactly if a get at its
    timestamp returns what is expected. *)
From stdpp Require Import sorting.
From S2P Require Import Prelude Bytes GoLib Hlc KeyOps Spans MvccKey RangeKeys MvccValue MvccIter Scanner ScanSpec ScanNav ScanOk PebbleResults ScanRead StoreOps MvccRead MvccReadOk MvccStats MvccWrite WriteSpec WriteOk PutOk.

(** * Reading what was put *)

Section ReadBack.
Context `{L : ScanLib} (key : bytes) (db db' : snapshot) (txn : option Transaction) (ts : Timestamp) (raw : bytes).

(** The reader sees the intents of the transaction: it is the transaction, at the sequence or later. *)
Definition reads_own (reader : option Transaction) : Prop :=
  match txn, reader with
  | None, _ => True
  | Some t, Some t' =>
      t_ID (tx_Meta t') = t_ID (tx_Meta t) /\ t_Epoch (tx_Meta t') = t_Epoch (tx_Meta t) /\ t_Sequence (tx_Meta t) <= t_Sequence (tx_Meta t') /\
      TxnSeqIsIgnored (t_Sequence (tx_Meta t)) (tx_IgnoredSeqNums t') = false
  | Some _, None => False
  end.

Lemma prev_pos t : ts_pos t -> exists u, Timestamp_Prev t = Ok u.
Proof.
  intros Pt. pose proof Pt as (Wp & Lp & Ln). pose proof (Prev_spec t Wp (ts_pos_wall _ Pt) Ln) as P.
  destruct (Timestamp_Prev t) as [u| |]; [eauto| |]; exfalso; destruct P as [P1 P2]; unfold lt_ts, Timestamp_Less in Lp; by rewrite P1, P2 in Lp.
Qed.

Lemma see_put c q v : snapshot_ok (prefix_view db' key) -> q = MkPos (MkMVCCKey key ts) (Some v) -> le_ts ts (c_ts c) -> raw_value v = raw ->
  Versions (stack_at (prefix_view db' key) key) = Versions (stack_at db key) -> Forall (fun v => lt_ts (v_Timestamp v) ts) (Versions (stack_at db key)) ->
  see c (prefix_view db' key) q = (MkMVCCKey key ts, raw).
Proof.
  intros ok -> Le Er Es Fr. unfold see, cover. change (q_user _) with key. rewrite Es. cbn [q_ts q_key k_Timestamp q_val default id]. rewrite Er.
  destruct (head _) as [rkv|] eqn:Hd; [|done]. assert (I : In rkv (List.filter (at_most (c_ts c)) (Versions (stack_at db key)))).
  { destruct (List.filter _ _); [done|]. injection Hd as ->. by left. }
  apply List.filter_In in I as [I _]. rewrite List.Forall_forall in Fr. specialize (Fr rkv I). unfold lt_ts in Fr. by rewrite LessEq_negb, Fr.
Qed.

Lemma put_at_verdict c : snapshot_ok db' -> key <> [] -> ts_pos ts -> put_at key db db' txn ts raw -> le_ts ts (c_ts c) -> reads_own (c_txn c) ->
  verdict_of c (prefix_view db' key) key = Sees (MkMVCCKey key ts, raw).
Proof.
  intros ok' Nk Pt (v & e & b & De & Rv & Ep & [_ Ar] & Es & _ & Tx) Le Ro. pose proof (points_points_ok _ key ok') as Po.
  pose proof (view_ok key Nk _ _ Po) as Vo. unfold verdict_of. unfold prefix_view at 1. rewrite (view_points key _ _ Po), Ep.
  assert (Sa : Versions (stack_at (prefix_view db' key) key) = Versions (stack_at db key)).
  { unfold prefix_view. destruct (view_stack key _ _ Po) as [-> _]. by rewrite (stack_at_eq db' db). }
  assert (See : see c (prefix_view db' key) (MkPos (MkMVCCKey key ts) (Some e)) = (MkMVCCKey key ts, raw)).
  { eapply see_put; try done. unfold raw_value. by rewrite De. }
  assert (Look : forall t rest, le_ts ts t -> look c (prefix_view db' key) t (MkPos (MkMVCCKey key ts) (Some e) :: rest) = Sees (MkMVCCKey key ts, raw)).
  { intros t rest Lt. unfold look, at_or_below. cbn [List.filter q_ts q_key k_Timestamp]. unfold le_ts in Lt. rewrite Lt. cbn [head]. by rewrite See. }
  unfold changed_points. unfold reads_own in Ro. destruct b as [b|], txn as [t|]; try done; cbn [app].
  2:{ cbn [q_ts q_key k_Timestamp]. rewrite (proj2 (IsEmpty_false ts)) by (by apply ts_pos_set). cbn [negb]. by apply Look. }
  destruct Tx as (m & mt & Nb & Um & In & Tm & Mt & Id & Ep' & Sq & _). cbn [q_ts q_key k_Timestamp Timestamp_IsEmpty negb default q_val id].
  destruct b as [|b0 b1]; [done|]. cbn [default id]. rewrite Um. unfold look_meta.
  assert ((length (raw_bytes m) =? 0)%nat = true) as -> by (unfold IsInline in In; unfold raw_bytes; by destruct (m_RawBytes m)). cbn [negb]. rewrite Mt, Tm.
  destruct (prev_pos ts Pt) as [u Eu]. unfold le_ts in Le. rewrite Le, Eu. unfold own_intent, look_own, txnEpoch, txnSequence, txnIgnoredSeqNums.
  destruct (c_txn c) as [t'|]; [|done]. destruct Ro as (R1 & R2 & R3 & R4). rewrite Id, R1, Ep', R2, Sq, R4.
  assert (beqb (t_ID (tx_Meta t)) (t_ID (tx_Meta t)) = true) as -> by (by apply beqb_true). rewrite Z.eqb_refl, (proj2 (Z.leb_le _ _) R3). cbn [andb negb].
  apply Look, le_ts_refl.
Qed.

Lemma changed_length k pts t e b : (length (changed_points k pts t e b) <= length pts + 2)%nat.
Proof.
  unfold changed_points, committed_of. rewrite length_app. cbn [length].
  assert (length match pts with q :: vs => if Timestamp_IsEmpty (q_ts q) then drop 1 vs else pts | [] => [] end <= length pts)%nat.
  { destruct pts as [|q vs]; [cbn; lia|]. destruct (Timestamp_IsEmpty _); [|done]. rewrite length_drop. cbn. lia. }
  destruct b; cbn [length]; lia.
Qed.

(** What a get on the new store returns. *)
Definition get_put (gopts : MVCCGetOptions) : MVCCGetResult :=
  if (length raw =? 0)%nat && negb (g_Tombstones gopts) then empty_get
  else MkGetResult (Some (MkValue raw ts)) None None RESUME_UNKNOWN 0 1 (Z.of_nat (length raw)).

Lemma put_at_get `{!ScanLaws L} {It} {M : MVCCIterator It} `{!IteratorLaws M (prefix_view db' key)} batch_reader maxItersBeforeSeek fuel NewMVCCIterator t gopts :
  (forall b, batch_reader b = Ok (batch_entries b, None)) -> 0 <= maxItersBeforeSeek -> (length (points db' key) + 2 <= fuel)%nat ->
  store_ok db' -> key <> [] -> ts_pos ts -> put_at key db db' txn ts raw -> le_ts ts t -> reads_own (g_Txn gopts) ->
  plain_get t gopts -> g_TargetBytes gopts = 0 -> kv_ok (kv_of (MkMVCCKey key ts, raw)) ->
  MVCCGet batch_reader maxItersBeforeSeek fuel NewMVCCIterator key t gopts = Ok (inl (get_put gopts)).
Proof.
  intros Br Nn Fu ok' Nk Pt At Le Ro Pg Tb Kv. set (c := get_config maxItersBeforeSeek key t gopts). pose proof (points_points_ok _ key (so_snapshot _ ok')) as Po.
  pose proof (view_ok key Nk _ _ Po) as Vo. pose proof (put_at_verdict c (so_snapshot _ ok') Nk Pt At Le Ro) as V.
  assert (Got : got c (prefix_view db' key) = if (length raw =? 0)%nat && negb (g_Tombstones gopts) then [] else [(MkMVCCKey key ts, raw)]).
  { unfold got, shown, stand_in. change (c_start c) with key. rewrite V. unfold emit. cbn [snd]. change (c_tombstones c) with (g_Tombstones gopts).
    destruct (_ && _) eqn:E; [|done]. apply andb_true_iff in E as [_ ->%negb_true_iff]. done. }
  rewrite (get_reads_value batch_reader Br maxItersBeforeSeek Nn NewMVCCIterator (prefix_view db' key)); try done.
  - fold c. unfold conflicting, conflict. rewrite V, Got. unfold get_put. destruct (_ && _); [done|]. cbv zeta. rewrite Tb. done.
  - apply (view_users key _ _ Po).
  - unfold prefix_view, key_view. destruct (Versions _); [cbn; lia|]. cbn [positions]. destruct (points db' key) as [|p0 l0]; [cbn; lia|]. cbn [length] in Fu.
    destruct (Timestamp_IsEmpty _); cbn [length]; lia.
  - pose proof (ts_pos_wall ts Pt). clear - Le H. unfold le_ts, Timestamp_LessEq, Timestamp_Less in Le. lia.
  - by apply view_decodable.
  - fold c. rewrite V. done.
  - fold c. rewrite Got. destruct (_ && _); [constructor|]. apply Forall_singleton. split; [done|]. apply Pt.
Qed.
End ReadBack.

(** * Conditional puts *)

(** The value, if it is there and not deleted, is the expected one; or it is not there, and that
    is expected or allowed. *)
Definition condition (expBytes : bytes) (allowNoExisting : bool) (ex : option Value) : bool :=
  match ex with
  | Some v =>
      if Value_IsPresent v then negb (length expBytes =? 0)%nat && beqb expBytes (drop 4 (val_RawBytes v))
      else (length expBytes =? 0)%nat || allowNoExisting
  | None => (length expBytes =? 0)%nat || allowNoExisting
  end.

Definition checksummed (ex : option Value) : Prop := match ex with Some v => val_RawBytes v = [] \/ (4 <= length (val_RawBytes v))%nat | None => True end.

Lemma conditional_spec value expBytes allow ex : checksummed ex ->
  conditional_value value expBytes allow ex = Ok (if condition expBytes allow ex then inl value else inr (ConditionFailedError ex)).
Proof.
  unfold checksummed, conditional_value, condition, optional_IsPresent, Value_IsPresent. destruct ex as [v|].
  - intros [E|E].
    + rewrite E. cbn [length Nat.eqb negb]. rewrite andb_false_r. by destruct (length expBytes =? 0)%nat, allow.
    + destruct (length (val_RawBytes v) =? 0)%nat eqn:E0; [apply Nat.eqb_eq in E0; lia|]. cbn [negb].
      destruct (length expBytes =? 0)%nat; cbn [negb andb Bool.eqb orb]; [done|]. unfold TagAndDataBytes, slice_from.
      replace ((0 <=? 4) && _) with true by lia. cbn [mbind res_bind]. by destruct (beqb _ _).
  - intros _. by destruct (length expBytes =? 0)%nat, allow.
Qed.

Lemma conditional_gives value expBytes allow ex v : conditional_value value expBytes allow ex = Ok (inl v) -> v = value.
Proof.
  unfold conditional_value. destruct ex as [u|]; [destruct (_ && _); [intros (a & _ & E)%res_bind_inv; destruct (negb _); congruence|]|]; destruct (_ && _); congruence.
Qed.

(** Initial puts: the value is there already, or it is not there, and was not deleted if that
    matters. *)
Definition init_condition (value : Value) (failOnTombstones : bool) (ex : option Value) : bool :=
  match ex with
  | Some v => if Value_IsPresent v then beqb (drop 4 (val_RawBytes v)) (drop 4 (val_RawBytes value)) else negb failOnTombstones
  | None => true
  end.

Lemma init_spec value failOnTombstones ex : checksummed ex -> (4 <= length (val_RawBytes value))%nat ->
  init_value value failOnTombstones ex = Ok (if init_condition value failOnTombstones ex then inl value else inr (ConditionFailedError ex)).
Proof.
  unfold checksummed, init_value, init_condition, optional_IsTombstone. destruct ex as [v|]; [|by rewrite andb_false_r].
  intros Ck Lv. destruct (Value_IsPresent v) eqn:Pv; cbn [negb]; [rewrite andb_false_r|rewrite andb_true_r; by destruct failOnTombstones].
  assert (4 <= length (val_RawBytes v))%nat by (destruct Ck as [E|]; [unfold Value_IsPresent in Pv; by rewrite E in Pv|done]).
  unfold EqualTagAndData, TagAndDataBytes, slice_from. replace ((0 <=? 4) && (4 <=? Z.of_nat (length (val_RawBytes v)))) with true by lia.
  replace ((0 <=? 4) && _) with true by lia. cbn [mbind res_bind]. change (Z.to_nat 4) with 4%nat. by destruct (beqb _ _).
Qed.

Lemma init_gives value failOnTombstones ex v : init_value value failOnTombstones ex = Ok (inl v) -> v = value.
Proof.
  unfold init_value. destruct (_ && _); [congruence|]. destruct ex as [u|]; [|congruence]. destruct (Value_IsPresent u); [|congruence].
  intros (a & _ & E)%res_bind_inv. destruct (negb _); congruence.
Qed.

(** * The properties *)

Section Claims.
Context `{L : ScanLib} `{!ScanLaws L} {HL : HeaderLaws} {ML : MetaLaws L} {W : Type} {Wr : Writer W}.
Context (batch_reader : batch -> res (list (bytes * bytes) * option string)).
Context (maxItersBeforeSeek : Z) (fuel : nat) (unlimited : account) (disableSimple : bool) `{!WriterLaws Wr disableSimple}.
Context (w : W) (key : bytes) {It : Type} {M : MVCCIterator It} `{!IteratorLaws M (prefix_view (w_db w) key)}.
Context (timestamp : Timestamp) (value : Value) (opts : MVCCWriteOptions).
Abbreviation pts := (points (w_db w) key).
Abbreviation rks := (Versions (stack_at (w_db w) key)).
Abbreviation rt := (write_times opts timestamp).1.
Abbreviation wt := (write_times opts timestamp).2.

(** C5: What is put is read back.  After a put that returned without an error, also if it was too
    old or replaced an intent of its transaction, [MVCCGet] on the new store at the timestamp
    written or above returns the value put; nothing, if it was a deletion and deletions are not
    asked for.  After a put in a transaction, this is what the transaction itself reads at that
    or a later sequence number. *)
Theorem MVCCPut_then_get (it : It) r {It'} {M' : MVCCIterator It'} `{!IteratorLaws M' (prefix_view (w_db (p_writer r)) key)} NewMVCCIterator :
  (forall b, batch_reader b = Ok (batch_entries b, None)) -> 0 <= maxItersBeforeSeek ->
  store_ok (w_db w) -> key <> [] -> timestamp <> EmptyTimestamp -> times_ok opts timestamp -> value_ok opts value ->
  mvccPutInternal batch_reader maxItersBeforeSeek fuel unlimited disableSimple w (Some it) key timestamp value None opts = Ok (inl r) ->
  ~ replayed disableSimple key w opts -> (length pts + 4 <= fuel)%nat ->
  exists ts, le_ts wt ts /\ put_at key (w_db w) (w_db (p_writer r)) (w_Txn opts) ts (val_RawBytes value) /\
    forall t gopts, plain_get t gopts -> g_TargetBytes gopts = 0 -> le_ts ts t -> reads_own (w_Txn opts) (g_Txn gopts) ->
    kv_ok (kv_of (MkMVCCKey key ts, val_RawBytes value)) ->
    MVCCGet batch_reader maxItersBeforeSeek fuel NewMVCCIterator key t gopts =
      Ok (inl (get_put ts (val_RawBytes value) gopts)).
Proof.
  intros Br Nn ok Nk Nt Times Vo H Nr Fu.
  destruct (put_changes batch_reader maxItersBeforeSeek fuel unlimited disableSimple key Nk w (so_snapshot _ ok) (so_intents _ ok key) timestamp Nt value None opts
    Times Vo it r H) as [[_ Re]|(ex & p & v & e & b & Pe)]; [done|].
  pose proof (effect_put_at disableSimple key w timestamp value None opts ex p r v e b Pe) as At.
  pose proof (pe_value _ _ _ _ _ _ _ _ _ _ _ _ _ Pe) as Ev. cbn in Ev. rewrite Ev in At.
  exists (pp_writeTimestamp p). split; [apply (pe_at_least _ _ _ _ _ _ _ _ _ _ _ _ _ Pe)|]. split; [done|]. intros t gopts Pg Tb Le Ro Kv.
  eapply put_at_get; try done; [|by eapply effect_store|apply (pe_ts _ _ _ _ _ _ _ _ _ _ _ _ _ Pe)].
  rewrite (pe_points _ _ _ _ _ _ _ _ _ _ _ _ _ Pe). pose proof (changed_length key pts (pp_writeTimestamp p) e b). lia.
Qed.

(** A value function that accepts or refuses, on a key without an intent and with nothing at or
    above the read timestamp. *)
Lemma checked_put (it : It) fn (x : bool) err :
  (forall b, batch_reader b = Ok (batch_entries b, None)) -> 0 <= maxItersBeforeSeek ->
  store_ok (w_db w) -> key <> [] -> timestamp <> EmptyTimestamp -> times_ok opts timestamp -> value_ok opts value -> request timestamp noValue opts ->
  Forall (fun q => q_ts q <> EmptyTimestamp) pts -> Forall (fun q => lt_ts (q_ts q) rt) pts -> Forall (fun v => lt_ts (v_Timestamp v) rt) rks ->
  reads_ok maxItersBeforeSeek fuel unlimited disableSimple key w rt -> (forall ex v, fn ex = Ok (inl v) -> v = value) ->
  fn (existing maxItersBeforeSeek unlimited disableSimple key w rt) = Ok (if x then inl value else inr err) ->
  if x then
    exists r, mvccPutInternal batch_reader maxItersBeforeSeek fuel unlimited disableSimple w (Some it) key timestamp noValue (Some fn) opts = Ok (inl r) /\
      p_tooOld r = None /\ put_at key (w_db w) (w_db (p_writer r)) (w_Txn opts) wt (val_RawBytes value)
  else mvccPutInternal batch_reader maxItersBeforeSeek fuel unlimited disableSimple w (Some it) key timestamp noValue (Some fn) opts = Ok (inr (err, w)).
Proof.
  intros Br Nn ok Nk Nt Times Vo Rq Fr A1 A2 Ro Fn Ef. assert (Vs : values_ok opts noValue (Some fn)) by (intros ex v E; by rewrite (Fn ex v E)).
  destruct (fresh_above batch_reader maxItersBeforeSeek fuel unlimited disableSimple key Nk w ok Br Nn Fr timestamp Nt noValue (Some fn) opts Vs Rq it A1 A2)
    as (ex & er & E); [done|]. rewrite Ef in E. destruct x; [|done]. cbn [stop_at try_bind mbind res_bind] in E.
  destruct (put_version_total disableSimple key opts ex (MkPlan w value wt er false 0 [] None (op_type opts))) as [r Er]; cbn; try done.
  { apply ts_pos_set, Times. }
  { apply Rq. }
  { unfold write_times. destruct (w_Txn opts); [|done]. apply txn_at_same. }
  rewrite Er in E. cbn [mbind res_bind] in E. exists r. split; [exact E|].
  destruct (fresh_done batch_reader maxItersBeforeSeek fuel unlimited disableSimple key Nk w ok timestamp noValue (Some fn) opts it r Fr Nt Times Vs E)
    as (ts & v & At & [e0 Ev] & Out).
  rewrite (Fn _ _ Ev) in At. destruct Out as [(Ne & Le & _)|(_ & -> & To)]; [|done].
  pose proof (newest_below _ _ _ Ne A1 A2) as Lt. unfold le_ts, lt_ts in *. by rewrite LessEq_negb, Lt in Le.
Qed.

(** C31: A conditional put.  On a key without an intent and with nothing at or above the read
    timestamp, [MVCCConditionalPut] writes the value if [MVCCGet] at the read timestamp returns
    the expected value, or none if none is expected or if that is allowed; and otherwise fails
    with a [ConditionFailedError] that holds what is there, and has written nothing. *)
Theorem MVCCConditionalPut_checks NewMVCCIterator expBytes allowIfDoesNotExist (ex := existing maxItersBeforeSeek unlimited disableSimple key w rt) :
  (forall b, batch_reader b = Ok (batch_entries b, None)) -> 0 <= maxItersBeforeSeek ->
  store_ok (w_db w) -> key <> [] -> timestamp <> EmptyTimestamp -> times_ok opts timestamp -> value_ok opts value -> request timestamp noValue opts ->
  Forall (fun q => q_ts q <> EmptyTimestamp) pts -> Forall (fun q => lt_ts (q_ts q) rt) pts -> Forall (fun v => lt_ts (v_Timestamp v) rt) rks ->
  reads_ok maxItersBeforeSeek fuel unlimited disableSimple key w rt -> checksummed ex ->
  (exists g, MVCCGet batch_reader maxItersBeforeSeek fuel (NewMVCCIterator w) key rt (existing_options unlimited) = Ok (inl g) /\ gr_Value g = ex) /\
  let put := MVCCConditionalPut batch_reader maxItersBeforeSeek fuel unlimited disableSimple NewMVCCIterator w key timestamp value expBytes allowIfDoesNotExist opts in
  if condition expBytes allowIfDoesNotExist ex then
    exists r, put = Ok (inl r) /\ p_tooOld r = None /\ put_at key (w_db w) (w_db (p_writer r)) (w_Txn opts) wt (val_RawBytes value)
  else put = Ok (inr (ConditionFailedError ex, w)).
Proof.
  intros Br Nn ok Nk Nt Times Vo Rq Fr A1 A2 Ro Ck. split.
  - exact (MVCCGet_existing batch_reader maxItersBeforeSeek fuel unlimited disableSimple key Nk w ok Br Nn Fr (NewMVCCIterator w) rt Ro).
  - cbv zeta. unfold MVCCConditionalPut, mvccConditionalPutUsingIter, mvccPutUsingIter. apply checked_put; try done.
    + apply conditional_gives.
    + by apply conditional_spec.
Qed.

(** C32: An initial put.  On a key without an intent and with nothing at or above the read
    timestamp, [MVCCInitPut] writes the value if [MVCCGet] at the read timestamp returns none,
    where a deletion counts as none unless it must not, or returns the same data; and otherwise
    fails with a [ConditionFailedError] that holds what is there, and has written nothing. *)
Theorem MVCCInitPut_checks NewMVCCIterator failOnTombstones (ex := existing maxItersBeforeSeek unlimited disableSimple key w rt) :
  (forall b, batch_reader b = Ok (batch_entries b, None)) -> 0 <= maxItersBeforeSeek ->
  store_ok (w_db w) -> key <> [] -> timestamp <> EmptyTimestamp -> times_ok opts timestamp -> value_ok opts value -> request timestamp noValue opts ->
  Forall (fun q => q_ts q <> EmptyTimestamp) pts -> Forall (fun q => lt_ts (q_ts q) rt) pts -> Forall (fun v => lt_ts (v_Timestamp v) rt) rks ->
  reads_ok maxItersBeforeSeek fuel unlimited disableSimple key w rt -> checksummed ex -> (4 <= length (val_RawBytes value))%nat ->
  (exists g, MVCCGet batch_reader maxItersBeforeSeek fuel (NewMVCCIterator w) key rt (existing_options unlimited) = Ok (inl g) /\ gr_Value g = ex) /\
  let put := MVCCInitPut batch_reader maxItersBeforeSeek fuel unlimited disableSimple NewMVCCIterator w key timestamp value failOnTombstones opts in
  if init_condition value failOnTombstones ex then
    exists r, put = Ok (inl r) /\ p_tooOld r = None /\ put_at key (w_db w) (w_db (p_writer r)) (w_Txn opts) wt (val_RawBytes value)
  else put = Ok (inr (ConditionFailedError ex, w)).
Proof.
  intros Br Nn ok Nk Nt Times Vo Rq Fr A1 A2 Ro Ck Lv. split.
  - exact (MVCCGet_existing batch_reader maxItersBeforeSeek fuel unlimited disableSimple key Nk w ok Br Nn Fr (NewMVCCIterator w) rt Ro).
  - cbv zeta. unfold MVCCInitPut, mvccInitPutUsingIter, mvccPutUsingIter. apply checked_put; try done.
    + apply init_gives.
    + by apply init_spec.
Qed.
End Claims.
