(* ===== verification/IntentOk.v ===== *)
(** Intents and the store.

    On a well-formed store, the resolution of an intent does not fail; it keeps the store
    well-formed and touches no other key or intent.  A committed intent is read by everyone, an
    aborted one leaves the key as it was before the put, and a pushed one is moved, as it is or
    as it was before the writes that were rolled back. *)
From stdpp Require Import sorting.
From S2P Require Import Prelude Bytes GoLib Hlc KeyOps Spans MvccKey RangeKeys MvccValue MvccIter Scanner ScanSpec ScanNav ScanOk PebbleResults ScanRead StoreOps MvccRead MvccReadOk MvccStats MvccWrite MvccResolve WriteSpec WriteOk ResolveSpec PutOk ResolveOk PutReads.

Section Outcomes.
Context `{L : ScanLib} {HL : HeaderLaws} {ML : MetaLaws L} {W : Type} {Wr : Writer W} (disableSimple : bool) `{!WriterLaws Wr disableSimple}.
Context (w : W) (ok : store_ok (w_db w)) (frag : fragmented (w_db w)) (Ds : intents_described disableSimple (w_db w)) (u : LockUpdate) (Uo : update_ok u).
Abbreviation key := (Key (u_Span u)).
Abbreviation pts := (points (w_db w) key).
Abbreviation rks := (Versions (stack_at (w_db w) key)).

(** ** Whether there is an intent of the transaction *)

(** The intent of the transaction at the key, with its version and what is below. *)
Record own_intent_at (m q : pos) (vs : list pos) (meta : MVCCMetadata) (txn : TxnMeta) : Prop := {
  oi_points : pts = m :: q :: vs;
  oi_meta : q_ts m = EmptyTimestamp;
  oi_unmarshal : UnmarshalMeta (default [] (q_val m)) = Ok meta;
  oi_described : described disableSimple meta txn (q_ts q) (default [] (q_val q));
  oi_id : t_ID (u_Txn u) = t_ID txn
}.

Definition no_intent : Prop :=
  forall m l meta txn, pts = m :: l -> q_ts m = EmptyTimestamp -> UnmarshalMeta (default [] (q_val m)) = Ok meta -> m_Txn meta = Some txn -> t_ID txn <> t_ID (u_Txn u).

Context {It : Type} {M : MVCCIterator It} `{IL : !IteratorLaws M (prefix_view (w_db w) key)} (SeekIntentGE : It -> bytes -> bytes -> It) `{!IntentSeeks M _ IL SeekIntentGE}.

Lemma resolve_found (it : It) (it1 := SeekIntentGE it key (t_ID (u_Txn u))) :
  (exists m q vs meta txn, own_intent_at m q vs meta txn /\ r_cur (it_abs it1) = At m) \/
  (no_intent /\ forall ms, mvccResolveWriteIntent disableSimple w it1 ms u = Ok (MkResolved w ms false)).
Proof.
  pose proof (points_points_ok _ key (so_snapshot _ ok)) as Po. pose proof (uo_key u Uo) as Nk. specialize (Ds key). pose proof (seek_intent it key (t_ID (u_Txn u))) as Si. fold it1 in Si.
  assert (Skip : (forall q, r_cur (it_abs it1) = At q -> has_point q = true -> q_ts q <> EmptyTimestamp) -> forall ms, mvccResolveWriteIntent disableSimple w it1 ms u = Ok (MkResolved w ms false)).
  { intros N ms. unfold mvccResolveWriteIntent. by rewrite (get_nothing key pts rks it1 N). }
  assert (Ot : forall m l meta, pts = m :: l -> q_ts m = EmptyTimestamp -> UnmarshalMeta (default [] (q_val m)) = Ok meta ->
    match m_Txn meta with Some t => t_ID t <> t_ID (u_Txn u) | None => True end -> r_cur (it_abs it1) = At m ->
    forall ms, mvccResolveWriteIntent disableSimple w it1 ms u = Ok (MkResolved w ms false)).
  { intros m l meta E T Um N A ms. unfold mvccResolveWriteIntent. rewrite (get_meta key pts rks Po it1 m l E T A), Um. cbn [mbind res_bind]. destruct (m_Txn meta) as [t|]; [|done].
    assert (beqb (t_ID (u_Txn u)) (t_ID t) = false) as -> by (apply not_true_is_false; intros ?%beqb_true; congruence). done. }
  assert (Cases : match pts with q :: _ => q_ts q <> EmptyTimestamp | [] => True end \/ exists m l, pts = m :: l /\ q_ts m = EmptyTimestamp).
  { destruct pts as [|m l]; [by left|]. destruct (decide (q_ts m = EmptyTimestamp)); [right; by exists m, l|by left]. }
  destruct Cases as [N|(m & l & E & T)].
  - right. split; [intros m l meta txn E T; by rewrite E in N|]. apply Skip. destruct Si as [Si|[_ Si]]; [|done]. rewrite Si. by apply (seek_no_meta key Nk pts rks Po).
  - destruct (Ds m l E T) as (meta & Um & Dl). assert (Other : match m_Txn meta with Some t => t_ID t <> t_ID (u_Txn u) | None => True end ->
      no_intent /\ forall ms, mvccResolveWriteIntent disableSimple w it1 ms u = Ok (MkResolved w ms false)).
    { intros N. split.
      - intros m' l' meta' txn' E' _ Um' Mt'. rewrite E in E'. injection E' as <- <-. rewrite Um in Um'. injection Um' as <-. by rewrite Mt' in N.
      - destruct Si as [Si|[_ Si]]; [|by apply Skip]. apply (Ot m l meta); try done. rewrite Si. by apply (seek_meta key Nk pts rks Po it m l). }
    destruct (m_Txn meta) as [t|] eqn:Mt; [|right; by apply Other]. destruct (decide (t_ID t = t_ID (u_Txn u))) as [Et|N]; [|right; by apply Other].
    left. destruct l as [|q vs]; [congruence|]. destruct Dl as [txn De]. pose proof (de_txn _ _ _ _ _ De) as Dt. rewrite Mt in Dt. injection Dt as <-.
    exists m, q, vs, meta, t. split; [by split|]. destruct Si as [Si|[Si _]]; [rewrite Si; by apply (seek_meta key Nk pts rks Po it m (q :: vs))|]. exfalso.
    assert (Im : m ∈ pts) by (rewrite E; left). apply (Si (default [] (q_val m)) meta t); try done. rewrite <- (meta_pos key _ rks Po m Im T). by apply view_in.
Qed.

(** ** The store after a resolution *)

Definition kept_store (db' : snapshot) : Prop :=
  store_ok db' /\ fragmented db' /\ intents_described disableSimple db' /\ forall k, k <> key -> prefix_view db' k = prefix_view (w_db w) k.

(** A change to the points of the key that keeps what is committed, with or without an intent. *)
Lemma changed_store db' : snapshot_ok db' -> stacks db' = stacks (w_db w) ->
  (forall pr, elsewhere (MkMVCCKey key EmptyTimestamp) pr -> List.filter pr (positions db') = List.filter pr (positions (w_db w))) ->
  (forall x, x ∈ points db' key -> q_ts x <> EmptyTimestamp -> exists y, DecodeMVCCValue (default [] (q_val x)) = Ok y) ->
  (forall m l, points db' key = m :: l -> q_ts m = EmptyTimestamp -> exists q vs meta txn, l = q :: vs /\ UnmarshalMeta (default [] (q_val m)) = Ok meta /\
     described disableSimple meta txn (q_ts q) (default [] (q_val q)) /\ Forall (fun v => lt_ts (v_Timestamp v) (q_ts q)) rks) ->
  kept_store db'.
Proof.
  intros ok' Es El Dec Me. assert (Op : forall k, k <> key -> points db' k = points (w_db w) k) by (intros k N; by apply El, elsewhere_points).
  assert (Sa : forall k, stack_at db' k = stack_at (w_db w) k) by (intros k; by apply stack_at_eq). split; [split|split; [by eapply fragmented_stacks|split]].
  - done.
  - intros k. rewrite Sa. destruct (decide (k = key)) as [->|N]; [|rewrite Op by done; apply ok]. intros m l E T.
    destruct (Me m l E T) as (q & vs & meta & txn & -> & Um & De & Fr). exists meta. split; [done|]. right. split; [apply (de_inline _ _ _ _ _ De)|].
    split; [exists txn; apply (de_txn _ _ _ _ _ De)|]. exists q, vs. split; [done|]. split; [symmetry; apply (de_time _ _ _ _ _ De)|done].
  - destruct (so_values _ ok) as [D1 D2]. split; [|by rewrite Es]. rewrite Forall_forall in D1. apply Forall_forall. intros x I N.
    assert (Hp : has_point x = true) by (unfold has_point; destruct (q_val x) eqn:V; [done|]; by destruct (ok_bare _ ok' x I V) as [? _]).
    assert (Ix : x ∈ points db' (q_user x)) by (by apply elem_points). destruct (decide (q_user x = key)) as [E|E]; [rewrite E in Ix; by apply Dec|].
    rewrite Op in Ix by done. apply elem_points in Ix as (Ix & _). by apply D1.
  - intros k m l E T. destruct (decide (k = key)) as [->|N]; [|rewrite Op in E by done; by apply (Ds k)].
    destruct (Me m l E T) as (q & vs & meta & txn & -> & Um & De & _). exists meta. split; [done|]. by exists txn.
  - intros k N. apply view_eq; [by apply Op|done].
Qed.

Lemma version_decodes x : x ∈ committed_of pts -> q_ts x <> EmptyTimestamp -> exists y, DecodeMVCCValue (default [] (q_val x)) = Ok y.
Proof. intros I N. apply committed_in, elem_points in I as (I & _). destruct (so_values _ ok) as [D _]. rewrite Forall_forall in D. by apply D. Qed.

Section Own.
Context (m q : pos) (vs : list pos) (meta : MVCCMetadata) (txn : TxnMeta) (Oi : own_intent_at m q vs meta txn).

Lemma own_below : committed_of pts = vs /\ Forall (fun v => lt_ts (v_Timestamp v) (q_ts q)) rks /\ ts_pos (q_ts q) /\ Forall (fun x => q_ts x <> EmptyTimestamp) vs /\
  Forall (fun x => lt_ts (q_ts x) (q_ts q)) vs.
Proof.
  destruct Oi as [E T Um De Ei]. pose proof (so_intents _ ok key m (q :: vs) E T) as (meta' & Um' & Hm). rewrite Um in Um'. injection Um' as <-.
  destruct (shape (w_db w) (so_snapshot _ ok) key m q vs E) as (_ & _ & _ & Pq & F1 & F2). split; [rewrite E; cbn [committed_of]; by rewrite (proj2 (IsEmpty_spec _) T)|].
  split; [|split; [done|split; [|done]]].
  - destruct Hm as [[_ N]|(_ & _ & p & rest & [= <- <-] & _ & F)]; [done|exact F].
  - eapply Forall_impl; [exact F1|]. by intros x [].
Qed.

Lemma stored_described meta2 txn2 ts e : described disableSimple meta2 txn2 ts e -> described disableSimple (stored_meta meta2 true) txn2 ts e.
Proof. intros []. by split. Qed.

Lemma updated_store u' raw txn1 meta1 v1 commit ms r ts e v b meta2 pv ps : Key (u_Span u') = key -> le_ts (q_ts q) ts ->
  updated disableSimple w u' m q vs meta raw txn1 meta1 v1 commit ms r ts e v b meta2 pv ps -> kept_store (w_db (rr_writer r)).
Proof.
  intros Ek Le Ud. destruct own_below as (Ec & Fr & Pq & _). pose proof (ud_points _ _ _ _ _ _ _ _ _ _ _ _ _ _ _ _ _ _ _ _ _ Ud) as Pn. rewrite Ek in Pn.
  unfold changed_points in Pn. rewrite Ec in Pn.
  pose proof (ud_meta _ _ _ _ _ _ _ _ _ _ _ _ _ _ _ _ _ _ _ _ _ Ud) as Mb. pose proof (ud_described _ _ _ _ _ _ _ _ _ _ _ _ _ _ _ _ _ _ _ _ _ Ud) as D2.
  apply changed_store.
  - apply (ud_ok _ _ _ _ _ _ _ _ _ _ _ _ _ _ _ _ _ _ _ _ _ Ud).
  - apply (ud_stacks _ _ _ _ _ _ _ _ _ _ _ _ _ _ _ _ _ _ _ _ _ Ud).
  - rewrite <- Ek. apply (ud_elsewhere _ _ _ _ _ _ _ _ _ _ _ _ _ _ _ _ _ _ _ _ _ Ud).
  - rewrite Pn. intros x [I|I]%elem_of_app N; [destruct b; [apply list_elem_of_singleton in I as ->; done|by apply elem_of_nil in I]|].
    apply elem_of_cons in I as [->|I]; [|apply version_decodes; [by rewrite Ec|done]]. exists v.
    by destruct (encodes_spec _ _ _ (ud_encodes _ _ _ _ _ _ _ _ _ _ _ _ _ _ _ _ _ _ _ _ _ Ud)) as (? & _).
  - rewrite Pn. intros m' l E T. destruct b as [b|]; cbn [app] in E.
    + injection E as <- <-. destruct Mb as (_ & _ & Um). eexists _, vs, _, _. split; [done|]. split; [exact Um|]. split; [by apply stored_described|].
      eapply Forall_impl; [exact Fr|]. cbn. intros x Hx. by eapply lt_le_ts_trans.
    + injection E as <- <-. cbn in T. exfalso. rewrite T in Le. destruct Pq as (_ & B & _). clear - Le B. unfold le_ts, lt_ts in *. by rewrite LessEq_negb, B in Le.
Qed.

Lemma removal_store ms r info change : removal disableSimple w u m vs meta ms r info change -> kept_store (w_db (rr_writer r)).
Proof.
  intros Rm. destruct own_below as (Ec & Fr & Pq & Nv & _). pose proof (rm_points _ _ _ _ _ _ _ _ _ _ Rm) as Pn. apply changed_store.
  - apply (rm_ok _ _ _ _ _ _ _ _ _ _ Rm).
  - apply (rm_stacks _ _ _ _ _ _ _ _ _ _ Rm).
  - apply (rm_elsewhere _ _ _ _ _ _ _ _ _ _ Rm).
  - rewrite Pn. intros x I N. apply version_decodes; [by rewrite Ec|done].
  - rewrite Pn. intros m' l -> T. by apply Forall_cons in Nv as [? _].
Qed.
End Own.
(** ** All outcomes *)

Lemma outcome_store m q vs meta txn ms r : own_intent_at m q vs meta txn -> outcome disableSimple w u m q vs meta txn ms (decision_of u meta txn (q_ts q)) r ->
  kept_store (w_db (rr_writer r)).
Proof.
  intros Oi Out. assert (Le : forall ts nts, ts = (if Timestamp_Less (q_ts q) nts then nts else q_ts q) -> le_ts (q_ts q) ts).
  { intros ts nts ->. destruct (Timestamp_Less (q_ts q) nts) eqn:Lt; [by apply lt_le_ts|apply le_ts_refl]. }
  destruct (decision_of u meta txn (q_ts q)) as [|commit [[i h]|]|]; cbn [outcome] in Out.
  - rewrite Out. by split_and!.
  - destruct Out as (v1 & ts & e & v & b & meta2 & pv & ps & _ & Ud).
    pose proof (Le _ _ (ud_ts _ _ _ _ _ _ _ _ _ _ _ _ _ _ _ _ _ _ _ _ _ Ud)) as L1. exact (updated_store _ _ _ _ _ Oi (applied u q (Some (i, h))) _ _ _ _ _ _ _ _ _ _ _ _ _ _ eq_refl L1 Ud).
  - destruct Out as (v1 & ts & e & v & b & meta2 & pv & ps & _ & Ud).
    pose proof (Le _ _ (ud_ts _ _ _ _ _ _ _ _ _ _ _ _ _ _ _ _ _ _ _ _ _ Ud)) as L1. exact (updated_store _ _ _ _ _ Oi u _ _ _ _ _ _ _ _ _ _ _ _ _ _ eq_refl L1 Ud).
  - destruct Out as (info & change & Rm). by eapply removal_store.
Qed.

(** A request for one key, which does not ask for nothing to be done. *)
Definition point_request (TargetBytes : Z) : Prop := default [] (EndKey (u_Span u)) = [] /\ 0 <= TargetBytes.

Lemma resolve_enters NewMVCCIterator ms TargetBytes r (it := SeekIntentGE (NewMVCCIterator w MVCCKeyAndIntentsIterKind (MkIterOptions true [] [] IterKeyTypePointsAndRanges EmptyTimestamp)) key (t_ID (u_Txn u))) :
  point_request TargetBytes -> mvccResolveWriteIntent disableSimple w it ms u = Ok r ->
  MVCCResolveWriteIntent disableSimple NewMVCCIterator SeekIntentGE w ms u TargetBytes = Ok (r, BufferedSize (rr_writer r) - BufferedSize w, None).
Proof.
  intros [Ee Tb] E. unfold MVCCResolveWriteIntent. assert ((length key =? 0)%nat = false) as -> by (apply Nat.eqb_neq; intros ?%nil_length_inv; by destruct (uo_key u Uo)).
  assert (match EndKey (u_Span u) with Some e => negb (length e =? 0)%nat | None => false end = false) as -> by (destruct (EndKey (u_Span u)); [cbn in Ee; by subst|done]).
  assert ((TargetBytes <? 0) = false) as -> by lia. fold it. rewrite E. done.
Qed.

Lemma resolve_runs NewMVCCIterator ms TargetBytes : point_request TargetBytes ->
  exists r n, MVCCResolveWriteIntent disableSimple NewMVCCIterator SeekIntentGE w ms u TargetBytes = Ok (r, n, None) /\
    ((no_intent /\ r = MkResolved w ms false /\ n = 0) \/
     exists m q vs meta txn, own_intent_at m q vs meta txn /\ outcome disableSimple w u m q vs meta txn ms (decision_of u meta txn (q_ts q)) r).
Proof.
  intros Pr. pose proof (resolve_found (NewMVCCIterator w MVCCKeyAndIntentsIterKind (MkIterOptions true [] [] IterKeyTypePointsAndRanges EmptyTimestamp))) as F.
  destruct F as [(m & q & vs & meta & txn & Oi & A)|[No E]].
  - destruct Oi as [Ep Tm Um De Ei].
    destruct (resolve_changes disableSimple w ok frag u Uo m q vs Ep Tm meta txn Um De Ei _ ms A) as (r & Er & Out).
    eexists r, _. split; [by apply resolve_enters|]. right. exists m, q, vs, meta, txn. by split.
  - eexists _, _. split; [apply resolve_enters; [done|apply E]|]. left. split_and!; try done. cbn. lia.
Qed.

(** With the intent of the transaction there. *)
Lemma resolve_own NewMVCCIterator ms TargetBytes m q vs meta txn : point_request TargetBytes -> own_intent_at m q vs meta txn ->
  exists r n, MVCCResolveWriteIntent disableSimple NewMVCCIterator SeekIntentGE w ms u TargetBytes = Ok (r, n, None) /\
    outcome disableSimple w u m q vs meta txn ms (decision_of u meta txn (q_ts q)) r.
Proof.
  intros Pr Oi. destruct (resolve_runs NewMVCCIterator ms TargetBytes Pr) as (r & n & Er & [(No & _)|(m' & q' & vs' & meta' & txn' & Oi' & Out)]).
  - destruct Oi as [Ep Tm Um De Ei]. exfalso. apply (No m (q :: vs) meta txn); try done. apply (de_txn _ _ _ _ _ De).
  - exists r, n. split; [done|]. destruct Oi as [E1 _ U1 D1 _], Oi' as [E2 _ U2 D2 _]. rewrite E1 in E2. injection E2 as <- <- <-. rewrite U1 in U2. injection U2 as <-.
    pose proof (de_txn _ _ _ _ _ D1) as T1. rewrite (de_txn _ _ _ _ _ D2) in T1. by injection T1 as ->.
Qed.
End Outcomes.

(** * Rollbacks *)

(** The newest write of an intent that was not rolled back. *)
Definition surviving (meta : MVCCMetadata) (txn : TxnMeta) (raw : bytes) (ignored : list IgnoredSeqNumRange) : option bytes :=
  if TxnSeqIsIgnored (t_Sequence txn) ignored
  then h_Value <$> last (List.filter (fun h => negb (TxnSeqIsIgnored (h_Sequence h) ignored)) (m_IntentHistory meta)) else Some raw.

Lemma last_kept_last n h ignored : (n <= length h)%nat ->
  snd <$> last_kept n h ignored = last (List.filter (fun e => negb (TxnSeqIsIgnored (h_Sequence e) ignored)) (take n h)).
Proof.
  induction n as [|n IH]; intros Hn; [done|]. cbn [last_kept]. destruct (lookup_lt_is_Some_2 h n) as [e Ee]; [lia|]. rewrite Ee, (take_S_r _ _ _ Ee), filter_app. cbn [List.filter].
  destruct (negb (TxnSeqIsIgnored (h_Sequence e) ignored)); [by rewrite last_snoc|]. rewrite app_nil_r. apply IH. lia.
Qed.

Lemma last_kept_prefix h l ignored : last_kept (length h) (h ++ l) ignored = last_kept (length h) h ignored.
Proof.
  assert (G : forall n, (n <= length h)%nat -> last_kept n (h ++ l) ignored = last_kept n h ignored).
  { induction n as [|n IH]; intros Hn; [done|]. cbn [last_kept]. rewrite lookup_app_l by lia. destruct (h !! n); [|done]. destruct (negb _); [done|]. apply IH. lia. }
  by apply G.
Qed.
Lemma last_kept_none h ignored : Forall (fun e => TxnSeqIsIgnored (h_Sequence e) ignored = true) h -> last_kept (length h) h ignored = None.
Proof.
  induction h as [|x h IH] using rev_ind; [done|]. intros [F Fx]%Forall_app. apply Forall_cons in Fx as [Fx _]. rewrite length_app. cbn [length]. rewrite Nat.add_1_r.
  cbn [last_kept]. rewrite list_lookup_middle, Fx by done. cbn [negb]. rewrite last_kept_prefix. by apply IH.
Qed.
Lemma last_kept_split before h after ignored : TxnSeqIsIgnored (h_Sequence h) ignored = false -> Forall (fun e => TxnSeqIsIgnored (h_Sequence e) ignored = true) after ->
  last_kept (length (before ++ h :: after)) (before ++ h :: after) ignored = Some (length before, h).
Proof.
  intros Nh. induction after as [|x l IH] using rev_ind; intros F.
  - rewrite length_app. cbn [length]. rewrite Nat.add_1_r. cbn [last_kept]. by rewrite list_lookup_middle, Nh by done.
  - apply Forall_app in F as [F Fx]. apply Forall_cons in Fx as [Fx _]. specialize (IH F).
    assert (E : before ++ h :: l ++ [x] = (before ++ h :: l) ++ [x]) by (by rewrite <- app_assoc). rewrite E, (length_app (before ++ h :: l)). cbn [length]. rewrite Nat.add_1_r.
    cbn [last_kept]. rewrite list_lookup_middle, Fx by done. cbn [negb]. by rewrite last_kept_prefix.
Qed.

Lemma kept_surviving u meta txn ts raw : commits u txn ts = true ->
  match surviving meta txn raw (u_IgnoredSeqNums u) with
  | Some x =>
      (decision_of u meta txn ts = Update true None /\ x = raw) \/
      exists i h, decision_of u meta txn ts = Update true (Some (i, h)) /\ x = h_Value h
  | None => decision_of u meta txn ts = Remove
  end.
Proof.
  intros Co. assert (Em : (t_Epoch txn =? t_Epoch (u_Txn u)) = true) by (unfold commits in Co; by apply andb_true_iff in Co as [[_ ?]%andb_true_iff _]).
  unfold decision_of, kept_of, surviving. rewrite Co, Em. cbn [orb]. rewrite !andb_true_r. destruct (TxnSeqIsIgnored (t_Sequence txn) (u_IgnoredSeqNums u)) eqn:Ig.
  - assert ((length (u_IgnoredSeqNums u) =? 0)%nat = false) as ->. { apply Nat.eqb_neq. intros E%nil_length_inv. by rewrite E in Ig. }
    cbn [negb andb]. pose proof (last_kept_last (length (m_IntentHistory meta)) (m_IntentHistory meta) (u_IgnoredSeqNums u) (le_n _)) as Lk. rewrite take_ge in Lk by done. rewrite <- Lk.
    destruct (last_kept _ _ _) as [[i h]|]; cbn; [|done]. right. by exists i, h.
  - rewrite andb_false_r. by left.
Qed.

(** * The properties *)

Section Claims.
Context `{L : ScanLib} {HL : HeaderLaws} {ML : MetaLaws L} {W : Type} {Wr : Writer W} (disableSimple : bool) `{!WriterLaws Wr disableSimple}.

Section Store.
Context (w : W) (u : LockUpdate).
Abbreviation key := (Key (u_Span u)).
Context {It : Type} {M : MVCCIterator It} `{IL : !IteratorLaws M (prefix_view (w_db w) key)} (SeekIntentGE : It -> bytes -> bytes -> It) `{!IntentSeeks M _ IL SeekIntentGE}.
Context (NewMVCCIterator : W -> IterKind -> IterOptions -> It) (ms : option MVCCStats) (TargetBytes : Z).
Abbreviation resolve := (MVCCResolveWriteIntent disableSimple NewMVCCIterator SeekIntentGE w ms u TargetBytes).

(** C4: Resolution keeps the store.  On a well-formed store whose metadata describes its intents,
    [MVCCResolveWriteIntent] of a single key does not fail, whichever transaction, status, epoch,
    timestamp and rolled back sequence numbers it is given; the store stays well-formed with
    metadata that describes its intents, and every other key is as it was. *)
Theorem resolve_keeps_store : store_ok (w_db w) -> fragmented (w_db w) -> intents_described disableSimple (w_db w) -> update_ok u -> point_request u TargetBytes ->
  exists r n, resolve = Ok (r, n, None) /\
    store_ok (w_db (rr_writer r)) /\ fragmented (w_db (rr_writer r)) /\ intents_described disableSimple (w_db (rr_writer r)) /\
    forall k, k <> key -> prefix_view (w_db (rr_writer r)) k = prefix_view (w_db w) k.
Proof.
  intros ok Fr Ds Uo Pr. destruct (resolve_runs disableSimple w ok Fr Ds u Uo SeekIntentGE NewMVCCIterator ms TargetBytes Pr) as (r & n & Er & [(_ & -> & _)|(m & q & vs & meta & txn & Oi & Out)]).
  - by eexists _, n.
  - exists r, n. split; [done|]. exact (outcome_store disableSimple w ok Fr Ds u m q vs meta txn ms r Oi Out).
Qed.

(** C16: Other intents are left alone.  If the key has no intent of the transaction,
    [MVCCResolveWriteIntent] writes nothing and says so; and if it may write nothing, it says
    where to resume. *)
Theorem resolve_skips : store_ok (w_db w) -> fragmented (w_db w) -> intents_described disableSimple (w_db w) -> update_ok u -> default [] (EndKey (u_Span u)) = [] ->
  (TargetBytes < 0 -> resolve = Ok (MkResolved w ms false, 0, Some (MkSpan key None))) /\
  (0 <= TargetBytes -> no_intent disableSimple w u -> resolve = Ok (MkResolved w ms false, 0, None)).
Proof.
  intros ok Fr Ds Uo Ee. split.
  - intros Tb. unfold MVCCResolveWriteIntent. assert ((length key =? 0)%nat = false) as -> by (apply Nat.eqb_neq; intros ?%nil_length_inv; by destruct (uo_key u Uo)).
    assert (match EndKey (u_Span u) with Some e => negb (length e =? 0)%nat | None => false end = false) as -> by (destruct (EndKey (u_Span u)); [cbn in Ee; by subst|done]).
    by assert ((TargetBytes <? 0) = true) as -> by lia.
  - intros Tb No. destruct (resolve_runs disableSimple w ok Fr Ds u Uo SeekIntentGE NewMVCCIterator ms TargetBytes (conj Ee Tb)) as (r & n & -> & [(_ & -> & ->)|(m & q & vs & meta & txn & Oi & _)]); [done|].
    exfalso. destruct Oi as [Ep Tm Um De Ei]. apply (No m (q :: vs) meta txn); try done. apply (de_txn _ _ _ _ _ De).
Qed.

(** ** Intents of the transaction *)

Context (ok : store_ok (w_db w)) (Fr : fragmented (w_db w)) (Ds : intents_described disableSimple (w_db w)) (Uo : update_ok u) (Pr : point_request u TargetBytes).
Context (m q : pos) (vs : list pos) (meta : MVCCMetadata) (txn : TxnMeta) (Oi : own_intent_at disableSimple w u m q vs meta txn).
Abbreviation newTs := (t_WriteTimestamp (u_Txn u)).

Lemma updated_put_at u' raw txn1 meta1 v1 commit r ts e v b meta2 pv ps : Key (u_Span u') = key -> le_ts (q_ts q) ts -> commit = true ->
  updated disableSimple w u' m q vs meta raw txn1 meta1 v1 commit ms r ts e v b meta2 pv ps -> put_at key (w_db w) (w_db (rr_writer r)) None ts (RawBytes v1).
Proof.
  intros Ek Le -> Ud. destruct (own_below disableSimple w ok u m q vs meta txn Oi) as (Ec & Fq & _ & _ & Fv).
  pose proof (ud_meta _ _ _ _ _ _ _ _ _ _ _ _ _ _ _ _ _ _ _ _ _ Ud) as Mb. assert (b = None) as -> by (destruct b as [b|]; [by destruct Mb|done]).
  exists v, e, None. split_and!; try done.
  - by destruct (encodes_spec _ _ _ (ud_encodes _ _ _ _ _ _ _ _ _ _ _ _ _ _ _ _ _ _ _ _ _ Ud)) as (? & _).
  - apply (ud_raw _ _ _ _ _ _ _ _ _ _ _ _ _ _ _ _ _ _ _ _ _ Ud).
  - rewrite <- Ek. apply (ud_points _ _ _ _ _ _ _ _ _ _ _ _ _ _ _ _ _ _ _ _ _ Ud).
  - split; [rewrite Ec|]; (eapply Forall_impl; [first [exact Fv|exact Fq]|]; cbn; intros x Hx; by eapply lt_le_ts_trans).
  - apply (ud_stacks _ _ _ _ _ _ _ _ _ _ _ _ _ _ _ _ _ _ _ _ _ Ud).
  - intros k N. apply (ud_elsewhere _ _ _ _ _ _ _ _ _ _ _ _ _ _ _ _ _ _ _ _ _ Ud). rewrite Ek. by apply elsewhere_points.
Qed.

(** A rollback does not move the intent down. *)
Lemma applied_ts i h (nts := t_WriteTimestamp (u_Txn (applied u q (Some (i, h))))) :
  (if Timestamp_Less (q_ts q) nts then nts else q_ts q) = if Timestamp_Less (q_ts q) newTs then newTs else q_ts q.
Proof.
  unfold nts. cbn [applied forward_update u_Txn set_WriteTimestamp t_WriteTimestamp]. rewrite less_forward. destruct (Timestamp_Less (q_ts q) newTs) eqn:E; [|done].
  unfold Timestamp_Forward. assert (Timestamp_Less newTs (q_ts q) = false) as -> by (apply not_true_is_false; intros E2; by apply (lt_ts_irrefl (q_ts q)), (lt_ts_trans _ newTs)).
  assert (Timestamp_EqOrdering newTs (q_ts q) = false) as ->; [|done]. apply not_true_is_false. clear - E. ts.
Qed.

(** The store after a commit. *)
Lemma commit_done (ts := if Timestamp_Less (q_ts q) newTs then newTs else q_ts q) :
  u_Status u = COMMITTED -> t_Epoch txn = t_Epoch (u_Txn u) -> le_ts (q_ts q) newTs ->
  exists r n, resolve = Ok (r, n, None) /\ rr_ok r = true /\ store_ok (w_db (rr_writer r)) /\ ts_pos ts /\
    match surviving meta txn (default [] (q_val q)) (u_IgnoredSeqNums u) with
    | Some x => exists v, DecodeMVCCValue x = Ok v /\ put_at key (w_db w) (w_db (rr_writer r)) None ts (RawBytes v)
    | None => points (w_db (rr_writer r)) key = vs
    end.
Proof.
  intros St Ee Le. assert (Co : commits u txn (q_ts q) = true) by (unfold commits; rewrite St, Ee, Z.eqb_refl; exact Le).
  pose proof (kept_surviving u meta txn (q_ts q) (default [] (q_val q)) Co) as Ks.
  destruct (resolve_own disableSimple w ok Fr Ds u Uo SeekIntentGE NewMVCCIterator ms TargetBytes m q vs meta txn Pr Oi) as (r & n & Er & Out).
  pose proof (outcome_store disableSimple w ok Fr Ds u m q vs meta txn ms r Oi Out) as [ok' _]. exists r, n. split; [done|].
  destruct (own_below disableSimple w ok u m q vs meta txn Oi) as (_ & _ & Pq & _).
  assert (Pt : ts_pos ts) by (unfold ts; destruct (Timestamp_Less _ _); [apply Uo|done]).
  assert (Lt : le_ts (q_ts q) ts) by (unfold ts; destruct (Timestamp_Less _ _); [done|apply le_ts_refl]).
  destruct (surviving _ _ _ _) as [x|]; [destruct Ks as [[Ed ->]|(i & h & Ed & ->)]|rename Ks into Ed]; rewrite Ed in Out; cbn [outcome] in Out.
  - destruct Out as (v1 & ts' & e & v & b & meta2 & pv & ps & En & Ud). pose proof (ud_ts _ _ _ _ _ _ _ _ _ _ _ _ _ _ _ _ _ _ _ _ _ Ud) as Et. fold ts in Et. rewrite Et in Ud.
    split; [apply (ud_done _ _ _ _ _ _ _ _ _ _ _ _ _ _ _ _ _ _ _ _ _ Ud)|]. split; [done|]. split; [done|]. exists v1. split; [by destruct (encodes_spec _ _ _ En) as (? & _)|].
    exact (updated_put_at u _ _ _ _ _ _ _ _ _ _ _ _ _ eq_refl Lt eq_refl Ud).
  - destruct Out as (v1 & ts' & e & v & b & meta2 & pv & ps & En & Ud). pose proof (ud_ts _ _ _ _ _ _ _ _ _ _ _ _ _ _ _ _ _ _ _ _ _ Ud) as Et.
    rewrite applied_ts in Et. fold ts in Et. rewrite Et in Ud.
    split; [apply (ud_done _ _ _ _ _ _ _ _ _ _ _ _ _ _ _ _ _ _ _ _ _ Ud)|]. split; [done|]. split; [done|]. exists v1. split; [by destruct (encodes_spec _ _ _ En) as (? & _)|].
    exact (updated_put_at (applied u q (Some (i, h))) _ _ _ _ _ _ _ _ _ _ _ _ _ eq_refl Lt eq_refl Ud).
  - destruct Out as (info & change & Rm). split; [apply (rm_done _ _ _ _ _ _ _ _ _ _ Rm)|]. split; [done|]. split; [done|]. apply (rm_points _ _ _ _ _ _ _ _ _ _ Rm).
Qed.

(** C7: A commit makes the last write visible.  On the intent of a transaction of the same epoch
    at or below the commit timestamp, [MVCCResolveWriteIntent] leaves the newest write that was
    not rolled back as a committed version, at the commit timestamp; after it, everyone's
    [MVCCGet] at or above the timestamp returns it.  If all writes were rolled back, it leaves
    what was committed before. *)
Theorem resolve_commits batch_reader maxItersBeforeSeek fuel (ts := if Timestamp_Less (q_ts q) newTs then newTs else q_ts q) `{!ScanLaws L} :
  u_Status u = COMMITTED -> t_Epoch txn = t_Epoch (u_Txn u) -> le_ts (q_ts q) newTs ->
  (forall b, batch_reader b = Ok (batch_entries b, None)) -> 0 <= maxItersBeforeSeek -> (length vs + 3 <= fuel)%nat ->
  exists r n, resolve = Ok (r, n, None) /\ rr_ok r = true /\
    match surviving meta txn (default [] (q_val q)) (u_IgnoredSeqNums u) with
    | Some x =>
        exists v, DecodeMVCCValue x = Ok v /\ put_at key (w_db w) (w_db (rr_writer r)) None ts (RawBytes v) /\
          forall It' (M' : MVCCIterator It') (IL' : IteratorLaws M' (prefix_view (w_db (rr_writer r)) key)) New' t gopts,
          plain_get t gopts -> g_TargetBytes gopts = 0 -> le_ts ts t -> kv_ok (kv_of (MkMVCCKey key ts, RawBytes v)) ->
          MVCCGet batch_reader maxItersBeforeSeek fuel New' key t gopts = Ok (inl (get_put ts (RawBytes v) gopts))
    | None => points (w_db (rr_writer r)) key = vs
    end.
Proof.
  intros St Ee Le Br Nn Fu. destruct (commit_done St Ee Le) as (r & n & Er & Ok' & ok' & Pt & S). exists r, n. split; [done|]. split; [done|]. fold ts in Pt, S.
  destruct (surviving _ _ _ _) as [x|]; [|done]. destruct S as (v & Dv & At). exists v. split; [done|]. split; [done|]. intros It' M' IL' New' t gopts Pg Tb Lt Kv.
  eapply (put_at_get key (w_db w) (w_db (rr_writer r)) None ts (RawBytes v)); try done; [|apply Uo].
  destruct At as (v' & e & b & _ & _ & -> & _ & _ & _ & Tx). destruct b; [done|]. unfold changed_points. destruct (own_below disableSimple w ok u m q vs meta txn Oi) as (-> & _). cbn. lia.
Qed.

(** The version and the metadata of an intent that stays: the value of [raw] at [ts], with the
    sequence number and the history. *)
Definition stays (db' : snapshot) (raw : bytes) (ts : Timestamp) (seq : Z) (history : list SequencedIntent) : Prop :=
  exists e b v v' meta', points db' key = changed_points key (points (w_db w) key) ts e (Some b) /\
    DecodeMVCCValue raw = Ok v /\ DecodeMVCCValue e = Ok v' /\ RawBytes v' = RawBytes v /\
    UnmarshalMeta b = Ok meta' /\ m_Txn meta' = Some (set_WriteTimestamp (set_Sequence txn seq) ts) /\
    LegacyTimestamp_ToTimestamp (m_Timestamp meta') = ts /\ m_IntentHistory meta' = history.

Lemma updated_stays u' raw txn1 meta1 v1 r ts e v b meta2 pv ps r0 : Key (u_Span u') = key -> encodes disableSimple v1 r0 ->
  updated disableSimple w u' m q vs meta raw txn1 meta1 v1 false ms r ts e v b meta2 pv ps -> txn1 = set_Sequence txn (t_Sequence txn1) ->
  rr_ok r = true /\ stays (w_db (rr_writer r)) r0 ts (t_Sequence txn1) (m_IntentHistory meta1).
Proof.
  intros Ek En Ud Et. split; [apply (ud_done _ _ _ _ _ _ _ _ _ _ _ _ _ _ _ _ _ _ _ _ _ Ud)|]. pose proof (ud_meta _ _ _ _ _ _ _ _ _ _ _ _ _ _ _ _ _ _ _ _ _ Ud) as Mb.
  destruct b as [b|]; [|done]. destruct Mb as (_ & _ & Um). exists e, b, v1, v. eexists. pose proof (ud_described _ _ _ _ _ _ _ _ _ _ _ _ _ _ _ _ _ _ _ _ _ Ud) as De.
  pose proof (ud_points _ _ _ _ _ _ _ _ _ _ _ _ _ _ _ _ _ _ _ _ _ Ud) as Pn. rewrite Ek in Pn.
  split; [exact Pn|]. split; [by destruct (encodes_spec _ _ _ En) as (? & _)|].
  split; [by destruct (encodes_spec _ _ _ (ud_encodes _ _ _ _ _ _ _ _ _ _ _ _ _ _ _ _ _ _ _ _ _ Ud)) as (? & _)|].
  split; [apply (ud_raw _ _ _ _ _ _ _ _ _ _ _ _ _ _ _ _ _ _ _ _ _ Ud)|]. split; [exact Um|]. cbn [stored_meta m_Txn m_Timestamp m_IntentHistory].
  split; [rewrite (de_txn _ _ _ _ _ De), <- Et; done|]. split; [apply (de_time _ _ _ _ _ De)|]. apply (ud_history _ _ _ _ _ _ _ _ _ _ _ _ _ _ _ _ _ _ _ _ _ Ud).
Qed.

(** What a resolution decides while the transaction is in progress. *)
Lemma progress_decision (ignored := u_IgnoredSeqNums u) : IsFinalized (u_Status u) = false -> t_Epoch (u_Txn u) <= t_Epoch txn ->
  decision_of u meta txn (q_ts q) =
    if (t_Epoch txn =? t_Epoch (u_Txn u)) && TxnSeqIsIgnored (t_Sequence txn) ignored then
      match last_kept (length (m_IntentHistory meta)) (m_IntentHistory meta) ignored with None => Remove | kept => Update false kept end
    else if Timestamp_Less (q_ts q) newTs then Update false None else Keep.
Proof.
  intros Fi Le. assert (Ip : in_progress u txn = true) by (unfold in_progress; rewrite Fi; lia).
  assert (Co : commits u txn (q_ts q) = false) by (unfold commits; by destruct (u_Status u)).
  unfold decision_of, kept_of. rewrite Co, Ip. cbn [orb]. rewrite andb_true_r. fold ignored. destruct (t_Epoch txn =? t_Epoch (u_Txn u)); [|by rewrite andb_false_r].
  rewrite andb_true_r. destruct (TxnSeqIsIgnored (t_Sequence txn) ignored) eqn:Ig; cbn [andb]; [|by rewrite andb_false_r].
  assert ((length ignored =? 0)%nat = false) as ->; [|by destruct (last_kept _ _ _)]. apply Nat.eqb_neq. intros E%nil_length_inv. by rewrite E in Ig.
Qed.

(** C8: What becomes of the intent of a transaction in progress, of the same epoch as the request
    or a later one.  If its last write was not rolled back, or the epochs differ,
    [MVCCResolveWriteIntent] for a higher timestamp moves the version and its metadata there with
    the value, the sequence number and the history it had, and for a timestamp that is not higher
    writes nothing.  If the last write was rolled back, the intent goes back to the newest write
    of the history that was not, with the history before it, at the higher of the timestamps; and
    if all were, the intent is removed and what was committed below it is left. *)
Theorem resolve_pushes (ignored := u_IgnoredSeqNums u) (rolled := fun h => TxnSeqIsIgnored (h_Sequence h) ignored = true) :
  IsFinalized (u_Status u) = false -> t_Epoch (u_Txn u) <= t_Epoch txn ->
  exists r n, resolve = Ok (r, n, None) /\
  if (t_Epoch txn =? t_Epoch (u_Txn u)) && TxnSeqIsIgnored (t_Sequence txn) ignored then
    (forall before h after, m_IntentHistory meta = before ++ h :: after -> ~ rolled h -> Forall rolled after ->
       rr_ok r = true /\ stays (w_db (rr_writer r)) (h_Value h) (if Timestamp_Less (q_ts q) newTs then newTs else q_ts q) (h_Sequence h) before) /\
    (Forall rolled (m_IntentHistory meta) -> rr_ok r = true /\ points (w_db (rr_writer r)) key = vs)
  else if Timestamp_Less (q_ts q) newTs then
    rr_ok r = true /\ stays (w_db (rr_writer r)) (default [] (q_val q)) newTs (t_Sequence txn) (m_IntentHistory meta)
  else r = MkResolved w ms false.
Proof.
  intros Fi Le. destruct (resolve_own disableSimple w ok Fr Ds u Uo SeekIntentGE NewMVCCIterator ms TargetBytes m q vs meta txn Pr Oi) as (r & n & Er & Out).
  rewrite (progress_decision Fi Le) in Out. exists r, n. split; [done|]. fold ignored in Out. destruct (_ && TxnSeqIsIgnored _ _); [split|].
  - intros before h after Eh Nh Fa. rewrite Eh, last_kept_split in Out by (try done; by apply not_true_is_false). cbn [outcome] in Out.
    destruct Out as (v1 & ts & e & v & b & meta2 & pv & ps & En & Ud). pose proof (ud_ts _ _ _ _ _ _ _ _ _ _ _ _ _ _ _ _ _ _ _ _ _ Ud) as Et. rewrite applied_ts in Et. rewrite <- Et.
    destruct (updated_stays (applied u q (Some (length before, h))) _ _ _ _ _ _ _ _ _ _ _ _ (h_Value h) eq_refl En Ud eq_refl) as [R S]. split; [done|].
    cbn [restored_meta m_IntentHistory set_Sequence t_Sequence] in S. by rewrite Eh, take_app_length in S.
  - intros Fa. rewrite (last_kept_none _ _ Fa) in Out. destruct Out as (info & change & Rm). split; [apply (rm_done _ _ _ _ _ _ _ _ _ _ Rm)|apply (rm_points _ _ _ _ _ _ _ _ _ _ Rm)].
  - destruct (Timestamp_Less (q_ts q) newTs) eqn:Lt; cbn [outcome] in Out; [|done].
    destruct Out as (v1 & ts & e & v & b & meta2 & pv & ps & En & Ud). pose proof (ud_ts _ _ _ _ _ _ _ _ _ _ _ _ _ _ _ _ _ _ _ _ _ Ud) as Et. rewrite Lt in Et. rewrite Et in Ud.
    apply (updated_stays u _ _ _ _ _ _ _ _ _ _ _ _ _ eq_refl En Ud). by destruct txn.
Qed.
End Store.

Section Abort.
Context (batch_reader : batch -> res (list (bytes * bytes) * option string)) (maxItersBeforeSeek : Z) (fuel : nat) (unlimited : account).
Context (w : W) (key : bytes) {It : Type} {M : MVCCIterator It} `{!IteratorLaws M (prefix_view (w_db w) key)}.

(** C6: An abort undoes a put.  If a transaction puts a value on a key without an intent, too old
    as it may be, and then [MVCCResolveWriteIntent] aborts it, every key is as it was before. *)
Theorem put_then_abort timestamp value valueFn opts txn (it : It) r u
    {It'} {M' : MVCCIterator It'} {IL : IteratorLaws M' (prefix_view (w_db (p_writer r)) (Key (u_Span u)))} SeekIntentGE {Is : IntentSeeks M' _ IL SeekIntentGE}
    (NewMVCCIterator : W -> IterKind -> IterOptions -> It') ms TargetBytes :
  store_ok (w_db w) -> fragmented (w_db w) -> intents_described disableSimple (w_db w) -> key <> [] -> timestamp <> EmptyTimestamp -> times_ok opts timestamp ->
  values_ok opts value valueFn -> w_Txn opts = Some txn -> Forall (fun q => q_ts q <> EmptyTimestamp) (points (w_db w) key) ->
  mvccPutInternal batch_reader maxItersBeforeSeek fuel unlimited disableSimple w (Some it) key timestamp value valueFn opts = Ok (inl r) ->
  Key (u_Span u) = key -> u_Status u = ABORTED -> t_ID (u_Txn u) = t_ID (tx_Meta txn) -> update_ok u -> point_request u TargetBytes ->
  exists r' n, MVCCResolveWriteIntent disableSimple NewMVCCIterator SeekIntentGE (p_writer r) ms u TargetBytes = Ok (r', n, None) /\ rr_ok r' = true /\
    forall k, prefix_view (w_db (rr_writer r')) k = prefix_view (w_db w) k.
Proof.
  intros ok Fr Ds Nk Nt Times Values Tx Fresh H Ek St Id Uo Pr.
  destruct (put_changes batch_reader maxItersBeforeSeek fuel unlimited disableSimple key Nk w (so_snapshot _ ok) (so_intents _ ok key) timestamp Nt value valueFn opts
    Times Values it r H) as [[-> (f & mt & t & Em & Et & _)]|(ex & p & v & e & b & Pe)].
  { destruct (fresh_found disableSimple key w Fresh _ Em) as (N & _). congruence. }
  pose proof (effect_store disableSimple key w ok timestamp value valueFn opts ex p r v e b Pe) as ok'.
  pose proof (effect_described disableSimple key w timestamp value valueFn opts ex p r v e b Pe Ds) as Ds'.
  pose proof (pe_stacks _ _ _ _ _ _ _ _ _ _ _ _ _ Pe) as Es. pose proof (fragmented_stacks _ _ Es Fr) as Fr'.
  destruct (effect_put_at disableSimple key w timestamp value valueFn opts ex p r v e b Pe) as (v0 & e0 & b0 & _ & _ & Pp & _ & _ & Op & Mt). rewrite Tx in Mt.
  destruct b0 as [b0|]; [|done]. destruct Mt as (meta & mt & _ & Um & _ & _ & Mt & Im & _).
  assert (Ec : committed_of (points (w_db w) key) = points (w_db w) key).
  { destruct (points (w_db w) key) as [|q vs]; [done|]. apply Forall_cons in Fresh as [N _]. cbn. by rewrite (proj2 (IsEmpty_false _) N). }
  unfold changed_points in Pp. rewrite Ec in Pp. cbn [app] in Pp. rewrite <- Ek in Pp. destruct (Ds' _ _ _ Pp eq_refl) as (meta' & Um' & mt' & De). cbn [q_val default id] in Um'.
  rewrite Um in Um'. injection Um' as <-. pose proof (de_txn _ _ _ _ _ De) as Dt. rewrite Mt in Dt. injection Dt as <-.
  assert (Oi : own_intent_at disableSimple (p_writer r) u (MkPos (MkMVCCKey (Key (u_Span u)) EmptyTimestamp) (Some b0))
    (MkPos (MkMVCCKey (Key (u_Span u)) (pp_writeTimestamp p)) (Some e0)) (points (w_db w) (Key (u_Span u))) meta mt) by (split; try done; congruence).
  destruct (resolve_own disableSimple (p_writer r) ok' Fr' Ds' u Uo SeekIntentGE NewMVCCIterator ms TargetBytes _ _ _ _ _ Pr Oi) as (r' & n & Er & Out).
  assert (decision_of u meta mt (pp_writeTimestamp p) = Remove) as Dd by (unfold decision_of, kept_of, commits, in_progress; rewrite St; cbn; by rewrite andb_false_r).
  cbn [q_ts q_key k_Timestamp] in Out. rewrite Dd in Out. destruct Out as (info & change & Rm). exists r', n. split; [done|]. split; [apply (rm_done _ _ _ _ _ _ _ _ _ _ Rm)|].
  intros k. apply view_eq; [|apply stack_at_eq; by rewrite (rm_stacks _ _ _ _ _ _ _ _ _ _ Rm)]. destruct (decide (k = key)) as [->|N].
  - rewrite <- Ek at 1. rewrite (rm_points _ _ _ _ _ _ _ _ _ _ Rm). by rewrite Ek.
  - rewrite <- (Op k N). apply (rm_elsewhere _ _ _ _ _ _ _ _ _ _ Rm). apply elsewhere_points. by rewrite Ek.
Qed.
End Abort.
End Claims.
