(* ===== verification/KeyStats.v ===== *)
(** The statistics of one key.

    What the points of a key contribute to the statistics, in closed form, and the differences
    that [updateStatsOnPut] computes as differences of such contributions. *)
From S2P Require Import Prelude Bytes GoLib Hlc KeyOps Spans MvccKey RangeKeys MvccValue MvccIter Scanner ScanSpec ScanNav LocalKeys MvccStats StatsOk StatsKeys.

(** * Contributions *)

Definition value_len (q : pos) : Z := blen (default [] (q_val q)).
Definition version_size (len : Z) : Z := len + MVCCVersionTimestampSize.

(** Bytes that are garbage from a time on. *)
Definition dead (bytes t : Z) : MVCCStats := NoStats +[CGCBytesAge] (bytes * since 0 t).

(** A version of a length that is not the newest. *)
Definition old_one (len t : Z) : MVCCStats :=
  dead (version_size len) t +[CKeyBytes] MVCCVersionTimestampSize +[CValBytes] len +[CValCount] 1.

(** The newest version, with metadata of a length: live, or garbage from a time on. *)
Definition newest_one (key : bytes) (garbage : option Z) (metaLen len : Z) : MVCCStats :=
  let bytes := blen key + 1 + metaLen + version_size len in
  match garbage with
  | Some t => dead bytes t
  | None => NoStats +[CLiveBytes] bytes +[CLiveCount] 1
  end +[CKeyBytes] (blen key + 1 + MVCCVersionTimestampSize) +[CValBytes] (metaLen + len) +[CKeyCount] 1 +[CValCount] 1.

(** An intent. *)
Definition intent_one (len t : Z) : MVCCStats :=
  NoStats +[CIntentBytes] (version_size len) +[CIntentCount] 1 +[CSeparatedIntentCount] 1 +[CIntentAge] (since 0 t).

Section Contributions.
Context `{L : ScanLib} (db : snapshot) (key : bytes) (Nk : key <> []) (nonlocal : isSysLocal key = false).
Abbreviation rks := (Versions (stack_at db key)).

Lemma ignored_nonlocal : ignored_key key = Ok false.
Proof.
  unfold ignored_key. destruct (HasPrefix key LocalRangeIDPrefix) eqn:E; [|done]. exfalso. apply beqb_true in E.
  rewrite <- (take_drop (length LocalRangeIDPrefix) key), E in nonlocal. done.
Qed.

Definition is_tombstone (q : pos) : bool := match EncodedMVCCValueIsTombstone (default [] (q_val q)) with Ok t => t | _ => false end.

(** When a version that is not the newest became garbage: its successor's time, or that of a
    range tombstone before. *)
Definition old_since (acc : Z) (q : pos) : Z :=
  let nt := next_tombstone (q_key q) rks in
  if is_tombstone q then WallTime (q_ts q)
  else if Timestamp_IsSet nt && (WallTime nt <? acc) then WallTime nt else acc.
Fixpoint olds (acc : Z) (vs : list pos) : MVCCStats :=
  match vs with [] => NoStats | q :: vs => plus (old_one (value_len q) (old_since acc q)) (olds (WallTime (q_ts q)) vs) end.

Record version_ok (q : pos) : Prop := {
  vk_user : q_user q = key;
  vk_point : has_point q = true;
  vk_ts : q_ts q <> EmptyTimestamp;
  vk_value : exists t, EncodedMVCCValueIsTombstone (default [] (q_val q)) = Ok t
}.

Lemma old_step y q : y_first y = false -> y_prevKey y = key -> version_ok q ->
  exists y', point_at db 0 y q = Ok y' /\ y_first y' = false /\ y_prevKey y' = key /\ y_accrue y' = WallTime (q_ts q) /\
    y_ms y' = plus (y_ms y) (old_one (value_len q) (old_since (y_accrue y) q)).
Proof.
  intros Fy Py [U Hp Nt [t Et]]. unfold point_at, the_stack. rewrite Hp, U. unfold tally_point. fold (q_user q). rewrite U, ignored_nonlocal. cbn [mbind res_bind].
  assert (Iv : MVCCKey_IsValue (q_key q) = true) by (unfold MVCCKey_IsValue; fold (q_ts q); by rewrite (proj2 (IsEmpty_false _) Nt)).
  rewrite Iv, Et. cbn [mbind res_bind andb negb y_prevKey y_tombstones y_ms y_meta y_first y_accrue]. rewrite Py. assert (beqb key key = true) as -> by (by apply beqb_true).
  cbn [negb]. unfold tally_version. fold (q_user q). rewrite U, nonlocal, Fy. cbn [mbind res_bind]. eexists. split; [reflexivity|]. cbn [y_first y_prevKey y_accrue y_ms].
  split_and!; try done. unfold old_since, is_tombstone. rewrite Et. fold (q_ts q).
  destruct t; [|destruct (Timestamp_IsSet _ && _)]; unfold old_one, dead, version_size, value_len; stats.
Qed.

Lemma olds_tally vs y : y_first y = false -> y_prevKey y = key -> Forall version_ok vs ->
  y_ms <$> points_tally db 0 vs y = Ok (plus (y_ms y) (olds (y_accrue y) vs)).
Proof.
  intros Fy Py F. revert y Fy Py. induction F as [|q vs Vq F IH]; intros y Fy Py; cbn [points_tally olds]; [cbn; by rewrite plus_NoStats|].
  destruct (old_step y q Fy Py Vq) as (y' & -> & F' & P' & A' & E'). cbn [mbind res_bind]. rewrite IH by done. by rewrite E', A', plus_assoc.
Qed.

(** The newest version of a key without metadata. *)
Definition version_since (q : pos) : option Z :=
  let nt := next_tombstone (q_key q) rks in
  if is_tombstone q then Some (WallTime (q_ts q)) else if Timestamp_IsSet nt then Some (WallTime nt) else None.

Lemma head_step q : version_ok q ->
  exists y', point_at db 0 first_tally q = Ok y' /\ y_first y' = false /\ y_prevKey y' = key /\ y_accrue y' = WallTime (q_ts q) /\
    y_ms y' = newest_one key (version_since q) 0 (value_len q).
Proof.
  intros [U Hp Nt [t Et]]. unfold point_at, the_stack. rewrite Hp, U. unfold tally_point. fold (q_user q). rewrite U, ignored_nonlocal. cbn [mbind res_bind].
  assert (Iv : MVCCKey_IsValue (q_key q) = true) by (unfold MVCCKey_IsValue; fold (q_ts q); by rewrite (proj2 (IsEmpty_false _) Nt)).
  rewrite Iv, Et. cbn [mbind res_bind andb first_tally y_prevKey y_tombstones y_ms y_meta y_first y_accrue]. assert (beqb key [] = false) as -> by (by apply not_true_is_false; intros ?%beqb_true).
  cbn [negb]. unfold tally_version, tally_meta, tally_bytes. fold (q_user q) (q_ts q). rewrite U, nonlocal. cbn [m_Deleted m_KeyBytes m_ValBytes has_txn m_Txn IsInline m_RawBytes].
  rewrite !Z.eqb_refl. cbn [negb mbind res_bind]. eexists. split; [reflexivity|]. cbn [y_first y_prevKey y_accrue y_ms].
  split_and!; try done. unfold version_since, is_tombstone. rewrite Et. cbn [m_Wall m_Timestamp l_WallTime].
  destruct t; [|destruct (Timestamp_IsSet _)]; unfold newest_one, dead, version_size, value_len; stats.
Qed.

Lemma share_versions q vs : Forall version_ok (q :: vs) ->
  share 0 db (q :: vs) = Ok (plus (newest_one key (version_since q) 0 (value_len q)) (olds (WallTime (q_ts q)) vs)).
Proof.
  intros [Vq F]%Forall_cons. unfold share. cbn [points_tally]. destruct (head_step q Vq) as (y' & -> & F' & P' & A' & E'). cbn [mbind res_bind].
  by rewrite (olds_tally vs y' F' P' F), E', A'.
Qed.

(** An intent. *)
Section Intent.
Context (m q : pos) (meta : MVCCMetadata).
Context (Um : q_user m = key) (Pm : has_point m = true) (Tm : q_ts m = EmptyTimestamp) (Dm : UnmarshalMeta (default [] (q_val m)) = Ok meta).
Context (In : IsInline meta = false) (Tx : has_txn meta = true) (Vq : version_ok q) (Above : Forall (fun v => lt_ts (v_Timestamp v) (q_ts q)) rks).

Definition intent_since : option Z := if m_Deleted meta then Some (m_Wall meta) else None.

Lemma no_tombstone : next_tombstone (q_key q) rks = EmptyTimestamp.
Proof.
  unfold next_tombstone. destruct (MVCCKey_IsValue _); [|done]. destruct rks as [|v vs]; [done|]. cbn [Versions_IsEmpty negb andb Versions_Newest].
  apply Forall_cons in Above as [Lt _]. unfold lt_ts in Lt. fold (q_ts q). by rewrite LessEq_negb, Lt.
Qed.

Lemma meta_step : point_at db 0 first_tally m = Ok (MkTally (tally_meta 0 NoStats key meta EmptyTimestamp (value_len m)) meta key true 0 rks).
Proof.
  unfold point_at, the_stack. rewrite Pm, Um. unfold tally_point. fold (q_user m). rewrite Um, ignored_nonlocal. cbn [mbind res_bind].
  assert (MVCCKey_IsValue (q_key m) = false) as Im by (unfold MVCCKey_IsValue; fold (q_ts m); by rewrite (proj2 (IsEmpty_spec _) Tm)).
  unfold next_tombstone. rewrite Im. cbn [mbind res_bind andb negb first_tally y_prevKey y_tombstones y_ms y_meta y_first y_accrue]. by rewrite Dm.
Qed.

Lemma intent_step :
  points_tally db 0 [m; q] first_tally =
    (if negb (m_KeyBytes meta =? MVCCVersionTimestampSize) then Err "expected mvcc metadata key bytes"
     else if negb (m_ValBytes meta =? value_len q) then Err "expected mvcc metadata val bytes"
     else Ok (MkTally (plus (newest_one key intent_since (value_len m) (value_len q)) (intent_one (value_len q) (m_Wall meta))) meta key false (m_Wall meta) rks)).
Proof.
  cbn [points_tally]. rewrite meta_step. cbn [mbind res_bind]. unfold point_at, the_stack. destruct Vq as [U Hp Nq [t Et]]. rewrite Hp, U. unfold tally_point. fold (q_user q).
  rewrite U, ignored_nonlocal. cbn [mbind res_bind].
  assert (Iv : MVCCKey_IsValue (q_key q) = true) by (unfold MVCCKey_IsValue; fold (q_ts q); by rewrite (proj2 (IsEmpty_false _) Nq)).
  rewrite Iv, Et. cbn [mbind res_bind andb negb y_prevKey y_tombstones y_ms y_meta y_first y_accrue]. assert (beqb key key = true) as -> by (by apply beqb_true).
  cbn [negb]. unfold tally_version, tally_meta, tally_bytes. fold (q_user q). rewrite U, nonlocal, no_tombstone, Tx, In. change (Timestamp_IsSet EmptyTimestamp) with false. cbv iota.
  destruct (negb (_ =? MVCCVersionTimestampSize)); [done|]. fold (value_len q). destruct (negb (_ =? value_len q)); [done|]. cbn [mbind res_bind]. do 2 f_equal.
  unfold intent_since. destruct (m_Deleted meta); unfold newest_one, intent_one, dead, version_size, value_len; stats.
Qed.

Definition intent_stats (vs : list pos) : MVCCStats :=
  plus (plus (newest_one key intent_since (value_len m) (value_len q)) (intent_one (value_len q) (m_Wall meta))) (olds (m_Wall meta) vs).

Lemma share_intent vs : Forall version_ok vs ->
  share 0 db (m :: q :: vs) =
    (if negb (m_KeyBytes meta =? MVCCVersionTimestampSize) then Err "expected mvcc metadata key bytes"
     else if negb (m_ValBytes meta =? value_len q) then Err "expected mvcc metadata val bytes"
     else Ok (intent_stats vs)).
Proof.
  intros F. unfold share. change (m :: q :: vs) with ([m; q] ++ vs). rewrite points_tally_app, intent_step. destruct (negb _); [done|]. destruct (negb _); [done|].
  cbn [mbind res_bind]. by rewrite olds_tally.
Qed.
End Intent.
End Contributions.

(** * The difference of a put *)

(** What adding to a counter at a time adds at the epoch. *)
Definition garbage_of (c : counter) (n : Z) : Z :=
  match c with CKeyBytes | CValBytes | CRangeKeyBytes | CRangeValBytes => n | CLiveBytes => - n | _ => 0 end.
Definition intents_of (c : counter) (n : Z) : Z := match c with CIntentCount => n | _ => 0 end.
Definition tick (c : counter) (n t : Z) : MVCCStats :=
  NoStats +[c] n +[CGCBytesAge] (garbage_of c n * since 0 t) +[CIntentAge] (intents_of c n * since 0 t).

Lemma norm_inc ms c n : norm (ms +[c] n) = plus (norm ms) (tick c n (LastUpdateNanos ms)).
Proof. unfold tick, since. destruct c; cbn [garbage_of intents_of]; stats. Qed.
Lemma norm_NoStats : norm NoStats = NoStats.
Proof. reflexivity. Qed.
Lemma time_inc ms c n : LastUpdateNanos (ms +[c] n) = LastUpdateNanos ms.
Proof. done. Qed.
Lemma time_AgeTo ms t : LastUpdateNanos (AgeTo ms t) = t.
Proof. done. Qed.

(** What is written: the version, and the intent in a transaction. *)
Definition written_one (key : bytes) (txn deleted : bool) (t metaLen len : Z) : MVCCStats :=
  let head := newest_one key (if deleted then Some t else None) metaLen len in
  if txn then plus head (intent_one len t) else head.

(** Compares the difference of a put with contributions. *)
Ltac put_stats :=
  cbn [negb]; rewrite ?norm_inc, ?norm_AgeTo, ?norm_inc, ?norm_AgeTo, ?norm_inc, ?norm_NoStats, ?time_inc, ?time_AgeTo;
  unfold tick, written_one, newest_one, intent_one, old_one, dead, version_size, since; cbn [garbage_of intents_of]; stats.

Section Difference.
Context (key : bytes) (nonlocal : isSysLocal key = false) (meta : MVCCMetadata) (metaLen len : Z).
Context (Kb : m_KeyBytes meta = MVCCVersionTimestampSize) (Vb : m_ValBytes meta = len).
Abbreviation written := (written_one key (has_txn meta) (m_Deleted meta) (m_Wall meta) metaLen len).

(** Nothing was there. *)
Lemma put_nothing pv ps ok ov : norm (updateStatsOnPut key pv ps ok ov (blen key + 1) metaLen None meta) = written.
Proof.
  unfold updateStatsOnPut. rewrite nonlocal, Kb, Vb.
  destruct (m_Deleted meta), (has_txn meta); put_stats.
Qed.

Section Over.
Context (orig : MVCCMetadata) (l mlen : Z) (Ko : m_KeyBytes orig = MVCCVersionTimestampSize).
Abbreviation change pv ps ov := (norm (updateStatsOnPut key pv ps (blen key + 1) ov (blen key + 1) metaLen (Some orig) meta)).

(** A version that was deleted, or covered by a range tombstone. *)
Lemma put_over_dead ps : has_txn orig = false -> m_Deleted orig = true ->
  plus (newest_one key (Some (m_Wall orig)) 0 l) (change false ps 0) = plus written (old_one l (m_Wall orig)).
Proof.
  intros T D. unfold updateStatsOnPut. rewrite nonlocal, Kb, Vb, T, D.
  destruct (m_Deleted meta), (has_txn meta); put_stats.
Qed.

(** A version that was live. *)
Lemma put_over_live ps : has_txn orig = false -> m_Deleted orig = false -> m_ValBytes orig = l ->
  plus (newest_one key None 0 l) (change false ps 0) = plus written (old_one l (m_Wall meta)).
Proof.
  intros T D Vo. unfold updateStatsOnPut. rewrite nonlocal, Kb, Vb, T, D, Ko, Vo.
  destruct (m_Deleted meta), (has_txn meta); put_stats.
Qed.

(** An intent of the transaction. *)
Abbreviation intent := (plus (newest_one key (if m_Deleted orig then Some (m_Wall orig) else None) mlen l) (intent_one l (m_Wall orig))).
Lemma put_over_own ps : has_txn orig = true -> m_ValBytes orig = l -> plus intent (change false ps mlen) = written.
Proof.
  intros T Vo. unfold updateStatsOnPut. rewrite nonlocal, Kb, Vb, T, Ko, Vo.
  destruct (m_Deleted orig), (m_Deleted meta), (has_txn meta); put_stats.
Qed.
(** With a value below it, which is garbage from the time of the new version on. *)
Lemma put_over_own_value ps : has_txn orig = true -> m_ValBytes orig = l ->
  plus (plus intent (old_one ps (m_Wall orig))) (change true ps mlen) = plus written (old_one ps (m_Wall meta)).
Proof.
  intros T Vo. unfold updateStatsOnPut. rewrite nonlocal, Kb, Vb, T, Ko, Vo.
  destruct (m_Deleted orig), (m_Deleted meta), (has_txn meta); put_stats.
Qed.
End Over.
End Difference.

(** * The differences of a resolution *)

Section Resolution.
Context (key : bytes) (nonlocal : isSysLocal key = false) (orig : MVCCMetadata) (l mlen : Z).
Context (Ko : m_KeyBytes orig = MVCCVersionTimestampSize) (Vo : m_ValBytes orig = l).
Abbreviation intent := (plus (newest_one key (if m_Deleted orig then Some (m_Wall orig) else None) mlen l) (intent_one l (m_Wall orig))).

(** The intent is committed or moved. *)
Section Update.
Context (meta : MVCCMetadata) (commit : bool) (metaLen len : Z) (Kb : m_KeyBytes meta = MVCCVersionTimestampSize) (Vb : m_ValBytes meta = len).
Abbreviation written := (written_one key (negb commit) (m_Deleted meta) (m_Wall meta) metaLen len).
Abbreviation change pv ps := (norm (updateStatsOnResolve key pv ps (blen key + 1) mlen (blen key + 1) metaLen orig meta commit)).

Lemma resolve_alone ps : plus intent (change false ps) = written.
Proof. unfold updateStatsOnResolve. rewrite nonlocal, Kb, Vb, Ko, Vo. destruct (m_Deleted orig), (m_Deleted meta), commit; put_stats. Qed.
Lemma resolve_over_value ps : plus (plus intent (old_one ps (m_Wall orig))) (change true ps) = plus written (old_one ps (m_Wall meta)).
Proof. unfold updateStatsOnResolve. rewrite nonlocal, Kb, Vb, Ko, Vo. destruct (m_Deleted orig), (m_Deleted meta), commit; put_stats. Qed.
End Update.

(** The intent is removed. *)
Context (Tx : has_txn orig = true).
Definition restored_version (deleted : bool) (len : Z) : MVCCMetadata :=
  MkMetadata None (Timestamp_ToLegacyTimestamp EmptyTimestamp) deleted MVCCVersionTimestampSize len None [] None None.

Lemma clear_nothing : exists d, updateStatsOnClear key (blen key + 1) mlen 0 0 orig None 0 = Ok d /\ plus intent (norm d) = NoStats.
Proof.
  unfold updateStatsOnClear. rewrite nonlocal, Ko, Vo, Tx. cbn [mbind res_bind]. eexists. split; [reflexivity|].
  destruct (m_Deleted orig); put_stats.
Qed.
Lemma clear_to_dead len size t : exists d, updateStatsOnClear key (blen key + 1) mlen (blen key + 1) 0 orig (Some (restored_version true len)) t = Ok d /\
  plus (plus intent (old_one size t)) (norm d) = newest_one key (Some t) 0 size.
Proof.
  unfold updateStatsOnClear. rewrite nonlocal, Ko, Vo, Tx. cbn [restored_version has_txn m_Txn m_Deleted m_KeyBytes m_ValBytes negb mbind res_bind]. eexists. split; [reflexivity|].
  destruct (m_Deleted orig); put_stats.
Qed.
Lemma clear_to_live size t : exists d, updateStatsOnClear key (blen key + 1) mlen (blen key + 1) 0 orig (Some (restored_version false size)) t = Ok d /\
  plus (plus intent (old_one size (m_Wall orig))) (norm d) = newest_one key None 0 size.
Proof.
  unfold updateStatsOnClear. rewrite nonlocal, Ko, Vo, Tx. cbn [restored_version has_txn m_Txn m_Deleted m_KeyBytes m_ValBytes negb mbind res_bind]. eexists. split; [reflexivity|].
  destruct (m_Deleted orig); put_stats.
Qed.
End Resolution.
