(* ===== verification/WriteStats.v ===== *)
(** Puts and the statistics.

    The difference a put adds to the statistics is the difference of what the key contributes:
    statistics that were those of the store stay those of the store. *)
From stdpp Require Import sorting.
From S2P Require Import Prelude Bytes GoLib Hlc KeyOps Spans MvccKey RangeKeys MvccValue MvccIter Scanner ScanSpec ScanNav ScanRead LocalKeys StoreOps MvccRead MvccStats StatsOk StatsKeys KeyStats MvccWrite WriteSpec WriteOk PutOk.

Lemma plus_swap a b d : plus (plus a b) d = plus (plus a d) b.
Proof. stats. Qed.

(** * Versions of a key *)

Section Versions.
Context `{L : ScanLib} (db : snapshot) (ok : store_ok db) (key : bytes).
Abbreviation pts := (points db key).
Abbreviation rks := (Versions (stack_at db key)).

Lemma versions_good vs : Forall (fun q => q ∈ pts /\ q_ts q <> EmptyTimestamp) vs -> Forall (version_ok key) vs.
Proof.
  intros F. eapply Forall_impl; [exact F|]. cbn. intros q [I N]. apply elem_points in I as (I & U & Hp). split; try done.
  destruct (so_values _ ok) as [D _]. rewrite Forall_forall in D. destruct (D q I N) as [x Dx]. eexists. by apply decodes_tombstone.
Qed.

Lemma committed_good : Forall (version_ok key) (committed_of pts).
Proof.
  apply versions_good, Forall_forall. intros q I. split; [by apply committed_in|]. pose proof (points_points_ok _ key (so_snapshot _ ok)) as Po.
  pose proof (po_versions _ _ _ Po) as Pv. unfold committed_of in I. destruct pts as [|m vs]; [by apply elem_of_nil in I|]. specialize (Pv m vs eq_refl).
  rewrite Forall_forall in Pv. destruct (Timestamp_IsEmpty (q_ts m)) eqn:Tm.
  - apply Pv. destruct vs; [done|]. by right.
  - apply IsEmpty_false in Tm. apply elem_of_cons in I as [->|I]; [done|by apply Pv].
Qed.

(** ** Range tombstones over versions *)

Lemma rks_ok : newest_first rks /\ Forall (fun v => ts_pos (v_Timestamp v)) rks.
Proof. apply (po_stack key pts rks), points_points_ok, ok. Qed.

Lemma next_tombstone_spec q : q_ts q <> EmptyTimestamp ->
  next_tombstone (q_key q) rks = match Versions_FirstAtOrAbove rks (q_ts q) with Some u => v_Timestamp u | None => EmptyTimestamp end.
Proof.
  intros N. unfold next_tombstone, MVCCKey_IsValue. fold (q_ts q). rewrite (proj2 (IsEmpty_false _) N). cbn [negb]. destruct rks_ok as [Sr _].
  destruct (Versions_FirstAtOrAbove rks (q_ts q)) as [u|] eqn:E; [|by destruct (_ && _)].
  destruct (above_some rks (q_ts q) u Sr E) as (I & Le & Ln). pose proof (le_ts_trans _ _ _ Le Ln) as Lq. unfold le_ts in Lq. rewrite Lq.
  destruct rks; [by apply elem_of_nil in I|done].
Qed.

Lemma wall_le a c : lt_ts a c -> WallTime a <= WallTime c.
Proof. unfold lt_ts, Timestamp_Less. lia. Qed.

(** A covered version is garbage from the range tombstone on, whatever is above it. *)
Lemma old_covered q u acc : q_ts q <> EmptyTimestamp -> Versions_FirstAtOrAbove rks (q_ts q) = Some u -> is_tombstone q = false -> WallTime (v_Timestamp u) <= acc ->
  old_since db key acc q = WallTime (v_Timestamp u).
Proof.
  intros N E T Le. unfold old_since. rewrite next_tombstone_spec, E, T by done. destruct rks_ok as [Sr Fr]. destruct (above_some rks (q_ts q) u Sr E) as (I & _).
  rewrite Forall_forall in Fr. unfold Timestamp_IsSet. rewrite (proj2 (IsEmpty_false _) (ts_pos_set _ (Fr u I))). cbn [negb andb].
  destruct (Z.ltb_spec (WallTime (v_Timestamp u)) acc); lia.
Qed.
Lemma old_uncovered q acc : q_ts q <> EmptyTimestamp -> Versions_FirstAtOrAbove rks (q_ts q) = None -> is_tombstone q = false -> old_since db key acc q = acc.
Proof. intros N E T. unfold old_since. by rewrite next_tombstone_spec, E, T. Qed.
Lemma old_deleted q acc : is_tombstone q = true -> old_since db key acc q = WallTime (q_ts q).
Proof. intros T. unfold old_since. by rewrite T. Qed.


(** ** The version below an intent that moves *)

(** What is seen below an intent tells whether the version there becomes garbage when the intent
    moves from [q0] to [ts]. *)
Lemma below_shift q0 ts u vs pv ps : q_ts u <> EmptyTimestamp -> Forall (fun v => lt_ts (v_Timestamp v) q0) rks ->
  (if Timestamp_Less q0 ts then below_info rks (u :: vs) = Ok (pv, ps) else WallTime q0 = WallTime ts /\ pv = false) ->
  pv = false /\ old_since db key (WallTime q0) u = old_since db key (WallTime ts) u \/
  pv = true /\ ps = value_len u /\ forall acc, old_since db key acc u = acc.
Proof.
  intros Nu Rk Pp. destruct rks_ok as [Sr Fr]. destruct (Timestamp_Less q0 ts) eqn:Lt; [|left; destruct Pp as [-> Pv]; done].
  unfold below_info in Pp. destruct (Versions_FirstAtOrAbove rks (q_ts u)) as [z|] eqn:Ea.
  - left. destruct (above_some rks (q_ts u) z Sr Ea) as (I & L1 & L2).
    assert (Pv : pv = false).
    { destruct rks as [|r0 rs]; [by apply elem_of_nil in I|]. cbn in L2. pose proof (le_ts_trans _ _ _ L1 L2) as L3.
      assert (Timestamp_Less (v_Timestamp r0) (q_ts u) = false) as Ef by (unfold le_ts in L3; rewrite LessEq_negb in L3; by apply negb_true_iff in L3). rewrite Ef in Pp.
      by injection Pp as Pp1 _. }
    split; [done|]. destruct (is_tombstone u) eqn:Tu; [by rewrite !old_deleted|]. rewrite Forall_forall in Rk. specialize (Rk z I). pose proof (wall_le _ _ Rk). pose proof (wall_le _ _ Lt).
    rewrite !(old_covered u z); try done; lia.
  - pose proof (above_none rks (q_ts u) Sr Ea) as An.
    assert (match rks with [] => true | r0 :: _ => Timestamp_Less (v_Timestamp r0) (q_ts u) end = true) as Eu by (destruct rks; [done|]; by apply Forall_cons in An as [? _]).
    rewrite Eu in Pp. apply res_bind_inv in Pp as (t & Et & Ei). assert (is_tombstone u = t) as Tu by (unfold is_tombstone; by rewrite Et).
    destruct t; injection Ei as Ei1 Ei2; [left|right].
    + split; [done|]. by rewrite !old_deleted.
    + split; [done|]. split; [done|]. intros acc. by apply old_uncovered.
Qed.

(** A key contributes to statistics that exist. *)
Lemma share_exists ms : epoch_stats db = Ok ms -> exists s, share 0 db pts = Ok s.
Proof.
  intros Em. pose proof (share_split 0 db (so_snapshot _ ok) key) as P. unfold epoch_stats, store_stats in Em. apply res_bind_inv in Em as (y & Ey & _).
  unfold share in P at 1. rewrite Ey in P. cbn [fmap res_fmap] in P. destruct (share 0 db (below _ key)); [|done..]. cbn [mbind res_bind] in P.
  destruct (share 0 db pts); [by eexists|done..].
Qed.
(** ** What a write leaves *)

Definition opt_len (b : option bytes) : Z := match b with Some b => blen b | None => 0 end.

Lemma share_written (Nk : key <> []) (nonlocal : isSysLocal key = false) ts e b meta :
  ts <> EmptyTimestamp -> Forall (fun v => lt_ts (v_Timestamp v) ts) rks -> EncodedMVCCValueIsTombstone e = Ok (m_Deleted meta) ->
  m_KeyBytes meta = MVCCVersionTimestampSize -> m_ValBytes meta = blen e -> m_Wall meta = WallTime ts ->
  match b with Some b => exists existed, UnmarshalMeta b = Ok (stored_meta meta existed) /\ has_txn meta = true /\ IsInline meta = false | None => True end ->
  share 0 db (changed_points key pts ts e b) =
    Ok (plus (written_one key (match b with Some _ => true | None => false end) (m_Deleted meta) (m_Wall meta) (opt_len b) (blen e)) (olds db key (WallTime ts) (committed_of pts))).
Proof.
  intros Nt Ab Wt Kb Vb Wm Mb. set (q := MkPos (MkMVCCKey key ts) (Some e)). assert (Vq : version_ok key q) by (split; [done..|by eexists]).
  unfold changed_points. fold q. destruct b as [b|]; cbn [app opt_len].
  - destruct Mb as (existed & Um & Tx & In). set (m := MkPos (MkMVCCKey key EmptyTimestamp) (Some b)).
    rewrite (share_intent db key nonlocal m q _ eq_refl eq_refl eq_refl Um In Tx Vq Ab _ committed_good).
    cbn [stored_meta m_KeyBytes m_ValBytes]. rewrite Kb, Vb. change (value_len q) with (blen e). rewrite !Z.eqb_refl. cbn [negb].
    unfold intent_stats, intent_since, written_one. change (m_Wall (stored_meta meta existed)) with (m_Wall meta). by rewrite Wm.
  - rewrite (share_versions db key Nk nonlocal q (committed_of pts)) by (constructor; [done|apply committed_good]).
    unfold version_since. rewrite (no_tombstone db key q Ab). unfold is_tombstone. cbn [q q_val default id]. rewrite Wt, Wm. by destruct (m_Deleted meta).
Qed.
End Versions.

(** * The statistics after a put *)

Section Put.
Context `{L : ScanLib} {W : Type} {Wr : Writer W} (disableSimple : bool) `{!WriterLaws Wr disableSimple}.
Context (key : bytes) (Nk : key <> []) (nonlocal : isSysLocal key = false) (w : W) (ok : store_ok (w_db w)).
Abbreviation pts := (points (w_db w) key).
Abbreviation rks := (Versions (stack_at (w_db w) key)).
Context (timestamp : Timestamp) (value : Value) (valueFn : option (option Value -> res (Value + write_error))) (opts : MVCCWriteOptions).
Context (ex : option found) (p : @put_plan W) (r : @put_result W) (v : MVCCValue) (e : bytes) (b : option bytes).
Context (Pe : put_effect disableSimple key w timestamp value valueFn opts ex p r v e b).
Abbreviation ts := (pp_writeTimestamp p).
Abbreviation meta := (new_meta disableSimple ((fun txn => txn_at txn ts) <$> w_Txn opts) ts v (pp_history p)).
Abbreviation meta_len := (match b with Some b => blen b | None => 0 end).
Abbreviation written := (written_one key (has_txn meta) (m_Deleted meta) (m_Wall meta) meta_len (blen e)).

(** The contribution of the key after the put. *)
Lemma share_changed : share 0 (w_db w) (changed_points key pts ts e b) = Ok (plus written (olds (w_db w) key (WallTime ts) (committed_of pts))).
Proof.
  pose proof (pe_wrote _ _ _ _ _ _ _ _ _ _ _ _ _ Pe) as Wr0. pose proof (wr_meta _ _ _ _ _ _ _ _ _ Wr0) as Wm. pose proof (wr_tombstone _ _ _ _ _ _ _ _ _ Wr0) as Wt.
  pose proof (pe_above _ _ _ _ _ _ _ _ _ _ _ _ _ Pe) as [_ Ab]. pose proof (ts_pos_set _ (pe_ts _ _ _ _ _ _ _ _ _ _ _ _ _ Pe)) as Nt.
  rewrite (share_written (w_db w) ok key Nk nonlocal ts e b meta); try done.
  - assert (has_txn meta = match b with Some _ => true | None => false end) as ->; [|done].
    unfold has_txn. cbn [new_meta m_Txn]. destruct b as [b'|]; [by destruct Wm as (txn & existed & -> & _)|by rewrite Wm].
  - symmetry. apply (wr_size _ _ _ _ _ _ _ _ _ Wr0).
  - destruct b as [b'|]; [|done]. destruct Wm as (txn & existed & Et & _ & _ & Um). exists existed. unfold has_txn. cbn [new_meta m_Txn]. by rewrite Et.
Qed.

(** ** The cases *)

Abbreviation change f := (norm (updateStatsOnPut key (pp_prevIsValue p) (pp_prevValSize p) (f_keyBytes f) (f_valBytes f) (blen key + 1) meta_len (orig_meta (Some f)) meta)).

Lemma meta_sizes : m_KeyBytes meta = MVCCVersionTimestampSize /\ m_ValBytes meta = blen e.
Proof. split; [done|]. symmetry. apply (wr_size _ _ _ _ _ _ _ _ _ (pe_wrote _ _ _ _ _ _ _ _ _ _ _ _ _ Pe)). Qed.

Lemma orig_version d l t k l' u : u <> EmptyTimestamp -> orig_meta (Some (MkFound (version_meta d l t) k l' u)) = Some (version_meta d l u).
Proof. intros N. unfold orig_meta. cbn [f_realKeyChanged]. by rewrite (proj2 (IsEmpty_false _) N). Qed.

(** Over a version. *)
Lemma version_change q vs f : pts = q :: vs -> q_ts q <> EmptyTimestamp -> found_version key rks q = Ok f -> pp_prevIsValue p = false ->
  plus (newest_one key (version_since (w_db w) key q) 0 (value_len q)) (change f) = plus written (old_one (value_len q) (old_since (w_db w) key (WallTime ts) q)).
Proof.
  intros Ep N Ef Pv. destruct meta_sizes as [Kb Vb]. rewrite Pv. destruct (rks_ok (w_db w) ok key) as [Sr Fr].
  apply res_bind_inv in Ef as (t & Et & [= <-]). assert (Tq : is_tombstone q = t) by (unfold is_tombstone; by rewrite Et).
  unfold version_since. rewrite (next_tombstone_spec (w_db w) ok key), Tq by done. assert (Pl : prefix_len key = blen key + 1) by (unfold prefix_len, blen, EncodedMVCCKeyPrefixLength; lia).
  destruct (Versions_FirstAtOrAbove rks (q_ts q)) as [u|] eqn:E.
  - destruct (above_some rks (q_ts q) u Sr E) as (I & _). rewrite Forall_forall in Fr. pose proof (ts_pos_set _ (Fr u I)) as Nu.
    assert (Au : lt_ts (v_Timestamp u) ts). { pose proof (pe_above _ _ _ _ _ _ _ _ _ _ _ _ _ Pe) as [_ Ab]. rewrite Forall_forall in Ab. by apply Ab. }
    unfold Timestamp_IsSet. rewrite (proj2 (IsEmpty_false _) Nu). cbn [negb f_keyBytes f_valBytes]. rewrite Pl.
    destruct t; rewrite orig_version by done.
    + rewrite old_deleted by done. exact (put_over_dead key nonlocal meta meta_len (blen e) Kb Vb (version_meta true 0 (q_ts q)) (value_len q) _ eq_refl eq_refl).
    + rewrite (old_covered (w_db w) ok key q u) by (try done; by apply wall_le).
      exact (put_over_dead key nonlocal meta meta_len (blen e) Kb Vb (version_meta true 0 (v_Timestamp u)) (value_len q) _ eq_refl eq_refl).
  - change (Timestamp_IsSet EmptyTimestamp) with false. cbv iota. cbn [f_keyBytes f_valBytes]. rewrite Pl, orig_version by done.
    destruct t.
    + rewrite old_deleted by done.
      exact (put_over_dead key nonlocal meta meta_len (blen e) Kb Vb (version_meta true (value_len q) (q_ts q)) (value_len q) _ eq_refl eq_refl).
    + rewrite (old_uncovered (w_db w) ok key) by done.
      exact (put_over_live key nonlocal meta meta_len (blen e) Kb Vb (version_meta false (value_len q) (q_ts q)) (value_len q) eq_refl _ eq_refl eq_refl eq_refl).
Qed.

(** Over an intent. *)
Section Own.
Context (m q : pos) (rest : list pos) (meta0 : MVCCMetadata) (Ep : pts = m :: q :: rest) (Tm : q_ts m = EmptyTimestamp).
Context (Tq : q_ts q = LegacyTimestamp_ToTimestamp (m_Timestamp meta0)) (Nq : q_ts q <> EmptyTimestamp).
Context (Kb0 : m_KeyBytes meta0 = MVCCVersionTimestampSize) (Vb0 : m_ValBytes meta0 = value_len q) (Tx0 : has_txn meta0 = true).
Context (Rk : Forall (fun v => lt_ts (v_Timestamp v) (q_ts q)) rks).
Abbreviation f0 := (MkFound meta0 (blen key + 1) (value_len m) (LegacyTimestamp_ToTimestamp (m_Timestamp meta0))).
Abbreviation intent0 := (plus (newest_one key (intent_since meta0) (value_len m) (value_len q)) (intent_one (value_len q) (m_Wall meta0))).

Definition orig0 : MVCCMetadata :=
  MkMetadata (m_Txn meta0) (Timestamp_ToLegacyTimestamp (q_ts q)) (m_Deleted meta0) (m_KeyBytes meta0) (m_ValBytes meta0) (m_RawBytes meta0) (m_IntentHistory meta0)
    (m_MergeTimestamp meta0) (m_TxnDidNotUpdateMeta meta0).

Lemma orig_intent : orig_meta (Some f0) = Some orig0.
Proof. unfold orig_meta, orig0. cbn [f_realKeyChanged]. rewrite <- Tq, (proj2 (IsEmpty_false _) Nq). done. Qed.
Lemma wall0 : m_Wall meta0 = m_Wall orig0 /\ m_Wall meta0 = WallTime (q_ts q).
Proof. unfold m_Wall, orig0. cbn [m_Timestamp Timestamp_ToLegacyTimestamp l_WallTime]. by rewrite Tq. Qed.

Lemma own_change : pp_prevIsValue p = false -> plus intent0 (change f0) = written.
Proof.
  intros Pv. destruct meta_sizes as [Kb Vb]. rewrite Pv, orig_intent. cbn [f_keyBytes f_valBytes]. destruct wall0 as [E _]. unfold intent_since. rewrite E.
  exact (put_over_own key nonlocal meta meta_len (blen e) Kb Vb orig0 (value_len q) (value_len m) Kb0 _ Tx0 Vb0).
Qed.
Lemma own_change_value : pp_prevIsValue p = true ->
  plus (plus intent0 (old_one (pp_prevValSize p) (WallTime (q_ts q)))) (change f0) = plus written (old_one (pp_prevValSize p) (WallTime ts)).
Proof.
  intros Pv. destruct meta_sizes as [Kb Vb]. rewrite Pv, orig_intent. cbn [f_keyBytes f_valBytes]. destruct wall0 as [E E']. rewrite <- E'. unfold intent_since. rewrite E.
  exact (put_over_own_value key nonlocal meta meta_len (blen e) Kb Vb orig0 (value_len q) (value_len m) Kb0 _ Tx0 Vb0).
Qed.

Lemma intent_change : Forall (version_ok key) rest -> lt_ts (q_ts q) ts \/ Timestamp_EqOrdering (q_ts q) ts = true ->
  plus (intent_stats (w_db w) key m q meta0 rest) (change f0) = plus written (olds (w_db w) key (WallTime ts) rest).
Proof.
  intros Fv Le. unfold intent_stats. destruct wall0 as [_ Wq]. pose proof own_change as O1. pose proof own_change_value as O2.
  pose proof (pe_prev _ _ _ _ _ _ _ _ _ _ _ _ _ Pe) as Pp. rewrite Ep, (proj2 (IsEmpty_spec _) Tm) in Pp. rewrite Wq in *. destruct rest as [|u vs]; cbn [olds].
  - rewrite !plus_NoStats. apply O1. destruct (Timestamp_Less (q_ts q) ts); [by injection Pp as Pp1 _|by destruct Pp].
  - apply Forall_cons in Fv as [[_ _ Nu _] _].
    destruct (below_shift (w_db w) ok key (q_ts q) ts u vs (pp_prevIsValue p) (pp_prevValSize p) Nu Rk) as [[Pv E]|(Pv & Es & E)].
    + destruct (Timestamp_Less (q_ts q) ts); [done|]. destruct Pp as [Eq Pv]. split; [|done]. clear - Eq. unfold Timestamp_EqOrdering in Eq. lia.
    + by rewrite E, plus_swap, (O1 Pv).
    + by rewrite !E, <- Es, !plus_assoc, plus_swap, (O2 Pv).
Qed.
End Own.

(** The difference of the contributions is what the put adds. *)
Abbreviation total_change := (norm (updateStatsOnPut key (pp_prevIsValue p) (pp_prevValSize p) (match ex with Some f => f_keyBytes f | None => 0 end)
  (match ex with Some f => f_valBytes f | None => 0 end) (blen key + 1) meta_len (orig_meta ex) meta)).

Lemma nothing_change : pts = [] -> total_change = written.
Proof.
  intros Ep. destruct meta_sizes as [Kb Vb]. pose proof (pe_found _ _ _ _ _ _ _ _ _ _ _ _ _ Pe) as Em. rewrite Ep in Em. unfold metadata_of in Em.
  assert (orig_meta ex = None) as -> by (destruct rks; by injection Em as <-). by apply put_nothing.
Qed.

Lemma key_change s : share 0 (w_db w) pts = Ok s -> plus written (olds (w_db w) key (WallTime ts) (committed_of pts)) = plus s total_change.
Proof.
  intros Es. pose proof (pe_found _ _ _ _ _ _ _ _ _ _ _ _ _ Pe) as Em. pose proof (pe_inline _ _ _ _ _ _ _ _ _ _ _ _ _ Pe) as Ei. pose proof (pe_prev _ _ _ _ _ _ _ _ _ _ _ _ _ Pe) as Pp.
  pose proof (so_intents _ ok key) as Io. pose proof (committed_good (w_db w) ok key) as Cg. pose proof nothing_change as Nc.
  destruct pts as [|q vs] eqn:Ep.
  { change (share 0 (w_db w) []) with (Ok NoStats) in Es. injection Es as <-. rewrite Nc by done. cbn [committed_of olds]. rewrite plus_NoStats. symmetry. apply NoStats_plus. unfold written_one, newest_one. destruct (has_txn meta), (m_Deleted meta); reflexivity. }
  clear Nc. unfold metadata_of in Em. unfold committed_of in *. destruct (Timestamp_IsEmpty (q_ts q)) eqn:Tq.
  - apply IsEmpty_spec in Tq. destruct (Io q vs eq_refl Tq) as (meta0 & Um & Hm). rewrite Um in Em. cbn [mbind res_bind] in Em. injection Em as Ex. rewrite <- Ex in Ei |- *. cbn [f_meta] in Ei.
    destruct Hm as [[I _]|(_ & [mt Mt] & u & rest & -> & Tu & Rk)]; [congruence|]. cbn [drop] in Cg |- *.
    assert (In1 : q ∈ pts) by (rewrite Ep; left). assert (In2 : u ∈ pts) by (rewrite Ep; right; left).
    apply elem_points in In1 as (_ & Uq & Pq). assert (Tx : has_txn meta0 = true) by (unfold has_txn; by rewrite Mt).
    pose proof (points_points_ok _ key (so_snapshot _ ok)) as Po. rewrite Ep in Po. destruct (intent_version key q u rest rks Po u) as [Nu _]; [left|].
    assert (Vu : version_ok key u). { assert (F : Forall (version_ok key) [u]) by (apply (versions_good (w_db w) ok key), Forall_singleton; done). by apply Forall_cons in F as [? _]. }
    rewrite (share_intent (w_db w) key nonlocal q u meta0 Uq Pq Tq Um Ei Tx Vu Rk rest Cg) in Es.
    destruct (negb (m_KeyBytes meta0 =? _)) eqn:K1; [done|]. destruct (negb (m_ValBytes meta0 =? _)) eqn:K2; [done|]. injection Es as <-.
    apply negb_false_iff, Z.eqb_eq in K1, K2.
    assert (Le : lt_ts (q_ts u) ts \/ Timestamp_EqOrdering (q_ts u) ts = true) by (destruct (Timestamp_Less (q_ts u) ts) eqn:Lt; [by left|right; by destruct Pp]).
    etrans; [exact (eq_sym (intent_change q u rest meta0 Ep Tq Tu Nu K1 K2 Tx Rk Cg Le))|].
    assert (MVCCKey_EncodedSize (q_key q) = blen key + 1) as ->; [|done].
    unfold MVCCKey_EncodedSize, MVCCKey_IsValue. fold (q_ts q) (q_user q). rewrite (proj2 (IsEmpty_spec _) Tq), Uq. unfold blen. cbn [negb]. lia.
  - apply IsEmpty_false in Tq. apply res_bind_inv in Em as (f & Ef & [= Ex]). rewrite <- Ex. rewrite (share_versions (w_db w) key Nk nonlocal q vs Cg) in Es. injection Es as <-.
    assert (Pv : pp_prevIsValue p = false) by (by destruct vs).
    cbn [olds]. pose proof (version_change q vs f Ep Tq Ef Pv) as V. by rewrite plus_assoc, <- V, plus_swap.
Qed.

(** The statistics of the new store. *)
Lemma put_epoch ms : fragmented (w_db w) -> epoch_stats (w_db w) = Ok ms -> epoch_stats (w_db (p_writer r)) = Ok (plus ms total_change).
Proof.
  intros Fr Em. pose proof (pe_ok _ _ _ _ _ _ _ _ _ _ _ _ _ Pe) as ok'. pose proof (so_snapshot _ ok) as ok0.
  destruct (share_exists (w_db w) ok key ms Em) as [s Es].
  eapply (epoch_change (w_db w)); try done.
  - apply (pe_stacks _ _ _ _ _ _ _ _ _ _ _ _ _ Pe).
  - apply (pe_elsewhere _ _ _ _ _ _ _ _ _ _ _ _ _ Pe). apply (elsewhere_below (MkMVCCKey key EmptyTimestamp)).
  - apply (pe_elsewhere _ _ _ _ _ _ _ _ _ _ _ _ _ Pe). apply (elsewhere_above (MkMVCCKey key EmptyTimestamp)).
  - rewrite (pe_points _ _ _ _ _ _ _ _ _ _ _ _ _ Pe), share_changed. f_equal. by apply key_change.
Qed.
End Put.

(** * The property *)

Lemma norm_epoch m : LastUpdateNanos m = 0 -> norm m = m.
Proof. intros T. unfold norm. stats; rewrite T; ring. Qed.

(** Keys of the new store are those of the old one, and the key. *)
Lemma changed_from start key db db' :
  (forall pr, elsewhere (MkMVCCKey key EmptyTimestamp) pr -> List.filter pr (positions db') = List.filter pr (positions db)) -> ble start key ->
  Forall (fun q => ble start (q_user q)) (positions db) -> Forall (fun q => ble start (q_user q)) (positions db').
Proof.
  intros Same Bk F. rewrite List.Forall_forall in F. apply List.Forall_forall. intros q I. destruct (decide (q_user q = key)) as [->|N]; [done|].
  assert (El : elsewhere (MkMVCCKey key EmptyTimestamp) (fun q => negb (beqb (q_user q) key))).
  { intros x Hx E. cbn in E. rewrite E in Hx. revert Hx. bcases; done. }
  pose proof (Same _ El) as E. apply F.
  assert (I' : In q (List.filter (fun q => negb (beqb (q_user q) key)) (positions db))); [|by apply List.filter_In in I' as [? _]].
  rewrite <- E. apply List.filter_In. split; [done|]. bcases; done.
Qed.

Section Claims.
Context `{L : ScanLib} {HL : HeaderLaws} {ML : MetaLaws L} {W : Type} {Wr : Writer W}.
Context (batch_reader : batch -> res (list (bytes * bytes) * option string)).
Context (maxItersBeforeSeek : Z) (fuel : nat) (unlimited : account) (disableSimple : bool) `{!WriterLaws Wr disableSimple}.

(** C10: The statistics that puts keep are those of the store.  If the statistics handed to a put,
    a deletion, a conditional put or an initial put are those that [ComputeStats] finds in the
    store, aged as it may be, then the statistics that it returns are, when aged to any time,
    exactly what [ComputeStats] finds at that time in the new store: for keys that are not
    local, under range tombstones, over live and deleted versions and over intents of the
    transaction, whether the put is too old, moves the intent or is a replay. *)
Theorem put_keeps_stats (w : W) key timestamp value valueFn opts r start end_ fuel1 fuel2
    {It} {M : MVCCIterator It} `{!IteratorLaws M (prefix_view (w_db w) key)} (it : It)
    {It1} {M1 : MVCCIterator It1} (L1 : IteratorLaws M1 (w_db w)) (New1 : IterKind -> IterOptions -> It1)
    {It2} {M2 : MVCCIterator It2} (L2 : IteratorLaws M2 (w_db (p_writer r))) (New2 : IterKind -> IterOptions -> It2) ms n :
  store_ok (w_db w) -> fragmented (w_db w) -> key <> [] -> isSysLocal key = false -> timestamp <> EmptyTimestamp ->
  times_ok opts timestamp -> values_ok opts value valueFn ->
  mvccPutInternal batch_reader maxItersBeforeSeek fuel unlimited disableSimple w (Some it) key timestamp value valueFn opts = Ok (inl r) ->
  ble start key -> Forall (fun q => ble start (q_user q)) (positions (w_db w)) ->
  (forall kind o, r_cur (it_abs (New1 kind o)) = Lo) -> (forall kind o, r_cur (it_abs (New2 kind o)) = Lo) ->
  (length (positions (w_db w)) < fuel1)%nat -> (length (positions (w_db (p_writer r))) < fuel2)%nat ->
  w_Stats opts = Some ms -> ComputeStats n New1 fuel1 start end_ = Ok (AgeTo ms n) ->
  exists ms', p_stats r = Some ms' /\ forall n', ComputeStats n' New2 fuel2 start end_ = Ok (AgeTo ms' n').
Proof.
  intros ok Fr Nk Nl Nt Times Values H Bk F N1 N2 Fu1 Fu2 St C1. pose proof (so_snapshot _ ok) as ok0.
  rewrite (ComputeStats_epoch (w_db w) ok0) in C1 by done. destruct (epoch_stats (w_db w)) as [m| |] eqn:Em; [|done..].
  apply (f_equal (fun x => match x with Ok a => norm a | _ => NoStats end)) in C1. cbn [fmap res_fmap] in C1. rewrite !norm_AgeTo in C1.
  destruct (put_changes batch_reader maxItersBeforeSeek fuel unlimited disableSimple key Nk w ok0 (so_intents _ ok key) timestamp Nt value valueFn opts
    Times Values it r H) as [[-> _]|(ex & p & v & e & b & Pe)].
  - exists ms. split; [done|]. intros n'. rewrite (ComputeStats_epoch (w_db w) ok0) by done. rewrite Em. cbn [fmap res_fmap]. f_equal.
    symmetry. by apply same_stats_AgeTo.
  - pose proof (put_epoch disableSimple key Nk Nl w ok timestamp value valueFn opts ex p r v e b Pe m Fr Em) as Em'.
    pose proof (wr_stats _ _ _ _ _ _ _ _ _ (pe_wrote _ _ _ _ _ _ _ _ _ _ _ _ _ Pe)) as Ws. rewrite St in Ws. cbn [fmap option_fmap option_map] in Ws.
    eexists. split; [exact Ws|]. intros n'. rewrite (ComputeStats_epoch _ (pe_ok _ _ _ _ _ _ _ _ _ _ _ _ _ Pe)) by (try done; (eapply changed_from; [apply (pe_elsewhere _ _ _ _ _ _ _ _ _ _ _ _ _ Pe)|done..])).
    rewrite Em'. cbn [fmap res_fmap]. f_equal. apply same_stats_AgeTo. unfold same_stats. rewrite norm_Add, <- C1.
    rewrite (norm_epoch m) by (by eapply epoch_stats_time). apply norm_epoch. by apply epoch_stats_time in Em'.
Qed.
End Claims.
