(* ===== verification/ResolveStats.v ===== *)
(** Resolutions and the statistics.

    The difference that the resolution of an intent adds to the statistics is the difference of
    what the key contributes: statistics that were those of the store stay those of the store. *)
From stdpp Require Import sorting.
From S2P Require Import Prelude Bytes GoLib Hlc KeyOps Spans MvccKey RangeKeys MvccValue MvccIter Scanner ScanSpec ScanNav ScanRead LocalKeys StoreOps MvccRead MvccStats StatsOk StatsKeys KeyStats MvccWrite MvccResolve WriteSpec WriteOk ResolveSpec PutOk ResolveOk IntentOk WriteStats.

Section Outcomes.
Context `{L : ScanLib} {HL : HeaderLaws} {ML : MetaLaws L} {W : Type} {Wr : Writer W} (disableSimple : bool) `{!WriterLaws Wr disableSimple}.
Context (w : W) (ok : store_ok (w_db w)) (u : LockUpdate) (Uo : update_ok u).
Abbreviation key := (Key (u_Span u)).
Abbreviation pts := (points (w_db w) key).
Abbreviation rks := (Versions (stack_at (w_db w) key)).
Context (nonlocal : isSysLocal key = false).
Context (m q : pos) (vs : list pos) (meta : MVCCMetadata) (txn : TxnMeta) (Oi : own_intent_at disableSimple w u m q vs meta txn).
Abbreviation before := (intent_stats (w_db w) key m q meta vs).

(** The contribution of the key before. *)
Lemma own_share : share 0 (w_db w) pts = Ok before /\ Forall (version_ok key) vs.
Proof.
  destruct (own_below disableSimple w ok u m q vs meta txn Oi) as (Ec & Fr & Pq & _). pose proof (committed_good (w_db w) ok key) as Cg. rewrite Ec in Cg. split; [|done].
  destruct Oi as [E T Um De _]. rewrite E. assert (Im : m ∈ pts) by (rewrite E; left). apply elem_points in Im as (_ & Uu & Pm). assert (Iq : q ∈ pts) by (rewrite E; right; left).
  assert (Vq : version_ok key q).
  { assert (F : Forall (version_ok key) [q]) by (apply (versions_good (w_db w) ok), Forall_singleton; split; [done|by apply ts_pos_set]). by apply Forall_cons in F as [? _]. }
  assert (Tx : has_txn meta = true) by (unfold has_txn; by rewrite (de_txn _ _ _ _ _ De)).
  rewrite (share_intent (w_db w) key nonlocal m q meta Uu Pm T Um (de_inline _ _ _ _ _ De) Tx Vq Fr vs Cg).
  rewrite (de_key _ _ _ _ _ De), (de_val _ _ _ _ _ De). change (blen (default [] (q_val q))) with (value_len q). by rewrite !Z.eqb_refl.
Qed.

Lemma own_wall : m_Wall meta = WallTime (q_ts q).
Proof. destruct Oi as [_ _ _ De _]. by rewrite <- (de_time _ _ _ _ _ De). Qed.

(** ** Updates *)

Section Update.
Context (u' : LockUpdate) (Ek : Key (u_Span u') = key) (raw : option bytes) (txn1 : TxnMeta) (meta1 : MVCCMetadata) (v1 : MVCCValue) (commit : bool) (ms : option MVCCStats).
Context (r : @resolve_result W) (ts : Timestamp) (e : bytes) (v : MVCCValue) (b : option bytes) (meta2 : MVCCMetadata) (pv : bool) (ps : Z).
Context (Ud : updated disableSimple w u' m q vs meta raw txn1 meta1 v1 commit ms r ts e v b meta2 pv ps).
Abbreviation change := (norm (updateStatsOnResolve key pv ps (blen key + 1) (value_len m) (blen key + 1) (opt_len b) meta meta2 commit)).
Abbreviation written := (written_one key (negb commit) (m_Deleted meta2) (m_Wall meta2) (opt_len b) (blen e)).

Lemma update_ts : le_ts (q_ts q) ts /\ m_Wall meta2 = WallTime ts.
Proof.
  pose proof (ud_described _ _ _ _ _ _ _ _ _ _ _ _ _ _ _ _ _ _ _ _ _ Ud) as De. split; [|by rewrite <- (de_time _ _ _ _ _ De)].
  rewrite (ud_ts _ _ _ _ _ _ _ _ _ _ _ _ _ _ _ _ _ _ _ _ _ Ud). destruct (Timestamp_Less _ _) eqn:Lt; [by apply lt_le_ts|apply le_ts_refl].
Qed.

Lemma update_share : share 0 (w_db w) (changed_points key pts ts e b) = Ok (plus written (olds (w_db w) key (WallTime ts) vs)).
Proof.
  destruct update_ts as [Le Wm]. pose proof (ud_described _ _ _ _ _ _ _ _ _ _ _ _ _ _ _ _ _ _ _ _ _ Ud) as De. pose proof (ud_meta _ _ _ _ _ _ _ _ _ _ _ _ _ _ _ _ _ _ _ _ _ Ud) as Mb.
  destruct (own_below disableSimple w ok u m q vs meta txn Oi) as (Ec & Fr & Pq & _).
  rewrite (share_written (w_db w) ok key (uo_key u Uo) nonlocal ts e b meta2); try done.
  - rewrite Ec. destruct b; [by destruct Mb as (-> & _)|by rewrite Mb].
  - intros E. rewrite E in Le. destruct Pq as (_ & B & _). clear - Le B. unfold le_ts, lt_ts in *. by rewrite LessEq_negb, B in Le.
  - eapply Forall_impl; [exact Fr|]. cbn. intros x Hx. by eapply lt_le_ts_trans.
  - destruct (de_value _ _ _ _ _ De) as (x & En & ->). by destruct (encodes_spec _ _ _ En) as (_ & _ & ?).
  - apply (de_key _ _ _ _ _ De).
  - apply (de_val _ _ _ _ _ De).
  - destruct b; [|done]. destruct Mb as (_ & _ & Um). exists true. split; [done|]. unfold has_txn. rewrite (de_txn _ _ _ _ _ De). split; [done|apply (de_inline _ _ _ _ _ De)].
Qed.

Lemma update_change : plus before change = plus written (olds (w_db w) key (WallTime ts) vs).
Proof.
  destruct update_ts as [Le Wm]. pose proof (ud_described _ _ _ _ _ _ _ _ _ _ _ _ _ _ _ _ _ _ _ _ _ Ud) as De. destruct Oi as [Ep Tm Um De0 Id]. pose proof own_wall as W0.
  destruct (own_below disableSimple w ok u m q vs meta txn Oi) as (Ec & Fr & Pq & _). destruct own_share as [_ Cg].
  pose proof (ud_prev _ _ _ _ _ _ _ _ _ _ _ _ _ _ _ _ _ _ _ _ _ Ud) as Pp. rewrite Ek in Pp. pose proof (ud_ts _ _ _ _ _ _ _ _ _ _ _ _ _ _ _ _ _ _ _ _ _ Ud) as Et.
  pose proof (resolve_alone key nonlocal meta (value_len q) (value_len m) (de_key _ _ _ _ _ De0) (de_val _ _ _ _ _ De0) meta2 commit (opt_len b) (blen e) (de_key _ _ _ _ _ De) (de_val _ _ _ _ _ De) ps) as A1.
  pose proof (resolve_over_value key nonlocal meta (value_len q) (value_len m) (de_key _ _ _ _ _ De0) (de_val _ _ _ _ _ De0) meta2 commit (opt_len b) (blen e) (de_key _ _ _ _ _ De) (de_val _ _ _ _ _ De) ps) as A2.
  unfold intent_stats, intent_since. rewrite W0, Wm in *. destruct vs as [|x l]; cbn [olds].
  - rewrite !plus_NoStats. assert (pv = false) as -> by (destruct (Timestamp_Less _ _); [by injection Pp|done]). exact A1.
  - apply Forall_cons in Cg as [[_ _ Nx _] _].
    destruct (below_shift (w_db w) ok key (q_ts q) ts x l pv (if pv then ps else 0) Nx Fr) as [[Pv E]|(Pv & Es & E)].
    + destruct (Timestamp_Less (q_ts q) (t_WriteTimestamp (u_Txn u'))) eqn:Lt; rewrite Et; [rewrite Lt; by apply next_below_info|].
      assert (Timestamp_Less (q_ts q) (q_ts q) = false) as -> by (apply not_true_is_false, lt_ts_irrefl). done.
    + rewrite E, plus_swap. rewrite Pv. by rewrite A1.
    + rewrite Pv in Es |- *. by rewrite !E, <- Es, !plus_assoc, plus_swap, A2.
Qed.
End Update.

(** ** Removals *)

Lemma remove_change info change : reveal_info rks vs = Ok info -> clear_change u m meta info = Ok change -> share 0 (w_db w) vs = Ok (plus before (norm change)).
Proof.
  intros Ei Ec. destruct Oi as [Ep Tm Um De0 Id]. pose proof own_wall as W0. destruct (own_below disableSimple w ok u m q vs meta txn Oi) as (_ & Fr & Pq & _). destruct own_share as [_ Cg].
  assert (Tx : has_txn meta = true) by (unfold has_txn; by rewrite (de_txn _ _ _ _ _ De0)). unfold intent_stats, intent_since.
  pose proof (clear_nothing key nonlocal meta (value_len q) (value_len m) (de_key _ _ _ _ _ De0) (de_val _ _ _ _ _ De0) Tx) as C0.
  pose proof (clear_to_dead key nonlocal meta (value_len q) (value_len m) (de_key _ _ _ _ _ De0) (de_val _ _ _ _ _ De0) Tx) as C1.
  pose proof (clear_to_live key nonlocal meta (value_len q) (value_len m) (de_key _ _ _ _ _ De0) (de_val _ _ _ _ _ De0) Tx) as C2.
  rewrite W0 in *. unfold reveal_info in Ei. destruct vs as [|x l]; cbn [olds].
  { injection Ei as <-. destruct C0 as (d & Ed & C0). change (clear_change u m meta None) with (updateStatsOnClear key (blen key + 1) (value_len m) 0 0 meta None 0) in Ec.
    rewrite Ed in Ec. injection Ec as <-. rewrite plus_NoStats. change (share 0 (w_db w) []) with (Ok NoStats). by rewrite C0. }
  rewrite (share_versions (w_db w) key (uo_key u Uo) nonlocal x l Cg). apply Forall_cons in Cg as [[_ _ Nx _] _]. f_equal. rewrite plus_assoc, plus_swap. f_equal.
  apply res_bind_inv in Ei as (t & Et & Ei). assert (Tu : is_tombstone x = t) by (unfold is_tombstone; by rewrite Et). destruct (rks_ok (w_db w) ok key) as [Sr Fp].
  unfold version_since. rewrite (next_tombstone_spec (w_db w) ok key x Nx), Tu. destruct t; cbn [negb] in Ei.
  - injection Ei as <-. destruct (C1 (value_len x) (value_len x) (WallTime (q_ts x))) as (d & Ed & C). rewrite (old_deleted (w_db w) key x _ Tu).
    pose proof (eq_trans (eq_sym Ed) Ec) as [= <-]. by rewrite C.
  - destruct (Versions_FirstAtOrAbove rks (q_ts x)) as [z|] eqn:Ea; injection Ei as <-.
    + destruct (above_some rks (q_ts x) z Sr Ea) as (I & _). rewrite Forall_forall in Fr, Fp. destruct (C1 0 (value_len x) (WallTime (v_Timestamp z))) as (d & Ed & C).
      rewrite (old_covered (w_db w) ok key x z) by (try done; by apply wall_le, Fr). unfold Timestamp_IsSet. rewrite (proj2 (IsEmpty_false _) (ts_pos_set _ (Fp z I))). cbn [negb].
      pose proof (eq_trans (eq_sym Ed) Ec) as [= <-]. by rewrite C.
    + destruct (C2 (value_len x) (WallTime (q_ts x))) as (d & Ed & C). rewrite (old_uncovered (w_db w) ok key x _ Nx Ea Tu). change (Timestamp_IsSet EmptyTimestamp) with false. cbv iota.
      pose proof (eq_trans (eq_sym Ed) Ec) as [= <-]. by rewrite C.
Qed.

(** ** The statistics of the new store *)

(** A change to the points of the key that changes its contribution. *)
Lemma contribution_epoch db' new change ms : fragmented (w_db w) -> snapshot_ok db' -> stacks db' = stacks (w_db w) ->
  (forall pr, elsewhere (MkMVCCKey key EmptyTimestamp) pr -> List.filter pr (positions db') = List.filter pr (positions (w_db w))) ->
  points db' key = new -> share 0 (w_db w) new = Ok (plus before change) -> epoch_stats (w_db w) = Ok ms -> epoch_stats db' = Ok (plus ms change).
Proof.
  intros Fr ok' Es El Ep Sh Em. destruct own_share as [S0 _]. pose proof (so_snapshot _ ok) as ok0.
  eapply (epoch_change (w_db w)); try done.
  - apply El, (elsewhere_below (MkMVCCKey key EmptyTimestamp)).
  - apply El, (elsewhere_above (MkMVCCKey key EmptyTimestamp)).
  - by rewrite Ep.
Qed.

(** What a resolution leaves, for the statistics. *)
Definition stats_follow (stats : option MVCCStats) (r : @resolve_result W) : Prop :=
  snapshot_ok (w_db (rr_writer r)) /\
  (forall pr, elsewhere (MkMVCCKey key EmptyTimestamp) pr -> List.filter pr (positions (w_db (rr_writer r))) = List.filter pr (positions (w_db w))) /\
  exists change, (rr_stats r = stats /\ change = NoStats \/ exists d, rr_stats r = (fun ms => Add ms d) <$> stats /\ change = norm d) /\
    forall ms, epoch_stats (w_db w) = Ok ms -> epoch_stats (w_db (rr_writer r)) = Ok (plus ms change).

Lemma updated_follow (Fr : fragmented (w_db w)) u' raw txn1 meta1 v1 commit stats r ts e v b meta2 pv ps : Key (u_Span u') = key ->
  updated disableSimple w u' m q vs meta raw txn1 meta1 v1 commit stats r ts e v b meta2 pv ps -> stats_follow stats r.
Proof.
  intros Ek Ud. pose proof (ud_elsewhere _ _ _ _ _ _ _ _ _ _ _ _ _ _ _ _ _ _ _ _ _ Ud) as El. pose proof (ud_points _ _ _ _ _ _ _ _ _ _ _ _ _ _ _ _ _ _ _ _ _ Ud) as Pn.
  pose proof (ud_stats _ _ _ _ _ _ _ _ _ _ _ _ _ _ _ _ _ _ _ _ _ Ud) as St. rewrite Ek in El, Pn, St. pose proof (ud_ok _ _ _ _ _ _ _ _ _ _ _ _ _ _ _ _ _ _ _ _ _ Ud) as ok'.
  split; [done|]. split; [done|]. eexists. split; [right; eexists; split; [exact St|reflexivity]|]. intros ms Em.
  eapply (contribution_epoch _ _ _ ms Fr ok'); try done; [apply (ud_stacks _ _ _ _ _ _ _ _ _ _ _ _ _ _ _ _ _ _ _ _ _ Ud)|].
  rewrite (update_share u' raw txn1 meta1 v1 commit stats r ts e v b meta2 pv ps Ud). f_equal. symmetry. by eapply update_change.
Qed.

Lemma outcome_follow (Fr : fragmented (w_db w)) stats r : outcome disableSimple w u m q vs meta txn stats (decision_of u meta txn (q_ts q)) r -> stats_follow stats r.
Proof.
  intros Out. destruct (decision_of u meta txn (q_ts q)) as [|commit [[i h]|]|]; cbn [outcome] in Out.
  - rewrite Out. split; [apply ok|]. split; [done|]. exists NoStats. split; [by left|]. intros ms Em. by rewrite plus_NoStats.
  - destruct Out as (v1 & ts & e & v & b & meta2 & pv & ps & _ & Ud). exact (updated_follow Fr (applied u q (Some (i, h))) _ _ _ _ _ _ _ _ _ _ _ _ _ _ eq_refl Ud).
  - destruct Out as (v1 & ts & e & v & b & meta2 & pv & ps & _ & Ud). exact (updated_follow Fr u _ _ _ _ _ _ _ _ _ _ _ _ _ _ eq_refl Ud).
  - destruct Out as (info & change & Rm). pose proof (rm_ok _ _ _ _ _ _ _ _ _ _ Rm) as ok'. pose proof (rm_elsewhere _ _ _ _ _ _ _ _ _ _ Rm) as El.
    split; [done|]. split; [done|]. exists (norm change). split; [right; exists change; split; [apply (rm_stats _ _ _ _ _ _ _ _ _ _ Rm)|done]|]. intros ms Em.
    eapply (contribution_epoch _ _ _ ms Fr ok'); try done; [apply (rm_stacks _ _ _ _ _ _ _ _ _ _ Rm)|].
    rewrite (rm_points _ _ _ _ _ _ _ _ _ _ Rm). apply (remove_change info change); [apply (rm_info _ _ _ _ _ _ _ _ _ _ Rm)|apply (rm_change _ _ _ _ _ _ _ _ _ _ Rm)].
Qed.
End Outcomes.

(** * The property *)

Section Claims.
Context `{L : ScanLib} {HL : HeaderLaws} {ML : MetaLaws L} {W : Type} {Wr : Writer W} (disableSimple : bool) `{!WriterLaws Wr disableSimple}.

(** C11: The statistics that resolutions keep are those of the store.  If the statistics handed to
    [MVCCResolveWriteIntent] are those that [ComputeStats] finds in the store, aged as it may be,
    then the statistics that it returns are, when aged to any time, exactly what [ComputeStats]
    finds at that time in the new store: for keys that are not local, whether the intent is
    committed, moved, rolled back or removed, over live, deleted and covered versions or none. *)
Theorem resolve_keeps_stats (w : W) u start end_ fuel1
    {It} {M : MVCCIterator It} {IL : IteratorLaws M (prefix_view (w_db w) (Key (u_Span u)))} SeekIntentGE {Is : IntentSeeks M _ IL SeekIntentGE}
    (NewMVCCIterator : W -> IterKind -> IterOptions -> It) TargetBytes
    {It1} {M1 : MVCCIterator It1} (L1 : IteratorLaws M1 (w_db w)) (New1 : IterKind -> IterOptions -> It1) ms n :
  store_ok (w_db w) -> fragmented (w_db w) -> intents_described disableSimple (w_db w) -> update_ok u -> point_request u TargetBytes -> isSysLocal (Key (u_Span u)) = false ->
  ble start (Key (u_Span u)) -> Forall (fun q => ble start (q_user q)) (positions (w_db w)) ->
  (forall kind o, r_cur (it_abs (New1 kind o)) = Lo) -> (length (positions (w_db w)) < fuel1)%nat -> ComputeStats n New1 fuel1 start end_ = Ok (AgeTo ms n) ->
  exists r bytes ms', MVCCResolveWriteIntent disableSimple NewMVCCIterator SeekIntentGE w (Some ms) u TargetBytes = Ok (r, bytes, None) /\ rr_stats r = Some ms' /\
    forall It2 (M2 : MVCCIterator It2) (L2 : IteratorLaws M2 (w_db (rr_writer r))) (New2 : IterKind -> IterOptions -> It2) fuel2 n',
    (forall kind o, r_cur (it_abs (New2 kind o)) = Lo) -> (length (positions (w_db (rr_writer r))) < fuel2)%nat ->
    ComputeStats n' New2 fuel2 start end_ = Ok (AgeTo ms' n').
Proof.
  intros ok Fr Ds Uo Pr Nl Bk F N1 Fu1 C1. pose proof (so_snapshot _ ok) as ok0.
  rewrite (ComputeStats_epoch (w_db w) ok0) in C1 by done. destruct (epoch_stats (w_db w)) as [m| |] eqn:Em; [|done..].
  apply (f_equal (fun x => match x with Ok a => norm a | _ => NoStats end)) in C1. cbn [fmap res_fmap] in C1. rewrite !norm_AgeTo in C1.
  destruct (resolve_runs disableSimple w ok Fr Ds u Uo SeekIntentGE NewMVCCIterator (Some ms) TargetBytes Pr) as (r & k & Er & H).
  assert (Sf : stats_follow disableSimple w u (Some ms) r).
  { destruct H as [(_ & -> & _)|(m' & q & vs & meta & txn & Oi & Out)]; [|by eapply outcome_follow].
    split; [done|]. split; [done|]. exists NoStats. split; [by left|]. intros ms' Em'. by rewrite plus_NoStats. }
  clear H. destruct Sf as (ok' & El & change & Ch & Ep). specialize (Ep m Em).
  assert (exists ms', rr_stats r = Some ms' /\ norm ms' = plus (norm ms) change) as (ms' & St & Nm).
  { destruct Ch as [[-> ->]|(d & -> & ->)]; eexists; (split; [reflexivity|]); [by rewrite plus_NoStats|by rewrite norm_Add]. }
  exists r, k, ms'. split; [done|]. split; [done|]. intros It2 M2 L2 New2 fuel2 n' N2 Fu2.
  rewrite (ComputeStats_epoch _ ok') by (try done; by eapply changed_from). rewrite Ep. cbn [fmap res_fmap]. f_equal. apply same_stats_AgeTo. unfold same_stats. rewrite Nm, <- C1.
  rewrite (norm_epoch m) by (by eapply epoch_stats_time). apply norm_epoch. by apply epoch_stats_time in Ep.
Qed.
End Claims.
