(* ===== verification/WriteExamples.v ===== *)
(** Writes to a concrete store.

    An instance of the code that writes call, with its laws: metadata is numbered, and the writer
    is the store; and a store with versions, an intent and a range tombstone, on which the
    theorems about puts and statistics are applied. *)
From stdpp Require Import sorting countable.
From S2P Require Import Prelude Bytes GoLib Hlc KeyOps Spans MvccKey RangeKeys MvccValue MvccIter Scanner ScanSpec ScanNav ScanOk PebbleResults ScanRead LocalKeys StoreOps MvccRead MvccReadOk ReadExamples MvccStats StatsOk StatsKeys MvccWrite WriteSpec WriteOk PutOk PutReads WriteStats.

(** * Libraries *)

#[local] Instance Metadata_eq : EqDecision MVCCMetadata.
Proof.
  assert (EqDecision Timestamp) by solve_decision. assert (EqDecision LegacyTimestamp) by solve_decision. assert (EqDecision TxnMeta) by solve_decision.
  assert (EqDecision SequencedIntent) by solve_decision. solve_decision.
Defined.

(** Metadata as a tree of numbers. *)
Definition of_list {A} (f : A -> gen_tree Z) (l : list A) : gen_tree Z := GenNode 1 (f <$> l).
Definition of_option {A} (f : A -> gen_tree Z) (o : option A) : gen_tree Z := match o with Some x => GenNode 2 [f x] | None => GenNode 3 [] end.
Definition of_bool (b : bool) : gen_tree Z := GenLeaf (if b then 1 else 0).
Definition of_bytes : bytes -> gen_tree Z := of_list GenLeaf.
Definition of_time (t : Timestamp) : gen_tree Z := GenNode 0 [GenLeaf (WallTime t); GenLeaf (Logical t); of_bool (Synthetic t)].
Definition of_legacy (t : LegacyTimestamp) : gen_tree Z := GenNode 0 [GenLeaf (l_WallTime t); GenLeaf (l_Logical t); of_option of_bool (l_Synthetic t)].
Definition of_txn (t : TxnMeta) : gen_tree Z :=
  GenNode 0 [of_bytes (t_ID t); of_bytes (t_Key t); GenLeaf (t_Epoch t); of_time (t_WriteTimestamp t); of_time (t_MinTimestamp t); GenLeaf (t_Priority t); GenLeaf (t_Sequence t)].
Definition of_sequenced (x : SequencedIntent) : gen_tree Z := GenNode 0 [GenLeaf (h_Sequence x); of_bytes (h_Value x)].
Definition of_meta (m : MVCCMetadata) : gen_tree Z :=
  GenNode 0 [of_option of_txn (m_Txn m); of_legacy (m_Timestamp m); of_bool (m_Deleted m); GenLeaf (m_KeyBytes m); GenLeaf (m_ValBytes m);
             of_option of_bytes (m_RawBytes m); of_list of_sequenced (m_IntentHistory m); of_option of_legacy (m_MergeTimestamp m);
             of_option of_bool (m_TxnDidNotUpdateMeta m)].

Definition leaf (t : gen_tree Z) : Z := match t with GenLeaf z => z | _ => 0 end.
Definition to_list {A} (f : gen_tree Z -> A) (t : gen_tree Z) : list A := match t with GenNode _ l => f <$> l | _ => [] end.
Definition to_option {A} (f : gen_tree Z -> A) (t : gen_tree Z) : option A := match t with GenNode _ [x] => Some (f x) | _ => None end.
Definition to_bool (t : gen_tree Z) : bool := leaf t =? 1.
Definition to_bytes : gen_tree Z -> bytes := to_list leaf.
Definition to_time (t : gen_tree Z) : Timestamp := match t with GenNode _ [a; b; c] => MkTimestamp (leaf a) (leaf b) (to_bool c) | _ => EmptyTimestamp end.
Definition to_legacy (t : gen_tree Z) : LegacyTimestamp :=
  match t with GenNode _ [a; b; c] => MkLegacyTimestamp (leaf a) (leaf b) (to_option to_bool c) | _ => MkLegacyTimestamp 0 0 None end.
Definition to_txn (t : gen_tree Z) : TxnMeta :=
  match t with
  | GenNode _ [a; b; c; d; e; f; g] => MkTxnMeta (to_bytes a) (to_bytes b) (leaf c) (to_time d) (to_time e) (leaf f) (leaf g)
  | _ => MkTxnMeta [] [] 0 EmptyTimestamp EmptyTimestamp 0 0
  end.
Definition to_sequenced (t : gen_tree Z) : SequencedIntent := match t with GenNode _ [a; b] => MkSequenced (leaf a) (to_bytes b) | _ => MkSequenced 0 [] end.
Definition to_meta (t : gen_tree Z) : MVCCMetadata :=
  match t with
  | GenNode _ [a; b; c; d; e; f; g; h; i] =>
      MkMetadata (to_option to_txn a) (to_legacy b) (to_bool c) (leaf d) (leaf e) (to_option to_bytes f) (to_list to_sequenced g) (to_option to_legacy h)
        (to_option to_bool i)
  | _ => EmptyMetadata
  end.

Lemma list_tree {A} (f : A -> gen_tree Z) g l : (forall x, g (f x) = x) -> to_list g (of_list f l) = l.
Proof. intros E. cbn. rewrite <- list_fmap_compose. rewrite <- (list_fmap_id l) at 2. apply list_fmap_ext. intros i x _. apply E. Qed.
Lemma option_tree {A} (f : A -> gen_tree Z) g o : (forall x, g (f x) = x) -> to_option g (of_option f o) = o.
Proof. intros E. destruct o; cbn; by rewrite ?E. Qed.
Lemma bool_tree b : to_bool (of_bool b) = b.
Proof. by destruct b. Qed.
Lemma bytes_tree b : to_bytes (of_bytes b) = b.
Proof. by apply list_tree. Qed.
Lemma time_tree t : to_time (of_time t) = t.
Proof. destruct t as [a b []]; done. Qed.
Lemma legacy_tree t : to_legacy (of_legacy t) = t.
Proof. destruct t as [a b c]. cbn [to_legacy of_legacy l_WallTime l_Logical l_Synthetic leaf]. by rewrite (option_tree _ _ _ bool_tree). Qed.
Lemma txn_tree t : to_txn (of_txn t) = t.
Proof. destruct t as [a b c d e f g]. cbn [to_txn of_txn t_ID t_Key t_Epoch t_WriteTimestamp t_MinTimestamp t_Priority t_Sequence leaf]. by rewrite !bytes_tree, !time_tree. Qed.
Lemma sequenced_tree t : to_sequenced (of_sequenced t) = t.
Proof. destruct t as [a b]. cbn [to_sequenced of_sequenced h_Sequence h_Value leaf]. by rewrite bytes_tree. Qed.
Lemma meta_tree m : to_meta (of_meta m) = m.
Proof.
  destruct m as [a b c d e f g h i]. cbn [to_meta of_meta m_Txn m_Timestamp m_Deleted m_KeyBytes m_ValBytes m_RawBytes m_IntentHistory m_MergeTimestamp m_TxnDidNotUpdateMeta leaf].
  by rewrite !(option_tree _ _ _ txn_tree), !legacy_tree, bool_tree, (option_tree _ _ _ bytes_tree), (list_tree _ _ _ sequenced_tree), (option_tree _ _ _ legacy_tree),
    (option_tree _ _ _ bool_tree).
Qed.

#[local] Instance Metadata_countable : Countable MVCCMetadata := inj_countable' of_meta to_meta meta_tree.

Definition number (m : MVCCMetadata) : bytes := [Zpos (encode m)].
Definition numbered (b : bytes) : res MVCCMetadata :=
  match b with
  | [Zpos p] => match decode p with Some m => Ok m | None => Err "bad metadata" end
  | _ => Err "bad metadata"
  end.

#[export] Instance shelf_lib : ScanLib := {|
  scan_HeaderLib := sample_HeaderLib;
  account := unit;
  Grow a _ := Ok a;
  batch := list (bytes * bytes);
  batch_empty := [];
  batch_Set b k v := Ok (b ++ [(k, v)]);
  batch_Count b := Z.of_nat (length b);
  UnmarshalMeta := numbered;
  MarshalMeta m := Ok (number m);
  IsKeyLockedByConflictingTxn _ _ := (false, None)
|}.
#[export] Instance shelf_laws : ScanLaws shelf_lib.
Proof. refine {| batch_entries := fun b : @batch shelf_lib => b |}; cbn; try done; eauto. Defined.
#[export] Instance shelf_headers : @HeaderLaws (@scan_HeaderLib shelf_lib) := sample_HeaderLaws.
#[export] Instance shelf_metas : MetaLaws shelf_lib.
Proof. split. intros m. exists (number m). split; [done|]. split; [done|]. cbn. by rewrite decode_encode. Qed.

Definition shelf_reader (b : @batch shelf_lib) : res (list (bytes * bytes) * option string) := Ok (b, None).

Lemma reader_reads b : shelf_reader b = Ok (batch_entries b, None).
Proof. done. Qed.

(** The writer is the store. *)
#[export] Instance shelf_writer : Writer snapshot := {|
  PutMVCC w k v := e ← EncodeMVCCValue false v; Ok (put_point w k e);
  PutIntent w key v _ := Ok (put_point w (MkMVCCKey key EmptyTimestamp) v);
  PutUnversioned w key v := Ok (put_point w (MkMVCCKey key EmptyTimestamp) v);
  ClearUnversioned w key := Ok (clear_point w (MkMVCCKey key EmptyTimestamp));
  ClearMVCC w k := Ok (clear_point w k);
  ClearIntent w key _ _ := Ok (clear_meta w key);
  BufferedSize _ := 0;
  ShouldWriteLocalTimestamps _ := true;
  LogLogicalOp w _ _ := w
|}.
#[export] Instance shelf_writes : WriterLaws shelf_writer false.
Proof.
  refine {| w_db := fun w : snapshot => w |}; cbn; try done; eauto.
  intros w k v e _ ->. eauto.
Defined.

(** * A store *)

Definition owner (seq n : Z) : Transaction := MkTransaction (MkTxnMeta [9] [] 0 (ts_at n) EmptyTimestamp 0 seq) (ts_at 6) [].
Definition owned : MVCCMetadata :=
  MkMetadata (Some (tx_Meta (owner 0 6))) (MkLegacyTimestamp 6 0 None) false 12 6 None [] None None.

Definition shelf : snapshot :=
  MkSnapshot
    [version [97] 3 (value_of 13);
     MkPos (MkMVCCKey [98] EmptyTimestamp) (Some (number owned)); version [98] 6 (value_of 66); version [98] 4 (value_of 64);
     MkPos (MkMVCCKey [99] EmptyTimestamp) None; version [99] 2 (value_of 22)]
    [MkStack (MkSpan [99] (Some [101])) [tombstone 3]].

Lemma shelf_snapshot : snapshot_ok shelf.
Proof. concrete_ok. Qed.

Lemma shelf_ok : store_ok shelf.
Proof.
  split; [apply shelf_snapshot|..].
  - intros key m vs E T. assert (I : m ∈ points shelf key) by (rewrite E; left). apply elem_points in I as (I & U & H).
    apply list_elem_of_In in I. cbn in I. repeat destruct I as [<-|I]; try done. cbn in U. subst key.
    assert (vs = [version [98] 6 (value_of 66); version [98] 4 (value_of 64)]) as -> by (injection E as <-; reflexivity).
    exists owned. split; [vm_compute; reflexivity|]. right. split; [done|]. split; [by eexists|]. eexists _, _. split; [reflexivity|].
    split; [reflexivity|constructor].
  - split.
    + repeat (apply List.Forall_cons; [intros N; first [by destruct N|eexists; vm_compute; reflexivity]|]). apply List.Forall_nil.
    + apply Forall_singleton, Forall_singleton. eexists. vm_compute. reflexivity.
Qed.

Lemma shelf_described : intents_described false shelf.
Proof.
  intros key m l E T. assert (I : m ∈ points shelf key) by (rewrite E; left). apply elem_points in I as (I & U & H).
  apply list_elem_of_In in I. cbn in I. repeat destruct I as [<-|I]; try done. cbn in U. subst key.
  assert (l = [version [98] 6 (value_of 66); version [98] 4 (value_of 64)]) as -> by (injection E as <-; reflexivity).
  exists owned. split; [vm_compute; reflexivity|]. eexists. split; try reflexivity; [|constructor].
  exists (MkMVCCValue EmptyHeader (value_of 66)). split; [|reflexivity]. split; [vm_compute; reflexivity|right; cbn; split; [lia|done]|unfold ts_wf, isS; cbn; lia|done].
Qed.

Lemma shelf_fragmented : fragmented shelf.
Proof.
  split.
  - intros t key I%list_elem_of_In C. cbn in I. destruct I as [<-|[]]. unfold stack_at. cbn [stacks shelf List.find]. by rewrite C.
  - intros t I%list_elem_of_In. cbn in I. by destruct I as [<-|[]].
Qed.

(** * Puts *)

Definition plain_write (stats : option MVCCStats) : MVCCWriteOptions := MkWriteOptions None EmptyTimestamp stats false.
Definition txn_write (seq n : Z) (stats : option MVCCStats) : MVCCWriteOptions := MkWriteOptions (Some (owner seq n)) EmptyTimestamp stats false.
Definition new_value : Value := MkValue (value_of 77) EmptyTimestamp.
Abbreviation view_of key := (ref_iterator (prefix_view shelf key)).
Definition at_start : ref := MkRef Lo false.

Lemma value_fits opts : w_LocalTimestamp opts = EmptyTimestamp -> value_ok opts new_value.
Proof. intros E. split; [right; cbn; split; [lia|done]|]. rewrite E. split; unfold isS; cbn; lia. Qed.
Lemma plain_times n : 0 < n < 100 -> times_ok (plain_write None) (ts_at n).
Proof. intros H. split; [|apply le_ts_refl]. split; [by apply small_time; lia|]. split; [|cbn; lia]. unfold lt_ts, Timestamp_Less. cbn. lia. Qed.

(** A put of the transaction over its intent, at a later timestamp. *)
Definition moved (stats : option MVCCStats) := mvccPutInternal (L := shelf_lib) (M := view_of [98]) shelf_reader 10 30 tt false shelf (Some at_start) [98] (ts_at 6) new_value None (txn_write 1 7 stats).

Lemma moved_times stats : times_ok (txn_write 1 7 stats) (ts_at 6).
Proof. split; [|done]. split; [by apply small_time|]. by split. Qed.

Lemma put_keeps_store_witness :
  exists r, moved None = Ok (inl r) /\ store_ok (p_writer r) /\ intents_described false (p_writer r) /\ prefix_view (p_writer r) [99] = prefix_view shelf [99].
Proof.
  assert (exists r, moved None = Ok (inl r)) as [r E] by (eexists; vm_compute; reflexivity). exists r. split; [exact E|].
  destruct (put_keeps_store (M := view_of [98]) shelf_reader 10 30 tt false shelf [98] (ts_at 6) new_value (txn_write 1 7 None) None at_start r) as (S & D & V).
  - apply shelf_ok.
  - apply shelf_described.
  - done.
  - done.
  - apply moved_times.
  - by apply value_fits.
  - exact E.
  - split; [exact S|]. split; [exact D|]. by apply V.
Defined.

Lemma plain_request n value : 0 <= n -> val_Timestamp value = EmptyTimestamp -> request (ts_at n) value (plain_write None).
Proof. intros H E. by split. Qed.

Lemma MVCCPut_writes_witness :
  exists r, MVCCPut (L := shelf_lib) (M := view_of [99]) shelf_reader 10 30 tt false (fun _ _ _ => at_start) shelf [99] (ts_at 5) new_value (plain_write None) = Ok (inl r) /\
    p_tooOld r = None /\ put_at [99] shelf (p_writer r) None (ts_at 5) (value_of 77).
Proof.
  destruct (MVCCPut_writes (M := view_of [99]) shelf_reader 10 30 tt false shelf [99] (ts_at 5) new_value (plain_write None) (fun _ _ _ => at_start)) as (r & E & T & A).
  - done.
  - lia.
  - apply shelf_ok.
  - done.
  - done.
  - by apply plain_times.
  - by apply value_fits.
  - by apply plain_request.
  - by repeat constructor.
  - by repeat constructor.
  - by repeat constructor.
  - exists r. split; [exact E|]. split; [exact T|exact A].
Defined.

Lemma MVCCPut_too_old_witness :
  exists r, MVCCPut (L := shelf_lib) (M := view_of [99]) shelf_reader 10 30 tt false (fun _ _ _ => at_start) shelf [99] (ts_at 2) new_value (plain_write None) = Ok (inl r) /\
    p_tooOld r = Some (WriteTooOldError (ts_at 2) (MkTimestamp 3 1 false) [99]) /\
    put_at [99] shelf (p_writer r) None (MkTimestamp 3 1 false) (value_of 77).
Proof.
  destruct (MVCCPut_too_old (M := view_of [99]) shelf_reader 10 30 tt false shelf [99] (ts_at 2) new_value (plain_write None) (fun _ _ _ => at_start) (MkTimestamp 3 1 false))
    as (r & E & T & _ & _ & A).
  - done.
  - lia.
  - apply shelf_ok.
  - done.
  - done.
  - by apply plain_times.
  - by apply value_fits.
  - by apply plain_request.
  - by repeat constructor.
  - by left.
  - reflexivity.
  - reflexivity.
  - split; [|cbn; lia|].
    + split; [split; unfold isS; cbn; lia|]. by split.
    + small_pairs.
  - exists r. split; [exact E|]. split; [exact T|exact A].
Defined.

Lemma put_stops_at_intent_witness :
  mvccPutInternal (L := shelf_lib) (M := view_of [98]) shelf_reader 10 30 tt false shelf (Some at_start) [98] (ts_at 8) new_value None (plain_write None)
  = Ok (inr (OfRead (WriteIntentError [MkIntent [98] (tx_Meta (owner 0 6))]), shelf)).
Proof.
  apply (put_stops_at_intent (M := view_of [98]) shelf_reader 10 30 tt false shelf [98] (ts_at 8) new_value (plain_write None) None at_start
    (MkPos (MkMVCCKey [98] EmptyTimestamp) (Some (number owned))) [version [98] 6 (value_of 66); version [98] 4 (value_of 64)] owned (tx_Meta (owner 0 6))).
  - apply shelf_ok.
  - done.
  - done.
  - by apply plain_request.
  - reflexivity.
  - reflexivity.
  - vm_compute. reflexivity.
  - reflexivity.
  - reflexivity.
  - done.
Defined.

Definition later_put := mvccPutInternal (L := shelf_lib) (M := view_of [97]) shelf_reader 10 30 tt false shelf (Some at_start) [97] (ts_at 5) new_value None (plain_write None).

Lemma MVCCPut_then_get_witness :
  exists r, later_put = Ok (inl r) /\
    MVCCGet (L := shelf_lib) (M := ref_iterator (prefix_view (p_writer r) [97])) shelf_reader 10 30 (fun _ _ => at_start) [97] (ts_at 9)
      (existing_options (L := shelf_lib) tt) = Ok (inl (MkGetResult (Some (MkValue (value_of 77) (ts_at 5))) None None RESUME_UNKNOWN 0 1 6)).
Proof.
  assert (exists r, later_put = Ok (inl r) /\ p_writer r = put_point shelf (MkMVCCKey [97] (ts_at 5)) (value_of 77)) as (r & E & P) by (eexists; split; vm_compute; reflexivity).
  exists r. split; [exact E|].
  destruct (MVCCPut_then_get (M := view_of [97]) shelf_reader 10 30 tt false shelf [97] (ts_at 5) new_value (plain_write None) at_start r
    (M' := ref_iterator (prefix_view (p_writer r) [97])) (fun _ _ => at_start)) as (ts & _ & (v & e & b & _ & _ & Ep & _) & G).
  - done.
  - lia.
  - apply shelf_ok.
  - done.
  - done.
  - by apply plain_times.
  - by apply value_fits.
  - exact E.
  - intros (f & mt & txn & _ & _ & T & _). done.
  - cbn. lia.
  - change (w_db (p_writer r)) with (p_writer r) in Ep. rewrite P in Ep. assert (Et : ts = ts_at 5) by (destruct b; [discriminate Ep|]; injection Ep as <- _; reflexivity).
    subst ts. apply (G (ts_at 9) (existing_options (L := shelf_lib) tt)).
    + by split.
    + reflexivity.
    + reflexivity.
    + done.
    + apply small_pair. vm_compute. lia.
Defined.

Definition wanted (n : Z) : bytes := [3; n].

(** What conditional puts on a key need. *)
Lemma shelf_reads : reads_ok (L := shelf_lib) 10 30 tt false [97] shelf (ts_at 5).
Proof. split; [by split; [apply small_time|]|cbn; lia|small_pairs]. Qed.
Lemma shelf_below : Forall (fun q => q_ts q <> EmptyTimestamp) (points shelf [97]) /\ Forall (fun q => lt_ts (q_ts q) (ts_at 5)) (points shelf [97]).
Proof. split; by repeat constructor. Qed.
Abbreviation existing97 := (existing (L := shelf_lib) 10 tt false [97] shelf (ts_at 5)).
Lemma shelf_existing : existing97 = Some (MkValue (value_of 13) (ts_at 3)).
Proof. vm_compute. reflexivity. Qed.
Lemma shelf_checksummed : checksummed existing97.
Proof. rewrite shelf_existing. right. cbn. lia. Qed.

Lemma MVCCConditionalPut_checks_witness :
  (exists r, MVCCConditionalPut (L := shelf_lib) (M := view_of [97]) shelf_reader 10 30 tt false (fun _ _ _ => at_start) shelf [97] (ts_at 5) new_value
     (wanted 13) false (plain_write None) = Ok (inl r) /\ put_at [97] shelf (p_writer r) None (ts_at 5) (value_of 77)) /\
  MVCCConditionalPut (L := shelf_lib) (M := view_of [97]) shelf_reader 10 30 tt false (fun _ _ _ => at_start) shelf [97] (ts_at 5) new_value
    (wanted 14) false (plain_write None) = Ok (inr (ConditionFailedError (Some (MkValue (value_of 13) (ts_at 3))), shelf)).
Proof.
  destruct shelf_below as [B1 B2]. assert (T5 : times_ok (plain_write None) (ts_at 5)) by (by apply plain_times).
  assert (R5 : request (ts_at 5) noValue (plain_write None)) by (by apply plain_request).
  assert (C := fun exp => MVCCConditionalPut_checks (M := view_of [97]) shelf_reader 10 30 tt false shelf [97] (ts_at 5) new_value (plain_write None) (fun _ _ _ => at_start)
    exp false reader_reads ltac:(lia) shelf_ok ltac:(done) ltac:(done) T5 (value_fits (plain_write None) eq_refl) R5 B1 B2 ltac:(constructor) shelf_reads shelf_checksummed).
  pose proof shelf_existing as Ex. split.
  - destruct (C (wanted 13)) as [_ P]. change (write_times (plain_write None) (ts_at 5)).1 with (ts_at 5) in P. rewrite Ex in P. destruct P as (r & E & _ & A). exists r. split; [exact E|exact A].
  - destruct (C (wanted 14)) as [_ P]. change (write_times (plain_write None) (ts_at 5)).1 with (ts_at 5) in P. rewrite Ex in P. exact P.
Defined.

Lemma MVCCInitPut_checks_witness :
  MVCCInitPut (L := shelf_lib) (M := view_of [97]) shelf_reader 10 30 tt false (fun _ _ _ => at_start) shelf [97] (ts_at 5) new_value false (plain_write None)
  = Ok (inr (ConditionFailedError (Some (MkValue (value_of 13) (ts_at 3))), shelf)).
Proof.
  destruct shelf_below as [B1 B2]. assert (T5 : times_ok (plain_write None) (ts_at 5)) by (by apply plain_times).
  assert (R5 : request (ts_at 5) noValue (plain_write None)) by (by apply plain_request).
  assert (C := MVCCInitPut_checks (M := view_of [97]) shelf_reader 10 30 tt false shelf [97] (ts_at 5) new_value (plain_write None) (fun _ _ _ => at_start)
    false reader_reads ltac:(lia) shelf_ok ltac:(done) ltac:(done) T5 (value_fits (plain_write None) eq_refl) R5 B1 B2 ltac:(constructor) shelf_reads shelf_checksummed ltac:(cbn; lia)).
  destruct C as [_ P].
  pose proof shelf_existing as Ex. change (write_times (plain_write None) (ts_at 5)).1 with (ts_at 5) in P. rewrite Ex in P. exact P.
Defined.

(** * Statistics *)

Definition shelf_stats_at (n : Z) : res MVCCStats := ComputeStats (L := shelf_lib) (M := ref_iterator shelf) n (fun _ _ => at_start) 30 [97] [101].
Definition shelf_stats : MVCCStats := match shelf_stats_at 10000000000 with Ok ms => ms | _ => NoStats end.

Lemma shelf_from : Forall (fun q => ble [97] (q_user q)) (positions shelf).
Proof. repeat (apply List.Forall_cons; [by vm_compute|]). apply List.Forall_nil. Qed.

Lemma ComputeStats_ages_witness : shelf_stats_at 20000000000 = (fun ms => AgeTo ms 20000000000) <$> shelf_stats_at 10000000000.
Proof.
  unfold shelf_stats_at.
  refine (ComputeStats_ages (L := shelf_lib) shelf (M := ref_iterator shelf) (fun _ _ => at_start) 10000000000 20000000000 30 [97] [101] shelf_snapshot _ shelf_from _).
  - done.
  - cbn. lia.
Defined.

Lemma put_keeps_stats_witness :
  exists r ms', moved (Some shelf_stats) = Ok (inl r) /\ p_stats r = Some ms' /\
    ComputeStats (L := shelf_lib) (M := ref_iterator (p_writer r)) 30000000000 (fun _ _ => at_start) 40 [97] [101] = Ok (AgeTo ms' 30000000000).
Proof.
  assert (exists r, moved (Some shelf_stats) = Ok (inl r) /\ (length (positions (p_writer r)) < 40)%nat) as (r & E & Fu) by (eexists; split; [vm_compute; reflexivity|cbn; lia]).
  destruct (put_keeps_stats (L := shelf_lib) (WriterLaws0 := shelf_writes) shelf_reader 10 30 tt false shelf [98] (ts_at 6) new_value None (txn_write 1 7 (Some shelf_stats)) r [97] [101] 30 40
    (M := view_of [98]) at_start (ref_laws shelf) (fun _ _ => at_start) (ref_laws (p_writer r)) (fun _ _ => at_start) shelf_stats 10000000000) as (ms' & S & C).
  - apply shelf_ok.
  - apply shelf_fragmented.
  - done.
  - reflexivity.
  - done.
  - apply moved_times.
  - by apply value_fits.
  - exact E.
  - done.
  - apply shelf_from.
  - done.
  - done.
  - cbn. lia.
  - exact Fu.
  - reflexivity.
  - vm_compute. reflexivity.
  - exists r, ms'. split; [exact E|]. split; [exact S|]. apply C.
Defined.
