(* ===== verification/IntentExamples.v ===== *)
(** Intents of a concrete store.

    On the store of [WriteExamples], the intent of a transaction is committed, moved and left to
    another transaction, a put is aborted, and the statistics are compared; the hypotheses of the
    theorems about resolutions hold there. *)
From stdpp Require Import sorting.
From S2P Require Import Prelude Bytes GoLib Hlc KeyOps Spans MvccKey RangeKeys MvccValue MvccIter Scanner ScanSpec ScanNav ScanOk PebbleResults ScanRead LocalKeys StoreOps MvccRead MvccReadOk ReadExamples MvccStats StatsOk StatsKeys MvccWrite MvccResolve WriteSpec WriteOk ResolveSpec PutOk ResolveOk PutReads IntentOk ResolveStats WriteExamples.

(** Seeks that do not look at the transaction. *)
Definition seek_at (db : snapshot) (it : ref) (key id : bytes) : ref := SeekGE (MVCCIterator := ref_iterator db) it (MakeMVCCMetadataKey key).
#[local] Instance seek_at_ok db : IntentSeeks (L := shelf_lib) (ref_iterator db) db (ref_laws db) (seek_at db).
Proof. intros it key id. by left. Qed.

Abbreviation seek98 := (seek_at (prefix_view shelf [98])).

(** A request for the key [98]. *)
Definition asks (key id : bytes) (status : TransactionStatus) (n : Z) : LockUpdate :=
  MkLockUpdate (MkSpan key None) (MkTxnMeta id [] 0 (ts_at n) EmptyTimestamp 0 0) status [] (MkObserved 0 EmptyTimestamp).

Lemma asks_ok key id status n : key <> [] -> 0 < n < 100 -> update_ok (asks key id status n).
Proof.
  intros Nk H. split; [done|..].
  - split; [by apply small_time; lia|]. split; [|cbn; lia]. unfold lt_ts, Timestamp_Less. cbn. lia.
  - split; [|done]. unfold ts_wf, isS. cbn. lia.
Qed.
Lemma asks_point key id status n : point_request (asks key id status n) 0.
Proof. by split. Qed.

Definition meta98 : pos := MkPos (MkMVCCKey [98] EmptyTimestamp) (Some (number owned)).

Lemma owned_read meta : UnmarshalMeta (ScanLib := shelf_lib) (default [] (q_val meta98)) = Ok meta -> meta = owned.
Proof. assert (Eo : UnmarshalMeta (ScanLib := shelf_lib) (default [] (q_val meta98)) = Ok owned) by (vm_compute; reflexivity). rewrite Eo. by intros [= <-]. Qed.

Lemma own98 status n : own_intent_at (L := shelf_lib) false shelf (asks [98] [9] status n) meta98 (version [98] 6 (value_of 66)) [version [98] 4 (value_of 64)] owned (tx_Meta (owner 0 6)).
Proof.
  split; [reflexivity|reflexivity|vm_compute; reflexivity| |reflexivity].
  destruct (shelf_described [98] meta98 [version [98] 6 (value_of 66); version [98] 4 (value_of 64)] eq_refl eq_refl) as (meta & Um & txn & De).
  apply owned_read in Um as ->.
  pose proof (de_txn _ _ _ _ _ De) as Dt. injection Dt as <-. exact De.
Qed.

Abbreviation resolved u ms := (MVCCResolveWriteIntent (L := shelf_lib) (M := view_of [98]) false (fun _ _ _ => at_start) seek98 shelf ms u 0).

Lemma resolve_keeps_store_witness :
  exists r n, resolved (asks [98] [9] ABORTED 8) None = Ok (r, n, None) /\ store_ok (rr_writer r) /\ prefix_view (rr_writer r) [99] = prefix_view shelf [99].
Proof.
  destruct (resolve_keeps_store (M := view_of [98]) (WriterLaws0 := shelf_writes) false shelf (asks [98] [9] ABORTED 8) seek98 (fun _ _ _ => at_start) None 0) as (r & n & E & S & _ & _ & V).
  - apply shelf_ok.
  - apply shelf_fragmented.
  - apply shelf_described.
  - by apply asks_ok.
  - by apply asks_point.
  - exists r, n. split; [exact E|]. split; [exact S|]. by apply V.
Defined.

Lemma resolve_skips_witness : resolved (asks [98] [8] COMMITTED 8) None = Ok (MkResolved shelf None false, 0, None).
Proof.
  destruct (resolve_skips (M := view_of [98]) (WriterLaws0 := shelf_writes) false shelf (asks [98] [8] COMMITTED 8) seek98 (fun _ _ _ => at_start) None 0) as [_ H].
  - apply shelf_ok.
  - apply shelf_fragmented.
  - apply shelf_described.
  - by apply asks_ok.
  - done.
  - apply H; [lia|]. intros m l meta txn E T Um Mt. injection E as <- <-. apply owned_read in Um as ->. injection Mt as <-. done.
Defined.

(** The intent is committed at a higher timestamp, and then read. *)
Lemma resolve_commits_witness :
  exists r n, resolved (asks [98] [9] COMMITTED 8) None = Ok (r, n, None) /\ rr_ok r = true /\
    MVCCGet (L := shelf_lib) (M := ref_iterator (prefix_view (rr_writer r) [98])) shelf_reader 10 30 (fun _ _ => at_start) [98] (ts_at 9)
      (existing_options (L := shelf_lib) tt) = Ok (inl (MkGetResult (Some (MkValue (value_of 66) (ts_at 8))) None None RESUME_UNKNOWN 0 1 6)).
Proof.
  destruct (resolve_commits (M := view_of [98]) (WriterLaws0 := shelf_writes) false shelf (asks [98] [9] COMMITTED 8) seek98 (fun _ _ _ => at_start) None 0
    shelf_ok shelf_fragmented shelf_described (asks_ok [98] [9] COMMITTED 8 ltac:(done) ltac:(lia)) (asks_point _ _ _ _) meta98 (version [98] 6 (value_of 66))
    [version [98] 4 (value_of 64)] owned (tx_Meta (owner 0 6)) (own98 COMMITTED 8) shelf_reader 10 30 (ScanLaws0 := shelf_laws)) as (r & n & E & R & H).
  - done.
  - done.
  - done.
  - done.
  - lia.
  - cbn. lia.
  - destruct H as (v & Dv & _ & G). assert (RawBytes v = value_of 66) as Rv by (vm_compute in Dv; injection Dv as <-; reflexivity). rewrite Rv in G.
    exists r, n. split; [exact E|]. split; [exact R|].
    apply (G ref (ref_iterator (prefix_view (rr_writer r) [98])) (ref_laws _) (fun _ _ => at_start) (ts_at 9) (existing_options (L := shelf_lib) tt)).
    + by split.
    + reflexivity.
    + done.
    + apply small_pair. vm_compute. lia.
Defined.

(** The intent is moved. *)
Lemma resolve_pushes_witness :
  exists r n, resolved (asks [98] [9] PENDING 8) None = Ok (r, n, None) /\ rr_ok r = true /\
    stays false shelf (asks [98] [9] PENDING 8) (tx_Meta (owner 0 6)) (rr_writer r) (value_of 66) (ts_at 8) 0 [].
Proof.
  destruct (resolve_pushes (M := view_of [98]) (WriterLaws0 := shelf_writes) false shelf (asks [98] [9] PENDING 8) seek98 (fun _ _ _ => at_start) None 0
    shelf_ok shelf_fragmented shelf_described (asks_ok [98] [9] PENDING 8 ltac:(done) ltac:(lia)) (asks_point _ _ _ _) meta98 (version [98] 6 (value_of 66))
    [version [98] 4 (value_of 64)] owned (tx_Meta (owner 0 6)) (own98 PENDING 8)) as (r & n & E & H).
  - done.
  - done.
  - destruct H as (R & S). exists r, n. split; [exact E|]. split; [exact R|exact S].
Defined.

(** A put of the transaction, and its abort. *)
Definition fresh_put := mvccPutInternal (L := shelf_lib) (M := view_of [97]) shelf_reader 10 30 tt false shelf (Some at_start) [97] (ts_at 6) new_value None (txn_write 1 7 None).

Lemma put_then_abort_witness :
  exists p r n, fresh_put = Ok (inl p) /\
    MVCCResolveWriteIntent (L := shelf_lib) (M := ref_iterator (prefix_view (p_writer p) [97])) false (fun _ _ _ => at_start) (seek_at (prefix_view (p_writer p) [97]))
      (p_writer p) None (asks [97] [9] ABORTED 7) 0 = Ok (r, n, None) /\ prefix_view (rr_writer r) [97] = prefix_view shelf [97].
Proof.
  assert (exists p, fresh_put = Ok (inl p)) as [p E] by (eexists; vm_compute; reflexivity). exists p.
  destruct (put_then_abort (M := view_of [97]) (WriterLaws0 := shelf_writes) false shelf_reader 10 30 tt shelf [97] (ts_at 6) new_value None (txn_write 1 7 None) (owner 1 7) at_start p (asks [97] [9] ABORTED 7)
    (M' := ref_iterator (prefix_view (p_writer p) [97])) (IL := ref_laws _) (seek_at (prefix_view (p_writer p) [97])) (fun _ _ _ => at_start) None 0) as (r & n & R & _ & V).
  - apply shelf_ok.
  - apply shelf_fragmented.
  - apply shelf_described.
  - done.
  - done.
  - apply moved_times.
  - by apply value_fits.
  - done.
  - apply shelf_below.
  - exact E.
  - done.
  - done.
  - done.
  - by apply asks_ok.
  - by apply asks_point.
  - exists r, n. split; [exact E|]. split; [exact R|]. apply V.
Defined.

Lemma resolve_keeps_stats_witness :
  exists r n ms', resolved (asks [98] [9] COMMITTED 8) (Some shelf_stats) = Ok (r, n, None) /\ rr_stats r = Some ms' /\
    ComputeStats (L := shelf_lib) (M := ref_iterator (rr_writer r)) 30000000000 (fun _ _ => at_start) (S (length (positions (rr_writer r)))) [97] [101] = Ok (AgeTo ms' 30000000000).
Proof.
  destruct (resolve_keeps_stats (L := shelf_lib) (WriterLaws0 := shelf_writes) false shelf (asks [98] [9] COMMITTED 8) [97] [101] 30 (M := view_of [98]) (IL := ref_laws _) seek98
    (fun _ _ _ => at_start) 0 (ref_laws shelf) (fun _ _ => at_start) shelf_stats 10000000000) as (r & n & ms' & E & S & C).
  - apply shelf_ok.
  - apply shelf_fragmented.
  - apply shelf_described.
  - by apply asks_ok.
  - by apply asks_point.
  - reflexivity.
  - done.
  - apply shelf_from.
  - done.
  - cbn. lia.
  - vm_compute. reflexivity.
  - exists r, n, ms'. split; [exact E|]. split; [exact S|].
    apply (C ref (ref_iterator (rr_writer r)) (ref_laws _) (fun _ _ => at_start)); [done|]. apply Nat.lt_succ_diag_r.
Defined.
