(* ===== verification/Tracker.v ===== *)
(** The tracker of evaluating requests (src/pkg/kv/kvserver/closedts/tracker/tracker.go and
    lockfree_tracker.go).

    [Tracker] is the interface as a transition system with its contract: a conservative lower
    bound of the tracked timestamps.  The lock-free implementation is modelled at the grain
    of its atomic operations: any number of [Track] calls interleave, and [Untrack] runs
    alone, as its callers' lock ensures.  The file shows that every interleaving keeps the
    documented invariants of the two buckets, hence the contract, that [Track] calls finish
    under every schedule, and that the lower bound advances once the tracked set has turned
    over twice.  Requests that call [Track] are assumed to have a positive wall time, since 0
    marks an empty bucket, and to be fewer than the largest int32 at a time, so that the
    reference counts do not overflow; these are guards of the step that starts a call, not
    checks of the code. *)
From S2P Require Import Prelude Hlc.

(** * The interface *)

(** [Track] of a request starts and later finishes, in internal steps; requests are named. *)
Inductive event :=
| ETrack (id : nat) (ts : Timestamp)
| ETau
| EUntrack (id : nat).

(** [t_pending] are the requests inside [Track], [t_tracked] the tracked set. *)
Class Tracker (St : Type) := {
  t_init : St;
  t_step : St -> event -> St -> Prop;
  t_pending : St -> list (nat * Timestamp);
  t_tracked : St -> list (nat * Timestamp);
  t_LowerBound : St -> Timestamp;
  t_Count : St -> Z
}.

Inductive t_steps {St} `{Tracker St} : St -> list event -> St -> Prop :=
| steps_nil s : t_steps s [] s
| steps_cons s e s1 es s2 : t_step s e s1 -> t_steps s1 es s2 -> t_steps s (e :: es) s2.

(** What the implementations promise in every reachable state. *)
Class TrackerLaws (St : Type) `{Tracker St} := {
  t_law_init : t_pending t_init = [] /\ t_tracked t_init = [];
  t_law_track s es id ts s' :
    t_steps t_init es s -> t_step s (ETrack id ts) s' ->
    t_pending s' = t_pending s ++ [(id, ts)] /\ t_tracked s' = t_tracked s /\
    ts_wf ts /\ id ∉ (t_pending s ++ t_tracked s).*1;
  t_law_tau s es s' :
    t_steps t_init es s -> t_step s ETau s' ->
    t_pending s' ++ t_tracked s' ≡ₚ t_pending s ++ t_tracked s /\ t_tracked s ⊆ t_tracked s';
  t_law_untrack s es id s' :
    t_steps t_init es s -> t_step s (EUntrack id) s' ->
    t_pending s = [] /\ t_pending s' = [] /\ exists ts, t_tracked s ≡ₚ (id, ts) :: t_tracked s';
  t_law_bound s es :
    t_steps t_init es s -> t_pending s = [] ->
    (t_tracked s = [] -> t_LowerBound s = EmptyTimestamp) /\
    (t_tracked s <> [] -> ts_wf (t_LowerBound s) /\ lt_ts EmptyTimestamp (t_LowerBound s)) /\
    forall id ts, (id, ts) ∈ t_tracked s -> Timestamp_LessEq (t_LowerBound s) ts = true;
  t_law_count s es :
    t_steps t_init es s -> t_pending s = [] -> t_Count s = Z.of_nat (length (t_tracked s))
}.

(** * Buckets *)

Record bucket := Mkbucket { b_ts : Z; refcnt : Z; synthetic : Z }.

(** [b1] and [b2] point into the array of two buckets. *)
Record lockfreeTracker := MkTracker { bucket0 : bucket; bucket1 : bucket; b1 : bool; b2 : bool }.

Definition bk (t : lockfreeTracker) (b : bool) : bucket := if b then bucket1 t else bucket0 t.
Definition set_bk (t : lockfreeTracker) (b : bool) (v : bucket) : lockfreeTracker :=
  if b then MkTracker (bucket0 t) v (b1 t) (b2 t) else MkTracker v (bucket1 t) (b1 t) (b2 t).

Definition NewLockfreeTracker : lockfreeTracker :=
  MkTracker (Mkbucket 0 0 0) (Mkbucket 0 0 0) false true.

Definition bucket_timestamp (b : bucket) : Z * bool := (b_ts b, negb (b_ts b =? 0)).
Definition bucket_isSynthetic (b : bucket) : bool := negb (synthetic b =? 0).

(** The points between the atomic operations of [extendAndJoin]: before the load, the swap, the
    store and the addition. *)
Inductive join_pc :=
| AtLoad
| AtCAS (t : Z)
| AtSynthetic (t : Z)
| AtAdd.

(** One atomic operation of [extendAndJoin] on bucket [b]; [None] once it has returned. *)
Definition extendAndJoin (tr : lockfreeTracker) (b : bool) (ts : Z) (synth : bool) (j : join_pc)
    : lockfreeTracker * option join_pc :=
  let v := bk tr b in
  match j with
  | AtLoad =>
      let t := b_ts v in
      if negb (t =? 0) && (t <=? ts) then (tr, Some (AtSynthetic t)) else (tr, Some (AtCAS t))
  | AtCAS t =>
      if b_ts v =? t
      then (set_bk tr b (Mkbucket ts (refcnt v) (synthetic v)), Some (AtSynthetic t))
      else (tr, Some AtLoad)
  | AtSynthetic t =>
      if (t =? 0) && synth then (set_bk tr b (Mkbucket (b_ts v) (refcnt v) 1), Some AtAdd)
      else (tr, Some AtAdd)
  | AtAdd => (set_bk tr b (Mkbucket (b_ts v) (s32 (refcnt v + 1)) (synthetic v)), None)
  end.

(** [Track] loads [b1]'s timestamp, picks a bucket and joins it. *)
Inductive pc :=
| AtTimestamp
| InBucket (b : bool) (j : join_pc).

(** One atomic operation of [Track]; at the end the token, which is the bucket. *)
Definition Track (tr : lockfreeTracker) (ts : Timestamp) (p : pc) : lockfreeTracker * (pc + bool) :=
  let wts := WallTime ts in
  match p with
  | AtTimestamp =>
      let '(t1, initialized) := bucket_timestamp (bk tr (b1 tr)) in
      if negb initialized || (wts <=? t1) then (tr, inl (InBucket (b1 tr) AtLoad))
      else (tr, inl (InBucket (b2 tr) AtLoad))
  | InBucket b j =>
      match extendAndJoin tr b wts (Synthetic ts) j with
      | (tr, Some j) => (tr, inl (InBucket b j))
      | (tr, None) => (tr, inr b)
      end
  end.

Definition Untrack (tr : lockfreeTracker) (tok : bool) : res lockfreeTracker :=
  let v := bk tr tok in
  let cnt := s32 (refcnt v - 1) in
  if cnt <? 0 then Panic "negative bucket refcount"
  else if cnt =? 0 then
    let tr := set_bk tr tok (Mkbucket 0 cnt 0) in
    if Bool.eqb tok (b1 tr) then Ok (MkTracker (bucket0 tr) (bucket1 tr) (b2 tr) tok) else Ok tr
  else Ok (set_bk tr tok (Mkbucket (b_ts v) cnt (synthetic v))).

Definition LowerBound (tr : lockfreeTracker) : Timestamp :=
  let '(ts, initialized) := bucket_timestamp (bk tr (b1 tr)) in
  if negb initialized then EmptyTimestamp
  else MkTimestamp ts 0 (bucket_isSynthetic (bk tr (b1 tr))).

Definition Count (tr : lockfreeTracker) : Z := refcnt (bk tr (b1 tr)) + refcnt (bk tr (b2 tr)).

(** * Executions *)

Record call := MkCall { c_id : nat; c_ts : Timestamp; c_pc : pc }.
Record token := MkToken { k_id : nat; k_ts : Timestamp; k_b : bool }.

(** The tracker, the calls inside [Track], and the tokens that are out. *)
Record state := MkState { st_tr : lockfreeTracker; st_calls : list call; st_tokens : list token }.

Definition init_state : state := MkState NewLockfreeTracker [] [].

Definition ids (s : state) : list nat := (c_id <$> st_calls s) ++ (k_id <$> st_tokens s).

(** Timestamps that can be tracked: 0 is the mark of an empty bucket. *)
Definition ts_trackable (ts : Timestamp) : Prop := ts_wf ts /\ 0 < WallTime ts /\ 0 <= Logical ts.

(** The guards of [step_track] are assumptions on the callers: the code does not check
    them. *)
Inductive step : state -> event -> state -> Prop :=
| step_track s id ts :
    ts_trackable ts -> id ∉ ids s -> Z.of_nat (length (ids s)) < MaxInt32 ->
    step s (ETrack id ts) (MkState (st_tr s) (st_calls s ++ [MkCall id ts AtTimestamp]) (st_tokens s))
| step_call s l1 c l2 tr p :
    st_calls s = l1 ++ c :: l2 -> Track (st_tr s) (c_ts c) (c_pc c) = (tr, inl p) ->
    step s ETau (MkState tr (l1 ++ MkCall (c_id c) (c_ts c) p :: l2) (st_tokens s))
| step_return s l1 c l2 tr b :
    st_calls s = l1 ++ c :: l2 -> Track (st_tr s) (c_ts c) (c_pc c) = (tr, inr b) ->
    step s ETau (MkState tr (l1 ++ l2) (st_tokens s ++ [MkToken (c_id c) (c_ts c) b]))
| step_untrack s l1 k l2 tr :
    st_calls s = [] -> st_tokens s = l1 ++ k :: l2 -> Untrack (st_tr s) (k_b k) = Ok tr ->
    step s (EUntrack (k_id k)) (MkState tr [] (l1 ++ l2)).

#[export] Instance lockfree_Tracker : Tracker state := {
  t_init := init_state;
  t_step := step;
  t_pending s := (fun c => (c_id c, c_ts c)) <$> st_calls s;
  t_tracked s := (fun k => (k_id k, k_ts k)) <$> st_tokens s;
  t_LowerBound s := LowerBound (st_tr s);
  t_Count s := Count (st_tr s)
}.

(** * The invariant *)

Definition tsb (tr : lockfreeTracker) (b : bool) : Z := b_ts (bk tr b).
Definition wall (c : call) : Z := WallTime (c_ts c).

Definition joined (b : bool) (c : call) : Prop :=
  match c_pc c with InBucket b' (AtSynthetic _ | AtAdd) => b = b' | _ => False end.

(** What a call inside [Track] relies on. *)
Definition call_ok (tr : lockfreeTracker) (c : call) : Prop :=
  ts_trackable (c_ts c) /\
  match c_pc c with
  | AtTimestamp => True
  | InBucket b j =>
      (b = b2 tr -> 0 < tsb tr (b1 tr) < wall c) /\
      match j with
      | AtLoad => True
      | AtCAS t => (t = 0 \/ wall c < t) /\ (t <> 0 -> 0 < tsb tr b <= t)
      | AtSynthetic _ | AtAdd => 0 < tsb tr b <= wall c
      end
  end.

Definition token_ok (tr : lockfreeTracker) (k : token) : Prop :=
  ts_trackable (k_ts k) /\ 0 < tsb tr (k_b k) <= WallTime (k_ts k).

Definition tokens_in (b : bool) (l : list token) : list token := filter (fun k => k_b k = b) l.

(** The two buckets: distinct, with timestamps that are not negative, in order, the second
    only beside the first. *)
Definition buckets_ok (tr : lockfreeTracker) : Prop :=
  b2 tr = negb (b1 tr) /\ (forall b, 0 <= tsb tr b) /\
  (0 < tsb tr (b2 tr) -> 0 < tsb tr (b1 tr) < tsb tr (b2 tr)).

Record Inv (s : state) : Prop := {
  inv_buckets : buckets_ok (st_tr s);
  inv_cnt b : refcnt (bk (st_tr s) b) = Z.of_nat (length (tokens_in b (st_tokens s)));
  inv_live b : 0 < tsb (st_tr s) b ->
    Exists (fun k => k_b k = b) (st_tokens s) \/ Exists (joined b) (st_calls s);
  inv_calls : Forall (call_ok (st_tr s)) (st_calls s);
  inv_tokens : Forall (token_ok (st_tr s)) (st_tokens s);
  inv_size : Z.of_nat (length (ids s)) <= MaxInt32;
  inv_nodup : NoDup (ids s)
}.

Lemma bk_set tr b v b' : bk (set_bk tr b v) b' = if Bool.eqb b b' then v else bk tr b'.
Proof. by destruct b, b'. Qed.

Lemma set_ptr tr b v : b1 (set_bk tr b v) = b1 tr /\ b2 (set_bk tr b v) = b2 tr.
Proof. by destruct b. Qed.

(** What calls do to the buckets others rely on: a timestamp only appears or gets lower. *)
Definition lowers (tr tr' : lockfreeTracker) : Prop :=
  b1 tr' = b1 tr /\ b2 tr' = b2 tr /\
  forall b, tsb tr' b = tsb tr b \/ 0 < tsb tr' b /\ (tsb tr b = 0 \/ tsb tr' b < tsb tr b).

Lemma call_ok_lowers tr tr' c : lowers tr tr' -> call_ok tr c -> call_ok tr' c.
Proof.
  intros (E1 & E2 & L) [Ht H]. split; [done|]. destruct (c_pc c) as [|b j]; [done|].
  rewrite E1, E2. destruct H as [H Hj]. split.
  - intros Hb. specialize (H Hb). destruct (L (b1 tr)); lia.
  - destruct j as [|t|t|]; [done|split; [tauto|]|..]; destruct (L b); lia.
Qed.

Lemma token_ok_lowers tr tr' k : lowers tr tr' -> token_ok tr k -> token_ok tr' k.
Proof. intros (_ & _ & L) [Ht H]. split; [done|]. destruct (L (k_b k)); lia. Qed.

(** What one operation of a call does: a move to another point, or the return of the token. *)
Definition op_spec (tr : lockfreeTracker) (c : call) (tr' : lockfreeTracker) (r : pc + bool) : Prop :=
  lowers tr tr' /\ buckets_ok tr' /\
  match r with
  | inl p =>
      let c' := MkCall (c_id c) (c_ts c) p in
      call_ok tr' c' /\ (forall b, refcnt (bk tr' b) = refcnt (bk tr b)) /\
      (forall b, 0 < tsb tr' b -> 0 < tsb tr b \/ joined b c') /\
      (forall b, joined b c -> joined b c')
  | inr b =>
      joined b c /\ (forall b', tsb tr' b' = tsb tr b') /\ 0 < tsb tr' b <= wall c /\
      forall b', refcnt (bk tr' b') = if Bool.eqb b b' then s32 (refcnt (bk tr b) + 1) else refcnt (bk tr b')
  end.

Lemma lowers_same tr tr' :
  b1 tr' = b1 tr -> b2 tr' = b2 tr -> (forall b, tsb tr' b = tsb tr b) -> lowers tr tr'.
Proof. unfold lowers. auto. Qed.

Lemma buckets_ok_same tr tr' :
  b1 tr' = b1 tr -> b2 tr' = b2 tr -> (forall b, tsb tr' b = tsb tr b) -> buckets_ok tr -> buckets_ok tr'.
Proof. unfold buckets_ok. intros -> -> E (? & ? & ?). rewrite !E. split_and!; [done| |done]. intros b. by rewrite E. Qed.

(** An operation that leaves the timestamps alone and does not leave the bucket. *)
Lemma op_quiet tr c tr' p :
  buckets_ok tr -> b1 tr' = b1 tr -> b2 tr' = b2 tr -> (forall b, tsb tr' b = tsb tr b) ->
  (forall b, refcnt (bk tr' b) = refcnt (bk tr b)) ->
  call_ok tr (MkCall (c_id c) (c_ts c) p) ->
  (forall b, joined b c -> joined b (MkCall (c_id c) (c_ts c) p)) -> op_spec tr c tr' (inl p).
Proof.
  intros B E1 E2 E R C J. pose proof (lowers_same _ _ E1 E2 E). unfold op_spec; cbv zeta. split_and!; [done|by apply (buckets_ok_same tr)|..].
  - by apply (call_ok_lowers tr).
  - done.
  - intros b Hb. left. by rewrite <- E.
  - done.
Qed.

Lemma op_timestamp tr c tr' r :
  buckets_ok tr -> call_ok tr c -> c_pc c = AtTimestamp ->
  Track tr (c_ts c) AtTimestamp = (tr', r) -> op_spec tr c tr' r.
Proof.
  intros B [Ht _] Epc E. pose proof B as (P & Pos & _). cbn in E.
  assert (tr' = tr) as -> by (destruct (_ || _); by injection E).
  destruct (Z.eqb_spec (b_ts (bk tr (b1 tr))) 0) as [Z0|Z0]; cbn [negb orb] in E;
    [|destruct (Z.leb_spec (WallTime (c_ts c)) (b_ts (bk tr (b1 tr))))]; injection E as <-;
    (apply op_quiet; [done..| |by unfold joined; rewrite Epc]); (split; [done|]); cbn; (split; [|done]).
  - intros Eb. rewrite P in Eb. by destruct (b1 tr).
  - intros Eb. rewrite P in Eb. by destruct (b1 tr).
  - intros _. specialize (Pos (b1 tr)). unfold tsb, wall in *. cbn. lia.
Qed.

Lemma op_load tr c b tr' r :
  buckets_ok tr -> call_ok tr c -> c_pc c = InBucket b AtLoad ->
  Track tr (c_ts c) (InBucket b AtLoad) = (tr', r) -> op_spec tr c tr' r.
Proof.
  intros B [Ht H] Epc E. rewrite Epc in H. destruct H as [H _]. pose proof B as (_ & Pos & _). specialize (Pos b).
  cbn in E. unfold tsb in Pos.
  destruct (Z.eqb_spec (b_ts (bk tr b)) 0), (Z.leb_spec (b_ts (bk tr b)) (WallTime (c_ts c)));
    cbn [negb andb] in E; injection E as <- <-;
    (apply op_quiet; [done..| |by unfold joined; rewrite Epc]); (split; [done|]); cbn; (split; [done|]);
    unfold tsb, wall; cbn; intuition lia.
Qed.

Lemma op_synthetic tr c b t tr' r :
  buckets_ok tr -> call_ok tr c -> c_pc c = InBucket b (AtSynthetic t) ->
  Track tr (c_ts c) (InBucket b (AtSynthetic t)) = (tr', r) -> op_spec tr c tr' r.
Proof.
  intros B [Ht H] Epc E. rewrite Epc in H. cbn in E.
  assert (r = inl (InBucket b AtAdd)) as -> by (destruct (_ && _); by injection E).
  assert (b1 tr' = b1 tr /\ b2 tr' = b2 tr /\ (forall b', tsb tr' b' = tsb tr b') /\
    forall b', refcnt (bk tr' b') = refcnt (bk tr b')) as (E1 & E2 & E3 & E4).
  { destruct (_ && _); injection E as <-; [|done]. unfold tsb.
    split_and!; [apply set_ptr|apply set_ptr|..]; intros b'; rewrite bk_set; by destruct (Bool.eqb_spec b b') as [->|]. }
  apply op_quiet; [done..| |by unfold joined; rewrite Epc]. split; [done|]. by cbn.
Qed.

Lemma op_add tr c b tr' r :
  buckets_ok tr -> call_ok tr c -> c_pc c = InBucket b AtAdd ->
  Track tr (c_ts c) (InBucket b AtAdd) = (tr', r) -> op_spec tr c tr' r.
Proof.
  intros B [Ht H] Epc E. rewrite Epc in H. destruct H as [_ [H1 H2]]. cbn in E. injection E as <- <-.
  assert (forall b', tsb (set_bk tr b (Mkbucket (b_ts (bk tr b)) (s32 (refcnt (bk tr b) + 1)) (synthetic (bk tr b)))) b' = tsb tr b') as E.
  { intros b'. unfold tsb. rewrite bk_set. by destruct (Bool.eqb_spec b b') as [->|]. }
  unfold op_spec; cbv zeta.
  split; [apply lowers_same; [apply set_ptr|apply set_ptr|done]|].
  split; [apply (buckets_ok_same tr); [apply set_ptr|apply set_ptr|done|done]|].
  split_and!; [unfold joined; by rewrite Epc|done|by rewrite E|by rewrite E|].
  intros b'. rewrite bk_set. by destruct (Bool.eqb b b').
Qed.

Lemma op_cas tr c b t tr' r :
  buckets_ok tr -> call_ok tr c -> c_pc c = InBucket b (AtCAS t) ->
  Track tr (c_ts c) (InBucket b (AtCAS t)) = (tr', r) -> op_spec tr c tr' r.
Proof.
  intros B [(Hw & Ht & Hl) H] Epc E. rewrite Epc in H. cbn in E. destruct H as (H1 & H2 & H3).
  destruct (Z.eqb_spec (b_ts (bk tr b)) t) as [<-|N]; injection E as <- <-.
  2:{ apply op_quiet; [done..| |by unfold joined; rewrite Epc]. split; [done|]. by cbn. }
  pose proof B as (P & Pos & Ord).
  set (tr' := set_bk tr b _). assert (b1 tr' = b1 tr /\ b2 tr' = b2 tr) as [E1 E2] by apply set_ptr.
  assert (forall b', tsb tr' b' = if Bool.eqb b b' then wall c else tsb tr b') as E3.
  { intros b'. unfold tsb, tr'. rewrite bk_set. by destruct (Bool.eqb b b'). }
  assert (lowers tr tr') as L.
  { split_and!; [done..|]. intros b'. rewrite E3. destruct (Bool.eqb_spec b b') as [<-|]; [|by left].
    right. unfold tsb, wall in *. lia. }
  unfold op_spec; cbv zeta. split; [done|]. split_and!.
  - unfold buckets_ok. rewrite E1, E2. split_and!; [done| |].
    + intros b'. rewrite E3. specialize (Pos b'). unfold wall. destruct (Bool.eqb b b'); lia.
    + rewrite !E3, P in *. unfold tsb, wall in *.
      destruct b, (b1 tr); cbn [Bool.eqb negb] in *; unfold bk in *; intuition lia.
  - split; [done|]. cbn. rewrite E1, E2, !E3, Bool.eqb_reflx. unfold wall in *. cbn [c_ts]. split; [|lia].
    intros Eb. specialize (H1 Eb). destruct (Bool.eqb_spec b (b1 tr)) as [->|]; [|done].
    rewrite P in Eb. by destruct (b1 tr).
  - intros b'. unfold tr'. rewrite bk_set. by destruct (Bool.eqb_spec b b') as [->|].
  - intros b'. rewrite E3. destruct (Bool.eqb_spec b b') as [->|]; [by right|by left].
  - intros b'. unfold joined. by rewrite Epc.
Qed.

Lemma track_op tr c tr' r :
  buckets_ok tr -> call_ok tr c -> Track tr (c_ts c) (c_pc c) = (tr', r) -> op_spec tr c tr' r.
Proof.
  intros B C E. destruct (c_pc c) as [|b [|t|t|]] eqn:Epc.
  - by apply op_timestamp.
  - by apply (op_load _ _ b).
  - by apply (op_cas _ _ b t).
  - by apply (op_synthetic _ _ b t).
  - by apply (op_add _ _ b).
Qed.

(** ** Steps keep the invariant *)

Lemma tokens_in_remove b l1 k l2 :
  length (tokens_in b (l1 ++ k :: l2)) =
  (length (tokens_in b (l1 ++ l2)) + if Bool.eqb (k_b k) b then 1 else 0)%nat.
Proof.
  unfold tokens_in. rewrite !filter_app, !length_app, filter_cons.
  destruct (Bool.eqb_spec (k_b k) b) as [E|E]; [rewrite decide_True by done|rewrite decide_False by done];
    cbn [length]; lia.
Qed.

Lemma ids_length s : length (ids s) = (length (st_calls s) + length (st_tokens s))%nat.
Proof. unfold ids. by rewrite length_app, !length_fmap. Qed.

Lemma tokens_in_bound s b : Inv s -> 0 <= refcnt (bk (st_tr s) b) <= MaxInt32.
Proof.
  intros I. rewrite (inv_cnt s I). pose proof (inv_size s I) as Hs. rewrite ids_length in Hs.
  pose proof (length_filter (fun k => k_b k = b) (st_tokens s)). unfold tokens_in. lia.
Qed.

Lemma ids_call s l1 c l2 tr p :
  st_calls s = l1 ++ c :: l2 -> ids (MkState tr (l1 ++ MkCall (c_id c) (c_ts c) p :: l2) (st_tokens s)) = ids s.
Proof. intros E. unfold ids. cbn. rewrite E, !fmap_app. done. Qed.

Lemma ids_return s l1 c l2 tr b :
  st_calls s = l1 ++ c :: l2 ->
  ids (MkState tr (l1 ++ l2) (st_tokens s ++ [MkToken (c_id c) (c_ts c) b])) ≡ₚ ids s.
Proof. intros E. unfold ids. cbn. rewrite E, !fmap_app. cbn. solve_Permutation. Qed.

Lemma inv_step_track s id ts :
  Inv s -> ts_trackable ts -> id ∉ ids s -> Z.of_nat (length (ids s)) < MaxInt32 ->
  Inv (MkState (st_tr s) (st_calls s ++ [MkCall id ts AtTimestamp]) (st_tokens s)).
Proof.
  intros I Ht Hid Hsz.
  assert (ids (MkState (st_tr s) (st_calls s ++ [MkCall id ts AtTimestamp]) (st_tokens s)) ≡ₚ id :: ids s) as Ei.
  { unfold ids. cbn. rewrite fmap_app. cbn. solve_Permutation. }
  destruct I. split; cbn [st_tr st_calls st_tokens]; auto.
  - intros b Hb. destruct (inv_live0 b Hb); [by left|right]. apply Exists_app. by left.
  - apply Forall_app. split; [done|]. constructor; [by split|constructor].
  - rewrite Ei. cbn [length]. lia.
  - rewrite Ei. by constructor.
Qed.

Lemma inv_step_call s l1 c l2 tr p :
  Inv s -> st_calls s = l1 ++ c :: l2 -> Track (st_tr s) (c_ts c) (c_pc c) = (tr, inl p) ->
  Inv (MkState tr (l1 ++ MkCall (c_id c) (c_ts c) p :: l2) (st_tokens s)).
Proof.
  intros I Ec E. pose proof (inv_calls s I) as Hc. rewrite Ec in Hc.
  apply Forall_app in Hc as [Hc1 [Hc Hc2]%Forall_cons].
  apply track_op in E as (L & B & C & R & Lv & J); [|apply I|done].
  split; cbn [st_tr st_calls st_tokens].
  - done.
  - intros b. rewrite R. apply I.
  - intros b Hb. destruct (Lv b Hb) as [Hb'|Hj].
    + destruct (inv_live s I b Hb') as [?|Hx]; [by left|right]. rewrite Ec in Hx.
      apply Exists_app in Hx as [Hx|Hx]; apply Exists_app; [by left|right].
      apply Exists_cons in Hx as [Hx|Hx]; [apply Exists_cons_hd; by apply J|by apply Exists_cons_tl].
    + right. apply Exists_app. right. by apply Exists_cons_hd.
  - apply Forall_app. split; [|constructor; [done|]]; eapply Forall_impl; [done| |done|];
      intros; by eapply call_ok_lowers.
  - eapply Forall_impl; [apply I|]. intros; by eapply token_ok_lowers.
  - rewrite (ids_call s l1 c l2) by done. apply I.
  - rewrite (ids_call s l1 c l2) by done. apply I.
Qed.

Lemma inv_step_return s l1 c l2 tr b :
  Inv s -> st_calls s = l1 ++ c :: l2 -> Track (st_tr s) (c_ts c) (c_pc c) = (tr, inr b) ->
  Inv (MkState tr (l1 ++ l2) (st_tokens s ++ [MkToken (c_id c) (c_ts c) b])).
Proof.
  intros I Ec E. pose proof (inv_calls s I) as Hc. rewrite Ec in Hc.
  apply Forall_app in Hc as [Hc1 [Hc Hc2]%Forall_cons].
  apply track_op in E as (L & B & J & T & W & R); [|apply I|done].
  split; cbn [st_tr st_calls st_tokens].
  - done.
  - intros b'. pose proof (tokens_in_bound s b I). pose proof (inv_cnt s I b') as N.
    pose proof (inv_size s I) as Hs. rewrite ids_length, Ec, length_app in Hs. cbn [length] in Hs.
    pose proof (length_filter (fun k => k_b k = b') (st_tokens s)) as Lf.
    rewrite R. unfold tokens_in in *. rewrite filter_app, length_app, filter_cons. cbn [k_b].
    destruct (Bool.eqb_spec b b') as [->|Hn]; [rewrite decide_True by done|rewrite decide_False by done];
      cbn [length filter list_filter].
    + rewrite wrapS_id by (unfold isS; lia). lia.
    + lia.
  - intros b' Hb. rewrite T in Hb. destruct (inv_live s I b' Hb) as [?|Hx].
    { left. apply Exists_app. by left. }
    rewrite Ec in Hx. apply Exists_app in Hx as [Hx|[Hx|Hx]%Exists_cons].
    + right. apply Exists_app. by left.
    + left. apply Exists_app. right. apply Exists_cons_hd. cbn [k_b]. unfold joined in *.
      destruct (c_pc c) as [|? []]; naive_solver.
    + right. apply Exists_app. by right.
  - apply Forall_app. split; eapply Forall_impl; [done| |done|]; intros; by eapply call_ok_lowers.
  - apply Forall_app. split; [eapply Forall_impl; [apply I|]; intros; by eapply token_ok_lowers|].
    constructor; [|constructor]. split; [apply Hc|]. exact W.
  - rewrite (ids_return s l1 c l2) by done. apply I.
  - rewrite (ids_return s l1 c l2) by done. apply I.
Qed.

(** Removing a token from its bucket: a bucket that is left empty is reset. *)
Lemma untrack_op tr b m :
  b2 tr = negb (b1 tr) -> refcnt (bk tr b) = m + 1 -> 0 <= m < MaxInt32 ->
  exists tr', Untrack tr b = Ok tr' /\ b2 tr' = negb (b1 tr') /\
    b1 tr' = (if (m =? 0) && Bool.eqb b (b1 tr) then b2 tr else b1 tr) /\
    (forall b', tsb tr' b' = if (m =? 0) && Bool.eqb b b' then 0 else tsb tr b') /\
    (forall b', refcnt (bk tr' b') = if Bool.eqb b b' then m else refcnt (bk tr b')).
Proof.
  intros P R Hm. unfold Untrack. rewrite R, Z.add_simpl_r, wrapS_id by (unfold isS; lia).
  destruct (Z.ltb_spec m 0); [lia|].
  assert (forall v b', refcnt v = m -> refcnt (bk (set_bk tr b v) b') = if Bool.eqb b b' then m else refcnt (bk tr b')) as Rv.
  { intros v b' <-. rewrite bk_set. by destruct (Bool.eqb b b'). }
  destruct (Z.eqb_spec m 0) as [->|Hn]; cbn [andb].
  - set (v := Mkbucket 0 0 0). assert (b1 (set_bk tr b v) = b1 tr /\ b2 (set_bk tr b v) = b2 tr) as [E1 E2] by apply set_ptr.
    assert (forall b', tsb (set_bk tr b v) b' = if Bool.eqb b b' then 0 else tsb tr b') as T.
    { intros b'. unfold tsb. rewrite bk_set. by destruct (Bool.eqb b b'). }
    rewrite E1. destruct (Bool.eqb_spec b (b1 tr)) as [->|]; eexists; (split; [reflexivity|]).
    + split_and!; [cbn; rewrite E2, P; by destruct (b1 tr)|done|exact T|intros b'; exact (Rv v b' eq_refl)].
    + split_and!; [by rewrite E1, E2|done|exact T|intros b'; exact (Rv v b' eq_refl)].
  - eexists. split; [reflexivity|].
    destruct (set_ptr tr b (Mkbucket (b_ts (bk tr b)) m (synthetic (bk tr b)))) as [E1 E2].
    split_and!; [by rewrite E1, E2|done| |intros b'; by apply Rv].
    intros b'. unfold tsb. rewrite bk_set. by destruct (Bool.eqb_spec b b') as [->|].
Qed.

Lemma inv_step_untrack s l1 k l2 tr :
  Inv s -> st_calls s = [] -> st_tokens s = l1 ++ k :: l2 -> Untrack (st_tr s) (k_b k) = Ok tr ->
  Inv (MkState tr [] (l1 ++ l2)).
Proof.
  intros I Ec Et E. pose proof (inv_tokens s I) as Ht. rewrite Et in Ht.
  apply Forall_app in Ht as [Ht1 [Hk Ht2]%Forall_cons].
  assert (Forall (token_ok (st_tr s)) (l1 ++ l2)) as Ht by (by apply Forall_app).
  pose proof (inv_cnt s I (k_b k)) as N. rewrite Et, tokens_in_remove, Bool.eqb_reflx, Nat2Z.inj_add in N.
  pose proof (tokens_in_bound s (k_b k) I) as Bd. rewrite N in Bd.
  destruct (inv_buckets s I) as (P & Pos & Ord).
  set (m := Z.of_nat (length (tokens_in (k_b k) (l1 ++ l2)))) in *.
  assert (0 <= m < MaxInt32) as Hm by (unfold m in *; lia).
  destruct (untrack_op (st_tr s) (k_b k) m P N Hm) as (tr' & E' & P' & B1 & T & R). clear Hm.
  rewrite E in E'. injection E' as <-.
  assert (m = 0 -> Forall (fun x => k_b x <> k_b k) (l1 ++ l2)) as M0.
  { intros Hm. apply Forall_forall. intros x Hx Eb.
    assert (x ∈ tokens_in (k_b k) (l1 ++ l2)) as Hin by (apply list_elem_of_filter; done).
    unfold m in Hm. destruct (tokens_in (k_b k) (l1 ++ l2)); [by apply elem_of_nil in Hin|cbn in Hm; lia]. }
  split; cbn [st_tr st_calls st_tokens].
  - split_and!; [done| |].
    + intros b. rewrite T. destruct ((m =? 0) && Bool.eqb (k_b k) b); [done|apply Pos].
    + rewrite P', B1, !T. revert Ord. rewrite P.
      destruct (Z.eqb_spec m 0), (k_b k), (b1 (st_tr s)); cbn [andb Bool.eqb negb]; lia.
  - intros b. rewrite R. destruct (Bool.eqb_spec (k_b k) b) as [<-|Hn]; [done|].
    rewrite (inv_cnt s I), Et, tokens_in_remove. destruct (Bool.eqb_spec (k_b k) b); [done|]. by rewrite Nat.add_0_r.
  - intros b Hb. left. rewrite T in Hb. destruct (Bool.eqb_spec (k_b k) b) as [E0|Hn].
    + rewrite <- E0 in *. destruct (Z.eqb_spec m 0) as [|Hm]; cbn in Hb; [lia|]. unfold m in Hm.
      destruct (tokens_in (k_b k) (l1 ++ l2)) as [|x l] eqn:F; [cbn in Hm; lia|].
      assert (x ∈ tokens_in (k_b k) (l1 ++ l2)) as Hin by (rewrite F; left).
      apply list_elem_of_filter in Hin as [Hx Hin]. apply Exists_exists. by exists x.
    + rewrite andb_false_r in Hb. destruct (inv_live s I b Hb) as [Hx|Hx]; [|rewrite Ec in Hx; by inversion Hx].
      rewrite Et in Hx. apply Exists_app in Hx as [Hx|[Hx|Hx]%Exists_cons]; [by apply Exists_app; left|done|by apply Exists_app; right].
  - constructor.
  - rewrite Forall_forall in Ht |- *. intros x Hx. destruct (Ht x Hx) as [? ?]. split; [done|]. rewrite T.
    destruct (Z.eqb_spec m 0) as [Hm|]; [|done]. specialize (M0 Hm). rewrite Forall_forall in M0.
    specialize (M0 x Hx). by destruct (Bool.eqb_spec (k_b k) (k_b x)).
  - pose proof (inv_size s I) as Hs. rewrite ids_length, Ec, Et in Hs. rewrite ids_length. cbn in *.
    rewrite length_app in *. cbn in Hs. lia.
  - pose proof (inv_nodup s I) as Hn. unfold ids in *. rewrite Ec, Et in Hn. cbn in *.
    rewrite fmap_app in Hn |- *. cbn in Hn. apply NoDup_app in Hn as (H1 & H2 & [_ H3]%NoDup_cons). apply NoDup_app. split_and!; [done| |done].
    intros x Hx Hx'. by apply (H2 x Hx), list_elem_of_further.
Qed.

Lemma inv_init : Inv init_state.
Proof.
  split.
  - split_and!; [done|by intros []|intros H; discriminate H].
  - by intros [].
  - intros [] H; discriminate H.
  - constructor.
  - constructor.
  - done.
  - constructor.
Qed.

Lemma inv_step s e s' : Inv s -> step s e s' -> Inv s'.
Proof.
  intros I H. destruct H.
  - by apply inv_step_track.
  - by eapply inv_step_call.
  - by eapply inv_step_return.
  - by eapply inv_step_untrack.
Qed.

Lemma inv_steps s es s' : Inv s -> t_steps s es s' -> Inv s'.
Proof. intros I H. induction H; [done|]. apply IHt_steps. by eapply inv_step. Qed.

Lemma steps_app {St} `{Tracker St} s es s1 es' s2 :
  t_steps s es s1 -> t_steps s1 es' s2 -> t_steps s (es ++ es') s2.
Proof. intros H1 H2. induction H1; [done|]. cbn. econstructor; eauto. Qed.

Lemma lt_empty_set t : lt_ts EmptyTimestamp t -> Timestamp_IsEmpty t = false.
Proof.
  unfold lt_ts, Timestamp_Less, Timestamp_IsEmpty. cbn. intros H.
  destruct (Z.eqb_spec (WallTime t) 0), (Z.eqb_spec (Logical t) 0); cbn; (done || lia).
Qed.

(** Without calls inside [Track], the first bucket is empty exactly when no token is out. *)
Lemma quiescent_b1 s :
  Inv s -> st_calls s = [] -> 0 < tsb (st_tr s) (b1 (st_tr s)) <-> st_tokens s <> [].
Proof.
  intros I Ec. split.
  - intros H. destruct (inv_live s I _ H) as [Hx|Hx]; [|rewrite Ec in Hx; by inversion Hx].
    intros E. rewrite E in Hx. by inversion Hx.
  - intros Hn. destruct (st_tokens s) as [|k l] eqn:E; [done|].
    pose proof (inv_tokens s I) as Ht. rewrite E in Ht. apply Forall_cons in Ht as [[_ Hk] _].
    destruct (inv_buckets s I) as (P & _ & Ord). rewrite P in Ord.
    destruct (k_b k), (b1 (st_tr s)); cbn [negb] in *; lia.
Qed.

(** The first bucket's timestamp is at or below every tracked one. *)
Lemma b1_below s k :
  Inv s -> k ∈ st_tokens s -> 0 < tsb (st_tr s) (b1 (st_tr s)) <= WallTime (k_ts k) /\ 0 <= Logical (k_ts k).
Proof.
  intros I Hk. pose proof (inv_tokens s I) as Ht. rewrite Forall_forall in Ht.
  destruct (Ht k Hk) as [(_ & _ & ?) Hb]. destruct (inv_buckets s I) as (P & _ & Ord). rewrite P in Ord.
  destruct (k_b k), (b1 (st_tr s)); cbn [negb] in *; lia.
Qed.

Lemma LowerBound_eq tr :
  LowerBound tr = if tsb tr (b1 tr) =? 0 then EmptyTimestamp
                  else MkTimestamp (tsb tr (b1 tr)) 0 (bucket_isSynthetic (bk tr (b1 tr))).
Proof. unfold LowerBound, bucket_timestamp, tsb. by destruct (_ =? 0). Qed.

Lemma lower_bound_spec s :
  Inv s -> st_calls s = [] ->
  (st_tokens s = [] -> LowerBound (st_tr s) = EmptyTimestamp) /\
  (st_tokens s <> [] -> ts_wf (LowerBound (st_tr s)) /\ lt_ts EmptyTimestamp (LowerBound (st_tr s))) /\
  forall k, k ∈ st_tokens s -> Timestamp_LessEq (LowerBound (st_tr s)) (k_ts k) = true.
Proof.
  intros I Ec. pose proof (quiescent_b1 s I Ec) as Q. rewrite LowerBound_eq.
  destruct (inv_buckets s I) as (_ & Pos & _). specialize (Pos (b1 (st_tr s))). split_and!.
  - intros E. destruct (Z.eqb_spec (tsb (st_tr s) (b1 (st_tr s))) 0); [done|]. destruct (proj1 Q); [lia|done].
  - intros E. destruct (st_tokens s) as [|k l] eqn:Et; [done|].
    destruct (b1_below s k I) as [Hb _]; [rewrite Et; left|]. pose proof (inv_tokens s I) as Ht.
    rewrite Et in Ht. apply Forall_cons in Ht as [[([Hw _] & _) _] _].
    destruct (Z.eqb_spec (tsb (st_tr s) (b1 (st_tr s))) 0); [lia|].
    split; [split; cbn; unfold isS in *; lia|]. unfold lt_ts, Timestamp_Less. cbn. lia.
  - intros k Hk. destruct (b1_below s k I Hk) as [? ?].
    destruct (Z.eqb_spec (tsb (st_tr s) (b1 (st_tr s))) 0); [lia|]. unfold Timestamp_LessEq. cbn. lia.
Qed.

Lemma count_spec s : Inv s -> Count (st_tr s) = Z.of_nat (length (st_tokens s)).
Proof.
  intros I. unfold Count. rewrite !(inv_cnt s I). destruct (inv_buckets s I) as (P & _). rewrite P.
  assert (length (st_tokens s) = length (tokens_in (b1 (st_tr s)) (st_tokens s)) +
    length (tokens_in (negb (b1 (st_tr s))) (st_tokens s)))%nat as ->; [|lia].
  generalize (b1 (st_tr s)) as b. intros b. unfold tokens_in. induction (st_tokens s) as [|k l IH]; [done|].
  rewrite !filter_cons. cbn [length]. rewrite IH.
  do 2 destruct (decide _); cbn [length]; try lia; destruct (k_b k), b; done.
Qed.

Lemma tokens_nil (l : list token) : (fun k => (k_id k, k_ts k)) <$> l = [] <-> l = [].
Proof. by destruct l. Qed.

#[export] Instance lockfree_TrackerLaws : TrackerLaws state.
Proof.
  assert (forall s es, t_steps t_init es s -> Inv s) as R by (intros; eapply inv_steps; [apply inv_init|done]).
  split.
  - done.
  - intros s es id ts s' _ H. inversion H as [? ? ? [Hw _] Hid| | |]; subst. cbn. rewrite !fmap_app. split_and!; [done..|].
    unfold ids in Hid. by rewrite <- !list_fmap_compose.
  - intros s es s' _ H. inversion H as [|? l1 c l2 tr p Ec E|? l1 c l2 tr b Ec E|]; subst; cbn.
    + rewrite Ec, !fmap_app. cbn. done.
    + rewrite Ec, !fmap_app. cbn. split; [solve_Permutation|]. set_solver.
  - intros s es id s' _ H. inversion H as [| | |? l1 k l2 tr Ec Et E]; subst. cbn. rewrite Ec. split_and!; [done..|].
    exists (k_ts k). rewrite Et, !fmap_app. cbn. solve_Permutation.
  - intros s es H E. apply fmap_nil_inv in E. destruct (lower_bound_spec s (R s es H) E) as (H1 & H2 & H3).
    cbn. split_and!.
    + intros Et. apply H1. by apply tokens_nil.
    + intros Et. apply H2. intros Et'. apply Et. by rewrite Et'.
    + intros id ts Hin. apply list_elem_of_fmap in Hin as (k & [= -> ->] & Hk). by apply H3.
  - intros s es H _. cbn. rewrite length_fmap. apply count_spec. by eapply R.
Qed.

(** * Calls to [Track] finish *)

(** Steps a call may still take, when [n] calls run: a swap by another call can send it
    through its loop once more. *)
Definition weight (n : nat) (tr : lockfreeTracker) (c : call) : nat :=
  match c_pc c with
  | AtTimestamp => 6 + 2 * n
  | InBucket b AtLoad => 4 + 2 * n
  | InBucket b (AtCAS t) => (if (tsb tr b =? t)%Z then 3 else 5) + 2 * n
  | InBucket b (AtSynthetic _) => 2
  | InBucket b AtAdd => 1
  end%nat.
Definition weights (n : nat) (tr : lockfreeTracker) (l : list call) : nat :=
  sum_list_with (weight n tr) l.

Lemma weights_le n tr tr' l : (weights n tr' l <= weights n tr l + 2 * length l)%nat.
Proof.
  unfold weights. induction l as [|c l IH]; [done|]. cbn [sum_list_with length].
  assert (weight n tr' c <= weight n tr c + 2)%nat; [|lia].
  unfold weight. destruct (c_pc c) as [|b [|t|t|]]; try lia. destruct (_ =? t), (_ =? t); lia.
Qed.

Lemma weights_same n tr tr' l : (forall b, tsb tr' b = tsb tr b) -> weights n tr' l = weights n tr l.
Proof.
  intros E. unfold weights. induction l as [|c l IH]; [done|]. cbn [sum_list_with]. rewrite IH. f_equal.
  unfold weight. destruct (c_pc c) as [|b [|t|t|]]; [done..| |done|done]. by rewrite E.
Qed.

(** How an operation changes the timestamps and the bucket of a call. *)
Lemma track_ts tr ts p tr' r :
  Track tr ts p = (tr', r) ->
  (b1 tr' = b1 tr /\ b2 tr' = b2 tr) /\
  (forall b, tsb tr' b = tsb tr b \/
     p = InBucket b (AtCAS (tsb tr b)) /\ tsb tr' b = WallTime ts /\ r = inl (InBucket b (AtSynthetic (tsb tr b)))) /\
  match p, r with
  | AtTimestamp, inl p' =>
      p' = InBucket (if (tsb tr (b1 tr) =? 0) || (WallTime ts <=? tsb tr (b1 tr)) then b1 tr else b2 tr) AtLoad
  | AtTimestamp, inr _ => False
  | InBucket b j, inl p' => exists j', p' = InBucket b j'
  | InBucket b j, inr b' => b' = b /\ j = AtAdd
  end.
Proof.
  unfold Track, bucket_timestamp. destruct p as [|b j].
  - unfold tsb. destruct (b_ts (bk tr (b1 tr)) =? 0), (WallTime ts <=? b_ts (bk tr (b1 tr))); cbn;
      intros [= <- <-]; auto.
  - unfold extendAndJoin. destruct j as [|t|t|].
    + destruct (_ && _); intros [= <- <-]; (split; [done|]); (split; [by left|eauto]).
    + destruct (Z.eqb_spec (b_ts (bk tr b)) t) as [<-|]; intros [= <- <-]; [|by split; [|split; [left|eauto]]].
      split; [apply set_ptr|]. split; [|eauto]. intros b'. unfold tsb. rewrite bk_set.
      destruct (Bool.eqb_spec b b') as [<-|]; [by right|by left].
    + destruct (_ && _); intros [= <- <-]; [|by split; [|split; [left|eauto]]]. split; [apply set_ptr|]. split; [|eauto].
      intros b'. unfold tsb. rewrite bk_set. destruct (Bool.eqb_spec b b') as [<-|]; by left.
    + intros [= <- <-]. split; [apply set_ptr|]. split; [|done].
      intros b'. unfold tsb. rewrite bk_set. destruct (Bool.eqb_spec b b') as [<-|]; by left.
Qed.

(** Either no timestamp changed and the call moved on, or it won the swap. *)
Lemma weight_step n tr c tr' p :
  Track tr (c_ts c) (c_pc c) = (tr', inl p) ->
  let c' := MkCall (c_id c) (c_ts c) p in
  (forall b, tsb tr' b = tsb tr b) /\ (weight n tr' c' < weight n tr c)%nat \/
  (weight n tr' c' + 2 * n < weight n tr c)%nat.
Proof.
  intros E c'. pose proof (track_ts _ _ _ _ _ E) as (_ & T & _).
  unfold Track in E. unfold c', weight. cbn [c_pc]. destruct (c_pc c) as [|b j] eqn:Epc.
  - assert (tr' = tr /\ exists b, p = InBucket b AtLoad) as [-> [b ->]].
    { destruct (bucket_timestamp _) as [? ini]. destruct (_ || _); injection E as <- <-; eauto. }
    left. split; [done|lia].
  - unfold extendAndJoin in E. destruct j as [|t|t|]; cbn in E.
    + destruct (_ && _); injection E as <- <-; [right; lia|]. left. split; [done|].
      unfold tsb. rewrite Z.eqb_refl. lia.
    + destruct (Z.eqb_spec (b_ts (bk tr b)) t) as [Et|Et]; injection E as <- <-.
      * right. unfold tsb. destruct (_ =? t); lia.
      * left. split; [done|]. unfold tsb. destruct (Z.eqb_spec (b_ts (bk tr b)) t); [done|lia].
    + assert (p = InBucket b AtAdd) as -> by (destruct (_ && _); by injection E).
      left. split; [|lia]. intros b'. destruct (T b') as [?|(E1 & _)]; [done|discriminate E1].
    + discriminate E.
Qed.

Lemma weights_app n tr l1 l2 : weights n tr (l1 ++ l2) = (weights n tr l1 + weights n tr l2)%nat.
Proof. unfold weights. induction l1 as [|c l1 IH]; [done|]. cbn. rewrite IH. lia. Qed.

Lemma tau_decreases n s s' :
  (length (st_calls s) <= n)%nat -> step s ETau s' ->
  (weights n (st_tr s') (st_calls s') < weights n (st_tr s) (st_calls s))%nat /\
  (length (st_calls s') <= n)%nat.
Proof.
  intros Hn H. inversion H as [|? l1 c l2 tr p Ec E|? l1 c l2 tr b Ec E|]; subst; cbn [st_tr st_calls].
  - rewrite Ec in Hn |- *. rewrite length_app in Hn |- *. cbn [length] in Hn |- *. split; [|lia].
    rewrite !weights_app. change (weights n ?t (?x :: ?l)) with (weight n t x + weights n t l)%nat.
    destruct (weight_step n _ _ _ _ E) as [[T W]|W].
    + rewrite !(weights_same n _ _ _ T). lia.
    + pose proof (weights_le n (st_tr s) tr l1). pose proof (weights_le n (st_tr s) tr l2). lia.
  - rewrite Ec in Hn |- *. rewrite length_app in Hn |- *. cbn [length] in Hn. split; [|lia].
    pose proof (track_ts _ _ _ _ _ E) as (_ & T & R).
    assert (forall b', tsb tr b' = tsb (st_tr s) b') as T'.
    { intros b'. destruct (T b') as [?|(_ & _ & X)]; [done|discriminate X]. }
    rewrite !weights_app. change (weights n ?t (?x :: ?l)) with (weight n t x + weights n t l)%nat.
    rewrite !(weights_same n _ _ _ T'). destruct (c_pc c) as [|b0 j] eqn:Epc; [done|]. destruct R as [_ ->].
    assert (weight n (st_tr s) c = 1%nat) by (unfold weight; by rewrite Epc). lia.
Qed.

Lemma weights_bound n tr l : (length l <= n)%nat -> (weights n tr l <= (6 + 2 * n) * length l)%nat.
Proof.
  intros _. unfold weights. induction l as [|c l IH]; [cbn; lia|]. cbn [sum_list_with length].
  assert (weight n tr c <= 6 + 2 * n)%nat; [|lia].
  unfold weight. destruct (c_pc c) as [|b [|t|t|]]; try lia. destruct (_ =? t); lia.
Qed.

(** * The lower bound advances *)

Section Turnover.
Context (T : Z).

(** A bucket that still holds the bound below [T]. *)
Definition stale (tr : lockfreeTracker) (b : bool) : Prop := 0 < tsb tr b < T.
Definition targets (b : bool) (c : call) : Prop := exists j, c_pc c = InBucket b j.

(** The first bucket can only drain: its tokens are among [A], and nothing joins it. *)
Definition draining (A : list nat) (s : state) : Prop :=
  (forall k, k ∈ st_tokens s -> k_b k = b1 (st_tr s) -> k_id k ∈ A) /\
  (forall c, c ∈ st_calls s -> ~ targets (b1 (st_tr s)) c).

(** The two phases: the second bucket is stale only while the first is draining; then it is
    not stale, and the first is stale only while draining. *)
Definition phase1 (A : list nat) (s : state) : Prop :=
  stale (st_tr s) (b1 (st_tr s)) /\ draining A s \/ ~ stale (st_tr s) (b2 (st_tr s)).
Definition phase2 (A : list nat) (s : state) : Prop :=
  ~ stale (st_tr s) (b2 (st_tr s)) /\ (stale (st_tr s) (b1 (st_tr s)) -> draining A s).

Definition new_enough (e : event) : Prop :=
  match e with ETrack _ ts => T <= WallTime ts | _ => True end.
Definition calls_new (s : state) : Prop := Forall (fun c => T <= wall c) (st_calls s).

Lemma calls_new_step s e s' : step s e s' -> new_enough e -> calls_new s -> calls_new s'.
Proof.
  unfold calls_new. intros H Hn Hc.
  destruct H as [| ? ? ? ? ? ? Ec|? ? ? ? ? ? Ec|]; cbn [st_calls]; try rewrite Ec in Hc.
  - apply Forall_app. split; [done|]. constructor; [done|constructor].
  - apply Forall_app in Hc as [H1 [H2 H3]%Forall_cons]. apply Forall_app. split; [done|]. by constructor.
  - apply Forall_app in Hc as [H1 [H2 H3]%Forall_cons]. apply Forall_app. done.
  - constructor.
Qed.

(** A step of a call leaves a draining first bucket alone, if it is stale. *)
Lemma draining_tau A s s' :
  Inv s -> calls_new s -> step s ETau s' -> stale (st_tr s) (b1 (st_tr s)) -> draining A s ->
  stale (st_tr s') (b1 (st_tr s')) /\ draining A s'.
Proof.
  intros I Hc H [S1 S2] [D1 D2]. unfold calls_new in Hc. pose proof (inv_buckets s I) as (P & _ & _).
  inversion H as [|? l1 c l2 tr p Ec E|? l1 c l2 tr b Ec E|]; subst; cbn [st_tr st_calls st_tokens];
    rewrite Ec in Hc; apply Forall_app in Hc as [_ [Hw _]%Forall_cons];
    pose proof (track_ts _ _ _ _ _ E) as ([E1 E2] & Ts & R);
    assert (~ targets (b1 (st_tr s)) c) as Nt by (apply D2; rewrite Ec; set_solver);
    (assert (tsb tr (b1 tr) = tsb (st_tr s) (b1 (st_tr s))) as Eb
      by (rewrite E1; destruct (Ts (b1 (st_tr s))) as [?|(X & _)]; [done|destruct Nt; by eexists]));
    (split; [by unfold stale; rewrite Eb|]); unfold draining; cbn [st_tr st_calls st_tokens];
    rewrite E1.
  - split; [done|]. intros c' [Hin|[->|Hin]%elem_of_cons]%elem_of_app; [apply D2; rewrite Ec; set_solver| |apply D2; rewrite Ec; set_solver].
    intros [j Ej]. cbn in Ej. subst p. destruct (c_pc c) as [|b0 j0] eqn:Epc.
    + injection R as R _. unfold wall in Hw.
      destruct (Z.eqb_spec (tsb (st_tr s) (b1 (st_tr s))) 0); [lia|].
      destruct (Z.leb_spec (WallTime (c_ts c)) (tsb (st_tr s) (b1 (st_tr s)))); [lia|]. cbn in R.
      rewrite P in R. revert R. by destruct (b1 (st_tr s)).
    + destruct R as [j' R]. injection R as R _. apply Nt. exists j0. by rewrite Epc, R.
  - split.
    + intros k [Hk|Hk]%elem_of_app; [by apply D1|]. apply list_elem_of_singleton in Hk as ->. cbn.
      intros ->. destruct (c_pc c) as [|b0 j0] eqn:Epc; [done|]. destruct R as [R _].
      destruct Nt. exists j0. by rewrite Epc, R.
    + intros c' Hin. apply D2. rewrite Ec. set_solver.
Qed.

(** Once it is not stale, the second bucket stays so. *)
Lemma fresh_tau s s' :
  Inv s -> calls_new s -> step s ETau s' -> ~ stale (st_tr s) (b2 (st_tr s)) -> ~ stale (st_tr s') (b2 (st_tr s')).
Proof.
  intros I Hc H N. unfold calls_new, stale in *.
  assert (forall tr r c l1 l2, st_calls s = l1 ++ c :: l2 -> Track (st_tr s) (c_ts c) (c_pc c) = (tr, r) ->
    ~ 0 < tsb tr (b2 tr) < T) as K.
  { intros tr r c l1 l2 Ec E. rewrite Ec in Hc. apply Forall_app in Hc as [_ [Hw _]%Forall_cons].
    pose proof (track_ts _ _ _ _ _ E) as ([E1 E2] & Ts & _). rewrite E2. unfold wall in Hw.
    destruct (Ts (b2 (st_tr s))) as [->|(_ & -> & _)]; [done|lia]. }
  inversion H; subst; cbn [st_tr]; eauto.
Qed.

(** Without a draining bucket, the first bucket only becomes stale by draining. *)
Lemma not_stale_b1_tau s s' :
  Inv s -> calls_new s -> step s ETau s' -> ~ stale (st_tr s) (b1 (st_tr s)) -> ~ stale (st_tr s') (b1 (st_tr s')).
Proof.
  intros I Hc H N. unfold calls_new, stale in *.
  assert (forall tr r c l1 l2, st_calls s = l1 ++ c :: l2 -> Track (st_tr s) (c_ts c) (c_pc c) = (tr, r) ->
    ~ 0 < tsb tr (b1 tr) < T) as K.
  { intros tr r c l1 l2 Ec E. rewrite Ec in Hc. apply Forall_app in Hc as [_ [Hw _]%Forall_cons].
    pose proof (track_ts _ _ _ _ _ E) as ([E1 E2] & Ts & _). rewrite E1. unfold wall in Hw.
    destruct (Ts (b1 (st_tr s))) as [->|(_ & -> & _)]; [done|lia]. }
  inversion H; subst; cbn [st_tr]; eauto.
Qed.

(** What [Untrack] does to the buckets. *)
Lemma untrack_cases s k l1 l2 tr :
  Inv s -> st_tokens s = l1 ++ k :: l2 -> Untrack (st_tr s) (k_b k) = Ok tr ->
  b1 tr = b2 (st_tr s) /\ b2 tr = b1 (st_tr s) /\ tsb tr (b2 tr) = 0 /\ tsb tr (b1 tr) = tsb (st_tr s) (b2 (st_tr s)) \/
  b1 tr = b1 (st_tr s) /\ b2 tr = b2 (st_tr s) /\ tsb tr (b1 tr) = tsb (st_tr s) (b1 (st_tr s)) /\
    (tsb tr (b2 tr) = 0 \/ tsb tr (b2 tr) = tsb (st_tr s) (b2 (st_tr s))).
Proof.
  intros I Et E. pose proof (inv_cnt s I (k_b k)) as N.
  rewrite Et, tokens_in_remove, Bool.eqb_reflx, Nat2Z.inj_add in N.
  pose proof (tokens_in_bound s (k_b k) I) as Bd. rewrite N in Bd.
  destruct (inv_buckets s I) as (P & _). set (m := Z.of_nat (length (tokens_in (k_b k) (l1 ++ l2)))) in *.
  assert (0 <= m < MaxInt32) as Hm by (unfold m in *; lia).
  destruct (untrack_op (st_tr s) (k_b k) m P N Hm) as (tr' & E' & P' & B1 & Tt & _).
  rewrite E in E'. injection E' as <-. rewrite P', !Tt, B1, P. revert B1.
  destruct (m =? 0), (k_b k), (b1 (st_tr s)); cbn [andb Bool.eqb negb]; intros _; auto 10.
Qed.

Lemma draining_sub A s l1 k l2 tr :
  st_tokens s = l1 ++ k :: l2 -> b1 tr = b1 (st_tr s) -> draining A s -> draining A (MkState tr [] (l1 ++ l2)).
Proof.
  intros Et E [D1 _]. split; cbn; [|set_solver]. rewrite E. intros x Hx. apply D1. rewrite Et. set_solver.
Qed.

Lemma draining_track A s id ts :
  draining A s -> draining A (MkState (st_tr s) (st_calls s ++ [MkCall id ts AtTimestamp]) (st_tokens s)).
Proof.
  intros [D1 D2]. split; [done|]. cbn. intros c [Hc|Hc]%elem_of_app; [by apply D2|].
  apply list_elem_of_singleton in Hc as ->. by intros [j Ej].
Qed.

Lemma phase1_step A s e s' :
  Inv s -> calls_new s -> step s e s' -> new_enough e -> phase1 A s -> phase1 A s'.
Proof.
  intros I Hc H Hn Hp. destruct e as [id ts| |id].
  - inversion H; subst. destruct Hp as [[? ?]|?]; [left; split; [done|by apply draining_track]|by right].
  - destruct Hp as [[? ?]|?]; [left; by apply (draining_tau A s)|right; by apply (fresh_tau s)].
  - inversion H as [| | |? l1 k l2 tr Ec Et E]; subst. unfold phase1, stale in *. cbn [st_tr].
    destruct (untrack_cases s k l1 l2 tr I Et E) as [(E1 & E2 & Z2 & Z1)|(E1 & E2 & Z1 & Z2)].
    + right. lia.
    + destruct Hp as [[Hs Hd]|Hs]; [left; split; [lia|by apply (draining_sub A s l1 k)]|right; lia].
Qed.

Lemma phase2_step A s e s' :
  Inv s -> calls_new s -> step s e s' -> new_enough e -> phase2 A s -> phase2 A s'.
Proof.
  intros I Hc H Hn [Hp1 Hp2]. destruct e as [id ts| |id].
  - inversion H; subst. split; [done|]. cbn. intros Hs. apply draining_track. by apply Hp2.
  - split; [by apply (fresh_tau s)|]. intros Hs.
    destruct (decide (0 < tsb (st_tr s) (b1 (st_tr s)) < T)) as [Hb|Hb].
    + by apply (draining_tau A s); [..|apply Hp2].
    + by destruct (not_stale_b1_tau s s' I Hc H Hb).
  - inversion H as [| | |? l1 k l2 tr Ec Et E]; subst. unfold phase2, stale in *. cbn [st_tr].
    destruct (untrack_cases s k l1 l2 tr I Et E) as [(E1 & E2 & Z2 & Z1)|(E1 & E2 & Z1 & Z2)].
    + split; [lia|]. intros Hs. destruct Hp1. lia.
    + split; [lia|]. intros Hs. apply (draining_sub A s l1 k); [done..|]. apply Hp2. lia.
Qed.

Lemma phase_steps (phase : state -> Prop) s es s' :
  (forall s e s', Inv s -> calls_new s -> step s e s' -> new_enough e -> phase s -> phase s') ->
  t_steps s es s' -> Inv s -> calls_new s -> Forall new_enough es -> phase s -> phase s'.
Proof.
  intros Hph H. induction H as [|s e s1 es s2 H1 H2 IH]; [done|]. intros I Hc [Hn Hns]%Forall_cons Hp.
  apply IH; [by eapply inv_step|by eapply calls_new_step|done|]. by eapply Hph.
Qed.

(** A draining stale bucket whose tokens are gone cannot be: it would be empty. *)
Lemma drained A s :
  Inv s -> st_calls s = [] -> (forall k, k ∈ st_tokens s -> k_id k ∉ A) ->
  stale (st_tr s) (b1 (st_tr s)) -> ~ draining A s.
Proof.
  intros I Ec HA [S1 _] [D _].
  destruct (inv_live s I _ S1) as [Hx|Hx]; [|rewrite Ec in Hx; by inversion Hx].
  apply Exists_exists in Hx as (k & Hk & Eb). apply (HA k Hk). by apply D.
Qed.
End Turnover.

(** * A call alone *)

(** A call that runs alone, for at most [n] operations. *)
Fixpoint track_alone (n : nat) (tr : lockfreeTracker) (ts : Timestamp) (p : pc) : option (lockfreeTracker * bool) :=
  match n with
  | O => None
  | S n =>
      match Track tr ts p with
      | (tr, inr b) => Some (tr, b)
      | (tr, inl p) => track_alone n tr ts p
      end
  end.

Lemma track_alone_steps n s id ts p tr b :
  st_calls s = [MkCall id ts p] -> track_alone n (st_tr s) ts p = Some (tr, b) ->
  exists es, t_steps s es (MkState tr [] (st_tokens s ++ [MkToken id ts b])) /\ Forall (eq ETau) es.
Proof.
  revert s p. induction n as [|n IH]; intros s p Ec E; [done|]. cbn in E.
  destruct (Track (st_tr s) ts p) as [tr1 [p1|b1']] eqn:Et.
  - destruct (IH (MkState tr1 [MkCall id ts p1] (st_tokens s)) p1 eq_refl E) as (es & H & F).
    exists (ETau :: es). split; [|by constructor]. eapply steps_cons; [|exact H].
    exact (step_call s [] (MkCall id ts p) [] tr1 p1 Ec Et).
  - injection E as <- <-. exists [ETau]. split; [|by constructor]. eapply steps_cons; [|constructor].
    exact (step_return s [] (MkCall id ts p) [] tr1 b1' Ec Et).
Qed.

Lemma track_alone_run s id ts tr b :
  st_calls s = [] -> ts_trackable ts -> id ∉ ids s -> Z.of_nat (length (ids s)) < MaxInt32 ->
  track_alone 5 (st_tr s) ts AtTimestamp = Some (tr, b) ->
  exists es, t_steps s (ETrack id ts :: es) (MkState tr [] (st_tokens s ++ [MkToken id ts b])) /\ Forall (eq ETau) es.
Proof.
  intros Ec Ht Hi Hl E. pose proof (step_track s id ts Ht Hi Hl) as H1. rewrite Ec in H1.
  destruct (track_alone_steps 5 (MkState (st_tr s) [MkCall id ts AtTimestamp] (st_tokens s)) id ts AtTimestamp
    tr b eq_refl E) as (es & H & F).
  exists es. split; [|done]. by eapply steps_cons.
Qed.

(** A run: 1 is tracked at 10; 2 at 30 and 1 removed; 3 at 40 and 2 removed. *)
Definition ts_at (w : Z) : Timestamp := MkTimestamp w 0 false.
Definition run0 : state :=
  MkState (MkTracker (Mkbucket 10 1 0) (Mkbucket 0 0 0) false true) [] [MkToken 1 (ts_at 10) false].
Definition run1 : state :=
  MkState (MkTracker (Mkbucket 0 0 0) (Mkbucket 30 1 0) true false) [] [MkToken 2 (ts_at 30) true].
Definition run2 : state :=
  MkState (MkTracker (Mkbucket 40 1 0) (Mkbucket 0 0 0) false true) [] [MkToken 3 (ts_at 40) false].

Lemma track_then_untrack s id ts id' tr b l1 k l2 s' :
  st_calls s = [] -> ts_trackable ts -> id ∉ ids s -> Z.of_nat (length (ids s)) < MaxInt32 ->
  track_alone 5 (st_tr s) ts AtTimestamp = Some (tr, b) ->
  st_tokens s ++ [MkToken id ts b] = l1 ++ k :: l2 -> k_id k = id' ->
  (tr' ← Untrack tr (k_b k); Ok (MkState tr' [] (l1 ++ l2))) = Ok s' ->
  exists es, t_steps s es s' /\ Forall (fun e => e = ETrack id ts \/ e = ETau \/ e = EUntrack id') es.
Proof.
  intros Ec Ht Hi Hl E Et Ek Eu. destruct (track_alone_run s id ts tr b Ec Ht Hi Hl E) as (es & H & F).
  apply res_bind_inv in Eu as (tr' & Eu & [= <-]).
  exists ((ETrack id ts :: es) ++ [EUntrack id']). split.
  - eapply steps_app; [exact H|]. eapply steps_cons; [|constructor]. rewrite <- Ek, Et. by apply step_untrack.
  - apply Forall_app. split; constructor; [by left| |by right; right|constructor].
    eapply Forall_impl; [exact F|]. intros e <-. by right; left.
Qed.

Lemma run0_reached : exists es, t_steps init_state es run0.
Proof.
  destruct (track_alone_run init_state 1 (ts_at 10) _ _ eq_refl ltac:(by repeat split) ltac:(apply not_elem_of_nil)
    ltac:(done) eq_refl) as (es & H & _).
  eexists. exact H.
Qed.

Lemma run1_reached : exists es, t_steps run0 es run1 /\ Forall (new_enough 20) es.
Proof.
  destruct (track_then_untrack run0 2 (ts_at 30) 1 _ _ [] (MkToken 1 (ts_at 10) false) [MkToken 2 (ts_at 30) true]
    run1 eq_refl ltac:(by repeat split) ltac:(cbn; set_solver) ltac:(done) eq_refl eq_refl eq_refl eq_refl) as (es & H & F).
  exists es. split; [done|]. eapply Forall_impl; [exact F|]. by intros ? [->|[->| ->]].
Qed.

Lemma run2_reached : exists es, t_steps run1 es run2 /\ Forall (new_enough 20) es.
Proof.
  destruct (track_then_untrack run1 3 (ts_at 40) 2 _ _ [] (MkToken 2 (ts_at 30) true) [MkToken 3 (ts_at 40) false]
    run2 eq_refl ltac:(by repeat split) ltac:(cbn; set_solver) ltac:(done) eq_refl eq_refl eq_refl eq_refl) as (es & H & F).
  exists es. split; [done|]. eapply Forall_impl; [exact F|]. by intros ? [->|[->| ->]].
Qed.

(** No token finds its bucket's count at zero. *)
Lemma untrack_token s k : Inv s -> k ∈ st_tokens s -> exists tr, Untrack (st_tr s) (k_b k) = Ok tr.
Proof.
  intros I Hk. assert (k ∈ tokens_in (k_b k) (st_tokens s)) as Hin by (by apply list_elem_of_filter).
  pose proof (inv_cnt s I (k_b k)) as N. pose proof (tokens_in_bound s (k_b k) I) as B.
  destruct (tokens_in (k_b k) (st_tokens s)) as [|k' l]; [by apply elem_of_nil in Hin|]. cbn [length] in N.
  destruct (untrack_op (st_tr s) (k_b k) (Z.of_nat (length l))) as (tr & E & _); [apply I|lia| |by exists tr].
  cbn [length] in B. lia.
Qed.

(** * Theorems *)

(** C14: In every state that any interleaving of calls can reach, the buckets satisfy their
    documented invariants: the second is only in use beside the first and above it, and no
    bucket in use is empty once the calls are done; then the lower bound is empty exactly
    when nothing is tracked, is at or below every tracked timestamp, and the count is the
    number of tracked timestamps.  [Untrack] never fails on a token that is out.  Requests have
    positive wall times and are fewer than the largest int32 at a time. *)
Theorem lockfree_invariants es s :
  t_steps init_state es s ->
  let tr := st_tr s in
  (b_ts (bk tr (b2 tr)) <> 0 -> 0 < b_ts (bk tr (b1 tr)) < b_ts (bk tr (b2 tr))) /\
  (forall k, k ∈ st_tokens s -> exists tr', Untrack tr (k_b k) = Ok tr') /\
  (st_calls s = [] ->
    (forall b, b_ts (bk tr b) <> 0 <-> 0 < refcnt (bk tr b)) /\
    (Timestamp_IsEmpty (LowerBound tr) = true <-> st_tokens s = []) /\
    (forall k, k ∈ st_tokens s -> Timestamp_LessEq (LowerBound tr) (k_ts k) = true) /\
    Count tr = Z.of_nat (length (st_tokens s))).
Proof.
  intros H tr. assert (Inv s) as I by (eapply inv_steps; [apply inv_init|done]).
  pose proof (inv_buckets s I) as (P & Pos & Ord). fold tr in P, Pos, Ord. split; [|split].
  - intros Hn. specialize (Pos (b2 tr)). unfold tsb in *. apply Ord. lia.
  - intros k. by apply untrack_token.
  - intros Ec. destruct (lower_bound_spec s I Ec) as (L1 & L2 & L3). split_and!.
    + intros b. unfold tr. rewrite (inv_cnt s I). split.
      * intros Hn. specialize (Pos b). destruct (inv_live s I b) as [Hx|Hx]; [unfold tsb, tr in *; lia| |rewrite Ec in Hx; by inversion Hx].
        apply Exists_exists in Hx as (k & Hk & Eb).
        assert (k ∈ tokens_in b (st_tokens s)) as Hin by (by apply list_elem_of_filter).
        destruct (tokens_in b (st_tokens s)); [by apply elem_of_nil in Hin|cbn; lia].
      * intros Hn. destruct (tokens_in b (st_tokens s)) as [|k l] eqn:F; [cbn in Hn; lia|].
        assert (k ∈ tokens_in b (st_tokens s)) as Hin by (rewrite F; left).
        apply list_elem_of_filter in Hin as [<- Hk]. pose proof (inv_tokens s I) as Ht.
        rewrite Forall_forall in Ht. destruct (Ht k Hk) as [_ ?]. unfold tsb in *. lia.
    + split; [|intros E; unfold tr; by rewrite L1].
      intros E. destruct (st_tokens s) eqn:Et; [done|]. destruct L2 as [_ L2]; [done|].
      apply lt_empty_set in L2. unfold tr in E. congruence.
    + exact L3.
    + by apply count_spec.
Qed.

Lemma lockfree_invariants_witness : Timestamp_LessEq (LowerBound (st_tr run0)) (ts_at 10) = true.
Proof.
  destruct run0_reached as [es H].
  destruct (lockfree_invariants es run0 H) as (_ & _ & K).
  exact (proj1 (proj2 (proj2 (K eq_refl))) (MkToken 1 (ts_at 10) false) ltac:(left)).
Defined.

(** C23: [Track] finishes under every schedule: calls that run among themselves take at most
    [n * (2 * n + 6)] steps in all, and can always take one until they have returned. *)
Theorem Track_terminates es0 s es s' :
  t_steps init_state es0 s -> t_steps s es s' -> Forall (eq ETau) es ->
  let n := length (st_calls s) in
  (length es <= n * (2 * n + 6))%nat /\
  (st_calls s' <> [] -> exists s'', step s' ETau s'').
Proof.
  intros _ H Ht n. split.
  - assert (forall n s es s', t_steps s es s' -> Forall (eq ETau) es -> (length (st_calls s) <= n)%nat ->
      (length es + weights n (st_tr s') (st_calls s') <= weights n (st_tr s) (st_calls s))%nat) as K.
    { clear. intros n s es s' H. induction H as [|s e s1 es s2 H1 H2 IH]; [cbn; lia|].
      intros [<- Hes]%Forall_cons Hn. destruct (tau_decreases n s s1 Hn H1) as [? ?].
      specialize (IH Hes ltac:(done)). cbn [length]. lia. }
    specialize (K n s es s' H Ht ltac:(done)).
    pose proof (weights_bound n (st_tr s) (st_calls s) ltac:(done)). fold n in H0. lia.
  - intros Hn. destruct (st_calls s') as [|c l] eqn:Ec; [done|].
    destruct (Track (st_tr s') (c_ts c) (c_pc c)) as [tr [p|b]] eqn:E.
    + eexists. by eapply (step_call _ []).
    + eexists. by eapply (step_return _ []).
Qed.

Lemma Track_terminates_witness :
  exists es, (length es <= 1 * (2 * 1 + 6))%nat /\
    t_steps (MkState NewLockfreeTracker [MkCall 1 (ts_at 10) AtTimestamp] []) es run0.
Proof.
  destruct (track_alone_steps 5 (MkState NewLockfreeTracker [MkCall 1 (ts_at 10) AtTimestamp] []) 1 (ts_at 10)
    AtTimestamp _ _ eq_refl eq_refl) as (es & H & F).
  exists es. split; [|exact H].
  refine (proj1 (Track_terminates [ETrack 1 (ts_at 10)] _ es _ _ H F)).
  eapply steps_cons; [|constructor].
  apply (step_track init_state); [by repeat split|apply not_elem_of_nil|done].
Defined.

(** C17: The lower bound advances.  From a state without calls inside [Track], if every request
    tracked from then on is at or above [T], then once the tracked set has turned over
    twice (every request tracked at the first state is gone at the second, and every one
    tracked at the second is gone at the third) the lower bound is empty or at least [T]. *)
Theorem lower_bound_advances T es0 s0 es1 s1 es2 s2 :
  t_steps init_state es0 s0 -> t_steps s0 es1 s1 -> t_steps s1 es2 s2 ->
  st_calls s0 = [] -> st_calls s1 = [] -> st_calls s2 = [] ->
  Forall (new_enough T) (es1 ++ es2) ->
  (forall k, k ∈ st_tokens s1 -> k_id k ∉ k_id <$> st_tokens s0) ->
  (forall k, k ∈ st_tokens s2 -> k_id k ∉ k_id <$> st_tokens s1) ->
  LowerBound (st_tr s2) = EmptyTimestamp \/ T <= WallTime (LowerBound (st_tr s2)).
Proof.
  intros H0 H1 H2 C0 C1 C2 [N1 N2]%Forall_app G1 G2.
  assert (Inv s0) as I0 by (eapply inv_steps; [apply inv_init|done]).
  assert (Inv s1) as I1 by (by eapply inv_steps). assert (Inv s2) as I2 by (by eapply inv_steps).
  assert (forall s, st_calls s = [] -> draining (k_id <$> st_tokens s) s) as D.
  { intros s Ec. split; [|rewrite Ec; set_solver]. intros k Hk _. apply list_elem_of_fmap. eauto. }
  assert (phase1 T (k_id <$> st_tokens s0) s1) as P1.
  { eapply phase_steps; [intros; by eapply phase1_step|exact H1|done|unfold calls_new; rewrite C0; constructor|done|].
    unfold phase1. destruct (decide (0 < tsb (st_tr s0) (b1 (st_tr s0)) < T)) as [Hs|Hs].
    - left. split; [done|by apply D].
    - right. unfold stale. destruct (inv_buckets s0 I0) as (_ & _ & Ord). lia. }
  assert (~ stale T (st_tr s1) (b2 (st_tr s1))) as P2.
  { destruct P1 as [[Hs Hd]|?]; [|done]. by destruct (drained T _ s1 I1 C1 G1 Hs). }
  assert (phase2 T (k_id <$> st_tokens s1) s2) as [_ P3].
  { eapply phase_steps; [intros; by eapply phase2_step|exact H2|done|unfold calls_new; rewrite C1; constructor|done|].
    split; [done|]. intros _. by apply D. }
  rewrite LowerBound_eq. destruct (Z.eqb_spec (tsb (st_tr s2) (b1 (st_tr s2))) 0); [by left|right]. cbn [WallTime].
  destruct (decide (0 < tsb (st_tr s2) (b1 (st_tr s2)) < T)) as [Hs|Hs].
  - by destruct (drained T _ s2 I2 C2 G2 Hs (P3 Hs)).
  - destruct (inv_buckets s2 I2) as (_ & Pos & _). specialize (Pos (b1 (st_tr s2))). lia.
Qed.

Lemma lower_bound_advances_witness : 20 <= WallTime (LowerBound (st_tr run2)).
Proof.
  destruct run0_reached as [es0 H0], run1_reached as (es1 & H1 & F1), run2_reached as (es2 & H2 & F2).
  destruct (lower_bound_advances 20 es0 run0 es1 run1 es2 run2 H0 H1 H2 eq_refl eq_refl eq_refl)
    as [E|E]; [by apply Forall_app|..|discriminate E|exact E].
  - intros k Hk. apply list_elem_of_singleton in Hk as ->. cbn. set_solver.
  - intros k Hk. apply list_elem_of_singleton in Hk as ->. cbn. set_solver.
Defined.
