(* ===== verification/ClosedTs.v ===== *)
(** Closed timestamps in the proposal buffer
    (src/pkg/kv/kvserver/replica_proposal_buf.go, and the resizing of its array).

    The proposal buffer promises, with each proposal it flushes and through the side
    transport, that no more writes happen at or below a closed timestamp.  The requests that
    evaluate are in a tracker, used through its interface.  The file shows that the promise
    holds: whatever the interleaving of requests, flushes and side-transport updates under
    one lease, every request that evaluates, or starts to, writes above every timestamp that
    was closed before; requests of an earlier lease, which have no effect, may be below what a
    lease change brought, but nothing is newly closed at or above them. *)
From S2P Require Import Prelude Hlc Tracker.

Section PropBuf.
Context {St : Type} `{!Tracker St} `{!TrackerLaws St}.

(** The part of the buffer that assigns indexes and closed timestamps.  The hooks used by
    tests are absent. *)
Record propBuf := MkPropBuf {
  evalTracker : St;
  assignedLAI : Z;
  assignedClosedTimestamp : Timestamp
}.

(** [leaseAppliedIndex] is the proposer's. *)
Definition propBuf_Init (tracker : St) (leaseAppliedIndex : Z) : propBuf :=
  MkPropBuf tracker leaseAppliedIndex EmptyTimestamp.

Definition forwardAssignedLAILocked (b : propBuf) (v : Z) : propBuf :=
  if assignedLAI b <? v then MkPropBuf (evalTracker b) v (assignedClosedTimestamp b) else b.

Definition forwardClosedTimestampLocked (b : propBuf) (closedTS : Timestamp) : propBuf * bool :=
  let '(t, moved) := Timestamp_Forward (assignedClosedTimestamp b) closedTS in
  (MkPropBuf (evalTracker b) (assignedLAI b) t, moved).

(** [isLease] is [p.Request.IsSingleRequestLeaseRequest()], [upper] the bound that the lease
    gives. *)
Definition allocateLAIAndClosedTimestampLocked (b : propBuf) (isLease : bool)
    (upper closedTSTarget : Timestamp) : res (propBuf * Z * Timestamp) :=
  let '(b, lai) :=
    if negb isLease then
      let n := u64 (assignedLAI b + 1) in
      (MkPropBuf (evalTracker b) n (assignedClosedTimestamp b), n)
    else (b, 0) in
  if isLease then Ok (b, lai, EmptyTimestamp)
  else
    let lb := t_LowerBound (evalTracker b) in
    closedTSTarget ← (if negb (Timestamp_IsEmpty lb) then
                        prev ← Timestamp_FloorPrev lb; Ok (Timestamp_Backward closedTSTarget prev)
                      else Ok closedTSTarget);
    let closedTSTarget := Timestamp_Backward closedTSTarget upper in
    let '(b, moved) := forwardClosedTimestampLocked b closedTSTarget in
    Ok (b, lai, if negb moved then assignedClosedTimestamp b else closedTSTarget).

Definition OnLeaseChangeLocked (b : propBuf) (leaseOwned : bool) (appliedClosedTS : Timestamp)
    (appliedLAI : Z) : propBuf :=
  if leaseOwned then
    let '(b, _) := forwardClosedTimestampLocked b appliedClosedTS in
    forwardAssignedLAILocked b appliedLAI
  else MkPropBuf (evalTracker b) 0 EmptyTimestamp.

(** The minimum timestamp of the request, and the timestamp it is tracked at. *)
Definition TrackEvaluatingRequest (b : propBuf) (wts : Timestamp) : res (Timestamp * Timestamp) :=
  minTS ← Timestamp_Next (assignedClosedTimestamp b);
  Ok (minTS, (Timestamp_Forward wts minTS).1).

Definition MaybeForwardClosedLocked (b : propBuf) (target : Timestamp) : propBuf * bool :=
  let lb := t_LowerBound (evalTracker b) in
  if negb (Timestamp_IsEmpty lb) && Timestamp_LessEq lb target then (b, false)
  else forwardClosedTimestampLocked b target.

(** * Executions

    [cur] counts lease changes, and [epoch] is the count at which a request started.  The
    operations called with the proposer's lock held exclusively run while no request is
    inside [Track], which holds it shared. *)
Record sys := MkSys { pb : propBuf; cur : nat; epoch : nat -> nat }.

Definition with_tracker (b : propBuf) (t : St) : propBuf :=
  MkPropBuf t (assignedLAI b) (assignedClosedTimestamp b).

Definition set_epoch (f : nat -> nat) (id e : nat) : nat -> nat :=
  fun i => if (i =? id)%nat then e else f i.

Inductive sys_event :=
| SRequest (id : nat) (wts minTS : Timestamp)
| STracker (e : event)
| SPropose (isLease : bool) (lai : Z) (closed : Timestamp)
| SSide (target : Timestamp) (moved : bool)
| SLease (owned : bool).

Inductive sys_step : sys -> sys_event -> sys -> Prop :=
| sys_request s id wts minTS ts t :
    TrackEvaluatingRequest (pb s) wts = Ok (minTS, ts) ->
    t_step (evalTracker (pb s)) (ETrack id ts) t ->
    sys_step s (SRequest id wts minTS) (MkSys (with_tracker (pb s) t) (cur s) (set_epoch (epoch s) id (cur s)))
| sys_tau s t :
    t_step (evalTracker (pb s)) ETau t ->
    sys_step s (STracker ETau) (MkSys (with_tracker (pb s) t) (cur s) (epoch s))
| sys_untrack s id t :
    t_step (evalTracker (pb s)) (EUntrack id) t ->
    sys_step s (STracker (EUntrack id)) (MkSys (with_tracker (pb s) t) (cur s) (epoch s))
| sys_propose s isLease upper target b lai closed :
    t_pending (evalTracker (pb s)) = [] -> ts_wf upper -> ts_wf target ->
    allocateLAIAndClosedTimestampLocked (pb s) isLease upper target = Ok (b, lai, closed) ->
    sys_step s (SPropose isLease lai closed) (MkSys b (cur s) (epoch s))
| sys_side s target b moved :
    t_pending (evalTracker (pb s)) = [] -> ts_wf target ->
    MaybeForwardClosedLocked (pb s) target = (b, moved) ->
    sys_step s (SSide target moved) (MkSys b (cur s) (epoch s))
| sys_lease s owned closed lai :
    t_pending (evalTracker (pb s)) = [] -> ts_wf closed ->
    sys_step s (SLease owned) (MkSys (OnLeaseChangeLocked (pb s) owned closed lai) (S (cur s)) (epoch s)).

Inductive sys_steps : sys -> list sys_event -> sys -> Prop :=
| sys_nil s : sys_steps s [] s
| sys_cons s e s1 es s2 : sys_step s e s1 -> sys_steps s1 es s2 -> sys_steps s (e :: es) s2.

Definition sys_init (lai : Z) : sys := MkSys (propBuf_Init t_init lai) 0 (fun _ => 0%nat).

(** The requests that evaluate, started since the last lease change. *)
Definition evaluating (s : sys) : list (nat * Timestamp) :=
  filter (fun r => epoch s r.1 = cur s) (t_pending (evalTracker (pb s)) ++ t_tracked (evalTracker (pb s))).

Record sys_inv (s : sys) : Prop := {
  si_reach : exists es, t_steps t_init es (evalTracker (pb s));
  si_wf : ts_wf (assignedClosedTimestamp (pb s));
  si_epoch i : (epoch s i <= cur s)%nat;
  si_above r : r ∈ evaluating s -> lt_ts (assignedClosedTimestamp (pb s)) r.2
}.

(** * Steps *)

Lemma EqOrdering_lt a b c : Timestamp_EqOrdering a b = true -> lt_ts b c -> lt_ts a c.
Proof. intros ? ?. ts. Qed.

Lemma EqOrdering_le a b : Timestamp_EqOrdering a b = true -> le_ts b a.
Proof. intros ?. ts. Qed.

Lemma FloorPrev_spec t :
  ts_wf t -> lt_ts EmptyTimestamp t ->
  exists p, Timestamp_FloorPrev t = Ok p /\ ts_wf p /\ lt_ts p t.
Proof.
  intros [Hw Hl] He. unfold lt_ts, Timestamp_Less in He. cbn in He. unfold Timestamp_FloorPrev, isS in *.
  destruct (Z.ltb_spec 0 (Logical t)).
  - eexists. split; [done|]. rewrite wrapS_id by (unfold isS; lia). unfold ts_wf, lt_ts, Timestamp_Less, isS. cbn. lia.
  - destruct (Z.ltb_spec 0 (WallTime t)); [|lia].
    eexists. split; [done|]. rewrite wrapS_id by (unfold isS; lia). unfold ts_wf, lt_ts, Timestamp_Less, isS. cbn. lia.
Qed.

Lemma Backward_wf t s : ts_wf t -> ts_wf s -> ts_wf (Timestamp_Backward t s).
Proof. unfold Timestamp_Backward. by destruct (Timestamp_Less s t). Qed.

Lemma Forward_wf t s : ts_wf t -> ts_wf s -> ts_wf (Timestamp_Forward t s).1.
Proof. unfold Timestamp_Forward. by destruct (Timestamp_Less t s), (Timestamp_EqOrdering t s). Qed.

(** Forwarding keeps what holds of both timestamps. *)
Lemma forward_closed b c b' moved :
  forwardClosedTimestampLocked b c = (b', moved) ->
  evalTracker b' = evalTracker b /\ assignedLAI b' = assignedLAI b /\
  le_ts (assignedClosedTimestamp b) (assignedClosedTimestamp b') /\
  le_ts c (assignedClosedTimestamp b') /\
  (moved = true -> assignedClosedTimestamp b' = c) /\
  (moved = false -> Timestamp_EqOrdering (assignedClosedTimestamp b') (assignedClosedTimestamp b) = true) /\
  (moved = true <-> lt_ts (assignedClosedTimestamp b) c) /\
  (ts_wf (assignedClosedTimestamp b) -> ts_wf c -> ts_wf (assignedClosedTimestamp b')) /\
  (forall t, lt_ts (assignedClosedTimestamp b) t -> lt_ts c t -> lt_ts (assignedClosedTimestamp b') t).
Proof.
  unfold forwardClosedTimestampLocked. pose proof (Forward_spec (assignedClosedTimestamp b) c) as F.
  pose proof (Forward_wf (assignedClosedTimestamp b) c) as W.
  destruct (Timestamp_Forward (assignedClosedTimestamp b) c) as [t m] eqn:E. intros [= <- <-].
  destruct F as (F1 & F2 & F3 & F4 & _). cbn. split_and!; [done..| | |done|done|].
  - intros ->. unfold Timestamp_Forward in E. destruct (Timestamp_Less _ c); [congruence|].
    destruct (Timestamp_EqOrdering _ c); congruence.
  - intros ->. unfold Timestamp_Forward in E. destruct (Timestamp_Less _ c); [congruence|].
    destruct (Timestamp_EqOrdering _ c); injection E as <-; unfold Timestamp_EqOrdering; cbn; by rewrite !Z.eqb_refl.
  - intros t' H1 H2. destruct F3 as [F3| ->]; [by eapply EqOrdering_lt|done].
Qed.

(** What is not below the tracker's bound is not closed. *)
Lemma bound_below es t c :
  t_steps t_init es t -> t_pending t = [] ->
  (Timestamp_IsEmpty (t_LowerBound t) = false -> lt_ts c (t_LowerBound t)) ->
  forall r, r ∈ t_pending t ++ t_tracked t -> lt_ts c r.2.
Proof.
  intros H Hp Hc [id ts] Hr. rewrite Hp in Hr. cbn in Hr.
  destruct (t_law_bound t es H Hp) as (_ & B2 & B3). specialize (B3 id ts Hr).
  destruct B2 as [_ B2]; [by intros E; rewrite E in Hr; apply elem_of_nil in Hr|].
  apply lt_empty_set, Hc in B2. cbn. unfold lt_ts in *. ts.
Qed.

Lemma allocate_spec b upper target es :
  t_steps t_init es (evalTracker b) -> t_pending (evalTracker b) = [] -> ts_wf upper -> ts_wf target ->
  ts_wf (assignedClosedTimestamp b) ->
  exists b' lai closed,
    allocateLAIAndClosedTimestampLocked b false upper target = Ok (b', lai, closed) /\
    evalTracker b' = evalTracker b /\ lai = u64 (assignedLAI b + 1) /\ assignedLAI b' = lai /\
    assignedClosedTimestamp b' = closed /\ le_ts (assignedClosedTimestamp b) closed /\ ts_wf closed /\
    (le_ts closed upper /\ le_ts closed target \/ Timestamp_EqOrdering closed (assignedClosedTimestamp b) = true) /\
    (forall r, r ∈ t_pending (evalTracker b) ++ t_tracked (evalTracker b) ->
       lt_ts closed r.2 \/ Timestamp_EqOrdering closed (assignedClosedTimestamp b) = true).
Proof.
  intros H Hp Hu Ht Hw. unfold allocateLAIAndClosedTimestampLocked. cbn [negb].
  set (lb := t_LowerBound (evalTracker b)).
  set (n := u64 (assignedLAI b + 1)).
  assert (exists tgt, (if negb (Timestamp_IsEmpty lb) then
      prev ← Timestamp_FloorPrev lb; Ok (Timestamp_Backward target prev) else Ok target) = Ok tgt /\
    ts_wf tgt /\ le_ts tgt target /\ (Timestamp_IsEmpty lb = false -> lt_ts tgt lb)) as (tgt & E & W & L & B).
  { destruct (Timestamp_IsEmpty lb) eqn:Ee; cbn [negb].
    { exists target. split_and!; [done..|apply le_ts_refl|done]. }
    destruct (t_law_bound _ _ H Hp) as (L0 & L1 & _). fold lb in L0, L1.
    destruct (decide (t_tracked (evalTracker b) = [])) as [E0|E0]; [by rewrite L0 in Ee|].
    destruct (L1 E0) as [Lw Le]. destruct (FloorPrev_spec lb Lw Le) as (p & Ep & Pw & Pl). rewrite Ep.
    cbn [mbind res_bind]. eexists. split; [done|]. destruct (Backward_spec target p) as (B1 & B2 & _).
    split_and!; [by apply Backward_wf|done|]. intros _. by eapply le_lt_ts_trans. }
  cbn [evalTracker]. fold lb. rewrite E. cbn [mbind res_bind].
  destruct (forwardClosedTimestampLocked (MkPropBuf (evalTracker b) n (assignedClosedTimestamp b))
    (Timestamp_Backward tgt upper)) as [b' moved] eqn:F.
  apply forward_closed in F as (F1 & F2 & F3 & F4 & F5 & F9 & F6 & F7 & F8). cbn in *.
  destruct (Backward_spec tgt upper) as (B1 & B2 & _).
  assert ((if negb moved then assignedClosedTimestamp b' else Timestamp_Backward tgt upper) =
    assignedClosedTimestamp b') as -> by (destruct moved; cbn; [by rewrite F5|done]).
  exists b', n, (assignedClosedTimestamp b').
  assert (ts_wf (assignedClosedTimestamp b')) as W' by (apply F7; [done|by apply Backward_wf]).
  split_and!; [done..| |].
  - destruct moved.
    + left. rewrite F5 by done. split; [done|by apply (le_ts_trans _ tgt)].
    + right. by apply F9.
  - intros r Hr. destruct moved; [left|right; by apply F9]. rewrite F5 by done. eapply le_lt_ts_trans; [exact B1|]. by eapply bound_below.
Qed.

Lemma evaluating_sub s s' :
  cur s' = cur s -> epoch s' = epoch s ->
  t_pending (evalTracker (pb s')) ++ t_tracked (evalTracker (pb s')) ⊆
    t_pending (evalTracker (pb s)) ++ t_tracked (evalTracker (pb s)) ->
  evaluating s' ⊆ evaluating s.
Proof.
  intros E1 E2 Hs r [Hr1 Hr2]%list_elem_of_filter. apply list_elem_of_filter.
  rewrite <- E1, <- E2. split; [done|by apply Hs].
Qed.

Lemma reach_step es t e t' : t_steps t_init es t -> t_step t e t' -> exists es', t_steps t_init es' t'.
Proof. intros H1 H2. exists (es ++ [e]). eapply steps_app; [done|]. eapply steps_cons; [done|constructor]. Qed.

(** A new request is tracked above what is closed. *)
Lemma track_request b wts minTS ts :
  ts_wf (assignedClosedTimestamp b) -> TrackEvaluatingRequest b wts = Ok (minTS, ts) ->
  lt_ts (assignedClosedTimestamp b) minTS /\ le_ts minTS ts /\ le_ts wts ts.
Proof.
  intros Hw. unfold TrackEvaluatingRequest. intros (m & Em & [= -> <-])%res_bind_inv.
  pose proof (Next_spec _ Hw) as N. rewrite Em in N. pose proof (Forward_spec wts minTS) as F.
  destruct (Timestamp_Forward wts minTS) as [r mv]. cbn. tauto.
Qed.

Lemma sys_inv_step s e s' : sys_inv s -> sys_step s e s' -> sys_inv s'.
Proof.
  intros [[es Hr] Hw He0 Ha] H.
  destruct H as [s id wts minTS ts t Et Ht|s t Ht|s id t Ht|s isLease upper target b lai closed Hp Hu Htg E
    |s target b moved Hp Htg E|s owned closed lai Hp Hc].
  - destruct (t_law_track _ _ _ _ _ Hr Ht) as (L1 & L2 & _ & Hid). split; cbn.
    + by eapply reach_step.
    + done.
    + intros i. unfold set_epoch. destruct (_ =? id)%nat; [done|apply He0].
    + intros r [He Hin]%list_elem_of_filter. cbn in He, Hin. rewrite L1, L2 in Hin. unfold set_epoch in He.
      destruct (track_request _ _ _ _ Hw Et) as (T1 & T2 & _).
      assert (r = (id, ts) \/ r ∈ t_pending (evalTracker (pb s)) ++ t_tracked (evalTracker (pb s))) as [->|Hin'] by set_solver.
      * cbn. unfold lt_ts, le_ts in *. ts.
      * apply Ha. apply list_elem_of_filter. split; [|done].
        destruct (Nat.eqb_spec r.1 id) as [E|]; [|done]. destruct Hid. rewrite <- E. by apply list_elem_of_fmap_2.
  - destruct (t_law_tau _ _ _ Hr Ht) as [L _]. split; cbn; [by eapply reach_step|done|done|].
    intros r Hin. apply Ha. eapply evaluating_sub; [..|exact Hin]; [done..|]. cbn. by rewrite L.
  - destruct (t_law_untrack _ _ _ _ Hr Ht) as (L1 & L2 & ts & L). split; cbn; [by eapply reach_step|done|done|].
    intros r Hin. apply Ha. eapply evaluating_sub; [..|exact Hin]; [done..|]. cbn. rewrite L1, L2, L. set_solver.
  - destruct isLease.
    { injection E as <- _ _. by split; [exists es| | |]. }
    destruct (allocate_spec (pb s) upper target es Hr Hp Hu Htg Hw)
      as (b' & lai' & closed' & E' & A1 & _ & _ & A4 & _ & A6 & _ & A8).
    rewrite E in E'. injection E' as <- <- <-. split; cbn; [rewrite A1; eauto|by rewrite A4|done|].
    intros r Hin. rewrite A4. pose proof Hin as [He Hin']%list_elem_of_filter. cbn in He, Hin'. rewrite A1 in Hin'.
    destruct (A8 r Hin') as [?|A9]; [done|]. eapply EqOrdering_lt; [exact A9|]. apply Ha. by apply list_elem_of_filter.
  - assert (sys_inv (MkSys b (cur s) (epoch s))) as X; [|exact X].
    unfold MaybeForwardClosedLocked in E. destruct (_ && _) eqn:Eb; [injection E as <- _; by split; [exists es| | |]|].
    apply forward_closed in E as (F1 & _ & _ & _ & _ & _ & _ & F7 & F8).
    split; cbn; [rewrite F1; eauto|by apply F7|done|]. intros r [He Hin]%list_elem_of_filter. cbn in He, Hin.
    rewrite F1 in Hin. apply F8; [apply Ha; by apply list_elem_of_filter|].
    eapply bound_below; [exact Hr|exact Hp| |exact Hin]. intros Ee. rewrite Ee in Eb. cbn in Eb.
    rewrite LessEq_negb in Eb. by apply negb_false_iff in Eb.
  - assert (evalTracker (OnLeaseChangeLocked (pb s) owned closed lai) = evalTracker (pb s) /\
      ts_wf (assignedClosedTimestamp (OnLeaseChangeLocked (pb s) owned closed lai))) as [Et Ew].
    { unfold OnLeaseChangeLocked. destruct owned; [|done].
      destruct (forwardClosedTimestampLocked (pb s) closed) as [b mv] eqn:F.
      apply forward_closed in F as (F1 & _ & _ & _ & _ & _ & _ & F7 & _).
      unfold forwardAssignedLAILocked. destruct (_ <? lai); cbn; auto. }
    split; cbn; [rewrite Et; eauto|done|intros i; specialize (He0 i); lia|].
    intros r [He _]%list_elem_of_filter. cbn in He. specialize (He0 r.1). lia.
Qed.

Lemma sys_inv_init lai : sys_inv (sys_init lai).
Proof.
  split; cbn; [exists []; constructor|done|lia|]. intros r [_ Hr]%list_elem_of_filter. cbn in Hr.
  destruct t_law_init as [E1 E2]. rewrite E1, E2 in Hr. by apply elem_of_nil in Hr.
Qed.

Lemma sys_inv_steps s es s' : sys_inv s -> sys_steps s es s' -> sys_inv s'.
Proof. intros I H. induction H; [done|]. apply IHsys_steps. by eapply sys_inv_step. Qed.

Definition not_lease (e : sys_event) : Prop := match e with SLease _ => False | _ => True end.

(** Under one lease the closed timestamp does not go back. *)
Lemma closed_mono s e s' :
  sys_inv s -> sys_step s e s' -> not_lease e ->
  le_ts (assignedClosedTimestamp (pb s)) (assignedClosedTimestamp (pb s')) /\ cur s' = cur s.
Proof.
  intros [[es Hr] Hw _ _] H Hn.
  destruct H as [s id wts minTS ts t Et Ht|s t Ht|s id t Ht|s isLease upper target b lai closed Hp Hu Htg E
    |s target b moved Hp Htg E|]; cbn; [split; [apply le_ts_refl|done]..| | |done].
  - split; [|done]. destruct isLease; [injection E as <- _ _; apply le_ts_refl|].
    destruct (allocate_spec (pb s) upper target es Hr Hp Hu Htg Hw)
      as (b' & lai' & closed' & E' & _ & _ & _ & A4 & A5 & _).
    rewrite E in E'. injection E' as <- <- <-. by rewrite A4.
  - split; [|done]. unfold MaybeForwardClosedLocked in E.
    destruct (_ && _); [injection E as <- _; apply le_ts_refl|]. by apply forward_closed in E as (_ & _ & ? & _).
Qed.

Lemma closed_mono_steps s es s' :
  sys_inv s -> sys_steps s es s' -> Forall not_lease es ->
  le_ts (assignedClosedTimestamp (pb s)) (assignedClosedTimestamp (pb s')) /\ cur s' = cur s.
Proof.
  intros I H. induction H as [|s e s1 es s2 H1 H2 IH]; [split; [apply le_ts_refl|done]|].
  intros [Hn Hns]%Forall_cons. destruct (closed_mono _ _ _ I H1 Hn) as [L1 E1].
  destruct IH as [L2 E2]; [by eapply sys_inv_step|done|]. split; [by eapply le_ts_trans|congruence].
Qed.

(** What an event closes, when it does. *)
Definition closes (e : sys_event) : option Timestamp :=
  match e with
  | SPropose false _ closed => Some closed
  | SSide target true => Some target
  | _ => None
  end.

Lemma closes_assigned s e s' c :
  sys_inv s -> sys_step s e s' -> closes e = Some c -> assignedClosedTimestamp (pb s') = c.
Proof.
  intros [[es Hr] Hw _ _] H Hc.
  destruct H as [| | |s isLease upper target b lai closed Hp Hu Htg E|s target b moved Hp Htg E|]; try done; cbn in Hc.
  - destruct isLease; [done|]. injection Hc as ->.
    destruct (allocate_spec (pb s) upper target es Hr Hp Hu Htg Hw)
      as (b' & lai' & closed' & E' & _ & _ & _ & A4 & _).
    rewrite E in E'. by injection E' as <- <- <-.
  - destruct moved; [|done]. injection Hc as ->. unfold MaybeForwardClosedLocked in E.
    destruct (_ && _); [done|]. apply forward_closed in E as (_ & _ & _ & _ & F5 & _). by apply F5.
Qed.

(** A request that evaluates is above what an event closes, or the event closes nothing new. *)
Lemma newly_closed s e s' c :
  sys_inv s -> sys_step s e s' -> closes e = Some c ->
  t_pending (evalTracker (pb s)) = [] /\ evalTracker (pb s') = evalTracker (pb s) /\
  forall r, r ∈ t_tracked (evalTracker (pb s)) ->
    lt_ts c r.2 \/ Timestamp_EqOrdering c (assignedClosedTimestamp (pb s)) = true.
Proof.
  intros [[es Hr] Hw _ _] H Hc.
  destruct H as [| | |s isLease upper target b lai closed Hp Hu Htg E|s target b moved Hp Htg E|]; try done; cbn in Hc.
  - destruct isLease; [done|]. injection Hc as ->.
    destruct (allocate_spec (pb s) upper target es Hr Hp Hu Htg Hw)
      as (b' & lai' & closed' & E' & A1 & _ & _ & _ & _ & _ & _ & A8).
    rewrite E in E'. injection E' as <- <- <-. rewrite Hp in A8. done.
  - destruct moved; [|done]. injection Hc as ->. unfold MaybeForwardClosedLocked in E.
    destruct (_ && _) eqn:Eb; [done|]. apply forward_closed in E as (F1 & _). split_and!; [done..|].
    intros r Hin. left. eapply bound_below; [exact Hr|exact Hp| |rewrite Hp; exact Hin].
    intros Ee. rewrite Ee in Eb. cbn in Eb. rewrite LessEq_negb in Eb. by apply negb_false_iff in Eb.
Qed.

(** Requests that start under a lease are above what was closed before. *)
Lemma later_requests c s es s' :
  sys_inv s -> sys_steps s es s' -> Forall not_lease es -> le_ts c (assignedClosedTimestamp (pb s)) ->
  forall r, r ∈ t_pending (evalTracker (pb s')) ++ t_tracked (evalTracker (pb s')) ->
  lt_ts c r.2 \/ r ∈ t_pending (evalTracker (pb s)) ++ t_tracked (evalTracker (pb s)).
Proof.
  intros I H. induction H as [|s e s1 es s2 H1 H2 IH]; [by right|]. intros [Hn Hns]%Forall_cons Hc r Hin.
  destruct (closed_mono _ _ _ I H1 Hn) as [L _]. assert (sys_inv s1) as I1 by (by eapply sys_inv_step).
  destruct (IH I1 Hns (le_ts_trans _ _ _ Hc L) r Hin) as [?|Hin1]; [by left|]. clear IH Hin. destruct I as [[es0 Hr] Hw _ _].
  destruct H1 as [s id wts minTS ts t Et Ht|s t Ht|s id t Ht|s isLease upper target b lai closed Hp Hu Htg E
    |s target b moved Hp Htg E|]; cbn in Hin1; [| | | | |done].
  - destruct (t_law_track _ _ _ _ _ Hr Ht) as (L1 & L2 & _ & _). rewrite L1, L2 in Hin1. destruct (track_request _ _ _ _ Hw Et) as (T1 & T2 & _).
    assert (r = (id, ts) \/ r ∈ t_pending (evalTracker (pb s)) ++ t_tracked (evalTracker (pb s))) as [->|?] by set_solver; [left|by right].
    cbn. clear -Hc T1 T2. ts.
  - right. destruct (t_law_tau _ _ _ Hr Ht) as [Lp _]. by rewrite <- Lp.
  - right. destruct (t_law_untrack _ _ _ _ Hr Ht) as (L1 & L2 & ts & Lp). rewrite L1, Lp. rewrite L2 in Hin1. cbn in *. by right.
  - right. destruct isLease; [by injection E as <- _ _|].
    destruct (allocate_spec (pb s) upper target es0 Hr Hp Hu Htg Hw) as (b' & lai' & closed' & E' & A1 & _).
    rewrite E in E'. injection E' as <- <- <-. by rewrite A1 in Hin1.
  - right. unfold MaybeForwardClosedLocked in E. destruct (_ && _); [by injection E as <- _|]. apply forward_closed in E as (F1 & _). by rewrite F1 in Hin1.
Qed.

(** * Theorems *)

(** C12: The promise of closed timestamps.  After a proposal or the side transport has closed a
    timestamp, and for as long as the lease does not change, every request that evaluates,
    whether it started before or starts later, is tracked at a timestamp above it; except that a
    request which started before the last change of the lease, whose proposal has no effect, may
    be at or below it, and then only if nothing new was closed: the timestamp was the assigned
    one already, and at or above the request. *)
Theorem closed_timestamp_promise lai es s e s1 c es' s2 id ts :
  sys_steps (sys_init lai) es s -> sys_step s e s1 -> closes e = Some c ->
  sys_steps s1 es' s2 -> Forall not_lease es' ->
  (id, ts) ∈ t_pending (evalTracker (pb s2)) ++ t_tracked (evalTracker (pb s2)) ->
  lt_ts c ts \/
  (epoch s2 id < cur s2)%nat /\ (id, ts) ∈ t_tracked (evalTracker (pb s)) /\
  le_ts ts (assignedClosedTimestamp (pb s)) /\ Timestamp_EqOrdering c (assignedClosedTimestamp (pb s)) = true.
Proof.
  intros H0 H1 Hc H2 Hn Hin.
  assert (sys_inv s) as I by (eapply sys_inv_steps; [apply sys_inv_init|done]).
  assert (sys_inv s1) as I1 by (by eapply sys_inv_step). assert (sys_inv s2) as I2 by (by eapply sys_inv_steps).
  pose proof (closes_assigned _ _ _ _ I H1 Hc) as Ea. destruct (newly_closed _ _ _ _ I H1 Hc) as (Hp & Et & New).
  destruct (Timestamp_Less c ts) eqn:Ns; [by left|]. right.
  assert (epoch s2 id < cur s2)%nat as Ep.
  { pose proof (si_epoch s2 I2 id). destruct (decide (epoch s2 id = cur s2)) as [He|]; [|lia]. enough (lt_ts c ts) by congruence.
    destruct (closed_mono_steps _ _ _ I1 H2 Hn) as [L _]. rewrite Ea in L. eapply le_lt_ts_trans; [exact L|].
    apply (si_above s2 I2 (id, ts)). by apply list_elem_of_filter. }
  destruct (later_requests c _ _ _ I1 H2 Hn ltac:(rewrite Ea; apply le_ts_refl) _ Hin) as [X|Hin1]; [unfold lt_ts in X; cbn in X; congruence|].
  rewrite Et, Hp in Hin1. cbn in Hin1. destruct (New _ Hin1) as [X|Eq]; [unfold lt_ts in X; cbn in X; congruence|]. split_and!; [done..| |done].
  clear - Ns Eq. unfold le_ts. ts.
Qed.

(** C24: Assigning a closed timestamp never fails in a state that can be reached, whatever the
    tracker's bound: the index is the next one; the closed timestamp does not go back, is at
    most the target and the lease's bound unless it stays as it was, is below every request
    in the tracker that the last one was below of, and reaches the target or the lease's
    bound when no request evaluates. *)
Theorem closed_timestamp_assignment lai0 es s upper target :
  sys_steps (sys_init lai0) es s -> t_pending (evalTracker (pb s)) = [] -> ts_wf upper -> ts_wf target ->
  exists b lai closed,
    allocateLAIAndClosedTimestampLocked (pb s) false upper target = Ok (b, lai, closed) /\
    lai = u64 (assignedLAI (pb s) + 1) /\ assignedLAI b = lai /\ assignedClosedTimestamp b = closed /\
    le_ts (assignedClosedTimestamp (pb s)) closed /\
    (le_ts closed upper /\ le_ts closed target \/
     Timestamp_EqOrdering closed (assignedClosedTimestamp (pb s)) = true) /\
    (forall r, r ∈ t_tracked (evalTracker (pb s)) ->
       lt_ts (assignedClosedTimestamp (pb s)) r.2 -> lt_ts closed r.2) /\
    (t_tracked (evalTracker (pb s)) = [] -> le_ts target closed \/ le_ts upper closed).
Proof.
  intros H Hp Hu Ht. assert (sys_inv s) as [[es' Hr] Hw _ _] by (eapply sys_inv_steps; [apply sys_inv_init|done]).
  destruct (allocate_spec (pb s) upper target es' Hr Hp Hu Ht Hw)
    as (b & lai & closed & E & A1 & A2 & A3 & A4 & A5 & A6 & A7 & A8).
  exists b, lai, closed. split_and!; [done..| |].
  - intros r Hr' Ha. destruct (A8 r) as [?|A9]; [by rewrite Hp|done|by eapply EqOrdering_lt].
  - intros Et. destruct (t_law_bound _ _ Hr Hp) as (L0 & _). specialize (L0 Et).
    unfold allocateLAIAndClosedTimestampLocked in E. cbn [negb evalTracker] in E. rewrite L0 in E. cbn in E.
    destruct (forwardClosedTimestampLocked _ (Timestamp_Backward target upper)) as [b' mv] eqn:F.
    apply forward_closed in F as (_ & _ & _ & F4 & F5 & _). cbn in *. injection E as <- <- E.
    assert (closed = assignedClosedTimestamp b') as -> by (destruct mv; cbn in E; [by rewrite F5|done]).
    destruct (Backward_spec target upper) as (_ & _ & [B|B] & _); [left|right];
      (eapply le_ts_trans; [by apply EqOrdering_le|done]).
Qed.
End PropBuf.

(** * The lock-free tracker behind the buffer *)

Abbreviation lf_sys := (@sys state).

(** A flush closes 100; a request that wants to write at 50 is then tracked above it. *)
Definition demo1 : lf_sys :=
  MkSys (MkPropBuf init_state 8 (MkTimestamp 100 0 false)) 0 (fun _ => 0%nat).
Definition demo2 : lf_sys :=
  MkSys (MkPropBuf (MkState NewLockfreeTracker [MkCall 1 (MkTimestamp 100 1 false) AtTimestamp] []) 8
    (MkTimestamp 100 0 false)) 0 (set_epoch (fun _ => 0%nat) 1 0).

Lemma demo1_step : sys_step (sys_init 7) (SPropose false 8 (MkTimestamp 100 0 false)) demo1.
Proof.
  eapply (sys_propose (sys_init 7) false (MkTimestamp 500 0 false) (MkTimestamp 100 0 false)); done.
Qed.

Lemma demo2_step : sys_step demo1 (SRequest 1 (MkTimestamp 50 0 false) (MkTimestamp 100 1 false)) demo2.
Proof.
  eapply (sys_request demo1 1 (MkTimestamp 50 0 false) _ (MkTimestamp 100 1 false)); [done|].
  apply (step_track init_state); [done|apply not_elem_of_nil|done].
Qed.

Lemma closed_timestamp_promise_witness :
  lt_ts (MkTimestamp 100 0 false) (MkTimestamp 100 1 false).
Proof.
  destruct (closed_timestamp_promise (St := state) 7 [] (sys_init 7)
    (SPropose false 8 (MkTimestamp 100 0 false)) demo1 (MkTimestamp 100 0 false)
    [SRequest 1 (MkTimestamp 50 0 false) (MkTimestamp 100 1 false)] demo2 1 (MkTimestamp 100 1 false)) as [Lt|[Ep _]].
  - constructor.
  - exact demo1_step.
  - reflexivity.
  - eapply sys_cons; [exact demo2_step|constructor].
  - constructor; [exact I|constructor].
  - left.
  - exact Lt.
  - cbn in Ep. lia.
Defined.

Lemma closed_timestamp_assignment_witness :
  exists b lai closed,
    allocateLAIAndClosedTimestampLocked (pb demo1) false (MkTimestamp 500 0 false) (MkTimestamp 90 0 false) =
      Ok (b, lai, closed) /\ le_ts (MkTimestamp 100 0 false) closed.
Proof.
  destruct (closed_timestamp_assignment (St := state) 7 [SPropose false 8 (MkTimestamp 100 0 false)] demo1
    (MkTimestamp 500 0 false) (MkTimestamp 90 0 false)) as (b & lai & closed & E & _ & _ & _ & L & _);
    [eapply sys_cons; [exact demo1_step|constructor]|done|done|done|].
  exists b, lai, closed. split; [exact E|exact L].
Defined.

(** * Tokens of tracked requests *)

(** Copies of one request's token, by whether they are done; and how often the request has
    been removed from the tracker.  [doneIfNotMovedLocked] and [Move] act on one copy. *)
Record TrackedRequestToken := MkTok { tok_done : bool; tok_b : bool }.

Definition doneIfNotMovedLocked (t : TrackedRequestToken) : TrackedRequestToken * bool :=
  if tok_done t then (t, false) else (MkTok true (tok_b t), tok_b t).

Definition stillTracked (t : TrackedRequestToken) : bool := negb (tok_done t).

(** The new token, and the neutered original. *)
Definition Move (t : TrackedRequestToken) : res (TrackedRequestToken * TrackedRequestToken) :=
  if tok_done t then Panic "attempting to Move() after Done() call" else Ok (t, MkTok true (tok_b t)).

Inductive tok_step : list TrackedRequestToken * nat -> list TrackedRequestToken * nat -> Prop :=
| tok_do l1 t l2 n t' u :
    doneIfNotMovedLocked t = (t', u) ->
    tok_step (l1 ++ t :: l2, n) (l1 ++ t' :: l2, (n + if u then 1 else 0)%nat)
| tok_move l1 t l2 n t1 t2 :
    Move t = Ok (t1, t2) -> tok_step (l1 ++ t :: l2, n) (l1 ++ t2 :: l2 ++ [t1], n).

Definition live (l : list TrackedRequestToken) : nat := length (filter (fun t => tok_done t = false) l).

Lemma live_app l1 l2 : live (l1 ++ l2) = (live l1 + live l2)%nat.
Proof. unfold live. by rewrite filter_app, length_app. Qed.

Lemma live_cons t l : live (t :: l) = ((if tok_done t then 0 else 1) + live l)%nat.
Proof. unfold live. rewrite filter_cons. by destruct (tok_done t). Qed.

(** A request is removed from the tracker at most once, however its token is passed on, and
    exactly once when no copy is live. *)
Theorem token_untracks_once l n :
  rtc tok_step ([MkTok false true], 0%nat) (l, n) -> (live l + n = 1)%nat.
Proof.
  intros H. assert (forall x y, rtc tok_step x y -> Forall (fun t => tok_b t = true) x.1 ->
    Forall (fun t => tok_b t = true) y.1 /\ (live y.1 + y.2 = live x.1 + x.2)%nat) as K.
  { clear. intros x y H. induction H as [x|x y z H1 H2 IH]; [done|]. intros F.
    assert (Forall (fun t => tok_b t = true) y.1 /\ (live y.1 + y.2 = live x.1 + x.2)%nat) as [F' E].
    { destruct H1 as [l1 t l2 n t' u E|l1 t l2 n t1 t2 E]; cbn [fst snd] in *;
        apply Forall_app in F as [F1 [F2 F3]%Forall_cons]; rewrite !live_app, !live_cons.
      - unfold doneIfNotMovedLocked in E. destruct (tok_done t) eqn:Ed; injection E as <- <-; cbn [tok_done].
        + rewrite Ed. split; [|lia]. apply Forall_app. split; [done|by constructor].
        + rewrite F2. split; [|lia]. apply Forall_app. split; [done|by constructor].
      - unfold Move in E. destruct (tok_done t) eqn:Ed; [done|]. injection E as <- <-. cbn [tok_done].
        rewrite live_app, live_cons, Ed. change (live []) with 0%nat. split; [|lia].
        apply Forall_app. split; [done|]. constructor; [done|]. apply Forall_app. split; [done|by repeat constructor]. }
    destruct (IH F') as [? E']. split; [done|lia]. }
  destruct (K _ _ H) as [_ E]; [by repeat constructor|]. exact E.
Qed.

(** * The array of the buffer *)

Abbreviation propBufArrayMinSize := 4.
Abbreviation propBufArrayMaxSize := 256.
Abbreviation propBufArrayShrinkDelay := 16.

(** [large] by its length. *)
Record propBufArray := MkArray { large : option Z; shrink : Z }.

Definition array_len (a : propBufArray) : Z := default propBufArrayMinSize (large a).

Definition adjustSize (a : propBufArray) (used : Z) : propBufArray :=
  let cur := array_len a in
  if used <=? cur / 4 then
    if cur <=? propBufArrayMinSize then a
    else
      let shrink := shrink a + 1 in
      if shrink =? propBufArrayShrinkDelay then
        let next := cur / 2 in
        if next <=? propBufArrayMinSize then MkArray None 0 else MkArray (Some next) 0
      else MkArray (large a) shrink
  else if cur <=? used then
    let next := 2 * cur in
    if next <=? propBufArrayMaxSize then MkArray (Some next) 0 else MkArray (large a) 0
  else MkArray (large a) 0.

Definition array_ok (a : propBufArray) : Prop :=
  array_len a ∈ [4; 8; 16; 32; 64; 128; 256] /\ 0 <= shrink a < propBufArrayShrinkDelay /\
  (array_len a = propBufArrayMinSize -> shrink a = 0).

Lemma array_ok_make n s :
  default propBufArrayMinSize n ∈ [4; 8; 16; 32; 64; 128; 256] -> 0 <= s < propBufArrayShrinkDelay ->
  (default propBufArrayMinSize n = propBufArrayMinSize -> s = 0) -> array_ok (MkArray n s).
Proof. unfold array_ok. cbn. auto. Qed.

(** The array's length stays a power of two from 4 to 256, at most doubles or halves, and
    halves only after the delay. *)
Theorem adjustSize_bounds a used :
  array_ok a -> 0 <= used ->
  array_ok (adjustSize a used) /\
  (array_len (adjustSize a used) = array_len a \/
   array_len (adjustSize a used) = 2 * array_len a /\ array_len a <= used \/
   2 * array_len (adjustSize a used) = array_len a /\ used <= array_len a / 4 /\
     shrink a = propBufArrayShrinkDelay - 1).
Proof.
  destruct a as [lg sh]. intros (Hl & Hs & Hm) Hu. unfold adjustSize, array_len in *. cbn [large shrink] in *. set (len := default propBufArrayMinSize lg) in *.
  assert (array_ok (MkArray lg 0)) as Z_ok by (apply array_ok_make; [done|lia|done]).
  assert (len = 4 \/ len = 8 \/ len = 16 \/ len = 32 \/ len = 64 \/ len = 128 \/ len = 256) as C
    by (apply list_elem_of_In in Hl; cbn in Hl; intuition lia).
  destruct (Z.leb_spec used (len / 4)).
  - destruct (Z.leb_spec len propBufArrayMinSize); [split; [by apply array_ok_make|by left]|].
    destruct (Z.eqb_spec (sh + 1) propBufArrayShrinkDelay).
    + assert (2 * (len / 2) = len /\ (len / 2 <= propBufArrayMinSize -> len = 8) /\
        len / 2 ∈ [4; 8; 16; 32; 64; 128; 256]) as (E1 & E2 & E3).
      { destruct C as [->|[->|[->|[->|[->|[->| ->]]]]]]; [lia|..]; 
          (split; [done|split; [intros X; first [done|by destruct X]|apply list_elem_of_In; cbn; auto 10]]). }
      destruct (Z.leb_spec (len / 2) propBufArrayMinSize).
      * split; [apply array_ok_make; [by left|lia|done]|]. right; right. cbn. lia.
      * split; [by apply array_ok_make; [done|lia|]|]. right; right. cbn. lia.
    + split; [|by left]. apply array_ok_make; [done|lia|]. fold len. lia.
  - destruct (Z.leb_spec len used); [|split; [done|by left]].
    destruct (Z.leb_spec (2 * len) propBufArrayMaxSize); [|split; [done|by left]].
    split; [|right; left; cbn; lia]. apply array_ok_make; [|lia|done]. cbn [default id from_option].
    destruct C as [->|[->|[->|[->|[->|[->| ->]]]]]]; [apply list_elem_of_In; cbn; auto 10..|lia].
Qed.
