(* ===== verification/Ring.v ===== *)
(** The ring buffer (src/pkg/util/ring/ring_buffer.go).

    A queue with two ends over a slice that is used cyclically and grows by doubling.  The
    file shows that it implements lists: each operation refines the list operation, and it
    panics exactly where the list has no element.  It also shows that the capacity of the
    scratch space is counted but not usable. *)
From S2P Require Import Prelude.

Section Ring.
Context {T : Type} (zero : T).

(** [buffer] is the slice's elements, [bcap] its capacity. *)
Record Buffer := MkBuffer {
  buffer : list T;
  bcap : nat;
  head : nat;
  tail : nat;
  nonEmpty : bool
}.

Definition MakeBuffer (scratch : list T) (scratchCap : nat) : Buffer := MkBuffer scratch scratchCap 0 0 false.

Definition index (l : list T) (i : nat) : res T :=
  match l !! i with Some x => Ok x | None => Panic "index out of range" end.
Definition store (l : list T) (i : nat) (x : T) : res (list T) :=
  if (i <? length l)%nat then Ok (<[i := x]> l) else Panic "index out of range".

(** [copy(dst[i:], src)]. *)
Definition copy_to (dst : list T) (i : nat) (src : list T) : list T :=
  take i dst ++ take (length dst - i) src ++ drop (i + length src) dst.

Definition Buffer_Len (r : Buffer) : nat :=
  if negb (nonEmpty r) then 0
  else if (head r <? tail r)%nat then tail r - head r
  else if (head r =? tail r)%nat then bcap r
  else bcap r + tail r - head r.

Definition Buffer_Cap (r : Buffer) : nat := bcap r.

Definition Buffer_Get (r : Buffer) (pos : Z) : res T :=
  if negb (nonEmpty r) || (pos <? 0) || (Z.of_nat (Buffer_Len r) <=? pos) then Panic "index out of bounds"
  else index (buffer r) ((Z.to_nat pos + head r) mod bcap r).

Definition Buffer_GetFirst (r : Buffer) : res T :=
  if negb (nonEmpty r) then Panic "getting first from empty ring buffer"
  else index (buffer r) (head r).

Definition Buffer_GetLast (r : Buffer) : res T :=
  if negb (nonEmpty r) then Panic "getting last from empty ring buffer"
  else index (buffer r) ((bcap r + tail r - 1) mod bcap r).

Definition Buffer_copyTo (r : Buffer) (dst : list T) : list T :=
  if negb (nonEmpty r) then dst
  else if (head r <? tail r)%nat then copy_to dst 0 (take (tail r - head r) (drop (head r) (buffer r)))
  else
    let tailElements := drop (head r) (buffer r) in
    let dst := copy_to dst 0 tailElements in
    if (length tailElements <? length dst)%nat
    then copy_to dst (bcap r - head r) (take (tail r) (buffer r))
    else dst.

Definition Buffer_Discard (r : Buffer) : Buffer := MkBuffer [] 0 0 0 false.

Definition Buffer_resize (r : Buffer) (n : nat) : res Buffer :=
  if (n <? Buffer_Len r)%nat then Panic "resizing to fewer elements than current length"
  else if (n =? 0)%nat then Ok (Buffer_Discard r)
  else
    let newBuffer := Buffer_copyTo r (replicate n zero) in
    Ok (MkBuffer newBuffer n 0 (Buffer_Len r mod n) (nonEmpty r)).

Definition Buffer_maybeGrow (r : Buffer) : res Buffer :=
  if negb (Buffer_Len r =? bcap r)%nat then Ok r
  else
    let n := (2 * bcap r)%nat in
    Buffer_resize r (if (n =? 0)%nat then 1%nat else n).

Definition Buffer_AddFirst (r : Buffer) (element : T) : res Buffer :=
  r ← Buffer_maybeGrow r;
  let h := ((bcap r + head r - 1) mod bcap r)%nat in
  b ← store (buffer r) h element;
  Ok (MkBuffer b (bcap r) h (tail r) true).

Definition Buffer_AddLast (r : Buffer) (element : T) : res Buffer :=
  r ← Buffer_maybeGrow r;
  b ← store (buffer r) (tail r) element;
  Ok (MkBuffer b (bcap r) (head r) ((tail r + 1) mod bcap r) true).

Definition Buffer_RemoveFirst (r : Buffer) : res Buffer :=
  if (Buffer_Len r =? 0)%nat then Panic "removing first from empty ring buffer"
  else
    b ← store (buffer r) (head r) zero;
    let h := ((head r + 1) mod bcap r)%nat in
    Ok (MkBuffer b (bcap r) h (tail r) (if (h =? tail r)%nat then false else nonEmpty r)).

Definition Buffer_RemoveLast (r : Buffer) : res Buffer :=
  if (Buffer_Len r =? 0)%nat then Panic "removing last from empty ring buffer"
  else
    let lastPos := ((bcap r + tail r - 1) mod bcap r)%nat in
    b ← store (buffer r) lastPos zero;
    Ok (MkBuffer b (bcap r) (head r) lastPos (if (lastPos =? head r)%nat then false else nonEmpty r)).

Definition Buffer_Reserve (r : Buffer) (n : Z) : res Buffer :=
  if n <? Z.of_nat (Buffer_Len r) then Panic "reserving fewer elements than current length"
  else if Z.of_nat (bcap r) <? n then Buffer_resize r (Z.to_nat n) else Ok r.

Definition Buffer_Resize (r : Buffer) (n : Z) : res Buffer :=
  if n <? Z.of_nat (Buffer_Len r) then Panic "resizing to fewer elements than current length"
  else if negb (n =? Z.of_nat (bcap r)) then Buffer_resize r (Z.to_nat n) else Ok r.

Definition Buffer_Reset (r : Buffer) : Buffer := MkBuffer (buffer r) (bcap r) 0 0 false.

Definition Buffer_all (r : Buffer) : list T := Buffer_copyTo r (replicate (Buffer_Len r) zero).

(** * The list a buffer stands for *)

Definition at_ (r : Buffer) (i : nat) : T := nth ((head r + i) mod bcap r) (buffer r) zero.
Definition elements (r : Buffer) : list T := at_ r <$> seq 0 (Buffer_Len r).

Record Wf (r : Buffer) : Prop := {
  wf_cap : length (buffer r) = bcap r;
  wf_ends : if nonEmpty r then (head r < bcap r /\ tail r < bcap r)%nat else head r = tail r;
  wf_head : (head r < bcap r \/ bcap r = 0 /\ head r = 0)%nat
}.

Lemma mod_wrap a c : (a < 2 * c)%nat -> (a mod c = if a <? c then a else a - c)%nat.
Proof.
  intros H. destruct (Nat.ltb_spec a c); [by apply Nat.mod_small|].
  rewrite (Nat.Div0.mod_eq a c). assert (a / c = 1)%nat as ->; [|lia].
  symmetry. apply (Nat.div_unique a c 1 (a - c)); lia.
Qed.

(** Decides the comparisons of indices. *)
Ltac cases :=
  repeat match goal with
    | |- context [(?a <? ?b)%nat] => destruct (Nat.ltb_spec a b)
    | |- context [(?a =? ?b)%nat] => destruct (Nat.eqb_spec a b)
    | H : context [(?a <? ?b)%nat] |- _ => destruct (Nat.ltb_spec a b)
    | H : context [(?a =? ?b)%nat] |- _ => destruct (Nat.eqb_spec a b)
    end.

Lemma Len_le r : Wf r -> (Buffer_Len r <= bcap r)%nat.
Proof. intros [_ He _]. unfold Buffer_Len. destruct (nonEmpty r); cbn [negb]; [|lia]. cases; lia. Qed.

(** The tail is where the next element goes. *)
Lemma tail_at r : Wf r -> (0 < bcap r)%nat -> tail r = ((head r + Buffer_Len r) mod bcap r)%nat.
Proof.
  intros W Hc. pose proof (Len_le r W). destruct W as [_ He Hh]. rewrite mod_wrap by lia.
  unfold Buffer_Len in *. destruct (nonEmpty r); cbn [negb] in *; cases; lia.
Qed.

Lemma Len_of r n :
  Wf r -> (0 < n <= bcap r)%nat -> tail r = ((head r + n) mod bcap r)%nat -> nonEmpty r = true -> Buffer_Len r = n.
Proof.
  intros [_ He _] Hn Et En. unfold Buffer_Len. rewrite En in *. cbn [negb].
  rewrite mod_wrap in Et by lia. cases; lia.
Qed.

Lemma nonEmpty_Len r : Wf r -> nonEmpty r = negb (Buffer_Len r =? 0)%nat.
Proof.
  intros [_ He _]. unfold Buffer_Len. destruct (nonEmpty r); cbn [negb]; [|done].
  cases; try done; lia.
Qed.

Lemma elements_length r : length (elements r) = Buffer_Len r.
Proof. unfold elements. by rewrite length_fmap, length_seq. Qed.

Lemma elements_lookup r i : (i < Buffer_Len r)%nat -> elements r !! i = Some (at_ r i).
Proof. intros H. unfold elements. by rewrite list_lookup_fmap, lookup_seq_lt. Qed.

(** A list is the buffer's if its length and its elements are. *)
Lemma elements_ext r l :
  length l = Buffer_Len r -> (forall i, (i < length l)%nat -> l !! i = Some (at_ r i)) -> elements r = l.
Proof.
  intros L H. apply list_eq. intros i. destruct (decide (i < length l)%nat).
  - rewrite H by done. apply elements_lookup. lia.
  - rewrite !lookup_ge_None_2; [done|lia|rewrite elements_length; lia].
Qed.

Lemma at_slot r i : Wf r -> (i < bcap r)%nat -> buffer r !! ((head r + i) mod bcap r)%nat = Some (at_ r i).
Proof.
  intros W Hi. unfold at_. pose proof (wf_cap r W).
  pose proof (Nat.mod_upper_bound (head r + i) (bcap r)).
  destruct (nth_lookup_or_length (buffer r) ((head r + i) mod bcap r) zero); [done|lia].
Qed.

Lemma store_ok l i x : (i < length l)%nat -> store l i x = Ok (<[i := x]> l).
Proof. intros H. unfold store. by apply Nat.ltb_lt in H as ->. Qed.

Lemma nth_insert (l : list T) i j x :
  (j < length l)%nat -> nth i (<[j := x]> l) zero = if (i =? j)%nat then x else nth i l zero.
Proof.
  intros H. rewrite !nth_lookup. destruct (Nat.eqb_spec i j) as [->|N].
  - by rewrite list_lookup_insert_eq.
  - by rewrite list_lookup_insert_ne.
Qed.

(** The elements as the two pieces of the slice they lie in. *)
Lemma elements_slices r :
  Wf r -> nonEmpty r = true ->
  elements r = if (head r <? tail r)%nat then take (tail r - head r) (drop (head r) (buffer r))
               else drop (head r) (buffer r) ++ take (tail r) (buffer r).
Proof.
  intros W En. pose proof (wf_cap r W) as Hc. pose proof (wf_ends r W) as He. rewrite En in He.
  assert (EL : Buffer_Len r = if (head r <? tail r)%nat then (tail r - head r)%nat else (bcap r + tail r - head r)%nat)
    by (unfold Buffer_Len; rewrite En; cbn [negb]; cases; lia).
  apply elements_ext.
  - rewrite EL. cases; rewrite ?length_app, ?length_take, ?length_drop; lia.
  - intros i. destruct (Nat.ltb_spec (head r) (tail r)); rewrite ?length_app, !length_take, !length_drop; intros Hi.
    + rewrite <- (at_slot r i W), mod_wrap by lia. rewrite lookup_take_lt, lookup_drop by lia. cases; [done|lia].
    + rewrite <- (at_slot r i W), mod_wrap by lia. cases.
      * rewrite lookup_app_l, lookup_drop by (rewrite length_drop; lia). done.
      * rewrite lookup_app_r, length_drop, lookup_take_lt by (rewrite ?length_drop; lia). f_equal. lia.
Qed.

Lemma copy_to_0 (dst src : list T) : copy_to dst 0 src = take (length dst) src ++ drop (length src) dst.
Proof. unfold copy_to. by rewrite Nat.sub_0_r. Qed.

(** [copyTo] writes the elements that fit and leaves the rest of the destination. *)
Lemma copyTo_elements r dst :
  Wf r -> Buffer_copyTo r dst = take (length dst) (elements r) ++ drop (Buffer_Len r) dst.
Proof.
  intros W. rewrite <- elements_length. unfold Buffer_copyTo. destruct (nonEmpty r) eqn:En; cbn [negb].
  2:{ assert (elements r = []) as -> by (apply nil_length_inv; rewrite elements_length; unfold Buffer_Len; by rewrite En).
      by rewrite take_nil. }
  rewrite elements_slices by done. destruct (Nat.ltb_spec (head r) (tail r)); [apply copy_to_0|]. cbv zeta.
  rewrite !copy_to_0. set (tl := drop (head r) (buffer r)). set (hd := take (tail r) (buffer r)).
  assert (Ltl : (bcap r - head r)%nat = length tl) by (unfold tl; rewrite length_drop, (wf_cap r W); lia). rewrite Ltl.
  assert (length (take (length dst) tl ++ drop (length tl) dst) = length dst) as ->
    by (rewrite length_app, length_take, length_drop; lia).
  destruct (Nat.ltb_spec (length tl) (length dst)).
  - rewrite (take_ge tl) by lia. unfold copy_to.
    rewrite take_app_length, !length_app, length_drop, take_app, (take_ge tl) by lia.
    rewrite drop_app, (drop_ge tl), drop_drop by lia. cbn [app]. rewrite <- app_assoc.
    do 3 f_equal; lia.
  - rewrite length_app, !drop_ge, !app_nil_r, take_app_le by lia. done.
Qed.

(** * The specification: operations on lists *)

Inductive op :=
  | OpAddFirst (x : T) | OpAddLast (x : T) | OpRemoveFirst | OpRemoveLast
  | OpReserve (n : Z) | OpResize (n : Z) | OpReset | OpDiscard.

Definition ring_op (r : Buffer) (o : op) : res Buffer :=
  match o with
  | OpAddFirst x => Buffer_AddFirst r x
  | OpAddLast x => Buffer_AddLast r x
  | OpRemoveFirst => Buffer_RemoveFirst r
  | OpRemoveLast => Buffer_RemoveLast r
  | OpReserve n => Buffer_Reserve r n
  | OpResize n => Buffer_Resize r n
  | OpReset => Ok (Buffer_Reset r)
  | OpDiscard => Ok (Buffer_Discard r)
  end.

(** [None] where the operation is illegal. *)
Definition list_op (l : list T) (o : op) : option (list T) :=
  match o with
  | OpAddFirst x => Some (x :: l)
  | OpAddLast x => Some (l ++ [x])
  | OpRemoveFirst => match l with [] => None | _ :: l => Some l end
  | OpRemoveLast => match l with [] => None | _ => Some (removelast l) end
  | OpReserve n | OpResize n => if n <? Z.of_nat (length l) then None else Some l
  | OpReset | OpDiscard => Some []
  end.

Fixpoint ring_run (r : Buffer) (ops : list op) : res Buffer :=
  match ops with [] => Ok r | o :: ops => r ← ring_op r o; ring_run r ops end.
Fixpoint list_run (l : list T) (ops : list op) : option (list T) :=
  match ops with [] => Some l | o :: ops => match list_op l o with Some l => list_run l ops | None => None end end.

Definition implements (b : res Buffer) (l : option (list T)) : Prop :=
  match l with
  | Some l => exists r, b = Ok r /\ Wf r /\ elements r = l
  | None => exists m, b = Panic m
  end.

Lemma empty_Wf buf : Wf (MkBuffer buf (length buf) 0 0 false).
Proof. split; cbn; lia. Qed.

Lemma resize_implements r n :
  Wf r -> implements (Buffer_resize r n) (if (n <? Buffer_Len r)%nat then None else Some (elements r)).
Proof.
  intros W. unfold Buffer_resize. destruct (Nat.ltb_spec n (Buffer_Len r)); [by eexists|].
  pose proof (nonEmpty_Len r W) as En. destruct (Nat.eqb_spec n 0) as [->|Hn].
  { eexists; split; [done|]. split; [apply (empty_Wf [])|]. symmetry. apply nil_length_inv. rewrite elements_length. lia. }
  set (r' := MkBuffer _ _ _ _ _).
  assert (Eb : buffer r' = elements r ++ replicate (n - Buffer_Len r) zero).
  { unfold r'. cbn [buffer]. rewrite copyTo_elements, length_replicate, take_ge, drop_replicate
      by (done || rewrite elements_length; lia). done. }
  assert (W' : Wf r').
  { split; [rewrite Eb, length_app, elements_length, length_replicate; cbn; lia| |cbn; lia].
    unfold r'. cbn [nonEmpty head tail bcap]. pose proof (Nat.mod_upper_bound (Buffer_Len r) n).
    rewrite En. destruct (Nat.eqb_spec (Buffer_Len r) 0) as [->|]; cbn [negb]; [by rewrite Nat.Div0.mod_0_l|lia]. }
  assert (EL : Buffer_Len r' = Buffer_Len r).
  { destruct (decide (Buffer_Len r = 0)%nat) as [Z|Z].
    - rewrite Z. unfold Buffer_Len, r'. cbn [nonEmpty]. by rewrite En, Z.
    - apply Len_of; [done|cbn; lia|done|]. unfold r'. cbn [nonEmpty]. rewrite En.
      by destruct (Nat.eqb_spec (Buffer_Len r) 0). }
  exists r'. split; [done|]. split; [done|]. apply elements_ext; rewrite elements_length; [done|].
  intros i Hi. rewrite <- (at_slot r' i W') by (cbn; lia). rewrite Eb. cbn [head bcap r' Nat.add].
  rewrite Nat.mod_small, lookup_app_l by (rewrite ?elements_length; lia). done.
Qed.

Lemma resize_fits r n : Wf r -> (Buffer_Len r <= n)%nat -> implements (Buffer_resize r n) (Some (elements r)).
Proof. intros W L. pose proof (resize_implements r n W) as R. by apply Nat.ltb_ge in L as E; rewrite E in R. Qed.

(** After [maybeGrow] there is room for one more element. *)
Lemma maybeGrow_room r :
  Wf r -> exists r', Buffer_maybeGrow r = Ok r' /\ Wf r' /\ elements r' = elements r /\ (Buffer_Len r' < bcap r')%nat.
Proof.
  intros W. unfold Buffer_maybeGrow. pose proof (Len_le r W).
  destruct (Nat.eqb_spec (Buffer_Len r) (bcap r)) as [E|N]; cbn [negb]; [|exists r; repeat split; (done || apply W || lia)].
  cbv zeta. set (n := if (2 * bcap r =? 0)%nat then 1%nat else (2 * bcap r)%nat). assert (Hn : (Buffer_Len r < n)%nat) by (unfold n; cases; lia).
  pose proof (resize_implements r n W) as R. destruct (Nat.ltb_spec n (Buffer_Len r)); [lia|].
  destruct R as (r' & E' & W' & El). exists r'. do 3 (split; [done|]).
  rewrite <- elements_length, El, elements_length.
  revert E'. unfold Buffer_resize. cases; try lia. intros [= <-]. cbn. lia.
Qed.

(** A buffer is well formed and holds [l] when its indices span [l] and the slots hold it. *)
Lemma holds b c h t ne l :
  length b = c -> (h < c)%nat -> (length l <= c)%nat -> t = ((h + length l) mod c)%nat ->
  ne = negb (length l =? 0)%nat ->
  (forall i, (i < length l)%nat -> l !! i = Some (nth ((h + i) mod c) b zero)) ->
  Wf (MkBuffer b c h t ne) /\ elements (MkBuffer b c h t ne) = l.
Proof.
  intros Hb Hh Hl Ht Hne Hat. set (r := MkBuffer b c h t ne).
  pose proof (Nat.mod_upper_bound (h + length l) c ltac:(lia)).
  assert (W : Wf r).
  { split; [done| |left; done]. cbn [nonEmpty head tail bcap r]. rewrite Hne, Ht.
    destruct (Nat.eqb_spec (length l) 0) as [->|]; cbn [negb]; [|lia]. by rewrite Nat.add_0_r, Nat.mod_small. }
  split; [done|]. apply elements_ext; [|exact Hat].
  destruct (Nat.eqb_spec (length l) 0) as [Z|]; cbn [negb] in Hne.
  - unfold Buffer_Len, r. cbn [nonEmpty]. by rewrite Hne, Z.
  - symmetry. apply Len_of; [done|cbn; lia|done|done].
Qed.

Lemma elements_nth r i : (i < Buffer_Len r)%nat -> elements r !! i = Some (nth ((head r + i) mod bcap r) (buffer r) zero).
Proof. apply elements_lookup. Qed.

Lemma RemoveFirst_implements r : Wf r -> implements (Buffer_RemoveFirst r) (list_op (elements r) OpRemoveFirst).
Proof.
  intros W. unfold Buffer_RemoveFirst. pose proof (Len_le r W). pose proof (elements_length r) as EL.
  destruct (Nat.eqb_spec (Buffer_Len r) 0) as [Z|N].
  { rewrite Z in EL. apply nil_length_inv in EL. rewrite EL. by eexists. }
  pose proof (tail_at r W ltac:(lia)) as Et. pose proof (nonEmpty_Len r W) as En. pose proof (elements_nth r) as Ei.
  destruct (elements r) as [|x l] eqn:El; [done|]. cbn [length] in EL. rewrite <- EL in *. clear EL El.
  destruct W as [Hc _ Hh]. rewrite store_ok by lia. cbn. eexists. split; [done|].
  rewrite mod_wrap in Et by lia. apply holds.
  - by rewrite length_insert.
  - apply Nat.mod_upper_bound. lia.
  - lia.
  - rewrite Et, !mod_wrap by (rewrite ?mod_wrap by lia; cases; lia). cases; lia.
  - rewrite En, Et, mod_wrap by lia. cbn [negb Nat.eqb]. cases; (done || lia).
  - intros i Hi. specialize (Ei (S i) ltac:(lia)). change (l !! i = Some (nth ((head r + S i) mod bcap r) (buffer r) zero)) in Ei. rewrite Ei. f_equal.
    assert (E : (((head r + 1) mod bcap r + i) mod bcap r = (head r + S i) mod bcap r)%nat)
      by (rewrite Nat.Div0.add_mod_idemp_l; f_equal; lia).
    rewrite E, nth_insert by lia. rewrite mod_wrap by lia. cases; lia || done.
Qed.

Lemma RemoveLast_implements r : Wf r -> implements (Buffer_RemoveLast r) (list_op (elements r) OpRemoveLast).
Proof.
  intros W. unfold Buffer_RemoveLast. pose proof (Len_le r W). pose proof (elements_length r) as EL.
  destruct (Nat.eqb_spec (Buffer_Len r) 0) as [Z|N].
  { rewrite Z in EL. apply nil_length_inv in EL. rewrite EL. by eexists. }
  pose proof (tail_at r W ltac:(lia)) as Et. pose proof (nonEmpty_Len r W) as En. pose proof (elements_nth r) as Ei.
  destruct (exists_last (l := elements r)) as (l & x & El); [by intros E; rewrite E in EL|].
  rewrite El in *. rewrite length_app in EL. cbn [length] in EL. rewrite <- EL in *. clear EL El.
  destruct W as [Hc _ Hh]. rewrite mod_wrap in Et by lia.
  set (lp := ((bcap r + tail r - 1) mod bcap r)%nat).
  assert (Elp : lp = ((head r + length l) mod bcap r)%nat)
    by (unfold lp; rewrite Et, !mod_wrap by (cases; lia); cases; lia).
  assert (lp < bcap r)%nat by (apply Nat.mod_upper_bound; lia).
  rewrite store_ok by lia. cbn [mbind res_bind list_op].
  replace (match l ++ [x] with [] => None | _ => Some (removelast (l ++ [x])) end) with (Some l)
    by (rewrite removelast_last; by destruct l).
  eexists. split; [done|]. apply holds; [by rewrite length_insert|lia|lia|done| |].
  - rewrite En, Elp, mod_wrap by lia. cases; (done || lia).
  - intros i Hi. specialize (Ei i ltac:(lia)). rewrite lookup_app_l in Ei by done. rewrite Ei, nth_insert by lia.
    rewrite Elp, !mod_wrap by lia. cases; (done || lia).
Qed.

Lemma AddFirst_implements r x : Wf r -> implements (Buffer_AddFirst r x) (list_op (elements r) (OpAddFirst x)).
Proof.
  intros W0. destruct (maybeGrow_room r W0) as (r' & E & W & El & HL). unfold Buffer_AddFirst. rewrite E. cbn [mbind res_bind].
  clear E W0. rewrite <- El. clear El. pose proof (tail_at r' W ltac:(lia)) as Et. pose proof (elements_nth r') as Ei.
  rewrite <- (elements_length r') in *. destruct W as [Hc _ Hh]. set (h := ((bcap r' + head r' - 1) mod bcap r')%nat).
  assert (Eh : h = if (head r' =? 0)%nat then (bcap r' - 1)%nat else (head r' - 1)%nat)
    by (unfold h; rewrite mod_wrap by lia; cases; lia).
  assert (h < bcap r')%nat by (apply Nat.mod_upper_bound; lia).
  rewrite store_ok by lia. cbn [mbind res_bind list_op]. eexists. split; [done|].
  apply holds; [by rewrite length_insert|lia|cbn; lia| |done|].
  - rewrite Et. cbn [length]. rewrite !mod_wrap by lia. cases; lia.
  - intros [|i] Hi; cbn [length] in Hi; rewrite nth_insert by lia.
    + rewrite Nat.add_0_r, Nat.mod_small, Nat.eqb_refl by lia. done.
    + rewrite lookup_cons, Ei by lia. rewrite !mod_wrap by lia. cases; (lia || (do 2 f_equal; lia)).
Qed.

Lemma AddLast_implements r x : Wf r -> implements (Buffer_AddLast r x) (list_op (elements r) (OpAddLast x)).
Proof.
  intros W0. destruct (maybeGrow_room r W0) as (r' & E & W & El & HL). unfold Buffer_AddLast. rewrite E. cbn [mbind res_bind].
  clear E W0. rewrite <- El. clear El. pose proof (tail_at r' W ltac:(lia)) as Et. pose proof (elements_nth r') as Ei.
  rewrite <- (elements_length r') in *. destruct W as [Hc _ Hh].
  assert (tail r' < bcap r')%nat by (rewrite Et; apply Nat.mod_upper_bound; lia).
  rewrite store_ok by lia. cbn [mbind res_bind list_op]. eexists. split; [done|].
  apply holds; rewrite ?length_app; cbn [length]; [by rewrite length_insert|lia|lia| | |].
  - rewrite Et, Nat.Div0.add_mod_idemp_l. f_equal. lia.
  - cases; (done || lia).
  - intros i Hi. rewrite nth_insert by lia. rewrite Et, !mod_wrap by lia.
    destruct (decide (i = length (elements r'))) as [->|].
    + rewrite list_lookup_middle by done. rewrite Nat.eqb_refl. done.
    + rewrite lookup_app_l, Ei, mod_wrap by lia. cases; (done || lia).
Qed.

Lemma ring_op_implements r o : Wf r -> implements (ring_op r o) (list_op (elements r) o).
Proof.
  intros W. destruct o as [x|x| | |n|n| |]; cbn [ring_op].
  - by apply AddFirst_implements.
  - by apply AddLast_implements.
  - by apply RemoveFirst_implements.
  - by apply RemoveLast_implements.
  - unfold Buffer_Reserve. cbn [list_op]. rewrite elements_length. destruct (Z.ltb_spec n (Z.of_nat (Buffer_Len r))); [by eexists|].
    destruct (_ <? n); [|by exists r]. by apply resize_fits; [|lia].
  - unfold Buffer_Resize. cbn [list_op]. rewrite elements_length. destruct (Z.ltb_spec n (Z.of_nat (Buffer_Len r))); [by eexists|].
    destruct (n =? _); cbn [negb]; [by exists r|]. by apply resize_fits; [|lia].
  - eexists. split; [done|]. split; [|done]. unfold Buffer_Reset. rewrite <- (wf_cap r W). apply empty_Wf.
  - eexists. split; [done|]. split; [|done]. apply (empty_Wf []).
Qed.

Lemma ring_run_implements ops : forall r, Wf r -> implements (ring_run r ops) (list_run (elements r) ops).
Proof.
  induction ops as [|o ops IH]; intros r W; [by exists r|].
  pose proof (ring_op_implements r o W) as R. cbn [ring_run list_run].
  destruct (list_op (elements r) o) as [l|]; cbn [implements] in R.
  - destruct R as (r' & -> & W' & <-). by apply IH.
  - destruct R as [m ->]. by exists m.
Qed.

(** What a caller sees of a buffer that holds [l]. *)
Definition observes (r : Buffer) (l : list T) : Prop :=
  Buffer_Len r = length l /\ (Buffer_Len r <= Buffer_Cap r)%nat /\ Buffer_all r = l /\
  (forall i, Buffer_Get r i = match (if i <? 0 then None else l !! Z.to_nat i) with Some x => Ok x | None => Panic "index out of bounds" end) /\
  Buffer_GetFirst r = match l with x :: _ => Ok x | [] => Panic "getting first from empty ring buffer" end /\
  Buffer_GetLast r = match last l with Some x => Ok x | None => Panic "getting last from empty ring buffer" end.

Lemma Get_elements r i :
  Wf r -> Buffer_Get r i = match (if i <? 0 then None else elements r !! Z.to_nat i) with Some x => Ok x | None => Panic "index out of bounds" end.
Proof.
  intros W. unfold Buffer_Get. pose proof (Len_le r W). rewrite (nonEmpty_Len r W).
  destruct (Z.ltb_spec i 0); [by rewrite orb_true_r|]. rewrite orb_false_r.
  destruct (Z.leb_spec (Z.of_nat (Buffer_Len r)) i).
  - rewrite orb_true_r, lookup_ge_None_2 by (rewrite elements_length; lia). done.
  - destruct (Nat.eqb_spec (Buffer_Len r) 0); [lia|]. cbn [negb orb]. unfold index.
    rewrite (Nat.add_comm (Z.to_nat i)), at_slot, elements_lookup by (done || lia). done.
Qed.

Lemma Wf_observes r : Wf r -> observes r (elements r).
Proof.
  intros W. pose proof (Len_le r W) as HL. pose proof (elements_length r) as EL. pose proof (nonEmpty_Len r W) as En.
  repeat split; [done|done| |intros i; by apply Get_elements| |].
  - unfold Buffer_all. rewrite copyTo_elements, length_replicate, take_ge, drop_ge, app_nil_r
      by (done || rewrite ?length_replicate; lia). done.
  - unfold Buffer_GetFirst. rewrite En. destruct (Nat.eqb_spec (Buffer_Len r) 0) as [Z|N]; cbn [negb].
    + rewrite Z in EL. apply nil_length_inv in EL. by rewrite EL.
    + pose proof (at_slot r 0 W ltac:(lia)) as A. pose proof (elements_lookup r 0 ltac:(lia)) as E.
      rewrite Nat.add_0_r, Nat.mod_small in A by (destruct (wf_head r W); lia).
      unfold index. rewrite A. destruct (elements r); [done|]. cbn in E. by injection E as ->.
  - unfold Buffer_GetLast. rewrite En. destruct (Nat.eqb_spec (Buffer_Len r) 0) as [Z|N]; cbn [negb].
    + rewrite Z in EL. apply nil_length_inv in EL. by rewrite EL.
    + rewrite last_lookup, EL, elements_lookup by lia.
      pose proof (at_slot r (pred (Buffer_Len r)) W ltac:(lia)) as A. pose proof (tail_at r W ltac:(lia)) as Et.
      destruct (wf_head r W); [|lia]. rewrite mod_wrap in Et by lia.
      assert ((bcap r + tail r - 1) mod bcap r = (head r + pred (Buffer_Len r)) mod bcap r)%nat as ->
        by (rewrite !mod_wrap by (rewrite ?Et; cases; lia); rewrite Et; cases; lia).
      unfold index. by rewrite A.
Qed.

(** C27: The ring buffer implements lists.  Start from a buffer over any scratch slice whose
    capacity is its length (the zero value among them) and run any sequence of [AddFirst],
    [AddLast], [RemoveFirst], [RemoveLast], [Reserve], [Resize], [Reset] and [Discard].  If every
    operation is legal on the list, the run succeeds, and [Len], [all], [Get] at every position,
    [GetFirst] and [GetLast] then answer as the list does, panicking exactly where it has no
    element.  If some operation is illegal, the run panics. *)
Theorem ring_refines (scratch : list T) (ops : list op) :
  match list_run [] ops with
  | Some l => exists r, ring_run (MakeBuffer scratch (length scratch)) ops = Ok r /\ observes r l
  | None => exists m, ring_run (MakeBuffer scratch (length scratch)) ops = Panic m
  end.
Proof.
  pose proof (ring_run_implements ops _ (empty_Wf scratch)) as R. change (elements _) with (@nil T) in R.
  destruct (list_run [] ops) as [l|]; [|exact R].
  destruct R as (r & E & W & <-). exists r. split; [exact E|by apply Wf_observes].
Qed.

(** A scratch slice with spare capacity is not usable: the indices run over the capacity, the
    slice is indexed by its length. *)
Theorem scratch_capacity_unusable (scratch : list T) (c : nat) (x : T) :
  (length scratch < c)%nat ->
  Buffer_AddFirst (MakeBuffer scratch c) x = Panic "index out of range" /\
  Buffer_AddLast (MakeBuffer [] c) x = Panic "index out of range".
Proof.
  intros H. assert (G : forall s, Buffer_maybeGrow (MakeBuffer s c) = Ok (MakeBuffer s c))
    by (intros s; unfold Buffer_maybeGrow, Buffer_Len; cbn; by destruct c; [lia|]).
  unfold Buffer_AddFirst, Buffer_AddLast. rewrite !G. cbn [mbind res_bind MakeBuffer bcap head tail buffer].
  split; [|done]. unfold store. rewrite Nat.mod_small by lia. destruct (Nat.ltb_spec (c + 0 - 1) (length scratch)); [lia|done].
Qed.
End Ring.
